(* ===== verification/_CoqProject ===== *)
-Q . S2P
Prelude.v
Rely.v
Schema.v
Consistency.v
Dispatch.v
Stages.v
Tasks.v
Watermark.v
Invariant.v
Runs.v
Outbox.v
Operations.v
Completion.v
Pipeline.v
Barrier.v
Fencing.v
Ingress.v
Attempts.v
Failure.v
Publication.v
Agreement.v
RedisKeys.v
Streams.v
Relay.v
System.v
Processes.v
Worker.v
WorkerSpec.v
Delivery.v
DeliveryDb.v
TextChunks.v
Subscriptions.v
SummaryScheduler.v
Deliver.v
DeliverSpec.v
RedisStore.v
Coordination.v
Caches.v
Hooks.v
HooksSpec.v
KeyPool.v
LlmClient.v
Wal.v
Regex.v
Sensitive.v
MemoryText.v
Memory.v
MemoryOps.v
MemoryReview.v
MemoryHistory.v
MemorySpec.v
Classifier.v
Notes.v
NotesDb.v
Vectors.v
TaskRegistry.v
LocalExecutor.v
Calendar.v
MemoryRuns.v
CandidateValidation.v
PreferencePolicy.v
AccessCounts.v
TaskIdentity.v
CandidateRetrieval.v
Adjudication.v
AdjudicationSpec.v
MemoryExtraction.v
Consolidation.v
MemoryExtractionSpec.v
Ingestion.v
IngestionSpec.v
IngestionLocal.v
MemoryScheduler.v
AskPlan.v
AskPlanSpec.v
AskEvidence.v
AskExecution.v
AskAnswer.v
