(* ===== verification/Prelude.v ===== *)
(** Suixinji: the message pipeline, its processes and their coordination.

    * The program

    Suixinji is a note-taking agent: messages from a chat or the console become notes and
    memories, and questions about them are answered.  This library verifies the part that
    every message goes through, as it runs on PostgreSQL and Redis:

    - a receiver stores each message as an inbox row with the next sequence number of its
      space, and creates a task for it ([repositories/postgres/dispatch.py]).  A question
      must see the messages before it, so its task is created "blocked" until the watermark
      of the space - the number up to which all messages are settled - reaches it
      ([runtime/consistency.py]);
    - tasks are claimed by workers under a lease, completed, deferred or failed
      ([repositories/postgres/tasks.py]), and completing one settles stages of its message,
      advances the watermarks and activates the tasks that waited;
    - the request for a task is written to an outbox in the transaction that queues it
      ([repositories/postgres/outbox.py]); a relay publishes it to a Redis stream
      ([apps/outbox_relay.py], [runtime/streams/client.py]); a worker reads it, does it and
      acknowledges it ([runtime/streams/worker.py]);
    - an answer is sent to the chat by a delivery task ([apps/handlers.py],
      [runtime/delivery_store.py], [repositories/postgres/delivery.py]);
    - the processes coordinate through keys of Redis: idempotency keys, locks, rate limits
      ([infrastructure/redis_*.py]).

    * The files

    The database pipeline.
    - [Schema]: the tables and the database as a record ([infrastructure/schema.py]).
      [Consistency], [Dispatch], [Stages], [Tasks], [Outbox]: one definition per function
      of the repository modules, named after it; a function with a session is a [session]
      computation, a function that opens [session_scope()] is a [transaction].
    - [Watermark] specifies a watermark as a function of the messages and proves that the
      code's incremental update computes it.  [Invariant] holds the invariant [inv] of the
      tables; [Runs], [Operations], [Completion] prove that every operation keeps it.
    - [Pipeline]: the step relation [step] over all the transactions, [reachable] states,
      and the safety theorems.  [Fencing], [Ingress], [Attempts], [Failure], [Publication]
      and [Agreement] hold further theorems about the same steps: leases and claim versions,
      idempotent receiving, the log of attempts, retries and dead letters, the outbox
      invariant, and that the single-statement completion agrees with the one by rows.

    The processes.
    - [Streams] is the client of the Redis streams; [RedisKeys] the names of the keys.
    - [System]: the abstract specification [sys_step] of what a process may do to the
      database and to Redis, and the theorem that no request is dropped under it.
    - [Rely]: rely-guarantee logic for [IO] programs whose environment acts before each of
      their steps; the interface is the class [ProcessLaws].  [Processes] instantiates it
      for the system; [Relay] and [Processes] verify the relay, [Worker] and [WorkerSpec]
      the workers against [sys_step].

    Deliveries.
    - [Delivery]: the interface [DeliveryStore] with its laws [DeliveryLaws], and the store
      in a file; [DeliveryDb]: the store in the database as another instance.
      [Subscriptions]: the two stores of summary subscriptions, which answer alike.
      [TextChunks]: splitting a text.  [Deliver], [DeliverSpec]: the handler, verified
      against the interface, with its own step relation [dstep].

    Coordination.
    - [RedisStore]: the commands of Redis as a class with the documented effects as laws,
      and a concrete instance; [Coordination], [Coordination]: idempotency, locks,
      rate limits.

    The model client.
    - [KeyPool]: the pool of API keys with its rotation and cooldowns ([core/llm_key_pool.py]);
      [LlmClient]: the failover loops of completions and embeddings over it
      ([core/llm_client.py]), with the other threads that use the pool in between.

    The local mode.
    - [Wal]: the write-ahead log in text files ([core/wal.py], [core/file_lock.py]).
    - [TaskRegistry]: the tasks and their registry ([runtime/task.py],
      [runtime/task_registry.py]); [LocalExecutor]: the bounded executor
      ([runtime/executor.py]) as threads that interleave at their atomic actions;
      [LocalExecutor]: its invariant and its theorems.

    Notes and the ingestion.
    - [Regex]: regular expressions and their search, proved equal to a relation of matching;
      [Sensitive]: the patterns for secrets and the assessment of a text
      ([core/sensitive.py]).  [Classifier]: the classification by local rules and the
      normalisation of the model's ([core/classifier.py], [core/taxonomy.py]).
    - [Notes]: the interface [NoteStore] with its contract [NoteLaws], and the index files
      ([storage/note_storage.py]); [NotesDb]: the tables as another instance, and the queries
      ([repositories/postgres/notes.py]).  [Vectors]: the same for the vectors of the notes
      ([storage/vector_store.py], [repositories/postgres/vectors.py]).
    - [Ingestion]: from the records of a log to notes, memories and vectors
      ([core/worker.py]), against the interfaces; [IngestionSpec]: the steps of the system
      [ingest_step] and the theorems; [IngestionLocal]: the log files keep the contract of a
      log, and the theorems run on the local mode.

    The memories.
    - [MemoryText]: the normalised texts, keys and merged contents ([memory/models.py],
      [memory/policies/]).  [Memory]: the tables of the memories and the basic operations of
      [memory/repository.py]; [MemoryOps]: decisions on extracted candidates, direct edits,
      expiry, purging; [MemoryReview]: approving, rejecting and editing what waits for a
      review.  [MemoryHistory]: the invariant of the versions and that every operation keeps
      it; [MemorySpec]: the step relation [store_step] of the store and its theorems.
    - [CandidateValidation]: the last gate before a candidate may change a memory
      ([memory/candidate_validator.py]).  [MemoryExtraction]: the state machine of the
      extraction of a note, the consolidation of its candidates into decisions of the store,
      and the daily pass ([memory/service.py], [memory/consolidator.py],
      [memory/evolution.py]); [MemoryExtractionSpec]: its theorems.
    - [MemoryRuns]: the tables of the extraction states and of the runs of the consolidation,
      with their leases, and the repeated writes ([memory/repository.py]);
      [MemoryRuns]: the runs as a transition system of processes [run_step].
      [Calendar]: dates and the keys of periods.  [MemoryScheduler], [MemoryScheduler]:
      the runs over the spaces and the tick of the scheduler ([memory/scheduler.py]).

    The questions.
    - [AskPlan]: the units of a plan, their validation and the planner
      ([agent/ask_models.py], [agent/ask_plan_validator.py], [agent/ask_planner.py]);
      [AskPlanSpec]: the search for cycles and the well-formedness of plans.
    - [AskEvidence]: the evidence of a unit, its resolution and the expansion of notes, and
      [AskExecution]: the rounds of the execution and the repair
      ([agent/ask_executor.py]).  [AskAnswer], [AskAnswer]: the contract of the reply
      of the model, the exported claims and the answers without a model
      ([agent/ask_workflow.py]).

    * What the theorems show

    - The barrier: a task is claimed only when all the messages it must see are settled;
      watermarks are exact, progress is monotone, numbers have no gaps, and a task is blocked
      only while a message before it is open ([Pipeline]).
    - Fencing: a finished, failed or deferred claim is spent, a new claim invalidates the
      older ones, a live lease is exclusive, a terminal status is final ([Fencing]).
    - Errors: retries stay within the budget, a dead letter releases the barrier
      ([Failure]); failed sending is recorded ([DeliverSpec]).
    - Transport: a queued task always has its request in the outbox ([Publication]), a
      published event is final ([Relay]), and the request of a queued task is never dropped
      between outbox, stream and acknowledgement ([System]); the relay, both workers and the
      delivery handler refine their specifications ([Processes], [WorkerSpec],
      [DeliverSpec]).
    - Bounds: sends per delivery, live slots, cost per window; [acquire] terminates.
    - Equivalences: the two completions, the two subscription stores, the two delivery
      stores through one interface.
    - The pool of keys: well-formedness, a fair rotation, the exact waiting time
      ([KeyPool]); a call to the model ends after a bounded number of requests ([LlmClient]).
    - The log of the local mode reads back what was written, each message once ([Wal]).
    - The local executor: however its threads interleave, slots, keys and jobs stay within
      their bounds, a message has one job, and the registry knows every job
      ([LocalExecutor]).
    - The extraction: processing a note settles its state within one attempt, a completed note
      has decided every valid candidate, memories change only by calls of the store, the daily
      pass accounts for every note ([MemoryExtractionSpec]); what passes the validation is
      sound ([CandidateValidation]).
    - The consolidation: a completed period is final, a run that was taken over is fenced, a
      repeated write happens as a whole or not at all ([MemoryRuns]); a run over the
      spaces leaves no period open, and a tick leaves exactly the failures due
      ([MemoryScheduler]).
    - The memories: the history of a memory is complete and only extended, a decision on a
      memory that has changed meanwhile never overwrites it, a candidate and a review are
      decided once ([MemorySpec]).
    - The questions: the search for cycles is exact, a validated plan is well-formed and
      planning ends ([AskPlanSpec]); every unit of a plan is answered once, in order, the
      repair is bounded ([AskExecution]); selected evidence, added notes and exported claims
      are grounded in what was retrieved ([AskEvidence], [AskAnswer]).
    - The ingestion: for any stores that keep their contracts, no sensitive text becomes a
      note, a message becomes one note, no message is lost between the log and the notes, the
      pending records are drained, and a note is enriched a bounded number of times
      ([IngestionSpec]); named secrets are recognised wherever they stand ([Sensitive]); what
      the queries and the vector search return is in its space and may be shown ([NotesDb],
      [Vectors]).

    * Conventions

    - Times and durations are integers of microseconds; one reading [now] serves a
      transaction.  A Python string is its UTF-8 bytes.  A payload is a record with the keys
      the code reads; [None] is a missing key or a null.
    - A transaction is one atomic step: rows are locked as the code locks them, and SKIP
      LOCKED skips nothing.  An exception undoes the writes.  The anomaly of READ COMMITTED
      in the one-statement completion (a snapshot older than the lock) is not modelled.
    - Identifiers, digests, case tables and the text of an exception come from the class
      [Platform], whose members are arbitrary functions; the settings are the class
      [Settings] with the defaults of [core/settings.py] as an instance.
    - Redis and the chat service are parameters: a reply is a function of the history, with
      the documented facts as laws.  Trimming by MAXLEN is left out, and so are logging and
      tracing.
    - The loops of the program that run for ever are modelled by their bodies.  The
      waiting for a lock and the failover of the model client take fuel, and enough fuel is
      proved to give the result.
    - The log of events in [Deliver] and the columns for it are instrumentation of the
      model; the code does not read them.
    - Integers of the database are not bounded to their columns' widths.

    * Not modelled

    Of the memories, the patterns and prompts of the extraction, the retrieval, the
    adjudication by patterns, the cards and facts (off by default) and the twin of the store
    on PostgreSQL; the consolidations of a week and of a month are parameters of the
    scheduler.  Of the questions, the routing, the domain tools and the ranking, which are
    prompts to language models, patterns over Chinese text and floating-point scores: what
    they return is a parameter ([Retrieval], [rounds], the replies).  Parsing by pydantic is
    a parameter.  The retry on a locked SQLite database is modelled on its own
    ([MemoryRuns]) and proved to be one transaction or none; [task_instance_authorized] is an
    arbitrary predicate.  Of the local executor the bodies of the jobs, the deliveries and
    the durations are left out, and the limit of its history is taken to be non-negative.
    Of the notes, the fulltext and hybrid search and the redaction for the log output are left
    out; floating-point numbers are the operations of the class [Similarity] on their 64 bits.
    The HTTP API, the console, the chat transport, the evaluation scripts, migrations and
    metrics are input and output.  The functions [update_task_status] and [create_task] of
    [repositories/postgres/tasks.py], which the program does not call, are definitions but
    not steps.  Of [coordinated_lock] the renewal thread is not modelled. *)

From stdpp Require Import base list strings gmap pretty relations.
From Stdlib Require Import ZArith Lia.

Open Scope string_scope.

(** * Exceptions and results *)

(** The exceptions the modelled code raises, catches or converts. *)
Inductive exn :=
  | ValueError (msg : string)
  | KeyError (key : string)
  | TypeError (msg : string)
  | IntegrityError (constraint : string)
  | NoResultFound
  | MultipleResultsFound
  | RetryLater (msg : string) (delay : Z)
  | TimeoutError (msg : string)
  | RuntimeError (msg : string)
  | OtherError (type_name msg : string).

#[export] Instance exn_eq_dec : EqDecision exn.
Proof. solve_decision. Defined.

(** [type(exc).__name__] *)
Definition exn_type (e : exn) : string :=
  match e with
  | ValueError _ => "ValueError"
  | KeyError _ => "KeyError"
  | TypeError _ => "TypeError"
  | IntegrityError _ => "IntegrityError"
  | NoResultFound => "NoResultFound"
  | MultipleResultsFound => "MultipleResultsFound"
  | RetryLater _ _ => "RetryLater"
  | TimeoutError _ => "TimeoutError"
  | RuntimeError _ => "RuntimeError"
  | OtherError type_name _ => type_name
  end.

Inductive result (A : Type) :=
  | Ok (a : A)
  | Raise (e : exn).
Arguments Ok {A} a.
Arguments Raise {A} e.

#[export] Instance result_ret : MRet result := λ A a, Ok a.
#[export] Instance result_bind : MBind result := λ A B f r,
  match r with Ok a => f a | Raise e => Raise e end.

Definition is_Ok {A} (r : result A) : Prop := match r with Ok _ => True | Raise _ => False end.

(** * Record update: [r <| field := v |>] *)

(** [Eta T] gives the eta-expansion of a record type; a setter for a field is
    obtained by abstracting the projection out of it. *)
Class Eta (T : Type) := eta_record : T → T.
Class FieldSet {T A : Type} (proj : T → A) := field_set : (A → A) → T → T.
Arguments field_set {T A} proj {_} _ _.

Ltac build_field_set :=
  match goal with
  | |- @FieldSet ?T ?A ?proj =>
      let e := eval unfold eta_record in (@eta_record T _) in
      let e := eval cbv delta [eta_record] in e in
      let h := eval hnf in e in
      let p := eval pattern proj in h in
      match p with
      | ?body _ =>
          let s := constr:(fun (f : A → A) => body (fun r : T => f (proj r))) in
          let s := eval cbv beta in s in
          exact s
      end
  end.

#[export] Hint Extern 1 (FieldSet _) => build_field_set : typeclass_instances.

Declare Scope record_scope.
Delimit Scope record_scope with record.
#[warnings="-postfix-notation-not-level-1"]
Notation "r <| f := v |>" := (field_set f (λ _, v) r)
  (at level 12, left associativity, f constr, v at level 200,
   format "r  <| f  :=  v |>") : record_scope.
Global Open Scope record_scope.


(** * A state-and-exception monad *)

(** One database transaction, or one critical section: it reads and updates the
    state and either returns a value or raises. *)
Definition M (S A : Type) : Type := S → result (A * S).

#[export] Instance M_ret S : MRet (M S) := λ A a s, Ok (a, s).
#[export] Instance M_bind S : MBind (M S) := λ A B f m s,
  match m s with
  | Ok (a, s') => f a s'
  | Raise e => Raise e
  end.

Definition raise {S A} (e : exn) : M S A := λ _, Raise e.
Definition gets {S A} (f : S → A) : M S A := λ s, Ok (f s, s).
Definition modify {S} (f : S → S) : M S unit := λ s, Ok (tt, f s).
Definition lift_result {S A} (r : result A) : M S A := λ s,
  match r with Ok a => Ok (a, s) | Raise e => Raise e end.

(** A Python [for] loop over a list, run for its effects. *)
Fixpoint for_each {S A} (l : list A) (body : A → M S unit) : M S unit :=
  match l with
  | [] => mret tt
  | x :: l => body x ≫= λ _, for_each l body
  end.

(** A list comprehension whose element has effects. *)
Fixpoint map_each {S A B} (f : A → M S B) (l : list A) : M S (list B) :=
  match l with
  | [] => mret []
  | x :: l => f x ≫= λ y, map_each f l ≫= λ ys, mret (y :: ys)
  end.

(** [with session_scope() as session: ...]: the changes are committed when the
    block ends normally and rolled back when it raises. *)
Definition transaction {S A} (m : M S A) (s : S) : result A * S :=
  match m s with
  | Ok (a, s') => (Ok a, s')
  | Raise e => (Raise e, s)
  end.

(** A program that runs outside a transaction: what it did before an exception
    stays done. *)
Definition IO (S A : Type) : Type := S → result A * S.

#[export] Instance IO_ret S : MRet (IO S) := λ A a s, (Ok a, s).
#[export] Instance IO_bind S : MBind (IO S) := λ A B f m s,
  match m s with
  | (Ok a, s') => f a s'
  | (Raise e, s') => (Raise e, s')
  end.

Definition throw {S A} (e : exn) : IO S A := λ s, (Raise e, s).
Definition io_lift {S A} (r : result A) : IO S A := λ s, (r, s).
Definition io_gets {S A} (f : S → A) : IO S A := λ s, (Ok (f s), s).
Definition io_modify {S} (f : S → S) : IO S unit := λ s, (Ok tt, f s).

(** [try: m  except Exception as exc: h(exc)  else: k] *)
Definition try_except {S A B} (m : IO S A) (h : exn → IO S B) (k : A → IO S B) : IO S B :=
  λ s, match m s with
       | (Ok a, s') => k a s'
       | (Raise e, s') => h e s'
       end.

(** A [for] loop that carries its local variables. *)
Fixpoint io_for {S A B} (l : list A) (acc : B) (body : B → A → IO S B) : IO S B :=
  match l with
  | [] => mret acc
  | x :: l => body acc x ≫= λ acc', io_for l acc' body
  end.

Lemma bind_Ok {S A B} (m : M S A) (f : A → M S B) s b s' :
  (m ≫= f) s = Ok (b, s') ↔ ∃ a s1, m s = Ok (a, s1) ∧ f a s1 = Ok (b, s').
Proof.
  unfold mbind, M_bind. split.
  - destruct (m s) as [[a s1]|e] eqn:E; [eauto|done].
  - by intros (a & s1 & -> & ?).
Qed.

Lemma bind_assoc {S A B C} (m : M S A) (f : A → M S B) (g : B → M S C) s :
  ((m ≫= f) ≫= g) s = (m ≫= λ a, f a ≫= g) s.
Proof. unfold mbind, M_bind. by destruct (m s) as [[]|]. Qed.

(** ** Relations that a computation respects *)

(** [sat R m]: every normal run of [m] relates the state before to the state
    after.  Invariants ([I] before implies [I] after) and monotonicity facts are
    both of this form, and compose because [R] is a preorder. *)
Definition sat {S A} (R : relation S) (m : M S A) : Prop :=
  ∀ s a s', m s = Ok (a, s') → R s s'.

Definition keeps {S} (I : S → Prop) : relation S := λ s s', I s → I s'.

#[export] Instance keeps_preorder {S} (I : S → Prop) : PreOrder (keeps I).
Proof. split; unfold keeps; [intros ?|intros ???]; tauto. Qed.

Section sat.
Context {S : Type} (R : relation S) `{!PreOrder R}.

Lemma sat_ret {A} (a : A) : sat R (mret a).
Proof. intros s a' s' [= _ ->]. reflexivity. Qed.

Lemma sat_raise {A} e : sat R (@raise S A e).
Proof. by intros s a s' ?. Qed.

Lemma sat_gets {A} (f : S → A) : sat R (gets f).
Proof. intros s a s' [= _ ->]. reflexivity. Qed.

Lemma sat_modify f : (∀ s, R s (f s)) → sat R (modify f).
Proof. intros Hf s a s' [= _ <-]. apply Hf. Qed.

Lemma sat_lift_result {A} (r : result A) : sat R (lift_result r).
Proof. intros s a s'. destruct r; [|done]. intros [= _ ->]. reflexivity. Qed.

Lemma sat_bind {A B} (m : M S A) (f : A → M S B) :
  sat R m → (∀ a, sat R (f a)) → sat R (m ≫= f).
Proof.
  intros Hm Hf s b s' (a & s1 & H1 & H2)%bind_Ok.
  etrans; [exact (Hm _ _ _ H1)|exact (Hf _ _ _ _ H2)].
Qed.

Lemma sat_for_each {A} (l : list A) body :
  (∀ x, sat R (body x)) → sat R (for_each l body).
Proof.
  intros Hb. induction l as [|x l IH]; simpl; [apply sat_ret|].
  apply sat_bind; auto.
Qed.

Lemma sat_map_each {A B} (f : A → M S B) (l : list A) :
  (∀ x, sat R (f x)) → sat R (map_each f l).
Proof.
  intros Hf. induction l as [|x l IH]; simpl; [apply sat_ret|].
  apply sat_bind; [done|]. intros y. apply sat_bind; [done|]. intros ys. apply sat_ret.
Qed.

Lemma sat_if {A} (b : bool) (m1 m2 : M S A) :
  sat R m1 → sat R m2 → sat R (if b then m1 else m2).
Proof. by destruct b. Qed.

Lemma sat_option {A B} (o : option A) (f : A → M S B) g :
  (∀ a, sat R (f a)) → sat R g →
  sat R (match o with Some a => f a | None => g end).
Proof. by destruct o. Qed.

Lemma sat_transaction {A} (m : M S A) s : sat R m → R s (transaction m s).2.
Proof.
  intros Hm. unfold transaction. destruct (m s) as [[a s']|e] eqn:E; simpl.
  - exact (Hm _ _ _ E).
  - reflexivity.
Qed.
End sat.

Create HintDb sat.
#[export] Hint Resolve sat_ret sat_raise sat_gets sat_lift_result sat_bind
  sat_for_each sat_if sat_option : sat.

(** Splits a computation along its binds and branches; what is left are the
    state updates. *)
Ltac sat_step :=
  lazymatch goal with
  | |- sat _ (mret _) => apply sat_ret; try typeclasses eauto
  | |- sat _ (raise _) => apply sat_raise
  | |- sat _ (gets _) => apply sat_gets; try typeclasses eauto
  | |- sat _ (lift_result _) => apply sat_lift_result; try typeclasses eauto
  | |- sat _ (mbind _ _) => apply sat_bind; [try typeclasses eauto| |intros ?]
  | |- sat _ (for_each _ _) => apply sat_for_each; [try typeclasses eauto|intros ?]
  | |- sat _ (map_each _ _) => apply sat_map_each; [try typeclasses eauto|intros ?]
  | |- sat _ (match ?x with _ => _ end) => destruct x eqn:?
  | |- sat _ (modify _) => apply sat_modify; intros ?
  end.
Ltac sat_auto := repeat sat_step; eauto with sat.

(** ** Pre- and postconditions *)

(** [triple P m Q]: a normal run of [m] from a state with [P] ends with a result and a state
    with [Q].  It says more than [sat] when the postcondition depends on the result. *)
Definition triple {S A} (P : S → Prop) (m : M S A) (Q : A → S → Prop) : Prop :=
  ∀ s a s', P s → m s = Ok (a, s') → Q a s'.

Section triples.
Context {S : Type}.
Implicit Types P : S → Prop.

Lemma triple_ret {A} P (Q : A → S → Prop) a : (∀ s, P s → Q a s) → triple P (mret a) Q.
Proof. intros HQ s a' s' HP [= <- <-]. auto. Qed.
Lemma triple_raise {A} P (Q : A → S → Prop) e : triple P (raise e) Q.
Proof. by intros s a s' _ ?. Qed.
Lemma triple_modify P Q f : (∀ s, P s → Q tt (f s)) → triple P (modify f) Q.
Proof. intros HQ s a s' HP [= <- <-]. auto. Qed.
Lemma triple_bind {A B} P R (Q : B → S → Prop) (m : M S A) (f : A → M S B) :
  triple P m R → (∀ a, triple (R a) (f a) Q) → triple P (m ≫= f) Q.
Proof. intros Hm Hf s b s' HP (a & s1 & H1 & H2)%bind_Ok. eapply Hf; eauto. Qed.

(** Reading keeps the state: what was read is remembered. *)
Lemma triple_gets {A B} P (Q : B → S → Prop) (g : S → A) (f : A → M S B) :
  (∀ a, triple (λ s, P s ∧ a = g s) (f a) Q) → triple P (gets g ≫= f) Q.
Proof. intros Hf s b s' HP E. exact (Hf (g s) s b s' (conj HP eq_refl) E). Qed.

Lemma triple_pre {A} P P' (Q : A → S → Prop) m :
  triple P m Q → (∀ s, P' s → P s) → triple P' m Q.
Proof. intros Hm HP s a s' ?. apply Hm. auto. Qed.
Lemma triple_post {A} P (Q Q' : A → S → Prop) m :
  triple P m Q → (∀ a s, Q a s → Q' a s) → triple P m Q'.
Proof. intros Hm HQ s a s' ??. eapply HQ, Hm; eauto. Qed.

(** A loop, with an invariant about the elements that are left. *)
Lemma triple_for_each {A} (I : list A → S → Prop) (l : list A) body :
  (∀ x k, triple (I (x :: k)) (body x) (λ _, I k)) → triple (I l) (for_each l body) (λ _, I []).
Proof.
  intros Hb. induction l as [|x l IH]; simpl; [by apply triple_ret|].
  eapply triple_bind; [apply Hb|]. intros ?. apply IH.
Qed.

Lemma triple_sat {A} (R : relation S) P (m : M S A) :
  sat R m → (∀ s s', R s s' → P s → P s') → triple P m (λ _, P).
Proof. intros Hm HR s a s' HP E. eapply HR; [by eapply Hm|done]. Qed.
End triples.

(** [io_keeps I m]: whatever [m] does, an exception included, keeps [I]. *)
Definition io_keeps {S A} (I : S → Prop) (m : IO S A) : Prop := ∀ s, I s → I (m s).2.

Section io_keeps.
Context {S : Type} (I : S → Prop).

Lemma io_keeps_ret {A} (a : A) : io_keeps I (mret a).
Proof. by intros s. Qed.
Lemma io_keeps_throw {A} e : io_keeps I (@throw S A e).
Proof. by intros s. Qed.
Lemma io_keeps_gets {A} (f : S → A) : io_keeps I (io_gets f).
Proof. by intros s. Qed.
Lemma io_keeps_lift {A} (r : result A) : io_keeps I (@io_lift S A r).
Proof. by intros s. Qed.
Lemma io_keeps_bind {A B} (m : IO S A) (f : A → IO S B) :
  io_keeps I m → (∀ a, io_keeps I (f a)) → io_keeps I (m ≫= f).
Proof.
  intros Hm Hf s Hs. unfold mbind, IO_bind. specialize (Hm s Hs).
  destruct (m s) as [[a|e] s']; [by apply Hf|done].
Qed.
Lemma io_keeps_transaction {A} (m : M S A) : triple I m (λ _, I) → io_keeps I (transaction m).
Proof.
  intros Hm s Hs. unfold transaction. destruct (m s) as [[a s']|e] eqn:E; [|done].
  exact (Hm s a s' Hs E).
Qed.
End io_keeps.

(** Splits an [IO] program along its binds and branches; its transactions are left. *)
Ltac io_step :=
  lazymatch goal with
  | |- io_keeps _ (mret _) => apply io_keeps_ret
  | |- io_keeps _ (throw _) => apply io_keeps_throw
  | |- io_keeps _ (io_gets _) => apply io_keeps_gets
  | |- io_keeps _ (io_lift _) => apply io_keeps_lift
  | |- io_keeps _ (mbind _ _) => apply io_keeps_bind; [|intros ?]
  | |- io_keeps _ (match ?x with _ => _ end) => destruct x eqn:?
  | |- io_keeps _ (transaction _) => apply io_keeps_transaction
  end.
Ltac io_auto := repeat io_step; eauto.

(** [io_triple P m Q]: a run of [m] from a state with [P] ends with a result - a value or an
    exception - and a state with [Q]. *)
Definition io_triple {S A} (P : S → Prop) (m : IO S A) (Q : result A → S → Prop) : Prop :=
  ∀ s, P s → Q (m s).1 (m s).2.

Section io_triple.
Context {S : Type}.
Implicit Types P : S → Prop.

Lemma io_triple_bind {A B} P (R : A → S → Prop) (Q : result B → S → Prop) (m : IO S A) f :
  io_triple P m (λ r s, match r with Ok a => R a s | Raise e => Q (Raise e) s end) →
  (∀ a, io_triple (R a) (f a) Q) → io_triple P (m ≫= f) Q.
Proof.
  intros Hm Hf s Hs. unfold mbind, IO_bind. specialize (Hm s Hs). destruct (m s) as [[a|e] s']; [by apply Hf|done].
Qed.
Lemma io_triple_ret {A} P (Q : result A → S → Prop) a : (∀ s, P s → Q (Ok a) s) → io_triple P (mret a) Q.
Proof. intros HQ s Hs. by apply HQ. Qed.
Lemma io_triple_throw {A} P (Q : result A → S → Prop) e : (∀ s, P s → Q (Raise e) s) → io_triple P (throw e) Q.
Proof. intros HQ s Hs. by apply HQ. Qed.
Lemma io_triple_gets {A B} P (Q : result B → S → Prop) (g : S → A) f :
  (∀ a, io_triple (λ s, P s ∧ a = g s) (f a) Q) → io_triple P (io_gets g ≫= f) Q.
Proof. intros Hf s Hs. by apply (Hf (g s) s). Qed.
Lemma io_triple_pre {A} P P' (Q : result A → S → Prop) m : io_triple P m Q → (∀ s, P' s → P s) → io_triple P' m Q.
Proof. intros Hm HP s Hs. by apply Hm, HP. Qed.
Lemma io_triple_post {A} P (Q Q' : result A → S → Prop) m :
  io_triple P m Q → (∀ r s, Q r s → Q' r s) → io_triple P m Q'.
Proof. intros Hm HQ s Hs. by apply HQ, Hm. Qed.
Lemma io_triple_keeps {A} P (m : IO S A) : io_keeps P m → io_triple P m (λ _, P).
Proof. intros Hm s Hs. by apply Hm. Qed.
Lemma io_triple_try {A B} P (R : result A → S → Prop) (Q : result B → S → Prop) (m : IO S A) h k :
  io_triple P m R → (∀ e, io_triple (R (Raise e)) (h e) Q) → (∀ a, io_triple (R (Ok a)) (k a) Q) →
  io_triple P (try_except m h k) Q.
Proof.
  intros Hm Hh Hk s Hs. unfold try_except. specialize (Hm s Hs).
  destruct (m s) as [[a|e] s']; [by apply (Hk a s')|by apply (Hh e s')].
Qed.

Lemma io_keeps_try {A B} (I : S → Prop) (m : IO S A) (h : exn → IO S B) k :
  io_keeps I m → (∀ e, io_keeps I (h e)) → (∀ a, io_keeps I (k a)) → io_keeps I (try_except m h k).
Proof.
  intros Hm Hh Hk s Hs. unfold try_except. specialize (Hm s Hs). destruct (m s) as [[a|e] s']; [by apply Hk|by apply Hh].
Qed.
Lemma io_keeps_for {A B} (I : S → Prop) (l : list A) (body : B → A → IO S B) : (∀ b x, io_keeps I (body b x)) →
  ∀ acc, io_keeps I (io_for l acc body).
Proof.
  intros Hb. induction l as [|x l IH]; intros acc; simpl; [apply io_keeps_ret|]. apply io_keeps_bind; [apply Hb|apply IH].
Qed.
End io_triple.

(** Splits a program that keeps a property of the state. *)
Ltac keeps_step :=
  lazymatch goal with
  | |- io_keeps _ (try_except _ _ _) => apply io_keeps_try; [|intros ?|intros ?]
  | |- io_keeps _ (io_for _ _ _) => apply io_keeps_for; intros ? ?
  | _ => io_step
  end.

(** * Booleans of the code as propositions *)

Create Rewrite HintDb bools.
#[export] Hint Rewrite andb_true_iff orb_true_iff negb_true_iff andb_false_iff
  orb_false_iff negb_false_iff bool_decide_eq_true bool_decide_eq_false
  Z.leb_le Z.ltb_lt Z.leb_gt Z.ltb_ge Z.eqb_eq Z.eqb_neq
  String.eqb_eq String.eqb_neq : bools.
Ltac bools := autorewrite with bools in *.

(** [x IN (...)] and [x in {...}] over string constants. *)
Definition py_in (x : string) (xs : list string) : bool := bool_decide (x ∈ xs).

Lemma py_in_true x xs : py_in x xs = true ↔ x ∈ xs.
Proof. unfold py_in. by rewrite bool_decide_eq_true. Qed.
Lemma py_in_false x xs : py_in x xs = false ↔ x ∉ xs.
Proof. unfold py_in. by rewrite bool_decide_eq_false. Qed.
#[export] Hint Rewrite py_in_true py_in_false : bools.

(** * Lists as tables *)

(** A table is the list of its rows in insertion order.  [SELECT ... WHERE p] is
    a filter, [UPDATE ... SET f WHERE p] a conditional map. *)
Definition select_where {A} (p : A → bool) (l : list A) : list A := List.filter p l.
Definition update_where {A} (p : A → bool) (f : A → A) (l : list A) : list A :=
  map (λ x, if p x then f x else x) l.

(** [scalar_one_or_none], [scalar_one] *)
Definition scalar_one_or_none {A} (l : list A) : result (option A) :=
  match l with
  | [] => Ok None
  | [x] => Ok (Some x)
  | _ => Raise MultipleResultsFound
  end.
Definition scalar_one {A} (l : list A) : result A :=
  match l with
  | [] => Raise NoResultFound
  | [x] => Ok x
  | _ => Raise MultipleResultsFound
  end.

(** [min(...)] and [max(...)] aggregates: NULL on no rows. *)
Fixpoint min_agg (l : list Z) : option Z :=
  match l with
  | [] => None
  | x :: l => Some (match min_agg l with Some y => Z.min x y | None => x end)
  end.
Fixpoint max_agg (l : list Z) : option Z :=
  match l with
  | [] => None
  | x :: l => Some (match max_agg l with Some y => Z.max x y | None => x end)
  end.

(** [ORDER BY]: a stable sort. *)
Fixpoint insert_by {A} (le : A → A → bool) (x : A) (l : list A) : list A :=
  match l with
  | [] => [x]
  | y :: l' => if le x y then x :: l else y :: insert_by le x l'
  end.
Definition sort_by {A} (le : A → A → bool) (l : list A) : list A :=
  foldr (insert_by le) [] l.

Lemma insert_by_Permutation {A} le (x : A) l : insert_by le x l ≡ₚ x :: l.
Proof.
  induction l as [|y l IH]; simpl; [done|]. destruct (le x y); [done|].
  rewrite IH. apply Permutation_swap.
Qed.
Lemma sort_by_Permutation {A} le (l : list A) : sort_by le l ≡ₚ l.
Proof.
  induction l as [|x l IH]; simpl; [done|]. by rewrite insert_by_Permutation, IH.
Qed.
Lemma elem_of_sort_by {A} le (x : A) l : x ∈ sort_by le l ↔ x ∈ l.
Proof. by rewrite sort_by_Permutation. Qed.

Section tables.
Context {A : Type}.
Implicit Types (l : list A) (p : A → bool) (f : A → A) (x y : A).

Lemma elem_of_select x p l : x ∈ select_where p l ↔ x ∈ l ∧ p x = true.
Proof. unfold select_where. rewrite !list_elem_of_In. apply filter_In. Qed.

Lemma elem_of_update y p f l :
  y ∈ update_where p f l ↔ ∃ x, x ∈ l ∧ y = (if p x then f x else x).
Proof.
  unfold update_where. rewrite list_elem_of_In, in_map_iff.
  setoid_rewrite list_elem_of_In. split; intros (x & ? & ?); eauto.
Qed.

(** A column that the update does not write keeps its values. *)
Lemma update_column {B} (c : A → B) p f l :
  (∀ x, c (f x) = c x) → map c (update_where p f l) = map c l.
Proof.
  intros Hc. unfold update_where. rewrite map_map. apply map_ext. intros x.
  destruct (p x); auto.
Qed.

Lemma update_column_keyed {B} (c : A → B) p f l :
  (∀ x, p x = true → c (f x) = c x) → map c (update_where p f l) = map c l.
Proof.
  intros Hc. unfold update_where. rewrite map_map. apply map_ext. intros x.
  destruct (p x) eqn:E; auto.
Qed.

Lemma update_select_comm p q f l :
  (∀ x, x ∈ l → p x = true → q (f x) = q x) →
  update_where p f (select_where q l) = select_where q (update_where p f l).
Proof.
  unfold update_where, select_where. induction l as [|x l IH]; intros Hq; [done|].
  assert (∀ y, y ∈ l → p y = true → q (f y) = q y) as Hl
    by (intros; apply Hq; [by right|done]).
  specialize (Hq x (list_elem_of_here _ _)). simpl.
  destruct (p x) eqn:Ep; [rewrite Hq by done|];
    destruct (q x); simpl; rewrite ?Ep, IH; done.
Qed.

Lemma update_nothing p f l :
  (∀ x, x ∈ l → p x = false) → update_where p f l = l.
Proof.
  intros Hp. unfold update_where. rewrite <- (map_id l) at 2.
  apply map_ext_in. intros x Hx%list_elem_of_In. by rewrite Hp.
Qed.

Lemma update_update_same p q f g l :
  (∀ x, p x = true → q (f x) = q x) →
  (∀ x, p x = q x) →
  update_where q g (update_where p f l) = update_where p (λ x, g (f x)) l.
Proof.
  intros Hq Hpq. unfold update_where. rewrite map_map. apply map_ext. intros x.
  destruct (p x) eqn:E.
  - by rewrite Hq, <- Hpq, E.
  - by rewrite <- Hpq, E.
Qed.

Lemma update_where_ext p q f g l :
  (∀ x, x ∈ l → p x = q x) → (∀ x, x ∈ l → p x = true → f x = g x) →
  update_where p f l = update_where q g l.
Proof.
  intros Hp Hf. unfold update_where. apply map_ext_in.
  intros x Hx%list_elem_of_In. rewrite <- Hp by done.
  destruct (p x) eqn:E; auto.
Qed.

Lemma select_empty p l : (∀ x, x ∈ l → p x = false) → select_where p l = [].
Proof.
  intros Hp. destruct (select_where p l) as [|x k] eqn:E; [done|].
  assert (x ∈ select_where p l) as [Hx Hpx]%elem_of_select
    by (rewrite E; left).
  by rewrite Hp in Hpx.
Qed.

Lemma select_select p q l :
  (∀ x, p x = true → q x = true) → select_where p (select_where q l) = select_where p l.
Proof.
  intros Hpq. unfold select_where. induction l as [|x l IH]; [done|]. simpl.
  destruct (q x) eqn:Eq; simpl; rewrite IH; [done|].
  destruct (p x) eqn:Ep; [|done]. by rewrite (Hpq x Ep) in Eq.
Qed.

Lemma select_singleton x p l :
  select_where p l = [x] → x ∈ l ∧ p x = true.
Proof. intros E. apply elem_of_select. rewrite E. by left. Qed.

Lemma scalar_one_or_none_Some l x :
  scalar_one_or_none l = Ok (Some x) ↔ l = [x].
Proof. destruct l as [|? [|? ?]]; simpl; split; congruence. Qed.
Lemma scalar_one_or_none_None l : scalar_one_or_none l = Ok None ↔ l = [].
Proof. destruct l as [|? [|? ?]]; simpl; split; congruence. Qed.
Lemma scalar_one_Ok l x : scalar_one l = Ok x ↔ l = [x].
Proof. destruct l as [|? [|? ?]]; simpl; split; congruence. Qed.
End tables.

Lemma elem_of_map {A B} (f : A → B) (y : B) (l : list A) :
  y ∈ map f l ↔ ∃ x, f x = y ∧ x ∈ l.
Proof.
  rewrite list_elem_of_In, in_map_iff. by setoid_rewrite list_elem_of_In.
Qed.
Lemma elem_of_map_in {A B} (f : A → B) (x : A) (l : list A) :
  x ∈ l → f x ∈ map f l.
Proof. rewrite elem_of_map. eauto. Qed.

Lemma in_take {A} (x : A) n l : x ∈ take n l → x ∈ l.
Proof. intros Hx. rewrite <- (take_drop n l). apply elem_of_app. by left. Qed.

Lemma NoDup_map_take {A B} (key : A → B) n l :
  NoDup (map key l) → NoDup (map key (take n l)).
Proof.
  intros Hnd. rewrite <- (take_drop n l), map_app in Hnd. by apply NoDup_app in Hnd as [? _].
Qed.

Lemma NoDup_select {A B} (key : A → B) p l :
  NoDup (map key l) → NoDup (map key (select_where p l)).
Proof.
  unfold select_where. induction l as [|x l IH]; [done|]. simpl.
  intros [Hx Hnd]%NoDup_cons. destruct (p x); [|auto]. simpl.
  apply NoDup_cons. split; [|auto]. intros (y & Hk & Hy)%elem_of_map. apply Hx.
  apply elem_of_map. exists y. split; [done|]. by apply elem_of_select in Hy as [].
Qed.

Section primary_keys.
Context {A K : Type} `{!EqDecision K} (key : A → K).
Implicit Types (l : list A) (x y : A).

(** The primary key (or a unique column) identifies the row. *)
Lemma key_unique l x y :
  NoDup (map key l) → x ∈ l → y ∈ l → key x = key y → x = y.
Proof.
  intros Hnd Hx Hy Hk. induction l as [|z l IH]; [by inversion Hx|].
  simpl in Hnd. apply NoDup_cons in Hnd as [Hz Hnd].
  pose proof (λ w, elem_of_map_in key w l) as Hin.
  apply elem_of_cons in Hx as [->|Hx], Hy as [->|Hy]; auto.
  - rewrite Hk in Hz. destruct Hz; auto.
  - rewrite <- Hk in Hz. destruct Hz; auto.
Qed.

Lemma select_key_unique l x (p : A → bool) :
  NoDup (map key l) → x ∈ l → p x = true →
  (∀ y, y ∈ l → p y = true → key y = key x) →
  select_where p l = [x].
Proof.
  intros Hnd Hx Hpx Hkey. induction l as [|z l IH]; [by inversion Hx|].
  simpl in Hnd. apply NoDup_cons in Hnd as [Hz Hnd].
  pose proof (λ w, elem_of_map_in key w l) as Hin.
  unfold select_where. simpl. apply elem_of_cons in Hx as [->|Hx].
  - rewrite Hpx. f_equal. apply select_empty. intros w Hw.
    destruct (p w) eqn:E; [|done]. exfalso. apply Hz.
    rewrite <- (Hkey w); [auto|by right|done].
  - destruct (p z) eqn:E.
    + exfalso. apply Hz. rewrite (Hkey z); [auto|by left|done].
    + apply IH; auto. intros y Hy. apply Hkey. by right.
Qed.
End primary_keys.

Lemma min_agg_None l : min_agg l = None ↔ l = [].
Proof. destruct l; simpl; split; congruence. Qed.
Lemma max_agg_None l : max_agg l = None ↔ l = [].
Proof. destruct l; simpl; split; congruence. Qed.

Lemma min_agg_Some l x :
  min_agg l = Some x ↔ x ∈ l ∧ ∀ y, y ∈ l → (x <= y)%Z.
Proof.
  revert x. induction l as [|z l IH]; intros x; simpl.
  - split; [done|]. intros [H _]. by inversion H.
  - destruct (min_agg l) as [m|] eqn:E.
    + destruct (proj1 (IH m) eq_refl) as [Hm Hle]. split.
      * intros [= <-]. split.
        -- destruct (Z.min_spec z m) as [[_ ->]|[_ ->]]; [by left|by right].
        -- intros y [->|Hy]%elem_of_cons; [lia|]. specialize (Hle _ Hy). lia.
      * intros [Hx Hmin]. f_equal. pose proof (Hmin z (list_elem_of_here _ _)).
        pose proof (Hmin m (list_elem_of_further _ _ _ Hm)).
        apply elem_of_cons in Hx as [->|Hx]; [lia|]. specialize (Hle _ Hx). lia.
    + apply min_agg_None in E as ->. split.
      * intros [= <-]. split; [by left|]. intros y [->|Hy]%elem_of_cons; [lia|].
        by inversion Hy.
      * intros [[->|Hx]%elem_of_cons _]; [done|by inversion Hx].
Qed.

Lemma max_agg_min_agg l : max_agg l = option_map Z.opp (min_agg (map Z.opp l)).
Proof.
  induction l as [|z l IH]; simpl; [done|]. rewrite IH.
  destruct (min_agg (map Z.opp l)); simpl; f_equal; lia.
Qed.

Lemma max_agg_Some l x :
  max_agg l = Some x ↔ x ∈ l ∧ ∀ y, y ∈ l → (y <= x)%Z.
Proof.
  rewrite max_agg_min_agg. split.
  - destruct (min_agg _) as [m|] eqn:E; [|done]. intros [= <-].
    apply min_agg_Some in E as [Hm Hle].
    apply elem_of_map in Hm as (y & <- & Hy). split.
    + by rewrite Z.opp_involutive.
    + intros w Hw. specialize (Hle (- w)%Z (elem_of_map_in _ _ _ Hw)). lia.
  - intros [Hx Hmax]. assert (min_agg (map Z.opp l) = Some (- x)%Z) as ->.
    { apply min_agg_Some. split; [by apply elem_of_map_in|].
      intros y (w & <- & Hw)%elem_of_map. specialize (Hmax _ Hw). lia. }
    simpl. f_equal. lia.
Qed.

(** * Text *)

(** A Python [str] is the [string] of its UTF-8 bytes. *)
Definition is_continuation (c : Ascii.ascii) : bool :=
  let n := Ascii.N_of_ascii c in (128 <=? n)%N && (n <? 192)%N.

(** [s[:n]]: the first [n] code points *)
Fixpoint str_take (n : nat) (s : string) : string :=
  match s with
  | EmptyString => EmptyString
  | String c s =>
      if is_continuation c then String c (str_take n s)
      else match n with O => EmptyString | S n => String c (str_take n s) end
  end.

(** [s.split(":", 1)[0]] *)
Fixpoint before_colon (s : string) : string :=
  match s with
  | EmptyString => EmptyString
  | String a s =>
      if Ascii.eqb a (Ascii.ascii_of_N 58) then EmptyString
      else String a (before_colon s)
  end.

(** [x or y] on strings, and [str(d.get(k) or y)] on optional strings *)
Definition str_or (x y : string) : string := if String.eqb x "" then y else x.
Definition opt_or (x : option string) (y : string) : string :=
  match x with Some x => str_or x y | None => y end.

Lemma append_cons c (a b : string) : String c a +:+ b = String c (a +:+ b).
Proof. done. Qed.
Lemma append_nil_r (s : string) : s +:+ "" = s.
Proof. induction s as [|c s IH]; [done|]. change (String c (s +:+ "") = String c s). by rewrite IH. Qed.

Lemma append_assoc (a b c : string) : (a +:+ b) +:+ c = a +:+ (b +:+ c).
Proof.
  induction a as [|x a IH]; [done|].
  change (String x ((a +:+ b) +:+ c) = String x (a +:+ (b +:+ c))). by rewrite IH.
Qed.

(** ** Names without a character *)

Fixpoint lacks (x : Ascii.ascii) (s : string) : Prop :=
  match s with
  | EmptyString => True
  | String c s => c ≠ x ∧ lacks x s
  end.
Abbreviation no_colon := (lacks (Ascii.ascii_of_N 58)).

Lemma split_at_last x a b a' b' :
  lacks x b → lacks x b' → a +:+ String x b = a' +:+ String x b' → a = a' ∧ b = b'.
Proof.
  intros Hb Hb'. revert a'.
  assert (∀ u y, lacks x (u +:+ String x y) → False) as Hno.
  { induction u as [|c u IH]; simpl; intros y [Hc Hr]; [by apply Hc|by apply (IH y)]. }
  induction a as [|c a IH]; intros [|c' a']; simpl; intros E.
  - by injection E.
  - injection E as <- Hr. destruct (Hno a' b'). by rewrite <- Hr.
  - injection E as -> Hr. destruct (Hno a b). by rewrite Hr.
  - injection E as -> Hr. destruct (IH a' Hr) as [-> ->]. done.
Qed.
Lemma split_at_last_colon a b a' b' :
  no_colon b → no_colon b' → a +:+ ":" +:+ b = a' +:+ ":" +:+ b' → a = a' ∧ b = b'.
Proof. apply (split_at_last (Ascii.ascii_of_N 58)). Qed.

(** A numeral consists of digits and a sign. *)
Definition no_numeral (x : Ascii.ascii) : Prop := (∀ n, pretty_N_char n ≠ x) ∧ Ascii.ascii_of_N 45 ≠ x ∧ Ascii.ascii_of_N 48 ≠ x.
Lemma digits_lack x n s : no_numeral x → lacks x s → lacks x (pretty_N_go n s).
Proof.
  intros Hx. revert s. induction (N.lt_wf_0 n) as [n _ IH]; intros s Hs.
  destruct (decide (n = 0)%N) as [->|Hn]; [by rewrite pretty_N_go_0|].
  rewrite pretty_N_go_step by lia. apply IH.
  - apply N.div_lt; lia.
  - split; [|done]. apply Hx.
Qed.
Lemma pretty_N_lacks x (n : N) : no_numeral x → lacks x (pretty n).
Proof.
  intros Hx. unfold pretty, pretty_N. destruct (decide _); [split; [apply Hx|done]|]. by apply digits_lack.
Qed.
Lemma pretty_Z_lacks x (k : Z) : no_numeral x → lacks x (pretty k).
Proof.
  intros Hx. destruct k; [split; [apply Hx|done]|by apply pretty_N_lacks|]. split; [apply Hx|by apply pretty_N_lacks].
Qed.
Lemma colon_no_numeral : no_numeral (Ascii.ascii_of_N 58).
Proof. split_and!; [|done..]. intros n. unfold pretty_N_char. by repeat case_match. Qed.
Lemma pretty_N_no_colon (n : N) : no_colon (pretty n).
Proof. apply pretty_N_lacks, colon_no_numeral. Qed.
Lemma pretty_Z_no_colon (k : Z) : no_colon (pretty k).
Proof. apply pretty_Z_lacks, colon_no_numeral. Qed.

Lemma take_no_colon n s : no_colon s → no_colon (str_take n s).
Proof.
  revert n. induction s as [|c s IH]; intros n; [done|]. intros [Hc Hs]. simpl.
  destruct (is_continuation c); [by split; [|apply IH]|].
  destruct n; [done|]. by split; [|apply IH].
Qed.

(** * Numerals *)

(** The value of a decimal numeral, as [int] of Python and the commands of Redis read it. *)
Fixpoint digits_value (acc : N) (s : string) : option N :=
  match s with
  | EmptyString => Some acc
  | String c s =>
      let n := Ascii.N_of_ascii c in
      if (48 <=? n)%N && (n <=? 57)%N then digits_value (acc * 10 + (n - 48)) s else None
  end.
Definition int_value (s : string) : option Z :=
  match s with
  | EmptyString => None
  | String c rest =>
      if Ascii.eqb c (Ascii.ascii_of_N 45) then
        match rest with
        | EmptyString => None
        | _ => option_map (λ n, Z.opp (Z.of_N n)) (digits_value 0 rest)
        end
      else option_map Z.of_N (digits_value 0 s)
  end.

Lemma digit_value (x : N) : (x < 10)%N →
  let n := Ascii.N_of_ascii (pretty_N_char x) in ((48 <=? n) && (n <=? 57))%N = true ∧ (n - 48 = x)%N.
Proof.
  intros Hx.
  assert (x = 0 ∨ x = 1 ∨ x = 2 ∨ x = 3 ∨ x = 4 ∨ x = 5 ∨ x = 6 ∨ x = 7 ∨ x = 8 ∨ x = 9)%N as Hin by lia.
  by destruct_or! Hin; subst x.
Qed.

Lemma digits_value_pretty x : ∀ s, digits_value 0 (pretty_N_go x s) = digits_value x s.
Proof.
  induction (N.lt_wf_0 x) as [x _ IH]. intros s. destruct (decide (x = 0)%N) as [->|Hx].
  - by rewrite pretty_N_go_0.
  - rewrite pretty_N_go_step by lia. rewrite IH by (apply N.div_lt; lia). simpl.
    destruct (digit_value (x `mod` 10)) as [Hd Hv]; [by apply N.mod_lt|]. rewrite Hd, Hv.
    f_equal. rewrite N.mul_comm. symmetry. by apply N.div_mod.
Qed.

Lemma pretty_go_head x : ∀ s, (0 < x)%N → ∃ c rest,
  pretty_N_go x s = String c rest ∧ Ascii.eqb c (Ascii.ascii_of_N 45) = false.
Proof.
  induction (N.lt_wf_0 x) as [x _ IH]. intros s Hx. rewrite pretty_N_go_step by done.
  destruct (decide (x / 10 = 0)%N) as [->|Hne].
  - rewrite pretty_N_go_0. eexists _, _. split; [done|].
    assert (x `mod` 10 < 10)%N as Hm by (by apply N.mod_lt). revert Hm.
    generalize (x `mod` 10)%N. intros m Hm. destruct (digit_value m Hm) as [Hd _].
    destruct (Ascii.eqb_spec (pretty_N_char m) (Ascii.ascii_of_N 45)) as [E|]; [|done]. by rewrite E in Hd.
  - apply IH; [apply N.div_lt; lia|by apply N.neq_0_lt_0].
Qed.

(** Reading what was printed. *)
Lemma int_value_pretty (n : Z) : int_value (pretty n) = Some n.
Proof.
  assert (∀ p, pretty (N.pos p) = pretty_N_go (N.pos p) "") as Hpos.
  { intros p. unfold pretty, pretty_N. by rewrite decide_False. }
  destruct n as [|p|p]; [done| |].
  - change (pretty (Z.pos p)) with (pretty (N.pos p)). rewrite Hpos.
    destruct (pretty_go_head (N.pos p) "") as (c & rest & E & Hc); [done|].
    rewrite E. unfold int_value. rewrite Hc, <- E, digits_value_pretty. done.
  - change (pretty (Z.neg p)) with ("-" +:+ pretty (N.pos p)). rewrite Hpos.
    destruct (pretty_go_head (N.pos p) "") as (c & rest & E & Hc); [done|].
    rewrite E. change (option_map (λ n, Z.opp (Z.of_N n)) (digits_value 0 (String c rest)) = Some (Z.neg p)).
    rewrite <- E, digits_value_pretty. done.
Qed.

(** * The settings *)

(** [core/settings.py]: values read from the environment when the program starts.
    Durations are in the unit of their name, those in (fractional) seconds in
    microseconds. *)
Class Settings := {
  SUIXINJI_ENV : string;
  FAKE_EXTERNALS : bool;
  DELIVERY_RESERVATION_TTL_SECONDS : Z;
  DELIVERY_MAX_ATTEMPTS : Z;
  SUMMARY_DEFAULT_TIME : string;
  STREAM_BATCH_SIZE : Z;
  STREAM_CLAIM_IDLE_MS : Z;
  STREAM_MAXLEN : Z;
  STREAM_RECLAIM_INTERVAL : Z;
  OUTBOX_BATCH_SIZE : Z;
  OUTBOX_LEASE_SECONDS : Z;
  OUTBOX_MAX_ATTEMPTS : Z;
  TASK_LEASE_SECONDS : Z;
  WORKER_RETRY_BASE : Z;
}.

(** The defaults. *)
Definition default_settings : Settings := {|
  SUIXINJI_ENV := "dev";
  FAKE_EXTERNALS := false;
  DELIVERY_RESERVATION_TTL_SECONDS := 600;
  DELIVERY_MAX_ATTEMPTS := 3;
  SUMMARY_DEFAULT_TIME := "22:00";
  STREAM_BATCH_SIZE := 10;
  STREAM_CLAIM_IDLE_MS := 60000;
  STREAM_MAXLEN := 100000;
  STREAM_RECLAIM_INTERVAL := 10000000;
  OUTBOX_BATCH_SIZE := 50;
  OUTBOX_LEASE_SECONDS := 30;
  OUTBOX_MAX_ATTEMPTS := 10;
  TASK_LEASE_SECONDS := 60;
  WORKER_RETRY_BASE := 2000000;
|}.

(** * The platform *)

(** What the code takes from the libraries under it: the random source behind
    [uuid.uuid4().hex] ([uuid4_hex n] is the [n]-th identifier drawn), the
    digests, the Unicode case tables, and the text [str(exc)] of an exception. *)
Class Platform := {
  platform_settings :: Settings;
  exn_str : exn → string;
  uuid4_hex : nat → string;
  sha256_hexdigest : string → string;
  md5_hex : string → string;
  str_casefold : string → string;
  str_lower : string → string;
}.

(** ASCII case mapping, decimal identifiers and injective digests: the instance that
    the concrete runs use. *)
Fixpoint ascii_lower (s : string) : string :=
  match s with
  | EmptyString => EmptyString
  | String c s =>
      let n := Ascii.N_of_ascii c in
      String (if (65 <=? n)%N && (n <=? 90)%N then Ascii.ascii_of_N (n + 32) else c)
        (ascii_lower s)
  end.

Definition hex_digit (n : N) : Ascii.ascii :=
  Ascii.ascii_of_N (if (n <? 10)%N then 48 + n else 87 + n)%N.
Fixpoint hex_of (s : string) : string :=
  match s with
  | EmptyString => EmptyString
  | String c s =>
      let n := Ascii.N_of_ascii c in
      String (hex_digit (n / 16)) (String (hex_digit (n mod 16)) (hex_of s))
  end.

Lemma hex_digit_inj a b : (a < 16)%N → (b < 16)%N → hex_digit a = hex_digit b → a = b.
Proof.
  intros Ha Hb E.
  assert (∀ n, (n < 16)%N → List.find (λ k, Ascii.eqb (hex_digit k) (hex_digit n))
    [0; 1; 2; 3; 4; 5; 6; 7; 8; 9; 10; 11; 12; 13; 14; 15]%N = Some n) as Hf.
  { intros n Hn. assert (n ∈ [0; 1; 2; 3; 4; 5; 6; 7; 8; 9; 10; 11; 12; 13; 14; 15]%N) as Hin.
    { rewrite !elem_of_cons. lia. }
    repeat (apply elem_of_cons in Hin as [->|Hin]; [reflexivity|]). by apply elem_of_nil in Hin. }
  pose proof (Hf a Ha) as Fa. rewrite E, Hf in Fa by done. congruence.
Qed.
Lemma hex_of_inj : Inj (=) (=) hex_of.
Proof.
  intros s. induction s as [|c s IH]; intros [|c' s']; simpl; try done. intros E. injection E as Eh El Er.
  f_equal; [|by apply IH]. rewrite <- (Ascii.ascii_N_embedding c), <- (Ascii.ascii_N_embedding c'). f_equal.
  pose proof (Ascii.N_ascii_bounded c). pose proof (Ascii.N_ascii_bounded c').
  apply hex_digit_inj in Eh; [|by apply N.Div0.div_lt_upper_bound; lia..].
  apply hex_digit_inj in El; [|by apply N.mod_lt..].
  rewrite (N.Div0.div_mod (Ascii.N_of_ascii c) 16), (N.Div0.div_mod (Ascii.N_of_ascii c') 16). congruence.
Qed.

Definition test_platform : Platform := {|
  platform_settings := default_settings;
  exn_str := exn_type;
  uuid4_hex := λ n, pretty (N.of_nat n);
  sha256_hexdigest := hex_of;
  md5_hex := λ s, ("md5:" +:+ s)%string;
  str_casefold := ascii_lower;
  str_lower := ascii_lower;
|}.

(** [f"{type(exc).__name__}: {exc}"] *)
Definition describe `{Platform} (e : exn) : string := exn_type e +:+ ": " +:+ exn_str e.

(** * Time *)

(** Instants and durations are integers of microseconds, the resolution of
    Python's [datetime] and [timedelta]. *)
Definition seconds (n : Z) : Z := (n * 1000000)%Z.
Definition milliseconds (n : Z) : Z := (n * 1000)%Z.

(** A reading of the clock: the text that is stored, and the time. *)
Record instant := Instant { now_iso : string; now_time : Z }.
