(* ===== verification/Rely.v ===== *)
(** A program logic for the processes of the system, in the style of rely and guarantee.

    A process is an [IO] program over its own world.  The world holds a part that all the
    processes share, and a list of what the other processes do: before each step of the
    process the next entry of that list happens.

    [runs P m Q]: started in a reachable state that satisfies [P], the program [m] takes
    only steps that the specification allows, and ends in a state and with a result that
    satisfy [Q], whatever the other processes do meanwhile - provided that they follow the
    specification, too. *)

From stdpp Require Import base list strings relations.
From Stdlib Require Import ZArith Lia.
From S2P Require Import Prelude.

Open Scope Z_scope.

(** The world [W] of a process, with a shared part [S]. *)
Class Process (W S : Type) := {
  shared : W → S;
  put_shared : S → W → W;
  others : W → list ((S → S) * Z);
  (** the others run, and time passes *)
  next_other : IO W Z;
  (** the steps of the specification *)
  spec_step : relation S;
  (** those of the other processes *)
  rely : relation S;
  reached : S → Prop;
}.

Class ProcessLaws (W S : Type) `{Process W S} : Prop := {
  shared_put : ∀ s w, shared (put_shared s w) = s;
  others_put : ∀ s w, others (put_shared s w) = others w;
  next_other_law : ∀ w, ∃ t w', next_other w = (Ok t, w')
    ∧ match others w with
      | [] => shared w' = shared w ∧ others w' = []
      | (f, _) :: rest => shared w' = f (shared w) ∧ others w' = rest
      end;
  rely_spec : ∀ s s', rely s s' → spec_step s s';
  reached_spec : ∀ s s', reached s → spec_step s s' → reached s';
}.

(** One step on the shared state, at the time of the clock. *)
Definition atomically {W S A : Type} `{Process W S} (f : Z → S → Prelude.result A * S) : IO W A :=
  now ← next_other;
  (λ w, let '(r, s) := f now (shared w) in (r, put_shared s w)) : IO W A.

Section logic.
Context {W S : Type} `{ProcessLaws W S}.

Definition others_ok (w : W) : Prop :=
  Forall (λ f : (S → S) * Z, ∀ s, reached s → rtc rely s (f.1 s)) (others w).

Definition runs {A} (P : S → Prop) (m : IO W A) (Q : Prelude.result A → S → Prop) : Prop :=
  ∀ w r w', reached (shared w) → others_ok w → P (shared w) → m w = (r, w') →
    rtc spec_step (shared w) (shared w') ∧ others_ok w' ∧ Q r (shared w').

(** What the steps of the other processes cannot undo. *)
Definition stable (P : S → Prop) : Prop := ∀ s s', reached s → rely s s' → P s → P s'.

Lemma reached_rtc s s' : reached s → rtc spec_step s s' → reached s'.
Proof. intros Hr Hs. induction Hs; [done|]. eauto using reached_spec. Qed.

Lemma rely_rtc s s' : rtc rely s s' → rtc spec_step s s'.
Proof. apply rtc_subrel. intros ??. apply rely_spec. Qed.

Lemma stable_rtc P s s' : stable P → reached s → rtc rely s s' → P s → P s'.
Proof.
  intros Hst Hr Hs. revert Hr. induction Hs as [|s1 s2 s3 Hstep _ IH]; [done|]. intros Hr HP.
  apply IH; [eapply reached_spec; [done|by apply rely_spec]|by eapply Hst].
Qed.

Lemma stable_and P Q : stable P → stable Q → stable (λ s, P s ∧ Q s).
Proof. intros HP HQ s s' Hr Hs [? ?]. split; [by eapply HP|by eapply HQ]. Qed.
Lemma stable_pure (P : Prop) : stable (λ _, P).
Proof. by intros s s'. Qed.
Lemma stable_forall {A} (P : A → S → Prop) : (∀ a, stable (P a)) → stable (λ s, ∀ a, P a s).
Proof. intros HP s s' Hr Hs Ha a. by eapply HP. Qed.
Lemma stable_impl (P : Prop) (Q : S → Prop) : stable Q → stable (λ s, P → Q s).
Proof. intros HQ s s' Hr Hs HPQ HP. eapply HQ; eauto. Qed.

Section rules.
Context {A B : Type}.
Implicit Types (P : S → Prop).

Lemma runs_weaken P P' (m : IO W A) Q Q' :
  (∀ s, P s → P' s) → runs P' m Q' → (∀ r s, Q' r s → Q r s) → runs P m Q.
Proof.
  intros HP Hm HQ w r w' Hr Ho Hp E. destruct (Hm w r w' Hr Ho (HP _ Hp) E) as (? & ? & ?). auto.
Qed.

Lemma runs_post P (m : IO W A) Q Q' :
  runs P m Q' → (∀ r s, Q' r s → Q r s) → runs P m Q.
Proof. by apply runs_weaken. Qed.

Lemma runs_ret P (a : A) (Q : Prelude.result A → S → Prop) :
  (∀ s, P s → Q (Ok a) s) → runs P (mret a) Q.
Proof. intros HQ w r w' Hr Ho Hp [= <- <-]. split_and!; [done|done|by apply HQ]. Qed.

Lemma runs_throw P e (Q : Prelude.result A → S → Prop) :
  (∀ s, P s → Q (Raise e) s) → runs P (throw e) Q.
Proof. intros HQ w r w' Hr Ho Hp [= <- <-]. split_and!; [done|done|by apply HQ]. Qed.

Lemma runs_lift P (x : Prelude.result A) (Q : Prelude.result A → S → Prop) :
  (∀ s, P s → Q x s) → runs P (io_lift x) Q.
Proof. intros HQ w r w' Hr Ho Hp [= <- <-]. split_and!; [done|done|by apply HQ]. Qed.

Lemma runs_gets P (f : W → A) (Q : Prelude.result A → S → Prop) :
  (∀ a s, P s → Q (Ok a) s) → runs P (io_gets f) Q.
Proof. intros HQ w r w' Hr Ho Hp [= <- <-]. split_and!; [done|done|by apply HQ]. Qed.

(** The fields of the process itself. *)
Lemma runs_local P (f : W → W) (Q : Prelude.result unit → S → Prop) :
  (∀ w, shared (f w) = shared w ∧ others (f w) = others w) →
  (∀ s, P s → Q (Ok tt) s) → runs P (io_modify f) Q.
Proof.
  intros Hf HQ w r w' Hr Ho Hp [= <- <-]. destruct (Hf w) as [Hs Hw]. unfold others_ok.
  rewrite Hs, Hw. split_and!; [done|done|by apply HQ].
Qed.

Lemma runs_bind P (m : IO W A) (f : A → IO W B) (R : A → S → Prop) Q :
  runs P m (λ r s, match r with Ok a => R a s | Raise e => Q (Raise e) s end) →
  (∀ a, runs (R a) (f a) Q) → runs P (m ≫= f) Q.
Proof.
  intros Hm Hf w r w' Hr Ho Hp E. unfold mbind, IO_bind in E.
  destruct (m w) as [[a|e] w1] eqn:E1; destruct (Hm w _ w1 Hr Ho Hp E1) as (Hs & Ho1 & HQ).
  - destruct (Hf a w1 r w' (reached_rtc _ _ Hr Hs) Ho1 HQ E) as (? & ? & ?).
    split_and!; [by etrans|done|done].
  - injection E as <- <-. done.
Qed.

Lemma runs_try P (m : IO W A) h (k : A → IO W B) (R : A → S → Prop)
    (E : exn → S → Prop) Q :
  runs P m (λ r s, match r with Ok a => R a s | Raise e => E e s end) →
  (∀ e, runs (E e) (h e) Q) → (∀ a, runs (R a) (k a) Q) → runs P (try_except m h k) Q.
Proof.
  intros Hm Hh Hk w r w' Hr Ho Hp Eq. unfold try_except in Eq.
  destruct (m w) as [[a|e] w1] eqn:E1; destruct (Hm w _ w1 Hr Ho Hp E1) as (Hs & Ho1 & HQ).
  - destruct (Hk a w1 r w' (reached_rtc _ _ Hr Hs) Ho1 HQ Eq) as (? & ? & ?).
    split_and!; [by etrans|done|done].
  - destruct (Hh e w1 r w' (reached_rtc _ _ Hr Hs) Ho1 HQ Eq) as (? & ? & ?).
    split_and!; [by etrans|done|done].
Qed.
End rules.

Lemma runs_next_other P : stable P → runs P next_other (λ r s, P s ∧ ∃ now, r = Ok now).
Proof.
  intros Hst w r w' Hr Ho Hp E. destruct (next_other_law w) as (t & w1 & E1 & Hn).
  rewrite E1 in E. injection E as <- <-. unfold others_ok in *.
  destruct (others w) as [|[f now] rest]; destruct Hn as [-> ->].
  - split_and!; [done|done|done|eauto].
  - apply Forall_cons in Ho as [Hf Ho]. specialize (Hf _ Hr). simpl in Hf.
    split_and!; [by apply rely_rtc|done|by eapply stable_rtc|eauto].
Qed.

Lemma runs_atomically {A} P (f : Z → S → Prelude.result A * S) (Q : Prelude.result A → S → Prop) :
  stable P →
  (∀ now s r s', reached s → P s → f now s = (r, s') → rtc spec_step s s' ∧ Q r s') →
  runs P (atomically f) Q.
Proof.
  intros Hst Hf. unfold atomically. apply (runs_bind _ _ _ (λ _ s, P s)).
  - eapply runs_weaken; [done|by apply runs_next_other|]. by intros r s [? [now ->]].
  - intros now w r w' Hr Ho Hp E. destruct (f now (shared w)) as [r1 s'] eqn:Ef.
    injection E as <- <-. destruct (Hf now (shared w) r1 s' Hr Hp Ef) as [Hs HQ].
    unfold others_ok. rewrite shared_put, others_put. by split_and!.
Qed.

Lemma runs_for {A B} (l : list A) (body : B → A → IO W B) (I : S → Prop) (Q : Prelude.result B → S → Prop) :
  (∀ acc x, x ∈ l → runs I (body acc x) (λ r s, match r with Ok _ => I s | Raise e => Q (Raise e) s end)) →
  (∀ b s, I s → Q (Ok b) s) → ∀ acc, runs I (io_for l acc body) Q.
Proof.
  induction l as [|x l IH]; intros Hb HQ acc; simpl; [by apply runs_ret; auto|].
  apply (runs_bind _ _ _ (λ _, I)); [apply Hb; by left|]. intros acc'. apply IH; [|done].
  intros acc2 y Hy. apply Hb. by right.
Qed.
End logic.
