(* ===== verification/Schema.v ===== *)
(** The tables of [infrastructure/schema.py] that the message pipeline reads and
    writes, and the database as one record of tables.

    A row is a record with the columns of its ORM class; a nullable column is an
    option; a timestamp is an integer number of microseconds.  A table is the
    list of its rows in insertion order, so the primary keys and the unique
    constraints are what the inserts check. *)

From stdpp Require Import base list strings gmap pretty relations.
From Stdlib Require Import ZArith Lia.
From S2P Require Import Prelude.

(** The JSON payload of a task: the keys that the pipeline itself reads, with
    the types it stores under them, and the other string-valued keys. *)
Record payload := Payload {
  pl_consistency : option string;
  pl_required_watermark : option Z;
  pl_inbox_id : option string;
  pl_barrier_inbox_id : option string;
  pl_parent_task_id : option string;
  pl_sequence_no : option Z;
  pl_source_space_id : option string;
  pl_trace : option (list (string * string));
  pl_rest : gmap string string;
}.
#[export] Instance payload_eta : Eta payload := λ r,
  Payload (pl_consistency r) (pl_required_watermark r) (pl_inbox_id r)
    (pl_barrier_inbox_id r) (pl_parent_task_id r) (pl_sequence_no r)
    (pl_source_space_id r) (pl_trace r) (pl_rest r).
#[export] Instance payload_eq_dec : EqDecision payload.
Proof. solve_decision. Defined.

Definition empty_payload : payload :=
  Payload None None None None None None None None ∅.

(** The gap notes that a failed stage leaves in [Space.metadata_json]. *)
Record gap := Gap { gap_sequence_no : Z; gap_inbox_id : string; gap_error : string }.
#[export] Instance gap_eq_dec : EqDecision gap.
Proof. solve_decision. Defined.

Record space := Space {
  sp_id : string;
  sp_tenant_id : string;
  sp_source : string;
  sp_source_space_id : option string;
  sp_metadata_json : gmap string gap;
  sp_processed_sequence_no : Z;
  sp_note_watermark : Z;
  sp_memory_watermark : Z;
  sp_memory_gap_sequence_no : option Z;
}.
#[export] Instance space_eta : Eta space := λ r,
  Space (sp_id r) (sp_tenant_id r) (sp_source r) (sp_source_space_id r)
    (sp_metadata_json r) (sp_processed_sequence_no r) (sp_note_watermark r)
    (sp_memory_watermark r) (sp_memory_gap_sequence_no r).
#[export] Instance space_eq_dec : EqDecision space.
Proof. solve_decision. Defined.

Record inbox_message := InboxMessage {
  m_id : string;
  m_source : string;
  m_source_message_id : string;
  m_source_event_id : option string;
  m_tenant_id : string;
  m_space_id : string;
  m_chat_id : option string;
  m_chat_type : option string;
  m_sender : list (string * string);
  m_text : string;
  m_received_at : Z;
  m_status : string;
  m_sensitivity : string;
  m_sequence_no : Z;
  m_note_status : string;
  m_memory_status : string;
  m_note_completed_at : option Z;
  m_memory_completed_at : option Z;
}.
#[export] Instance inbox_message_eta : Eta inbox_message := λ r,
  InboxMessage (m_id r) (m_source r) (m_source_message_id r) (m_source_event_id r)
    (m_tenant_id r) (m_space_id r) (m_chat_id r) (m_chat_type r) (m_sender r)
    (m_text r) (m_received_at r) (m_status r) (m_sensitivity r) (m_sequence_no r)
    (m_note_status r) (m_memory_status r) (m_note_completed_at r)
    (m_memory_completed_at r).
#[export] Instance inbox_message_eq_dec : EqDecision inbox_message.
Proof. solve_decision. Defined.

(** The body of a "task.requested" event. *)
Record task_request := TaskRequest {
  rq_task_id : string;
  rq_task_type : string;
  rq_attempt : Z;
  rq_trace : list (string * string);
  rq_requested_at : Z;
}.
#[export] Instance task_request_eq_dec : EqDecision task_request.
Proof. solve_decision. Defined.

Record outbox_event := OutboxEvent {
  e_id : string;
  e_event_type : string;
  e_aggregate_type : string;
  e_aggregate_id : string;
  e_payload_json : task_request;
  e_created_at : Z;
  e_published_at : option Z;
  e_publish_attempt_count : Z;
  e_last_error : option string;
  e_status : string;
  e_claimed_by : option string;
  e_lease_token : option string;
  e_lease_expires_at : option Z;
  e_next_attempt_at : option Z;
  e_max_attempts : Z;
  e_last_attempt_at : option Z;
  e_failed_at : option Z;
}.
#[export] Instance outbox_event_eta : Eta outbox_event := λ r,
  OutboxEvent (e_id r) (e_event_type r) (e_aggregate_type r) (e_aggregate_id r)
    (e_payload_json r) (e_created_at r) (e_published_at r)
    (e_publish_attempt_count r) (e_last_error r) (e_status r) (e_claimed_by r)
    (e_lease_token r) (e_lease_expires_at r) (e_next_attempt_at r)
    (e_max_attempts r) (e_last_attempt_at r) (e_failed_at r).
#[export] Instance outbox_event_eq_dec : EqDecision outbox_event.
Proof. solve_decision. Defined.

Record task := Task {
  t_id : string;
  t_task_type : string;
  t_tenant_id : string;
  t_space_id : string;
  t_source_message_id : option string;
  t_idempotency_key : string;
  t_status : string;
  t_priority : Z;
  t_attempt_count : Z;
  t_failure_count : Z;
  t_defer_count : Z;
  t_max_attempts : Z;
  t_payload_json : payload;
  t_next_retry_at : option Z;
  t_created_at : Z;
  t_started_at : option Z;
  t_completed_at : option Z;
  t_last_error : option string;
  t_claimed_by : option string;
  t_lease_token : option string;
  t_lease_expires_at : option Z;
  t_claim_version : Z;
}.
#[export] Instance task_eta : Eta task := λ r,
  Task (t_id r) (t_task_type r) (t_tenant_id r) (t_space_id r)
    (t_source_message_id r) (t_idempotency_key r) (t_status r) (t_priority r)
    (t_attempt_count r) (t_failure_count r) (t_defer_count r) (t_max_attempts r)
    (t_payload_json r) (t_next_retry_at r) (t_created_at r) (t_started_at r)
    (t_completed_at r) (t_last_error r) (t_claimed_by r) (t_lease_token r)
    (t_lease_expires_at r) (t_claim_version r).
#[export] Instance task_eq_dec : EqDecision task.
Proof. solve_decision. Defined.

Record task_attempt := TaskAttempt {
  a_task_id : string;
  a_worker_id : string;
  a_attempt_no : Z;
  a_status : string;
  a_started_at : Z;
  a_finished_at : option Z;
  a_error_type : option string;
  a_error_summary : option string;
}.
#[export] Instance task_attempt_eta : Eta task_attempt := λ r,
  TaskAttempt (a_task_id r) (a_worker_id r) (a_attempt_no r) (a_status r)
    (a_started_at r) (a_finished_at r) (a_error_type r) (a_error_summary r).
#[export] Instance task_attempt_eq_dec : EqDecision task_attempt.
Proof. solve_decision. Defined.

Record db := Db {
  tenants : list string;
  spaces : list space;
  inbox_messages : list inbox_message;
  tasks : list task;
  task_attempts : list task_attempt;
  outbox_events : list outbox_event;
  uuids_drawn : nat;
}.
#[export] Instance db_eta : Eta db := λ r,
  Db (tenants r) (spaces r) (inbox_messages r) (tasks r) (task_attempts r)
    (outbox_events r) (uuids_drawn r).

Definition empty_db : db := Db [] [] [] [] [] [] 0.

(** Updates of one table. *)
Definition update_spaces (p : space → bool) (f : space → space) (d : db) : db :=
  d <| spaces := update_where p f (spaces d) |>.
Definition update_inbox (p : inbox_message → bool)
    (f : inbox_message → inbox_message) (d : db) : db :=
  d <| inbox_messages := update_where p f (inbox_messages d) |>.
Definition update_tasks (p : task → bool) (f : task → task) (d : db) : db :=
  d <| tasks := update_where p f (tasks d) |>.
Definition update_attempts (p : task_attempt → bool)
    (f : task_attempt → task_attempt) (d : db) : db :=
  d <| task_attempts := update_where p f (task_attempts d) |>.
Definition update_outbox (p : outbox_event → bool)
    (f : outbox_event → outbox_event) (d : db) : db :=
  d <| outbox_events := update_where p f (outbox_events d) |>.

Definition session (A : Type) : Type := M db A.

(** [uuid.uuid4().hex], and [memory.models.new_id]: the prefix and the first
    twelve hexadecimal digits. *)
Definition draw_uuid `{Platform} : session string :=
  n ← gets uuids_drawn;
  modify (λ d, d <| uuids_drawn := S n |>);;
  mret (uuid4_hex n).

Definition new_id `{Platform} (prefix : string) : session string :=
  u ← draw_uuid;
  mret (prefix +:+ "_" +:+ str_take 12 u).
