(* ===== verification/Consistency.v ===== *)
(** [runtime/consistency.py]: which earlier messages a task has to wait for.

    A question is classified by the markers it contains; a task gets the
    consistency level ("note", "memory" or "weak") that decides the watermark it
    waits on. *)

From stdpp Require Import base list strings gmap.
From Stdlib Require Import ZArith Lia.
From S2P Require Import Prelude Schema.

Open Scope string_scope.

Definition MEMORY_QUERY_MARKERS : list string := [
  "喜欢"; "讨厌"; "偏好"; "习惯"; "过敏"; "当前待办"; "未完成任务"; "待办任务";
  "标记完成"; "标记为完成"; "标记为已完成"; "现在的任务"; "待办是什么"; "任务进度";
  "做到哪了"; "有进展吗"; "完成了吗"; "换得怎么样"; "弄好了吗"; "住在哪里"; "住哪";
  "现在住"; "正在学习"; "当前项目"; "what do i like"; "preference"; "todo";
  "current task"; "where do i live"].

Definition NOTE_QUERY_MARKERS : list string := [
  "最近"; "笔记"; "记录"; "记了"; "写了"; "/type"; "/tag"; "标签"; "类型"; "recent";
  "record"; "note"].

(** [needle in text]; on UTF-8 bytes this is the test on code points, because
    the encoding is self-synchronising. *)
Fixpoint str_contains (needle text : string) : bool :=
  String.prefix needle text ||
  match text with
  | EmptyString => false
  | String _ text => str_contains needle text
  end.

(** The white space of [str.strip] and [str.split]: [whitespace s] is the rest
    of [s] after one leading white-space code point. *)
Definition byte_in (c : Ascii.ascii) (lo hi : N) : bool :=
  let n := Ascii.N_of_ascii c in ((lo <=? n) && (n <=? hi))%N.

Definition whitespace (s : string) : option string :=
  match s with
  | String a s1 =>
      if byte_in a 9 13 || byte_in a 28 32 then Some s1
      else match s1 with
      | String b s2 =>
          (* U+0085, U+00A0 *)
          if byte_in a 194 194 && (byte_in b 133 133 || byte_in b 160 160)
          then Some s2
          else match s2 with
          | String c s3 =>
              (* U+1680; U+2000-200A, U+2028, U+2029, U+202F; U+205F; U+3000 *)
              if (byte_in a 225 225 && byte_in b 154 154 && byte_in c 128 128)
              || (byte_in a 226 226 && byte_in b 128 128
                  && (byte_in c 128 138 || byte_in c 168 169 || byte_in c 175 175))
              || (byte_in a 226 226 && byte_in b 129 129 && byte_in c 159 159)
              || (byte_in a 227 227 && byte_in b 128 128 && byte_in c 128 128)
              then Some s3 else None
          | EmptyString => None
          end
      | EmptyString => None
      end
  | EmptyString => None
  end.

(** [s.split()]: the words between runs of white space.  [word] is the word read
    so far; the fuel [String.length s] is enough since every step consumes a
    byte. *)
Fixpoint split_words (fuel : nat) (word : string) (s : string) : list string :=
  let flush := if String.eqb word "" then [] else [word] in
  match fuel, s with
  | O, _ | _, EmptyString => flush
  | S fuel, String c s1 =>
      match whitespace s with
      | Some s' => flush ++ split_words fuel "" s'
      | None => split_words fuel (word +:+ String c EmptyString) s1
      end
  end.
Definition py_split (s : string) : list string := split_words (String.length s) "" s.

(** [" ".join(words)] *)
Definition join_words (ws : list string) : string := String.concat " " ws.

(** [s.strip()]: leading white space is dropped, then trailing white space. *)
Fixpoint lstrip (fuel : nat) (s : string) : string :=
  match fuel with
  | O => s
  | S fuel => match whitespace s with Some s' => lstrip fuel s' | None => s end
  end.
Fixpoint all_space (fuel : nat) (s : string) : bool :=
  match fuel, s with
  | _, EmptyString => true
  | O, _ => false
  | S fuel, _ => match whitespace s with Some s' => all_space fuel s' | None => false end
  end.
Fixpoint rstrip (s : string) : string :=
  match s with
  | EmptyString => EmptyString
  | String c s' =>
      if all_space (String.length s) s then EmptyString else String c (rstrip s')
  end.
Definition py_strip (s : string) : string := rstrip (lstrip (String.length s) s).

Section consistency.
  Context `{Platform}.

Definition query_consistency (question : string) : string :=
  let normalized := join_words (py_split (str_casefold (py_strip question))) in
  if existsb (λ marker, str_contains marker normalized) MEMORY_QUERY_MARKERS
  then "memory"
  else if existsb (λ marker, str_contains marker normalized) NOTE_QUERY_MARKERS
  then "note"
  else "weak".

Definition task_consistency (task_type : string) (p : payload) : string :=
  let explicit := str_lower (py_strip (opt_or (pl_consistency p) "")) in
  if py_in explicit ["note"; "memory"; "weak"] then explicit
  else if String.eqb task_type "ingest" || String.eqb task_type "summary" then "note"
  else if String.eqb task_type "query"
  then query_consistency (opt_or (pl_rest p !! "question") "")
  else "weak".

Lemma query_consistency_level question :
  query_consistency question ∈ ["note"; "memory"; "weak"].
Proof. unfold query_consistency. repeat case_match; set_solver. Qed.

Lemma task_consistency_level task_type p :
  task_consistency task_type p ∈ ["note"; "memory"; "weak"].
Proof.
  unfold task_consistency. destruct (py_in _ _) eqn:E; [by bools|].
  repeat case_match; try apply query_consistency_level; set_solver.
Qed.

End consistency.

(** * Words *)

(** No position of [w], read with [s] after it, starts white space. *)
Definition clear (w s : string) : Prop :=
  ∀ a b, w = a +:+ b → b ≠ "" → whitespace (b +:+ s) = None.
Definition word (w : string) : Prop := w ≠ "" ∧ clear w "".

Lemma whitespace_more t s r : whitespace t = Some r → whitespace (t +:+ s) = Some (r +:+ s).
Proof.
  unfold whitespace. destruct t as [|a [|b [|c t]]]; rewrite ?append_cons; [done|..];
    repeat case_match; naive_solver.
Qed.

(** A blank after a word does not complete white space that the word begins. *)
Lemma whitespace_blank t s : t ≠ "" → whitespace t = None → whitespace (t +:+ (" " +:+ s)) = None.
Proof.
  change (" " +:+ s) with (String (Ascii.ascii_of_N 32) s).
  unfold whitespace. destruct t as [|a [|b [|c t]]]; rewrite ?append_cons; [done|..]; intros _;
    change ("" +:+ ?x) with x; cbn -[byte_in].
  all: repeat match goal with |- context [byte_in (Ascii.Ascii ?a ?b ?c ?d ?e ?f ?g ?h) ?x ?y] =>
      let r := eval vm_compute in (byte_in (Ascii.Ascii a b c d e f g h) x y) in
      change (byte_in (Ascii.Ascii a b c d e f g h) x y) with r end;
    rewrite ?andb_false_r, ?orb_false_r; cbn; try done.
  all: repeat case_match; try done; bools; naive_solver.
Qed.

Lemma clear_nil s : clear "" s.
Proof. intros a b E Hb. destruct a; [|done]. by destruct b. Qed.

Lemma append_last a : ∀ b w c, w +:+ String c "" = a +:+ b → b ≠ "" →
  ∃ b', b = b' +:+ String c "" ∧ w = a +:+ b'.
Proof.
  induction a as [|x a IH]; intros b w c E Hb; [by exists w|].
  destruct w as [|y w]; rewrite !append_cons in E; injection E as <- E.
  - exfalso. apply Hb. destruct a; [|done]. by destruct b.
  - destruct (IH b w c E Hb) as (b' & -> & ->). by exists b'.
Qed.

Lemma clear_snoc w c s : clear w (String c s) → whitespace (String c s) = None → clear (w +:+ String c "") s.
Proof.
  intros Hw Hc a b E Hb. destruct (append_last _ _ _ _ E Hb) as (b' & -> & ->).
  rewrite append_assoc. change (String c "" +:+ s) with (String c s).
  destruct b' as [|d b']; [done|]. by apply (Hw a).
Qed.

Lemma clear_weaken w s : clear w s → clear w "".
Proof.
  intros Hw a b E Hb. rewrite append_nil_r. destruct (whitespace b) as [r|] eqn:Ew; [|done].
  apply (whitespace_more _ s) in Ew. by rewrite (Hw a b E Hb) in Ew.
Qed.

Lemma clear_blank w s : clear w "" → clear w (" " +:+ s).
Proof. intros Hw a b E Hb. apply whitespace_blank; [done|]. rewrite <- (append_nil_r b). by apply (Hw a). Qed.

Lemma whitespace_shorter s s' : whitespace s = Some s' → (String.length s' < String.length s)%nat.
Proof.
  unfold whitespace. destruct s as [|a [|b [|c s]]]; simpl; [done|..];
    repeat case_match; intros E; try done; injection E as <-; simpl; lia.
Qed.

Lemma split_words_words fuel : ∀ w s, (String.length s ≤ fuel)%nat → clear w s → Forall word (split_words fuel w s).
Proof.
  assert (∀ w s, clear w s → Forall word (if String.eqb w "" then [] else [w])) as Hflush.
  { intros w s Hw. destruct (String.eqb_spec w ""); [done|]. apply Forall_singleton.
    split; [done|]. by eapply clear_weaken. }
  induction fuel as [|fuel IH]; intros w s Hlen Hw.
  { destruct s; [|simpl in Hlen; lia]. by eapply Hflush. }
  destruct s as [|c s]; [by eapply Hflush|]. cbn [split_words].
  destruct (whitespace (String c s)) as [s'|] eqn:E.
  - apply Forall_app. split; [by eapply Hflush|]. apply IH; [|apply clear_nil].
    apply whitespace_shorter in E. simpl in *. lia.
  - apply IH; [simpl in *; lia|]. by apply clear_snoc.
Qed.

(** Reading a word. *)
Lemma split_words_word v : ∀ fuel pre rest, clear v rest →
  split_words (String.length v + fuel) pre (v +:+ rest) = split_words fuel (pre +:+ v) rest.
Proof.
  induction v as [|c v IH]; intros fuel pre rest Hv; [by rewrite append_nil_r|].
  rewrite append_cons. cbn [String.length Nat.add split_words].
  pose proof (Hv "" (String c v) eq_refl ltac:(done)) as E. rewrite append_cons in E. rewrite E, IH.
  - by rewrite append_assoc.
  - intros a b -> Hb. by apply (Hv (String c a)).
Qed.

Lemma append_length (a b : string) : String.length (a +:+ b) = (String.length a + String.length b)%nat.
Proof. induction a as [|c a IH]; [done|]. rewrite append_cons. simpl. by rewrite IH. Qed.

Lemma split_words_join ws : Forall word ws → ∀ fuel, (String.length (join_words ws) ≤ fuel)%nat →
  split_words fuel "" (join_words ws) = ws.
Proof.
  induction 1 as [|w ws [Hw Hclear] Hws IH]; intros fuel Hlen; [by destruct fuel|].
  assert (∀ k, split_words k w "" = [w]) as Hend.
  { intros k. apply String.eqb_neq in Hw. destruct k; simpl; by rewrite Hw. }
  destruct ws as [|w2 ws].
  - change (join_words [w]) with w in *. replace fuel with (String.length w + (fuel - String.length w))%nat by lia.
    pose proof (split_words_word w (fuel - String.length w)%nat "" "" Hclear) as E.
    rewrite append_nil_r in E. rewrite E. apply Hend.
  - change (join_words (w :: w2 :: ws)) with (w +:+ (" " +:+ join_words (w2 :: ws))) in *.
    rewrite !append_length in Hlen. simpl (String.length " ") in Hlen.
    set (j := join_words (w2 :: ws)) in *.
    replace fuel with (String.length w + S (fuel - String.length w - 1))%nat by lia.
    rewrite split_words_word by (by apply clear_blank).
    change ("" +:+ w) with w. change (" " +:+ j) with (String (Ascii.ascii_of_N 32) j).
    cbn [split_words]. change (whitespace (String (Ascii.ascii_of_N 32) j)) with (Some j).
    apply String.eqb_neq in Hw. rewrite Hw. cbn [app]. f_equal. apply IH. lia.
Qed.

(** [" ".join(" ".join(s.split()).split())] is [" ".join(s.split())]. *)
Lemma py_split_join s : py_split (join_words (py_split s)) = py_split s.
Proof.
  unfold py_split at 1. apply split_words_join; [|done]. apply split_words_words; [done|apply clear_nil].
Qed.
