(* ===== verification/Dispatch.v ===== *)
(** [repositories/postgres/dispatch.py] and [ensure_tenant_space] of
    [repositories/postgres/common.py]: receiving a message, creating its task
    under the causal barrier, settling the stages of an inbox message, and
    advancing the watermarks of its space.

    A function with a [session] argument in Python is a [session] computation
    here; a function that opens [session_scope()] is a [transaction].  [now] is
    the instant of the transaction. *)

From stdpp Require Import base list strings gmap pretty.
From Stdlib Require Import ZArith Lia.
From S2P Require Import Prelude Schema Consistency.

Open Scope string_scope.
Open Scope Z_scope.

Definition SETTLED : list string := ["completed"; "failed"].

(** ** Primary-key reads and ORM writes *)

Definition get_space (sid : string) : session (option space) :=
  gets (λ d, List.find (λ s, String.eqb (sp_id s) sid) (spaces d)).
Definition get_task (tid : string) : session (option task) :=
  gets (λ d, List.find (λ t, String.eqb (t_id t) tid) (tasks d)).
Definition get_inbox (mid : string) : session (option inbox_message) :=
  gets (λ d, List.find (λ m, String.eqb (m_id m) mid) (inbox_messages d)).

(** Flushing a changed row object. *)
Definition save_space (sp : space) : session unit :=
  modify (update_spaces (λ s, String.eqb (sp_id s) (sp_id sp)) (λ _, sp)).
Definition save_inbox (m : inbox_message) : session unit :=
  modify (update_inbox (λ r, String.eqb (m_id r) (m_id m)) (λ _, m)).
Definition save_task (t : task) : session unit :=
  modify (update_tasks (λ r, String.eqb (t_id r) (t_id t)) (λ _, t)).

Definition select_space_for_update (sid : string) : session space :=
  rows ← gets (λ d, select_where (λ s, String.eqb (sp_id s) sid) (spaces d));
  lift_result (scalar_one rows).
Definition select_inbox_for_update (mid : string) : session (option inbox_message) :=
  rows ← gets (λ d, select_where (λ m, String.eqb (m_id m) mid) (inbox_messages d));
  lift_result (scalar_one_or_none rows).
Definition select_task_for_update (tid : string) : session (option task) :=
  rows ← gets (λ d, select_where (λ t, String.eqb (t_id t) tid) (tasks d));
  lift_result (scalar_one_or_none rows).

(** [if value:] on an optional string *)
Definition truthy (o : option string) : bool :=
  match o with Some s => negb (String.eqb s "") | None => false end.

Record dispatch_result := DispatchResult {
  dr_inbox_id : string;
  dr_task_id : option string;
  dr_created : bool;
  dr_duplicate : bool;
  dr_in_progress : bool;
}.

Section dispatch.
  Context `{Platform}.

(** ** Tenants and spaces *)

Definition insert_tenant (tenant_id : string) : session unit :=
  modify (λ d, if bool_decide (tenant_id ∈ tenants d) then d
               else d <| tenants := (tenants d ++ [tenant_id])%list |>).

Definition space_identity (tenant_id source source_space_id : string) (s : space) : bool :=
  String.eqb (sp_tenant_id s) tenant_id && String.eqb (sp_source s) source &&
  bool_decide (sp_source_space_id s = Some source_space_id).

(** The inner [_insert]: ON CONFLICT DO NOTHING on the key and on the identity. *)
Definition insert_space (tenant_id source source_space_id preferred_id : string) :
    session (option string) :=
  conflict ← gets (λ d, existsb (λ s, String.eqb (sp_id s) preferred_id
    || space_identity tenant_id source source_space_id s) (spaces d));
  if conflict : bool then mret None
  else
    modify (λ d, d <| spaces := (spaces d ++
      [Space preferred_id tenant_id source (Some source_space_id) ∅ 0 0 0 None])%list |>);;
    mret (Some preferred_id).

(** [if created: return str(created)], else continue *)
Definition or_else (o : option string) (k : session string) : session string :=
  match o with
  | Some s => if String.eqb s "" then k else mret s
  | None => k
  end.

Definition select_space_identity (tenant_id source source_space_id : string) :
    session (list string) :=
  gets (λ d, map sp_id (select_where (space_identity tenant_id source source_space_id)
                          (spaces d))).

Definition ensure_tenant_space (space_id tenant_id source : string) : session string :=
  let source_space_id := space_id in
  internal_existing ← get_space source_space_id;
  match internal_existing ≫= λ sp,
      if String.eqb (sp_tenant_id sp) tenant_id then Some (sp_id sp) else None with
  | Some sid => mret sid
  | None =>
      insert_tenant tenant_id;;
      rows ← select_space_identity tenant_id source source_space_id;
      existing ← lift_result (scalar_one_or_none rows);
      or_else existing (
        created ← insert_space tenant_id source source_space_id source_space_id;
        or_else created (
          let digest := str_take 32 (sha256_hexdigest
            (tenant_id +:+ ":" +:+ source +:+ ":" +:+ source_space_id)) in
          let internal_id := "space_" +:+ digest in
          created ← insert_space tenant_id source source_space_id internal_id;
          or_else created (
            rows ← select_space_identity tenant_id source source_space_id;
            lift_result (scalar_one rows))))
  end.

(** ** Publishing and creating tasks *)

(** [session.add(OutboxEvent(...))] with the column defaults; a second event
    under the same key violates the primary key. *)
Definition add_task_event (event_id : string) (rq : task_request) (now : Z) :
    session unit :=
  taken ← gets (λ d, existsb (λ e, String.eqb (e_id e) event_id) (outbox_events d));
  if taken : bool then raise (IntegrityError "outbox_events_pkey")
  else modify (λ d, d <| outbox_events := (outbox_events d ++
    [OutboxEvent event_id "task.requested" "task" (rq_task_id rq) rq now None 0 None
       "pending" None None None None 10 None None])%list |>).

(** [_publish_task_request(session, task, task_type, attempt=...)]; the task is
    given as its row ([inl]) or as its id and type ([inr]). *)
Definition publish_task_request (t : task + (string * string)) (attempt now : Z) :
    session string :=
  let task_id := match t with inl row => t_id row | inr (tid, _) => tid end in
  let resolved_type :=
    match t with inl row => t_task_type row | inr (_, ty) => ty end in
  row ← match t with inl row => mret (Some row) | inr _ => get_task task_id end;
  let trace_context :=
    match row with Some r => default [] (pl_trace (t_payload_json r)) | None => [] end in
  event_id ← new_id "event";
  add_task_event event_id
    (TaskRequest task_id resolved_type (Z.max 1 attempt) trace_context now) now;;
  mret event_id.

(** INSERT INTO tasks ... ON CONFLICT (idempotency_key) DO NOTHING RETURNING id *)
Definition insert_task (row : task) : session (option string) :=
  conflict ← gets (λ d,
    existsb (λ t, String.eqb (t_idempotency_key t) (t_idempotency_key row)) (tasks d));
  if conflict : bool then mret None
  else
    taken ← gets (λ d, existsb (λ t, String.eqb (t_id t) (t_id row)) (tasks d));
    if taken : bool then raise (IntegrityError "tasks_pkey")
    else
      modify (λ d, d <| tasks := (tasks d ++ [row])%list |>);;
      mret (Some (t_id row)).

(** The keyword arguments of [_enqueue_task_in_session] and [enqueue_task]. *)
Record task_args := TaskArgs {
  ta_task_type : string;
  ta_tenant_id : string;
  ta_space_id : string;
  ta_source_message_id : option string;
  ta_idempotency_key : string;
  ta_payload : payload;
  ta_priority : Z;
  ta_max_attempts : Z;
  ta_initial_status : string;
  ta_publish : bool;
}.
#[export] Instance task_args_eta : Eta task_args := λ r,
  TaskArgs (ta_task_type r) (ta_tenant_id r) (ta_space_id r) (ta_source_message_id r)
    (ta_idempotency_key r) (ta_payload r) (ta_priority r) (ta_max_attempts r)
    (ta_initial_status r) (ta_publish r).

Definition new_task_row (task_id : string) (a : task_args) (p : payload) (now : Z) : task :=
  Task task_id (ta_task_type a) (ta_tenant_id a) (ta_space_id a)
    (ta_source_message_id a) (ta_idempotency_key a) (ta_initial_status a)
    (ta_priority a) 0 0 0 (ta_max_attempts a) p None now None None None None None None 0.

(** [context] is [core.lifecycle.current()], empty when no trace is open. *)
Definition enqueue_task_in_session (context : list (string * string)) (a : task_args)
    (now : Z) : session (string * bool) :=
  let p := match context with
           | [] => ta_payload a
           | _ => ta_payload a <| pl_trace := Some context |>
           end in
  if ta_publish a && negb (String.eqb (ta_initial_status a) "queued")
  then raise (ValueError "only queued tasks may be published")
  else
    task_id ← new_id "task";
    created_id ← insert_task (new_task_row task_id a p now);
    match created_id with
    | None =>
        rows ← gets (λ d, map t_id (select_where (λ t,
          String.eqb (t_idempotency_key t) (ta_idempotency_key a)) (tasks d)));
        existing ← lift_result (scalar_one rows);
        mret (existing, false)
    | Some _ =>
        (if ta_publish a
         then publish_task_request (inr (task_id, ta_task_type a)) 1 now;; mret tt
         else mret tt);;
        mret (task_id, true)
    end.

Definition enqueue_task (context : list (string * string)) (a : task_args) (now : Z) :
    db → result (string * bool) * db :=
  transaction (
    space_id ← ensure_tenant_space (ta_space_id a) (ta_tenant_id a) "feishu";
    enqueue_task_in_session context (a <| ta_space_id := space_id |>) now).

(** ** Activating blocked tasks *)

(** The SET list that [activate_task_in_session] and the loop of
    [_activate_ready_tasks_in_session] write. *)
Definition activate_row (t : task) : task :=
  t <| t_status := "queued" |> <| t_next_retry_at := None |> <| t_claimed_by := None |>
    <| t_lease_token := None |> <| t_lease_expires_at := None |>.

Definition activate_and_publish (now : Z) (t : task) : session unit :=
  let row := activate_row t in
  save_task row;;
  publish_task_request (inl row) (t_attempt_count row + 1) now;;
  mret tt.

Definition activate_task_in_session (task_id : string) (now : Z) :
    session (option string) :=
  row ← select_task_for_update task_id;
  match row with
  | None => raise (ValueError ("task not found: " +:+ task_id))
  | Some t =>
      if negb (String.eqb (t_status t) "blocked") then mret None
      else activate_and_publish now t;; mret (Some (t_id t))
  end.

(** The WHERE clause on the payload.  A missing key is NULL: [NOT (NULL IN ...)],
    [NULL = 'note'] and [NULL <= w] are all unknown, so the row is not taken. *)
Definition watermark_reached (required : option Z) (watermark : Z) : bool :=
  match required with Some r => r <=? watermark | None => false end.

Definition ready_condition (sp : space) (p : payload) : bool :=
  match pl_consistency p with
  | None => false
  | Some c =>
      negb (py_in c ["note"; "memory"])
      || (String.eqb c "note"
          && watermark_reached (pl_required_watermark p) (sp_note_watermark sp))
      || (String.eqb c "memory"
          && watermark_reached (pl_required_watermark p) (sp_memory_watermark sp))
  end.

Definition ready_task (sp : space) (t : task) : bool :=
  String.eqb (t_space_id t) (sp_id sp) && String.eqb (t_status t) "blocked"
  && ready_condition sp (t_payload_json t).

(** ORDER BY created_at, id *)
Definition created_before (t1 t2 : task) : bool :=
  (t_created_at t1 <? t_created_at t2)
  || ((t_created_at t1 =? t_created_at t2) && String.leb (t_id t1) (t_id t2)).

Definition activate_ready_tasks_in_session (sp : space) (now : Z) : session Z :=
  rows ← gets (λ d, sort_by created_before (select_where (ready_task sp) (tasks d)));
  for_each rows (activate_and_publish now);;
  mret (Z.of_nat (length rows)).

(** ** Advancing the watermarks *)

(** One watermark column from the two aggregates over the rows above it: the
    first sequence number whose stage is open, and the last sequence number. *)
Definition advanced_watermark (current : Z) (first_open last : option Z) : Z :=
  match first_open, last with
  | Some o, _ => Z.max current (o - 1)
  | None, Some l => Z.max current l
  | None, None => current
  end.

Definition first_open_above (status : inbox_message → string) (current : Z)
    (rows : list inbox_message) : option Z :=
  min_agg (map m_sequence_no (select_where
    (λ m, (current <? m_sequence_no m) && negb (py_in (status m) SETTLED)) rows)).
Definition last_above (current : Z) (rows : list inbox_message) : option Z :=
  max_agg (map m_sequence_no (select_where (λ m, current <? m_sequence_no m) rows)).

Definition advance_row (sp : space) (rows : list inbox_message) : space :=
  let note_current := sp_note_watermark sp in
  let memory_current := sp_memory_watermark sp in
  sp <| sp_note_watermark := advanced_watermark note_current
          (first_open_above m_note_status note_current rows)
          (last_above note_current rows) |>
     <| sp_memory_watermark := advanced_watermark memory_current
          (first_open_above m_memory_status memory_current rows)
          (last_above memory_current rows) |>.

Definition messages_of (sid : string) (d : db) : list inbox_message :=
  select_where (λ m, String.eqb (m_space_id m) sid) (inbox_messages d).

Definition advance_watermarks_in_session (sp : space) (now : Z) : session unit :=
  rows ← gets (messages_of (sp_id sp));
  let sp' := advance_row sp rows in
  save_space sp';;
  activate_ready_tasks_in_session sp' now;;
  mret tt.

(** ** Receiving a command *)

(** The keyword arguments of [receive_command]. *)
Record command := Command {
  c_source : string;
  c_source_message_id : string;
  c_source_event_id : option string;
  c_tenant_id : string;
  c_space_id : string;
  c_chat_id : option string;
  c_chat_type : option string;
  c_sender : list (string * string);
  c_text_value : string;
  c_received_at : Z;
  c_task_type : string;
  c_task_payload : payload;
  c_sensitivity : string;
  c_max_attempts : Z;
}.

Definition DEFAULT_TENANT_ID : string := "default".

Definition idempotency_key (tenant_id task_type source source_message_id : string) :
    string :=
  tenant_id +:+ ":" +:+ task_type +:+ ":" +:+ source +:+ ":" +:+ source_message_id.

Definition new_inbox_row (inbox_id : string) (c : command)
    (tenant_id space_id : string) (sequence_no : Z) : inbox_message :=
  let is_ingest := String.eqb (c_task_type c) "ingest" in
  let stage := if is_ingest then "pending" else "completed" in
  let completed_at := if is_ingest then None else Some (c_received_at c) in
  InboxMessage inbox_id (c_source c) (c_source_message_id c) (c_source_event_id c)
    tenant_id space_id (c_chat_id c) (c_chat_type c) (c_sender c) (c_text_value c)
    (c_received_at c) "pending" (c_sensitivity c) sequence_no stage stage
    completed_at completed_at.

(** [session.add(InboxMessage(...))] with the key and the two unique constraints. *)
Definition same_source_message (m1 m2 : inbox_message) : bool :=
  String.eqb (m_tenant_id m1) (m_tenant_id m2) && String.eqb (m_source m1) (m_source m2)
  && String.eqb (m_source_message_id m1) (m_source_message_id m2).
Definition inbox_conflict (row m : inbox_message) : bool :=
  String.eqb (m_id m) (m_id row) || same_source_message m row
  || (String.eqb (m_space_id m) (m_space_id row)
      && (m_sequence_no m =? m_sequence_no row)).
Definition add_inbox (row : inbox_message) : session unit :=
  taken ← gets (λ d, existsb (inbox_conflict row) (inbox_messages d));
  if taken : bool then raise (IntegrityError "inbox_messages")
  else modify (λ d, d <| inbox_messages := (inbox_messages d ++ [row])%list |>).

(** coalesce(max(sequence_no), 0) + 1 *)
Definition next_sequence_no (sid : string) (d : db) : Z :=
  default 0 (max_agg (map m_sequence_no (messages_of sid d))) + 1.

Definition initial_status (consistency : string) (current_watermark required : Z) : string :=
  if py_in consistency ["note"; "memory"] && (current_watermark <? required)
  then "blocked" else "queued".

(** The part of [receive_command] after the duplicate check. *)
Definition receive_new (context : list (string * string)) (c : command)
    (tenant_id source_space_id space_id : string) (now : Z) : session dispatch_result :=
  sequence_no ← gets (next_sequence_no space_id);
  inbox_id ← new_id "inbox";
  let consistency := task_consistency (c_task_type c) (c_task_payload c) in
  let is_ingest := String.eqb (c_task_type c) "ingest" in
  add_inbox (new_inbox_row inbox_id c tenant_id space_id sequence_no);;
  sp ← select_space_for_update space_id;
  let required_watermark := Z.max 0 (sequence_no - 1) in
  let current_watermark :=
    if String.eqb consistency "memory" then sp_memory_watermark sp
    else sp_note_watermark sp in
  let status := initial_status consistency current_watermark required_watermark in
  let task_payload := c_task_payload c
    <| pl_source_space_id := Some source_space_id |>
    <| pl_inbox_id := Some inbox_id |>
    <| pl_sequence_no := Some sequence_no |>
    <| pl_consistency := Some consistency |>
    <| pl_required_watermark := Some required_watermark |> in
  created ← enqueue_task_in_session context
    (TaskArgs (c_task_type c) tenant_id space_id (Some (c_source_message_id c))
       (idempotency_key tenant_id (c_task_type c) (c_source c) (c_source_message_id c))
       task_payload 0 (c_max_attempts c) status (String.eqb status "queued")) now;
  (if is_ingest then mret tt else advance_watermarks_in_session sp now);;
  mret (DispatchResult inbox_id (Some created.1) true false false).

Definition receive_in_session (context : list (string * string)) (c : command) (now : Z) :
    session dispatch_result :=
  let tenant_id := str_or (c_tenant_id c) DEFAULT_TENANT_ID in
  let source_space_id := c_space_id c in
  space_id ← ensure_tenant_space source_space_id tenant_id (c_source c);
  rows ← gets (λ d, select_where (λ m,
    String.eqb (m_tenant_id m) tenant_id && String.eqb (m_source m) (c_source c)
    && String.eqb (m_source_message_id m) (c_source_message_id c)) (inbox_messages d));
  existing ← lift_result (scalar_one_or_none rows);
  match existing with
  | Some m =>
      rows ← gets (λ d, map t_id (select_where (λ t,
        String.eqb (t_idempotency_key t)
          (idempotency_key tenant_id (c_task_type c) (c_source c)
             (c_source_message_id c))) (tasks d)));
      t ← lift_result (scalar_one_or_none rows);
      mret (DispatchResult (m_id m) (if truthy t then t else None) false true false)
  | None => receive_new context c tenant_id source_space_id space_id now
  end.

Definition receive_command (context : list (string * string)) (c : command) (now : Z) :
    db → result dispatch_result * db :=
  transaction (receive_in_session context c now).
End dispatch.
