(* ===== verification/Stages.v ===== *)
(** The second half of [repositories/postgres/dispatch.py]: settling the note and
    memory stages of an inbox message, skipping a message, recovering skipped
    messages, and the queries on the inbox and on the progress of a space. *)

From stdpp Require Import base list strings gmap pretty.
From Stdlib Require Import ZArith Lia.
From S2P Require Import Prelude Schema Consistency Dispatch.

Open Scope string_scope.
Open Scope Z_scope.

(** [str(error or "unknown").split(":", 1)[0][:128]] *)
Definition error_type_of (n : nat) (error : string) : string :=
  str_take n (before_colon error).

Definition note_gap (m : inbox_message) (error : option string) (sp : space) : space :=
  sp <| sp_metadata_json := <["last_note_gap" :=
    Gap (m_sequence_no m) (m_id m) (str_take 256 (opt_or error "unknown"))]>
    (sp_metadata_json sp) |>.

Definition memory_gap (m : inbox_message) (error : option string) (sp : space) : space :=
  sp <| sp_memory_gap_sequence_no := Some (m_sequence_no m) |>
     <| sp_metadata_json := <["last_memory_gap" :=
    Gap (m_sequence_no m) (m_id m) (error_type_of 128 (opt_or error "unknown"))]>
    (sp_metadata_json sp) |>.

(** The flags of [complete_inbox_stage_in_session]. *)
Record stage := Stage { note : bool; memory : bool; finalize : bool; success : bool }.

(** [if note: ...] on the inbox row and the space row *)
Definition settle_note (st : stage) (error : option string) (now : Z)
    (ms : inbox_message * space) : inbox_message * space :=
  let stage_status := if success st then "completed" else "failed" in
  if note st then
    (ms.1 <| m_note_status := stage_status |> <| m_note_completed_at := Some now |>,
     if success st then ms.2 else note_gap ms.1 error ms.2)
  else ms.

(** [if memory: ...] *)
Definition settle_memory (st : stage) (error : option string) (now : Z)
    (ms : inbox_message * space) : inbox_message * space :=
  let stage_status := if success st then "completed" else "failed" in
  if memory st then
    (ms.1 <| m_memory_status := stage_status |> <| m_memory_completed_at := Some now |>,
     if success st then ms.2 else memory_gap ms.1 error ms.2)
  else ms.

(** [if not success: ...] inside the finalization: stages still pending fail *)
Definition fail_pending (error : option string) (now : Z)
    (ms : inbox_message * space) : inbox_message * space :=
  let m1 := if String.eqb (m_note_status ms.1) "pending"
            then ms.1 <| m_note_status := "failed" |> <| m_note_completed_at := Some now |>
            else ms.1 in
  if String.eqb (m_memory_status m1) "pending"
  then (m1 <| m_memory_status := "failed" |> <| m_memory_completed_at := Some now |>,
        memory_gap m1 error ms.2)
  else (m1, ms.2).

(** [if finalize and inbox.status not in {"processed", "failed"}: ...] *)
Definition finalize_message (st : stage) (error : option string) (now : Z)
    (ms : inbox_message * space) : inbox_message * space :=
  if finalize st && negb (py_in (m_status ms.1) ["processed"; "failed"]) then
    let m1 := ms.1 <| m_status := if success st then "processed" else "failed" |> in
    let sp1 := ms.2 <| sp_processed_sequence_no :=
      Z.max (sp_processed_sequence_no ms.2) (m_sequence_no m1) |> in
    if success st then (m1, sp1) else fail_pending error now (m1, sp1)
  else ms.

Definition settle (st : stage) (error : option string) (now : Z)
    (ms : inbox_message * space) : inbox_message * space :=
  finalize_message st error now (settle_memory st error now (settle_note st error now ms)).

Section stages.
  Context `{Platform}.

Definition complete_inbox_stage_in_session (inbox_id : string) (st : stage)
    (error : option string) (now : Z) : session unit :=
  row ← select_inbox_for_update inbox_id;
  match row with
  | None => raise (ValueError ("inbox record not found: " +:+ inbox_id))
  | Some m =>
      sp ← select_space_for_update (m_space_id m);
      let ms := settle st error now (m, sp) in
      save_inbox ms.1;;
      save_space ms.2;;
      advance_watermarks_in_session ms.2 now
  end.

Definition mark_inbox_note_completed_in_session (inbox_id : string) (ok : bool)
    (error : option string) (now : Z) : session unit :=
  complete_inbox_stage_in_session inbox_id (Stage true false false ok) error now.

Definition mark_inbox_memory_completed_in_session (inbox_id : string) (ok : bool)
    (error : option string) (now : Z) : session unit :=
  complete_inbox_stage_in_session inbox_id (Stage false true false ok) error now.

Definition finalize_inbox_in_session (inbox_id : string) (ok : bool)
    (error : option string) (now : Z) : session (option string) :=
  complete_inbox_stage_in_session inbox_id (Stage false false true ok) error now;;
  mret None.

Definition mark_inbox_processed (inbox_id : string) (now : Z) :
    db → result (option string) * db :=
  transaction (finalize_inbox_in_session inbox_id true None now).

Definition mark_inbox_failed (inbox_id error : string) (now : Z) :
    db → result (option string) * db :=
  transaction (finalize_inbox_in_session inbox_id false (Some error) now).

(** ** Skipping a message *)

(** The raw UPDATE of [skip_inbox_record]: it selects the tasks by the source
    message id alone. *)
Definition cancellable_root (source_message_id : string) (t : task) : bool :=
  bool_decide (t_source_message_id t = Some source_message_id)
  && String.eqb (t_task_type t) "ingest"
  && py_in (t_status t) ["blocked"; "queued"; "retry"].

Definition cancel_root_tasks (source_message_id reason : string) (now : Z) :
    session unit :=
  modify (update_tasks (cancellable_root source_message_id) (λ t,
    t <| t_status := "cancelled" |> <| t_completed_at := Some now |>
      <| t_last_error := Some reason |>)).

Definition skip_row (final_status : string) (now : Z) (m : inbox_message) : inbox_message :=
  m <| m_status := final_status |>
    <| m_note_status := "completed" |> <| m_memory_status := "completed" |>
    <| m_note_completed_at := Some now |> <| m_memory_completed_at := Some now |>.

Definition skip_in_session (inbox_id final_status : string) (cancel_root_task : bool)
    (now : Z) : session bool :=
  row ← select_inbox_for_update inbox_id;
  match row with
  | None => mret false
  | Some m =>
      sp ← select_space_for_update (m_space_id m);
      save_inbox (skip_row final_status now m);;
      (if cancel_root_task
       then cancel_root_tasks (m_source_message_id m) final_status now
       else mret tt);;
      advance_watermarks_in_session sp now;;
      mret true
  end.

Definition skip_inbox_record (inbox_id final_status : string) (cancel_root_task : bool)
    (now : Z) : db → result bool * db :=
  transaction (skip_in_session inbox_id final_status cancel_root_task now).

Definition complete_blocked_sensitive_inbox (inbox_id : string) (now : Z) :
    db → result bool * db :=
  skip_inbox_record inbox_id "blocked_sensitive" false now.

(** ** Recovering skipped messages *)

(** [limit(max(1, min(int(limit), 5000)))] *)
Definition clamp_limit (limit : Z) : nat := Z.to_nat (Z.max 1 (Z.min limit 5000)).

Definition received_before (m1 m2 : inbox_message) : bool :=
  m_received_at m1 <=? m_received_at m2.

Definition sensitive_ids (limit : Z) (d : db) : list string :=
  map m_id (take (clamp_limit limit) (sort_by received_before (select_where (λ m,
    String.eqb (m_status m) "blocked_sensitive"
    && negb (py_in (m_note_status m) SETTLED)) (inbox_messages d)))).

(** The join of inbox messages and tasks on the source message id. *)
Definition unknown_command_ids (limit : Z) (d : db) : list string :=
  map m_id (take (clamp_limit limit) (sort_by received_before (
    m ← select_where (λ m, String.eqb (m_status m) "pending"
                           && String.prefix "/" (m_text m)) (inbox_messages d);
    _ ← select_where (cancellable_root (m_source_message_id m)) (tasks d);
    [m]))).

(** A loop of transactions: it stops at the first one that raises. *)
Fixpoint run_all {A} (l : list A) (f : A → db → result bool * db) (d : db) :
    result unit * db :=
  match l with
  | [] => (Ok tt, d)
  | x :: l =>
      match f x d with
      | (Ok _, d') => run_all l f d'
      | (Raise e, d') => (Raise e, d')
      end
  end.

Definition recover_skipped_ingress (limit now : Z) (d : db) : result (Z * Z) * db :=
  let sensitive := sensitive_ids limit d in
  let unknown := unknown_command_ids limit d in
  match run_all sensitive (λ i, complete_blocked_sensitive_inbox i now) d with
  | (Raise e, d1) => (Raise e, d1)
  | (Ok _, d1) =>
      match run_all unknown (λ i, skip_inbox_record i "skipped_command" true now) d1 with
      | (Raise e, d2) => (Raise e, d2)
      | (Ok _, d2) =>
          (Ok (Z.of_nat (length sensitive), Z.of_nat (length unknown)), d2)
      end
  end.

(** ** Queries *)

Definition load_inbox_record (inbox_id : string) (d : db) : option inbox_message :=
  List.find (λ m, String.eqb (m_id m) inbox_id) (inbox_messages d).

Definition is_next_inbox_message (inbox_id : string) (d : db) : bool :=
  match load_inbox_record inbox_id d with
  | None => false
  | Some row =>
      match select_where (λ m, String.eqb (m_space_id m) (m_space_id row)
               && (m_sequence_no m <? m_sequence_no row)
               && String.eqb (m_status m) "pending") (inbox_messages d) with
      | [] => true
      | _ => false
      end
  end.

Definition task_watermark_ready (t : task) (d : db) : bool :=
  let p := t_payload_json t in
  let consistency := opt_or (pl_consistency p) "weak" in
  if negb (py_in consistency ["note"; "memory"]) then true
  else
    let required := default 0 (pl_required_watermark p) in
    match List.find (λ s, String.eqb (sp_id s) (t_space_id t)) (spaces d) with
    | None => false
    | Some sp =>
        let current := if String.eqb consistency "memory" then sp_memory_watermark sp
                       else sp_note_watermark sp in
        required <=? current
    end.

Definition root_task_for_inbox (m : inbox_message) : session (option task) :=
  rows ← gets (λ d, select_where (λ t,
    String.eqb (t_tenant_id t) (m_tenant_id m) && String.eqb (t_space_id t) (m_space_id m)
    && bool_decide (t_source_message_id t = Some (m_source_message_id m))
    && bool_decide (pl_inbox_id (t_payload_json t) = Some (m_id m))) (tasks d));
  lift_result (scalar_one_or_none rows).

(** (processed_sequence_no, note_watermark, memory_watermark, memory_gap_sequence_no) *)
Definition get_space_progress (space_id : string) (d : db) :
    option (Z * Z * Z * option Z) :=
  sp ← List.find (λ s, String.eqb (sp_id s) space_id) (spaces d);
  Some (sp_processed_sequence_no sp, sp_note_watermark sp, sp_memory_watermark sp,
        sp_memory_gap_sequence_no sp).
End stages.
