(* ===== verification/Tasks.v ===== *)
(** [repositories/postgres/tasks.py]: the life of a task row.  A worker claims a
    task under a lease, then completes, fails or defers it; each of these is
    fenced by the lease token and the claim version. *)

From stdpp Require Import base list strings gmap pretty.
From Stdlib Require Import ZArith Lia.
From S2P Require Import Prelude Schema Consistency Dispatch Stages.

Open Scope string_scope.
Open Scope Z_scope.

(** The dict argument of [create_task]. *)
Record task_dict := TaskDict {
  td_id : string;
  td_task_type : string;
  td_tenant_id : option string;
  td_space_id : string;
  td_source_message_id : option string;
  td_idempotency_key : string;
  td_status : option string;
  td_priority : option Z;
  td_attempt_count : option Z;
  td_failure_count : option Z;
  td_defer_count : option Z;
  td_max_attempts : option Z;
  td_payload : option payload;
  td_next_retry_at : option Z;
}.

(** [int(d.get(k) or n)] *)
Definition int_or (o : option Z) (n : Z) : Z :=
  match o with Some z => if z =? 0 then n else z | None => n end.

(** [update_task_status(task_id, status, **updates)]: the allowed columns, and
    the keywords that are ignored. *)
Inductive task_update :=
  | set_attempt_count (n : Z)
  | set_failure_count (n : Z)
  | set_defer_count (n : Z)
  | set_next_retry_at (o : option Z)
  | set_started_at (o : option Z)
  | set_completed_at (o : option Z)
  | set_last_error (o : option string)
  | set_other (column : string).

Definition apply_update (t : task) (u : task_update) : task :=
  match u with
  | set_attempt_count n => t <| t_attempt_count := n |>
  | set_failure_count n => t <| t_failure_count := n |>
  | set_defer_count n => t <| t_defer_count := n |>
  | set_next_retry_at o => t <| t_next_retry_at := o |>
  | set_started_at o => t <| t_started_at := o |>
  | set_completed_at o => t <| t_completed_at := o |>
  | set_last_error o => t <| t_last_error := o |>
  | set_other _ => t
  end.

(** What [claim_task] returns: the claimed row and the candidate's old columns. *)
Record claim := Claim {
  cl_task : task;
  cl_previous_status : string;
  cl_previous_claimed_by : option string;
  cl_previous_lease_expires_at : option Z;
}.

(** The optional keyword arguments of [complete_task], which are the fields of
    [runtime.streams.worker.TaskOutcome]. *)
Record outcome := TaskOutcome {
  release_inbox_id : option string;
  activate_task_id : option string;
  note_ready_inbox_id : option string;
  memory_ready_inbox_id : option string;
  ingest_complete_inbox_id : option string;
}.
Definition no_outcome : outcome := TaskOutcome None None None None None.

Definition outcomes (o : outcome) : list (option string) :=
  [release_inbox_id o; activate_task_id o; note_ready_inbox_id o;
   memory_ready_inbox_id o; ingest_complete_inbox_id o].

(** [sum(value is not None for value in outcomes) > 1] *)
Definition several_outcomes (o : outcome) : bool :=
  (1 <? length (List.filter (λ v, bool_decide (is_Some v)) (outcomes o)))%nat.

Section tasks.
  Context `{Platform}.

Definition create_task (t : task_dict) (now : Z) : db → result bool * db :=
  let tenant_id := opt_or (td_tenant_id t) DEFAULT_TENANT_ID in
  transaction (
    space_id ← ensure_tenant_space (td_space_id t) tenant_id "feishu";
    created ← insert_task (Task (td_id t) (td_task_type t) tenant_id space_id
      (td_source_message_id t) (td_idempotency_key t)
      (opt_or (td_status t) "queued") (int_or (td_priority t) 0)
      (int_or (td_attempt_count t) 0) (int_or (td_failure_count t) 0)
      (int_or (td_defer_count t) 0) (int_or (td_max_attempts t) 3)
      (default empty_payload (td_payload t)) (td_next_retry_at t)
      now None None None None None None 0);
    mret (bool_decide (is_Some created))).

Definition update_task_status (task_id status : string) (updates : list task_update) :
    db → result unit * db :=
  transaction (modify (update_tasks (λ t, String.eqb (t_id t) task_id)
    (λ t, foldl apply_update t updates <| t_status := status |>))).

(** ** Claiming *)

Definition UNCLAIMABLE : list string :=
  ["blocked"; "cancelled"; "completed"; "dead_letter"].

(** The WHERE clause of the [candidate] CTE. *)
Definition claimable (task_id : string) (now stale_before : Z) (t : task) : bool :=
  String.eqb (t_id t) task_id
  && negb (py_in (t_status t) UNCLAIMABLE)
  && match t_next_retry_at t with None => true | Some r => r <=? now end
  && (negb (String.eqb (t_status t) "running")
      || match t_lease_expires_at t with
         | Some l => l <=? now
         | None => match t_started_at t with
                   | None => true
                   | Some s => s <=? stale_before
                   end
         end).

(** CTE [expired_attempt] *)
Definition expire_attempts (t : task) (now : Z) : session unit :=
  if String.eqb (t_status t) "running" then
    modify (update_attempts (λ a,
      String.eqb (a_task_id a) (t_id t) && (a_attempt_no a =? t_attempt_count t)
      && String.eqb (a_status a) "running")
      (λ a, a <| a_status := "lease_expired" |> <| a_finished_at := Some now |>))
  else mret tt.

(** CTE [claimed] *)
Definition claim_row (worker_id lease_token : string) (lease_expires_at now : Z)
    (t : task) : task :=
  t <| t_status := "running" |> <| t_started_at := Some now |>
    <| t_attempt_count := t_attempt_count t + 1 |>
    <| t_claimed_by := Some worker_id |> <| t_lease_token := Some lease_token |>
    <| t_lease_expires_at := Some lease_expires_at |>
    <| t_claim_version := t_claim_version t + 1 |>.

(** CTE [recorded_attempt], under the unique key (task_id, attempt_no) *)
Definition record_attempt (t : task) (worker_id : string) (now : Z) : session unit :=
  taken ← gets (λ d, existsb (λ a, String.eqb (a_task_id a) (t_id t)
    && (a_attempt_no a =? t_attempt_count t)) (task_attempts d));
  if taken : bool then raise (IntegrityError "uq_task_attempt_no")
  else modify (λ d, d <| task_attempts := (task_attempts d ++
    [TaskAttempt (t_id t) worker_id (t_attempt_count t) "running" now None None None])%list |>).

Definition claim_in_session (task_id worker_id : string) (stale_after_seconds now : Z) :
    session (option claim) :=
  let stale_before := now - seconds (Z.max 1 stale_after_seconds) in
  lease_token ← draw_uuid;
  let lease_expires_at := now + seconds (Z.max 1 stale_after_seconds) in
  rows ← gets (λ d, select_where (claimable task_id now stale_before) (tasks d));
  candidate ← lift_result (scalar_one_or_none rows);
  match candidate with
  | None => mret None
  | Some t =>
      expire_attempts t now;;
      let claimed := claim_row worker_id lease_token lease_expires_at now t in
      save_task claimed;;
      record_attempt claimed worker_id now;;
      mret (Some (Claim claimed (t_status t) (t_claimed_by t) (t_lease_expires_at t)))
  end.

Definition claim_task (task_id worker_id : string) (stale_after_seconds now : Z) :
    db → result (option claim) * db :=
  transaction (claim_in_session task_id worker_id stale_after_seconds now).

(** ** Ownership *)

(** status = 'running' AND lease_token = ... AND claim_version = ... *)
Definition holds_claim (task_id lease_token : string) (claim_version : Z) (t : task) : bool :=
  String.eqb (t_id t) task_id && String.eqb (t_status t) "running"
  && bool_decide (t_lease_token t = Some lease_token)
  && (t_claim_version t =? claim_version).

(** ... AND lease_expires_at > now *)
Definition owns (task_id lease_token : string) (claim_version now : Z) (t : task) : bool :=
  holds_claim task_id lease_token claim_version t
  && match t_lease_expires_at t with Some l => now <? l | None => false end.

Definition renew_task_lease (task_id lease_token : string)
    (claim_version lease_seconds now : Z) : db → result bool * db :=
  transaction (
    rows ← gets (λ d, select_where (holds_claim task_id lease_token claim_version) (tasks d));
    modify (update_tasks (holds_claim task_id lease_token claim_version)
      (λ t, t <| t_lease_expires_at := Some (now + seconds (Z.max 1 lease_seconds)) |>));;
    renewed ← lift_result (scalar_one_or_none rows);
    mret (bool_decide (is_Some renewed))).

Definition owned_running_task (task_id lease_token : string) (claim_version now : Z) :
    session (option task) :=
  rows ← gets (λ d, select_where (owns task_id lease_token claim_version now) (tasks d));
  lift_result (scalar_one_or_none rows).

(** The SET list of a completed task. *)
Definition complete_row (now : Z) (t : task) : task :=
  t <| t_status := "completed" |> <| t_completed_at := Some now |>
    <| t_next_retry_at := None |> <| t_last_error := None |> <| t_claimed_by := None |>
    <| t_lease_token := None |> <| t_lease_expires_at := None |>.

(** UPDATE task_attempts ... WHERE task_id = ... AND attempt_no = ... *)
Definition finish_attempt (task_id : string) (attempt_no : Z) (status : string)
    (error_type error_summary : option string) (now : Z) : session unit :=
  modify (update_attempts (λ a, String.eqb (a_task_id a) task_id
    && (a_attempt_no a =? attempt_no))
    (λ a, a <| a_status := status |> <| a_finished_at := Some now |>
            <| a_error_type := match error_type with None => a_error_type a | e => e end |>
            <| a_error_summary := match error_summary with None => a_error_summary a | e => e end |>)).

(** ** Completing a task together with its inbox message

    [_complete_task_with_inbox_outcome] is one SQL statement: every CTE reads the
    tables as they were before the statement ([d] below), and sees the writes of
    the others only through their RETURNING rows. *)

Record inbox_flags := InboxFlags {
  note_completed : bool;
  memory_completed : bool;
  finalize_inbox : bool;
}.

(** CTE [completed]: the task to complete, given the locked inbox row *)
Definition completable (task_id lease_token : string) (claim_version now : Z)
    (m : inbox_message) (t : task) : bool :=
  String.eqb (t_tenant_id t) (m_tenant_id m) && String.eqb (t_space_id t) (m_space_id m)
  && owns task_id lease_token claim_version now t.

(** CTE [updated_inbox] *)
Definition complete_inbox_row (fl : inbox_flags) (now : Z) (m : inbox_message) :
    inbox_message :=
  m <| m_note_status := if note_completed fl then "completed" else m_note_status m |>
    <| m_note_completed_at :=
         if note_completed fl then Some now else m_note_completed_at m |>
    <| m_memory_status := if memory_completed fl then "completed" else m_memory_status m |>
    <| m_memory_completed_at :=
         if memory_completed fl then Some now else m_memory_completed_at m |>
    <| m_status := if finalize_inbox fl && negb (py_in (m_status m) ["processed"; "failed"])
                   then "processed" else m_status m |>.

(** CTE [progress], one watermark: [status] reads the stage of a candidate row,
    through the updated row when the candidate is the one being updated. *)
Definition seen_status (stage : inbox_message → string) (updated candidate : inbox_message) :
    string :=
  if String.eqb (m_id candidate) (m_id updated) then stage updated else stage candidate.

Definition progress_watermark (stage : inbox_message → string) (updated : inbox_message)
    (watermark : Z) (candidates : list inbox_message) : Z :=
  let first_open := min_agg (map m_sequence_no (select_where (λ c,
    (watermark <? m_sequence_no c) && negb (py_in (seen_status stage updated c) SETTLED))
    candidates)) in
  let last := max_agg (map m_sequence_no (select_where (λ c,
    watermark <? m_sequence_no c) candidates)) in
  Z.max watermark
    (match first_open, last with
     | Some o, _ => o - 1
     | None, Some l => l
     | None, None => watermark
     end).

(** CTE [updated_space] *)
Definition progress_space_row (fl : inbox_flags) (m' : inbox_message) (d : db) (sp : space) :
    space :=
  let candidates := messages_of (sp_id sp) d in
  sp <| sp_note_watermark :=
          progress_watermark m_note_status m' (sp_note_watermark sp) candidates |>
     <| sp_memory_watermark :=
          progress_watermark m_memory_status m' (sp_memory_watermark sp) candidates |>
     <| sp_processed_sequence_no :=
          if finalize_inbox fl then Z.max (sp_processed_sequence_no sp) (m_sequence_no m')
          else sp_processed_sequence_no sp |>.

(** CTE [activated]: here a missing key counts as 'weak', and a missing
    requirement as 0. *)
Definition sql_ready_condition (sp : space) (p : payload) : bool :=
  negb (py_in (default "weak" (pl_consistency p)) ["note"; "memory"])
  || (bool_decide (pl_consistency p = Some "note")
      && (default 0 (pl_required_watermark p) <=? sp_note_watermark sp))
  || (bool_decide (pl_consistency p = Some "memory")
      && (default 0 (pl_required_watermark p) <=? sp_memory_watermark sp)).

Definition sql_ready_task (sp : space) (t : task) : bool :=
  String.eqb (t_space_id t) (sp_id sp) && String.eqb (t_status t) "blocked"
  && sql_ready_condition sp (t_payload_json t).

(** CTE [published] *)
Definition activation_event_id (t : task) : string :=
  "event_" +:+ md5_hex (t_id t +:+ ":" +:+ pretty (t_attempt_count t + 1)).

Definition activation_event (now : Z) (t : task) : outbox_event :=
  OutboxEvent (activation_event_id t) "task.requested" "task" (t_id t)
    (TaskRequest (t_id t) (t_task_type t) (t_attempt_count t + 1)
       (default [] (pl_trace (t_payload_json t))) now)
    now None 0 None "pending" None None None None 10 None None.

(** ON CONFLICT (id) DO NOTHING *)
Definition insert_event (es : list outbox_event) (e : outbox_event) : list outbox_event :=
  if existsb (λ e', String.eqb (e_id e') (e_id e)) es then es else (es ++ [e])%list.

Definition inbox_outcome_statement (completed : task) (m : inbox_message)
    (fl : inbox_flags) (now : Z) (d : db) : db :=
  let m' := complete_inbox_row fl now m in
  let d1 := update_tasks (λ t, String.eqb (t_id t) (t_id completed)) (complete_row now) d in
  let d2 := update_attempts (λ a, String.eqb (a_task_id a) (t_id completed)
              && (a_attempt_no a =? t_attempt_count completed))
              (λ a, a <| a_status := "completed" |> <| a_finished_at := Some now |>) d1 in
  let d3 := update_inbox (λ r, String.eqb (m_id r) (m_id m)) (λ _, m') d2 in
  match List.find (λ s, String.eqb (sp_id s) (m_space_id m)) (spaces d) with
  | None => d3
  | Some sp =>
      let sp' := progress_space_row fl m' d sp in
      let activated := select_where (sql_ready_task sp') (tasks d) in
      let d4 := update_spaces (λ s, String.eqb (sp_id s) (sp_id sp)) (λ _, sp') d3 in
      let d5 := update_tasks (sql_ready_task sp') activate_row d4 in
      d5 <| outbox_events :=
        foldl insert_event (outbox_events d5) (map (activation_event now) activated) |>
  end.

Definition complete_task_with_inbox_outcome (task_id lease_token : string)
    (claim_version : Z) (inbox_id : string) (fl : inbox_flags) (now : Z) : session bool :=
  targets ← gets (λ d, select_where (λ m, String.eqb (m_id m) inbox_id) (inbox_messages d));
  match targets with
  | [] => mret false
  | m :: _ =>
      rows ← gets (λ d, select_where (completable task_id lease_token claim_version now m)
                          (tasks d));
      completed ← lift_result (scalar_one_or_none rows);
      match completed with
      | None => mret false
      | Some t => modify (inbox_outcome_statement t m fl now);; mret true
      end
  end.

(** ** [complete_task] *)

(** The [inbox_outcome] tuple: the first id that is not None, with its flags. *)
Definition inbox_outcome (o : outcome) : option (string * inbox_flags) :=
  match note_ready_inbox_id o, memory_ready_inbox_id o,
        ingest_complete_inbox_id o, release_inbox_id o with
  | Some i, _, _, _ => Some (i, InboxFlags true false false)
  | None, Some i, _, _ => Some (i, InboxFlags false true true)
  | None, None, Some i, _ => Some (i, InboxFlags true true true)
  | None, None, None, Some i => Some (i, InboxFlags false false true)
  | None, None, None, None => None
  end.

(** The statement for a task with no outcome. *)
Definition complete_plain (task_id lease_token : string) (claim_version now : Z) :
    session bool :=
  rows ← gets (λ d, select_where (owns task_id lease_token claim_version now) (tasks d));
  completed ← lift_result (scalar_one_or_none rows);
  match completed with
  | None => mret false
  | Some t =>
      modify (update_tasks (λ r, String.eqb (t_id r) (t_id t)) (complete_row now));;
      finish_attempt (t_id t) (t_attempt_count t) "completed" None None now;;
      mret true
  end.

(** The row-by-row path at the end of [complete_task]. *)
Definition complete_with_orm (task_id lease_token : string) (claim_version : Z)
    (o : outcome) (now : Z) : session bool :=
  row ← owned_running_task task_id lease_token claim_version now;
  match row with
  | None => mret false
  | Some t =>
      save_task (complete_row now t);;
      finish_attempt task_id (t_attempt_count t) "completed" None None now;;
      (if truthy (activate_task_id o)
       then activate_task_in_session (default "" (activate_task_id o)) now;; mret tt
       else if truthy (note_ready_inbox_id o)
       then complete_inbox_stage_in_session (default "" (note_ready_inbox_id o))
              (Stage true false false true) None now
       else if truthy (memory_ready_inbox_id o)
       then complete_inbox_stage_in_session (default "" (memory_ready_inbox_id o))
              (Stage false true true true) None now
       else if truthy (ingest_complete_inbox_id o)
       then complete_inbox_stage_in_session (default "" (ingest_complete_inbox_id o))
              (Stage true true true true) None now
       else if truthy (release_inbox_id o)
       then complete_inbox_stage_in_session (default "" (release_inbox_id o))
              (Stage false false true true) None now
       else mret tt);;
      mret true
  end.

Definition complete_in_session (task_id lease_token : string) (claim_version : Z)
    (o : outcome) (now : Z) : session bool :=
  match inbox_outcome o with
  | Some (inbox_id, fl) =>
      complete_task_with_inbox_outcome task_id lease_token claim_version inbox_id fl now
  | None =>
      if negb (existsb truthy (outcomes o))
      then complete_plain task_id lease_token claim_version now
      else complete_with_orm task_id lease_token claim_version o now
  end.

Definition complete_task (task_id lease_token : string) (claim_version : Z)
    (o : outcome) (now : Z) (d : db) : result bool * db :=
  if several_outcomes o
  then (Raise (ValueError "a task may produce only one Inbox/dependency outcome"), d)
  else transaction (complete_in_session task_id lease_token claim_version o now) d.

(** ** Failing and deferring *)

Definition barrier_inbox_id (t : task) : option string :=
  let p := t_payload_json t in
  let value := if truthy (pl_barrier_inbox_id p) then pl_barrier_inbox_id p
               else pl_inbox_id p in
  if truthy value then value else None.

Definition blocked_dependent (parent_task_id : string) (t : task) : bool :=
  String.eqb (t_status t) "blocked"
  && bool_decide (pl_parent_task_id (t_payload_json t) = Some parent_task_id).

Definition cancel_blocked_dependents (parent_task_id error : string) (now : Z) :
    session unit :=
  modify (update_tasks (blocked_dependent parent_task_id) (λ t,
    t <| t_status := "cancelled" |> <| t_completed_at := Some now |>
      <| t_last_error := Some (str_take 2000 ("parent task failed: " +:+ error)) |>)).

(** timedelta(seconds=max(0.1, delay)), the delay in microseconds *)
Definition retry_at (now delay : Z) : Z := now + Z.max 100000 delay.

Definition fail_row (error : string) (delay now : Z) (t : task) : task :=
  let failures := t_failure_count t + 1 in
  let exhausted := t_max_attempts t <=? failures in
  t <| t_failure_count := failures |>
    <| t_status := if exhausted then "dead_letter" else "retry" |>
    <| t_last_error := Some (str_take 2000 error) |>
    <| t_next_retry_at := if exhausted then None else Some (retry_at now delay) |>
    <| t_completed_at := if exhausted then Some now else None |>
    <| t_claimed_by := None |> <| t_lease_token := None |> <| t_lease_expires_at := None |>.

(** [if exhausted: ...]: cancel the dependents and release the barrier *)
Definition release_barrier (t : task) (error : string) (now : Z) : session unit :=
  (if truthy (pl_inbox_id (t_payload_json t))
   then cancel_blocked_dependents (t_id t) error now else mret tt);;
  match barrier_inbox_id t with
  | None => mret tt
  | Some inbox_id =>
      (if String.eqb (t_task_type t) "memory"
       then mark_inbox_memory_completed_in_session inbox_id false (Some error) now
       else mret tt);;
      finalize_inbox_in_session inbox_id false (Some error) now;;
      mret tt
  end.

Definition fail_in_session (task_id error : string) (delay : Z) (lease_token : string)
    (claim_version now : Z) : session string :=
  row ← owned_running_task task_id lease_token claim_version now;
  match row with
  | None => mret "stale"
  | Some t =>
      let t' := fail_row error delay now t in
      let exhausted := String.eqb (t_status t') "dead_letter" in
      save_task t';;
      finish_attempt task_id (t_attempt_count t)
        (if exhausted then "dead_letter" else "failed")
        (Some (error_type_of 255 error)) (Some (str_take 2000 error)) now;;
      (if exhausted then release_barrier t' error now else mret tt);;
      mret (t_status t')
  end.

Definition fail_task (task_id error : string) (delay : Z) (lease_token : string)
    (claim_version now : Z) : db → result string * db :=
  transaction (fail_in_session task_id error delay lease_token claim_version now).

Definition defer_row (reason : string) (delay now : Z) (t : task) : task :=
  t <| t_status := "retry" |> <| t_defer_count := t_defer_count t + 1 |>
    <| t_last_error := Some (str_take 2000 reason) |>
    <| t_next_retry_at := Some (retry_at now delay) |>
    <| t_claimed_by := None |> <| t_lease_token := None |> <| t_lease_expires_at := None |>.

Definition defer_in_session (task_id reason : string) (delay : Z) (lease_token : string)
    (claim_version now : Z) : session bool :=
  row ← owned_running_task task_id lease_token claim_version now;
  match row with
  | None => mret false
  | Some t =>
      save_task (defer_row reason delay now t);;
      finish_attempt task_id (t_attempt_count t) "deferred" None
        (Some (str_take 2000 reason)) now;;
      mret true
  end.

Definition defer_task (task_id reason : string) (delay : Z) (lease_token : string)
    (claim_version now : Z) : db → result bool * db :=
  transaction (defer_in_session task_id reason delay lease_token claim_version now).

(** ** Re-queueing due retries *)

Definition retry_due (now : Z) (task_ids : option (list string)) (t : task) : bool :=
  String.eqb (t_status t) "retry"
  && match t_next_retry_at t with None => true | Some r => r <=? now end
  && match task_ids with None => true | Some ids => py_in (t_id t) ids end.

(** ORDER BY next_retry_at, created_at; NULLs come last *)
Definition retry_before (t1 t2 : task) : bool :=
  match t_next_retry_at t1, t_next_retry_at t2 with
  | Some r1, Some r2 => (r1 <? r2) || ((r1 =? r2) && (t_created_at t1 <=? t_created_at t2))
  | Some _, None => true
  | None, Some _ => false
  | None, None => t_created_at t1 <=? t_created_at t2
  end.

Definition requeue (now : Z) (t : task) : session unit :=
  event_id ← new_id "event";
  add_task_event event_id (TaskRequest (t_id t) (t_task_type t) (t_attempt_count t + 1)
    (default [] (pl_trace (t_payload_json t))) now) now;;
  save_task (activate_row t).

Definition due_retries_in_session (limit : Z) (task_ids : option (list string)) (now : Z) :
    session Z :=
  rows ← gets (λ d, take (Z.to_nat (Z.max 1 limit))
    (sort_by retry_before (select_where (retry_due now task_ids) (tasks d))));
  for_each rows (requeue now);;
  mret (Z.of_nat (length rows)).

Definition enqueue_due_retries (limit : Z) (task_ids : option (list string)) (now : Z) :
    db → result Z * db :=
  transaction (due_retries_in_session limit task_ids now).
End tasks.
