(* ===== verification/Watermark.v ===== *)
(** What the watermarks of a space mean, and that [_advance_watermarks_in_session]
    computes it.

    The specification of a watermark is a function of the inbox messages of the
    space: everything below the first open message, or everything.  The code keeps
    it incrementally, looking only at the messages above the current value. *)

From stdpp Require Import base list strings gmap.
From Stdlib Require Import ZArith Lia.
From S2P Require Import Prelude Schema Consistency Dispatch Stages Tasks.

Open Scope string_scope.
Open Scope Z_scope.

(** The two stages of a message, each with its watermark. *)
Inductive level := NoteLevel | MemoryLevel.
#[export] Instance level_eq_dec : EqDecision level.
Proof. solve_decision. Defined.

Definition level_name (l : level) : string :=
  match l with NoteLevel => "note" | MemoryLevel => "memory" end.
Definition stage_of (l : level) : inbox_message → string :=
  match l with NoteLevel => m_note_status | MemoryLevel => m_memory_status end.
Definition watermark (l : level) : space → Z :=
  match l with NoteLevel => sp_note_watermark | MemoryLevel => sp_memory_watermark end.

(** A message is settled at a level when the stage completed or failed. *)
Definition settled (l : level) (m : inbox_message) : Prop := stage_of l m ∈ SETTLED.
#[export] Instance settled_dec l m : Decision (settled l m).
Proof. unfold settled. apply _. Defined.

Definition open_numbers (l : level) (rows : list inbox_message) : list Z :=
  map m_sequence_no (select_where (λ m, negb (py_in (stage_of l m) SETTLED)) rows).
Definition last_number (rows : list inbox_message) : Z :=
  default 0 (max_agg (map m_sequence_no rows)).

Definition watermark_spec (l : level) (rows : list inbox_message) : Z :=
  match min_agg (open_numbers l rows) with
  | Some o => o - 1
  | None => last_number rows
  end.

(** What a watermark promises: all messages up to it are settled. *)
Definition sound (l : level) (rows : list inbox_message) (w : Z) : Prop :=
  0 <= w <= last_number rows ∧
  ∀ m, m ∈ rows → m_sequence_no m <= w → settled l m.

Definition numbered (rows : list inbox_message) : Prop :=
  ∀ m, m ∈ rows → 1 <= m_sequence_no m.

(** * The specification *)

Lemma elem_of_open l rows n :
  n ∈ open_numbers l rows ↔ ∃ m, m ∈ rows ∧ m_sequence_no m = n ∧ ¬ settled l m.
Proof.
  unfold open_numbers. rewrite elem_of_map. split.
  - intros (m & <- & [Hm Ho]%elem_of_select). bools. eauto.
  - intros (m & Hm & <- & Ho). exists m. split; [done|]. apply elem_of_select.
    bools. done.
Qed.

Lemma last_number_ge rows m : m ∈ rows → m_sequence_no m <= last_number rows.
Proof.
  intros Hm. unfold last_number. destruct (max_agg _) as [x|] eqn:E; simpl.
  - apply max_agg_Some in E as [_ Hle]. apply Hle. by apply elem_of_map_in.
  - apply max_agg_None in E. destruct rows; [by inversion Hm|done].
Qed.

Lemma last_number_le rows n :
  0 <= n → (∀ m, m ∈ rows → m_sequence_no m <= n) → last_number rows <= n.
Proof.
  intros Hn Hle. unfold last_number. destruct (max_agg _) as [x|] eqn:E; simpl; [|done].
  apply max_agg_Some in E as [(m & <- & Hm)%elem_of_map _]. auto.
Qed.

Lemma last_number_nonneg rows : numbered rows → 0 <= last_number rows.
Proof.
  intros Hn. unfold last_number. destruct (max_agg _) as [x|] eqn:E; simpl; [|done].
  apply max_agg_Some in E as [(m & <- & Hm)%elem_of_map _]. specialize (Hn m Hm). lia.
Qed.

Lemma spec_sound l rows : numbered rows → sound l rows (watermark_spec l rows).
Proof.
  intros Hn. unfold watermark_spec. destruct (min_agg _) as [o|] eqn:E.
  - apply min_agg_Some in E as [(m & Hm & <- & Ho)%elem_of_open Hle]. split.
    + pose proof (Hn m Hm). pose proof (last_number_ge rows m Hm). lia.
    + intros m' Hm' Hlt. destruct (decide (settled l m')) as [|Hno]; [done|].
      specialize (Hle (m_sequence_no m')). rewrite elem_of_open in Hle.
      assert (m_sequence_no m <= m_sequence_no m') by eauto. lia.
  - apply min_agg_None in E. split; [pose proof (last_number_nonneg rows Hn); lia|].
    intros m Hm _. destruct (decide (settled l m)) as [|Hno]; [done|].
    assert (m_sequence_no m ∈ open_numbers l rows) as Hin
      by (apply elem_of_open; eauto).
    rewrite E in Hin. by inversion Hin.
Qed.

(** A sound watermark never exceeds the specification... *)
Lemma sound_le_spec l rows w : sound l rows w → w <= watermark_spec l rows.
Proof.
  intros [[H0 Hlast] Hset]. unfold watermark_spec. destruct (min_agg _) as [o|] eqn:E;
    [|done].
  apply min_agg_Some in E as [(m & Hm & <- & Ho)%elem_of_open _].
  destruct (Z.le_gt_cases (m_sequence_no m) w) as [Hle|]; [|lia].
  destruct Ho. auto.
Qed.

(** ... and if it is below a number in use, the first message above it is open. *)
Lemma spec_blocker l rows n :
  numbered rows → watermark_spec l rows < n → n <= last_number rows →
  ∃ m, m ∈ rows ∧ ¬ settled l m ∧ m_sequence_no m <= n
     ∧ m_sequence_no m = watermark_spec l rows + 1.
Proof.
  intros Hn Hlt Hle. unfold watermark_spec in *. destruct (min_agg _) as [o|] eqn:E.
  - apply min_agg_Some in E as [(m & Hm & <- & Ho)%elem_of_open _].
    exists m. split_and!; [done|done|lia|lia].
  - lia.
Qed.

Lemma spec_all_settled l rows :
  (∀ m, m ∈ rows → settled l m) → watermark_spec l rows = last_number rows.
Proof.
  intros Hall. unfold watermark_spec.
  assert (open_numbers l rows = []) as ->; [|done].
  unfold open_numbers. rewrite select_empty; [done|]. intros m Hm.
  bools. by apply Hall.
Qed.

(** * The code computes the specification *)

Lemma first_open_above_spec l rows w :
  sound l rows w →
  first_open_above (stage_of l) w rows = min_agg (open_numbers l rows).
Proof.
  intros [_ Hset]. unfold first_open_above, open_numbers. do 2 f_equal.
  unfold select_where. apply filter_ext_in. intros m Hm%list_elem_of_In.
  destruct (w <? m_sequence_no m) eqn:E; [done|]. bools. simpl.
  symmetry. bools. by apply Hset.
Qed.

Lemma last_above_spec rows w :
  0 <= w <= last_number rows →
  Z.max w (default w (last_above w rows)) = last_number rows.
Proof.
  intros [H0 Hle]. unfold last_above.
  destruct (max_agg (map m_sequence_no (select_where _ _))) as [x|] eqn:E; simpl.
  - apply max_agg_Some in E as [(m & <- & [Hm Hlt]%elem_of_select)%elem_of_map Hmax].
    bools. pose proof (last_number_ge _ _ Hm).
    assert (last_number rows <= m_sequence_no m); [|lia].
    apply last_number_le; [lia|]. intros m' Hm'.
    destruct (Z.lt_ge_cases w (m_sequence_no m')) as [Hlt'|]; [|lia].
    apply Hmax. apply elem_of_map_in. apply elem_of_select. by bools.
  - apply max_agg_None in E.
    assert (last_number rows <= w); [|lia]. apply last_number_le; [lia|].
    intros m Hm. destruct (Z.lt_ge_cases w (m_sequence_no m)) as [Hlt|]; [|done].
    assert (m_sequence_no m ∈ map m_sequence_no
      (select_where (λ m, w <? m_sequence_no m) rows)) as Hin.
    { apply elem_of_map_in. apply elem_of_select. by bools. }
    rewrite E in Hin. by inversion Hin.
Qed.

Lemma advanced_watermark_spec l rows w :
  sound l rows w →
  advanced_watermark w (first_open_above (stage_of l) w rows) (last_above w rows)
  = watermark_spec l rows.
Proof.
  intros Hs. pose proof Hs as [Hb Hset]. rewrite first_open_above_spec by done.
  unfold advanced_watermark, watermark_spec.
  destruct (min_agg (open_numbers l rows)) as [o|] eqn:E.
  - apply min_agg_Some in E as [(m & Hm & <- & Ho)%elem_of_open _].
    destruct (Z.le_gt_cases (m_sequence_no m) w); [destruct Ho; auto|lia].
  - pose proof (last_above_spec rows w Hb). destruct (last_above w rows); simpl in *; lia.
Qed.

Lemma watermark_advance_row l sp rows :
  watermark l (advance_row sp rows)
  = advanced_watermark (watermark l sp) (first_open_above (stage_of l) (watermark l sp) rows)
      (last_above (watermark l sp) rows).
Proof. by destruct l. Qed.

(** The watermark of the statement in [_complete_task_with_inbox_outcome]: reading
    the stage of the updated message through its RETURNING row is reading the
    table after the update. *)
Lemma progress_watermark_advanced l (updated : inbox_message) w rows :
  progress_watermark (stage_of l) updated w rows
  = let rows' := map (λ c, if String.eqb (m_id c) (m_id updated)
                           then updated <| m_sequence_no := m_sequence_no c |> else c) rows in
    advanced_watermark w (first_open_above (stage_of l) w rows') (last_above w rows').
Proof.
  assert (∀ (p q : inbox_message → bool) (f : inbox_message → inbox_message),
    (∀ m, m_sequence_no (f m) = m_sequence_no m) → (∀ m, q (f m) = p m) →
    map m_sequence_no (select_where q (map f rows))
    = map m_sequence_no (select_where p rows)) as Hmap.
  { intros p q f Hf Hq. induction rows as [|m rows IH]; [done|].
    unfold select_where in *. simpl. rewrite Hq.
    destruct (p m); simpl; rewrite ?Hf, ?IH; done. }
  set (f := λ c, if String.eqb (m_id c) (m_id updated)
                 then updated <| m_sequence_no := m_sequence_no c |> else c).
  assert (∀ m, m_sequence_no (f m) = m_sequence_no m) as Hf
    by (intros m; unfold f; by destruct (String.eqb _ _)).
  assert (∀ m, stage_of l (f m) = seen_status (stage_of l) updated m) as Hst.
  { intros m. unfold f, seen_status. by destruct (String.eqb _ _), l. }
  unfold progress_watermark, first_open_above, last_above. simpl.
  rewrite (Hmap (λ m, (w <? m_sequence_no m)
      && negb (py_in (seen_status (stage_of l) updated m) SETTLED))) by
    (done || (intros m; by rewrite Hf, Hst)).
  rewrite (Hmap (λ m, w <? m_sequence_no m)) by (done || (intros m; by rewrite Hf)).
  unfold advanced_watermark.
  destruct (min_agg _); [done|]. destruct (max_agg _); [done|lia].
Qed.
