(* ===== verification/Invariant.v ===== *)
(** The invariant of the message pipeline and the database updates that keep it.

    A space has one row per level for its watermark, the messages of the space
    are the specification of that watermark, and a task that was created under a
    causal barrier is gated by it: it stays blocked exactly while the watermark is
    below the number it requires.  Inside a transaction one space may be ahead of
    its watermark; [inv (Some sid)] is the invariant with that space exempt. *)

From stdpp Require Import base list strings gmap.
From Stdlib Require Import ZArith Lia.
From S2P Require Import Prelude Schema Consistency Dispatch Stages Tasks Watermark.

Open Scope string_scope.
Open Scope Z_scope.

(** * Inverting a run *)

Lemma gets_Ok {S A} (f : S → A) s a s' : gets f s = Ok (a, s') ↔ a = f s ∧ s' = s.
Proof. unfold gets. split; [by intros [= <- <-]|by intros [-> ->]]. Qed.
Lemma modify_Ok {S} (f : S → S) s a s' : modify f s = Ok (a, s') ↔ s' = f s.
Proof. unfold modify. destruct a. split; [by intros [= <-]|by intros ->]. Qed.
Lemma mret_Ok {S A} (x : A) (s : S) a s' : mret (M := M S) x s = Ok (a, s') ↔ a = x ∧ s' = s.
Proof. unfold mret, M_ret. split; [by intros [= <- <-]|by intros [-> ->]]. Qed.
Lemma lift_result_Ok {S A} (r : result A) (s : S) a s' :
  lift_result r s = Ok (a, s') ↔ r = Ok a ∧ s' = s.
Proof.
  unfold lift_result. destruct r; split.
  - by intros [= -> ->].
  - by intros [[= ->] ->].
  - done.
  - by intros [[=] _].
Qed.
Lemma raise_Ok {S A} e (s : S) (a : A) s' : raise e s = Ok (a, s') ↔ False.
Proof. done. Qed.

(** [run1 H]: reads a normal run backwards, one primitive at a time. *)
Ltac subst_eq E :=
  try match type of E with
  | ?x = ?y => first [subst x | subst y]
  end.
Ltac run1 H :=
  lazymatch type of H with
  | mbind _ _ _ = Ok (_, _) =>
      let a := fresh "a" in let s := fresh "d" in let H1 := fresh "Hrun" in
      apply bind_Ok in H as (a & s & H1 & H); run1 H1; try run1 H
  | gets _ _ = Ok (_, _) => apply gets_Ok in H as [H ->]; subst_eq H
  | modify _ _ = Ok (_, _) => apply modify_Ok in H; subst_eq H
  | mret _ _ = Ok (_, _) => apply mret_Ok in H as [H ->]; subst_eq H
  | lift_result _ _ = Ok (_, _) => apply lift_result_Ok in H as [H ->]; subst_eq H
  | raise _ _ = Ok (_, _) => destruct (proj1 (raise_Ok _ _ _ _) H)
  | _ => idtac
  end.

Lemma transaction_Ok {S A} (m : M S A) s a s' :
  transaction m s = (Ok a, s') ↔ m s = Ok (a, s').
Proof.
  unfold transaction. destruct (m s) as [[x t]|e]; split; by intros [= -> ->].
Qed.

(** * Requirements *)

(** The barrier that [receive_command] stored in a task's payload. *)
Definition requirement (t : task) : option (level * Z) :=
  match pl_consistency (t_payload_json t), pl_required_watermark (t_payload_json t) with
  | Some c, Some r =>
      if String.eqb c "note" then Some (NoteLevel, r)
      else if String.eqb c "memory" then Some (MemoryLevel, r) else None
  | _, _ => None
  end.

Lemma requirement_ready t l r sp :
  requirement t = Some (l, r) →
  ready_condition sp (t_payload_json t) = (r <=? watermark l sp)
  ∧ sql_ready_condition sp (t_payload_json t) = (r <=? watermark l sp).
Proof.
  unfold requirement, ready_condition, sql_ready_condition.
  destruct (pl_consistency _) as [c|]; [|done].
  destruct (pl_required_watermark _) as [r'|]; [|done].
  destruct (String.eqb c "note") eqn:E1; [|destruct (String.eqb c "memory") eqn:E2; [|done]];
    apply String.eqb_eq in E1 || apply String.eqb_eq in E2; subst c; intros [= <- <-]; split;
    simpl; by rewrite ?orb_false_r.
Qed.

(** * The invariant *)

Definition space_ok (exact : Prop) (rows : list inbox_message) (sp : space) : Prop :=
  ∀ l, sound l rows (watermark l sp)
     ∧ (exact → watermark l sp = watermark_spec l rows).

Definition gate_ok (exact : Prop) (rows : list inbox_message) (sp : space) (t : task) : Prop :=
  (t_status t = "blocked" → ∃ l r, requirement t = Some (l, r) ∧ r <= last_number rows
     ∧ (exact → watermark l sp < r))
  ∧ (t_status t ∉ ["blocked"; "cancelled"] →
     ∀ l r, requirement t = Some (l, r) → r <= watermark l sp).

(** The values of a stage. *)
Definition STAGES : list string := ["pending"; "completed"; "failed"].

Record inv (x : option string) (d : db) : Prop := {
  inv_space_ids : NoDup (map sp_id (spaces d));
  inv_message_ids : NoDup (map m_id (inbox_messages d));
  inv_task_ids : NoDup (map t_id (tasks d));
  inv_messages : ∀ m, m ∈ inbox_messages d →
    1 <= m_sequence_no m ∧ m_space_id m ∈ map sp_id (spaces d);
  inv_spaces : ∀ sp, sp ∈ spaces d →
    space_ok (x ≠ Some (sp_id sp)) (messages_of (sp_id sp) d) sp;
  inv_gates : ∀ t, t ∈ tasks d → ∃ sp, sp ∈ spaces d ∧ sp_id sp = t_space_id t
    ∧ gate_ok (x ≠ Some (sp_id sp)) (messages_of (sp_id sp) d) sp t;
  inv_gapless : ∀ sid, map m_sequence_no (messages_of sid d)
    = seqZ 1 (Z.of_nat (length (messages_of sid d)));
  inv_stages : ∀ m l, m ∈ inbox_messages d → stage_of l m ∈ STAGES;
}.

Lemma space_ok_weaken (P Q : Prop) rows sp : (Q → P) → space_ok P rows sp → space_ok Q rows sp.
Proof. intros HPQ Hsp l. destruct (Hsp l). auto. Qed.

Lemma gate_ok_weaken (P Q : Prop) rows sp t :
  (Q → P) → gate_ok P rows sp t → gate_ok Q rows sp t.
Proof.
  intros HPQ [Hb Hg]. split; [|done]. intros H. destruct (Hb H) as (l & r & ? & ? & ?).
  exists l, r. auto.
Qed.

Lemma inv_enter sid d : inv None d → inv (Some sid) d.
Proof.
  intros []. split; try done.
  - intros sp Hsp. eapply space_ok_weaken; [|exact (inv_spaces0 sp Hsp)]. done.
  - intros t Ht. destruct (inv_gates0 t Ht) as (sp & ? & ? & ?). exists sp.
    split_and!; [done|done|]. eapply gate_ok_weaken; [|done]. done.
Qed.

(** The tables the invariant reads. *)
Definition same_core (d d' : db) : Prop :=
  spaces d' = spaces d ∧ inbox_messages d' = inbox_messages d ∧ tasks d' = tasks d.

#[export] Instance same_core_preorder : PreOrder same_core.
Proof. unfold same_core. split; [done|]. intros ??? (?&?&?) (?&?&?). split_and!; congruence. Qed.

Lemma inv_core x d d' : same_core d d' → inv x d → inv x d'.
Proof.
  intros (Hs & Hm & Ht) []. split; rewrite ?Hs, ?Hm, ?Ht; try done.
  - intros sp Hsp. unfold messages_of. rewrite Hm. by apply inv_spaces0.
  - intros t Hin. unfold messages_of. rewrite Hm. by apply inv_gates0.
  - intros sid. unfold messages_of. rewrite Hm. by apply inv_gapless0.
Qed.

Lemma elem_of_messages_of m sid d :
  m ∈ messages_of sid d ↔ m ∈ inbox_messages d ∧ m_space_id m = sid.
Proof. unfold messages_of. rewrite elem_of_select. by bools. Qed.

Lemma inv_numbered x d sid : inv x d → numbered (messages_of sid d).
Proof. intros Hi m [Hm _]%elem_of_messages_of. by apply (inv_messages _ _ Hi). Qed.

(** ** Task updates *)

(** The status changes that cannot let a task through its gate. *)
Definition moves (s s' : string) : Prop :=
  s' = "cancelled" ∨ ((s ∉ ["blocked"; "cancelled"]) ∧ s' ≠ "blocked").

Definition same_gate (t t' : task) : Prop :=
  t_id t' = t_id t ∧ t_space_id t' = t_space_id t ∧ t_payload_json t' = t_payload_json t.

Lemma same_gate_requirement t t' : same_gate t t' → requirement t' = requirement t.
Proof. intros (_ & _ & Hp). unfold requirement. by rewrite Hp. Qed.

Lemma gate_ok_move P rows sp t t' :
  same_gate t t' → moves (t_status t) (t_status t') → gate_ok P rows sp t → gate_ok P rows sp t'.
Proof.
  intros Hsame Hmove [Hb Hg]. unfold gate_ok. rewrite (same_gate_requirement _ _ Hsame).
  destruct Hmove as [->|[Hno Hnb]]; split; intros Hst; try done.
  - destruct Hst. by right; left.
  - by apply Hg.
Qed.

Lemma inv_update_tasks x p f d :
  (∀ t, t ∈ tasks d → p t = true → same_gate t (f t) ∧ moves (t_status t) (t_status (f t))) →
  inv x d → inv x (update_tasks p f d).
Proof.
  intros Hf []. split; try done.
  - simpl. unfold update_where. rewrite map_map.
    erewrite map_ext_in; [done|]. intros t Ht%list_elem_of_In. simpl.
    destruct (p t) eqn:E; [|done]. by apply Hf.
  - simpl. intros t' (t & Ht & ->)%elem_of_update.
    destruct (inv_gates0 t Ht) as (sp & Hsp & Hid & Hg). exists sp.
    destruct (p t) eqn:E; [|done]. destruct (Hf t Ht E) as [Hsame Hmove].
    split_and!; [done| |by eapply gate_ok_move].
    destruct Hsame as (_ & -> & _). done.
Qed.

Lemma update_by_key {A} (key : A → string) (l : list A) x x' y :
  NoDup (map key l) → x ∈ l → key x' = key x →
  y ∈ update_where (λ r, String.eqb (key r) (key x')) (λ _, x') l →
  y = x' ∨ (y ∈ l ∧ key y ≠ key x).
Proof.
  intros Hnd Hx Hk (r & Hr & ->)%elem_of_update.
  destruct (String.eqb_spec (key r) (key x')); [by left|right]. split; congruence.
Qed.

Lemma inv_save_task x t t' d :
  t ∈ tasks d → same_gate t t' → moves (t_status t) (t_status t') → inv x d →
  inv x (update_tasks (λ r, String.eqb (t_id r) (t_id t')) (λ _, t') d).
Proof.
  intros Ht Hsame Hmove Hi. apply inv_update_tasks; [|done].
  intros r Hr Hid%String.eqb_eq.
  assert (r = t) as ->.
  { eapply (key_unique t_id); [apply Hi|done..|]. rewrite Hid. apply Hsame. }
  done.
Qed.

(** ** Changes of a message *)

(** A message keeps its identity, and a stage only changes by settling. *)
Definition matures (m m' : inbox_message) : Prop :=
  m_id m' = m_id m ∧ m_space_id m' = m_space_id m ∧ m_sequence_no m' = m_sequence_no m
  ∧ ∀ l, stage_of l m' = stage_of l m ∨ settled l m'.

Lemma matures_settled m m' l : matures m m' → settled l m → settled l m'.
Proof. intros (_ & _ & _ & Hl) Hs. destruct (Hl l) as [He|]; [|done]. unfold settled. by rewrite He. Qed.

Lemma matures_stages m m' l : matures m m' → stage_of l m ∈ STAGES → stage_of l m' ∈ STAGES.
Proof.
  intros (_ & _ & _ & Hl) Hs. destruct (Hl l) as [->|]; [done|]. by right.
Qed.

#[export] Instance matures_preorder : PreOrder matures.
Proof.
  split; [intros m; split_and!; by try left|].
  intros m1 m2 m3 (?&?&?&Hl1) (?&?&?&Hl2). split_and!; [congruence..|].
  intros l. destruct (Hl2 l) as [He|]; [|by right]. unfold settled.
  destruct (Hl1 l) as [<-|?]; [by left|]. right. by rewrite He.
Qed.

Section mature.
Context (p : inbox_message → bool) (f : inbox_message → inbox_message) (d : db).
Hypothesis Hf : ∀ m, m ∈ inbox_messages d → p m = true → matures m (f m).

Lemma matured_row m : m ∈ inbox_messages d → matures m (if p m then f m else m).
Proof. destruct (p m) eqn:E; [auto|done]. Qed.

Lemma messages_of_update sid :
  messages_of sid (update_inbox p f d)
  = update_where p f (messages_of sid d).
Proof.
  unfold messages_of. simpl. symmetry. apply update_select_comm.
  intros m Hm Hp. f_equal. by apply Hf.
Qed.

Lemma mature_numbers sid :
  map m_sequence_no (messages_of sid (update_inbox p f d))
  = map m_sequence_no (messages_of sid d).
Proof.
  rewrite messages_of_update. unfold update_where. rewrite map_map.
  apply map_ext_in. intros m [Hm _]%list_elem_of_In%elem_of_messages_of.
  by apply matured_row.
Qed.

Lemma mature_last sid :
  last_number (messages_of sid (update_inbox p f d)) = last_number (messages_of sid d).
Proof. unfold last_number. by rewrite mature_numbers. Qed.

Lemma mature_sound l sid w :
  sound l (messages_of sid d) w → sound l (messages_of sid (update_inbox p f d)) w.
Proof.
  intros [Hb Hs]. split; [by rewrite mature_last|]. rewrite messages_of_update.
  intros m' (m & Hm & ->)%elem_of_update.
  apply elem_of_messages_of in Hm as Hin. destruct Hin as [Hin _].
  pose proof (matured_row m Hin) as Hmat. pose proof Hmat as (_ & _ & -> & _).
  intros Hle. eapply matures_settled; [exact Hmat|auto].
Qed.
End mature.

(** The messages of one space may change while that space is exempt. *)
Lemma inv_update_inbox sid p f d :
  (∀ m, m ∈ inbox_messages d → p m = true → matures m (f m) ∧ m_space_id m = sid) →
  inv (Some sid) d → inv (Some sid) (update_inbox p f d).
Proof.
  intros Hf Hi. assert (∀ m, m ∈ inbox_messages d → p m = true → matures m (f m)) as Hf'
    by firstorder.
  assert (∀ sid', sid' ≠ sid →
    messages_of sid' (update_inbox p f d) = messages_of sid' d) as Hother.
  { intros sid' Hne. rewrite messages_of_update by done. apply update_nothing.
    intros m [Hm Hs]%elem_of_messages_of. destruct (p m) eqn:E; [|done].
    destruct (Hf m Hm E) as [_ ?]. congruence. }
  destruct Hi. split; try done.
  - simpl. unfold update_where. rewrite map_map. erewrite map_ext_in; [done|].
    intros m Hm%list_elem_of_In. by destruct (matured_row p f d Hf' m Hm).
  - simpl. intros m' (m & Hm & ->)%elem_of_update.
    destruct (matured_row p f d Hf' m Hm) as (_ & -> & -> & _). auto.
  - simpl. intros sp Hsp. specialize (inv_spaces0 sp Hsp).
    destruct (decide (sp_id sp = sid)) as [Heq|Hne]; [|by rewrite Hother].
    intros l. split; [|congruence]. apply mature_sound; [done|].
    by destruct (inv_spaces0 l).
  - simpl. intros t Ht. destruct (inv_gates0 t Ht) as (sp & Hsp & Hid & Hg).
    exists sp. split_and!; [done..|].
    destruct (decide (sp_id sp = sid)) as [Heq|Hne]; [|by rewrite Hother].
    destruct Hg as [Hb Hg]. split; [|done]. rewrite mature_last by done.
    intros H. destruct (Hb H) as (l & r & ? & ? & ?). exists l, r.
    split_and!; [done..|]. congruence.
  - intros sid'. rewrite mature_numbers, inv_gapless0 by done. do 2 f_equal.
    pose proof (mature_numbers p f d Hf' sid') as Hlen%(f_equal length).
    by rewrite !length_map in Hlen.
  - simpl. intros m' l (m & Hm & ->)%elem_of_update.
    eapply matures_stages; [exact (matured_row p f d Hf' m Hm)|auto].
Qed.

(** ** Changes of a space *)

Lemma inv_update_spaces x p f d :
  (∀ sp, sp ∈ spaces d → p sp = true →
     sp_id (f sp) = sp_id sp ∧ ∀ l, watermark l (f sp) = watermark l sp) →
  inv x d → inv x (update_spaces p f d).
Proof.
  intros Hf Hi. destruct Hi.
  set (g := λ sp, if p sp then f sp else sp).
  assert (∀ sp, sp ∈ spaces d → sp_id (g sp) = sp_id sp ∧
    ∀ l, watermark l (g sp) = watermark l sp) as Hg.
  { intros sp Hsp. unfold g. destruct (p sp) eqn:E; auto. }
  assert (map sp_id (update_where p f (spaces d)) = map sp_id (spaces d)) as Hids.
  { unfold update_where. rewrite map_map. apply map_ext_in.
    intros sp Hsp%list_elem_of_In. by apply Hg. }
  split; simpl; rewrite ?Hids; try done.
  - intros sp' (sp & Hsp & ->)%elem_of_update. fold (g sp). intros l.
    destruct (Hg sp Hsp) as [-> ->]. apply (inv_spaces0 sp Hsp l).
  - intros t Ht. destruct (inv_gates0 t Ht) as (sp & Hsp & Hid & Hgate).
    exists (g sp). destruct (Hg sp Hsp) as [Hi' Hw]. split_and!.
    + apply elem_of_update. eauto.
    + congruence.
    + rewrite Hi'. split; intros Hst; [|intros l; rewrite Hw; by apply Hgate].
      destruct (proj1 Hgate Hst) as (l & r & ? & ? & ?). exists l, r. by rewrite Hw.
Qed.

(** ** New rows *)

Lemma NoDup_map_app {A} (key : A → string) l x :
  NoDup (map key l) → (∀ y, y ∈ l → key y ≠ key x) → NoDup (map key (l ++ [x])%list).
Proof.
  intros Hnd Hx. rewrite map_app. apply NoDup_app. split_and!; [done| |apply NoDup_singleton].
  intros k (y & <- & Hy)%elem_of_map [Hk|Hk%not_elem_of_nil]%elem_of_cons; [|done].
  by apply (Hx y).
Qed.

Definition add_space_row (sp : space) (d : db) : db := d <| spaces := (spaces d ++ [sp])%list |>.
Definition add_message_row (m : inbox_message) (d : db) : db :=
  d <| inbox_messages := (inbox_messages d ++ [m])%list |>.
Definition add_task_row (t : task) (d : db) : db := d <| tasks := (tasks d ++ [t])%list |>.

Lemma inv_add_space x sp d :
  (∀ sp', sp' ∈ spaces d → sp_id sp' ≠ sp_id sp) → (∀ l, watermark l sp = 0) →
  inv x d → inv x (add_space_row sp d).
Proof.
  intros Hnew H0 []. split; simpl; try done.
  - by apply NoDup_map_app.
  - intros m Hm. destruct (inv_messages0 m Hm) as [? Hs]. split; [done|].
    rewrite map_app. apply elem_of_app. by left.
  - intros sp' [Hsp|Hsp]%elem_of_app; [by apply inv_spaces0|].
    apply list_elem_of_singleton in Hsp as ->.
    assert (messages_of (sp_id sp) (add_space_row sp d) = []) as Hnil.
    { apply select_empty. intros m Hm. bools. intros Heq.
      destruct (inv_messages0 m Hm) as [_ (sp' & Hid & Hin)%elem_of_map].
      apply (Hnew sp' Hin). congruence. }
    unfold messages_of in *. rewrite Hnil. intros l. rewrite H0. split; [|done].
    split; [done|]. intros m Hm. by inversion Hm.
  - intros t Ht. destruct (inv_gates0 t Ht) as (sp' & ? & ? & ?). exists sp'.
    split_and!; [|done..]. apply elem_of_app. by left.
Qed.

Lemma messages_of_add sid m d :
  messages_of sid (add_message_row m d)
  = (messages_of sid d ++ if String.eqb (m_space_id m) sid then [m] else [])%list.
Proof.
  unfold messages_of, select_where. simpl. rewrite List.filter_app. simpl.
  by destruct (String.eqb _ _).
Qed.

Lemma last_number_app rows m :
  numbered rows → last_number rows < m_sequence_no m →
  last_number (rows ++ [m])%list = m_sequence_no m.
Proof.
  intros Hn Hlt. apply Z.le_antisymm.
  - apply last_number_le; [pose proof (last_number_nonneg rows Hn); lia|].
    intros m' [Hm|Hm]%elem_of_app.
    + pose proof (last_number_ge _ _ Hm). lia.
    + by apply list_elem_of_singleton in Hm as ->.
  - apply last_number_ge. apply elem_of_app. right. by left.
Qed.

Lemma open_numbers_app l rows m :
  open_numbers l (rows ++ [m])%list
  = (open_numbers l rows ++ if decide (settled l m) then [] else [m_sequence_no m])%list.
Proof.
  unfold open_numbers, select_where. rewrite List.filter_app, map_app. f_equal. simpl.
  destruct (py_in (stage_of l m) SETTLED) eqn:E; bools;
    destruct (decide (settled l m)) as [Hs|Hs]; unfold settled in Hs; by try tauto.
Qed.

Lemma min_agg_snoc l x :
  min_agg (l ++ [x])%list = Some (match min_agg l with Some y => Z.min y x | None => x end).
Proof.
  induction l as [|y l IH]; [done|]. simpl. rewrite IH.
  destruct (min_agg l); simpl; f_equal; lia.
Qed.

Lemma gapless_last rows :
  map m_sequence_no rows = seqZ 1 (Z.of_nat (length rows)) →
  last_number rows = Z.of_nat (length rows).
Proof.
  intros Hmap. assert (∀ m, m ∈ rows → 1 <= m_sequence_no m <= Z.of_nat (length rows)) as Hb.
  { intros m Hm%(elem_of_map_in m_sequence_no). rewrite Hmap, elem_of_seqZ in Hm. lia. }
  apply Z.le_antisymm; [apply last_number_le; [lia|intros m Hm; by apply Hb]|].
  destruct (decide (length rows = 0)%nat) as [->|Hne].
  { apply last_number_nonneg. intros m Hm. by apply Hb. }
  assert (Z.of_nat (length rows) ∈ map m_sequence_no rows) as (m & <- & Hm)%elem_of_map
    by (rewrite Hmap, elem_of_seqZ; lia).
  by apply last_number_ge.
Qed.

Lemma gapless_app rows m :
  map m_sequence_no rows = seqZ 1 (Z.of_nat (length rows)) →
  m_sequence_no m = last_number rows + 1 →
  map m_sequence_no (rows ++ [m])%list = seqZ 1 (Z.of_nat (length (rows ++ [m])%list)).
Proof.
  intros Hmap Hm. rewrite gapless_last in Hm by done.
  rewrite map_app, length_app. simpl. rewrite Nat.add_1_r, seqZ_S, Hmap, Hm.
  do 2 f_equal. lia.
Qed.

Lemma sound_app l rows m w :
  numbered rows → last_number rows < m_sequence_no m →
  sound l rows w → sound l (rows ++ [m])%list w.
Proof.
  intros Hn Hlt [Hb Hs]. split; [rewrite last_number_app by done; lia|].
  intros m' [Hm|Hm]%elem_of_app Hle; [by apply Hs|].
  apply list_elem_of_singleton in Hm as ->. lia.
Qed.

Lemma spec_app_open l rows m :
  numbered rows → m_sequence_no m = last_number rows + 1 → ¬ settled l m →
  watermark_spec l (rows ++ [m])%list = watermark_spec l rows.
Proof.
  intros Hn Hseq Ho. unfold watermark_spec.
  rewrite open_numbers_app, decide_False by done. rewrite min_agg_snoc.
  destruct (min_agg (open_numbers l rows)) as [o|] eqn:E; [|lia].
  apply min_agg_Some in E as [(m' & Hm' & <- & _)%elem_of_open _].
  pose proof (last_number_ge _ _ Hm'). lia.
Qed.

(** A message that has just been received: the next number, with stages that are
    both open or both settled. *)
Lemma inv_add_message m d :
  (∀ m', m' ∈ inbox_messages d → m_id m' ≠ m_id m) →
  m_space_id m ∈ map sp_id (spaces d) →
  m_sequence_no m = last_number (messages_of (m_space_id m) d) + 1 →
  (∀ l, stage_of l m ∈ STAGES) →
  inv None d →
  inv (Some (m_space_id m)) (add_message_row m d)
  ∧ ((∀ l, ¬ settled l m) → inv None (add_message_row m d)).
Proof.
  intros Hnew Hspace Hseq Hstages Hi. pose proof (inv_numbered _ _ (m_space_id m) Hi) as Hn.
  pose proof (last_number_nonneg _ Hn) as H0.
  assert (∀ sid, last_number (messages_of sid d)
    <= last_number (messages_of sid (add_message_row m d))) as Hlast.
  { intros sid. rewrite messages_of_add.
    destruct (String.eqb_spec (m_space_id m) sid) as [<-|]; [|by rewrite app_nil_r].
    rewrite last_number_app by (done || lia). lia. }
  assert (∀ x, (∀ sp, sp ∈ spaces d →
      space_ok (x ≠ Some (sp_id sp)) (messages_of (sp_id sp) (add_message_row m d)) sp) →
    inv x (add_message_row m d)) as Hmk.
  { intros x Hsp. destruct Hi. split; simpl; try done.
    - by apply NoDup_map_app.
    - intros m' [Hm'|Hm']%elem_of_app; [auto|].
      apply list_elem_of_singleton in Hm' as ->. split; [lia|done].
    - intros t Ht. destruct (inv_gates0 t Ht) as (sp & ? & ? & [Hb Hg]).
      exists sp. split_and!; [done..|]. split; [|done]. intros Hst.
      destruct (Hb Hst) as (l & r & Hr & Hle & Hlt). exists l, r.
      split_and!; [done| |auto]. specialize (Hlast (sp_id sp)). lia.
    - intros sid. rewrite messages_of_add.
      destruct (String.eqb_spec (m_space_id m) sid) as [<-|]; [|by rewrite app_nil_r].
      by apply gapless_app.
    - intros m' l [Hm'|Hm']%elem_of_app; [auto|].
      by apply list_elem_of_singleton in Hm' as ->. }
  assert (∀ sp l, sp ∈ spaces d →
    sound l (messages_of (sp_id sp) (add_message_row m d)) (watermark l sp)) as Hsound.
  { intros sp l Hsp. destruct (inv_spaces _ _ Hi sp Hsp l) as [Hs _].
    rewrite messages_of_add.
    destruct (String.eqb_spec (m_space_id m) (sp_id sp)) as [Heq|]; [|by rewrite app_nil_r].
    rewrite <- Heq in *. apply sound_app; (done || lia). }
  split.
  - apply Hmk. intros sp Hsp l. split; [by apply Hsound|].
    intros Hne. destruct (inv_spaces _ _ Hi sp Hsp l) as [_ ->]; [|done].
    rewrite messages_of_add.
    destruct (String.eqb_spec (m_space_id m) (sp_id sp)) as [Heq|]; [congruence|].
    by rewrite app_nil_r.
  - intros Hopen. apply Hmk. intros sp Hsp l. split; [by apply Hsound|].
    intros _. destruct (inv_spaces _ _ Hi sp Hsp l) as [_ ->]; [|done].
    rewrite messages_of_add.
    destruct (String.eqb_spec (m_space_id m) (sp_id sp)) as [Heq|]; [|by rewrite app_nil_r].
    rewrite <- Heq in *. by rewrite spec_app_open.
Qed.

Lemma inv_add_task x sp t d :
  (∀ t', t' ∈ tasks d → t_id t' ≠ t_id t) → sp ∈ spaces d → sp_id sp = t_space_id t →
  gate_ok (x ≠ Some (sp_id sp)) (messages_of (sp_id sp) d) sp t →
  inv x d → inv x (add_task_row t d).
Proof.
  intros Hnew Hsp Hid Hg []. split; simpl; try done.
  - by apply NoDup_map_app.
  - intros t' [Ht|Ht]%elem_of_app; [by apply inv_gates0|].
    apply list_elem_of_singleton in Ht as ->. eauto.
Qed.

(** ** Advancing a space *)

(** The effect of [_advance_watermarks_in_session] on the tables of the
    invariant, as one update. *)
Definition advance_space (sp : space) (d : db) : db :=
  let sp' := advance_row sp (messages_of (sp_id sp) d) in
  update_tasks (ready_task sp') activate_row
    (update_spaces (λ s, String.eqb (sp_id s) (sp_id sp)) (λ _, sp') d).

Lemma advance_row_exact sp rows l :
  sound l rows (watermark l sp) → watermark l (advance_row sp rows) = watermark_spec l rows.
Proof. intros. rewrite watermark_advance_row. by apply advanced_watermark_spec. Qed.

Lemma activate_row_gate t : same_gate t (activate_row t).
Proof. done. Qed.

Lemma gate_ok_advance rows sp sp' t P :
  t_space_id t = sp_id sp' → (∀ l, watermark l sp <= watermark l sp') →
  gate_ok P rows sp t →
  gate_ok True rows sp' (if ready_task sp' t then activate_row t else t).
Proof.
  intros Hid Hle [Hb Hg]. destruct (decide (t_status t = "blocked")) as [Hst|Hst].
  - destruct (Hb Hst) as (l & r & Hr & Hlast & _).
    assert (ready_task sp' t = (r <=? watermark l sp')) as ->.
    { unfold ready_task. rewrite Hid, String.eqb_refl, Hst. simpl.
      by apply (requirement_ready t l r). }
    destruct (r <=? watermark l sp') eqn:E; bools; split; simpl; try done.
    + intros _ l' r'. rewrite (same_gate_requirement _ _ (activate_row_gate t)), Hr.
      by intros [= <- <-].
    + intros _. eauto.
    + intros Hno. rewrite Hst in Hno. destruct Hno. by left.
  - assert (ready_task sp' t = false) as ->.
    { unfold ready_task. bools. tauto. }
    split; [done|]. intros Hno l r Hr. specialize (Hg Hno l r Hr). specialize (Hle l). lia.
Qed.

Lemma inv_advance sp d :
  sp ∈ spaces d → inv (Some (sp_id sp)) d → inv None (advance_space sp d).
Proof.
  intros Hsp Hi. unfold advance_space. set (rows := messages_of (sp_id sp) d).
  set (sp' := advance_row sp rows).
  assert (∀ l, sound l rows (watermark l sp)) as Hsound by (intros l; by apply (inv_spaces _ _ Hi)).
  assert (∀ l, watermark l sp' = watermark_spec l rows) as Hw
    by (intros l; by apply advance_row_exact).
  assert (∀ l, watermark l sp <= watermark l sp') as Hle.
  { intros l. rewrite Hw. by apply sound_le_spec. }
  assert (∀ s, s ∈ spaces d → sp_id s = sp_id sp → s = sp) as Huniq.
  { intros s Hs. apply (key_unique sp_id (spaces d)); [apply Hi|done..]. }
  assert (∀ s, s ∈ update_where (λ s, String.eqb (sp_id s) (sp_id sp)) (λ _, sp') (spaces d) →
    s = sp' ∨ (s ∈ spaces d ∧ sp_id s ≠ sp_id sp)) as Hspaces.
  { intros s. apply (update_by_key sp_id _ sp sp'); [apply Hi|done..]. }
  destruct Hi. split; simpl.
  - erewrite (update_column_keyed sp_id); [done|]. intros s Hk%String.eqb_eq. simpl. congruence.
  - done.
  - by rewrite update_column.
  - intros m Hm. erewrite (update_column_keyed sp_id); [by apply inv_messages0|].
    intros s Hk%String.eqb_eq. simpl. congruence.
  - intros s [->|[Hs Hne]]%Hspaces l; fold rows.
    + split; [|by intros _; apply Hw]. change (sp_id sp') with (sp_id sp).
      unfold messages_of. simpl. fold (messages_of (sp_id sp) d). fold rows. rewrite Hw.
      apply spec_sound. intros m [Hm _]%elem_of_messages_of. by apply inv_messages0.
    + destruct (inv_spaces0 s Hs l) as [? He]. split; [done|]. intros _. apply He. congruence.
  - intros t' (t & Ht & ->)%elem_of_update.
    destruct (inv_gates0 t Ht) as (s & Hs & Hid & Hg).
    destruct (decide (sp_id s = sp_id sp)) as [Heq|Hne].
    + exists sp'. pose proof (Huniq s Hs Heq) as ->. split_and!.
      * apply elem_of_update. exists sp. split; [done|]. by rewrite String.eqb_refl.
      * by destruct (ready_task sp' t).
      * eapply gate_ok_weaken; [|eapply gate_ok_advance; [|exact Hle|exact Hg]]; [done|].
        symmetry. exact Hid.
    + exists s. assert (ready_task sp' t = false) as ->.
      { unfold ready_task. bools. left. left. simpl. congruence. }
      split_and!; [|done|].
      * apply elem_of_update. exists s. split; [done|].
        by destruct (String.eqb_spec (sp_id s) (sp_id sp)).
      * eapply gate_ok_weaken; [|exact Hg]. congruence.
  - exact inv_gapless0.
  - exact inv_stages0.
Qed.
