(* ===== verification/Runs.v ===== *)
(** How the operations of the pipeline act on the invariant: the reading of each
    operation's normal runs as the table updates of [Invariant]. *)

From stdpp Require Import base list strings gmap.
From Stdlib Require Import ZArith Lia.
From S2P Require Import Prelude Schema Consistency Dispatch Stages Tasks Watermark.
From S2P Require Import Invariant.

Open Scope string_scope.
Open Scope Z_scope.

(** * Growth of the tables *)

(** The life of one task row: its identity is fixed; the claim version and the
    attempt count rise together; under one version a task runs for one holder only
    and never runs again once it stopped; a terminal status is final. *)
Definition TERMINAL : list string := ["cancelled"; "completed"; "dead_letter"].

(** Failures are counted up to the limit, which is the dead letter. *)
Definition within_budget (t : task) : Prop :=
  t_failure_count t < t_max_attempts t ∨ t_status t = "dead_letter".

Record evolves (t t' : task) : Prop := {
  evolves_gate : same_gate t t';
  evolves_identity : t_task_type t' = t_task_type t ∧ t_tenant_id t' = t_tenant_id t
    ∧ t_idempotency_key t' = t_idempotency_key t ∧ t_max_attempts t' = t_max_attempts t;
  evolves_version : t_claim_version t <= t_claim_version t';
  evolves_attempts : t_attempt_count t' - t_claim_version t'
    = t_attempt_count t - t_claim_version t;
  evolves_failures : t_failure_count t <= t_failure_count t'
    ∧ (t_failure_count t' = t_failure_count t ∨ within_budget t');
  evolves_running : t_claim_version t' = t_claim_version t → t_status t' = "running" →
    t_status t = "running" ∧ t_lease_token t' = t_lease_token t;
  evolves_terminal : t_status t ∈ TERMINAL → t_status t' = t_status t;
}.

#[export] Instance evolves_preorder : PreOrder evolves.
Proof.
  split; [by split; [..|split; [|left]| |]|].
  intros t1 t2 t3 [(?&?&?) (?&?&?&?) ? ? [? Hf1] Hr1 Ht1] [(?&?&?) (?&?&?&?) ? ? [? Hf2] Hr2 Ht2].
  split; [split_and!; congruence|split_and!; congruence|lia|lia| | |].
  - split; [lia|]. destruct Hf2 as [Hf2|]; [|by right]. destruct Hf1 as [Hf1|[Hb|Hd]].
    + left. congruence.
    + right. left. congruence.
    + right. right. rewrite Ht2; [done|]. rewrite Hd. by apply py_in_true.
  - intros Hv Hs. assert (t_claim_version t3 = t_claim_version t2) as Hv2 by lia.
    destruct (Hr2 Hv2 Hs) as [Hs2 Htok2].
    destruct Hr1 as [? ?]; [lia|done|]. split; congruence.
  - intros Hin. rewrite <- (Ht1 Hin). apply Ht2. by rewrite (Ht1 Hin).
Qed.

(** The two kinds of change: a new claim, or a step of the current one. *)
Lemma evolves_step t t' :
  same_gate t t' →
  t_task_type t' = t_task_type t ∧ t_tenant_id t' = t_tenant_id t
    ∧ t_idempotency_key t' = t_idempotency_key t ∧ t_max_attempts t' = t_max_attempts t →
  t_claim_version t' = t_claim_version t → t_attempt_count t' = t_attempt_count t →
  t_failure_count t' = t_failure_count t ∨ (t_failure_count t <= t_failure_count t' ∧ within_budget t') →
  t_status t' ≠ "running" ∨ (t_status t = "running" ∧ t_lease_token t' = t_lease_token t) →
  t_status t ∉ TERMINAL → evolves t t'.
Proof.
  intros Hg Hi Hv Ha Hf Hr Ht. split; [done|done|lia|lia| |tauto|done].
  destruct Hf as [->|[? ?]]; [by split; [lia|left]|auto].
Qed.

(** A task row as it was inserted, and the rows it can become. *)
Definition fresh_row (t : task) : Prop :=
  t_failure_count t = 0 ∧ t_attempt_count t = 0 ∧ t_claim_version t = 0.
Definition born (t : task) : Prop := ∃ t0, fresh_row t0 ∧ evolves t0 t.

(** Messages mature in place, and new ones take numbers above all the others of
    their space; spaces and tasks stay. *)
Record grown (d d' : db) : Prop := {
  grown_kept : ∀ m, m ∈ inbox_messages d → ∃ m', m' ∈ inbox_messages d' ∧ matures m m';
  grown_new : ∀ m', m' ∈ inbox_messages d' → (∃ m, m ∈ inbox_messages d ∧ matures m m')
    ∨ last_number (messages_of (m_space_id m') d) < m_sequence_no m';
  grown_spaces : ∀ sid, sid ∈ map sp_id (spaces d) → sid ∈ map sp_id (spaces d');
  grown_tasks : ∀ t, t ∈ tasks d → ∃ t', t' ∈ tasks d' ∧ evolves t t';
  grown_tasks_back : ∀ t', t' ∈ tasks d' →
    (∃ t, t ∈ tasks d ∧ evolves t t')
    ∨ (born t' ∧ ∀ t, t ∈ tasks d → t_id t ≠ t_id t');
}.

Lemma grown_last d d' sid :
  grown d d' → numbered (messages_of sid d') →
  last_number (messages_of sid d) <= last_number (messages_of sid d').
Proof.
  intros Hg Hn. apply last_number_le; [by apply last_number_nonneg|].
  intros m [Hm <-]%elem_of_messages_of.
  destruct (grown_kept _ _ Hg m Hm) as (m' & Hm' & _ & Hs & Hq & _).
  rewrite <- Hq. apply last_number_ge. by apply elem_of_messages_of.
Qed.

Lemma grown_refl d : grown d d.
Proof.
  split; [| |done| |].
  - intros m Hm. by exists m.
  - intros m Hm. left. by exists m.
  - intros t Ht. by exists t.
  - intros t Ht. left. by exists t.
Qed.

Lemma grown_trans d1 d2 d3 x :
  inv x d2 → grown d1 d2 → grown d2 d3 → grown d1 d3.
Proof.
  intros Hi H12 H23. split.
  - intros m Hm. destruct (grown_kept _ _ H12 m Hm) as (m' & Hm' & ?).
    destruct (grown_kept _ _ H23 m' Hm') as (m'' & ? & ?). exists m''. split; [done|].
    by transitivity m'.
  - intros m'' Hm''. destruct (grown_new _ _ H23 m'' Hm'') as [(m' & Hm' & Hmat)|Hlt].
    + pose proof Hmat as (Hid & Hs & Hq & _).
      destruct (grown_new _ _ H12 m' Hm') as [(m & Hm & ?)|Hlt].
      * left. exists m. split; [done|]. by transitivity m'.
      * right. by rewrite Hs, Hq.
    + right. pose proof (grown_last d1 d2 (m_space_id m'') H12 (inv_numbered _ _ _ Hi)). lia.
  - intros sid Hsid. by apply (grown_spaces _ _ H23), (grown_spaces _ _ H12).
  - intros t Ht. destruct (grown_tasks _ _ H12 t Ht) as (t' & Ht' & ?).
    destruct (grown_tasks _ _ H23 t' Ht') as (t'' & ? & ?). exists t''.
    split; [done|]. by transitivity t'.
  - intros t'' Ht''.
    destruct (grown_tasks_back _ _ H23 t'' Ht'') as [(t' & Ht' & Hev)|Hnew].
    + pose proof (evolves_gate _ _ Hev) as (Hid & _).
      destruct (grown_tasks_back _ _ H12 t' Ht') as [(t & ? & ?)|[(t0 & ? & ?) Hnew]].
      * left. exists t. split; [done|]. by transitivity t'.
      * right. split; [|by rewrite Hid]. exists t0. split; [done|]. by transitivity t'.
    + right. destruct Hnew as [Hborn Hnew]. split; [done|]. intros t Ht. destruct (grown_tasks _ _ H12 t Ht) as (t' & Ht' & Hev).
      pose proof (evolves_gate _ _ Hev) as (Hid & _). rewrite <- Hid. by apply Hnew.
Qed.

(** An operation from one exemption to another. *)
Definition carries (x y : option string) (d d' : db) : Prop :=
  inv x d → inv y d' ∧ grown d d'.

Lemma carries_trans x y z d1 d2 d3 :
  carries x y d1 d2 → carries y z d2 d3 → carries x z d1 d3.
Proof.
  intros H12 H23 Hi. destruct (H12 Hi) as [Hi2 Hg2]. destruct (H23 Hi2) as [Hi3 Hg3].
  split; [done|]. exact (grown_trans _ _ _ _ Hi2 Hg2 Hg3).
Qed.
#[export] Instance carries_preorder x : PreOrder (carries x x).
Proof.
  split; [intros d Hi; split; [done|apply grown_refl]|intros ???; apply carries_trans].
Qed.

Lemma grown_same_inbox d d' :
  inbox_messages d' = inbox_messages d →
  (∀ sid, sid ∈ map sp_id (spaces d) → sid ∈ map sp_id (spaces d')) →
  (∀ t, t ∈ tasks d → ∃ t', t' ∈ tasks d' ∧ evolves t t') →
  (∀ t', t' ∈ tasks d' →
    (∃ t, t ∈ tasks d ∧ evolves t t') ∨ (born t' ∧ ∀ t, t ∈ tasks d → t_id t ≠ t_id t')) →
  grown d d'.
Proof.
  intros Hm Hs Ht Hb. split; rewrite ?Hm; [| |done|done|done].
  - intros m Hin. by exists m.
  - intros m Hin. left. by exists m.
Qed.

Lemma carries_core x d d' : same_core d d' → carries x x d d'.
Proof.
  intros Hc Hi. split; [by eapply inv_core|]. destruct Hc as (Hs & Hm & Ht).
  apply grown_same_inbox; rewrite ?Hs, ?Ht; [done|done|..]; intros t Hin; [|left]; by exists t.
Qed.

Lemma grown_same_tasks d d' :
  inbox_messages d' = inbox_messages d → tasks d' = tasks d →
  (∀ sid, sid ∈ map sp_id (spaces d) → sid ∈ map sp_id (spaces d')) → grown d d'.
Proof.
  intros Hm Ht Hs. apply grown_same_inbox; [done|done|..]; rewrite Ht; intros t Hin; [|left];
    by exists t.
Qed.

Lemma grown_map_tasks (g : task → task) d d' :
  inbox_messages d' = inbox_messages d → tasks d' = map g (tasks d) →
  (∀ sid, sid ∈ map sp_id (spaces d) → sid ∈ map sp_id (spaces d')) →
  (∀ t, t ∈ tasks d → evolves t (g t)) → grown d d'.
Proof.
  intros Hm Ht Hs Hg. apply grown_same_inbox; [done|done|..]; rewrite Ht.
  - intros t Hin. exists (g t). split; [by apply elem_of_map_in|auto].
  - intros t' (t & <- & Hin)%elem_of_map. left. exists t. auto.
Qed.

Lemma carries_update_tasks x p f d :
  (∀ t, t ∈ tasks d → p t = true → evolves t (f t) ∧ moves (t_status t) (t_status (f t))) →
  carries x x d (update_tasks p f d).
Proof.
  intros Hf Hi. split.
  - apply inv_update_tasks; [|done]. intros t Ht Hp. destruct (Hf t Ht Hp) as [[] ?]. done.
  - apply (grown_map_tasks (λ t, if p t then f t else t)); [done..|].
    intros t Ht. destruct (p t) eqn:E; [by apply Hf|done].
Qed.

Lemma carries_update_task_row x t f d :
  t ∈ tasks d → evolves t (f t) → moves (t_status t) (t_status (f t)) →
  carries x x d (update_tasks (λ r, String.eqb (t_id r) (t_id t)) f d).
Proof.
  intros Ht Hsame Hmove Hi.
  apply (carries_update_tasks x); [|exact Hi]. intros r Hr Hid%String.eqb_eq.
  by assert (r = t) as -> by (apply (key_unique t_id (tasks d)); [apply Hi|done..]).
Qed.

Lemma carries_save_task x t t' d :
  t ∈ tasks d → evolves t t' → moves (t_status t) (t_status t') →
  carries x x d (update_tasks (λ r, String.eqb (t_id r) (t_id t')) (λ _, t') d).
Proof.
  intros Ht Hev Hmove. destruct (evolves_gate _ _ Hev) as (-> & _).
  by apply (carries_update_task_row x t (λ _, t')).
Qed.

Lemma carries_save_space x sp sp' d :
  sp ∈ spaces d → sp_id sp' = sp_id sp → (∀ l, watermark l sp' = watermark l sp) →
  carries x x d (update_spaces (λ s, String.eqb (sp_id s) (sp_id sp')) (λ _, sp') d).
Proof.
  intros Hsp Hid Hw Hi.
  assert (∀ s, s ∈ spaces d → String.eqb (sp_id s) (sp_id sp') = true → s = sp) as Hu.
  { intros s Hs Hk%String.eqb_eq. apply (key_unique sp_id (spaces d)); [apply Hi|done|done|].
    congruence. }
  split.
  - apply inv_update_spaces; [|done]. intros s Hs Hk. rewrite (Hu s Hs Hk). split; [done|exact Hw].
  - apply grown_same_tasks; [done|done|]. simpl. intros sid.
    rewrite (update_column_keyed sp_id); [done|]. intros s Hk%String.eqb_eq. congruence.
Qed.

Lemma carries_save_inbox m m' d :
  m ∈ inbox_messages d → matures m m' →
  carries (Some (m_space_id m)) (Some (m_space_id m)) d
    (update_inbox (λ r, String.eqb (m_id r) (m_id m')) (λ _, m') d).
Proof.
  intros Hm Hmat Hi.
  assert (∀ r, r ∈ inbox_messages d → String.eqb (m_id r) (m_id m') = true → r = m) as Hu.
  { intros r Hr Hk%String.eqb_eq. apply (key_unique m_id (inbox_messages d));
      [apply Hi|done|done|]. rewrite Hk. apply Hmat. }
  split.
  - apply inv_update_inbox; [|done]. intros r Hr Hk. by rewrite (Hu r Hr Hk).
  - split; simpl; [| |done|intros t Ht; by exists t|intros t Ht; left; by exists t].
    + intros r Hr. exists (if String.eqb (m_id r) (m_id m') then m' else r).
      split; [apply elem_of_update; eauto|].
      destruct (String.eqb _ _) eqn:E; [|done]. by rewrite (Hu r Hr E).
    + intros r' (r & Hr & ->)%elem_of_update. left. exists r. split; [done|].
      destruct (String.eqb _ _) eqn:E; [|done]. by rewrite (Hu r Hr E).
Qed.

Lemma carries_enter sid d : carries None (Some sid) d d.
Proof. intros Hi. split; [by apply inv_enter|apply grown_refl]. Qed.

Lemma activate_evolves t : t_status t = "blocked" → evolves t (activate_row t).
Proof.
  intros Hst. apply evolves_step; try done; simpl; [by left|by left|]. rewrite Hst. by apply py_in_false.
Qed.

Lemma ready_blocked sp t : ready_task sp t = true → t_status t = "blocked".
Proof. unfold ready_task. bools. tauto. Qed.

Lemma carries_advance sp d :
  sp ∈ spaces d → carries (Some (sp_id sp)) None d (advance_space sp d).
Proof.
  intros Hsp Hi. split; [by apply inv_advance|].
  apply (grown_map_tasks (λ t, if ready_task (advance_row sp (messages_of (sp_id sp) d)) t
                               then activate_row t else t)); [done|done| |].
  - simpl. intros sid. rewrite (update_column_keyed sp_id); [done|].
    intros s Hk%String.eqb_eq. simpl. congruence.
  - intros t _. destruct (ready_task _ t) eqn:E; [|done].
    by eapply activate_evolves, ready_blocked.
Qed.

(** * Reads *)

Lemma select_space_Ok sid d sp d' :
  select_space_for_update sid d = Ok (sp, d') → d' = d ∧ sp ∈ spaces d ∧ sp_id sp = sid.
Proof.
  unfold select_space_for_update. intros H. run1 H. apply scalar_one_Ok in H.
  apply select_singleton in H as [? ?]. by bools.
Qed.

Lemma select_inbox_Ok mid d o d' :
  select_inbox_for_update mid d = Ok (o, d') → d' = d ∧
  ∀ m, o = Some m → m ∈ inbox_messages d ∧ m_id m = mid.
Proof.
  unfold select_inbox_for_update. intros H. run1 H. split; [done|]. intros m ->.
  apply scalar_one_or_none_Some in H. apply select_singleton in H as [? ?]. by bools.
Qed.

Lemma select_task_Ok tid d o d' :
  select_task_for_update tid d = Ok (o, d') → d' = d ∧
  ∀ t, o = Some t → t ∈ tasks d ∧ t_id t = tid.
Proof.
  unfold select_task_for_update. intros H. run1 H. split; [done|]. intros m ->.
  apply scalar_one_or_none_Some in H. apply select_singleton in H as [? ?]. by bools.
Qed.

Lemma get_space_Ok sid d o d' : get_space sid d = Ok (o, d') →
  d' = d ∧ ∀ sp, o = Some sp → sp ∈ spaces d ∧ sp_id sp = sid.
Proof.
  unfold get_space. intros H. run1 H. split; [done|]. intros sp Hf.
  apply find_some in Hf as [Hin Hk].
  apply list_elem_of_In in Hin. by bools.
Qed.

Section operations.
Context `{Platform}.

(** * Publishing *)

Lemma draw_uuid_core : sat same_core draw_uuid.
Proof. unfold draw_uuid. sat_auto; done. Qed.
Lemma new_id_core p : sat same_core (new_id p).
Proof. unfold new_id. sat_auto. apply draw_uuid_core. Qed.
Lemma add_task_event_core i rq now : sat same_core (add_task_event i rq now).
Proof. unfold add_task_event. sat_auto; done. Qed.
Lemma publish_core t n now : sat same_core (publish_task_request t n now).
Proof.
  unfold publish_task_request, get_task. sat_auto; auto using new_id_core, add_task_event_core.
Qed.

(** * The activation loop *)

Lemma activate_and_publish_Ok now t d u d' :
  activate_and_publish now t d = Ok (u, d') →
  same_core (update_tasks (λ r, String.eqb (t_id r) (t_id t)) (λ _, activate_row t) d) d'.
Proof.
  unfold activate_and_publish, save_task. intros R. run1 R.
  by apply publish_core in Hrun.
Qed.

Lemma update_tasks_core p f d d' :
  same_core d d' → same_core (update_tasks p f d) (update_tasks p f d').
Proof. intros (Hs & Hm & Ht). unfold same_core. simpl. by rewrite Hs, Hm, Ht. Qed.

Lemma activation_loop now rows : ∀ d u d',
  NoDup (map t_id rows) → NoDup (map t_id (tasks d)) → (∀ t, t ∈ rows → t ∈ tasks d) →
  for_each rows (activate_and_publish now) d = Ok (u, d') →
  same_core (update_tasks (λ r, bool_decide (t_id r ∈ map t_id rows)) activate_row d) d'.
Proof.
  induction rows as [|t rows IH]; intros d u d' Hrows Hnd Hin R; simpl in R.
  - run1 R. unfold same_core. simpl. rewrite update_nothing; [done|].
    done.
  - run1 R. apply activate_and_publish_Ok in Hrun. simpl in Hrows.
    apply NoDup_cons in Hrows as [Hfresh Hrows].
    assert (t ∈ tasks d) as Ht by (apply Hin; by left).
    assert (update_where (λ r, String.eqb (t_id r) (t_id t)) (λ _, activate_row t) (tasks d)
      = update_where (λ r, String.eqb (t_id r) (t_id t)) activate_row (tasks d)) as Heq.
    { apply update_where_ext; [done|]. intros r Hr Hk%String.eqb_eq. f_equal.
      symmetry. by apply (key_unique t_id (tasks d)). }
    destruct Hrun as (Hs & Hm & Ht0). simpl in Hs, Hm, Ht0. rewrite Heq in Ht0.
    apply IH in R; [|done| |].
    + etrans; [|exact R]. unfold same_core. simpl. split_and!; [done..|].
      rewrite Ht0. unfold update_where. rewrite map_map. apply map_ext. intros r.
      destruct (String.eqb_spec (t_id r) (t_id t)) as [Hk|Hk]; simpl.
      * rewrite Hk, (bool_decide_false (t_id t ∈ map t_id rows)), bool_decide_true by
          (done || by left). done.
      * rewrite (bool_decide_ext (t_id r ∈ t_id t :: map t_id rows)
          (t_id r ∈ map t_id rows)); [done|]. rewrite elem_of_cons. tauto.
    + rewrite Ht0. by rewrite update_column.
    + intros r Hr. rewrite Ht0. apply elem_of_update. exists r.
      split; [apply Hin; by right|].
      destruct (String.eqb_spec (t_id r) (t_id t)) as [Hk|]; [|done].
      destruct Hfresh. rewrite <- Hk. by apply elem_of_map_in.
Qed.

Lemma activate_ready_Ok sp now d n d' :
  NoDup (map t_id (tasks d)) → activate_ready_tasks_in_session sp now d = Ok (n, d') →
  same_core (update_tasks (ready_task sp) activate_row d) d'
  ∧ n = Z.of_nat (length (select_where (ready_task sp) (tasks d))).
Proof.
  unfold activate_ready_tasks_in_session. intros Hnd R. run1 R. rename Hrun into Hrun0.
  rewrite sort_by_Permutation. split; [|done].
  apply activation_loop in Hrun0.
  - etrans; [|exact Hrun0]. unfold same_core. simpl. split_and!; [done..|].
    apply update_where_ext; [|done]. intros t Ht. apply eq_bool_prop_intro.
    rewrite !Is_true_true, bool_decide_eq_true, sort_by_Permutation, elem_of_map. split.
    + intros (r & Hk & [Hr Hready]%elem_of_select).
      assert (r = t) as ->; [|done]. by apply (key_unique t_id (tasks d)).
    + intros Hready. exists t. split; [done|]. by apply elem_of_select.
  - rewrite sort_by_Permutation. by apply NoDup_select.
  - done.
  - intros t. rewrite elem_of_sort_by, elem_of_select. tauto.
Qed.

Lemma advance_watermarks_Ok sp now d u d' :
  NoDup (map t_id (tasks d)) → advance_watermarks_in_session sp now d = Ok (u, d') →
  same_core (advance_space sp d) d'.
Proof.
  unfold advance_watermarks_in_session, save_space. intros Hnd R. run1 R.
  by apply activate_ready_Ok in Hrun as [? _].
Qed.

Lemma advance_watermarks_carries sp now d u d' :
  sp ∈ spaces d → advance_watermarks_in_session sp now d = Ok (u, d') →
  carries (Some (sp_id sp)) None d d'.
Proof.
  intros Hsp R Hi. apply advance_watermarks_Ok in R; [|apply Hi].
  revert Hi. eapply carries_trans; [by apply carries_advance|by apply carries_core].
Qed.
End operations.
