(* ===== verification/Outbox.v ===== *)
(** [repositories/postgres/outbox.py]: the outbox rows that a relay claims under a
    lease, publishes, and marks as published or failed. *)

From stdpp Require Import base list strings gmap pretty.
From Stdlib Require Import ZArith Lia Sorting.Sorted.
From S2P Require Import Prelude Schema Consistency Dispatch Stages Tasks Watermark.
From S2P Require Import Invariant Runs.

Open Scope string_scope.
Open Scope Z_scope.

(** The dict that [claim_outbox_batch] returns for each row. *)
Record outbox_claim := OutboxClaim {
  oc_id : string;
  oc_payload : task_request;
  oc_lease_token : string;
  oc_attempt : Z;
  oc_max_attempts : Z;
}.

Section outbox.
Context `{Platform}.

(** The WHERE clause of the claim. *)
Definition relayable (now : Z) (event_ids : option (list string)) (e : outbox_event) : bool :=
  bool_decide (e_published_at e = None)
  && ((py_in (e_status e) ["pending"; "retry"]
       && match e_next_attempt_at e with None => true | Some r => r <=? now end)
      || (String.eqb (e_status e) "publishing"
          && match e_lease_expires_at e with None => false | Some l => l <=? now end))
  && match event_ids with None => true | Some ids => py_in (e_id e) ids end.

(** ORDER BY created_at *)
Definition older_event (e1 e2 : outbox_event) : bool := e_created_at e1 <=? e_created_at e2.

Definition claim_event (worker_id token : string) (lease_seconds now : Z)
    (e : outbox_event) : outbox_event :=
  e <| e_status := "publishing" |> <| e_claimed_by := Some worker_id |>
    <| e_lease_token := Some token |>
    <| e_lease_expires_at := Some (now + seconds (Z.max 1 lease_seconds)) |>
    <| e_last_attempt_at := Some now |>
    <| e_publish_attempt_count := e_publish_attempt_count e + 1 |>
    <| e_max_attempts := if e_max_attempts e =? 0 then OUTBOX_MAX_ATTEMPTS
                         else e_max_attempts e |>.

Definition save_event (e : outbox_event) : session unit :=
  modify (update_outbox (λ r, String.eqb (e_id r) (e_id e)) (λ _, e)).

(** The body of the loop over the claimed rows. *)
Definition claim_one (worker_id : string) (lease_seconds now : Z) (e : outbox_event) :
    session outbox_claim :=
  token ← draw_uuid;
  let row := claim_event worker_id token lease_seconds now e in
  save_event row;;
  mret (OutboxClaim (e_id row) (e_payload_json row) token (e_publish_attempt_count row)
    (e_max_attempts row)).

Definition claim_batch_in_session (worker_id : string) (limit : Z)
    (event_ids : option (list string)) (lease_seconds now : Z) :
    session (list outbox_claim) :=
  rows ← gets (λ d, take (Z.to_nat (Z.max 1 limit))
    (sort_by older_event (select_where (relayable now event_ids) (outbox_events d))));
  map_each (claim_one worker_id lease_seconds now) rows.

Definition claim_outbox_batch (worker_id : string) (limit : Z)
    (event_ids : option (list string)) (lease_seconds now : Z) :
    db → result (list outbox_claim) * db :=
  transaction (claim_batch_in_session worker_id limit event_ids lease_seconds now).

(** status = 'publishing' AND lease_token = ... *)
Definition holds_event (event_id lease_token : string) (e : outbox_event) : bool :=
  String.eqb (e_id e) event_id && String.eqb (e_status e) "publishing"
  && bool_decide (e_lease_token e = Some lease_token).

Definition publish_row (now : Z) (e : outbox_event) : outbox_event :=
  e <| e_status := "published" |> <| e_published_at := Some now |>
    <| e_claimed_by := None |> <| e_lease_token := None |> <| e_lease_expires_at := None |>
    <| e_next_attempt_at := None |> <| e_last_error := None |>.

Definition mark_outbox_published (event_id lease_token : string) (now : Z) :
    db → result bool * db :=
  transaction (
    rows ← gets (λ d, select_where (holds_event event_id lease_token) (outbox_events d));
    modify (update_outbox (holds_event event_id lease_token) (publish_row now));;
    marked ← lift_result (scalar_one_or_none rows);
    mret (bool_decide (is_Some marked))).

(** timedelta(seconds=min(300, 2 ** max(0, n - 1))) *)
Definition publish_backoff (n : Z) : Z := seconds (Z.min 300 (2 ^ Z.max 0 (n - 1))).

Definition publish_exhausted (e : outbox_event) : bool :=
  Z.max 1 (if e_max_attempts e =? 0 then OUTBOX_MAX_ATTEMPTS else e_max_attempts e)
  <=? e_publish_attempt_count e.

Definition fail_event (error : string) (now : Z) (e : outbox_event) : outbox_event :=
  let exhausted := publish_exhausted e in
  e <| e_status := if exhausted then "dead" else "retry" |>
    <| e_failed_at := if exhausted then Some now else None |>
    <| e_next_attempt_at := if exhausted then None
                            else Some (now + publish_backoff (e_publish_attempt_count e)) |>
    <| e_last_error := Some (str_take 2000 error) |>
    <| e_claimed_by := None |> <| e_lease_token := None |> <| e_lease_expires_at := None |>.

Definition mark_outbox_failed (event_id lease_token error : string) (now : Z) :
    db → result string * db :=
  transaction (
    rows ← gets (λ d, select_where (holds_event event_id lease_token) (outbox_events d));
    row ← lift_result (scalar_one_or_none rows);
    match row with
    | None => mret "stale"
    | Some e =>
        let row := fail_event error now e in
        save_event row;;
        mret (e_status row)
    end).

(** * What the relay may change *)

(** The columns that name the event and its body. *)
Definition event_body (e : outbox_event) : string * string * string * string * task_request * Z :=
  (e_id e, e_event_type e, e_aggregate_type e, e_aggregate_id e, e_payload_json e, e_created_at e).

Definition FINAL : list string := ["published"; "dead"].

(** A published or dead event is never touched again, and only the events of [marked]
    can become published. *)
Definition event_evolves (marked : string → Prop) (e e' : outbox_event) : Prop :=
  event_body e' = event_body e ∧ (e_status e ∈ FINAL → e' = e)
  ∧ (e_status e' = "published" → e' = e ∨ marked (e_id e)).

#[export] Instance event_evolves_preorder marked : PreOrder (event_evolves marked).
Proof.
  split; [intros e; split_and!; [done..|by left]|]. intros e1 e2 e3 (Hb1 & Hf1 & Hp1) (Hb2 & Hf2 & Hp2).
  split_and!; [congruence| |].
  - intros Hs. specialize (Hf1 Hs) as ->. auto.
  - intros Hs. destruct (Hp2 Hs) as [->|Hm]; [by apply Hp1|right].
    unfold event_body in Hb1. injection Hb1 as Hid _ _ _ _ _. by rewrite <- Hid.
Qed.

(** What the relay's transactions change: rows of the outbox. *)
Record relays (marked : string → Prop) (d d' : db) : Prop := {
  relays_core : same_core d d';
  relays_tenants : tenants d' = tenants d;
  relays_attempts : task_attempts d' = task_attempts d;
  relays_events : Forall2 (event_evolves marked) (outbox_events d) (outbox_events d');
}.

#[export] Instance relays_preorder marked : PreOrder (relays marked).
Proof.
  split.
  - intros d. split; [done..|]. by apply Forall_Forall2_diag, Forall_true.
  - intros d1 d2 d3 [C1 ? ? E1] [C2 ? ? E2]. split; [by etrans|congruence|congruence|].
    revert E2. generalize (outbox_events d3).
    induction E1 as [|e1 e2 l1 l2 H1 _ IH]; intros l3 E2; inversion E2; subst; constructor; [|auto].
    by etrans.
Qed.

Lemma relays_weaken (marked marked' : string → Prop) d d' :
  (∀ eid, marked eid → marked' eid) → relays marked d d' → relays marked' d d'.
Proof.
  intros Hm [? ? ? E]. split; [done..|]. eapply Forall2_impl; [exact E|].
  intros e e' (? & ? & Hp). split_and!; [done..|]. intros Hs. destruct (Hp Hs); auto.
Qed.

Lemma relays_update marked p f d :
  (∀ e, e ∈ outbox_events d → p e = true → event_evolves marked e (f e)) →
  relays marked d (update_outbox p f d).
Proof.
  intros Hf. split; [done..|]. unfold update_outbox, update_where. simpl.
  induction (outbox_events d) as [|e es IH]; simpl; constructor.
  - destruct (p e) eqn:E; [|reflexivity]. apply Hf; [by left|done].
  - apply IH. intros e' He'. apply Hf. by right.
Qed.

Lemma draw_uuid_relays marked : sat (relays marked) draw_uuid.
Proof.
  unfold draw_uuid. sat_auto. split; [done..|]. by apply Forall_Forall2_diag, Forall_true.
Qed.

Lemma claim_event_evolves marked w tok secs now e :
  e_status e ∉ FINAL → event_evolves marked e (claim_event w tok secs now e).
Proof. intros Hs. by split. Qed.

Lemma relayable_open now ids e : relayable now ids e = true → e_status e ∉ FINAL.
Proof.
  unfold relayable. bools. intros [[_ [[Hs _]|[Hs _]]] _] Hin.
  - revert Hin. apply py_in_false.
    apply elem_of_cons in Hs as [->|Hs]; [done|].
    by apply list_elem_of_singleton in Hs as ->.
  - rewrite Hs in Hin. by apply py_in_true in Hin.
Qed.

Lemma holds_event_open eid tok e : holds_event eid tok e = true → e_id e = eid ∧ e_status e ∉ FINAL.
Proof.
  unfold holds_event. bools. intros [[Hid Hs] _]. split; [done|]. rewrite Hs. by apply py_in_false.
Qed.

Lemma relays_ids marked d d' : relays marked d d' → map e_id (outbox_events d') = map e_id (outbox_events d).
Proof.
  intros [_ _ _ E]. induction E as [|e e' l l' (Hb & _) _ IH]; simpl; [done|].
  unfold event_body in Hb. f_equal; [congruence|done].
Qed.

(** Saving the row of an event that is still open. *)
Lemma save_event_relays marked e e' d :
  NoDup (map e_id (outbox_events d)) → e ∈ outbox_events d → event_evolves marked e e' →
  relays marked d (update_outbox (λ r, String.eqb (e_id r) (e_id e')) (λ _, e') d).
Proof.
  intros Hnd He Hev. apply relays_update. intros r Hr Hid%String.eqb_eq.
  assert (r = e) as ->; [|done].
  apply (key_unique e_id (outbox_events d)); [done..|]. rewrite Hid. destruct Hev as (Hb & _).
  unfold event_body in Hb. congruence.
Qed.

Lemma saved_event e e' d :
  e ∈ outbox_events d → e_id e' = e_id e →
  e' ∈ outbox_events (update_outbox (λ r, String.eqb (e_id r) (e_id e')) (λ _, e') d).
Proof.
  intros He Hid. apply elem_of_update. exists e. split; [done|]. by rewrite Hid, String.eqb_refl.
Qed.

Lemma unsaved_event e r d :
  r ∈ outbox_events d → e_id r ≠ e_id e →
  r ∈ outbox_events (update_outbox (λ r, String.eqb (e_id r) (e_id e)) (λ _, e) d).
Proof.
  intros Hr Hid. apply elem_of_update. exists r. split; [done|].
  by rewrite (proj2 (String.eqb_neq _ _) Hid).
Qed.

(** The row that a claim leaves behind, and what it reports. *)
Definition claimed_as (w : string) (secs now : Z) (d : db) (e : outbox_event) (c : outbox_claim) : Prop :=
  ∃ tok, let row := claim_event w tok secs now e in
    row ∈ outbox_events d
    ∧ c = OutboxClaim (e_id e) (e_payload_json e) tok (e_publish_attempt_count row) (e_max_attempts row).

Lemma claim_each_Ok w secs now rows : ∀ d cs d',
  NoDup (map e_id (outbox_events d)) → NoDup (map e_id rows) →
  (∀ e, e ∈ rows → e ∈ outbox_events d ∧ e_status e ∉ FINAL) →
  map_each (claim_one w secs now) rows d = Ok (cs, d') →
  relays (λ _, False) d d' ∧ Forall2 (claimed_as w secs now d') rows cs
  ∧ ∀ e, e ∈ outbox_events d → e_id e ∉ map e_id rows → e ∈ outbox_events d'.
Proof.
  induction rows as [|e rows IH]; intros d cs d' Hnd Hrows Hin R; simpl in R.
  { run1 R. split_and!; [done|constructor|done]. }
  apply NoDup_cons in Hrows as [Hfresh Hrows].
  destruct (Hin e (list_elem_of_here _ _)) as [He Hopen].
  apply bind_Ok in R as (c & d2 & R1 & R).
  apply bind_Ok in R as (cs' & d3 & R2 & R). run1 R.
  unfold claim_one, draw_uuid, save_event in R1. run1 R1.
  set (d1 := d <| uuids_drawn := S (uuids_drawn d) |>) in *.
  set (row := claim_event w _ secs now e) in *.
  assert (relays (λ _, False) d d1) as Hr0.
  { split; [done..|]. by apply Forall_Forall2_diag, Forall_true. }
  pose proof (save_event_relays (λ _, False) e row d1 Hnd He (claim_event_evolves _ _ _ _ _ _ Hopen)) as Hr1.
  apply IH in R2 as (Hr & Hcs & Hkeep).
  - split_and!.
    + etrans; [exact Hr0|]. by etrans.
    + constructor; [|done]. eexists. split; [|done].
      apply Hkeep; [|done]. by apply (saved_event e row d1).
    + intros r Hr' [Hne Hni]%not_elem_of_cons. apply Hkeep; [|done].
      by apply (unsaved_event row r d1).
  - by rewrite (relays_ids (λ _, False) d1).
  - done.
  - intros r Hr. destruct (Hin r (list_elem_of_further _ _ _ Hr)) as [Hr' ?]. split; [|done].
    apply (unsaved_event row r d1); [done|]. intros Heq. apply Hfresh. simpl in Heq. rewrite <- Heq.
    by apply elem_of_map_in.
Qed.

Definition unique_events (d : db) : Prop := NoDup (map e_id (outbox_events d)).

Lemma claim_batch_Ok w limit ids secs now d cs d' :
  unique_events d →
  claim_batch_in_session w limit ids secs now d = Ok (cs, d') →
  let rows := take (Z.to_nat (Z.max 1 limit))
    (sort_by older_event (select_where (relayable now ids) (outbox_events d))) in
  relays (λ _, False) d d' ∧ Forall2 (claimed_as w secs now d') rows cs
  ∧ ∀ e, e ∈ outbox_events d → e_id e ∉ map e_id rows → e ∈ outbox_events d'.
Proof.
  intros Hnd R. unfold claim_batch_in_session in R.
  apply bind_Ok in R as (rows & d1 & [-> ->]%gets_Ok & R).
  eapply claim_each_Ok; [done| | |exact R].
  - apply NoDup_map_take. rewrite (Permutation_map e_id (sort_by_Permutation _ _)).
    by apply NoDup_select.
  - intros e [He Hrel]%in_take%elem_of_sort_by%elem_of_select. split; [done|].
    by eapply relayable_open.
Qed.

Lemma mark_published_relays eid tok now d : relays (eq eid) d (mark_outbox_published eid tok now d).2.
Proof.
  unfold mark_outbox_published. apply (sat_transaction (relays (eq eid))).
  apply sat_bind; [apply _|by sat_auto|intros rows].
  apply sat_bind; [apply _| |intros ?; by sat_auto].
  apply sat_modify. intros d'. apply relays_update.
  intros e _ [Hid ?]%holds_event_open. split_and!; [done..|]. by right.
Qed.

Lemma mark_failed_relays eid tok err now d :
  unique_events d → relays (λ _, False) d (mark_outbox_failed eid tok err now d).2.
Proof.
  intros Hnd. unfold mark_outbox_failed, transaction, save_event.
  unfold mbind, M_bind, gets, modify, mret, M_ret, lift_result.
  destruct (scalar_one_or_none _) as [[e|]|x] eqn:E; simpl; [|done..].
  apply scalar_one_or_none_Some, select_singleton in E as [He [_ Ho]%holds_event_open].
  apply (save_event_relays _ e (fail_event err now e)); [done..|]. split_and!; [done..|].
  simpl. by destruct (publish_exhausted e).
Qed.
End outbox.
