(* ===== verification/Operations.v ===== *)
(** Every operation of the pipeline keeps the invariant, lets messages only
    mature, and numbers the new ones above the old. *)

From stdpp Require Import base list strings gmap.
From Stdlib Require Import ZArith Lia.
From S2P Require Import Prelude Schema Consistency Dispatch Stages Tasks Watermark.
From S2P Require Import Invariant Runs.

Open Scope string_scope.
Open Scope Z_scope.

Section operations.
Context `{Platform}.

(** ** Tenants and spaces *)

Lemma insert_tenant_core s : sat same_core (insert_tenant s).
Proof. unfold insert_tenant. sat_step. by destruct (bool_decide _). Qed.

(** [ensure_tenant_space] only adds rows to [spaces]. *)
Definition space_grown (d d' : db) : Prop :=
  carries None None d d' ∧ inbox_messages d' = inbox_messages d ∧ tasks d' = tasks d.
#[local] Instance space_grown_preorder : PreOrder space_grown.
Proof.
  split; [intros d; split; [reflexivity|done]|].
  intros ??? (?&?&?) (?&?&?). split_and!; [by etrans|congruence..].
Qed.

Lemma space_grown_core d d' : same_core d d' → space_grown d d'.
Proof. intros Hc. split; [by apply carries_core|]. by destruct Hc as (_ & ? & ?). Qed.

Lemma insert_space_Ok ten src ssid pid d o d' :
  insert_space ten src ssid pid d = Ok (o, d') →
  space_grown d d' ∧ ∀ sid, o = Some sid → sid ∈ map sp_id (spaces d').
Proof.
  unfold insert_space. intros R. apply bind_Ok in R as (c & d1 & [-> ->]%gets_Ok & R).
  destruct (existsb _ _) eqn:E; run1 R; [by split; [reflexivity|]|].
  set (sp := Space pid ten src (Some ssid) ∅ 0 0 0 None).
  split; [|intros sid [= <-]; simpl; rewrite map_app; apply elem_of_app; right; by left].
  split; [|done]. intros Hi. change (inv None (add_space_row sp d) ∧ grown d (add_space_row sp d)).
  split.
  - apply inv_add_space; [|by intros []|done]. intros s Hs Hk.
    assert (existsb (λ s, String.eqb (sp_id s) pid || space_identity ten src ssid s)
      (spaces d) = true) as Hc; [|congruence].
    apply existsb_exists. exists s. split; [by apply list_elem_of_In|].
    apply orb_true_iff. left. by apply String.eqb_eq.
  - apply grown_same_tasks; [done|done|].
    intros s Hs. simpl. rewrite map_app. apply elem_of_app. by left.
Qed.

Lemma or_else_Ok o k d sid d' :
  or_else o k d = Ok (sid, d') → (o = Some sid ∧ d' = d) ∨ k d = Ok (sid, d').
Proof.
  unfold or_else. destruct o as [s|]; [|by right].
  destruct (String.eqb s ""); [by right|]. intros R. run1 R. by left.
Qed.

Lemma select_identity_elem ten src ssid d l d' sid :
  select_space_identity ten src ssid d = Ok (l, d') → sid ∈ l →
  d' = d ∧ sid ∈ map sp_id (spaces d).
Proof.
  unfold select_space_identity. intros R. run1 R. intros (s & <- & [Hs _]%elem_of_select)%elem_of_map.
  split; [done|]. by apply elem_of_map_in.
Qed.

Lemma ensure_tenant_space_Ok ssid ten src d sid d' :
  ensure_tenant_space ssid ten src d = Ok (sid, d') →
  space_grown d d' ∧ sid ∈ map sp_id (spaces d').
Proof.
  unfold ensure_tenant_space. intros R.
  apply bind_Ok in R as (o & d1 & R1 & R).
  apply get_space_Ok in R1 as [-> Ho].
  destruct (o ≫= _) as [s|] eqn:E.
  { run1 R. split; [reflexivity|]. apply bind_Some in E as (sp & -> & Hsp).
    destruct (Ho sp eq_refl) as [Hin <-].
    destruct (String.eqb _ _); simplify_eq. by apply elem_of_map_in. }
  clear E Ho o. apply bind_Ok in R as (u & d1 & R1 & R).
  apply insert_tenant_core, space_grown_core in R1.
  apply bind_Ok in R as (rows & d2 & R2 & R).
  assert (d2 = d1) as -> by (unfold select_space_identity in R2; by run1 R2).
  apply bind_Ok in R as (ex & d2 & [Hex ->]%lift_result_Ok & R).
  apply or_else_Ok in R as [[-> ->]|R].
  { split; [done|]. apply (select_identity_elem _ _ _ _ _ _ sid R2).
    apply scalar_one_or_none_Some in Hex as ->. by left. }
  clear R2 Hex. apply bind_Ok in R as (o & d2 & R2 & R).
  apply insert_space_Ok in R2 as [Hg Hin].
  assert (space_grown d d2) as Hd2 by (by etrans). clear R1 Hg.
  apply or_else_Ok in R as [[-> ->]|R]; [by auto|]. clear Hin.
  apply bind_Ok in R as (o2 & d3 & R2 & R). apply insert_space_Ok in R2 as [Hg Hin].
  assert (space_grown d d3) as Hd3 by (by etrans). clear Hd2 Hg.
  apply or_else_Ok in R as [[-> ->]|R]; [by auto|]. clear Hin.
  apply bind_Ok in R as (rows2 & d4 & R2 & R).
  assert (d4 = d3) as -> by (unfold select_space_identity in R2; by run1 R2).
  apply lift_result_Ok in R as [R ->]. split; [done|]. apply scalar_one_Ok in R as ->.
  apply (select_identity_elem _ _ _ _ _ _ sid R2). by left.
Qed.

(** ** Creating tasks *)

Definition same_barrier (p p' : payload) : Prop :=
  pl_consistency p' = pl_consistency p
  ∧ pl_required_watermark p' = pl_required_watermark p.

Lemma insert_task_Ok row d o d' :
  insert_task row d = Ok (o, d') →
  (o = None ∧ d' = d)
  ∨ (o = Some (t_id row) ∧ d' = add_task_row row d
     ∧ ∀ t, t ∈ tasks d → t_id t ≠ t_id row).
Proof.
  unfold insert_task. intros R. apply bind_Ok in R as (c & d1 & [-> ->]%gets_Ok & R).
  destruct (existsb _ _); [run1 R; by left|].
  apply bind_Ok in R as (k & d1 & [-> ->]%gets_Ok & R).
  destruct (existsb _ _) eqn:E; run1 R. right. split_and!; [done..|].
  intros t Ht Hk. assert (existsb (λ t, String.eqb (t_id t) (t_id row)) (tasks d) = true);
    [|congruence]. apply existsb_exists. exists t. split; [by apply list_elem_of_In|].
  by apply String.eqb_eq.
Qed.

Lemma enqueue_task_in_session_Ok ctx a now d tid b d' :
  enqueue_task_in_session ctx a now d = Ok ((tid, b), d') →
  (b = false ∧ same_core d d')
  ∨ (b = true ∧ ∃ p, same_barrier (ta_payload a) p
     ∧ (∀ t, t ∈ tasks d → t_id t ≠ tid)
     ∧ same_core (add_task_row (new_task_row tid a p now) d) d').
Proof.
  unfold enqueue_task_in_session. intros R. destruct (_ && _); [run1 R|].
  apply bind_Ok in R as (i & d1 & R1 & R). apply new_id_core in R1 as Hc.
  apply bind_Ok in R as (o & d2 & R2 & R).
  apply insert_task_Ok in R2 as [[-> ->]|(-> & -> & Hnew)].
  - left. apply bind_Ok in R as (l & d2 & [-> ->]%gets_Ok & R).
    apply bind_Ok in R as (e & d2 & [_ ->]%lift_result_Ok & R).
    run1 R. by simplify_eq.
  - right. apply bind_Ok in R as (u & d2 & R2 & R). run1 R. simplify_eq. split; [done|].
    eexists. split; [|split; [by destruct Hc as (_ & _ & <-)|]].
    2:{ etrans; [|refine ((_ : sat same_core _) _ _ _ R2)].
        - destruct Hc as (Hs & Hm & Ht). unfold same_core. simpl. rewrite Ht. done.
        - destruct (ta_publish a); sat_auto. apply publish_core. }
    by destruct ctx.
Qed.

Lemma new_task_gate a p tid now rows sp (P : Prop) :
  ta_initial_status a ≠ "blocked" → pl_consistency p = None →
  gate_ok P rows sp (new_task_row tid a p now).
Proof.
  intros Hq Hc. split; simpl; [done|]. intros _ l r. unfold requirement. simpl. by rewrite Hc.
Qed.

(** The gate of a received task. *)
Lemma received_gate c r rows sp t (P : Prop) :
  c ∈ ["note"; "memory"; "weak"] → r <= last_number rows →
  pl_consistency (t_payload_json t) = Some c →
  pl_required_watermark (t_payload_json t) = Some r →
  t_status t = initial_status c
    (if String.eqb c "memory" then sp_memory_watermark sp else sp_note_watermark sp) r →
  gate_ok P rows sp t.
Proof.
  intros Hc Hle Hpc Hpr Hst. unfold gate_ok, requirement. rewrite Hpc, Hpr, Hst.
  unfold initial_status. set_unfold in Hc.
  destruct Hc as [->|[->|[->|[]]]]; simpl.
  - destruct (Z.ltb_spec (sp_note_watermark sp) r); simpl; split; try done.
    + intros _. exists NoteLevel, r. done.
    + intros [] . by left.
    + intros _ l r' [= <- <-]. done.
  - destruct (Z.ltb_spec (sp_memory_watermark sp) r); simpl; split; try done.
    + intros _. exists MemoryLevel, r. done.
    + intros []. by left.
    + intros _ l r' [= <- <-]. done.
  - split; done.
Qed.

Lemma carries_add_task x sp t d :
  (∀ t', t' ∈ tasks d → t_id t' ≠ t_id t) → sp ∈ spaces d → sp_id sp = t_space_id t →
  fresh_row t → gate_ok (x ≠ Some (sp_id sp)) (messages_of (sp_id sp) d) sp t →
  carries x x d (add_task_row t d).
Proof.
  intros Hnew Hsp Hid Hfresh Hg Hi. split; [by eapply inv_add_task|].
  apply grown_same_inbox; [done|done|..].
  - intros t' Ht. exists t'. split; [|done]. apply elem_of_app. by left.
  - intros t' [Ht|Ht]%elem_of_app; [left; by exists t'|].
    apply list_elem_of_singleton in Ht as ->. right. split; [by exists t|done].
Qed.

(** What the callers of [enqueue_task] pass: no causal barrier, not blocked. *)
Definition free_args (a : task_args) : Prop :=
  ta_initial_status a ≠ "blocked" ∧ pl_consistency (ta_payload a) = None.

Lemma enqueue_task_carries ctx a now d r d' :
  free_args a → enqueue_task ctx a now d = (Ok r, d') → carries None None d d'.
Proof.
  intros [Hst Hpc] R%transaction_Ok. apply bind_Ok in R as (sid & d1 & R1 & R).
  apply ensure_tenant_space_Ok in R1 as [(Hc1 & _) Hsid].
  apply elem_of_map in Hsid as (sp & Hid & Hsp).
  etrans; [exact Hc1|]. destruct r as [tid b].
  apply enqueue_task_in_session_Ok in R as [[_ Hc]|(_ & p & [Hp _] & Hnew & Hc)];
    [by apply carries_core|].
  etrans; [|by apply carries_core]. eapply carries_add_task; [done|exact Hsp|done|done|].
  apply new_task_gate; [done|]. simpl in Hp. congruence.
Qed.

(** ** Receiving *)

Lemma grown_add_message m d :
  m_sequence_no m = last_number (messages_of (m_space_id m) d) + 1 →
  grown d (add_message_row m d).
Proof.
  intros Hseq. split; simpl; [| |done|intros t Ht; by exists t|intros t Ht; left; by exists t].
  - intros m' Hm'. exists m'. split; [|done]. apply elem_of_app. by left.
  - intros m' [Hm'|Hm']%elem_of_app; [left; by exists m'|].
    apply list_elem_of_singleton in Hm' as ->. right. lia.
Qed.

Lemma add_inbox_Ok row d u d' :
  add_inbox row d = Ok (u, d') →
  d' = add_message_row row d ∧ ∀ m, m ∈ inbox_messages d → inbox_conflict row m = false.
Proof.
  unfold add_inbox. intros R. apply bind_Ok in R as (c & d1 & [-> ->]%gets_Ok & R).
  destruct (existsb _ _) eqn:E; run1 R. split; [done|]. intros m Hm.
  destruct (inbox_conflict row m) eqn:Ec; [|done].
  assert (existsb (inbox_conflict row) (inbox_messages d) = true); [|congruence].
  apply existsb_exists. exists m. split; [by apply list_elem_of_In|done].
Qed.

Lemma next_sequence_last sid d : next_sequence_no sid d = last_number (messages_of sid d) + 1.
Proof. done. Qed.

(** The message row and the task row of a new command. *)
Lemma receive_new_Ok ctx c ten ssid sid now d r d' :
  receive_new ctx c ten ssid sid now d = Ok (r, d') →
  ∃ d1 sp d3 iid,
    same_core d d1
    ∧ let row := new_inbox_row iid c ten sid (next_sequence_no sid d) in
      let d2 := add_message_row row d1 in
    (∀ m, m ∈ inbox_messages d → inbox_conflict row m = false)
    ∧ sp ∈ spaces d2 ∧ sp_id sp = sid
    ∧ (same_core d2 d3 ∨ ∃ t, (∀ t', t' ∈ tasks d2 → t_id t' ≠ t_id t) ∧ t_space_id t = sid ∧ fresh_row t
        ∧ same_core (add_task_row t d2) d3
        ∧ (∀ (P : Prop) rows, next_sequence_no sid d - 1 <= last_number rows →
            0 <= last_number rows → gate_ok P rows sp t))
    ∧ (if String.eqb (c_task_type c) "ingest" then d' = d3
       else ∃ u, advance_watermarks_in_session sp now d3 = Ok (u, d')).
Proof.
  unfold receive_new. intros R.
  apply bind_Ok in R as (n & d0 & [-> ->]%gets_Ok & R).
  apply bind_Ok in R as (iid & d1 & R1 & R). apply new_id_core in R1 as Hc1.
  apply bind_Ok in R as (u & d2 & R2 & R). apply add_inbox_Ok in R2 as [-> Hno].
  apply bind_Ok in R as (sp & d3 & R2 & R). apply select_space_Ok in R2 as (-> & Hsp & Hid).
  apply bind_Ok in R as ([tid b] & d3 & R2 & R).
  apply bind_Ok in R as (v & d4 & R3 & R). run1 R.
  exists d1, sp, d3, iid. split; [done|]. cbn zeta.
  split_and!; [by destruct Hc1 as (_ & <- & _)|done|done| |].
  - apply enqueue_task_in_session_Ok in R2 as [[_ Hc]|(_ & p & Hp & Hnew & Hc)];
      [by left|right].
    match type of Hc with same_core (add_task_row ?t _) _ => exists t end.
    split; [exact Hnew|]. split_and!; [done|done|exact Hc|].
    intros P rows Hle H0. destruct Hp as [Hp1 Hp2]. simpl in Hp1, Hp2.
    eapply received_gate; [apply (task_consistency_level (c_task_type c) (c_task_payload c))
      | |exact Hp1|exact Hp2|done]. lia.
  - revert R3. destruct (String.eqb (c_task_type c) _); intros R3; [by run1 R3|eauto].
Qed.

Lemma receive_new_carries ctx c ten ssid sid now d r d' :
  sid ∈ map sp_id (spaces d) →
  receive_new ctx c ten ssid sid now d = Ok (r, d') → carries None None d d'.
Proof.
  intros Hsid R Hi.
  apply receive_new_Ok in R as (d1 & sp & d3 & iid & Hc1 & Hno & Hsp & Hid & Htask & Hend).
  set (row := new_inbox_row iid c ten sid (next_sequence_no sid d)) in *.
  pose proof (inv_core _ _ _ Hc1 Hi) as Hi1.
  assert (m_sequence_no row = last_number (messages_of (m_space_id row) d1) + 1) as Hseq.
  { simpl. rewrite next_sequence_last. unfold messages_of. by destruct Hc1 as (_ & -> & _). }
  destruct (inv_add_message row d1) as [Hi2 Hi2']; [| |exact Hseq| |exact Hi1|].
  { intros m Hm. destruct Hc1 as (_ & Hm1 & _). rewrite Hm1 in Hm. specialize (Hno m Hm).
    unfold inbox_conflict in Hno. bools. tauto. }
  { by destruct Hc1 as (-> & _ & _). }
  { intros l. subst row. unfold new_inbox_row.
    destruct (String.eqb _ _), l; by apply py_in_true. }
  assert (carries None None d d1) as Hd1 by by apply carries_core.
  assert (∀ x, inv x (add_message_row row d1) → inv x d3 ∧ grown (add_message_row row d1) d3)
    as Hd3.
  { intros x Hx. destruct Htask as [Hc|(t & Hnew & Ht & Hfresh & Hc & Hg)];
      [by apply (carries_core x)|].
    revert Hx. eapply carries_trans; [|by apply (carries_core x)].
    apply (carries_add_task x sp); [exact Hnew|exact Hsp|congruence|exact Hfresh|]. apply Hg.
    - rewrite Hid, messages_of_add. simpl. rewrite String.eqb_refl.
      pose proof (last_number_ge (messages_of sid d1 ++ [row])%list row).
      simpl in H0. rewrite <- H0; [lia|]. apply elem_of_app. right. by left.
    - apply last_number_nonneg. exact (inv_numbered _ _ _ Hi2). }
  assert (grown d (add_message_row row d1)) as Hg2.
  { eapply grown_trans; [exact Hi1|by apply Hd1|by apply grown_add_message]. }
  destruct (String.eqb (c_task_type c) "ingest") eqn:Ei.
  - subst d'. destruct (Hd3 None) as [? Hg3].
    + apply Hi2'. intros l. unfold settled. subst row. unfold new_inbox_row. rewrite Ei.
      destruct l; by apply py_in_false.
    + split; [done|]. eapply grown_trans; [exact Hi2|exact Hg2|exact Hg3].
  - destruct Hend as [u Hadv]. destruct (Hd3 (Some sid) Hi2) as [Hi3 Hg3].
    apply advance_watermarks_carries in Hadv.
    + rewrite Hid in Hadv. destruct (Hadv Hi3) as [? Hg4]. split; [done|].
      eapply grown_trans; [exact Hi3| |exact Hg4].
      eapply grown_trans; [exact Hi2|exact Hg2|exact Hg3].
    + destruct Htask as [(-> & _ & _)|(t & _ & _ & _ & (-> & _ & _) & _)]; exact Hsp.
Qed.

Lemma receive_command_carries ctx c now d r d' :
  receive_command ctx c now d = (Ok r, d') → carries None None d d'.
Proof.
  intros R%transaction_Ok. apply bind_Ok in R as (sid & d1 & R1 & R).
  apply ensure_tenant_space_Ok in R1 as [(Hc1 & _) Hsid]. etrans; [exact Hc1|].
  apply bind_Ok in R as (rows & d2 & [-> ->]%gets_Ok & R).
  apply bind_Ok in R as (o & d2 & [_ ->]%lift_result_Ok & R).
  destruct o as [m|]; [|by eapply receive_new_carries].
  apply bind_Ok in R as (l & d2 & [-> ->]%gets_Ok & R).
  apply bind_Ok in R as (t & d2 & [_ ->]%lift_result_Ok & R). run1 R. reflexivity.
Qed.

(** ** Settling a stage *)

Lemma settle_matures st error now m sp :
  matures m (settle st error now (m, sp)).1
  ∧ sp_id (settle st error now (m, sp)).2 = sp_id sp
  ∧ ∀ l, watermark l (settle st error now (m, sp)).2 = watermark l sp.
Proof.
  assert (∀ (f : inbox_message * space → inbox_message * space) ms,
    matures m ms.1 ∧ sp_id ms.2 = sp_id sp ∧ (∀ l, watermark l ms.2 = watermark l sp) →
    (matures ms.1 (f ms).1 ∧ sp_id (f ms).2 = sp_id ms.2
      ∧ ∀ l, watermark l (f ms).2 = watermark l ms.2) →
    matures m (f ms).1 ∧ sp_id (f ms).2 = sp_id sp
      ∧ ∀ l, watermark l (f ms).2 = watermark l sp) as Hcomp.
  { intros f ms (? & ? & Hw) (? & ? & Hw'). split_and!; [by etrans|congruence|].
    intros l. by rewrite Hw', Hw. }
  assert (∀ b : bool, (if b then "completed" else "failed") ∈ SETTLED) as Hst.
  { intros []; by apply py_in_true. }
  unfold settle. apply Hcomp; [apply Hcomp; [apply Hcomp; [done|]|]|].
  - unfold settle_note. destruct (note st); [|done]. simpl. split_and!; [|by destruct (success st)|].
    + split_and!; [done..|]. intros []; [right; apply Hst|by left].
    + intros []; by destruct (success st).
  - unfold settle_memory. destruct (memory st); [|done]. simpl.
    split_and!; [|by destruct (success st)|].
    + split_and!; [done..|]. intros []; [by left|right; apply Hst].
    + intros []; by destruct (success st).
  - set (ms := settle_memory _ _ _ _). clearbody ms. destruct ms as [m0 s0].
    unfold finalize_message. destruct (_ && _); [|done].
    destruct (success st); simpl; [by split_and!; [split_and!; [done..|intros []; by left]| |intros []]|].
    unfold fail_pending. simpl.
    destruct (String.eqb (m_note_status m0) "pending"); simpl;
      destruct (String.eqb (m_memory_status m0) "pending"); simpl;
      (split_and!; [split_and!; [done..|]|done|by intros []]);
      intros []; first [by left|right; exact (Hst false)].
Qed.

Lemma complete_inbox_stage_Ok iid st error now d u d' :
  complete_inbox_stage_in_session iid st error now d = Ok (u, d') →
  ∃ m sp d1, m ∈ inbox_messages d ∧ m_id m = iid ∧ sp ∈ spaces d ∧ sp_id sp = m_space_id m
    ∧ let ms := settle st error now (m, sp) in
      d1 = update_spaces (λ s, String.eqb (sp_id s) (sp_id ms.2)) (λ _, ms.2)
             (update_inbox (λ r, String.eqb (m_id r) (m_id ms.1)) (λ _, ms.1) d)
      ∧ advance_watermarks_in_session ms.2 now d1 = Ok (u, d').
Proof.
  unfold complete_inbox_stage_in_session, save_inbox, save_space. intros R.
  apply bind_Ok in R as (o & d1 & R1 & R). apply select_inbox_Ok in R1 as [-> Hm].
  destruct o as [m|]; [|run1 R]. destruct (Hm m eq_refl) as [Hin Hid].
  apply bind_Ok in R as (sp & d1 & R1 & R). apply select_space_Ok in R1 as (-> & Hsp & Hsid).
  apply bind_Ok in R as (v & d1 & ->%modify_Ok & R).
  apply bind_Ok in R as (w & d2 & ->%modify_Ok & R).
  do 3 eexists. split_and!; [exact Hin|done|exact Hsp|done|reflexivity|exact R].
Qed.

Lemma complete_inbox_stage_carries iid st error now :
  sat (carries None None) (complete_inbox_stage_in_session iid st error now).
Proof.
  intros d u d' R.
  apply complete_inbox_stage_Ok in R as (m & sp & d1 & Hm & _ & Hsp & Hsid & -> & R).
  destruct (settle_matures st error now m sp) as (Hmat & Hid & Hw).
  set (ms := settle st error now (m, sp)) in *.
  eapply carries_trans; [apply (carries_enter (m_space_id m))|].
  eapply carries_trans; [by apply carries_save_inbox|].
  eapply carries_trans; [by apply (carries_save_space _ sp ms.2)|].
  rewrite <- Hsid, <- Hid. eapply advance_watermarks_carries; [|exact R].
  simpl. apply elem_of_update. exists sp. split; [done|].
  rewrite Hid. by rewrite String.eqb_refl.
Qed.

(** ** Skipping *)

Lemma skip_row_matures final now m : matures m (skip_row final now m).
Proof. split_and!; [done..|]. intros []; right; by apply py_in_true. Qed.

Lemma cancel_root_evolves mid why now t :
  cancellable_root mid t = true →
  evolves t (t <| t_status := "cancelled" |> <| t_completed_at := Some now |>
               <| t_last_error := Some why |>).
Proof.
  intros Hc. unfold cancellable_root in Hc. bools. destruct Hc as [_ Hst].
  apply evolves_step; try done; simpl; [by left|by left|].
  repeat (apply elem_of_cons in Hst as [->|Hst]; [by apply py_in_false|]).
  by apply not_elem_of_nil in Hst.
Qed.

Lemma skip_carries iid final cancel now : sat (carries None None) (skip_in_session iid final cancel now).
Proof.
  intros d b d' R. unfold skip_in_session, save_inbox, cancel_root_tasks in R.
  apply bind_Ok in R as (o & d1 & R1 & R). apply select_inbox_Ok in R1 as [-> Hm].
  destruct o as [m|]; [|run1 R; reflexivity]. destruct (Hm m eq_refl) as [Hin _].
  apply bind_Ok in R as (sp & d1 & R1 & R). apply select_space_Ok in R1 as (-> & Hsp & Hsid).
  apply bind_Ok in R as (v & d1 & ->%modify_Ok & R).
  apply bind_Ok in R as (w & d2 & R2 & R).
  apply bind_Ok in R as (w' & d3 & R3 & R). run1 R.
  eapply carries_trans; [apply (carries_enter (m_space_id m))|].
  eapply carries_trans; [by eapply carries_save_inbox, skip_row_matures|].
  set (d1 := update_inbox _ _ d) in *.
  assert (carries (Some (m_space_id m)) (Some (m_space_id m)) d1 d2 ∧ spaces d2 = spaces d1)
    as [Hc Hs].
  { destruct cancel; run1 R2; [|split; [reflexivity|done]]. split; [|done].
    apply carries_update_tasks. intros t _ Hc. split; [by eapply cancel_root_evolves|by left]. }
  eapply carries_trans; [exact Hc|]. rewrite <- Hsid.
  eapply advance_watermarks_carries; [|exact R3]. by rewrite Hs.
Qed.

(** ** Claims *)

Lemma attempts_core p f d : same_core d (update_attempts p f d).
Proof. done. Qed.
Lemma finish_attempt_core tid n st et es now : sat same_core (finish_attempt tid n st et es now).
Proof. unfold finish_attempt. sat_auto; apply attempts_core. Qed.
Lemma expire_attempts_core t now : sat same_core (expire_attempts t now).
Proof. unfold expire_attempts. sat_auto; apply attempts_core. Qed.
Lemma record_attempt_core t w now : sat same_core (record_attempt t w now).
Proof. unfold record_attempt. sat_auto; done. Qed.

Lemma claimable_status tid now stale t :
  claimable tid now stale t = true → t_id t = tid ∧ t_status t ∉ UNCLAIMABLE.
Proof. unfold claimable. bools. tauto. Qed.

Lemma claim_in_session_Ok tid w secs now d o d' :
  claim_in_session tid w secs now d = Ok (o, d') →
  (o = None ∧ same_core d d')
  ∨ (∃ t tok d1, t ∈ tasks d ∧ claimable tid now (now - seconds (Z.max 1 secs)) t = true
     ∧ let row := claim_row w tok (now + seconds (Z.max 1 secs)) now t in
       o = Some (Claim row (t_status t) (t_claimed_by t) (t_lease_expires_at t))
       ∧ same_core d d1
       ∧ same_core (update_tasks (λ r, String.eqb (t_id r) (t_id row)) (λ _, row) d1) d').
Proof.
  unfold claim_in_session, save_task. intros R.
  apply bind_Ok in R as (tok & d1 & R1 & R). apply draw_uuid_core in R1.
  apply bind_Ok in R as (rows & d2 & [-> ->]%gets_Ok & R).
  apply bind_Ok in R as (c & d2 & [Hc ->]%lift_result_Ok & R).
  destruct c as [t|]; [right|run1 R; by left].
  apply scalar_one_or_none_Some, select_singleton in Hc as [Hin Hclaim].
  apply bind_Ok in R as (u & d2 & R2 & R). apply expire_attempts_core in R2.
  apply bind_Ok in R as (v & d3 & ->%modify_Ok & R).
  apply bind_Ok in R as (v' & d4 & R4 & R). apply record_attempt_core in R4. run1 R.
  exists t, tok, d2. split_and!; [|done|done|by etrans|done].
  by destruct R1 as (_ & _ & <-).
Qed.

Lemma claim_carries tid w secs now : sat (carries None None) (claim_in_session tid w secs now).
Proof.
  intros d o d' R. apply claim_in_session_Ok in R
    as [[_ Hc]|(t & tok & d1 & Ht & Hclaim & _ & Hc1 & Hc2)]; [by apply carries_core|].
  apply claimable_status in Hclaim as [_ Hst].
  eapply carries_trans; [by apply carries_core|].
  eapply carries_trans; [|by apply carries_core].
  apply (carries_save_task _ t); [by destruct Hc1 as (_ & _ & ->)| |].
  { split; try done; simpl; [lia|lia|split; [lia|by left]|lia|]. intros Hin. destruct Hst.
    unfold UNCLAIMABLE. by right. }
  right. split; [|done]. unfold UNCLAIMABLE in Hst. intros Hin. apply Hst.
  apply elem_of_cons in Hin as [->|Hin]; [by left|]. apply elem_of_cons in Hin as [->|Hin].
  - by right; left.
  - by apply not_elem_of_nil in Hin.
Qed.

Lemma running_moves s s' : s = "running" → s' ≠ "blocked" → moves s s'.
Proof. intros -> Hs. right. split; [|done]. by apply py_in_false. Qed.

Lemma running_evolves t t' :
  t_status t = "running" → same_gate t t' →
  t_task_type t' = t_task_type t ∧ t_tenant_id t' = t_tenant_id t
    ∧ t_idempotency_key t' = t_idempotency_key t ∧ t_max_attempts t' = t_max_attempts t →
  t_claim_version t' = t_claim_version t → t_attempt_count t' = t_attempt_count t →
  t_failure_count t' = t_failure_count t ∨ (t_failure_count t <= t_failure_count t' ∧ within_budget t') →
  t_status t' ≠ "running" ∨ t_lease_token t' = t_lease_token t → evolves t t'.
Proof.
  intros Hst ????? Hr. apply evolves_step; try done; [tauto|].
  rewrite Hst. by apply py_in_false.
Qed.

Lemma holds_claim_status tid tok v t :
  holds_claim tid tok v t = true → t_id t = tid ∧ t_status t = "running"
    ∧ t_lease_token t = Some tok ∧ t_claim_version t = v.
Proof. unfold holds_claim. bools. tauto. Qed.

Lemma owns_holds tid tok v now t :
  owns tid tok v now t = true → holds_claim tid tok v t = true
    ∧ ∃ l, t_lease_expires_at t = Some l ∧ now < l.
Proof.
  unfold owns. destruct (t_lease_expires_at t) as [l|]; bools; [|by intros []].
  intros [? ?]. eauto.
Qed.

Lemma owned_Ok tid tok v now d o d' :
  owned_running_task tid tok v now d = Ok (o, d') →
  d' = d ∧ ∀ t, o = Some t → t ∈ tasks d ∧ owns tid tok v now t = true.
Proof.
  unfold owned_running_task. intros R. apply bind_Ok in R as (rows & d1 & [-> ->]%gets_Ok & R).
  apply lift_result_Ok in R as [R ->]. split; [done|]. intros t ->.
  by apply scalar_one_or_none_Some, select_singleton in R.
Qed.

Lemma renew_carries tid tok v secs now d b d' :
  renew_task_lease tid tok v secs now d = (Ok b, d') → carries None None d d'.
Proof.
  intros R%transaction_Ok.
  apply bind_Ok in R as (rows & d1 & [-> ->]%gets_Ok & R).
  apply bind_Ok in R as (u & d1 & ->%modify_Ok & R).
  apply bind_Ok in R as (o & d2 & [_ ->]%lift_result_Ok & R). run1 R.
  apply carries_update_tasks. intros t _ (_ & Hst & _)%holds_claim_status.
  split; [|apply running_moves; [done|simpl; by rewrite Hst]].
  apply running_evolves; try done; simpl; [by left|by right].
Qed.

Lemma defer_carries tid why dl tok v now : sat (carries None None) (defer_in_session tid why dl tok v now).
Proof.
  intros d b d' R. unfold defer_in_session, save_task in R.
  apply bind_Ok in R as (o & d1 & R1 & R). apply owned_Ok in R1 as [-> Hown].
  destruct o as [t|]; [|run1 R; reflexivity].
  destruct (Hown t eq_refl) as [Hin [(_ & Hst & _)%holds_claim_status _]%owns_holds].
  apply bind_Ok in R as (u & d1 & ->%modify_Ok & R).
  apply bind_Ok in R as (w & d2 & R2%finish_attempt_core & R). run1 R.
  eapply carries_trans; [|by apply carries_core].
  apply (carries_save_task _ t); [done| |by apply running_moves].
  by apply running_evolves; try done; left.
Qed.

Lemma blocked_cancelled t s : s = "cancelled" → moves (t_status t) s.
Proof. by left. Qed.

Lemma release_barrier_carries t err now : sat (carries None None) (release_barrier t err now).
Proof.
  unfold release_barrier, cancel_blocked_dependents, mark_inbox_memory_completed_in_session,
    finalize_inbox_in_session.
  sat_auto; auto using complete_inbox_stage_carries.
  apply carries_update_tasks. intros r _ Hb. split; [|by left].
  unfold blocked_dependent in Hb. bools. destruct Hb as [Hst _].
  apply evolves_step; try done; simpl; [by left|by left|]. rewrite Hst. by apply py_in_false.
Qed.

Lemma fail_evolves err dl now t : t_status t = "running" → evolves t (fail_row err dl now t).
Proof.
  intros Hst. apply running_evolves; try done; simpl.
  - right. split; [lia|]. unfold within_budget. simpl.
    destruct (Z.leb_spec (t_max_attempts t) (t_failure_count t + 1)); [by right|left; lia].
  - left. by destruct (_ <=? _).
Qed.

Lemma fail_carries tid err dl tok v now : sat (carries None None) (fail_in_session tid err dl tok v now).
Proof.
  intros d b d' R. unfold fail_in_session, save_task in R.
  apply bind_Ok in R as (o & d1 & R1 & R). apply owned_Ok in R1 as [-> Hown].
  destruct o as [t|]; [|run1 R; reflexivity].
  destruct (Hown t eq_refl) as [Hin [(_ & Hst & _)%holds_claim_status _]%owns_holds].
  apply bind_Ok in R as (u & d1 & ->%modify_Ok & R).
  apply bind_Ok in R as (w & d2 & R2%finish_attempt_core & R).
  apply bind_Ok in R as (w' & d3 & R3 & R). run1 R.
  etrans; [apply (carries_save_task _ t (fail_row err dl now t)); [done|..]|].
  { by apply fail_evolves. }
  { apply running_moves; [done|]. simpl. by destruct (_ <=? _). }
  etrans; [by apply carries_core|].
  destruct (String.eqb _ _); [by eapply release_barrier_carries|]. run1 R3. reflexivity.
Qed.

Lemma requeue_loop now rows : ∀ d u d',
  (∀ t, t ∈ rows → t_status t = "retry") →
  NoDup (map t_id rows) → (∀ t, t ∈ rows → t ∈ tasks d) →
  for_each rows (requeue now) d = Ok (u, d') → carries None None d d'.
Proof.
  induction rows as [|t rows IH]; intros d u d' Hst Hnd Hin R; simpl in R;
    [run1 R; reflexivity|].
  apply bind_Ok in R as (v & d1 & R1 & R). unfold requeue, save_task in R1.
  apply bind_Ok in R1 as (i & d2 & R2%new_id_core & R1).
  apply bind_Ok in R1 as (w & d3 & R3%add_task_event_core & R1). run1 R1.
  assert (same_core d d3) as Hc by (by etrans).
  simpl in Hnd. apply NoDup_cons in Hnd as [Hfresh Hnd].
  etrans; [by apply carries_core|]. etrans.
  { apply (carries_save_task _ t (activate_row t)).
    - destruct Hc as (_ & _ & ->). apply Hin. by left.
    - apply evolves_step; try done; simpl; [by left|by left|]. rewrite Hst by (by left).
      by apply py_in_false.
    - right. split; [rewrite Hst by (by left); by apply py_in_false|done]. }
  eapply IH; [|done| |exact R].
  - intros r Hr. apply Hst. by right.
  - intros r Hr. apply elem_of_update. exists r. destruct Hc as (_ & _ & ->).
    split; [apply Hin; by right|].
    destruct (String.eqb_spec (t_id r) (t_id (activate_row t))) as [Hk|]; [|done].
    destruct Hfresh. change (t_id t) with (t_id (activate_row t)). rewrite <- Hk.
    by apply elem_of_map_in.
Qed.

Lemma due_retries_carries lim ids now : sat (carries None None) (due_retries_in_session lim ids now).
Proof.
  intros d n d' R Hi. unfold due_retries_in_session in R.
  apply bind_Ok in R as (rows & d1 & [-> ->]%gets_Ok & R).
  apply bind_Ok in R as (u & d2 & R2 & R). run1 R.
  assert (∀ t, t ∈ take (Z.to_nat (Z.max 1 lim)) (sort_by retry_before
    (select_where (retry_due now ids) (tasks d))) → t ∈ tasks d ∧ t_status t = "retry") as Hin.
  { intros t Ht. apply in_take in Ht.
    apply elem_of_sort_by, elem_of_select in Ht as [? Hdue]. split; [done|].
    unfold retry_due in Hdue. bools. tauto. }
  eapply requeue_loop; [| | |exact R2|exact Hi].
  - intros t Ht. by apply Hin.
  - apply NoDup_map_take. rewrite sort_by_Permutation. apply NoDup_select, Hi.
  - intros t Ht. by apply Hin.
Qed.
End operations.
