(* ===== verification/Completion.v ===== *)
(** [_complete_task_with_inbox_outcome] completes a task, updates the stages of its
    inbox message, advances the watermarks and activates the blocked tasks in one
    SQL statement.  [complete_inbox_stage_in_session] does the same row by row.  On
    the tables of the invariant the two agree. *)

From stdpp Require Import base list strings gmap.
From Stdlib Require Import ZArith Lia.
From S2P Require Import Prelude Schema Consistency Dispatch Stages Tasks Watermark.
From S2P Require Import Invariant Runs Operations.

Open Scope string_scope.
Open Scope Z_scope.

(** The flags of the statement as the flags of the row-by-row code. *)
Definition stage_of_flags (fl : inbox_flags) : stage :=
  Stage (note_completed fl) (memory_completed fl) (finalize_inbox fl) true.

Lemma settle_message_complete fl now m sp :
  (settle (stage_of_flags fl) None now (m, sp)).1 = complete_inbox_row fl now m.
Proof.
  destruct fl as [[] [] []], m as [????????????s ?????];
    unfold settle, finalize_message, settle_memory, settle_note, complete_inbox_row; simpl;
    try done; by destruct (py_in s _).
Qed.

Lemma settle_space_complete fl now m sp :
  (settle (stage_of_flags fl) None now (m, sp)).2
  = if finalize_inbox fl && negb (py_in (m_status m) ["processed"; "failed"])
    then sp <| sp_processed_sequence_no := Z.max (sp_processed_sequence_no sp) (m_sequence_no m) |>
    else sp.
Proof.
  destruct fl as [[] [] []], m as [????????????s ?????];
    unfold settle, finalize_message, settle_memory, settle_note; simpl;
    try done; by destruct (py_in s _).
Qed.

(** The row of the space that the statement writes is the row that the row-by-row
    code writes: bump [processed_sequence_no], then advance on the updated rows. *)
Definition bumped (fl : inbox_flags) (m : inbox_message) (sp : space) : space :=
  sp <| sp_processed_sequence_no :=
    if finalize_inbox fl then Z.max (sp_processed_sequence_no sp) (m_sequence_no m)
    else sp_processed_sequence_no sp |>.

Lemma replace_row_messages (m m' : inbox_message) d sid :
  NoDup (map m_id (inbox_messages d)) → m ∈ inbox_messages d → matures m m' →
  messages_of sid (update_inbox (λ r, String.eqb (m_id r) (m_id m)) (λ _, m') d)
  = map (λ c, if String.eqb (m_id c) (m_id m')
              then m' <| m_sequence_no := m_sequence_no c |> else c) (messages_of sid d).
Proof.
  intros Hnd Hm Hmat. pose proof Hmat as (Hid & Hs & Hq & _).
  assert (∀ r, r ∈ inbox_messages d → String.eqb (m_id r) (m_id m) = true → r = m) as Hu.
  { intros r Hr Hk%String.eqb_eq. by apply (key_unique m_id (inbox_messages d)). }
  rewrite messages_of_update.
  2:{ intros r Hr Hk. by rewrite (Hu r Hr Hk). }
  unfold update_where. apply map_ext_in. intros r [Hr _]%list_elem_of_In%elem_of_messages_of.
  rewrite Hid. destruct (String.eqb (m_id r) (m_id m)) eqn:E; [|done].
  rewrite (Hu r Hr E), <- Hq. by destruct m'.
Qed.

Lemma progress_is_advance fl now m sp d :
  NoDup (map m_id (inbox_messages d)) → m ∈ inbox_messages d →
  let m' := complete_inbox_row fl now m in
  progress_space_row fl m' d sp
  = advance_row (bumped fl m sp)
      (messages_of (sp_id sp) (update_inbox (λ r, String.eqb (m_id r) (m_id m)) (λ _, m') d)).
Proof.
  intros Hnd Hm m'.
  assert (matures m m') as Hmat.
  { pose proof (settle_matures (stage_of_flags fl) None now m sp) as [Hmat _].
    by rewrite settle_message_complete in Hmat. }
  rewrite (replace_row_messages m m') by done.
  unfold progress_space_row, advance_row.
  rewrite (progress_watermark_advanced NoteLevel), (progress_watermark_advanced MemoryLevel).
  done.
Qed.

(** On tasks that the invariant admits, the two WHERE clauses agree. *)
Lemma sql_ready_agrees x d sp t :
  inv x d → t ∈ tasks d → sql_ready_task sp t = ready_task sp t.
Proof.
  intros Hi Ht. unfold sql_ready_task, ready_task.
  destruct (String.eqb_spec (t_status t) "blocked") as [Hst|]; [|by rewrite !andb_false_r].
  f_equal. destruct (inv_gates _ _ Hi t Ht) as (s & _ & _ & [Hb _]).
  destruct (Hb Hst) as (l & r & Hr & _). by destruct (requirement_ready t l r sp Hr) as [-> ->].
Qed.

Section completion.
Context `{Platform}.

(** The statement, as updates of the three tables. *)
Definition statement_core (completed : task) (m : inbox_message) (sp : space)
    (fl : inbox_flags) (now : Z) (d : db) : db :=
  let m' := complete_inbox_row fl now m in
  let sp1 := bumped fl m sp in
  advance_space sp1
    (update_spaces (λ s, String.eqb (sp_id s) (sp_id sp1)) (λ _, sp1)
      (update_inbox (λ r, String.eqb (m_id r) (m_id m')) (λ _, m')
        (update_tasks (λ r, String.eqb (t_id r) (t_id completed))
           (complete_row now) d))).

Lemma update_where_last {A} (key : A → string) (l : list A) k x y :
  key y = k →
  update_where (λ r, String.eqb (key r) k) (λ _, x)
    (update_where (λ r, String.eqb (key r) k) (λ _, y) l)
  = update_where (λ r, String.eqb (key r) k) (λ _, x) l.
Proof.
  intros <-. unfold update_where. rewrite map_map. apply map_ext. intros r.
  destruct (String.eqb (key r) (key y)) eqn:E; [by rewrite String.eqb_refl|by rewrite E].
Qed.

Lemma statement_core_ok t m fl now d :
  inv None d → t ∈ tasks d → t_status t = "running" → m ∈ inbox_messages d →
  ∃ sp, sp ∈ spaces d ∧ sp_id sp = m_space_id m
    ∧ same_core (statement_core t m sp fl now d) (inbox_outcome_statement t m fl now d).
Proof.
  intros Hi Ht Hst Hm. unfold inbox_outcome_statement.
  destruct (inv_messages _ _ Hi m Hm) as [_ Hsid].
  destruct (List.find _ (spaces d)) as [sp|] eqn:Ef.
  2:{ apply elem_of_map in Hsid as (sp & Hid & Hsp%list_elem_of_In).
      apply (find_none _ _ Ef) in Hsp. bools. congruence. }
  apply find_some in Ef as [Hsp%list_elem_of_In Hid%String.eqb_eq].
  exists sp. split_and!; [done|done|].
  unfold statement_core, advance_space, same_core. cbn zeta.
  rewrite (progress_is_advance fl now m sp d) by (done || apply Hi).
  split_and!.
  - simpl. rewrite (update_where_last sp_id); [done|]. done.
  - done.
  - simpl. symmetry. apply update_where_ext; [|done].
    intros r' (r & Hr & ->)%elem_of_update.
    destruct (String.eqb_spec (t_id r) (t_id t)) as [Hk|Hk].
    + assert (r = t) as -> by (apply (key_unique t_id (tasks d)); [apply Hi|done..]).
      unfold ready_task, sql_ready_task. simpl. by rewrite !andb_false_r.
    + symmetry. by apply (sql_ready_agrees None d).
Qed.

Lemma statement_carries t m fl now d :
  t ∈ tasks d → t_status t = "running" → m ∈ inbox_messages d →
  carries None None d (inbox_outcome_statement t m fl now d).
Proof.
  intros Ht Hst Hm Hi.
  destruct (statement_core_ok t m fl now d Hi Ht Hst Hm) as (sp & Hsp & Hid & Hcore).
  revert Hi. eapply carries_trans; [|apply carries_core, Hcore]. unfold statement_core. cbn zeta.
  pose proof (settle_matures (stage_of_flags fl) None now m sp) as [Hmat _].
  rewrite settle_message_complete in Hmat.
  eapply carries_trans; [apply (carries_update_task_row None t (complete_row now)); [done|..]|].
  { by apply running_evolves; try done; left. }
  { by apply running_moves. }
  eapply carries_trans; [apply (carries_enter (m_space_id m))|].
  eapply carries_trans; [by apply (carries_save_inbox m (complete_inbox_row fl now m))|].
  eapply carries_trans; [apply (carries_save_space _ sp (bumped fl m sp)); [done|done|by intros []]|].
  rewrite <- Hid. apply (carries_advance (bumped fl m sp)).
  apply elem_of_update. exists sp. split; [done|]. by rewrite String.eqb_refl.
Qed.

(** ** [complete_task] *)

Lemma complete_outcome_Ok tid tok v iid fl now d b d' :
  complete_task_with_inbox_outcome tid tok v iid fl now d = Ok (b, d') →
  (b = false ∧ d' = d)
  ∨ (b = true ∧ ∃ m t, m ∈ inbox_messages d ∧ m_id m = iid ∧ t ∈ tasks d
     ∧ completable tid tok v now m t = true ∧ d' = inbox_outcome_statement t m fl now d).
Proof.
  unfold complete_task_with_inbox_outcome. intros R.
  apply bind_Ok in R as (ms & d1 & [-> ->]%gets_Ok & R).
  destruct (select_where _ (inbox_messages d)) as [|m ms] eqn:E; [run1 R; by left|].
  assert (m ∈ select_where (λ m, String.eqb (m_id m) iid) (inbox_messages d)) as Hm
    by (rewrite E; by left).
  apply elem_of_select in Hm as [Hm Hid%String.eqb_eq].
  apply bind_Ok in R as (rows & d1 & [-> ->]%gets_Ok & R).
  apply bind_Ok in R as (o & d1 & [Ho ->]%lift_result_Ok & R).
  destruct o as [t|]; [|run1 R; by left].
  apply scalar_one_or_none_Some, select_singleton in Ho as [Ht Hc].
  apply bind_Ok in R as (u & d1 & ->%modify_Ok & R). run1 R. right. split; [done|].
  exists m, t. done.
Qed.

Lemma completable_owns tid tok v now m t :
  completable tid tok v now m t = true →
  owns tid tok v now t = true ∧ t_tenant_id t = m_tenant_id m ∧ t_space_id t = m_space_id m.
Proof. unfold completable. bools. tauto. Qed.

Lemma complete_plain_Ok tid tok v now d b d' :
  complete_plain tid tok v now d = Ok (b, d') →
  (b = false ∧ d' = d)
  ∨ (b = true ∧ ∃ t, t ∈ tasks d ∧ owns tid tok v now t = true
     ∧ same_core (update_tasks (λ r, String.eqb (t_id r) (t_id t)) (complete_row now) d) d').
Proof.
  unfold complete_plain. intros R.
  apply bind_Ok in R as (rows & d1 & [-> ->]%gets_Ok & R).
  apply bind_Ok in R as (o & d1 & [Ho ->]%lift_result_Ok & R).
  destruct o as [t|]; [|run1 R; by left].
  apply scalar_one_or_none_Some, select_singleton in Ho as [Ht Hc].
  apply bind_Ok in R as (u & d1 & ->%modify_Ok & R).
  apply bind_Ok in R as (w & d2 & R2%finish_attempt_core & R). run1 R. right.
  split; [done|]. exists t. done.
Qed.

Lemma owns_running tid tok v now t : owns tid tok v now t = true → t_status t = "running".
Proof. by intros [(_ & ? & _)%holds_claim_status _]%owns_holds. Qed.

(** No handler asks to activate a task by id. *)
Lemma complete_carries tid tok v o now :
  truthy (activate_task_id o) = false → sat (carries None None) (complete_in_session tid tok v o now).
Proof.
  intros Hact d b d' R. unfold complete_in_session in R.
  destruct (inbox_outcome o) as [[iid fl]|] eqn:Eo.
  - apply complete_outcome_Ok in R as [[_ ->]|(_ & m & t & Hm & _ & Ht & Hc & ->)]; [reflexivity|].
    apply completable_owns in Hc as [Hc%owns_running _]. by apply statement_carries.
  - assert (existsb truthy (outcomes o) = false) as Hnone.
    { unfold outcomes. simpl. rewrite Hact. unfold inbox_outcome in Eo.
      by repeat case_match. }
    rewrite Hnone in R. simpl in R.
    apply complete_plain_Ok in R as [[_ ->]|(_ & t & Ht & Hc%owns_running & Hcore)];
      [reflexivity|].
    eapply carries_trans; [|by apply carries_core].
    apply (carries_update_task_row None t (complete_row now)); [done| |by apply running_moves].
    by apply running_evolves; try done; left.
Qed.

(** ** The statement and the row-by-row code *)

(** Nothing below touches the attempts. *)
Definition same_attempts (d d' : db) : Prop := task_attempts d' = task_attempts d.
#[local] Instance same_attempts_preorder : PreOrder same_attempts.
Proof. unfold same_attempts. split; [done|]. intros ???. congruence. Qed.

Lemma new_id_attempts p : sat same_attempts (new_id p).
Proof. unfold new_id, draw_uuid. sat_auto; done. Qed.
Lemma add_task_event_attempts i rq now : sat same_attempts (add_task_event i rq now).
Proof. unfold add_task_event. sat_auto; done. Qed.
Lemma activate_attempts now t : sat same_attempts (activate_and_publish now t).
Proof.
  unfold activate_and_publish, save_task, publish_task_request, get_task.
  sat_auto; auto using new_id_attempts, add_task_event_attempts. done.
Qed.
Lemma advance_attempts sp now : sat same_attempts (advance_watermarks_in_session sp now).
Proof.
  unfold advance_watermarks_in_session, activate_ready_tasks_in_session, save_space.
  sat_auto; auto using activate_attempts. done.
Qed.

Lemma orm_branch o iid fl now :
  several_outcomes o = false → inbox_outcome o = Some (iid, fl) → iid ≠ "" →
  (if truthy (activate_task_id o)
   then activate_task_in_session (default "" (activate_task_id o)) now;; mret tt
   else if truthy (note_ready_inbox_id o)
   then complete_inbox_stage_in_session (default "" (note_ready_inbox_id o))
          (Stage true false false true) None now
   else if truthy (memory_ready_inbox_id o)
   then complete_inbox_stage_in_session (default "" (memory_ready_inbox_id o))
          (Stage false true true true) None now
   else if truthy (ingest_complete_inbox_id o)
   then complete_inbox_stage_in_session (default "" (ingest_complete_inbox_id o))
          (Stage true true true true) None now
   else if truthy (release_inbox_id o)
   then complete_inbox_stage_in_session (default "" (release_inbox_id o))
          (Stage false false true true) None now
   else mret tt)
  = complete_inbox_stage_in_session iid (stage_of_flags fl) None now.
Proof.
  destruct o as [[r|] [a|] [n|] [m|] [i|]]; try done; simpl; intros _ [= <- <-] Hne;
    by rewrite (proj2 (String.eqb_neq _ "") Hne).
Qed.

Lemma complete_attempt_same (tid : string) n now d :
  task_attempts (update_attempts (λ a, String.eqb (a_task_id a) tid && (a_attempt_no a =? n))
    (λ a, a <| a_status := "completed" |> <| a_finished_at := Some now |>) d)
  = task_attempts (update_attempts (λ a, String.eqb (a_task_id a) tid && (a_attempt_no a =? n))
    (λ a, a <| a_status := "completed" |> <| a_finished_at := Some now |>
            <| a_error_type := a_error_type a |> <| a_error_summary := a_error_summary a |>) d).
Proof. simpl. apply update_where_ext; [done|]. by intros [] _ _. Qed.

Lemma statement_attempts t m fl now d :
  task_attempts (inbox_outcome_statement t m fl now d)
  = task_attempts (update_attempts (λ a, String.eqb (a_task_id a) (t_id t)
      && (a_attempt_no a =? t_attempt_count t))
    (λ a, a <| a_status := "completed" |> <| a_finished_at := Some now |>) d).
Proof. unfold inbox_outcome_statement. by destruct (List.find _ _). Qed.

Lemma complete_orm_Ok tid tok v o iid fl now d b d' :
  several_outcomes o = false → inbox_outcome o = Some (iid, fl) → iid ≠ "" →
  complete_with_orm tid tok v o now d = Ok (b, d') →
  (b = false ∧ d' = d) ∨ ∃ t, b = true ∧ t ∈ tasks d ∧ owns tid tok v now t = true ∧
    let d1 := update_attempts (λ a, String.eqb (a_task_id a) tid
        && (a_attempt_no a =? t_attempt_count t))
        (λ a, a <| a_status := "completed" |> <| a_finished_at := Some now |>
            <| a_error_type := a_error_type a |> <| a_error_summary := a_error_summary a |>)
        (update_tasks (λ r, String.eqb (t_id r) (t_id t)) (λ _, complete_row now t) d) in
    ∃ u, complete_inbox_stage_in_session iid (stage_of_flags fl) None now d1 = Ok (u, d').
Proof.
  intros Hs Ho Hne R. unfold complete_with_orm, save_task, finish_attempt in R.
  apply bind_Ok in R as (row & d1 & R1 & R). apply owned_Ok in R1 as [-> Hown].
  destruct row as [t|]; [right|run1 R; by left]. destruct (Hown t eq_refl) as [Ht Hc].
  apply bind_Ok in R as (u & d1 & ->%modify_Ok & R).
  apply bind_Ok in R as (w & d2 & ->%modify_Ok & R).
  apply bind_Ok in R as (x & d3 & R3 & R). run1 R.
  rewrite (orm_branch o iid fl now Hs Ho Hne) in R3. exists t. split_and!; [done..|].
  cbn zeta. by exists x.
Qed.

Lemma save_completed_row t now d :
  NoDup (map t_id (tasks d)) → t ∈ tasks d →
  update_tasks (λ r, String.eqb (t_id r) (t_id t)) (λ _, complete_row now t) d
  = update_tasks (λ r, String.eqb (t_id r) (t_id t)) (complete_row now) d.
Proof.
  intros Hnd Ht. unfold update_tasks. erewrite update_where_ext; [done|done|]. intros r Hr Hk%String.eqb_eq.
  by assert (r = t) as -> by (by apply (key_unique t_id (tasks d))).
Qed.

Lemma bumped_settled fl now m sp :
  (finalize_inbox fl = true → m_status m ∉ ["processed"; "failed"]) →
  (settle (stage_of_flags fl) None now (m, sp)).2 = bumped fl m sp.
Proof.
  intros Hf. rewrite settle_space_complete. unfold bumped.
  destruct (finalize_inbox fl); simpl; [|by destruct sp].
  rewrite (proj2 (py_in_false _ _)) by auto. done.
Qed.

(** The statement runs whenever the claim is held and the message is the task's. *)
Lemma complete_outcome_run tid tok v fl now m t d :
  inv None d → m ∈ inbox_messages d → t ∈ tasks d → completable tid tok v now m t = true →
  complete_task_with_inbox_outcome tid tok v (m_id m) fl now d
  = Ok (true, inbox_outcome_statement t m fl now d).
Proof.
  intros Hi Hm Ht Hc. unfold complete_task_with_inbox_outcome.
  unfold mbind, M_bind, gets at 1.
  rewrite (select_key_unique m_id (inbox_messages d) m).
  2:{ apply Hi. } 2:{ done. } 2:{ apply String.eqb_refl. } 2:{ intros y _. by bools. }
  unfold gets. rewrite (select_key_unique t_id (tasks d) t); [done|apply Hi|done|done|].
  intros y _ [[(Hy & _)%holds_claim_status _]%owns_holds _]%completable_owns.
  by apply completable_owns in Hc as [[(-> & _)%holds_claim_status _]%owns_holds _].
Qed.

Lemma same_core_between a b x y : same_core a x → same_core b y → same_core a b → same_core x y.
Proof. intros (?&?&?) (?&?&?) (?&?&?). unfold same_core. split_and!; congruence. Qed.

(** The row-by-row completion and the statement, from the same state. *)
Lemma completions_agree tid tok v o iid fl now d dO bS dS :
  inv None d → several_outcomes o = false → inbox_outcome o = Some (iid, fl) → iid ≠ "" →
  (∀ t m, t ∈ tasks d → t_id t = tid → m ∈ inbox_messages d → m_id m = iid →
     t_tenant_id t = m_tenant_id m ∧ t_space_id t = m_space_id m
     ∧ (finalize_inbox fl = true → m_status m ∉ ["processed"; "failed"])) →
  complete_with_orm tid tok v o now d = Ok (true, dO) →
  complete_in_session tid tok v o now d = Ok (bS, dS) →
  bS = true ∧ same_core dO dS ∧ task_attempts dS = task_attempts dO.
Proof.
  intros Hi Hs Ho Hne Hown RO RS. unfold complete_in_session in RS. rewrite Ho in RS.
  apply (complete_orm_Ok _ _ _ _ iid fl) in RO as [[? _]|(t & _ & Ht & Hc & u & RO)]; [done|..|done|done|done].
  pose proof Hc as [(Htid & Hst & _)%holds_claim_status _]%owns_holds.
  cbn zeta in RO. rewrite save_completed_row in RO by (done || apply Hi).
  set (d1 := update_attempts _ _ _) in RO.
  apply complete_inbox_stage_Ok in RO as (m & sp & d2 & Hm & Hmid & Hsp & Hsid & Hd2 & RO).
  destruct (Hown t m) as (Hten & Hspace & Hfin); [done..|].
  rewrite bumped_settled in Hd2, RO by done. rewrite settle_message_complete in Hd2.
  rewrite <- Hmid, (complete_outcome_run tid tok v fl now m t) in RS; [|done..|].
  2:{ unfold completable. rewrite Hc, Hten, Hspace, !String.eqb_refl. done. }
  injection RS as <- <-.
  split; [done|]. pose proof RO as RA%advance_attempts.
  apply advance_watermarks_Ok in RO; [|subst d2; simpl; rewrite update_column; [apply Hi|done]].
  split.
  - destruct (statement_core_ok t m fl now d Hi Ht Hst Hm) as (sp' & Hsp' & Hsid' & Hcore).
    assert (sp' = sp) as -> by (apply (key_unique sp_id (spaces d)); [apply Hi|done|done|congruence]).
    eapply same_core_between; [exact RO|exact Hcore|]. subst d2. done.
  - rewrite statement_attempts, complete_attempt_same, RA. subst d2 d1 tid. done.
Qed.
End completion.
