(* ===== verification/Pipeline.v ===== *)
(** The pipeline as a transition system: the operations that receivers, workers
    and schedulers run against the database, the states they can reach, and what
    holds in all of them. *)

From stdpp Require Import base list strings gmap relations.
From Stdlib Require Import ZArith Lia.
From S2P Require Import Prelude Schema Consistency Dispatch Stages Tasks Watermark.
From S2P Require Import Invariant Runs Operations Completion Outbox.

Open Scope string_scope.
Open Scope Z_scope.

(** One transaction of the pipeline, with its arguments and its instant. *)
Inductive op :=
  | Receive (context : list (string * string)) (c : command) (now : Z)
  | Enqueue (context : list (string * string)) (a : task_args) (now : Z)
  | ClaimTask (task_id worker_id : string) (stale_after_seconds now : Z)
  | Renew (task_id lease_token : string) (claim_version lease_seconds now : Z)
  | Complete (task_id lease_token : string) (claim_version : Z) (o : outcome) (now : Z)
  | Fail_ (task_id error : string) (delay : Z) (lease_token : string) (claim_version now : Z)
  | Defer (task_id reason : string) (delay : Z) (lease_token : string) (claim_version now : Z)
  | EnqueueRetries (limit : Z) (task_ids : option (list string)) (now : Z)
  | Skip (inbox_id final_status : string) (cancel_root_task : bool) (now : Z)
  | MarkProcessed (inbox_id : string) (now : Z)
  | MarkFailed (inbox_id error : string) (now : Z)
  | ClaimEvents (worker_id : string) (limit : Z) (event_ids : option (list string))
      (lease_seconds now : Z)
  | EventPublished (event_id lease_token : string) (now : Z)
  | EventFailed (event_id lease_token error : string) (now : Z).

Section pipeline.
Context `{Platform}.

Definition exec (o : op) (d : db) : db :=
  match o with
  | Receive ctx c now => (receive_command ctx c now d).2
  | Enqueue ctx a now => (enqueue_task ctx a now d).2
  | ClaimTask tid w secs now => (claim_task tid w secs now d).2
  | Renew tid tok v secs now => (renew_task_lease tid tok v secs now d).2
  | Complete tid tok v o now => (complete_task tid tok v o now d).2
  | Fail_ tid err dl tok v now => (fail_task tid err dl tok v now d).2
  | Defer tid why dl tok v now => (defer_task tid why dl tok v now d).2
  | EnqueueRetries lim ids now => (enqueue_due_retries lim ids now d).2
  | Skip iid final cancel now => (skip_inbox_record iid final cancel now d).2
  | MarkProcessed iid now => (mark_inbox_processed iid now d).2
  | MarkFailed iid err now => (mark_inbox_failed iid err now d).2
  | ClaimEvents w lim ids secs now => (claim_outbox_batch w lim ids secs now d).2
  | EventPublished eid tok now => (mark_outbox_published eid tok now d).2
  | EventFailed eid tok err now => (mark_outbox_failed eid tok err now d).2
  end.

(** The calls the program makes: a follow-up task is created queued and published,
    without a barrier of its own, and no handler asks to activate a task by its id. *)
Definition legal (o : op) : bool :=
  match o with
  | Enqueue _ a _ => String.eqb (ta_initial_status a) "queued" && ta_publish a
      && bool_decide (pl_consistency (ta_payload a) = None)
  | Complete _ _ _ o _ => negb (truthy (activate_task_id o))
  | _ => true
  end.

Inductive step (d : db) : db → Prop :=
  | step_exec o : legal o = true → step d (exec o d).

Definition reachable (d : db) : Prop := rtc step empty_db d.

Lemma reachable_run ops : forallb legal ops = true → reachable (foldl (λ d o, exec o d) empty_db ops).
Proof.
  unfold reachable. generalize empty_db as d. induction ops as [|o ops IH]; intros d Hl; [constructor|].
  simpl in *. apply andb_true_iff in Hl as [Ho Hl].
  eapply rtc_l; [by apply step_exec|]. by apply IH.
Qed.

(** A transaction that raises leaves the database as it was. *)
Lemma transaction_carries {A} (m : session A) d :
  sat (carries None None) m → carries None None d (transaction m d).2.
Proof. intros Hm. apply sat_transaction; [apply _|done]. Qed.

Lemma result_carries {A} (r : result A * db) d :
  (∀ a d', r = (Ok a, d') → carries None None d d') →
  (∀ e d', r = (Raise e, d') → d' = d) → carries None None d r.2.
Proof.
  destruct r as [[a|e] d']; simpl; intros Hok Hr; [by eapply Hok|].
  rewrite (Hr e d'); done.
Qed.

Lemma transaction_Raise {A} (m : session A) d e d' : transaction m d = (Raise e, d') → d' = d.
Proof. unfold transaction. destruct (m d) as [[]|]; by intros [=]. Qed.

Lemma sat_core_carries {A} (m : session A) : sat same_core m → sat (carries None None) m.
Proof. intros Hm d a d' R. apply carries_core. exact (Hm _ _ _ R). Qed.

Lemma exec_carries o d : legal o = true → carries None None d (exec o d).
Proof.
  destruct o; simpl; intros Hl.
  - apply result_carries; [intros; by eapply receive_command_carries|].
    intros e d'. apply transaction_Raise.
  - bools. apply result_carries; [|intros e d'; apply transaction_Raise].
    intros r d' R. eapply enqueue_task_carries; [|exact R]. split; [|tauto].
    by destruct Hl as [[-> _] _].
  - apply transaction_carries, claim_carries.
  - apply result_carries; [intros; by eapply renew_carries|intros e d'; apply transaction_Raise].
  - unfold complete_task. destruct (several_outcomes _); [simpl; reflexivity|].
    apply transaction_carries, complete_carries. by apply negb_true_iff.
  - apply transaction_carries, fail_carries.
  - apply transaction_carries, defer_carries.
  - apply transaction_carries, due_retries_carries.
  - apply transaction_carries, skip_carries.
  - apply transaction_carries. unfold finalize_inbox_in_session. sat_auto.
    apply complete_inbox_stage_carries.
  - apply transaction_carries. unfold finalize_inbox_in_session. sat_auto.
    apply complete_inbox_stage_carries.
  - apply transaction_carries, sat_core_carries. unfold claim_batch_in_session, claim_one, save_event.
    sat_auto; [apply draw_uuid_core|done].
  - apply transaction_carries, sat_core_carries. sat_auto. done.
  - apply transaction_carries, sat_core_carries. unfold save_event. sat_auto. done.
Qed.

Lemma inv_empty : inv None empty_db.
Proof.
  split; simpl; try apply NoDup_nil_2; try done; intros *; by intros ?%not_elem_of_nil.
Qed.

Lemma reachable_inv d : reachable d → inv None d.
Proof.
  unfold reachable. intros Hr. pose proof inv_empty as Hi. revert Hi.
  induction Hr as [|d1 d2 d3 [o Ho] _ IH]; [done|]. intros Hi.
  apply IH. by apply exec_carries.
Qed.

Lemma step_grown d d' : reachable d → step d d' → inv None d' ∧ grown d d'.
Proof. intros Hr [o Ho]. apply exec_carries; [done|by apply reachable_inv]. Qed.

Lemma settled_below d sp l m :
  inv None d → sp ∈ spaces d → m ∈ inbox_messages d → m_space_id m = sp_id sp →
  m_sequence_no m <= watermark l sp → settled l m.
Proof.
  intros Hi Hsp Hm Hs Hle. destruct (inv_spaces _ _ Hi sp Hsp l) as [[_ Hset] _].
  apply Hset; [|done]. by apply elem_of_messages_of.
Qed.

(** C1: the causal barrier.  Whenever a worker obtains a task that was created
    under a barrier, every earlier message of its space that the barrier names has
    already settled the stage the task waits for. *)
Theorem claimed_task_sees_settled_messages d tid w secs now c d' l r m :
  reachable d →
  claim_task tid w secs now d = (Ok (Some c), d') →
  requirement (cl_task c) = Some (l, r) →
  m ∈ inbox_messages d' → m_space_id m = t_space_id (cl_task c) → m_sequence_no m <= r →
  settled l m.
Proof.
  intros Hd%reachable_inv R%transaction_Ok Hreq Hm Hs Hle.
  destruct (claim_carries _ _ _ _ _ _ _ R Hd) as [Hi _].
  apply claim_in_session_Ok in R as [[? _]|(t & tok & d1 & Ht & _ & [= ->] & Hc1 & Hc)];
    [done|]. set (row := claim_row _ _ _ _ _) in *. simpl in Hreq, Hs.
  assert (row ∈ tasks d') as Hrow.
  { destruct Hc as (_ & _ & ->). apply elem_of_update. exists t. simpl.
    rewrite String.eqb_refl. split; [|done]. by destruct Hc1 as (_ & _ & ->). }
  destruct (inv_gates _ _ Hi row Hrow) as (sp & Hsp & Hid & _ & Hg).
  eapply settled_below; [done|exact Hsp|done|by rewrite Hid|].
  etrans; [exact Hle|]. apply Hg; [by apply py_in_false|done].
Qed.



(** A watermark can only rise, because the messages it counts only mature. *)
Lemma spec_grown d d' l sid :
  inv None d → inv None d' → grown d d' →
  watermark_spec l (messages_of sid d) <= watermark_spec l (messages_of sid d').
Proof.
  intros Hi Hi' Hg. apply sound_le_spec.
  destruct (spec_sound l _ (inv_numbered _ _ sid Hi)) as [Hb Hset].
  pose proof (grown_last d d' sid Hg (inv_numbered _ _ sid Hi')). split; [lia|].
  intros m' [Hm' Hs]%elem_of_messages_of Hle.
  destruct (grown_new _ _ Hg m' Hm') as [(m & Hm & Hmat)|Hlt].
  - pose proof Hmat as (_ & Hs' & Hq & _). eapply matures_settled; [exact Hmat|].
    apply Hset; [apply elem_of_messages_of; by rewrite <- Hs'|lia].
  - rewrite Hs in Hlt. lia.
Qed.

(** No step of the program moves a watermark back, reopens a settled stage of a
    message, or loses a message. *)
Theorem progress_is_monotone d d' :
  reachable d → step d d' →
  (∀ sp, sp ∈ spaces d → ∃ sp', sp' ∈ spaces d' ∧ sp_id sp' = sp_id sp
     ∧ ∀ l, watermark l sp <= watermark l sp')
  ∧ (∀ m, m ∈ inbox_messages d → ∃ m', m' ∈ inbox_messages d' ∧ matures m m').
Proof.
  intros Hr Hstep. destruct (step_grown d d' Hr Hstep) as [Hi' Hg].
  apply reachable_inv in Hr as Hi. split; [|apply Hg]. intros sp Hsp.
  pose proof (elem_of_map_in sp_id _ _ Hsp) as (sp' & Hid & Hsp')%(grown_spaces _ _ Hg)%elem_of_map.
  exists sp'. split_and!; [done..|]. intros l.
  destruct (inv_spaces _ _ Hi sp Hsp l) as [_ ->]; [|done].
  destruct (inv_spaces _ _ Hi' sp' Hsp' l) as [_ ->]; [|done].
  rewrite Hid. by apply spec_grown.
Qed.

(** The messages of a space are numbered 1, 2, 3, ... in the order in which they
    were received, without gaps or repetitions. *)
Theorem sequence_numbers_gapless d sid :
  reachable d →
  map m_sequence_no (messages_of sid d) = seqZ 1 (Z.of_nat (length (messages_of sid d))).
Proof. intros Hi%reachable_inv. apply (inv_gapless _ _ Hi). Qed.
End pipeline.

(** * A concrete run *)

(** A note arrives, then a question about a preference, which has to wait for the
    memory of the note; the note is ingested; the question is released and claimed. *)
Definition message (id task_type text : string) (at_ : Z) : command :=
  Command "feishu" id None "" "chat" (Some "oc_1") (Some "p2p") [] text at_ task_type
    (empty_payload <| pl_rest := {["question" := text]} |>) "normal" 5.

Definition note_message : command := message "om_1" "ingest" "buy milk" 0.
Definition question : command := message "om_2" "query" "what do i like?" 10.

Definition demo_complete : op :=
  Complete "task_1" "5" 1 (TaskOutcome None None None None (Some "inbox_0")) 30.
Definition demo_blocked : list op := [
  Receive [] note_message 0;
  Receive [] question 10;
  ClaimTask "task_1" "w1" 60 20].
Definition demo : list op := (demo_blocked ++ [demo_complete])%list.

Definition run `{Platform} (ops : list op) : db := foldl (λ d o, exec o d) empty_db ops.

(** Rows of a concrete state, found by evaluation. *)
Definition row_shows (t : task) (tid status : string) (lease : option Z) : bool :=
  String.eqb (t_id t) tid && String.eqb (t_status t) status
  && bool_decide (t_lease_expires_at t = lease).

Lemma row_shows_true t tid status lease :
  row_shows t tid status lease = true →
  t_id t = tid ∧ t_status t = status ∧ t_lease_expires_at t = lease.
Proof. unfold row_shows. bools. tauto. Qed.

Lemma row_exists {A} (p : A → bool) l : existsb p l = true → ∃ x, x ∈ l ∧ p x = true.
Proof. intros (x & Hx & Hp)%existsb_exists. exists x. by rewrite list_elem_of_In. Qed.

Section witnesses.
#[local] Existing Instance test_platform.

Lemma demo_reachable : reachable (run demo).
Proof. by apply (reachable_run demo). Qed.

Lemma demo_blocked_reachable : reachable (run demo_blocked).
Proof. by apply (reachable_run demo_blocked). Qed.

Lemma claimed_task_sees_settled_messages_witness :
  match claim_task "task_4" "w2" 60 40 (run demo) with
  | (Ok (Some c), d') => requirement (cl_task c) = Some (MemoryLevel, 1)
      ∧ ∀ m, m ∈ inbox_messages d' → m_space_id m = "chat" → m_sequence_no m <= 1 →
          settled MemoryLevel m
  | _ => False
  end.
Proof.
  destruct (claim_task "task_4" "w2" 60 40 (run demo)) as [[[c|]|e] d'] eqn:E;
    [|vm_compute in E; discriminate E..].
  assert (requirement (cl_task c) = Some (MemoryLevel, 1)
    ∧ t_space_id (cl_task c) = "chat") as [Hreq Hspace].
  { vm_compute in E. injection E as <- _. split; reflexivity. }
  split; [exact Hreq|]. intros m Hm Hs Hle.
  apply (claimed_task_sees_settled_messages _ _ _ _ _ _ _ _ _ m demo_reachable E Hreq Hm);
    [by rewrite Hspace|exact Hle].
Defined.



Lemma progress_is_monotone_witness :
  ∃ m m', m ∈ inbox_messages (run demo_blocked) ∧ m_id m = "inbox_0"
    ∧ m' ∈ inbox_messages (exec demo_complete (run demo_blocked)) ∧ matures m m'.
Proof.
  destruct (row_exists (λ m, String.eqb (m_id m) "inbox_0") (inbox_messages (run demo_blocked)))
    as (m & Hm & Hid%String.eqb_eq); [vm_compute; reflexivity|].
  destruct (progress_is_monotone _ _ demo_blocked_reachable (step_exec _ demo_complete eq_refl))
    as [_ Hkept].
  destruct (Hkept m Hm) as (m' & Hm' & Hmat).
  exists m, m'. split_and!; [exact Hm|exact Hid|exact Hm'|exact Hmat].
Defined.

Lemma sequence_numbers_gapless_witness :
  map m_sequence_no (messages_of "chat" (run demo)) = [1; 2].
Proof. rewrite (sequence_numbers_gapless (run demo) "chat" demo_reachable). vm_compute. reflexivity. Defined.
End witnesses.
