(* ===== verification/Barrier.v ===== *)
(** The barrier of queries on the memories of a space ([memory/consistency.py]): a query polls the
    watermarks until the memories have caught up with the notes, for a bounded time.

    The progress of the space is read from the pipeline, whose states [dbs] are those of the
    moments of the readings. *)

From stdpp Require Import base list strings relations.
From Stdlib Require Import ZArith Lia.
From S2P Require Import Prelude Schema Consistency Dispatch Stages Tasks Watermark Invariant Runs Operations Completion Outbox Pipeline.

Open Scope string_scope.
Open Scope Z_scope.

(** What [get_space_progress] returns of the watermarks: of the notes, and of the memories *)
Definition progress : Type := Z * Z.
(** The reply of [wait_for_memory_barrier] *)
Record barrier_reply := BarrierReply {
  br_status : string;
  br_reason : option string;
  br_waited_ms : Z;
  br_watermarks : option progress;
}.

Section barrier.
(** The readings of [monotonic_fn], in microseconds; the first is [started]. *)
Variable clock : nat → Z.
(** The readings of [progress_loader] *)
Variable load : nat → option progress.
Variable poll_interval : Z.

Definition ready (p : progress) : bool := p.1 <=? p.2.
(** [int((monotonic_fn() - started) * 1000)] at the n-th reading *)
Definition elapsed_ms (n : nat) : Z := Z.quot (clock n - clock 0) 1000.
(** What is asked of [sleep_fn] after the n-th reading *)
Definition sleep_for (timeout : Z) (n : nat) : Z := Z.min (Z.max 1000 poll_interval) ((timeout - elapsed_ms n) * 1000).

(** The loop; [n] is the number of sleeps so far, and [None] stands for a loop that goes on. *)
Fixpoint wait_loop (fuel : nat) (timeout : Z) (n : nat) (latest : progress) : option barrier_reply :=
  if ready latest then Some (BarrierReply "ready" None (elapsed_ms (S n)) (Some latest))
  else if timeout - elapsed_ms (S n) <=? 0
  then Some (BarrierReply "timeout" (Some "memory_watermark_lagging") (Z.min timeout (elapsed_ms (S n))) (Some latest))
  else match fuel with
       | O => None
       | S fuel =>
           match load (S n) with
           | None => Some (BarrierReply "skipped" (Some "space_not_found") (elapsed_ms (S (S n))) None)
           | Some refreshed => wait_loop fuel timeout (S n) refreshed
           end
       end.

Definition skipped (reason : string) : barrier_reply := BarrierReply "skipped" (Some reason) 0 None.
Definition bounded_timeout (timeout_ms : option Z) (setting : Z) : Z := Z.max 0 (Z.min (default setting timeout_ms) 5000).
Definition wait_for_memory_barrier (fuel : nat) (enabled : bool) (backend : string) (timeout_ms : option Z) (setting : Z) :
    option barrier_reply :=
  if negb enabled then Some (skipped "feature_disabled")
  else if negb (String.eqb backend "postgres") then Some (skipped "non_postgres_backend")
  else match load 0 with
       | None => Some (skipped "space_not_found")
       | Some latest => wait_loop fuel (bounded_timeout timeout_ms setting) 0 latest
       end.

(** ** The loop ends *)

(** A sleep lasts at least as long as asked: the documented behaviour of [time.sleep] and of the
    monotonic clock, whose first two readings may coincide. *)
Definition sleeps_last (timeout : Z) : Prop :=
  clock 0 <= clock 1 ∧ ∀ n, elapsed_ms (S n) < timeout → clock (S n) + sleep_for timeout (S n) <= clock (S (S n)).

Lemma elapsed_div n : clock 0 <= clock n → elapsed_ms n = (clock n - clock 0) / 1000.
Proof. intros Hn. apply Z.quot_div_nonneg; lia. Qed.
Lemma elapsed_grows timeout n : sleeps_last timeout → clock 0 <= clock (S n) → elapsed_ms (S n) < timeout →
  elapsed_ms (S n) + 1 <= elapsed_ms (S (S n)) ∧ clock 0 <= clock (S (S n)).
Proof.
  intros [_ Hs] H0 Hlt. specialize (Hs n Hlt). unfold sleep_for in Hs.
  assert (clock (S n) + 1000 <= clock (S (S n))) as Hstep by lia. split; [|lia].
  rewrite !elapsed_div by lia. rewrite <- Z.div_add by lia. apply Z.div_le_mono; lia.
Qed.

Lemma loop_ends timeout fuel n latest : sleeps_last timeout → clock 0 <= clock (S n) →
  timeout <= Z.of_nat fuel + elapsed_ms (S n) → is_Some (wait_loop fuel timeout n latest).
Proof.
  intros Hs. revert n latest. induction fuel as [|fuel IH]; intros n latest H0 Hf; simpl; (destruct (ready latest); [by eexists|]).
  - destruct (Z.leb_spec (timeout - elapsed_ms (S n)) 0); [by eexists|lia].
  - destruct (Z.leb_spec (timeout - elapsed_ms (S n)) 0); [by eexists|].
    destruct (elapsed_grows timeout n Hs H0) as [Hg H0']; [lia|].
    destruct (load (S n)); [|by eexists]. apply IH; [done|]. lia.
Qed.

Lemma loop_timeout timeout fuel n latest r : wait_loop fuel timeout n latest = Some r → br_status r = "timeout" →
  br_waited_ms r = timeout ∧ br_watermarks r ≠ None.
Proof.
  revert n latest. induction fuel as [|fuel IH]; intros n latest; simpl; (destruct (ready latest); [by intros [= <-]|]);
    (destruct (Z.leb_spec (timeout - elapsed_ms (S n)) 0); [intros [= <-] _; simpl; split; [lia|done]|]); [done|].
  destruct (load (S n)); [apply IH|by intros [= <-]].
Qed.

(** Waiting ends: whatever the database answers, and as long as a sleep lasts as long as asked, the barrier returns within five thousand sleeps; when it gives up it has waited for exactly the bounded timeout, and reports the watermarks it saw. *)
Theorem barrier_ends enabled backend timeout_ms setting : sleeps_last (bounded_timeout timeout_ms setting) →
  ∃ r, wait_for_memory_barrier 5000 enabled backend timeout_ms setting = Some r
  ∧ (br_status r = "timeout" → br_waited_ms r = bounded_timeout timeout_ms setting ∧ br_watermarks r ≠ None).
Proof.
  intros Hs. unfold wait_for_memory_barrier. destruct (negb enabled); [by eexists|]. destruct (negb _); [by eexists|].
  destruct (load 0) as [latest|]; [|by eexists].
  destruct (loop_ends (bounded_timeout timeout_ms setting) 5000 0 latest Hs) as [r Hr]; [apply Hs| |].
  - rewrite elapsed_div by apply Hs. pose proof (Z.div_pos (clock 1 - clock 0) 1000). destruct Hs as [H0 _]. unfold bounded_timeout. lia.
  - exists r. split; [done|]. by eapply loop_timeout.
Qed.

(** The loop is ready with the watermarks of one of its readings. *)
Lemma loop_ready timeout fuel n latest r : load n = Some latest → wait_loop fuel timeout n latest = Some r → br_status r = "ready" →
  ∃ k p, load k = Some p ∧ br_watermarks r = Some p ∧ p.1 <= p.2.
Proof.
  revert n latest. induction fuel as [|fuel IH]; intros n latest Hl; simpl;
    (destruct (ready latest) eqn:E; [intros [= <-] _; exists n, latest; split_and!; [done..|]; by apply Z.leb_le in E|]);
    (destruct (_ <=? 0); [by intros [= <-]|]); [done|].
  destruct (load (S n)) as [p|] eqn:E'; [by apply IH|by intros [= <-]].
Qed.
End barrier.

(** * What a query sees *)

Section queries.
Context `{Platform}.
Variable space_id : string.
(** The states of the pipeline at the readings *)
Variable dbs : nat → db.

Definition progress_loader (n : nat) : option progress :=
  option_map (λ p : Z * Z * Z * option Z, (p.1.1.2, p.1.2)) (get_space_progress space_id (dbs n)).

Lemma loaded n p : progress_loader n = Some p → ∃ sp, sp ∈ spaces (dbs n) ∧ sp_id sp = space_id
  ∧ p = (watermark NoteLevel sp, watermark MemoryLevel sp).
Proof.
  unfold progress_loader, get_space_progress. destruct (List.find _ _) as [sp|] eqn:E; [|done]. intros [= <-].
  apply List.find_some in E as [Hin Hid%String.eqb_eq]. exists sp. by rewrite list_elem_of_In.
Qed.

Lemma settled_stays d d' l m : reachable d → rtc step d d' → m ∈ inbox_messages d → settled l m →
  ∃ m', m' ∈ inbox_messages d' ∧ m_id m' = m_id m ∧ settled l m'.
Proof.
  intros Hr Hs. revert m Hr. induction Hs as [d|d d1 d2 Hstep _ IH]; intros m Hr Hm Hset; [eauto|].
  destruct (progress_is_monotone d d1 Hr Hstep) as [_ Hmat]. destruct (Hmat m Hm) as (m1 & Hm1 & Hmat1).
  destruct (IH m1) as (m2 & Hm2 & Hid & Hset2); [by eapply rtc_r|done|by eapply matures_settled|].
  exists m2. split_and!; [done| |done]. rewrite Hid. by destruct Hmat1.
Qed.

(** C34: A query that passes the barrier sees the memories of the notes it can see: when the barrier answers ready, at one of its readings every message of the space up to the reported watermark of the notes had its memory stage settled, and so it stays in every later state. *)
Theorem ready_query_sees_memories clock fuel enabled backend timeout_ms setting r :
  (∀ n, reachable (dbs n)) →
  wait_for_memory_barrier clock progress_loader fuel enabled backend timeout_ms setting = Some r →
  br_status r = "ready" →
  ∃ n notes memories, br_watermarks r = Some (notes, memories) ∧ notes <= memories
  ∧ ∀ m d', m ∈ inbox_messages (dbs n) → m_space_id m = space_id → m_sequence_no m <= notes → rtc step (dbs n) d' →
      ∃ m', m' ∈ inbox_messages d' ∧ m_id m' = m_id m ∧ settled MemoryLevel m'.
Proof.
  intros Hreach. unfold wait_for_memory_barrier. destruct (negb enabled); [by intros [= <-]|]. destruct (negb _); [by intros [= <-]|].
  destruct (progress_loader 0) as [latest|] eqn:E0; [|by intros [= <-]]. intros Hw Hr.
  destruct (loop_ready _ _ _ _ _ _ _ E0 Hw Hr) as (n & p & Hp & Hrep & Hle).
  destruct (loaded n p Hp) as (sp & Hsp & Hid & ->). exists n, (watermark NoteLevel sp), (watermark MemoryLevel sp).
  split_and!; [done..|]. intros m d' Hm Hs Hn Hsteps. eapply settled_stays; [apply Hreach|exact Hsteps|done|].
  eapply settled_below; [by apply reachable_inv, Hreach|exact Hsp|done|by rewrite Hid|]. etrans; [exact Hn|exact Hle].
Qed.
End queries.

(** * A concrete wait *)

Module Example.
#[local] Existing Instance test_platform.

(** The run in which the note of the first message is ingested *)
Definition states (n : nat) : db := run demo.
Definition ticks (n : nat) : Z := Z.of_nat n * 50000.
(** A space whose memories stay behind *)
Definition lagging (n : nat) : option progress := Some (2, 1).

Example waits :
  map (λ load, option_map br_status (wait_for_memory_barrier ticks load 5000 true "postgres" (Some 100) 800))
    [progress_loader "chat" states; lagging; λ _, None] = [Some "ready"; Some "timeout"; Some "skipped"].
Proof. vm_compute. reflexivity. Qed.

Lemma ticks_last : sleeps_last ticks 50000 (bounded_timeout (Some 100) 800).
Proof. split; [vm_compute; discriminate|]. intros n _. unfold sleep_for, ticks. lia. Qed.
Lemma barrier_ends_witness :
  bounded_timeout (Some 100) 800 = 100
  ∧ ∃ r, wait_for_memory_barrier ticks lagging 5000 true "postgres" (Some 100) 800 = Some r.
Proof.
  split; [reflexivity|].
  destruct (barrier_ends ticks lagging 50000 true "postgres" (Some 100) 800 ticks_last) as (r & Hr & _). by exists r.
Defined.

Lemma states_reachable n : reachable (states n).
Proof. apply demo_reachable. Qed.
Definition answer : barrier_reply :=
  default (skipped "") (wait_for_memory_barrier ticks (progress_loader "chat" states) 5000 true "postgres" None 800).
Lemma answer_is : wait_for_memory_barrier ticks (progress_loader "chat" states) 5000 true "postgres" None 800 = Some answer.
Proof. vm_compute. reflexivity. Qed.
Lemma ready_query_sees_memories_witness :
  br_watermarks answer = Some (2, 2) ∧ ∃ n notes memories, br_watermarks answer = Some (notes, memories) ∧ notes <= memories
    ∧ reachable (states n).
Proof.
  split; [vm_compute; reflexivity|].
  destruct (ready_query_sees_memories "chat" states ticks 5000 true "postgres" None 800 answer states_reachable answer_is)
    as (n & notes & memories & Hw & Hle & _); [vm_compute; reflexivity|].
  exists n, notes, memories. split; [exact Hw|]. split; [exact Hle|]. apply states_reachable.
Defined.
End Example.
