(* ===== verification/Fencing.v ===== *)
(** Leases and fencing: who may change a running task, what a worker that lost its
    claim can still do (nothing), and the log of attempts. *)

From stdpp Require Import base list strings gmap relations.
From Stdlib Require Import ZArith Lia.
From S2P Require Import Prelude Schema Consistency Dispatch Stages Tasks Watermark.
From S2P Require Import Invariant Runs Operations Completion Outbox Pipeline.

Open Scope string_scope.
Open Scope Z_scope.

Section fencing.
Context `{Platform}.

(** ** What a claim that is not held can do *)

(** Every call that carries the claim is turned away and changes nothing. *)
Definition refused (tid tok : string) (v : Z) (d : db) : Prop :=
  (∀ o now, several_outcomes o = false → complete_task tid tok v o now d = (Ok false, d))
  ∧ (∀ err dl now, fail_task tid err dl tok v now d = (Ok "stale", d))
  ∧ (∀ why dl now, defer_task tid why dl tok v now d = (Ok false, d))
  ∧ (∀ secs now, renew_task_lease tid tok v secs now d = (Ok false, d)).

Lemma owned_none tid tok v now d :
  (∀ t, t ∈ tasks d → owns tid tok v now t = false) →
  owned_running_task tid tok v now d = Ok (None, d).
Proof.
  intros Hno. unfold owned_running_task, mbind, M_bind, gets. by rewrite select_empty.
Qed.

Lemma update_none (p : task → bool) f d :
  (∀ t, t ∈ tasks d → p t = false) → update_tasks p f d = d.
Proof. intros Hno. unfold update_tasks. rewrite update_nothing by done. by destruct d. Qed.

Lemma complete_refused tid tok v o now d :
  (∀ t, t ∈ tasks d → owns tid tok v now t = false) →
  complete_in_session tid tok v o now d = Ok (false, d).
Proof.
  intros Hno. unfold complete_in_session. destruct (inbox_outcome o) as [[iid fl]|].
  - unfold complete_task_with_inbox_outcome, mbind, M_bind, gets.
    destruct (select_where _ (inbox_messages d)) as [|m ms]; [done|].
    rewrite (select_empty _ (tasks d)); [done|]. intros t Ht. unfold completable.
    by rewrite Hno, andb_false_r.
  - destruct (negb _).
    + unfold complete_plain, mbind, M_bind, gets. by rewrite select_empty.
    + unfold complete_with_orm. unfold mbind at 1, M_bind at 1. by rewrite owned_none.
Qed.

Lemma not_held_refused tid tok v d :
  (∀ t, t ∈ tasks d → holds_claim tid tok v t = false) → refused tid tok v d.
Proof.
  intros Hno. assert (∀ now t, t ∈ tasks d → owns tid tok v now t = false) as Hown.
  { intros now t Ht. unfold owns. by rewrite Hno. }
  split_and!.
  - intros o now Hs. unfold complete_task, transaction. rewrite Hs, complete_refused; auto.
  - intros. unfold fail_task, transaction, fail_in_session, mbind at 1, M_bind at 1.
    rewrite owned_none; auto.
  - intros. unfold defer_task, transaction, defer_in_session, mbind at 1, M_bind at 1.
    rewrite owned_none; auto.
  - intros. unfold renew_task_lease, transaction, mbind, M_bind, gets, modify.
    rewrite update_none, select_empty by done. done.
Qed.

(** ** Claims that are over *)

(** No version up to [v] runs any more. *)
Definition retired (tid : string) (v : Z) (d : db) : Prop :=
  ∃ t, t ∈ tasks d ∧ t_id t = tid
    ∧ (v < t_claim_version t ∨ (t_claim_version t = v ∧ t_status t ≠ "running")).

Lemma retired_step tid v d d' : inv None d → grown d d' → retired tid v d → retired tid v d'.
Proof.
  intros Hi Hg (t & Ht & Hid & Hv). destruct (grown_tasks _ _ Hg t Ht) as (t' & Ht' & Hev).
  exists t'. split; [done|]. destruct Hev as [(Hid' & _) _ Hver _ _ Hrun _].
  split; [by rewrite Hid'|]. destruct Hv as [|[Hv Hst]]; [left; lia|].
  destruct (decide (t_claim_version t' = t_claim_version t)) as [He|]; [right|left; lia].
  split; [lia|]. intros Hr. by destruct (Hrun He Hr).
Qed.

Lemma retired_forever tid v d d' : inv None d → rtc step d d' → retired tid v d → retired tid v d'.
Proof.
  intros Hi Hsteps. revert Hi. induction Hsteps as [|d1 d2 d3 [o Ho] _ IH]; [done|].
  intros Hi Hr. destruct (exec_carries o d1 Ho Hi) as [Hi' Hg]. apply IH; [done|].
  exact (retired_step tid v d1 _ Hi Hg Hr).
Qed.

Lemma retired_refused tid tok v v' d :
  inv None d → retired tid v d → v' <= v → refused tid tok v' d.
Proof.
  intros Hi (t & Ht & Hid & Hv) Hle. apply not_held_refused. intros r Hr.
  destruct (holds_claim tid tok v' r) eqn:E; [|done].
  apply holds_claim_status in E as (Hrid & Hst & _ & Hver).
  assert (r = t) as -> by (apply (key_unique t_id (tasks d)); [apply Hi|done|done|congruence]).
  destruct Hv as [|[? ?]]; [lia|done].
Qed.

(** The ends of a claim: the task was completed, failed or deferred under it. *)
Inductive finishes (tid tok : string) (v : Z) (d d' : db) : Prop :=
  | by_complete o now : truthy (activate_task_id o) = false →
      complete_task tid tok v o now d = (Ok true, d') → finishes tid tok v d d'
  | by_fail err dl now st :
      fail_task tid err dl tok v now d = (Ok st, d') → st ≠ "stale" → finishes tid tok v d d'
  | by_defer why dl now :
      defer_task tid why dl tok v now d = (Ok true, d') → finishes tid tok v d d'.

Lemma owns_facts tid tok v now t :
  owns tid tok v now t = true → t_id t = tid ∧ t_status t = "running" ∧ t_claim_version t = v.
Proof. intros [(? & ? & _ & ?)%holds_claim_status _]%owns_holds. done. Qed.

Lemma retired_row tid v d t :
  t ∈ tasks d → t_id t = tid → t_claim_version t = v → t_status t ≠ "running" → retired tid v d.
Proof. intros ????. exists t. auto. Qed.

Lemma saved_row t t' d :
  t ∈ tasks d → t_id t' = t_id t →
  t' ∈ tasks (update_tasks (λ r, String.eqb (t_id r) (t_id t')) (λ _, t') d).
Proof.
  intros Ht Hid. apply elem_of_update. exists t. split; [done|].
  by rewrite Hid, String.eqb_refl.
Qed.

Lemma updated_row t f d :
  t ∈ tasks d → f t ∈ tasks (update_tasks (λ r, String.eqb (t_id r) (t_id t)) f d).
Proof. intros Ht. apply elem_of_update. exists t. by rewrite String.eqb_refl. Qed.

Lemma completed_in_statement t m fl now d :
  t ∈ tasks d → complete_row now t ∈ tasks (inbox_outcome_statement t m fl now d).
Proof.
  intros Ht. unfold inbox_outcome_statement. pose proof (updated_row t (complete_row now) d Ht) as Hr.
  destruct (List.find _ _); [|exact Hr]. apply elem_of_update. exists (complete_row now t).
  split; [exact Hr|]. unfold sql_ready_task. simpl. by rewrite andb_false_r.
Qed.

Lemma complete_retires tid tok v o now d d' :
  truthy (activate_task_id o) = false → complete_in_session tid tok v o now d = Ok (true, d') →
  retired tid v d'.
Proof.
  intros Hact R. unfold complete_in_session in R.
  destruct (inbox_outcome o) as [[iid fl]|] eqn:Eo.
  - apply complete_outcome_Ok in R as [[? _]|(_ & m & t & Hm & _ & Ht & Hc & ->)]; [done|].
    apply completable_owns in Hc as [(Hid & Hst & Hv)%owns_facts _].
    eapply retired_row; [by apply completed_in_statement|done..].
  - assert (existsb truthy (outcomes o) = false) as Hnone.
    { unfold outcomes. simpl. rewrite Hact. unfold inbox_outcome in Eo. by repeat case_match. }
    rewrite Hnone in R. simpl in R.
    apply complete_plain_Ok in R as [[? _]|(_ & t & Ht & (Hid & Hst & Hv)%owns_facts & (_ & _ & Hc))];
      [done|].
    eapply retired_row; [rewrite Hc; by apply updated_row|done..].
Qed.

Lemma fail_retires tid err dl tok v now d st d' :
  inv None d → fail_in_session tid err dl tok v now d = Ok (st, d') → st ≠ "stale" → retired tid v d'.
Proof.
  intros Hi R Hst. unfold fail_in_session, save_task in R.
  apply bind_Ok in R as (o & d1 & R1 & R). apply owned_Ok in R1 as [-> Hown].
  destruct o as [t|]; [|run1 R; done].
  destruct (Hown t eq_refl) as [Hin (Hid & Hrun & Hv)%owns_facts].
  apply bind_Ok in R as (u & d1 & ->%modify_Ok & R).
  apply bind_Ok in R as (w & d2 & R2%finish_attempt_core & R).
  apply bind_Ok in R as (w' & d3 & R3 & R). run1 R.
  set (row := fail_row err dl now t) in *.
  assert (t_status row ≠ "running") as Hrow by (simpl; by destruct (_ <=? _)).
  assert (inv None d2) as Hi2.
  { eapply inv_core; [exact R2|]. apply (carries_save_task None t row); [done| | |done].
    - by apply fail_evolves.
    - by apply running_moves; [|simpl; destruct (_ <=? _)]. }
  assert (retired tid v d2) as Hr2.
  { eapply (retired_row _ _ _ row); [|done..]. destruct R2 as (_ & _ & ->).
    by apply (saved_row t). }
  destruct (String.eqb _ _) in R3; [|by run1 R3].
  destruct (release_barrier_carries _ _ _ _ _ _ R3 Hi2) as [_ Hg].
  by eapply retired_step.
Qed.

Lemma defer_retires tid why dl tok v now d d' :
  defer_in_session tid why dl tok v now d = Ok (true, d') → retired tid v d'.
Proof.
  intros R. unfold defer_in_session, save_task in R.
  apply bind_Ok in R as (o & d1 & R1 & R). apply owned_Ok in R1 as [-> Hown].
  destruct o as [t|]; [|run1 R; done].
  destruct (Hown t eq_refl) as [Hin (Hid & Hrun & Hv)%owns_facts].
  apply bind_Ok in R as (u & d1 & ->%modify_Ok & R).
  apply bind_Ok in R as (w & d2 & (_ & _ & R2)%finish_attempt_core & R). run1 R.
  eapply (retired_row _ _ _ (defer_row why dl now t)); [|done..].
  rewrite R2. by apply (saved_row t).
Qed.

Lemma finishes_retires tid tok v d d' :
  inv None d → finishes tid tok v d d' → inv None d' ∧ retired tid v d'.
Proof.
  intros Hi [o now Hact R|err dl now st R Hst|why dl now R].
  - unfold complete_task in R. destruct (several_outcomes o); [done|].
    apply transaction_Ok in R. split; [|by eapply complete_retires].
    by apply (complete_carries _ _ _ _ _ Hact _ _ _ R).
  - apply transaction_Ok in R. split; [|by eapply fail_retires].
    by apply (fail_carries _ _ _ _ _ _ _ _ _ R).
  - apply transaction_Ok in R. split; [|by eapply defer_retires].
    by apply (defer_carries _ _ _ _ _ _ _ _ _ R).
Qed.

(** A claim is good for one outcome.  Once a worker has completed, failed or
    deferred its task, every later call under that claim version, with any token
    and in any later state, is refused and changes nothing. *)
Theorem finished_claim_is_spent d d1 d2 tid tok tok' v :
  reachable d → finishes tid tok v d d1 → rtc step d1 d2 → refused tid tok' v d2.
Proof.
  intros Hi%reachable_inv Hf Hsteps. apply finishes_retires in Hf as [Hi1 Hr]; [|done].
  assert (inv None d2) as Hi2.
  { clear Hr. revert Hi1. induction Hsteps as [|? ? ? [o Ho] _ IH]; [done|].
    intros Hi1. apply IH. by apply exec_carries. }
  eapply retired_refused; [done|exact (retired_forever tid v d1 d2 Hi1 Hsteps Hr)|done].
Qed.

Lemma steps_inv d d' : inv None d → rtc step d d' → inv None d'.
Proof.
  intros Hi Hsteps. revert Hi. induction Hsteps as [|? ? ? [o Ho] _ IH]; [done|].
  intros Hi. apply IH. by apply exec_carries.
Qed.

Lemma steps_evolve d d' t :
  inv None d → rtc step d d' → t ∈ tasks d → ∃ t', t' ∈ tasks d' ∧ evolves t t'.
Proof.
  intros Hi Hsteps. revert Hi t. induction Hsteps as [|d1 ? ? [o Ho] _ IH]; intros Hi t Ht.
  { by exists t. }
  destruct (exec_carries o d1 Ho Hi) as [Hi' Hg].
  destruct (grown_tasks _ _ Hg t Ht) as (t1 & Ht1 & Hev).
  destruct (IH Hi' t1 Ht1) as (t2 & ? & ?). exists t2. split; [done|]. by transitivity t1.
Qed.

(** The row of a claim. *)
Lemma claim_row_stored tid w secs now d c d' :
  claim_in_session tid w secs now d = Ok (Some c, d') →
  ∃ t tok, t ∈ tasks d ∧ claimable tid now (now - seconds (Z.max 1 secs)) t = true
    ∧ cl_task c = claim_row w tok (now + seconds (Z.max 1 secs)) now t ∧ cl_task c ∈ tasks d'.
Proof.
  intros R. apply claim_in_session_Ok in R
    as [[? _]|(t & tok & d1 & Ht & Hc & [= ->] & (_ & _ & Hc1) & (_ & _ & ->))]; [done|].
  exists t, tok. split_and!; [done..|]. simpl cl_task. apply (saved_row t); [by rewrite Hc1|done].
Qed.

(** C4: a new claim fences off every older one.  As soon as a worker claims a task,
    the workers that held it before (an expired lease, a stalled process) are
    refused, now and in every later state. *)
Theorem new_claim_fences_older_claims d tid w secs now c d1 d2 tok v :
  reachable d → claim_task tid w secs now d = (Ok (Some c), d1) → rtc step d1 d2 →
  v < t_claim_version (cl_task c) → refused tid tok v d2.
Proof.
  intros Hi%reachable_inv R%transaction_Ok Hsteps Hv.
  destruct (claim_carries _ _ _ _ _ _ _ R Hi) as [Hi1 _].
  apply claim_row_stored in R as (t & tok0 & Ht & [Hid _]%claimable_status & Hrow & Hin).
  assert (retired tid v d1) as Hr.
  { exists (cl_task c). split_and!; [done|by rewrite Hrow|by left]. }
  eapply retired_refused; [by eapply steps_inv|exact (retired_forever tid v d1 d2 Hi1 Hsteps Hr)|done].
Qed.

(** The claim comes back empty, and leaves the tasks and the attempts as they are. *)
Definition claims_nothing (tid w : string) (secs now : Z) (d : db) : Prop :=
  ∃ d', claim_task tid w secs now d = (Ok None, d')
    ∧ tasks d' = tasks d ∧ task_attempts d' = task_attempts d.

(** C5: a live lease excludes other workers: until it expires, a claim of the task
    returns nothing and leaves the tasks and the attempts as they are. *)
Theorem live_lease_is_exclusive d t l w secs now :
  reachable d → t ∈ tasks d → t_status t = "running" → t_lease_expires_at t = Some l → now < l →
  claims_nothing (t_id t) w secs now d.
Proof.
  intros Hi%reachable_inv Ht Hst Hl Hlt. unfold claims_nothing.
  unfold claim_task, transaction, claim_in_session, draw_uuid, mbind, M_bind, gets, modify, mret, M_ret.
  simpl. rewrite select_empty; [by eexists|]. intros r Hr.
  destruct (claimable _ _ _ r) eqn:E; [|done]. pose proof E as [Hid _]%claimable_status.
  assert (r = t) as -> by (apply (key_unique t_id (tasks d)); [apply Hi|done..]).
  unfold claimable in E. rewrite Hst, Hl in E. simpl in E. bools. lia.
Qed.

(** The task still exists with that status. *)
Definition stays (tid status : string) (d : db) : Prop :=
  ∃ t, t ∈ tasks d ∧ t_id t = tid ∧ t_status t = status.

(** A terminal status is final: whatever happens later, a completed, cancelled
    or dead-lettered task stays so. *)
Theorem terminal_status_is_final d d' t :
  reachable d → rtc step d d' → t ∈ tasks d → t_status t ∈ TERMINAL →
  stays (t_id t) (t_status t) d'.
Proof.
  intros Hi%reachable_inv Hsteps Ht Hst.
  destruct (steps_evolve d d' t Hi Hsteps Ht) as (t' & Ht' & Hev). exists t'.
  split_and!; [done|by destruct (evolves_gate _ _ Hev)|by apply evolves_terminal].
Qed.
End fencing.

Section witnesses.
#[local] Existing Instance test_platform.

(** In the run of [Pipeline.demo], the first task is completed under its claim. *)
Definition after_completion : db := exec demo_complete (run demo_blocked).

Lemma after_completion_finishes : finishes "task_1" "5" 1 (run demo_blocked) after_completion.
Proof.
  apply (by_complete _ _ _ _ _ (TaskOutcome None None None None (Some "inbox_0")) 30);
    [reflexivity|]. vm_compute. reflexivity.
Qed.

Lemma after_completion_reachable : reachable after_completion.
Proof. eapply rtc_r; [exact demo_blocked_reachable|]. by apply (step_exec _ demo_complete). Qed.

Lemma finished_claim_is_spent_witness : refused "task_1" "5" 1 after_completion.
Proof.
  apply (finished_claim_is_spent (run demo_blocked) after_completion after_completion
           "task_1" "5" "5" 1 demo_blocked_reachable after_completion_finishes).
  constructor.
Defined.

Lemma new_claim_fences_older_claims_witness :
  match claim_task "task_4" "w2" 60 40 after_completion with
  | (Ok (Some c), d1) => t_claim_version (cl_task c) = 1 ∧ refused "task_4" "stolen" 0 d1
  | _ => False
  end.
Proof.
  destruct (claim_task "task_4" "w2" 60 40 after_completion) as [[[c|]|e] d1] eqn:E;
    [|vm_compute in E; discriminate E..].
  assert (t_claim_version (cl_task c) = 1) as Hv
    by (vm_compute in E; injection E as <- _; reflexivity).
  split; [exact Hv|].
  apply (new_claim_fences_older_claims _ _ _ _ _ _ _ d1 "stolen" 0
           after_completion_reachable E); [constructor|rewrite Hv; reflexivity].
Defined.

Lemma live_lease_is_exclusive_witness : claims_nothing "task_1" "w9" 60 25 (run demo_blocked).
Proof.
  destruct (row_exists (λ t, row_shows t "task_1" "running" (Some 60000020))
    (tasks (run demo_blocked))) as (t & Ht & (Hid & Hst & Hl)%row_shows_true);
    [vm_compute; reflexivity|].
  rewrite <- Hid.
  apply (live_lease_is_exclusive _ t 60000020 "w9" 60 25 demo_blocked_reachable Ht Hst Hl).
  reflexivity.
Defined.

(** A later message of the same space. *)
Definition demo_again : op := Receive [] (message "om_3" "ingest" "again" 50) 50.

Lemma terminal_status_is_final_witness :
  stays "task_1" "completed" (exec demo_again after_completion).
Proof.
  destruct (row_exists (λ t, row_shows t "task_1" "completed" None) (tasks after_completion))
    as (t & Ht & (Hid & Hst & _)%row_shows_true); [vm_compute; reflexivity|].
  rewrite <- Hid, <- Hst.
  apply (terminal_status_is_final after_completion _ t after_completion_reachable).
  - apply rtc_once, (step_exec _ demo_again). reflexivity.
  - exact Ht.
  - rewrite Hst. by apply py_in_true.
Defined.
End witnesses.
