(* ===== verification/Ingress.v ===== *)
(** Receiving is idempotent: a redelivered message finds the inbox row and the task
    that its first delivery created, and the transaction writes nothing. *)

From stdpp Require Import base list strings gmap relations.
From Stdlib Require Import ZArith Lia.
From S2P Require Import Prelude Schema Consistency Dispatch Stages Tasks Watermark.
From S2P Require Import Invariant Runs Operations Completion Outbox Pipeline.

Open Scope string_scope.
Open Scope Z_scope.

(** * The columns that identify rows *)

Definition space_key (s : space) := (sp_id s, sp_tenant_id s, sp_source s, sp_source_space_id s).
Definition message_key (m : inbox_message) :=
  (m_id m, m_tenant_id m, m_source m, m_source_message_id m).
Definition task_key (t : task) := (t_id t, t_idempotency_key t).

Record same_keys (d d' : db) : Prop := {
  same_tenants : tenants d' = tenants d;
  same_spaces : map space_key (spaces d') = map space_key (spaces d);
  same_messages : map message_key (inbox_messages d') = map message_key (inbox_messages d);
  same_tasks : map task_key (tasks d') = map task_key (tasks d);
}.

#[export] Instance same_keys_preorder : PreOrder same_keys.
Proof. split; [by split|]. intros ??? [] []. split; congruence. Qed.

(** A query on columns only depends on the columns. *)
Lemma select_map {A B C} (key : A → B) (p : A → bool) (f : A → C) p' f' l l' :
  (∀ x, p x = p' (key x)) → (∀ x, f x = f' (key x)) → map key l = map key l' →
  map f (select_where p l) = map f (select_where p l').
Proof.
  intros Hp Hf Hk.
  assert (∀ k, map f (select_where p k) = map f' (select_where p' (map key k))) as Heq.
  { induction k as [|x k IH]; [done|]. unfold select_where in *. simpl. rewrite <- Hp.
    destruct (p x); simpl; [by rewrite Hf, IH|done]. }
  by rewrite !Heq, Hk.
Qed.

Lemma select_message_key tenant source smi l l' :
  map message_key l = map message_key l' →
  map m_id (select_where (λ m, String.eqb (m_tenant_id m) tenant && String.eqb (m_source m) source
    && String.eqb (m_source_message_id m) smi) l)
  = map m_id (select_where (λ m, String.eqb (m_tenant_id m) tenant && String.eqb (m_source m) source
    && String.eqb (m_source_message_id m) smi) l').
Proof.
  apply (select_map message_key _ m_id
    (λ k, let '(_, t, s, i) := k in String.eqb t tenant && String.eqb s source && String.eqb i smi)
    (λ k, k.1.1.1)); done.
Qed.

Lemma select_task_key key l l' :
  map task_key l = map task_key l' →
  map t_id (select_where (λ t, String.eqb (t_idempotency_key t) key) l)
  = map t_id (select_where (λ t, String.eqb (t_idempotency_key t) key) l').
Proof. apply (select_map task_key _ t_id (λ k, String.eqb k.2 key) fst); done. Qed.

Lemma select_space_key tenant source ssid l l' :
  map space_key l = map space_key l' →
  map sp_id (select_where (space_identity tenant source ssid) l)
  = map sp_id (select_where (space_identity tenant source ssid) l').
Proof.
  apply (select_map space_key _ sp_id
    (λ k, let '(_, t, s, i) := k in String.eqb t tenant && String.eqb s source
            && bool_decide (i = Some ssid)) (λ k, k.1.1.1)); done.
Qed.

Lemma find_space_key sid l l' :
  map space_key l = map space_key l' →
  option_map space_key (List.find (λ s, String.eqb (sp_id s) sid) l)
  = option_map space_key (List.find (λ s, String.eqb (sp_id s) sid) l').
Proof.
  revert l'. induction l as [|s l IH]; intros [|s' l']; simpl; try done.
  intros Heq. assert (space_key s = space_key s' ∧ map space_key l = map space_key l')
    as [Hs Hl].
  { pose proof (f_equal head Heq) as Hh. pose proof (f_equal tail Heq) as Ht.
    simpl in Hh, Ht. split; [congruence|done]. }
  assert (sp_id s = sp_id s') as -> by (by injection Hs).
  destruct (String.eqb _ _); [by f_equal/=|auto].
Qed.

Section ingress.
Context `{Platform}.

(** * Resolving a space *)

(** What [ensure_tenant_space] leaves behind: the space is found by its id, or by
    its identity. *)
Definition internal_space (ssid tenant : string) (d : db) : option string :=
  List.find (λ s, String.eqb (sp_id s) ssid) (spaces d)
    ≫= λ sp, if String.eqb (sp_tenant_id sp) tenant then Some (sp_id sp) else None.

Definition resolved (ssid tenant source sid : string) (d : db) : Prop :=
  internal_space ssid tenant d = Some sid
  ∨ (internal_space ssid tenant d = None ∧ tenant ∈ tenants d
     ∧ map sp_id (select_where (space_identity tenant source ssid) (spaces d)) = [sid]).

Lemma identity_conflict tenant source ssid pid l sid :
  map sp_id (select_where (space_identity tenant source ssid) l) = [sid] →
  existsb (λ s, String.eqb (sp_id s) pid || space_identity tenant source ssid s) l = true.
Proof.
  intros Hsel. assert (∃ s, s ∈ select_where (space_identity tenant source ssid) l) as [s Hs].
  { destruct (select_where _ l) as [|s k]; [done|]. exists s. by left. }
  apply elem_of_select in Hs as [Hin Hid]. apply existsb_exists. exists s.
  by rewrite <- list_elem_of_In, Hid, orb_true_r.
Qed.

Lemma insert_space_conflict tenant source ssid pid d :
  existsb (λ s, String.eqb (sp_id s) pid || space_identity tenant source ssid s) (spaces d) = true →
  insert_space tenant source ssid pid d = Ok (None, d).
Proof. intros Hc. unfold insert_space, mbind, M_bind, gets. by rewrite Hc. Qed.

Lemma ensure_resolved ssid tenant source sid d :
  resolved ssid tenant source sid d → ensure_tenant_space ssid tenant source d = Ok (sid, d).
Proof.
  unfold ensure_tenant_space, get_space. unfold mbind at 1, M_bind at 1, gets at 1. cbn beta iota.
  fold (internal_space ssid tenant d). intros [->|(-> & Hten & Hsel)]; [done|].
  unfold insert_tenant. unfold mbind at 1, M_bind at 1, modify.
  rewrite bool_decide_true by done. unfold select_space_identity.
  unfold mbind at 1, M_bind at 1, gets at 1. rewrite Hsel. cbn beta iota.
  unfold mbind at 1, M_bind at 1, lift_result at 1. cbn beta iota. simpl scalar_one_or_none.
  unfold or_else at 1. destruct (String.eqb_spec sid "") as [->|]; [|done].
  unfold mbind at 1, M_bind at 1.
  rewrite insert_space_conflict by (by eapply identity_conflict). cbn beta iota.
  unfold or_else at 1. unfold mbind at 1, M_bind at 1.
  rewrite insert_space_conflict by (by eapply identity_conflict). cbn beta iota.
  unfold or_else at 1. unfold mbind at 1, M_bind at 1, gets at 1. by rewrite Hsel.
Qed.

Lemma internal_space_keys ssid tenant d d' :
  map space_key (spaces d') = map space_key (spaces d) →
  internal_space ssid tenant d' = internal_space ssid tenant d.
Proof.
  intros Hk. apply (find_space_key ssid) in Hk. unfold internal_space.
  destruct (List.find _ (spaces d')) as [s'|], (List.find _ (spaces d)) as [s|]; try done.
  simpl in *. by injection Hk as -> -> _ _.
Qed.

Lemma resolved_keys ssid tenant source sid d d' :
  tenants d' = tenants d → map space_key (spaces d') = map space_key (spaces d) →
  resolved ssid tenant source sid d → resolved ssid tenant source sid d'.
Proof.
  intros Hten Hk. unfold resolved. rewrite (internal_space_keys ssid tenant d d') by done.
  by rewrite Hten, (select_space_key tenant source ssid (spaces d') (spaces d)).
Qed.

Lemma insert_tenant_Ok t d u d' :
  insert_tenant t d = Ok (u, d') →
  t ∈ tenants d' ∧ spaces d' = spaces d ∧ inbox_messages d' = inbox_messages d ∧ tasks d' = tasks d.
Proof.
  unfold insert_tenant. intros R. apply modify_Ok in R as ->.
  case_bool_decide; [done|]. split; [|done]. apply elem_of_app. right. by left.
Qed.

Lemma insert_space_cases tenant source ssid pid d o d' :
  insert_space tenant source ssid pid d = Ok (o, d') →
  (o = None ∧ d' = d)
  ∨ (o = Some pid ∧ d' = add_space_row (Space pid tenant source (Some ssid) ∅ 0 0 0 None) d
     ∧ ∀ s, s ∈ spaces d → sp_id s ≠ pid ∧ space_identity tenant source ssid s = false).
Proof.
  unfold insert_space. intros R. apply bind_Ok in R as (c & d1 & [-> ->]%gets_Ok & R).
  destruct (existsb _ _) eqn:E; run1 R; [by left|right]. split_and!; [done..|].
  intros s Hs. destruct (decide (sp_id s = pid)) as [Hid|Hid];
    destruct (space_identity tenant source ssid s) eqn:Ei; try done; exfalso;
    (assert (existsb (λ s, String.eqb (sp_id s) pid || space_identity tenant source ssid s)
       (spaces d) = true); [|congruence]); apply existsb_exists; exists s;
    rewrite <- list_elem_of_In; (split; [done|]); rewrite ?Ei, ?orb_true_r; try done;
    by rewrite Hid, String.eqb_refl.
Qed.

Lemma find_added sid sp d :
  (∀ s, s ∈ spaces d → sp_id s ≠ sp_id sp) →
  List.find (λ s, String.eqb (sp_id s) sid) (spaces (add_space_row sp d))
  = if String.eqb (sp_id sp) sid then Some sp
    else List.find (λ s, String.eqb (sp_id s) sid) (spaces d).
Proof.
  intros Hnew. simpl. induction (spaces d) as [|s l IH]; simpl; [done|].
  destruct (String.eqb_spec (sp_id s) sid) as [<-|Hne].
  - rewrite (proj2 (String.eqb_neq (sp_id sp) (sp_id s))); [done|].
    intros Heq. by apply (Hnew s (list_elem_of_here _ _)).
  - apply IH. intros s' Hs'. apply Hnew. by right.
Qed.

Lemma select_added tenant source ssid pid d :
  (∀ s, s ∈ spaces d → space_identity tenant source ssid s = false) →
  map sp_id (select_where (space_identity tenant source ssid)
    (spaces (add_space_row (Space pid tenant source (Some ssid) ∅ 0 0 0 None) d))) = [pid].
Proof.
  intros Hno. unfold select_where. simpl. rewrite List.filter_app, map_app.
  fold (select_where (space_identity tenant source ssid) (spaces d)).
  rewrite select_empty by done. simpl. unfold space_identity. simpl.
  by rewrite !String.eqb_refl, bool_decide_true.
Qed.

Lemma added_resolved ssid tenant source pid d :
  internal_space ssid tenant d = None → tenant ∈ tenants d →
  (∀ s, s ∈ spaces d → sp_id s ≠ pid ∧ space_identity tenant source ssid s = false) →
  resolved ssid tenant source pid
    (add_space_row (Space pid tenant source (Some ssid) ∅ 0 0 0 None) d).
Proof.
  intros Ei Hten Hno. set (sp := Space _ _ _ _ _ _ _ _ _).
  assert (internal_space ssid tenant (add_space_row sp d)
    = if String.eqb pid ssid then Some pid else None) as Hint.
  { unfold internal_space. rewrite find_added by (intros s Hs; by apply Hno). simpl.
    destruct (String.eqb pid ssid); [|exact Ei]. simpl. by rewrite String.eqb_refl. }
  unfold resolved. rewrite Hint. destruct (String.eqb pid ssid); [by left|right].
  split_and!; [done|done|]. apply select_added. intros s Hs. by apply Hno.
Qed.

(** The last query of [ensure_tenant_space], when the identity exists. *)
Lemma last_query ssid tenant source pid d sid d' :
  map sp_id (select_where (space_identity tenant source ssid) (spaces d)) = [pid] →
  (rows ← select_space_identity tenant source ssid; lift_result (scalar_one rows)) d = Ok (sid, d') →
  sid = pid ∧ d' = d.
Proof.
  intros Hsel R. unfold select_space_identity in R.
  apply bind_Ok in R as (rows & d2 & [-> ->]%gets_Ok & R).
  apply lift_result_Ok in R as [R ->]. rewrite Hsel in R. by injection R.
Qed.

(** [ensure_tenant_space] resolves the space, for every later call. *)
Lemma ensure_resolves ssid tenant source d sid d' :
  ensure_tenant_space ssid tenant source d = Ok (sid, d') → resolved ssid tenant source sid d'.
Proof.
  unfold ensure_tenant_space, get_space. intros R.
  apply bind_Ok in R as (o & d0 & [-> ->]%gets_Ok & R).
  fold (internal_space ssid tenant d) in R.
  destruct (internal_space ssid tenant d) as [s|] eqn:Ei; [run1 R; by left|].
  apply bind_Ok in R as (u & d1 & (Hten & Hs & _)%insert_tenant_Ok & R).
  assert (internal_space ssid tenant d1 = None) as Ei1.
  { rewrite <- Ei. apply internal_space_keys. by rewrite Hs. }
  clear Ei Hs d. unfold select_space_identity at 1 in R.
  apply bind_Ok in R as (rows & d2 & [-> ->]%gets_Ok & R).
  apply bind_Ok in R as (ex & d2 & [Hex ->]%lift_result_Ok & R).
  apply or_else_Ok in R as [[-> ->]|R].
  { right. by apply scalar_one_or_none_Some in Hex. }
  clear Hex. apply bind_Ok in R as (o & d2 & R1 & R).
  apply insert_space_cases in R1 as [[-> ->]|(-> & -> & Hno)].
  - apply bind_Ok in R as (o & d2 & R1 & R).
    apply insert_space_cases in R1 as [[-> ->]|(-> & -> & Hno)].
    + simpl in R. unfold select_space_identity in R.
      apply bind_Ok in R as (rows & d2 & [-> ->]%gets_Ok & R).
      apply lift_result_Ok in R as [R ->]. right. by apply scalar_one_Ok in R.
    + apply or_else_Ok in R as [[[= <-] ->]|R]; [by apply added_resolved|].
      eapply last_query in R as [-> ->]; [by apply added_resolved|].
      apply select_added. intros s Hs. by apply Hno.
  - apply or_else_Ok in R as [[[= <-] ->]|R]; [by apply added_resolved|].
    assert (map sp_id (select_where (space_identity tenant source ssid) (spaces
      (add_space_row (Space ssid tenant source (Some ssid) ∅ 0 0 0 None) d1))) = [ssid]) as Hsel
      by (apply select_added; intros s Hs; by apply Hno).
    apply bind_Ok in R as (o & d2 & R1 & R).
    rewrite insert_space_conflict in R1 by (by eapply identity_conflict). injection R1 as <- <-.
    simpl in R. eapply last_query in R as [-> ->]; [by apply added_resolved|exact Hsel].
Qed.

(** * What the rest of [receive_command] does to the keys *)

Lemma same_tenants_sat {A} (m : session A) :
  sat (λ d d', tenants d' = tenants d) m → ∀ d a d', m d = Ok (a, d') → tenants d' = tenants d.
Proof. intros Hm d a d' R. exact (Hm d a d' R). Qed.

#[local] Instance tenants_preorder : PreOrder (λ d d' : db, tenants d' = tenants d).
Proof. split; [done|]. intros ???. congruence. Qed.

Lemma new_id_tenants p : sat (λ d d', tenants d' = tenants d) (new_id p).
Proof. unfold new_id, draw_uuid. sat_auto; done. Qed.
Lemma publish_tenants t n now : sat (λ d d', tenants d' = tenants d) (publish_task_request t n now).
Proof.
  unfold publish_task_request, get_task, add_task_event. sat_auto; auto using new_id_tenants; done.
Qed.
Lemma advance_tenants sp now : sat (λ d d', tenants d' = tenants d) (advance_watermarks_in_session sp now).
Proof.
  unfold advance_watermarks_in_session, activate_ready_tasks_in_session, activate_and_publish,
    save_space, save_task. sat_auto; auto using publish_tenants; done.
Qed.

Lemma core_keys d d' : same_core d d' → tenants d' = tenants d → same_keys d d'.
Proof. intros (Hs & Hm & Ht) Hten. split; congruence. Qed.

Lemma advance_keys sp now d u d' :
  NoDup (map sp_id (spaces d)) → NoDup (map t_id (tasks d)) → sp ∈ spaces d →
  advance_watermarks_in_session sp now d = Ok (u, d') → same_keys d d'.
Proof.
  intros Hsi Hti Hsp R. pose proof (advance_tenants _ _ _ _ _ R) as Hten.
  apply advance_watermarks_Ok in R as (Hs & Hm & Ht); [|done].
  split; [done| |by rewrite Hm|].
  - rewrite Hs. simpl. unfold update_where. rewrite map_map. apply map_ext_in.
    intros s Hin%list_elem_of_In. destruct (String.eqb_spec (sp_id s) (sp_id sp)) as [Hk|]; [|done].
    by assert (s = sp) as -> by (by apply (key_unique sp_id (spaces d))).
  - rewrite Ht. simpl. rewrite update_column; done.
Qed.

Definition task_query (key : string) (d : db) : list string :=
  map t_id (select_where (λ t, String.eqb (t_idempotency_key t) key) (tasks d)).
Definition message_query (tenant source smi : string) (d : db) : list inbox_message :=
  select_where (λ m, String.eqb (m_tenant_id m) tenant && String.eqb (m_source m) source
    && String.eqb (m_source_message_id m) smi) (inbox_messages d).

Lemma task_query_keys key d d' : same_keys d d' → task_query key d' = task_query key d.
Proof. intros Hk. apply select_task_key, Hk. Qed.
Lemma message_query_keys tenant source smi d d' :
  same_keys d d' → map m_id (message_query tenant source smi d')
                   = map m_id (message_query tenant source smi d).
Proof. intros Hk. apply select_message_key, Hk. Qed.

Lemma enqueue_query ctx a now d tid b d' :
  enqueue_task_in_session ctx a now d = Ok ((tid, b), d') →
  tenants d' = tenants d ∧ spaces d' = spaces d ∧ inbox_messages d' = inbox_messages d
  ∧ task_query (ta_idempotency_key a) d' = [tid].
Proof.
  unfold enqueue_task_in_session. intros R. destruct (_ && _); [run1 R|].
  apply bind_Ok in R as (i & d1 & R1 & R).
  pose proof (new_id_tenants _ _ _ _ R1) as Hten. apply new_id_core in R1 as (Hs & Hm & Ht).
  apply bind_Ok in R as (o & d2 & R2 & R). unfold insert_task in R2.
  apply bind_Ok in R2 as (c & d3 & [-> ->]%gets_Ok & R2).
  destruct (existsb _ (tasks d1)) eqn:Ec in R2.
  - run1 R2. apply bind_Ok in R as (l & d2 & [-> ->]%gets_Ok & R).
    apply bind_Ok in R as (e & d2 & [He ->]%lift_result_Ok & R). run1 R.
    injection R as -> ->. apply scalar_one_Ok in He. split_and!; done.
  - apply bind_Ok in R2 as (k & d3 & [-> ->]%gets_Ok & R2).
    destruct (existsb _ (tasks d1)) in R2; run1 R2.
    apply bind_Ok in R as (u & d3 & R3 & R). run1 R. injection R as -> _.
    set (row := new_task_row i a _ now) in *.
    assert (sat same_core (if ta_publish a
      then publish_task_request (inr (i, ta_task_type a)) 1 now;; mret tt else mret tt)) as Hsat
      by (destruct (ta_publish a); sat_auto; apply publish_core).
    assert (sat (λ d d', tenants d' = tenants d) (if ta_publish a
      then publish_task_request (inr (i, ta_task_type a)) 1 now;; mret tt else mret tt)) as Hsat2
      by (destruct (ta_publish a); sat_auto; apply publish_tenants).
    pose proof (Hsat2 _ _ _ R3) as Hten3. apply Hsat in R3 as (Hs3 & Hm3 & Ht3).
    split_and!; [by rewrite Hten3|by rewrite Hs3|by rewrite Hm3|].
    unfold task_query. rewrite Ht3. simpl. unfold select_where. rewrite List.filter_app, map_app.
    fold (select_where (λ t, String.eqb (t_idempotency_key t) (ta_idempotency_key a)) (tasks d1)).
    rewrite select_empty; [simpl; by rewrite String.eqb_refl|].
    intros t Hin. destruct (String.eqb _ _) eqn:E; [|done].
    assert (existsb (λ t, String.eqb (t_idempotency_key t) (t_idempotency_key row)) (tasks d1)
      = true); [|congruence].
    apply existsb_exists. exists t. by rewrite <- list_elem_of_In.
Qed.

(** The state in which a message has been received. *)
Record received (c : command) (iid : string) (ot : option string) (d : db) : Prop := {
  received_space : ∃ sid, resolved (c_space_id c) (str_or (c_tenant_id c) DEFAULT_TENANT_ID)
    (c_source c) sid d;
  received_message : map m_id (message_query (str_or (c_tenant_id c) DEFAULT_TENANT_ID)
    (c_source c) (c_source_message_id c) d) = [iid];
  received_task : scalar_one_or_none (task_query (idempotency_key
    (str_or (c_tenant_id c) DEFAULT_TENANT_ID) (c_task_type c) (c_source c)
    (c_source_message_id c)) d) = Ok ot;
}.

(** A redelivery in such a state. *)
Lemma redelivered ctx c now iid ot d :
  received c iid ot d →
  receive_command ctx c now d
  = (Ok (DispatchResult iid (if truthy ot then ot else None) false true false), d).
Proof.
  intros [[sid Hsp] Hm Ht]. unfold receive_command, transaction, receive_in_session.
  unfold mbind at 1, M_bind at 1. rewrite (ensure_resolved _ _ _ _ _ Hsp). cbn beta iota.
  unfold mbind at 1, M_bind at 1, gets at 1. cbn beta iota.
  fold (message_query (str_or (c_tenant_id c) DEFAULT_TENANT_ID) (c_source c)
    (c_source_message_id c) d).
  destruct (message_query _ _ _ d) as [|m [|m' k]]; try done. injection Hm as Hid.
  unfold mbind at 1, M_bind at 1, lift_result at 1. cbn beta iota. simpl scalar_one_or_none.
  cbn beta iota. unfold mbind at 1, M_bind at 1, gets at 1. cbn beta iota.
  unfold task_query in Ht. unfold mbind at 1, M_bind at 1, lift_result at 1. rewrite Ht.
  by rewrite Hid.
Qed.

Lemma received_keys c iid ot d d' : same_keys d d' → received c iid ot d → received c iid ot d'.
Proof.
  intros Hk [[sid Hsp] Hm Ht]. split.
  - exists sid. eapply resolved_keys; [apply Hk|apply Hk|done].
  - by rewrite (message_query_keys _ _ _ d d').
  - by rewrite (task_query_keys _ d d').
Qed.

Lemma message_query_none tenant source smi d :
  scalar_one_or_none (message_query tenant source smi d) = Ok None →
  message_query tenant source smi d = [].
Proof. by intros ?%scalar_one_or_none_None. Qed.

Lemma message_query_added tenant source smi m d :
  message_query tenant source smi d = [] →
  m_tenant_id m = tenant → m_source m = source → m_source_message_id m = smi →
  map m_id (message_query tenant source smi (add_message_row m d)) = [m_id m].
Proof.
  intros Hno <- <- <-. unfold message_query, select_where in *. simpl.
  rewrite List.filter_app, Hno. simpl. by rewrite !String.eqb_refl.
Qed.

(** The first delivery: after it, the message is received. *)
Lemma receive_new_received ctx c ssid sid now d r d' :
  let tenant := str_or (c_tenant_id c) DEFAULT_TENANT_ID in
  inv None d → resolved (c_space_id c) tenant (c_source c) sid d →
  sid ∈ map sp_id (spaces d) →
  message_query tenant (c_source c) (c_source_message_id c) d = [] →
  receive_new ctx c tenant ssid sid now d = Ok (r, d') →
  received c (dr_inbox_id r) (dr_task_id r) d'.
Proof.
  intros tenant Hi Hres Hsid Hno R.
  pose proof (receive_new_carries _ _ _ _ _ _ _ _ _ Hsid R) as Hcarry.
  unfold receive_new in R.
  apply bind_Ok in R as (n & d0 & [-> ->]%gets_Ok & R).
  apply bind_Ok in R as (iid & d1 & R1 & R).
  pose proof (core_keys _ _ (new_id_core _ _ _ _ R1) (new_id_tenants _ _ _ _ R1)) as Hk1.
  pose proof (inv_core None _ _ (new_id_core _ _ _ _ R1) Hi) as Hi1.
  apply bind_Ok in R as (u & d2 & R2 & R). apply add_inbox_Ok in R2 as [-> Hconf].
  apply bind_Ok in R as (sp & d3 & R3 & R). apply select_space_Ok in R3 as (-> & Hsp & Hspid).
  apply bind_Ok in R as ([tid b] & d3 & R3 & R).
  apply bind_Ok in R as (v & d4 & R4 & R). run1 R. simpl.
  set (row := new_inbox_row iid c tenant sid (next_sequence_no sid d)) in *.
  assert (map m_id (message_query tenant (c_source c) (c_source_message_id c)
    (add_message_row row d1)) = [iid]) as Hm2.
  { apply (message_query_added tenant (c_source c) (c_source_message_id c) row); [|done..].
    apply (message_query_keys tenant (c_source c) (c_source_message_id c)) in Hk1 as Hq.
    rewrite Hno in Hq. by destruct (message_query _ _ _ d1). }
  assert (NoDup (map sp_id (spaces d1)) ∧ NoDup (map t_id (tasks d3))) as [Hsi Hti].
  { split; [apply Hi1|].
    apply enqueue_task_in_session_Ok in R3 as [[_ (_ & _ & ->)]|(_ & p & _ & Hnew & (_ & _ & ->))].
    - apply Hi1.
    - apply (NoDup_map_app t_id); [apply Hi1|exact Hnew]. }
  pose proof (enqueue_query _ _ _ _ _ _ _ R3) as (Hten3 & Hs3 & Hm3 & Ht3).
  assert (received c iid (Some tid) d3) as Hrec.
  { split.
    - exists sid. apply (resolved_keys _ _ _ _ (add_message_row row d1)); [done|by rewrite Hs3|].
      apply (resolved_keys _ _ _ _ d); [apply (same_tenants _ _ Hk1)|apply (same_spaces _ _ Hk1)|done].
    - unfold message_query in *. by rewrite Hm3.
    - unfold tenant in Ht3. simpl in Ht3. by rewrite Ht3. }
  destruct (String.eqb (c_task_type c) "ingest") in R4; [by run1 R4|].
  eapply received_keys; [|exact Hrec]. eapply advance_keys; [by rewrite Hs3|done| |exact R4].
  by rewrite Hs3.
Qed.

Lemma space_grown_query tenant source smi d d' :
  space_grown d d' → message_query tenant source smi d' = message_query tenant source smi d.
Proof. intros (_ & Hm & _). unfold message_query. by rewrite Hm. Qed.

End ingress.

Section witnesses.
#[local] Existing Instance test_platform.

End witnesses.
