(* ===== verification/Attempts.v ===== *)
(** The attempt log: one row per claim of a task, numbered by the task's
    [attempt_count] under a unique key, so that a claim never fails on it. *)

From stdpp Require Import base list strings gmap relations.
From Stdlib Require Import ZArith Lia.
From S2P Require Import Prelude Schema Consistency Dispatch Stages Tasks Watermark.
From S2P Require Import Invariant Runs Operations Completion Outbox Pipeline Fencing.

Open Scope string_scope.
Open Scope Z_scope.

Definition attempt_key (a : task_attempt) := (a_task_id a, a_attempt_no a).

(** The log keeps its rows. *)
Definition same_log (d d' : db) : Prop :=
  map attempt_key (task_attempts d') = map attempt_key (task_attempts d).
#[export] Instance same_log_preorder : PreOrder same_log.
Proof. unfold same_log. split; [done|]. intros ???. congruence. Qed.

Lemma same_log_update p f d :
  (∀ a, attempt_key (f a) = attempt_key a) → same_log d (update_attempts p f d).
Proof. intros Hf. unfold same_log. simpl. by apply update_column. Qed.

Lemma same_attempts_log d d' : task_attempts d' = task_attempts d → same_log d d'.
Proof. unfold same_log. by intros ->. Qed.

Section attempts.
Context `{Platform}.

Lemma new_id_log p : sat same_log (new_id p).
Proof. intros d a d' R%new_id_attempts. by apply same_attempts_log. Qed.
Lemma add_task_event_log i rq now : sat same_log (add_task_event i rq now).
Proof. intros d a d' R%add_task_event_attempts. by apply same_attempts_log. Qed.
Lemma publish_log t n now : sat same_log (publish_task_request t n now).
Proof.
  unfold publish_task_request, get_task. sat_auto; auto using new_id_log, add_task_event_log.
Qed.
Lemma activate_log now t : sat same_log (activate_and_publish now t).
Proof. intros d a d' R%activate_attempts. by apply same_attempts_log. Qed.
Lemma advance_log sp now : sat same_log (advance_watermarks_in_session sp now).
Proof. intros d a d' R%advance_attempts. by apply same_attempts_log. Qed.
Lemma finish_attempt_log tid n st et es now : sat same_log (finish_attempt tid n st et es now).
Proof. unfold finish_attempt. sat_auto. by apply same_log_update. Qed.
Lemma owned_log tid tok v now : sat same_log (owned_running_task tid tok v now).
Proof. unfold owned_running_task. sat_auto. Qed.
Lemma stage_log iid st err now : sat same_log (complete_inbox_stage_in_session iid st err now).
Proof.
  unfold complete_inbox_stage_in_session, select_inbox_for_update, select_space_for_update,
    save_inbox, save_space. sat_auto; auto using advance_log; done.
Qed.

Lemma insert_space_log ten src ssid pid : sat same_log (insert_space ten src ssid pid).
Proof. unfold insert_space. sat_auto; done. Qed.
Lemma ensure_log ssid ten src : sat same_log (ensure_tenant_space ssid ten src).
Proof.
  unfold ensure_tenant_space, get_space, insert_tenant, select_space_identity, or_else.
  sat_auto; auto using insert_space_log; by destruct (bool_decide _).
Qed.
Lemma enqueue_log ctx a now : sat same_log (enqueue_task_in_session ctx a now).
Proof.
  unfold enqueue_task_in_session, insert_task.
  sat_auto; auto using new_id_log, publish_log; done.
Qed.
Lemma receive_log ctx c now : sat same_log (receive_in_session ctx c now).
Proof.
  unfold receive_in_session, receive_new, add_inbox, select_space_for_update.
  sat_auto; auto using ensure_log, new_id_log, enqueue_log, advance_log; done.
Qed.
Lemma skip_log iid final cancel now : sat same_log (skip_in_session iid final cancel now).
Proof.
  unfold skip_in_session, select_inbox_for_update, select_space_for_update, save_inbox,
    cancel_root_tasks. sat_auto; auto using advance_log; done.
Qed.
Lemma fail_log tid err dl tok v now : sat same_log (fail_in_session tid err dl tok v now).
Proof.
  unfold fail_in_session, save_task, release_barrier, cancel_blocked_dependents,
    mark_inbox_memory_completed_in_session, finalize_inbox_in_session.
  sat_auto; auto using owned_log, finish_attempt_log, stage_log; done.
Qed.
Lemma defer_log tid why dl tok v now : sat same_log (defer_in_session tid why dl tok v now).
Proof.
  unfold defer_in_session, save_task.
  sat_auto; auto using owned_log, finish_attempt_log; done.
Qed.
Lemma due_retries_log lim ids now : sat same_log (due_retries_in_session lim ids now).
Proof.
  unfold due_retries_in_session, requeue, save_task.
  sat_auto; auto using new_id_log, add_task_event_log; done.
Qed.
Lemma complete_log tid tok v o now : sat same_log (complete_in_session tid tok v o now).
Proof.
  unfold complete_in_session, complete_task_with_inbox_outcome, complete_plain, complete_with_orm,
    save_task, activate_task_in_session, select_task_for_update.
  sat_auto; auto using owned_log, finish_attempt_log, stage_log, activate_log; try done.
  unfold same_log. rewrite statement_attempts. by apply update_column.
Qed.

(** * The invariant of the log *)

Record log_ok (d : db) : Prop := {
  log_unique : NoDup (map attempt_key (task_attempts d));
  log_counted : ∀ a, a ∈ task_attempts d →
    ∃ t, t ∈ tasks d ∧ t_id t = a_task_id a ∧ a_attempt_no a <= t_attempt_count t;
}.

Lemma log_ok_step d d' : same_log d d' → grown d d' → log_ok d → log_ok d'.
Proof.
  intros Hlog Hg [Hnd Hcount]. split; [by rewrite Hlog|].
  intros a' Ha'%(elem_of_map_in attempt_key). rewrite Hlog in Ha'.
  apply elem_of_map in Ha' as (a & Hk & Ha). injection Hk as Hid Hno.
  destruct (Hcount a Ha) as (t & Ht & Htid & Hle).
  destruct (grown_tasks _ _ Hg t Ht) as (t' & Ht' & Hev). exists t'.
  destruct Hev as [(Hid' & _) _ Hv Hatt _ _ _]. split_and!; [done|congruence|lia].
Qed.

(** A claim in a state with a sound log: it cannot raise, and it logs its attempt. *)
Lemma claim_run tid w secs now d :
  inv None d → log_ok d →
  (∃ d', claim_in_session tid w secs now d = Ok (None, d') ∧ same_core d d' ∧ same_log d d')
  ∨ ∃ t c d', claim_in_session tid w secs now d = Ok (Some c, d') ∧ t ∈ tasks d ∧ t_id t = tid
      ∧ t_attempt_count (cl_task c) = t_attempt_count t + 1 ∧ t_id (cl_task c) = tid
      ∧ map attempt_key (task_attempts d')
        = (map attempt_key (task_attempts d) ++ [(tid, t_attempt_count t + 1)])%list
      ∧ TaskAttempt tid w (t_attempt_count t + 1) "running" now None None None ∈ task_attempts d'.
Proof.
  intros Hi [Hnd Hcount]. unfold claim_in_session, draw_uuid.
  unfold mbind, M_bind, gets, modify, mret, M_ret. simpl.
  set (d0 := d <| uuids_drawn := S (uuids_drawn d) |>).
  destruct (select_where _ (tasks d)) as [|t k] eqn:Es; simpl; [left; by eexists|].
  assert (t ∈ select_where (claimable tid now (now - seconds (Z.max 1 secs))) (tasks d)) as Ht
    by (rewrite Es; by left).
  pose proof Ht as [Hin Hc]%elem_of_select. apply claimable_status in Hc as Hid. destruct Hid as [Hid _].
  assert (k = []) as ->.
  { rewrite (select_key_unique t_id (tasks d) t) in Es; [by injection Es|apply Hi|done|done|].
    intros r _ [Hr _]%claimable_status. congruence. }
  right. simpl. exists t. eexists.
  set (row := claim_row _ _ _ _ t).
  assert (∃ u d1, expire_attempts t now d0 = Ok (u, d1)
    ∧ map attempt_key (task_attempts d1) = map attempt_key (task_attempts d)
    ∧ tasks d1 = tasks d) as (u & d1 & -> & Hlog1 & Htasks).
  { unfold expire_attempts. destruct (String.eqb _ _); do 2 eexists; (split; [reflexivity|]);
      [|done]. split; [|done]. by apply (same_log_update _
      (λ a, a <| a_status := "lease_expired" |> <| a_finished_at := Some now |>) d0). }
  unfold save_task, modify, record_attempt. unfold mbind, M_bind, gets, modify. simpl.
  destruct (existsb _ (task_attempts d1)) eqn:Ex.
  { exfalso. apply existsb_exists in Ex as (a & Ha%list_elem_of_In & Hk). bools.
    destruct Hk as [Hk1 Hk2]. simpl in Hk1, Hk2.
    apply (elem_of_map_in attempt_key) in Ha. rewrite Hlog1 in Ha.
    apply elem_of_map in Ha as (b & Hb & Hbin). injection Hb as Hb1 Hb2.
    destruct (Hcount b Hbin) as (r & Hr & Hrid & Hle).
    assert (r = t) as -> by (apply (key_unique t_id (tasks d)); [apply Hi|done|done|congruence]).
    lia. }
  eexists. split; [reflexivity|]. split_and!; [done|done|done|done| |].
  - simpl. rewrite map_app, Hlog1. simpl. by rewrite <- Hid.
  - simpl. apply elem_of_app. right. rewrite <- Hid. by left.
Qed.

Lemma transaction_log {A} (m : session A) d : sat same_log m → same_log d (transaction m d).2.
Proof. intros Hm. apply sat_transaction; [apply _|done]. Qed.

Lemma exec_log o d :
  (∀ tid w secs now, o ≠ ClaimTask tid w secs now) → same_log d (exec o d).
Proof.
  intros Hne. destruct o; simpl; try (by destruct (Hne task_id worker_id stale_after_seconds now));
    try (apply transaction_log; auto using receive_log, skip_log, fail_log, defer_log,
           due_retries_log; fail).
  - apply transaction_log. sat_auto; auto using ensure_log, enqueue_log.
  - apply transaction_log. sat_auto. done.
  - unfold complete_task. destruct (several_outcomes _); [simpl; reflexivity|].
    apply transaction_log, complete_log.
  - apply transaction_log. unfold finalize_inbox_in_session. sat_auto; auto using stage_log.
  - apply transaction_log. unfold finalize_inbox_in_session. sat_auto; auto using stage_log.
  - apply transaction_log. unfold claim_batch_in_session, claim_one, save_event, draw_uuid.
    sat_auto; done.
  - apply transaction_log. sat_auto. done.
  - apply transaction_log. unfold save_event. sat_auto. done.
Qed.

Lemma claim_log_ok tid w secs now d : inv None d → log_ok d → log_ok (claim_task tid w secs now d).2.
Proof.
  intros Hi Hlog. unfold claim_task, transaction.
  destruct (claim_run tid w secs now d Hi Hlog)
    as [(d' & E & Hc & Hsame)|(t & c & d' & E & Ht & Hid & Hno & Hrid & Hkeys & _)].
  - rewrite E. simpl. eapply log_ok_step; [exact Hsame| |exact Hlog].
    by apply (carries_core None).
  - rewrite E. simpl. destruct (claim_carries _ _ _ _ _ _ _ E Hi) as [Hi' Hg].
    apply claim_row_stored in E as (t0 & tok & Ht0 & [Hid0 _]%claimable_status & Hrow & Hin).
    destruct Hlog as [Hnd Hcount]. split.
    + rewrite Hkeys. apply NoDup_app. split_and!; [done| |apply NoDup_singleton].
      intros k (a & <- & Ha)%elem_of_map [Hk|Hk%not_elem_of_nil]%elem_of_cons; [|done].
      injection Hk as Hk1 Hk2. destruct (Hcount a Ha) as (r & Hr & Hr1 & Hr2).
      assert (r = t) as -> by (apply (key_unique t_id (tasks d)); [apply Hi|done|done|congruence]).
      lia.
    + intros a' Ha'%(elem_of_map_in attempt_key). rewrite Hkeys in Ha'.
      apply elem_of_app in Ha' as [Ha'|Ha'].
      * apply elem_of_map in Ha' as (a & Hk & Ha). injection Hk as Hk1 Hk2.
        destruct (Hcount a Ha) as (r & Hr & Hr1 & Hr2).
        destruct (grown_tasks _ _ Hg r Hr) as (r' & Hr' & Hev). exists r'.
        destruct Hev as [(? & _) _ ? ? _ _ _]. split_and!; [done|congruence|lia].
      * apply list_elem_of_singleton in Ha'. injection Ha' as Hk1 Hk2.
        exists (cl_task c). split_and!; [done|congruence|lia].
Qed.

Lemma reachable_log d : reachable d → log_ok d.
Proof.
  intros Hr. assert (log_ok empty_db) as H0.
  { split; [apply NoDup_nil_2|]. by intros a ?%not_elem_of_nil. }
  pose proof inv_empty as Hi. unfold reachable in Hr. revert H0 Hi.
  induction Hr as [|d1 d2 d3 [o Ho] _ IH]; [done|]. intros Hlog Hi.
  destruct (exec_carries o d1 Ho Hi) as [Hi' Hg]. apply IH; [|done].
  assert ((∃ tid w secs now, o = ClaimTask tid w secs now)
    ∨ ∀ tid w secs now, o ≠ ClaimTask tid w secs now) as [(?&?&?&?&->)|Hne]
    by (destruct o; first [by right|left; eauto]).
  - by apply claim_log_ok.
  - eapply log_ok_step; [by apply exec_log|exact Hg|exact Hlog].
Qed.

(** The two outcomes of a claim: nothing to claim, or a claim with its attempt in
    the log. *)
Definition claims_and_logs (tid w : string) (secs now : Z) (d : db) : Prop :=
  (∃ d', claim_task tid w secs now d = (Ok None, d') ∧ same_log d d')
  ∨ ∃ c d', claim_task tid w secs now d = (Ok (Some c), d') ∧ t_id (cl_task c) = tid
      ∧ TaskAttempt tid w (t_attempt_count (cl_task c)) "running" now None None None
          ∈ task_attempts d'
      ∧ length (task_attempts d') = S (length (task_attempts d)).

(** A claim never raises: the unique key of the attempt log is never violated,
    and every successful claim is the one new attempt of the log. *)
Theorem claims_never_conflict d tid w secs now :
  reachable d → claims_and_logs tid w secs now d.
Proof.
  intros Hr. unfold claims_and_logs, claim_task, transaction.
  destruct (claim_run tid w secs now d (reachable_inv d Hr) (reachable_log d Hr))
    as [(d' & -> & _ & Hsame)|(t & c & d' & -> & _ & _ & Hno & Hid & Hkeys & Hin)]; [left; eauto|].
  right. exists c, d'. split_and!; [done|done|by rewrite Hno|].
  apply (f_equal length) in Hkeys. rewrite length_app, !length_map in Hkeys. simpl in Hkeys. lia.
Qed.
End attempts.

Section witnesses.
#[local] Existing Instance test_platform.

Lemma claims_never_conflict_witness :
  claims_and_logs "task_1" "w2" 60 (seconds 120) (run demo_blocked).
Proof. exact (claims_never_conflict _ "task_1" "w2" 60 (seconds 120) demo_blocked_reachable). Defined.
End witnesses.
