(* ===== verification/Failure.v ===== *)
(** Failing a task: retries with a lower bound on the delay, the dead letter after
    [max_attempts] failures, and the release of the causal barrier by a task that
    will never finish. *)

From stdpp Require Import base list strings gmap relations.
From Stdlib Require Import ZArith Lia.
From S2P Require Import Prelude Schema Consistency Dispatch Stages Tasks Watermark.
From S2P Require Import Invariant Runs Operations Completion Outbox Pipeline Fencing.

Open Scope string_scope.
Open Scope Z_scope.

(** * What a settled stage leaves on the message *)

Lemma settle_status st err now m sp :
  m_status (settle st err now (m, sp)).1
  = if finalize st && negb (py_in (m_status m) ["processed"; "failed"])
    then (if success st then "processed" else "failed") else m_status m.
Proof.
  assert (∀ ms, m_status (settle_note st err now ms).1 = m_status ms.1) as Hn.
  { intros [m0 s0]. unfold settle_note. by destruct (note st). }
  assert (∀ ms, m_status (settle_memory st err now ms).1 = m_status ms.1) as Hme.
  { intros [m0 s0]. unfold settle_memory. by destruct (memory st). }
  unfold settle, finalize_message. rewrite Hme, Hn. simpl.
  destruct (_ && _); [|by rewrite Hme, Hn].
  destruct (success st); [done|]. unfold fail_pending. simpl.
  by destruct (String.eqb _ "pending"); simpl; destruct (String.eqb _ "pending").
Qed.

(** Finalizing with a failure settles both stages of a message that was open. *)
Lemma failed_message_settled err now m sp l :
  m_status m ∉ ["processed"; "failed"] → stage_of l m ∈ STAGES →
  settled l (settle (Stage false false true false) err now (m, sp)).1.
Proof.
  intros Hst Hl. unfold settle, finalize_message, settle_memory, settle_note. simpl.
  rewrite (proj2 (py_in_false _ _) Hst). simpl. unfold fail_pending. simpl.
  assert (∀ s, s ∈ STAGES → s ≠ "pending" → s ∈ SETTLED) as Hs.
  { intros s [->|Hin]%elem_of_cons; done. }
  unfold settled. destruct l; simpl in *.
  - destruct (String.eqb_spec (m_note_status m) "pending"); simpl;
      destruct (String.eqb _ "pending"); simpl; try (by apply py_in_true); by apply Hs.
  - destruct (String.eqb_spec (m_note_status m) "pending"); simpl;
      destruct (String.eqb_spec (m_memory_status m) "pending"); simpl;
      try (by apply py_in_true); by apply Hs.
Qed.

Section failure.
Context `{Platform}.

Lemma advance_messages sp now d u d' :
  inv None d ∨ NoDup (map t_id (tasks d)) →
  advance_watermarks_in_session sp now d = Ok (u, d') → inbox_messages d' = inbox_messages d.
Proof. intros [Hi|Hnd] R; apply advance_watermarks_Ok in R as (_ & Hm & _); [exact Hm|apply Hi|exact Hm|done]. Qed.

(** The message after a stage operation. *)
Lemma stage_message iid st err now d u d' m :
  inv None d → m ∈ inbox_messages d → m_id m = iid →
  complete_inbox_stage_in_session iid st err now d = Ok (u, d') →
  ∃ sp, (settle st err now (m, sp)).1 ∈ inbox_messages d'.
Proof.
  intros Hi Hm Hid R.
  apply complete_inbox_stage_Ok in R as (m0 & sp & d1 & Hm0 & Hid0 & _ & _ & -> & R).
  assert (m0 = m) as -> by (apply (key_unique m_id (inbox_messages d)); [apply Hi|done|done|congruence]).
  exists sp. erewrite (advance_messages _ _ _ _ _ _ R). simpl.
  apply elem_of_update. exists m. split; [done|].
  destruct (settle_matures st err now m sp) as ((-> & _) & _). by rewrite String.eqb_refl.
  Unshelve. right. simpl. apply Hi.
Qed.

(** * Failing *)

Lemma steps_born d t : reachable d → t ∈ tasks d → born t.
Proof.
  intros Hr. assert (∀ t, t ∈ tasks empty_db → born t) as H0 by (by intros ? ?%not_elem_of_nil).
  pose proof inv_empty as Hi. unfold reachable in Hr. revert H0 Hi t.
  induction Hr as [|d1 d2 d3 [o Ho] _ IH]; [auto|]. intros Hb Hi.
  destruct (exec_carries o d1 Ho Hi) as [Hi' Hg]. apply IH; [|done].
  intros t' Ht'. destruct (grown_tasks_back _ _ Hg t' Ht') as [(t & Ht & Hev)|[? _]]; [|done].
  destruct (Hb t Ht) as (t0 & ? & ?). exists t0. split; [done|]. by transitivity t.
Qed.

(** What the budget of a task is: failures up to the limit, and one attempt per
    claim. *)
Definition budgeted (t : task) : Prop :=
  0 <= t_failure_count t ∧ (t_failure_count t = 0 ∨ within_budget t)
  ∧ t_attempt_count t = t_claim_version t.


Lemma fail_Ok tid err dl tok v now d st d' :
  inv None d → fail_in_session tid err dl tok v now d = Ok (st, d') →
  (st = "stale" ∧ d' = d) ∨ ∃ t d2, t ∈ tasks d ∧ owns tid tok v now t = true
    ∧ let row := fail_row err dl now t in
      st = t_status row ∧ inv None d2 ∧ inbox_messages d2 = inbox_messages d ∧ row ∈ tasks d2
      ∧ (if String.eqb (t_status row) "dead_letter"
         then ∃ u, release_barrier row err now d2 = Ok (u, d') else d' = d2).
Proof.
  intros Hi R. unfold fail_in_session, save_task in R.
  apply bind_Ok in R as (o & d1 & R1 & R). apply owned_Ok in R1 as [-> Hown].
  destruct o as [t|]; [right|run1 R; by left]. destruct (Hown t eq_refl) as [Hin Hc].
  pose proof Hc as (_ & Hrun & _)%owns_facts.
  apply bind_Ok in R as (u & d1 & ->%modify_Ok & R).
  apply bind_Ok in R as (w & d2 & R2%finish_attempt_core & R).
  apply bind_Ok in R as (w' & d3 & R3 & R). run1 R.
  exists t, d2. split_and!; [done|done|]. cbn zeta. set (row := fail_row err dl now t) in *.
  split_and!; [done| | | |].
  - eapply inv_core; [exact R2|]. apply (carries_save_task None t row); [done| | |done].
    + by apply fail_evolves.
    + by apply running_moves; [|simpl; destruct (_ <=? _)].
  - by destruct R2 as (_ & -> & _).
  - destruct R2 as (_ & _ & ->). by apply (saved_row t).
  - revert R3. destruct (String.eqb _ _); intros R3; [by exists w'|by run1 R3].
Qed.

(** Settling the memory stage alone does not touch the status. *)
Lemma memory_failure_message m err now sp :
  m_status (settle (Stage false true false false) err now (m, sp)).1 = m_status m.
Proof. by rewrite settle_status. Qed.

(** The message after [release_barrier]. *)
Lemma release_barrier_message row err now d u d' m :
  inv None d → m ∈ inbox_messages d → barrier_inbox_id row = Some (m_id m) →
  m_status m ∉ ["processed"; "failed"] →
  release_barrier row err now d = Ok (u, d') →
  ∃ m', m' ∈ inbox_messages d' ∧ m_id m' = m_id m ∧ m_status m' = "failed"
    ∧ ∀ l, settled l m'.
Proof.
  intros Hi Hm Hb Hst R. unfold release_barrier in R. rewrite Hb in R.
  apply bind_Ok in R as (u1 & d1 & R1 & R).
  assert (inv None d1 ∧ inbox_messages d1 = inbox_messages d) as [Hi1 Hm1].
  { destruct (truthy _) in R1; [|by run1 R1]. unfold cancel_blocked_dependents in R1.
    apply modify_Ok in R1 as ->. split; [|done].
    apply inv_update_tasks; [|done]. intros t _ _. split; [done|by left]. }
  apply bind_Ok in R as (u2 & d2 & R2 & R).
  assert (inv None d2 ∧ ∃ m2, m2 ∈ inbox_messages d2 ∧ m_id m2 = m_id m
    ∧ m_status m2 = m_status m) as (Hi2 & m2 & Hin2 & Hid2 & Hst2).
  { rewrite <- Hm1 in Hm. destruct (String.eqb _ "memory") in R2; [|run1 R2; eauto].
    unfold mark_inbox_memory_completed_in_session in R2. split.
    - by apply (complete_inbox_stage_carries _ _ _ _ _ _ _ R2).
    - destruct (stage_message _ _ _ _ _ _ _ m Hi1 Hm eq_refl R2) as (sp & Hin).
      eexists. split_and!; [exact Hin|by apply settle_matures|apply memory_failure_message]. }
  apply bind_Ok in R as (u3 & d3 & R3 & R). run1 R. unfold finalize_inbox_in_session in R3.
  apply bind_Ok in R3 as (u4 & d4 & R3 & R). run1 R.
  destruct (stage_message _ _ _ _ _ _ _ m2 Hi2 Hin2 Hid2 R3) as (sp & Hin).
  eexists. split_and!; [exact Hin| | |].
  - rewrite <- Hid2. by apply settle_matures.
  - rewrite settle_status, Hst2, (proj2 (py_in_false _ _) Hst). done.
  - intros l. apply failed_message_settled; [by rewrite Hst2|by apply (inv_stages _ _ Hi2)].
Qed.

Definition released (iid : string) (d : db) : Prop :=
  ∃ m, m ∈ inbox_messages d ∧ m_id m = iid ∧ m_status m = "failed" ∧ ∀ l, settled l m.

(** A dead letter does not block the space.  When the last attempt of a task
    fails, the message whose barrier it held is failed and both of its stages are
    settled, so the watermarks pass it. *)
Theorem dead_letter_releases_barrier d tid err dl tok v now d' t m :
  reachable d →
  fail_task tid err dl tok v now d = (Ok "dead_letter", d') →
  t ∈ tasks d → t_id t = tid → barrier_inbox_id t = Some (m_id m) →
  m ∈ inbox_messages d → m_status m ∉ ["processed"; "failed"] →
  released (m_id m) d'.
Proof.
  intros Hi%reachable_inv R%transaction_Ok Ht Htid Hb Hm Hst.
  apply fail_Ok in R as [[? _]|(t' & d2 & Ht' & Hc & Hrow & Hi2 & Hm2 & _ & R)]; [done| |done].
  apply owns_facts in Hc as (Hid' & _ & _).
  assert (t' = t) as -> by (apply (key_unique t_id (tasks d)); [apply Hi|done|done|congruence]).
  rewrite <- Hrow in R. simpl in R. destruct R as [u R]. rewrite <- Hm2 in Hm.
  by apply (release_barrier_message _ _ _ _ _ _ m Hi2 Hm Hb Hst R).
Qed.

(** The row a failed task is left with. *)
Definition failed_row (t : task) (err : string) (dl now : Z) (t' : task) : Prop :=
  t_failure_count t' = t_failure_count t + 1
  ∧ (if t_max_attempts t <=? t_failure_count t + 1
     then t_status t' = "dead_letter" ∧ t_next_retry_at t' = None
     else t_status t' = "retry"
       ∧ ∃ r, t_next_retry_at t' = Some r ∧ now + milliseconds 100 <= r ∧ now + dl <= r)
  ∧ t_claimed_by t' = None ∧ t_lease_token t' = None ∧ t_lease_expires_at t' = None.

Lemma fail_row_failed t err dl now : failed_row t err dl now (fail_row err dl now t).
Proof.
  unfold failed_row, fail_row, retry_at, milliseconds. simpl. split; [done|].
  destruct (_ <=? _); simpl; [done|]. split; [|done]. split; [done|].
  eexists. split; [done|]. lia.
Qed.

(** A retried failure counts, gives up the lease, and is scheduled no sooner
    than a tenth of a second and no sooner than the requested delay. *)
Theorem failed_task_is_scheduled d tid err dl tok v now d' t :
  reachable d →
  fail_task tid err dl tok v now d = (Ok "retry", d') → t ∈ tasks d → t_id t = tid →
  ∃ t', t' ∈ tasks d' ∧ t_id t' = tid ∧ failed_row t err dl now t'.
Proof.
  intros Hi%reachable_inv R%transaction_Ok Ht Htid.
  apply fail_Ok in R as [[? _]|(t' & d2 & Ht' & Hc & Hrow & _ & _ & Hin & R)]; [done| |done].
  apply owns_facts in Hc as (Hid' & _ & _).
  assert (t' = t) as -> by (apply (key_unique t_id (tasks d)); [apply Hi|done|done|congruence]).
  rewrite <- Hrow in R. simpl in R. subst d'.
  exists (fail_row err dl now t). split_and!; [done|done|apply fail_row_failed].
Qed.
End failure.

(** * Concrete runs *)

(** An ingest task with a single attempt, claimed by a worker. *)
Definition doomed_message : command :=
  Command "feishu" "om_1" None "" "chat" (Some "oc_1") (Some "p2p") [] "buy milk" 0 "ingest"
    empty_payload "normal" 1.
Definition doomed : list op := [Receive [] doomed_message 0; ClaimTask "task_1" "w1" 60 20].

(** The memory task of the same message, as [handle_ingest] enqueues it before the
    ingest task itself is completed. *)
Definition memory_args : task_args :=
  TaskArgs "memory" "default" "chat" (Some "om_1") "memory:extract:note_1"
    (empty_payload <| pl_barrier_inbox_id := Some "inbox_0" |>
       <| pl_parent_task_id := Some "task_1" |> <| pl_sequence_no := Some 1 |>) 0 5 "queued" true.

Definition overtaken : list op := (doomed ++ [
  Enqueue [] memory_args 30;
  ClaimTask "task_4" "w2" 60 40;
  Complete "task_4" "6" 1 (TaskOutcome None None None (Some "inbox_0") None) 50;
  Fail_ "task_1" "RuntimeError: delivery queue" 0 "3" 1 60])%list.

Section witnesses.
#[local] Existing Instance test_platform.

Lemma doomed_reachable : reachable (run doomed).
Proof. by apply (reachable_run doomed). Qed.


Definition waits_on (t : task) (tid iid : string) : bool :=
  String.eqb (t_id t) tid && bool_decide (barrier_inbox_id t = Some iid).

Lemma dead_letter_releases_barrier_witness :
  match fail_task "task_1" "RuntimeError: model" 0 "3" 1 60 (run doomed) with
  | (Ok st, d') => st = "dead_letter" ∧ released "inbox_0" d'
  | _ => False
  end.
Proof.
  destruct (fail_task "task_1" "RuntimeError: model" 0 "3" 1 60 (run doomed)) as [[st|e] d'] eqn:E;
    [|vm_compute in E; discriminate E].
  assert (st = "dead_letter") as -> by (vm_compute in E; injection E as <- _; reflexivity).
  split; [reflexivity|].
  destruct (row_exists (λ t, waits_on t "task_1" "inbox_0") (tasks (run doomed)))
    as (t & Ht & [Hid%String.eqb_eq Hb%bool_decide_eq_true]%andb_true_iff);
    [vm_compute; reflexivity|].
  destruct (row_exists (λ m, String.eqb (m_id m) "inbox_0" && String.eqb (m_status m) "pending")
    (inbox_messages (run doomed))) as (m & Hm & [Hmid%String.eqb_eq Hst%String.eqb_eq]%andb_true_iff);
    [vm_compute; reflexivity|].
  rewrite <- Hmid.
  apply (dead_letter_releases_barrier (run doomed) "task_1" "RuntimeError: model" 0 "3" 1 60 d' t m
    doomed_reachable E Ht Hid).
  - rewrite Hmid. exact Hb.
  - exact Hm.
  - rewrite Hst. by apply py_in_false.
Defined.

Lemma failed_task_is_scheduled_witness :
  match fail_task "task_1" "RuntimeError: model" (seconds 2) "5" 1 60 (run demo_blocked) with
  | (Ok st, d') => st = "retry" ∧ ∃ t t', t' ∈ tasks d' ∧ t_id t' = "task_1"
      ∧ failed_row t "RuntimeError: model" (seconds 2) 60 t'
  | _ => False
  end.
Proof.
  destruct (fail_task "task_1" "RuntimeError: model" (seconds 2) "5" 1 60 (run demo_blocked))
    as [[st|e] d'] eqn:E; [|vm_compute in E; discriminate E].
  assert (st = "retry") as -> by (vm_compute in E; injection E as <- _; reflexivity).
  split; [reflexivity|].
  destruct (row_exists (λ t, row_shows t "task_1" "running" (Some 60000020))
    (tasks (run demo_blocked))) as (t & Ht & (Hid & _ & _)%row_shows_true);
    [vm_compute; reflexivity|].
  exists t.
  exact (failed_task_is_scheduled (run demo_blocked) "task_1" "RuntimeError: model" (seconds 2) "5" 1
    60 d' t demo_blocked_reachable E Ht Hid).
Defined.

(** The memory task of a message can finish before its ingest task.  The message is
    then [processed], and the dead letter of the ingest task finalizes nothing: its
    note stage stays open and holds the note watermark of the space. *)
Theorem overtaken_ingest_leaves_note_open :
  map (λ m, (m_status m, m_note_status m, m_memory_status m)) (inbox_messages (run overtaken))
  = [("processed", "pending", "completed")]
  ∧ map t_status (tasks (run overtaken)) = ["dead_letter"; "completed"]
  ∧ map sp_note_watermark (spaces (run overtaken)) = [0].
Proof. vm_compute. split_and!; reflexivity. Qed.
End witnesses.
