(* ===== verification/Publication.v ===== *)
(** The transactional outbox: whenever a task is queued, the event that asks a
    worker for its next attempt has been written, by the transaction that queued it.

    The events that the SQL completion writes are named by an MD5 digest, and a name
    that is taken is skipped ([ON CONFLICT DO NOTHING]); that no event is lost this
    way rests on the digests of the program's own names not colliding. *)

From stdpp Require Import base list strings gmap pretty relations.
From Stdlib Require Import ZArith Lia.
From S2P Require Import Prelude Schema Consistency Dispatch Stages Tasks Watermark.
From S2P Require Import Invariant Runs Operations Completion Outbox Pipeline Fencing.

Open Scope string_scope.
Open Scope Z_scope.

(** * The digests of the program's names *)

Definition task_name `{Platform} (n : nat) : string := "task_" +:+ str_take 12 (uuid4_hex n).
Definition attempt_name (tid : string) (k : Z) : string := tid +:+ ":" +:+ pretty k.

(** MD5 tells apart the attempts of the tasks that the program creates, and its 32
    digits are not the 12 digits of a random event id. *)
Class Digests `{Platform} : Prop := {
  md5_distinct : ∀ n n' k k',
    md5_hex (attempt_name (task_name n) k) = md5_hex (attempt_name (task_name n') k') →
    attempt_name (task_name n) k = attempt_name (task_name n') k';
  md5_long : ∀ s n, md5_hex s ≠ str_take 12 (uuid4_hex n);
}.

#[export] Instance test_digests : Digests (H := test_platform).
Proof.
  split.
  - intros n n' k k' E. exact (inj (String.append "md5:") _ _ E).
  - intros s n E. simpl in E.
    assert (no_colon (str_take 12 (pretty (N.of_nat n)))) as Hno.
    { apply take_no_colon, pretty_N_no_colon. }
    rewrite <- E in Hno. destruct Hno as (_ & _ & _ & Hc & _). by apply Hc.
Qed.

(** * The invariant *)

(** The event asks for attempt [k] of the task. *)
Definition requests (e : outbox_event) (tid : string) (k : Z) : Prop :=
  e_event_type e = "task.requested" ∧ e_aggregate_id e = tid
  ∧ rq_task_id (e_payload_json e) = tid ∧ rq_attempt (e_payload_json e) = k.

Definition requested (d : db) (t : task) : Prop :=
  ∃ e, e ∈ outbox_events d ∧ requests e (t_id t) (t_attempt_count t + 1).

Section publication.
Context `{Platform}.

Definition named (t : task) : Prop := (∃ n, t_id t = task_name n) ∧ 0 <= t_attempt_count t.

Definition known_event (e : outbox_event) : Prop :=
  (∃ n, e_id e = "event_" +:+ str_take 12 (uuid4_hex n))
  ∨ ∃ n k, e_id e = "event_" +:+ md5_hex (attempt_name (task_name n) k)
      ∧ requests e (task_name n) k.

(** A task that is not running and will not be queued for the same attempt again. *)
Definition spent (t : task) : Prop := t_status t ∈ "queued" :: TERMINAL.

(** An event is about an attempt that was claimed, or about the next attempt of a
    task that is queued or over. *)
Definition serves (e : outbox_event) (t : task) : Prop :=
  rq_attempt (e_payload_json e) <= t_attempt_count t
  ∨ (rq_attempt (e_payload_json e) = t_attempt_count t + 1 ∧ spent t).

Record published (d : db) : Prop := {
  published_events : ∀ e, e ∈ outbox_events d → known_event e;
  published_tasks : ∀ t, t ∈ tasks d → named t;
  published_queued : ∀ t, t ∈ tasks d → t_status t = "queued" → requested d t;
  published_ids : NoDup (map t_id (tasks d));
  published_unique : unique_events d;
  published_known : ∀ e, e ∈ outbox_events d → rq_task_id (e_payload_json e) ∈ map t_id (tasks d);
  published_served : ∀ e t, e ∈ outbox_events d → t ∈ tasks d →
    t_id t = rq_task_id (e_payload_json e) → serves e t;
}.

(** Changes of a task that queue nothing. *)
Definition subsides (t t' : task) : Prop :=
  t_id t' = t_id t ∧ t_attempt_count t <= t_attempt_count t'
  ∧ (t_status t' = "queued" → t_status t = "queued" ∧ t_attempt_count t' = t_attempt_count t)
  ∧ (spent t → spent t' ∨ t_attempt_count t < t_attempt_count t').

Record quiet (d d' : db) : Prop := {
  quiet_events : map event_body (outbox_events d') = map event_body (outbox_events d);
  quiet_ids : map t_id (tasks d') = map t_id (tasks d);
  quiet_tasks : ∀ t', t' ∈ tasks d' → ∃ t, t ∈ tasks d ∧ subsides t t';
}.

#[export] Instance subsides_preorder : PreOrder subsides.
Proof.
  split.
  - intros t. split_and!; [done|lia|done|by left].
  - intros t1 t2 t3 (Hid1 & Hle1 & Hq1 & Hs1) (Hid2 & Hle2 & Hq2 & Hs2).
    split_and!; [congruence|lia| |].
    + intros Hq. destruct (Hq2 Hq) as [Hq' ?]. destruct (Hq1 Hq'). split; [done|congruence].
    + intros Hs. destruct (Hs1 Hs) as [Hs'|]; [|right; lia].
      destruct (Hs2 Hs'); [by left|right; lia].
Qed.

(** The ways a task subsides: its claim ends, it is over, it is claimed. *)
Lemma subsides_running t t' :
  t_status t = "running" → t_id t' = t_id t → t_attempt_count t' = t_attempt_count t →
  t_status t' ≠ "queued" → subsides t t'.
Proof.
  intros Hrun Hid Hc Hst. split_and!; [done|lia|done|]. unfold spent. rewrite Hrun.
  intros Hs%py_in_true. done.
Qed.

Lemma subsides_ended t t' :
  t_id t' = t_id t → t_attempt_count t' = t_attempt_count t → t_status t' ∈ TERMINAL →
  subsides t t'.
Proof.
  intros Hid Hc Hst. split_and!; [done|lia| |].
  - intros Hq. rewrite Hq in Hst. by apply py_in_true in Hst.
  - left. unfold spent. by right.
Qed.

Lemma subsides_claimed t t' :
  t_id t' = t_id t → t_attempt_count t < t_attempt_count t' → t_status t' ≠ "queued" →
  subsides t t'.
Proof. intros. split_and!; [done|lia|done|by right]. Qed.

Lemma serves_subsides e e' t t' :
  e_payload_json e' = e_payload_json e → subsides t t' → serves e t → serves e' t'.
Proof.
  intros He (_ & Hle & _ & Hs) Hsv. unfold serves in *. rewrite He.
  destruct Hsv as [|[Ha Hsp]]; [left; lia|]. destruct (Hs Hsp) as [Hsp'|]; [|left; lia].
  destruct (decide (t_attempt_count t' = t_attempt_count t)); [right; split; [lia|done]|left; lia].
Qed.

Lemma same_body es es' e' :
  map event_body es' = map event_body es → e' ∈ es' →
  ∃ e, e ∈ es ∧ event_body e = event_body e'.
Proof.
  intros E He. apply (elem_of_map_in event_body) in He. rewrite E in He.
  apply elem_of_map in He as (e & ? & ?). eauto.
Qed.

Lemma event_ids_body es es' :
  map event_body es' = map event_body es → map e_id es' = map e_id es.
Proof.
  intros E. apply (f_equal (map (λ b : string * string * string * string * task_request * Z,
    b.1.1.1.1.1))) in E. by rewrite !map_map in E.
Qed.

Lemma known_event_body e e' : event_body e' = event_body e → known_event e → known_event e'.
Proof.
  unfold event_body, known_event, requests. intros E. injection E as Hi Ht _ Ha Hp _.
  by rewrite Hi, Ht, Ha, Hp.
Qed.

Lemma requests_body e e' tid k : event_body e' = event_body e → requests e tid k → requests e' tid k.
Proof.
  unfold event_body, requests. intros E. injection E as _ Ht _ Ha Hp _. by rewrite Ht, Ha, Hp.
Qed.

#[export] Instance quiet_preorder : PreOrder quiet.
Proof.
  split.
  - intros d. split; [done..|]. intros t Ht. exists t. done.
  - intros d1 d2 d3 [He1 Hi1 Ht1] [He2 Hi2 Ht2]. split; [congruence|congruence|].
    intros t3 Hin3. destruct (Ht2 t3 Hin3) as (t2 & Hin2 & Hs2).
    destruct (Ht1 t2 Hin2) as (t1 & Hin1 & Hs1). exists t1. split; [done|by etrans].
Qed.

Lemma quiet_published d d' : quiet d d' → published d → published d'.
Proof.
  intros [He Hi Ht] [Hk Hn Hq Hids Hu Hkn Hsv]. split.
  - intros e' (e & Hin & Hb)%(same_body _ _ _ He).
    eapply known_event_body; [by rewrite Hb|auto].
  - intros t' Hin. destruct (Ht t' Hin) as (t & Hint & Hid & Hle & _).
    destruct (Hn t Hint) as [[n ?] ?]. split; [exists n; congruence|lia].
  - intros t' Hin Hst. destruct (Ht t' Hin) as (t & Hint & Hid & _ & Hst' & _).
    destruct (Hst' Hst) as [Hs Hc]. destruct (Hq t Hint Hs) as (e & Hin' & Hr).
    apply (same_body _ _ _ (eq_sym He)) in Hin' as (e' & Hin' & Hb). exists e'.
    split; [done|]. rewrite Hid, Hc. by eapply requests_body.
  - by rewrite Hi.
  - unfold unique_events. by rewrite (event_ids_body _ _ He).
  - intros e' (e & Hin & Hb)%(same_body _ _ _ He). unfold event_body in Hb. rewrite Hi.
    injection Hb as _ _ _ _ <- _. auto.
  - intros e' t' (e & Hin & Hb)%(same_body _ _ _ He) Ht' Hid.
    destruct (Ht t' Ht') as (t & Hint & Hs). unfold event_body in Hb.
    injection Hb as _ _ _ _ Hp _.
    eapply (serves_subsides e e' t t'); [done|done|]. apply Hsv; [done|done|].
    destruct Hs as [<- _]. by rewrite Hid, Hp.
Qed.

Lemma quiet_same d d' : outbox_events d' = outbox_events d → tasks d' = tasks d → quiet d d'.
Proof. intros He Ht. split; [by rewrite He|by rewrite Ht|]. rewrite Ht. intros t Hin. by exists t. Qed.

Lemma quiet_relays marked d d' : relays marked d d' → quiet d d'.
Proof.
  intros [(_ & _ & Ht) _ _ E]. split; [|by rewrite Ht|rewrite Ht; intros t Hin; by exists t].
  induction E as [|e e' l l' (Hb & _) _ IH]; simpl; [done|by rewrite Hb, IH].
Qed.

Lemma quiet_update p f d :
  (∀ t, t ∈ tasks d → p t = true → subsides t (f t)) → (∀ t, t_id (f t) = t_id t) →
  quiet d (update_tasks p f d).
Proof.
  intros Hf Hid. split; [done|by apply update_column|]. intros t' (t & Ht & ->)%elem_of_update. exists t.
  destruct (p t) eqn:E; [|done]. split; [done|]. by apply Hf.
Qed.

Lemma quiet_save t t' d :
  NoDup (map t_id (tasks d)) → t ∈ tasks d → subsides t t' →
  quiet d (update_tasks (λ r, String.eqb (t_id r) (t_id t')) (λ _, t') d).
Proof.
  intros Hnd Ht Hs. split; [done| |].
  - apply update_column_keyed. intros r Hr%String.eqb_eq. done.
  - intros r' (r & Hr & ->)%elem_of_update. destruct (String.eqb_spec (t_id r) (t_id t')); [|by exists r].
    exists t. done.
Qed.

(** Quiet operations. *)
Lemma new_id_quiet p : sat quiet (new_id p).
Proof. unfold new_id, draw_uuid. sat_auto. by apply quiet_same. Qed.
Lemma finish_attempt_quiet tid n st et es now : sat quiet (finish_attempt tid n st et es now).
Proof. unfold finish_attempt. sat_auto. by apply quiet_same. Qed.
Lemma insert_space_quiet ten src ssid pid : sat quiet (insert_space ten src ssid pid).
Proof. unfold insert_space. sat_auto; by apply quiet_same. Qed.
Lemma ensure_quiet ssid ten src : sat quiet (ensure_tenant_space ssid ten src).
Proof.
  unfold ensure_tenant_space, get_space, insert_tenant, select_space_identity, or_else.
  sat_auto; auto using insert_space_quiet; apply quiet_same; by destruct (bool_decide _).
Qed.

(** ** Publishing *)

Lemma new_id_Ok p d i d' : new_id p d = Ok (i, d') → ∃ n, i = p +:+ "_" +:+ str_take 12 (uuid4_hex n).
Proof. unfold new_id, draw_uuid. intros R. run1 R. eauto. Qed.

(** Events that are appended. *)
Lemma unique_app e d d' :
  outbox_events d' = (outbox_events d ++ [e])%list → e_id e ∉ map e_id (outbox_events d) →
  unique_events d → unique_events d'.
Proof.
  unfold unique_events. intros -> Hni Hu. rewrite map_app. apply NoDup_app.
  split_and!; [done| |apply NoDup_singleton]. by intros i Hi ->%list_elem_of_singleton.
Qed.

Lemma id_fresh i es :
  existsb (λ e, String.eqb (e_id e) i) es = false → i ∉ map e_id es.
Proof.
  intros Hno (e & <- & He)%elem_of_map. apply not_true_iff_false in Hno. apply Hno, existsb_exists.
  exists e. split; [by apply list_elem_of_In|apply String.eqb_refl].
Qed.

(** The row that is about to be queued is not behind the events about it. *)
Definition current (d : db) (t : task) : Prop :=
  named t ∧ t_id t ∈ map t_id (tasks d)
  ∧ ∀ e, e ∈ outbox_events d → rq_task_id (e_payload_json e) = t_id t →
      rq_attempt (e_payload_json e) <= t_attempt_count t + 1.

Lemma published_current d t : published d → t ∈ tasks d → current d t.
Proof.
  intros Hp Ht. split_and!; [by apply (published_tasks d Hp)|by apply elem_of_map_in|].
  intros e He Hid. destruct (published_served d Hp e t He Ht) as [|[? _]]; [done|lia|lia].
Qed.

Lemma new_id_events p :
  sat (λ d d', outbox_events d' = outbox_events d ∧ tasks d' = tasks d) (new_id p).
Proof. unfold new_id, draw_uuid. intros d i d' R. by run1 R. Qed.

Lemma publish_Ok (src : task + (string * string)) k now d i d' :
  publish_task_request src k now d = Ok (i, d') →
  ∃ e, tasks d' = tasks d ∧ outbox_events d' = (outbox_events d ++ [e])%list ∧ known_event e
    ∧ requests e match src with inl t => t_id t | inr (tid, _) => tid end (Z.max 1 k)
    ∧ e_id e ∉ map e_id (outbox_events d).
Proof.
  unfold publish_task_request. intros R.
  apply bind_Ok in R as (row & d1 & R1 & R).
  assert (d1 = d) as -> by (destruct src as [t|[tid ty]]; [|unfold get_task in R1]; by run1 R1).
  apply bind_Ok in R as (eid & d1 & R2 & R).
  destruct (new_id_Ok _ _ _ _ R2) as [n Hn]. apply new_id_events in R2 as [He1 Ht1].
  apply bind_Ok in R as (u & d2 & R3 & R). run1 R. unfold add_task_event in R3.
  apply bind_Ok in R3 as (c & d3 & [-> ->]%gets_Ok & R3).
  destruct (existsb _ _) eqn:Ef in R3; run1 R3. eexists.
  split_and!; [done|by rewrite He1| |by split_and!|].
  - left. by exists n.
  - rewrite <- He1. by apply id_fresh.
Qed.

(** A row is queued together with its event, in either order. *)
Definition queues (t : task) (d d' : db) : Prop :=
  ∃ e, known_event e ∧ requests e (t_id t) (t_attempt_count t + 1)
    ∧ (e_id e ∉ map e_id (outbox_events d))
    ∧ outbox_events d' = (outbox_events d ++ [e])%list
    ∧ tasks d' = update_where (λ r, String.eqb (t_id r) (t_id t)) (λ _, activate_row t) (tasks d).

Lemma serves_queued e t :
  rq_attempt (e_payload_json e) <= t_attempt_count t + 1 → serves e (activate_row t).
Proof.
  intros Hle. unfold serves, spent. simpl.
  destruct (decide (rq_attempt (e_payload_json e) <= t_attempt_count t)); [by left|right].
  split; [lia|by left].
Qed.

Lemma queues_ids t d d' : queues t d d' → map t_id (tasks d') = map t_id (tasks d).
Proof.
  intros (e & _ & _ & _ & _ & ->). apply update_column_keyed. by intros r Hr%String.eqb_eq.
Qed.

Lemma queue_published t d d' : published d → current d t → queues t d d' → published d'.
Proof.
  intros [Hk Hn Hq Hids Hu Hkn Hsv] (Hname & Hknown & Hcur) Hqs. pose proof (queues_ids _ _ _ Hqs) as Hids'.
  destruct Hqs as (e & Hke & Hreq & Hfresh & He & Ht). pose proof Hreq as (_ & _ & Hrid & Hra).
  split; unfold requested; rewrite ?Hids', ?He; try done.
  - intros e' [?|Hin]%elem_of_app; [auto|]. by apply list_elem_of_singleton in Hin as ->.
  - rewrite Ht. intros r' (r & Hr & ->)%elem_of_update. destruct (String.eqb _ _); [done|auto].
  - rewrite Ht. intros r' (r & Hr & ->)%elem_of_update Hst.
    destruct (String.eqb _ _).
    + exists e. split; [|done]. apply elem_of_app. right. by left.
    + destruct (Hq r Hr Hst) as (e' & Hin & ?). exists e'. split; [|done].
      apply elem_of_app. by left.
  - by eapply unique_app.
  - intros e' [?|Hin]%elem_of_app; [auto|]. apply list_elem_of_singleton in Hin as ->.
    by rewrite Hrid.
  - rewrite Ht. intros e' r' Hin (r & Hr & ->)%elem_of_update.
    destruct (String.eqb_spec (t_id r) (t_id t)) as [Heq|Hne]; intros Hid.
    + apply serves_queued. apply elem_of_app in Hin as [Hin|Hin]; [by apply Hcur|].
      apply list_elem_of_singleton in Hin as ->. lia.
    + apply elem_of_app in Hin as [Hin|Hin]; [auto|].
      apply list_elem_of_singleton in Hin as ->. congruence.
Qed.

Lemma queue_current t t2 d d' :
  current d t2 → t_id t2 ≠ t_id t → queues t d d' → current d' t2.
Proof.
  intros (Hn & Hin & Hcur) Hne Hq. pose proof (queues_ids _ _ _ Hq) as Hids.
  destruct Hq as (e & _ & (_ & _ & Hrid & _) & _ & He & _).
  split_and!; [done|by rewrite Hids|]. rewrite He. intros e' [?|Hin']%elem_of_app; [auto|].
  apply list_elem_of_singleton in Hin' as ->. congruence.
Qed.

(** A loop that queues distinct rows. *)
Lemma queue_loop (body : task → session unit) rows :
  (∀ t d u d', named t → body t d = Ok (u, d') → queues t d d') →
  ∀ d u d', NoDup (map t_id rows) → (∀ t, t ∈ rows → current d t) → published d →
    for_each rows body d = Ok (u, d') → published d'.
Proof.
  intros Hbody. induction rows as [|t rows IH]; intros d u d' Hnd Hcur Hp R; simpl in R; [by run1 R|].
  apply NoDup_cons in Hnd as [Hni Hnd].
  pose proof (Hcur t (list_elem_of_here _ _)) as Ht.
  apply bind_Ok in R as (v & d1 & R1 & R). apply Hbody in R1; [|apply Ht].
  eapply IH; [done| |by eapply queue_published|exact R].
  intros t2 Ht2. eapply queue_current; [apply Hcur; by right| |done].
  intros Heq. apply Hni. rewrite <- Heq. by apply elem_of_map_in.
Qed.

Lemma named_requested t : named t → Z.max 1 (t_attempt_count t + 1) = t_attempt_count t + 1.
Proof. intros [_ ?]. lia. Qed.

Lemma activate_queues now t d u d' :
  named t → activate_and_publish now t d = Ok (u, d') → queues t d d'.
Proof.
  intros Hn R. unfold activate_and_publish, save_task in R.
  apply bind_Ok in R as (v & d1 & ->%modify_Ok & R).
  apply bind_Ok in R as (i & d2 & R1 & R). run1 R.
  apply publish_Ok in R1 as (e & Ht & He & Hk & Hr & Hf). simpl in Hr.
  rewrite named_requested in Hr by done. by exists e.
Qed.

Lemma advance_published sp now d u d' :
  published d → advance_watermarks_in_session sp now d = Ok (u, d') → published d'.
Proof.
  intros Hp R. unfold advance_watermarks_in_session, save_space in R.
  apply bind_Ok in R as (rows & d1 & [-> ->]%gets_Ok & R).
  apply bind_Ok in R as (v & d1 & ->%modify_Ok & R).
  apply bind_Ok in R as (n & d2 & R1 & R). run1 R. unfold activate_ready_tasks_in_session in R1.
  apply bind_Ok in R1 as (ts & d1 & [-> ->]%gets_Ok & R1).
  apply bind_Ok in R1 as (v2 & d3 & R2 & R1). run1 R1.
  assert (published (update_spaces (λ r, String.eqb (sp_id r) (sp_id (advance_row sp
    (messages_of (sp_id sp) d)))) (λ _, advance_row sp (messages_of (sp_id sp) d)) d)) as Hp'
    by (refine (quiet_published _ _ _ Hp); by apply quiet_same).
  eapply (queue_loop _ _ (activate_queues now)); [| |exact Hp'|exact R2].
  - rewrite (Permutation_map t_id (sort_by_Permutation _ _)). apply NoDup_select, Hp.
  - intros t [Ht _]%elem_of_sort_by%elem_of_select. by apply published_current.
Qed.

Lemma stage_published iid st err now :
  sat (keeps published) (complete_inbox_stage_in_session iid st err now).
Proof.
  intros d u d' R Hp. apply complete_inbox_stage_Ok in R as (m & sp & d1 & _ & _ & _ & _ & -> & R).
  eapply advance_published; [|exact R]. refine (quiet_published _ _ _ Hp); by apply quiet_same.
Qed.

(** A new row, with the event that asks for its first attempt when it is queued. *)
Lemma add_published row oe d d' :
  published d → named row → t_id row ∉ map t_id (tasks d) → t_attempt_count row = 0 →
  tasks d' = (tasks d ++ [row])%list →
  match oe with
  | Some e => outbox_events d' = (outbox_events d ++ [e])%list ∧ known_event e
      ∧ requests e (t_id row) 1 ∧ (e_id e ∉ map e_id (outbox_events d)) ∧ t_status row = "queued"
  | None => outbox_events d' = outbox_events d ∧ t_status row ≠ "queued"
  end → published d'.
Proof.
  intros [Hk Hn Hq Hids Hu Hkn Hsv] Hrow Hfresh Hcount Ht Hoe.
  assert (∀ t, t ∈ tasks d' → t ∈ tasks d ∨ t = row) as Hin.
  { rewrite Ht. intros t [?|?%list_elem_of_singleton]%elem_of_app; auto. }
  assert (∀ e', e' ∈ outbox_events d' → e' ∈ outbox_events d ∨ oe = Some e') as Hev.
  { intros e' He'. destruct oe as [e|]; destruct Hoe as [He _]; rewrite He in He'; [|by left].
    apply elem_of_app in He' as [?|?%list_elem_of_singleton]; [by left|right; by f_equal]. }
  assert (∀ e', e' ∈ outbox_events d → e' ∈ outbox_events d') as Hincl.
  { intros e' He'. destruct oe; destruct Hoe as [-> _]; [|done]. apply elem_of_app. by left. }
  assert (∀ e', oe = Some e' → known_event e' ∧ requests e' (t_id row) 1
    ∧ e' ∈ outbox_events d' ∧ t_status row = "queued") as Hnew.
  { intros e' ->. destruct Hoe as (-> & ? & ? & _ & ?). split_and!; [done..| |done].
    apply elem_of_app. right. by left. }
  split; unfold requested.
  - intros e' [?|He']%Hev; [auto|]. by apply Hnew.
  - intros t [?| ->]%Hin; auto.
  - intros t [Ht'| ->]%Hin Hst.
    + destruct (Hq t Ht' Hst) as (e' & ? & ?). eauto.
    + rewrite Hcount. destruct oe as [e|]; [|by destruct Hoe]. exists e.
      destruct (Hnew e eq_refl) as (_ & ? & ? & _). done.
  - rewrite Ht, map_app. apply NoDup_app. split_and!; [done| |apply NoDup_singleton].
    by intros i Hi ->%list_elem_of_singleton.
  - destruct oe as [e|]; destruct Hoe as [He Hoe]; [|unfold unique_events; by rewrite He].
    by eapply unique_app; [exact He|apply Hoe|].
  - rewrite Ht, map_app. intros e' [?|He']%Hev; apply elem_of_app; [left; auto|right].
    destruct (Hnew _ He') as (_ & (_ & _ & -> & _) & _). by left.
  - intros e' t Hin' [Ht'| ->]%Hin Hid; apply Hev in Hin' as [He'|He'].
    + auto.
    + exfalso. apply Hfresh. destruct (Hnew _ He') as (_ & (_ & _ & Hr & _) & _).
      rewrite <- Hr, <- Hid. by apply elem_of_map_in.
    + exfalso. apply Hfresh. rewrite Hid. auto.
    + destruct (Hnew _ He') as (_ & (_ & _ & _ & Hr) & _ & Hst). right. rewrite Hr, Hcount.
      split; [done|]. unfold spent. rewrite Hst. by left.
Qed.

Lemma enqueue_published ctx a now d r d' :
  ta_publish a = String.eqb (ta_initial_status a) "queued" →
  published d → enqueue_task_in_session ctx a now d = Ok (r, d') → published d'.
Proof.
  intros Hpub Hp R. unfold enqueue_task_in_session in R. destruct (_ && negb _); [run1 R|].
  apply bind_Ok in R as (tid & d1 & R1 & R). destruct (new_id_Ok _ _ _ _ R1) as [n Hn].
  apply new_id_quiet in R1. pose proof (quiet_published _ _ R1 Hp) as Hp1. clear R1 Hp d.
  apply bind_Ok in R as (o & d2 & R2 & R).
  apply insert_task_Ok in R2 as [[-> ->]|(-> & -> & Hnew)].
  { apply bind_Ok in R as (l & d2 & [-> ->]%gets_Ok & R).
    apply bind_Ok in R as (e & d2 & [_ ->]%lift_result_Ok & R). by run1 R. }
  apply bind_Ok in R as (u & d2 & R2 & R). run1 R.
  set (row := new_task_row tid a _ now) in *.
  assert (named row) as Hrow by (split; [by exists n|done]).
  assert (t_id row ∉ map t_id (tasks d1)) as Hfresh
    by (intros (t & Hid & Ht)%elem_of_map; by apply (Hnew t)).
  destruct (ta_publish a).
  - apply bind_Ok in R2 as (i & d3 & R3 & R2). run1 R2.
    apply publish_Ok in R3 as (e & Ht & He & Hke & Hr & Hf). simpl in Hr.
    apply (add_published row (Some e) d1); [done..|]. split_and!; try done.
    symmetry in Hpub. by apply String.eqb_eq in Hpub.
  - run1 R2. apply (add_published row None d1); [done..|]. split; [done|]. simpl. intros Hst.
    rewrite Hst in Hpub. done.
Qed.

Lemma receive_published ctx c now : sat (keeps published) (receive_in_session ctx c now).
Proof.
  intros d r d' R Hp. unfold receive_in_session in R.
  apply bind_Ok in R as (sid & d1 & R1%ensure_quiet & R).
  pose proof (quiet_published _ _ R1 Hp) as Hp1. clear R1 Hp d.
  apply bind_Ok in R as (rows & d2 & [-> ->]%gets_Ok & R).
  apply bind_Ok in R as (o & d2 & [_ ->]%lift_result_Ok & R).
  destruct o as [m|].
  { apply bind_Ok in R as (l & d2 & [-> ->]%gets_Ok & R).
    apply bind_Ok in R as (t & d2 & [_ ->]%lift_result_Ok & R). by run1 R. }
  unfold receive_new in R. apply bind_Ok in R as (n & d2 & [-> ->]%gets_Ok & R).
  apply bind_Ok in R as (iid & d2 & R1%new_id_quiet & R).
  pose proof (quiet_published _ _ R1 Hp1) as Hp2. clear R1.
  apply bind_Ok in R as (u & d3 & R1 & R). apply add_inbox_Ok in R1 as [-> _].
  apply bind_Ok in R as (sp & d3 & R1 & R). apply select_space_Ok in R1 as (-> & _ & _).
  apply bind_Ok in R as (tb & d3 & R1 & R).
  apply enqueue_published in R1; [|done|].
  2:{ refine (quiet_published _ _ _ Hp2); by apply quiet_same. }
  apply bind_Ok in R as (v & d4 & R2 & R). run1 R.
  destruct (String.eqb _ "ingest") in R2; [by run1 R2|exact (advance_published _ _ _ _ _ R1 R2)].
Qed.

(** ** Ending a claim *)

Lemma claim_published tid w secs now : sat (keeps published) (claim_in_session tid w secs now).
Proof.
  intros d o d' R Hp. pose proof (published_ids _ Hp) as Hids.
  cut (quiet d d'); [intros Hq; exact (quiet_published _ _ Hq Hp)|]. clear Hp. unfold claim_in_session, save_task in R.
  apply bind_Ok in R as (tok & d1 & R1 & R).
  assert (quiet d d1) as Hq by (unfold draw_uuid in R1; run1 R1; by apply quiet_same).
  apply bind_Ok in R as (rows & d2 & [-> ->]%gets_Ok & R).
  apply bind_Ok in R as (c & d2 & [Hc ->]%lift_result_Ok & R).
  destruct c as [t|]; [|by run1 R]. apply scalar_one_or_none_Some, select_singleton in Hc as [Hin _].
  apply bind_Ok in R as (u & d2 & R2 & R).
  assert (quiet d1 d2 ∧ tasks d2 = tasks d1) as [Hq2 Ht2].
  { unfold expire_attempts in R2. destruct (String.eqb _ _) in R2; run1 R2; (split; [by apply quiet_same|done]). }
  apply bind_Ok in R as (v & d3 & ->%modify_Ok & R).
  apply bind_Ok in R as (v' & d4 & R4 & R). run1 R.
  etrans; [exact Hq|]. etrans; [exact Hq2|]. etrans.
  - apply (quiet_save t (claim_row w tok (now + seconds (Z.max 1 secs)) now t));
      rewrite ?Ht2; [by rewrite (quiet_ids _ _ Hq)|done|]. apply subsides_claimed; [done|simpl; lia|done].
  - unfold record_attempt in R4. apply bind_Ok in R4 as (k & d5 & [-> ->]%gets_Ok & R4).
    destruct (existsb _ _) in R4; run1 R4. by apply quiet_same.
Qed.

Lemma defer_published tid why dl tok v now : sat (keeps published) (defer_in_session tid why dl tok v now).
Proof.
  intros d b d' R Hp. pose proof (published_ids _ Hp) as Hids.
  cut (quiet d d'); [intros Hq; exact (quiet_published _ _ Hq Hp)|]. clear Hp. unfold defer_in_session, save_task in R.
  apply bind_Ok in R as (o & d1 & R1 & R). apply owned_Ok in R1 as [-> Hown].
  destruct o as [t|]; [|by run1 R].
  destruct (Hown t eq_refl) as [Hin (_ & Hrun & _)%owns_facts].
  apply bind_Ok in R as (u & d1 & ->%modify_Ok & R).
  apply bind_Ok in R as (w & d2 & R2%finish_attempt_quiet & R). run1 R.
  etrans; [|exact R2]. apply (quiet_save t); [done..|]. by apply subsides_running.
Qed.

Lemma fail_published tid err dl tok v now : sat (keeps published) (fail_in_session tid err dl tok v now).
Proof.
  intros d b d' R Hp. unfold fail_in_session, save_task in R.
  apply bind_Ok in R as (o & d1 & R1 & R). apply owned_Ok in R1 as [-> Hown].
  destruct o as [t|]; [|by run1 R].
  destruct (Hown t eq_refl) as [Hin (_ & Hrun & _)%owns_facts].
  apply bind_Ok in R as (u & d1 & ->%modify_Ok & R).
  apply bind_Ok in R as (w & d2 & R2%finish_attempt_quiet & R).
  apply bind_Ok in R as (w' & d3 & R3 & R). run1 R.
  assert (published d2) as Hp2.
  { refine (quiet_published _ _ _ Hp). etrans; [|exact R2].
    apply (quiet_save t); [apply Hp|done|]. apply subsides_running; [done..|].
    simpl. by destruct (_ <=? _). }
  destruct (String.eqb _ "dead_letter") in R3; [|by run1 R3].
  revert Hp2. refine ((_ : sat (keeps published) _) _ _ _ R3).
  unfold release_barrier, cancel_blocked_dependents, mark_inbox_memory_completed_in_session,
    finalize_inbox_in_session. sat_auto; auto using stage_published.
  intros Hp'. refine (quiet_published _ _ _ Hp'). apply quiet_update; [|done].
  intros r _ _. by apply subsides_ended, py_in_true.
Qed.

Lemma skip_published iid final cancel now : sat (keeps published) (skip_in_session iid final cancel now).
Proof.
  intros d b d' R Hp. unfold skip_in_session, save_inbox, cancel_root_tasks in R.
  apply bind_Ok in R as (o & d1 & R1 & R). apply select_inbox_Ok in R1 as [-> Hm].
  destruct o as [m|]; [|by run1 R].
  apply bind_Ok in R as (sp & d1 & R1 & R). apply select_space_Ok in R1 as (-> & _ & _).
  apply bind_Ok in R as (v & d1 & ->%modify_Ok & R).
  apply bind_Ok in R as (w & d2 & R2 & R).
  apply bind_Ok in R as (w' & d3 & R3 & R). run1 R.
  eapply advance_published; [|exact R3]. refine (quiet_published _ _ _ Hp).
  destruct cancel; run1 R2; [|by apply quiet_same].
  etrans; [|apply quiet_update; [|done]; intros r _ _; by apply subsides_ended, py_in_true].
  by apply quiet_same.
Qed.

Lemma requeue_queues now t d u d' : named t → requeue now t d = Ok (u, d') → queues t d d'.
Proof.
  intros _ R. unfold requeue, save_task in R. apply bind_Ok in R as (i & d2 & R2 & R1).
  destruct (new_id_Ok _ _ _ _ R2) as [n Hi]. apply new_id_events in R2 as [He2 Ht2].
  apply bind_Ok in R1 as (w & d3 & R3 & R1). run1 R1. unfold add_task_event in R3.
  apply bind_Ok in R3 as (c & d4 & [-> ->]%gets_Ok & R3).
  destruct (existsb _ _) eqn:Ef in R3; run1 R3. apply id_fresh in Ef.
  unfold queues. rewrite <- He2, <- Ht2. eexists.
  split_and!; [..|reflexivity|done]; [left; by exists n|done|done].
Qed.

Lemma due_retries_published lim ids now : sat (keeps published) (due_retries_in_session lim ids now).
Proof.
  intros d n d' R Hp. unfold due_retries_in_session in R.
  apply bind_Ok in R as (rows & d1 & [-> ->]%gets_Ok & R).
  apply bind_Ok in R as (u & d2 & R2 & R). run1 R.
  eapply (queue_loop _ _ (requeue_queues now)); [| |exact Hp|exact R2].
  - apply NoDup_map_take. rewrite (Permutation_map t_id (sort_by_Permutation _ _)).
    apply NoDup_select, Hp.
  - intros t [Ht _]%in_take%elem_of_sort_by%elem_of_select. by apply published_current.
Qed.

(** ** The events of the SQL completion *)

Section statement.
Context `{!Digests}.

(** An activation whose event name is taken has been requested already. *)
Lemma taken_name e t :
  known_event e → named t → e_id e = activation_event_id t →
  requests e (t_id t) (t_attempt_count t + 1).
Proof.
  intros Hk [[n Hn] _] Hid. unfold activation_event_id in Hid. rewrite Hn in Hid |- *.
  destruct Hk as [[n' Hr]|(n' & k & Hr & Hreq)]; rewrite Hr in Hid;
    apply (inj (String.append "event_")) in Hid.
  - symmetry in Hid. by apply md5_long in Hid.
  - apply md5_distinct in Hid. unfold attempt_name in Hid.
    apply split_at_last_colon in Hid as [<- Hk]; [|apply pretty_Z_no_colon..].
    apply (inj pretty) in Hk as <-. done.
Qed.

Lemma activation_known now t : named t → known_event (activation_event now t).
Proof.
  intros [[n Hn] _]. right. exists n, (t_attempt_count t + 1). unfold requests.
  simpl. unfold activation_event_id. by rewrite Hn.
Qed.

Lemma insert_event_incl es e e' : e' ∈ es → e' ∈ insert_event es e.
Proof. intros Hin. unfold insert_event. destruct (existsb _ es); [done|]. apply elem_of_app. by left. Qed.

Lemma insert_event_in es e e' : e' ∈ insert_event es e → e' ∈ es ∨ e' = e.
Proof.
  unfold insert_event. destruct (existsb _ es); [by left|].
  intros [?|?%list_elem_of_singleton]%elem_of_app; auto.
Qed.

Lemma insert_event_unique es e : NoDup (map e_id es) → NoDup (map e_id (insert_event es e)).
Proof.
  intros Hnd. unfold insert_event. destruct (existsb _ es) eqn:E; [done|]. apply id_fresh in E.
  rewrite map_app. apply NoDup_app. split_and!; [done| |apply NoDup_singleton].
  by intros i Hi ->%list_elem_of_singleton.
Qed.

Lemma insert_events now ts : ∀ es,
  (∀ e, e ∈ es → known_event e) → NoDup (map e_id es) → (∀ t, t ∈ ts → named t) →
  let es' := foldl insert_event es (map (activation_event now) ts) in
  NoDup (map e_id es') ∧ (∀ e, e ∈ es → e ∈ es')
  ∧ (∀ e, e ∈ es' → e ∈ es ∨ ∃ t, t ∈ ts ∧ e = activation_event now t)
  ∧ ∀ t, t ∈ ts → ∃ e, e ∈ es' ∧ requests e (t_id t) (t_attempt_count t + 1).
Proof.
  induction ts as [|t ts IH]; intros es Hk Hnd Hn; simpl.
  { split_and!; [done..|by left|]. by intros t ?%not_elem_of_nil. }
  assert (named t) as Ht by (apply Hn; by left).
  destruct (IH (insert_event es (activation_event now t))) as (Hnd' & Hincl & Hfrom & Hreq).
  - intros e [?| ->]%insert_event_in; [auto|by apply activation_known].
  - by apply insert_event_unique.
  - intros r Hr. apply Hn. by right.
  - split_and!; [done|intros e He; by apply Hincl, insert_event_incl| |].
    { intros e [[?| ->]%insert_event_in|(r & ? & ->)]%Hfrom; [by left| |].
      - right. exists t. by split; [left|].
      - right. exists r. by split; [right|]. }
    intros r [->|Hr]%elem_of_cons; [|auto].
    destruct (existsb (λ e', String.eqb (e_id e') (e_id (activation_event now t))) es) eqn:E.
    + apply existsb_exists in E as (e & He%list_elem_of_In & Hid%String.eqb_eq).
      exists e. split; [by apply Hincl, insert_event_incl|]. apply taken_name; [auto|done|done].
    + exists (activation_event now t). split; [|done]. apply Hincl. unfold insert_event.
      rewrite E. apply elem_of_app. right. by left.
Qed.

(** Queueing all the rows that satisfy a condition, with their events. *)
Lemma activate_all_published p now d d' :
  published d →
  let ts := select_where p (tasks d) in
  outbox_events d' = foldl insert_event (outbox_events d) (map (activation_event now) ts) →
  tasks d' = update_where p activate_row (tasks d) → published d'.
Proof.
  intros Hp ts He Ht.
  assert (∀ t, t ∈ ts → t ∈ tasks d) as Hts by (by intros t [? _]%elem_of_select).
  destruct (insert_events now ts (outbox_events d)) as (Hnd & Hincl & Hfrom & Hreq).
  { apply Hp. } { apply Hp. } { intros r Hr. by apply (published_tasks d Hp), Hts. }
  rewrite <- He in *.
  assert (map t_id (tasks d') = map t_id (tasks d)) as Hids by (rewrite Ht; by apply update_column).
  split; rewrite ?Hids; unfold requested; try apply Hp; try done.
  - intros e [?|(t & Htin & ->)]%Hfrom; [by apply Hp|].
    by apply activation_known, (published_tasks d Hp), Hts.
  - rewrite Ht. intros r' (r & Hr & ->)%elem_of_update. destruct (p r); apply (published_tasks d Hp r Hr).
  - rewrite Ht. intros r' (r & Hr & ->)%elem_of_update Hst. destruct (p r) eqn:E.
    + destruct (Hreq r) as (e & ? & ?); [by apply elem_of_select|]. by exists e.
    + destruct (published_queued d Hp r Hr Hst) as (e & ? & ?). exists e. auto.
  - intros e [?|(t & Htin & ->)]%Hfrom; [by apply Hp|]. simpl. by apply elem_of_map_in, Hts.
  - rewrite Ht. intros e r' Hin (r & Hr & ->)%elem_of_update Hid.
    assert (t_id r = rq_task_id (e_payload_json e)) as Hid' by (by destruct (p r)).
    apply Hfrom in Hin as [Hin|(t & Htin & ->)].
    + destruct (p r); [|by apply Hp]. apply serves_queued.
      destruct (published_current d r Hp Hr) as (_ & _ & Hcur). by apply Hcur.
    + assert (r = t) as ->.
      { apply (key_unique t_id (tasks d)); [apply Hp|done|by apply Hts|done]. }
      apply elem_of_select in Htin as [_ ->]. by apply serves_queued.
Qed.

Lemma sql_activation_ends sp now completed d :
  t_status completed = "running" → completed ∈ tasks d → NoDup (map t_id (tasks d)) →
  select_where (sql_ready_task sp) (tasks d)
  = select_where (sql_ready_task sp)
      (update_where (λ t, String.eqb (t_id t) (t_id completed)) (complete_row now) (tasks d)).
Proof.
  intros Hrun Hin Hnd. rewrite <- update_select_comm.
  - symmetry. apply update_nothing. intros t [Ht Hs]%elem_of_select. apply String.eqb_neq.
    intros Heq. assert (t = completed) as -> by (by apply (key_unique t_id (tasks d))).
    unfold sql_ready_task in Hs. rewrite Hrun in Hs. simpl in Hs.
    by rewrite andb_false_r in Hs.
  - intros t Ht Heq%String.eqb_eq.
    assert (t = completed) as -> by (by apply (key_unique t_id (tasks d))).
    unfold sql_ready_task. rewrite Hrun. simpl. by rewrite !andb_false_r.
Qed.

Lemma statement_published t m fl now d :
  t_status t = "running" → t ∈ tasks d →
  published d → published (inbox_outcome_statement t m fl now d).
Proof.
  intros Hrun Hin Hp. unfold inbox_outcome_statement.
  set (d1 := update_tasks _ (complete_row now) d).
  assert (published d1) as Hp1.
  { refine (quiet_published _ _ _ Hp). apply quiet_update; [|done].
    intros r _ _. by apply subsides_ended, py_in_true. }
  destruct (List.find _ _) as [sp|]; [|refine (quiet_published _ _ _ Hp1); by apply quiet_same].
  set (sp' := progress_space_row _ _ _ sp).
  eapply (activate_all_published (sql_ready_task sp') now d1); [done| |done].
  simpl. do 2 f_equal. apply sql_activation_ends; [done|done|apply Hp].
Qed.

Lemma complete_published tid tok v o now :
  truthy (activate_task_id o) = false → sat (keeps published) (complete_in_session tid tok v o now).
Proof.
  intros Hact d b d' R Hp. unfold complete_in_session in R.
  destruct (inbox_outcome o) as [[iid fl]|] eqn:Eo.
  - apply complete_outcome_Ok in R as [[_ ->]|(_ & m & t & _ & _ & Ht & Hc & ->)]; [done|].
    apply completable_owns in Hc as [(_ & Hrun & _)%owns_facts _]. by apply statement_published.
  - assert (existsb truthy (outcomes o) = false) as Hnone.
    { unfold outcomes. simpl. rewrite Hact. unfold inbox_outcome in Eo. by repeat case_match. }
    rewrite Hnone in R. simpl in R. unfold complete_plain in R.
    apply bind_Ok in R as (rows & d1 & [-> ->]%gets_Ok & R).
    apply bind_Ok in R as (c & d1 & [_ ->]%lift_result_Ok & R).
    destruct c as [t|]; [|by run1 R].
    apply bind_Ok in R as (u & d1 & ->%modify_Ok & R).
    apply bind_Ok in R as (w & d2 & R2%finish_attempt_quiet & R). run1 R.
    refine (quiet_published _ _ _ Hp). etrans; [|exact R2].
    apply quiet_update; [|done]. intros r _ _. by apply subsides_ended, py_in_true.
Qed.

Lemma transaction_published {A} (m : session A) d :
  sat (keeps published) m → published d → published (transaction m d).2.
Proof. intros Hm. by apply (sat_transaction (keeps published)). Qed.

Lemma exec_published o d : legal o = true → published d → published (exec o d).
Proof.
  destruct o; simpl; intros Hl;
    try (apply transaction_published; auto using receive_published, claim_published,
      fail_published, defer_published, due_retries_published, skip_published; fail).
  - apply transaction_published. intros d1 r d' R Hp.
    apply bind_Ok in R as (sid & d2 & R1%ensure_quiet & R).
    eapply enqueue_published; [|by eapply quiet_published|exact R]. bools. simpl.
    destruct Hl as [[-> ->] _]. done.
  - apply transaction_published. intros d1 r d' R Hp.
    apply bind_Ok in R as (rows & d2 & [-> ->]%gets_Ok & R).
    apply bind_Ok in R as (u & d2 & ->%modify_Ok & R).
    apply bind_Ok in R as (c & d3 & [_ ->]%lift_result_Ok & R). run1 R.
    refine (quiet_published _ _ _ Hp). apply quiet_update; [|done]. intros t _ _.
    split_and!; [done|simpl; lia|done|by left].
  - unfold complete_task. destruct (several_outcomes _); [done|].
    apply transaction_published, complete_published. by apply negb_true_iff.
  - apply transaction_published. unfold finalize_inbox_in_session. sat_auto; auto using stage_published.
  - apply transaction_published. unfold finalize_inbox_in_session. sat_auto; auto using stage_published.
  - apply transaction_published. intros d1 cs d' R Hp.
    apply claim_batch_Ok in R as [Hr _]; [|apply Hp]. exact (quiet_published _ _ (quiet_relays _ _ _ Hr) Hp).
  - intros Hp. exact (quiet_published _ _ (quiet_relays _ _ _ (mark_published_relays _ _ _ d)) Hp).
  - intros Hp. refine (quiet_published _ _ (quiet_relays _ _ _ (mark_failed_relays _ _ _ _ d _)) Hp).
    apply Hp.
Qed.

Lemma reachable_published d : reachable d → published d.
Proof.
  intros Hr. assert (published empty_db) as Hempty.
  { split; try apply NoDup_nil_2; try (by intros ? ?%not_elem_of_nil).
    by intros ? ? ?%not_elem_of_nil. }
  unfold reachable in Hr. revert Hempty. induction Hr as [|d1 d2 d3 [o Ho] _ IH]; [done|].
  intros Hp. apply IH. by apply exec_published.
Qed.

(** No queued task is forgotten.  In every reachable state, a queued task has a
    task.requested event in the outbox for exactly its next attempt. *)
Theorem queued_task_is_requested d t :
  reachable d → t ∈ tasks d → t_status t = "queued" → requested d t.
Proof. intros Hr. apply (published_queued d (reachable_published d Hr)). Qed.
End statement.
End publication.

Section witnesses.
#[local] Existing Instance test_platform.

(** The question that the completion of the note released. *)
Lemma queued_task_is_requested_witness :
  ∃ t, t ∈ tasks (run demo) ∧ t_id t = "task_4" ∧ requested (run demo) t.
Proof.
  destruct (row_exists (λ t, row_shows t "task_4" "queued" None) (tasks (run demo)))
    as (t & Ht & (Hid & Hst & _)%row_shows_true); [vm_compute; reflexivity|].
  exists t. split_and!; [exact Ht|exact Hid|].
  exact (queued_task_is_requested _ t demo_reachable Ht Hst).
Defined.
End witnesses.
