(* ===== verification/RedisKeys.v ===== *)
(** [infrastructure/redis_keys.py]: the names of the program's Redis keys, and that
    no two of them collide. *)

From stdpp Require Import base list strings pretty.
From Stdlib Require Import ZArith Lia.
From S2P Require Import Prelude.

Open Scope string_scope.
Open Scope Z_scope.

(** * [urllib.parse.quote(s, safe="-_.")] *)

(** The characters that [quote] leaves alone: letters, digits and [_.-~]. *)
Definition unreserved (c : Ascii.ascii) : bool :=
  let n := Ascii.N_of_ascii c in
  ((65 <=? n) && (n <=? 90))%N || ((97 <=? n) && (n <=? 122))%N
  || ((48 <=? n) && (n <=? 57))%N
  || (n =? 95)%N || (n =? 46)%N || (n =? 45)%N || (n =? 126)%N.

Definition upper_hex (n : N) : Ascii.ascii :=
  Ascii.ascii_of_N (if (n <? 10)%N then 48 + n else 55 + n)%N.

(** [%XX] of one byte *)
Definition percent (c : Ascii.ascii) : string :=
  let n := Ascii.N_of_ascii c in
  String (Ascii.ascii_of_N 37)
    (String (upper_hex (n / 16)) (String (upper_hex (n mod 16)) EmptyString)).

Definition quote_byte (c : Ascii.ascii) : string :=
  if unreserved c then String c EmptyString else percent c.

Fixpoint quote (s : string) : string :=
  match s with
  | EmptyString => EmptyString
  | String c s => quote_byte c +:+ quote s
  end.

(** ** One byte at a time *)

(** What can be checked on the 256 bytes. *)
Definition all_bytes : list Ascii.ascii := map Ascii.ascii_of_nat (seq 0 256).

Lemma all_bytes_in c : c ∈ all_bytes.
Proof.
  apply elem_of_map. exists (Ascii.nat_of_ascii c). split; [apply Ascii.ascii_nat_embedding|].
  apply elem_of_seq. pose proof (Ascii.nat_ascii_bounded c). lia.
Qed.

Definition unpercent (s : string) : option Ascii.ascii :=
  List.find (λ b, String.eqb (percent b) s) all_bytes.

Definition decode_first (s : string) : option (Ascii.ascii * string) :=
  match s with
  | EmptyString => None
  | String c s' =>
      if Ascii.eqb c (Ascii.ascii_of_N 37) then
        match s' with
        | String h (String l r) =>
            option_map (λ b, (b, r)) (unpercent (String c (String h (String l EmptyString))))
        | _ => None
        end
      else Some (c, s')
  end.

Lemma unpercent_percent c : unpercent (percent c) = Some c.
Proof.
  assert (List.forallb (λ c, bool_decide (unpercent (percent c) = Some c)) all_bytes = true) as Hall
    by (vm_compute; reflexivity).
  rewrite forallb_forall in Hall. specialize (Hall c (proj1 (list_elem_of_In _ _) (all_bytes_in c))).
  by apply bool_decide_eq_true in Hall.
Qed.

Lemma decode_percent c r : decode_first (percent c +:+ r) = Some (c, r).
Proof.
  change (decode_first (percent c +:+ r)) with (option_map (λ b, (b, r)) (unpercent (percent c))).
  by rewrite unpercent_percent.
Qed.

Lemma decode_quote c r : decode_first (quote_byte c +:+ r) = Some (c, r).
Proof.
  unfold quote_byte. destruct (unreserved c) eqn:E; [|apply decode_percent].
  change (String c "" +:+ r) with (String c r). unfold decode_first.
  destruct (Ascii.eqb_spec c (Ascii.ascii_of_N 37)) as [->|]; [|done].
  by vm_compute in E.
Qed.

Lemma quote_inj s s' : quote s = quote s' → s = s'.
Proof.
  revert s'. induction s as [|c s IH]; intros [|c' s']; simpl; intros E; [done| | |].
  - pose proof (decode_quote c' (quote s')) as D. by rewrite <- E in D.
  - pose proof (decode_quote c (quote s)) as D. by rewrite E in D.
  - pose proof (decode_quote c (quote s)) as D. rewrite E, decode_quote in D.
    injection D as -> D. f_equal. by apply IH.
Qed.

Lemma no_colon_app s s' : no_colon s → no_colon s' → no_colon (s +:+ s').
Proof. induction s as [|c s IH]; simpl; [done|]. intros [? ?] ?. split; auto. Qed.

Definition is_colon (c : Ascii.ascii) : bool := Ascii.eqb c (Ascii.ascii_of_N 58).

Fixpoint has_colon (s : string) : bool :=
  match s with
  | EmptyString => false
  | String c s => is_colon c || has_colon s
  end.

Lemma has_colon_false s : has_colon s = false ↔ no_colon s.
Proof.
  induction s as [|c s IH]; simpl; [done|]. rewrite orb_false_iff, IH. unfold is_colon.
  destruct (Ascii.eqb_spec c (Ascii.ascii_of_N 58)) as [->|Hc].
  - split; [by intros [? _]|by intros [[] _]].
  - split; [by intros [_ ?]|by intros [_ ?]].
Qed.

Lemma quote_no_colon s : no_colon (quote s).
Proof.
  assert (List.forallb (λ c, negb (has_colon (quote_byte c))) all_bytes = true) as Hall
    by (vm_compute; reflexivity).
  rewrite forallb_forall in Hall.
  induction s as [|c s IH]; simpl; [done|]. apply no_colon_app; [|done].
  apply has_colon_false, negb_true_iff, Hall, list_elem_of_In, all_bytes_in.
Qed.

(** * The keys *)

Module Keys.
Section keys.
Context `{Platform}.

Definition part (value : string) : string := quote (str_or value "unknown").

Definition hash (value : string) : string := str_take 24 (sha256_hexdigest value).

(** [RedisKeys(env).prefix] *)
Definition prefix (env : string) : string := "sxj:" +:+ part env.

(** ** The methods of [RedisKeys(env)] *)

Definition tenant (env tenant_id : string) : string :=
  prefix env +:+ ":tenant:" +:+ part tenant_id.

Definition rate_user (env tenant_id user_id action : string) : string :=
  tenant env tenant_id +:+ ":rate:user:" +:+ part user_id +:+ ":" +:+ part action.

Definition rate_tenant_tokens (env tenant_id : string) : string :=
  tenant env tenant_id +:+ ":rate:llm-tokens".

Definition concurrency_llm (env tenant_id : string) : string :=
  tenant env tenant_id +:+ ":concurrency:llm".

Definition idempotency (env tenant_id source message_id : string) : string :=
  tenant env tenant_id +:+ ":idem:message:" +:+ part source +:+ ":" +:+ part message_id.

Definition lock_space (env tenant_id space_id : string) : string :=
  tenant env tenant_id +:+ ":lock:space:" +:+ part space_id.

Definition lock_memory (env tenant_id memory_id : string) : string :=
  tenant env tenant_id +:+ ":lock:memory:" +:+ part memory_id.

Definition lock_memory_key (env tenant_id space_id memory_key : string) : string :=
  tenant env tenant_id +:+ ":lock:memory-key:" +:+ part space_id +:+ ":" +:+ hash memory_key.

Definition lock_scheduler (env job_name : string) : string :=
  prefix env +:+ ":lock:scheduler:" +:+ part job_name.

Definition cache_version (env tenant_id space_id : string) : string :=
  tenant env tenant_id +:+ ":cachever:space:" +:+ part space_id.

Definition cache_search (env tenant_id kind space_id : string) (version : Z)
    (query_payload : string) : string :=
  tenant env tenant_id +:+ ":cache:" +:+ part kind +:+ ":" +:+ part space_id +:+ ":"
    +:+ pretty version +:+ ":" +:+ hash query_payload.

Definition cache_embedding (env model text : string) : string :=
  prefix env +:+ ":cache:embedding:" +:+ part model +:+ ":" +:+ hash text.

Definition memory_access_counts (env tenant_id : string) : string :=
  tenant env tenant_id +:+ ":memory:access:counts".

Definition memory_access_last_seen (env tenant_id : string) : string :=
  tenant env tenant_id +:+ ":memory:access:last-seen".

Definition session (env tenant_id user_id : string) : string :=
  prefix env +:+ ":session:" +:+ part tenant_id +:+ ":" +:+ part user_id.

Definition stream (env task_type : string) : string :=
  prefix env +:+ ":stream:" +:+ part task_type.

Definition dead_letter_stream (env : string) : string := stream env "deadletter".

(** A call of one of the methods. *)
Inductive redis_key :=
  | Tenant (tenant_id : string)
  | RateUser (tenant_id user_id action : string)
  | RateTenantTokens (tenant_id : string)
  | ConcurrencyLlm (tenant_id : string)
  | Idempotency (tenant_id source message_id : string)
  | LockSpace (tenant_id space_id : string)
  | LockMemory (tenant_id memory_id : string)
  | LockMemoryKey (tenant_id space_id memory_key : string)
  | LockScheduler (job_name : string)
  | CacheVersion (tenant_id space_id : string)
  | CacheSearch (tenant_id kind space_id : string) (version : Z) (query_payload : string)
  | CacheEmbedding (model text : string)
  | MemoryAccessCounts (tenant_id : string)
  | MemoryAccessLastSeen (tenant_id : string)
  | Session (tenant_id user_id : string)
  | Stream (task_type : string).

Definition render (env : string) (k : redis_key) : string :=
  match k with
  | Tenant t => tenant env t
  | RateUser t u a => rate_user env t u a
  | RateTenantTokens t => rate_tenant_tokens env t
  | ConcurrencyLlm t => concurrency_llm env t
  | Idempotency t s m => idempotency env t s m
  | LockSpace t s => lock_space env t s
  | LockMemory t m => lock_memory env t m
  | LockMemoryKey t s k => lock_memory_key env t s k
  | LockScheduler j => lock_scheduler env j
  | CacheVersion t s => cache_version env t s
  | CacheSearch t k s v q => cache_search env t k s v q
  | CacheEmbedding m x => cache_embedding env m x
  | MemoryAccessCounts t => memory_access_counts env t
  | MemoryAccessLastSeen t => memory_access_last_seen env t
  | Session t u => session env t u
  | Stream ty => stream env ty
  end.

(** * Names do not collide *)

(** The segments between the colons. *)
Definition tenant_segments (t : string) (l : list string) : list string :=
  "tenant" :: part t :: l.

Definition segments (k : redis_key) : list string :=
  match k with
  | Tenant t => tenant_segments t []
  | RateUser t u a => tenant_segments t ["rate"; "user"; part u; part a]
  | RateTenantTokens t => tenant_segments t ["rate"; "llm-tokens"]
  | ConcurrencyLlm t => tenant_segments t ["concurrency"; "llm"]
  | Idempotency t s m => tenant_segments t ["idem"; "message"; part s; part m]
  | LockSpace t s => tenant_segments t ["lock"; "space"; part s]
  | LockMemory t m => tenant_segments t ["lock"; "memory"; part m]
  | LockMemoryKey t s k => tenant_segments t ["lock"; "memory-key"; part s; hash k]
  | LockScheduler j => ["lock"; "scheduler"; part j]
  | CacheVersion t s => tenant_segments t ["cachever"; "space"; part s]
  | CacheSearch t k s v q => tenant_segments t ["cache"; part k; part s; pretty v; hash q]
  | CacheEmbedding m x => ["cache"; "embedding"; part m; hash x]
  | MemoryAccessCounts t => tenant_segments t ["memory"; "access"; "counts"]
  | MemoryAccessLastSeen t => tenant_segments t ["memory"; "access"; "last-seen"]
  | Session t u => ["session"; part t; part u]
  | Stream ty => ["stream"; part ty]
  end.

Fixpoint colons (l : list string) : string :=
  match l with
  | [] => ""
  | x :: l => ":" +:+ x +:+ colons l
  end.

Lemma render_segments env k : render env k = prefix env +:+ colons (segments k).
Proof.
  assert (∀ a b c : string, (a +:+ b) +:+ c = a +:+ b +:+ c) as Hassoc.
  { intros a b c. induction a as [|x a IH]; [done|exact (f_equal (String x) IH)]. }
  assert (∀ a : string, a +:+ "" = a) as Hnil.
  { induction a as [|x a IH]; [done|exact (f_equal (String x) IH)]. }
  destruct k; cbn [render segments tenant_segments colons];
    unfold rate_user, rate_tenant_tokens, concurrency_llm, idempotency, lock_space, lock_memory,
      lock_memory_key, lock_scheduler, cache_version, cache_search, cache_embedding,
      memory_access_counts, memory_access_last_seen, session, stream, tenant; rewrite ?Hassoc;
    simpl; rewrite ?Hassoc, ?Hnil; reflexivity.
Qed.

Lemma split_at_first_colon a b a' b' :
  no_colon a → no_colon a' → (∃ c, b = ":" +:+ c) ∨ b = "" → (∃ c, b' = ":" +:+ c) ∨ b' = "" →
  a +:+ b = a' +:+ b' → a = a' ∧ b = b'.
Proof.
  intros Ha Ha' Hb Hb'. revert a' Ha'. induction a as [|x a IH]; intros [|x' a'] Ha' E; simpl in *.
  - done.
  - destruct Hb as [[c ->]| ->]; [|done]. injection E as <- _. by destruct Ha'.
  - destruct Hb' as [[c ->]| ->]; [|done]. injection E as -> _. by destruct Ha.
  - injection E as -> E. destruct Ha as [_ Ha], Ha' as [_ Ha'].
    by destruct (IH Ha a' Ha' E) as [-> ->].
Qed.

Lemma colons_inj l l' :
  Forall no_colon l → Forall no_colon l' → colons l = colons l' → l = l'.
Proof.
  intros Hl. revert l'. induction Hl as [|x l Hx _ IH]; intros l' Hl' E; destruct Hl' as [|x' l' Hx' Hl'];
    simpl in E; [done..|]. injection E as E.
  change (x +:+ colons l = x' +:+ colons l') in E.
  assert (∀ k, (∃ c, colons k = ":" +:+ c) ∨ colons k = "") as Hform.
  { intros [|y k]; simpl; eauto. }
  apply split_at_first_colon in E as [-> E]; [|done..]. by rewrite (IH l').
Qed.

(** SHA-256 digests are written in hexadecimal. *)
Class HexDigests : Prop := { sha256_no_colon : ∀ s, no_colon (sha256_hexdigest s) }.

Lemma part_no_colon s : no_colon (part s).
Proof. apply quote_no_colon. Qed.

Lemma hash_no_colon `{!HexDigests} s : no_colon (hash s).
Proof. apply take_no_colon, sha256_no_colon. Qed.

Lemma segments_no_colon `{!HexDigests} k : Forall no_colon (segments k).
Proof.
  destruct k; unfold segments, tenant_segments;
    repeat (constructor; [first [apply part_no_colon | apply hash_no_colon
      | apply pretty_Z_no_colon | (apply has_colon_false; reflexivity)]|]); constructor.
Qed.

Lemma part_inj a b : part a = part b → str_or a "unknown" = str_or b "unknown".
Proof. apply quote_inj. Qed.

(** The arguments of a key up to what its name keeps of them: an empty argument reads
    as "unknown", and texts are represented by their digests. *)
Definition known (s : string) : string := str_or s "unknown".
Definition canonical (k : redis_key) : redis_key :=
  match k with
  | Tenant t => Tenant (known t)
  | RateUser t u a => RateUser (known t) (known u) (known a)
  | RateTenantTokens t => RateTenantTokens (known t)
  | ConcurrencyLlm t => ConcurrencyLlm (known t)
  | Idempotency t s m => Idempotency (known t) (known s) (known m)
  | LockSpace t s => LockSpace (known t) (known s)
  | LockMemory t m => LockMemory (known t) (known m)
  | LockMemoryKey t s k => LockMemoryKey (known t) (known s) (hash k)
  | LockScheduler j => LockScheduler (known j)
  | CacheVersion t s => CacheVersion (known t) (known s)
  | CacheSearch t k s v q => CacheSearch (known t) (known k) (known s) v (hash q)
  | CacheEmbedding m x => CacheEmbedding (known m) (hash x)
  | MemoryAccessCounts t => MemoryAccessCounts (known t)
  | MemoryAccessLastSeen t => MemoryAccessLastSeen (known t)
  | Session t u => Session (known t) (known u)
  | Stream ty => Stream (known ty)
  end.

Ltac known_parts :=
  repeat match goal with
  | E : part ?a = part ?b |- _ => apply part_inj in E; fold (known a) (known b) in E
  | E : @pretty Z _ ?v = pretty ?v' |- _ => apply (inj pretty) in E
  end.

Lemma segments_inj k k' : segments k = segments k' → canonical k = canonical k'.
Proof.
  destruct k, k'; unfold segments, tenant_segments; intros E; try discriminate E;
    injection E; intros; try discriminate; known_parts; simpl; congruence.
Qed.

(** Within an environment two keys have the same name only if they are the same
    key: no tenant, user, space or purpose can reach the key of another one. *)
Theorem keys_never_collide `{!HexDigests} env k k' :
  render env k = render env k' → canonical k = canonical k'.
Proof.
  rewrite !render_segments. intros E.
  apply segments_inj, colons_inj; [apply segments_no_colon..|].
  by apply (inj (String.append (prefix env))) in E.
Qed.
End keys.
End Keys.

#[export] Instance test_hex_digests : Keys.HexDigests (H := test_platform).
Proof.
  split. intros s. simpl.
  assert (List.forallb (λ c, negb (is_colon (Prelude.hex_digit (Ascii.N_of_ascii c / 16)))
    && negb (is_colon (Prelude.hex_digit (Ascii.N_of_ascii c mod 16)))) all_bytes = true) as Hall
    by (vm_compute; reflexivity).
  rewrite forallb_forall in Hall. induction s as [|c s IH]; [done|].
  specialize (Hall c (proj1 (list_elem_of_In _ _) (all_bytes_in c))). unfold is_colon in Hall.
  apply andb_true_iff in Hall as [H1%negb_true_iff%Ascii.eqb_neq H2%negb_true_iff%Ascii.eqb_neq].
  exact (conj H1 (conj H2 IH)).
Qed.

Section witnesses.
#[local] Existing Instance test_platform.
Import Keys.

(** The one way two calls share a key: an absent argument is the text "unknown". *)
Lemma keys_never_collide_witness :
  lock_space "dev" "" "chat 1" = "sxj:dev:tenant:unknown:lock:space:chat%201"
  ∧ canonical (LockSpace "" "chat 1") = canonical (LockSpace "unknown" "chat 1").
Proof.
  split; [vm_compute; reflexivity|].
  apply (keys_never_collide "dev"). vm_compute. reflexivity.
Defined.
End witnesses.
