(* ===== verification/Streams.v ===== *)
(** [runtime/streams/client.py]: the client of the Redis streams through which tasks
    reach the workers.

    Redis itself is a parameter: the reply to a command is a function of the commands
    before it.  The class [Redis] has the replies, the class [RedisLaws] the documented
    facts that the program relies on. *)

From stdpp Require Import base list strings gmap pretty.
From Stdlib Require Import ZArith Lia.
From S2P Require Import Prelude Schema RedisKeys.

Open Scope string_scope.
Open Scope Z_scope.

Definition fields : Type := gmap string string.

Record stream_message := StreamMessage {
  sm_stream : string;
  sm_message_id : string;
  sm_fields : fields;
}.

(** * The server *)

Inductive redis_call :=
  | XGroupCreate (stream group : string)
  | XAdd (stream : string) (f : fields) (id : string)
  | XReadGroup (stream group consumer : string) (count : Z) (block_ms : option Z)
  | XAutoClaim (stream group consumer start_id : string) (min_idle_time count : Z)
  | XAck (stream group id : string).

(** [[(stream, [(id, fields), ...]), ...]] *)
Definition read_reply : Type := list (string * list (string * fields)).

Class Redis := {
  xgroup_create_reply : list redis_call → string → string → result unit;
  xadd_reply : list redis_call → string → fields → result string;
  xreadgroup_reply : list redis_call → string → string → string → Z → option Z → result read_reply;
  xautoclaim_reply : list redis_call → string → string → string → string → Z → Z →
    result (option string * list (string * fields));
  xack_reply : list redis_call → string → string → string → result Z;
}.

(** An id is given to one entry of a stream; a read returns entries of the stream that
    it names. *)
Class RedisLaws `{Redis} : Prop := {
  xadd_fresh : ∀ h s f id f', xadd_reply h s f = Ok id → XAdd s f' id ∉ h;
  xreadgroup_entries : ∀ h s g c n b r s' es id f,
    xreadgroup_reply h s g c n b = Ok r → (s', es) ∈ r → (id, f) ∈ es → s' = s ∧ XAdd s f id ∈ h;
  xautoclaim_entries : ∀ h s g c i m n o es id f,
    xautoclaim_reply h s g c i m n = Ok (o, es) → (id, f) ∈ es → XAdd s f id ∈ h;
}.

(** * The state of a process *)

(** What all the processes share: the database, and the commands that Redis has
    executed. *)
Record sys := Sys { s_db : db; s_calls : list redis_call }.
#[export] Instance sys_eta : Eta sys := λ r, Sys (s_db r) (s_calls r).

(** The counters of an [AdaptiveStreamWorker]. *)
Record lanes := Lanes {
  foreground_cursor : nat;
  background_cursor : nat;
  foreground_batches : nat;
}.
#[export] Instance lanes_eta : Eta lanes := λ r,
  Lanes (foreground_cursor r) (background_cursor r) (foreground_batches r).

(** A process sees the shared state, the fields of its [StreamClient] and of its workers
    (the time of the next reclaim, by task type, and the lanes), and what the other
    processes do: before each of its transactions and commands the next entry of
    [w_others] happens, and the clock shows the instant that comes with it. *)
Record world := World {
  w_sys : sys;
  w_ensured_groups : gset string;
  w_reclaim_cursors : gmap (string * string) string;
  w_next_reclaim_at : gmap string Z;
  w_lanes : lanes;
  w_others : list ((sys → sys) * Z);
  w_now : Z;
}.
#[export] Instance world_eta : Eta world := λ r,
  World (w_sys r) (w_ensured_groups r) (w_reclaim_cursors r) (w_next_reclaim_at r)
    (w_lanes r) (w_others r) (w_now r).

(** The others run, and time passes. *)
Definition meanwhile : IO world Z := λ w,
  match w_others w with
  | [] => (Ok (w_now w), w)
  | (f, now) :: rest =>
      (Ok now, w <| w_sys := f (w_sys w) |> <| w_others := rest |> <| w_now := now |>)
  end.

(** One transaction of this process. *)
Definition transact {A} (f : Z → db → result A * db) : IO world A :=
  now ← meanwhile;
  (λ w, let '(r, d) := f now (s_db (w_sys w)) in
        (r, w <| w_sys := w_sys w <| s_db := d |> |>)) : IO world A.

(** One command of this process: a command that fails leaves no trace. *)
Definition command {A} (reply : list redis_call → result A) (call : A → redis_call) : IO world A :=
  meanwhile;;
  (λ w, match reply (s_calls (w_sys w)) with
        | Ok a => (Ok a, w <| w_sys := w_sys w <|
                    s_calls := (s_calls (w_sys w) ++ [call a])%list |> |>)
        | Raise e => (Raise e, w)
        end) : IO world A.

(** [needle in s] *)
Definition contains (needle s : string) : bool :=
  match String.index 0 needle s with Some _ => true | None => false end.

(** [except ResponseError as exc: if mark not in str(exc): raise] *)
Definition response_error (mark : string) (e : exn) : bool :=
  match e with OtherError ty msg => String.eqb ty "ResponseError" && contains mark msg | _ => false end.

(** * The client *)

Definition GROUPS : list (string * string) := [
  ("ingest", "ingest-workers");
  ("query", "query-workers");
  ("summary", "summary-workers");
  ("memory", "memory-workers");
  ("memory_embedding", "memory-embedding-workers");
  ("semantic_profile_projection", "semantic-profile-projection-workers");
  ("enrichment", "enrichment-workers");
  ("delivery", "delivery-workers")].

(** [GROUPS[task_type]] *)
Definition group_of (task_type : string) : result string :=
  match List.find (λ kv, String.eqb kv.1 task_type) GROUPS with
  | Some kv => Ok kv.2
  | None => Raise (KeyError task_type)
  end.

Section client.
Context `{Platform, Redis}.

(** [KEYS.stream(task_type)] and [KEYS.dead_letter_stream()] *)
Definition stream_key (task_type : string) : string := Keys.stream SUIXINJI_ENV task_type.
Definition dead_letter_key : string := Keys.dead_letter_stream SUIXINJI_ENV.

Definition xgroup_create (s g : string) : IO world unit :=
  command (λ h, xgroup_create_reply h s g) (λ _, XGroupCreate s g).
Definition xadd (s : string) (f : fields) : IO world string :=
  command (λ h, xadd_reply h s f) (λ id, XAdd s f id).
Definition xack (s g id : string) : IO world Z :=
  command (λ h, xack_reply h s g id) (λ _, XAck s g id).
Definition xreadgroup (s g c : string) (n : Z) (b : option Z) : IO world read_reply :=
  command (λ h, xreadgroup_reply h s g c n b) (λ _, XReadGroup s g c n b).
Definition xautoclaim (s g c i : string) (m n : Z) : IO world (option string * list (string * fields)) :=
  command (λ h, xautoclaim_reply h s g c i m n) (λ _, XAutoClaim s g c i m n).

Definition ensure_group (task_type : string) : IO world (string * string) :=
  let stream := stream_key task_type in
  group ← io_lift (group_of task_type);
  ensured ← io_gets w_ensured_groups;
  if bool_decide (task_type ∈ ensured) then mret (stream, group)
  else
    try_except (xgroup_create stream group)
      (λ e, if response_error "BUSYGROUP" e then mret tt else throw e) mret;;
    io_modify (λ w, w <| w_ensured_groups := w_ensured_groups w ∪ {[task_type]} |>);;
    mret (stream, group).

(** The trace fields of [core.lifecycle.current()]: trace id, span id, time. *)
Definition trace_context : Type := option (string * string * string).

(** The fields of a published task. *)
Definition task_fields (event_id : string) (p : task_request) (context : trace_context) : fields :=
  let f : fields := {[ "event_id" := event_id; "task_id" := rq_task_id p;
    "task_type" := rq_task_type p;
    "attempt" := pretty (if rq_attempt p =? 0 then 1 else rq_attempt p) ]} in
  match context with
  | None => f
  | Some (trace_id, span_id, published_at) =>
      <["published_at" := published_at]> (<["parent_span_id" := span_id]>
        (<["trace_id" := trace_id]> f))
  end.

Definition publish_task (event_id : string) (p : task_request) (context : trace_context) :
    IO world string :=
  xadd (stream_key (rq_task_type p)) (task_fields event_id p context).

(** [_messages] *)
Definition messages (r : read_reply) : list stream_message :=
  r ≫= λ '(s, es), map (λ '(id, f), StreamMessage s id f) es.

Definition read (task_type consumer : string) (count block_ms : Z) : IO world (list stream_message) :=
  '(stream, group) ← ensure_group task_type;
  let ask sg := xreadgroup sg.1 sg.2 consumer (Z.max 1 count) (Some (Z.max 0 block_ms)) in
  response ← try_except (ask (stream, group))
    (λ e, if response_error "NOGROUP" e then
            io_modify (λ w, w <| w_ensured_groups := w_ensured_groups w ∖ {[task_type]} |>);;
            sg ← ensure_group task_type;
            ask sg
          else throw e) mret;
  mret (messages response).

(** A pipeline without a transaction: the replies to its commands, exceptions
    included. *)
Fixpoint read_pipeline (streams : list (string * string)) (consumer : string) (count : Z) :
    IO world (list (result read_reply)) :=
  match streams with
  | [] => mret []
  | (s, g) :: rest =>
      r ← try_except (xreadgroup s g consumer (Z.max 1 count) None)
            (λ e, mret (Raise e)) (λ r, mret (Ok r));
      rs ← read_pipeline rest consumer count;
      mret (r :: rs)
  end.

Fixpoint ensure_groups (task_types : list string) : IO world (list (string * string)) :=
  match task_types with
  | [] => mret []
  | ty :: rest => sg ← ensure_group ty; sgs ← ensure_groups rest; mret (sg :: sgs)
  end.

(** The loop over the replies: the messages, and the types whose group is missing. *)
Fixpoint sort_replies (task_types : list string) (rs : list (result read_reply)) :
    IO world (list stream_message * list string) :=
  match task_types, rs with
  | ty :: task_types, r :: rs =>
      match r with
      | Ok reply =>
          '(ms, missing) ← sort_replies task_types rs;
          mret ((messages reply ++ ms)%list, missing)
      | Raise e =>
          if response_error "NOGROUP" e then
            io_modify (λ w, w <| w_ensured_groups := w_ensured_groups w ∖ {[ty]} |>);;
            '(ms, missing) ← sort_replies task_types rs;
            mret (ms, ty :: missing)
          else throw e
      end
  | _, _ => mret ([], [])
  end.

(** [execute()]: the first error is raised after all the commands were sent. *)
Fixpoint all_ok (rs : list (result read_reply)) : result (list read_reply) :=
  match rs with
  | [] => Ok []
  | Raise e :: _ => Raise e
  | Ok r :: rs => match all_ok rs with Ok l => Ok (r :: l) | Raise e => Raise e end
  end.

Definition read_many (task_types : list string) (consumer : string) (count : Z) :
    IO world (list stream_message) :=
  streams_and_groups ← ensure_groups task_types;
  replies ← read_pipeline streams_and_groups consumer count;
  '(ms, missing_groups) ← sort_replies task_types replies;
  match missing_groups with
  | [] => mret ms
  | _ =>
      retry_streams ← ensure_groups missing_groups;
      replies ← read_pipeline retry_streams consumer count;
      more ← io_lift (all_ok replies);
      mret (ms ++ (more ≫= messages))%list
  end.

Definition reclaim_cursor (task_type consumer : string) : IO world string :=
  io_gets (λ w, default "0-0" (w_reclaim_cursors w !! (task_type, consumer))).

Definition reclaim (task_type consumer : string) (min_idle_ms count : Z) :
    IO world (list stream_message) :=
  '(stream, group) ← ensure_group task_type;
  start_id ← reclaim_cursor task_type consumer;
  '(next, entries) ← xautoclaim stream group consumer start_id (Z.max 1 min_idle_ms) (Z.max 1 count);
  io_modify (λ w, w <| w_reclaim_cursors :=
    <[(task_type, consumer) := opt_or next "0-0"]> (w_reclaim_cursors w) |>);;
  mret (map (λ '(id, f), StreamMessage stream id f) entries).

Definition ack (task_type message_id : string) : IO world Z :=
  '(stream, group) ← ensure_group task_type;
  xack stream group message_id.

Definition dead_letter (message : stream_message) (error : string) : IO world string :=
  xadd dead_letter_key
    (<["error" := str_take 1000 error]> (<["source_message_id" := sm_message_id message]>
      (<["source_stream" := sm_stream message]> (sm_fields message)))).
End client.

(** * A small server *)

(** Redis as the concrete runs use it: an entry gets the next id of its stream, a group
    reads each entry once and can claim what was read and not acknowledged. *)
Section test_server.
Context (h : list redis_call).

Definition entries_of (s : string) : list (string * fields) :=
  h ≫= λ c, match c with XAdd s' f id => if String.eqb s' s then [(id, f)] else [] | _ => [] end.

Fixpoint ones (n : nat) : string :=
  match n with O => EmptyString | S n => String (Ascii.ascii_of_N 49) (ones n) end.

Definition next_id (s : string) : string :=
  ones (S (foldr (λ e n, Nat.max (String.length e.1) n) 0%nat (entries_of s))).

(** How many entries of the stream the group has read. *)
Definition delivered (s g : string) : nat :=
  (foldl (λ '(pos, total) c,
    match c with
    | XAdd s' _ _ => if String.eqb s' s then (pos, S total) else (pos, total)
    | XReadGroup s' g' _ n _ =>
        if String.eqb s' s && String.eqb g' g then (Nat.min total (pos + Z.to_nat n), total)
        else (pos, total)
    | _ => (pos, total)
    end) (0, 0) h)%nat.1.

Definition acknowledged (s g id : string) : bool :=
  existsb (λ c, match c with XAck s' g' id' =>
    String.eqb s' s && String.eqb g' g && String.eqb id' id | _ => false end) h.

Lemma entries_of_in s id f : (id, f) ∈ entries_of s → XAdd s f id ∈ h.
Proof.
  unfold entries_of. intros (c & Hc & Hin)%list_elem_of_bind.
  destruct c as [|s' f' id'| | |]; try (by apply not_elem_of_nil in Hc).
  destruct (String.eqb_spec s' s) as [->|]; [|by apply not_elem_of_nil in Hc].
  apply list_elem_of_singleton in Hc. by injection Hc as -> ->.
Qed.

Lemma ones_length n : String.length (ones n) = n.
Proof. induction n; simpl; auto. Qed.

Lemma next_id_fresh s f : XAdd s f (next_id s) ∉ h.
Proof.
  intros Hin. assert ((next_id s, f) ∈ entries_of s) as He.
  { apply list_elem_of_bind. exists (XAdd s f (next_id s)). split; [|exact Hin].
    rewrite String.eqb_refl. by left. }
  assert (∀ (l : list (string * fields)) e, e ∈ l → (String.length e.1 <=
    foldr (λ e n, Nat.max (String.length e.1) n) 0 l)%nat) as Hmax.
  { intros l e. induction l as [|x l IH]; [by intros ?%not_elem_of_nil|].
    intros [->|?]%elem_of_cons; simpl; [lia|]. specialize (IH ltac:(done)). lia. }
  apply Hmax in He. cbn [fst] in He.
  pose proof (ones_length (S (foldr (λ e n, Nat.max (String.length e.1) n) 0%nat (entries_of s)))) as Hl.
  fold (next_id s) in Hl. lia.
Qed.
End test_server.

Definition test_redis : Redis := {|
  xgroup_create_reply := λ h s g, Ok tt;
  xadd_reply := λ h s f, Ok (next_id h s);
  xreadgroup_reply := λ h s g c n b,
    Ok [(s, take (Z.to_nat n) (drop (delivered h s g) (entries_of h s)))];
  xautoclaim_reply := λ h s g c i m n,
    Ok (Some "0-0", take (Z.to_nat n) (List.filter (λ e, negb (acknowledged h s g e.1))
      (take (delivered h s g) (entries_of h s))));
  xack_reply := λ h s g id, Ok 1;
|}.

#[export] Instance test_redis_laws : RedisLaws (H := test_redis).
Proof.
  split.
  - intros h s f id f' E. injection E as <-. apply next_id_fresh.
  - intros h s g c n b r s' es id f E Hin Hid. injection E as <-.
    apply list_elem_of_singleton in Hin. injection Hin as -> ->. split; [done|].
    apply entries_of_in. apply in_take in Hid. rewrite <- (take_drop (delivered h s g) (entries_of h s)).
    apply elem_of_app. by right.
  - intros h s g c i m n o es id f E Hid. injection E as _ <-. apply entries_of_in.
    apply in_take, elem_of_select in Hid as [Hid _]. by apply in_take in Hid.
Qed.
