(* ===== verification/Relay.v ===== *)
(** The relay: [relay_outbox_batch] of [repositories/postgres/outbox.py] and the loop
    body of [apps/outbox_relay.py], and what the outbox guarantees to them. *)

From stdpp Require Import base list strings gmap relations.
From Stdlib Require Import ZArith Lia.
From S2P Require Import Prelude Schema Consistency Dispatch Stages Tasks Watermark.
From S2P Require Import Invariant Runs Operations Completion Outbox Pipeline Publication.
From S2P Require Import RedisKeys Streams.

Open Scope string_scope.
Open Scope Z_scope.

(** * New rows of the outbox *)

(** The transactions that are not the relay's only append pending events. *)
Definition appends (d d' : db) : Prop :=
  ∃ es, outbox_events d' = (outbox_events d ++ es)%list
    ∧ Forall (λ e, e_status e = "pending") es.

#[export] Instance appends_preorder : PreOrder appends.
Proof.
  split.
  - intros d. exists []. by rewrite app_nil_r.
  - intros d1 d2 d3 (es & E1 & H1) (es' & E2 & H2). exists (es ++ es')%list.
    rewrite app_assoc, <- E1. split; [done|by apply Forall_app].
Qed.

Lemma appends_same d d' : outbox_events d' = outbox_events d → appends d d'.
Proof. unfold appends. intros ->. exists []. by rewrite app_nil_r. Qed.

Section appends.
Context `{Platform}.

Lemma new_id_appends p : sat appends (new_id p).
Proof. unfold new_id, draw_uuid. sat_auto. by apply appends_same. Qed.
Lemma add_task_event_appends i rq now : sat appends (add_task_event i rq now).
Proof. unfold add_task_event. sat_auto. eexists. split; [reflexivity|]. by constructor. Qed.
Lemma publish_appends t n now : sat appends (publish_task_request t n now).
Proof.
  unfold publish_task_request, get_task. sat_auto; auto using new_id_appends, add_task_event_appends.
Qed.
Lemma activate_appends now t : sat appends (activate_and_publish now t).
Proof.
  unfold activate_and_publish, save_task. sat_auto; auto using publish_appends. by apply appends_same.
Qed.
Lemma advance_appends sp now : sat appends (advance_watermarks_in_session sp now).
Proof.
  unfold advance_watermarks_in_session, activate_ready_tasks_in_session, save_space.
  sat_auto; auto using activate_appends; by apply appends_same.
Qed.
Lemma finish_attempt_appends tid n st et es now : sat appends (finish_attempt tid n st et es now).
Proof. unfold finish_attempt. sat_auto. by apply appends_same. Qed.
Lemma owned_appends tid tok v now : sat appends (owned_running_task tid tok v now).
Proof. unfold owned_running_task. sat_auto. Qed.
Lemma stage_appends iid st err now : sat appends (complete_inbox_stage_in_session iid st err now).
Proof.
  unfold complete_inbox_stage_in_session, select_inbox_for_update, select_space_for_update,
    save_inbox, save_space. sat_auto; auto using advance_appends; by apply appends_same.
Qed.
Lemma ensure_appends ssid ten src : sat appends (ensure_tenant_space ssid ten src).
Proof.
  unfold ensure_tenant_space, get_space, insert_tenant, select_space_identity, or_else, insert_space.
  sat_auto; apply appends_same; done || by destruct (bool_decide _).
Qed.
Lemma enqueue_appends ctx a now : sat appends (enqueue_task_in_session ctx a now).
Proof.
  unfold enqueue_task_in_session, insert_task.
  sat_auto; auto using new_id_appends, publish_appends; by apply appends_same.
Qed.
Lemma receive_appends ctx c now : sat appends (receive_in_session ctx c now).
Proof.
  unfold receive_in_session, receive_new, add_inbox, select_space_for_update.
  sat_auto; auto using ensure_appends, new_id_appends, enqueue_appends, advance_appends;
    by apply appends_same.
Qed.
Lemma skip_appends iid final cancel now : sat appends (skip_in_session iid final cancel now).
Proof.
  unfold skip_in_session, select_inbox_for_update, select_space_for_update, save_inbox,
    cancel_root_tasks. sat_auto; auto using advance_appends; by apply appends_same.
Qed.
Lemma claim_appends tid w secs now : sat appends (claim_in_session tid w secs now).
Proof.
  unfold claim_in_session, draw_uuid, expire_attempts, record_attempt, save_task.
  sat_auto; by apply appends_same.
Qed.
Lemma fail_appends tid err dl tok v now : sat appends (fail_in_session tid err dl tok v now).
Proof.
  unfold fail_in_session, save_task, release_barrier, cancel_blocked_dependents,
    mark_inbox_memory_completed_in_session, finalize_inbox_in_session.
  sat_auto; auto using owned_appends, finish_attempt_appends, stage_appends; by apply appends_same.
Qed.
Lemma defer_appends tid why dl tok v now : sat appends (defer_in_session tid why dl tok v now).
Proof.
  unfold defer_in_session, save_task.
  sat_auto; auto using owned_appends, finish_attempt_appends; by apply appends_same.
Qed.
Lemma due_retries_appends lim ids now : sat appends (due_retries_in_session lim ids now).
Proof.
  unfold due_retries_in_session, requeue, save_task.
  sat_auto; auto using new_id_appends, add_task_event_appends; by apply appends_same.
Qed.

Lemma insert_events_appends es news :
  Forall (λ e, e_status e = "pending") news →
  ∃ es', foldl insert_event es news = (es ++ es')%list ∧ Forall (λ e, e_status e = "pending") es'.
Proof.
  revert es. induction news as [|e news IH]; intros es Hn; simpl.
  { exists []. by rewrite app_nil_r. }
  apply Forall_cons in Hn as [He Hn]. destruct (IH (insert_event es e) Hn) as (es' & -> & Hes').
  unfold insert_event. destruct (existsb _ es); [eauto|].
  exists (e :: es')%list. rewrite <- app_assoc. split; [done|]. by constructor.
Qed.

Lemma statement_appends t m fl now d : appends d (inbox_outcome_statement t m fl now d).
Proof.
  unfold inbox_outcome_statement. destruct (List.find _ _); [|by apply appends_same].
  unfold appends. simpl. apply insert_events_appends. apply Forall_forall.
  by intros e (r & <- & _)%elem_of_map.
Qed.

Lemma complete_appends tid tok v o now : sat appends (complete_in_session tid tok v o now).
Proof.
  unfold complete_in_session, complete_task_with_inbox_outcome, complete_plain, complete_with_orm,
    save_task, activate_task_in_session, select_task_for_update.
  sat_auto; auto using owned_appends, finish_attempt_appends, stage_appends, publish_appends,
    activate_appends, statement_appends; by apply appends_same.
Qed.

Lemma transaction_appends {A} (m : session A) d : sat appends m → appends d (transaction m d).2.
Proof. intros Hm. apply sat_transaction; [apply _|done]. Qed.

(** The events that an operation may publish. *)
Definition marks (o : op) (eid : string) : Prop :=
  match o with EventPublished eid' _ _ => eid = eid' | _ => False end.

Lemma exec_events o d :
  unique_events d → appends d (exec o d) ∨ relays (marks o) d (exec o d).
Proof.
  intros Hu. destruct o; simpl; try (left; apply transaction_appends;
    auto using receive_appends, skip_appends, fail_appends, defer_appends, due_retries_appends,
      claim_appends; fail).
  - left. apply transaction_appends. sat_auto; auto using ensure_appends, enqueue_appends.
  - left. apply transaction_appends. sat_auto. by apply appends_same.
  - left. unfold complete_task. destruct (several_outcomes _); [simpl; reflexivity|].
    apply transaction_appends, complete_appends.
  - left. apply transaction_appends. unfold finalize_inbox_in_session. sat_auto; auto using stage_appends.
  - left. apply transaction_appends. unfold finalize_inbox_in_session. sat_auto; auto using stage_appends.
  - right. unfold claim_outbox_batch, transaction.
    destruct (claim_batch_in_session _ _ _ _ _ d) as [[cs d']|e] eqn:R; simpl; [|reflexivity].
    apply claim_batch_Ok in R as [Hr _]; [|done]. exact Hr.
  - right. eapply relays_weaken; [|apply mark_published_relays]. by intros eid ->.
  - right. by apply mark_failed_relays.
Qed.
(** * What the outbox promises to the relays *)

Context `{!Digests}.

Lemma reachable_unique d : reachable d → unique_events d.
Proof. intros Hr%reachable_published. apply Hr. Qed.

Lemma reachable_step d d' : reachable d → step d d' → reachable d'.
Proof. intros Hr Hs. by eapply rtc_r. Qed.

(** One step of the program keeps every event, and changes it at most as a relay may. *)
Lemma step_event d d' e :
  reachable d → step d d' → e ∈ outbox_events d →
  ∃ e', e' ∈ outbox_events d' ∧ event_evolves (λ _, True) e e'.
Proof.
  intros Hu%reachable_unique [o _] He. destruct (exec_events o d Hu) as [(es & E & _)|Hr].
  - exists e. rewrite E. split; [apply elem_of_app; by left|done].
  - apply (relays_weaken _ (λ _, True)) in Hr; [|done].
    apply list_elem_of_lookup in He as [i Hi].
    destruct (Forall2_lookup_l _ _ _ _ _ (relays_events _ _ _ Hr) Hi) as (e' & Hi' & ?).
    exists e'. split; [by eapply list_elem_of_lookup_2|done].
Qed.

(** A published event, and one that was given up, is never touched again: no later
    step of the program republishes it, reopens it or loses it. *)
Theorem publication_is_final d d' e :
  reachable d → rtc step d d' → e ∈ outbox_events d → e_status e ∈ FINAL →
  e ∈ outbox_events d'.
Proof.
  intros Hr Hsteps. revert Hr. induction Hsteps as [|d1 d2 d3 Hs _ IH]; [done|]. intros Hr He Hf.
  destruct (step_event d1 d2 e Hr Hs He) as (e' & He' & _ & Hfin & _).
  rewrite (Hfin Hf) in He'. apply IH; [by eapply reachable_step|done..].
Qed.

(** What a claimed batch is: at most [limit] events that were due, each now leased under
    the token of its claim, each once; the other events are as they were. *)
Record batch_claimed (now limit : Z) (ids : option (list string)) (secs : Z)
    (d d' : db) (cs : list outbox_claim) : Prop := {
  batch_bounded : Z.of_nat (length cs) <= Z.max 1 limit;
  batch_distinct : NoDup (map oc_id cs);
  batch_leased : ∀ c, c ∈ cs → ∃ e e', e ∈ outbox_events d ∧ relayable now ids e = true
    ∧ e' ∈ outbox_events d' ∧ holds_event (oc_id c) (oc_lease_token c) e' = true
    ∧ e_lease_expires_at e' = Some (now + seconds (Z.max 1 secs))
    ∧ e_id e = oc_id c ∧ e_payload_json e = oc_payload c
    ∧ oc_attempt c = e_publish_attempt_count e + 1;
  batch_others : ∀ e, e ∈ outbox_events d → relayable now ids e = false → e ∈ outbox_events d';
}.

Lemma map_each_Ok {S A B} (f : A → M S B) l s :
  (∀ x s, ∃ y s', f x s = Ok (y, s')) → ∃ ys s', map_each f l s = Ok (ys, s').
Proof.
  intros Hf. revert s. induction l as [|x l IH]; intros s; simpl; [by do 2 eexists|].
  destruct (Hf x s) as (y & s1 & Hy). destruct (IH s1) as (ys & s2 & Hys).
  unfold mbind, M_bind. rewrite Hy, Hys. by do 2 eexists.
Qed.

Lemma claim_ids w secs now d rows cs :
  Forall2 (claimed_as w secs now d) rows cs → map oc_id cs = map e_id rows.
Proof. induction 1 as [|e c rows cs (tok & _ & ->) _ IH]; simpl; [done|by f_equal]. Qed.

(** Claiming a batch always succeeds, leases at most [limit] due events under fresh
    tokens, each once, and leaves all the others alone - in particular those that another
    relay holds under a live lease and those that are published or dead. *)
Theorem claim_leases_due_events d w limit ids secs now :
  reachable d →
  ∃ cs d', claim_outbox_batch w limit ids secs now d = (Ok cs, d')
    ∧ batch_claimed now limit ids secs d d' cs.
Proof.
  intros Hu%reachable_unique.
  assert (∃ cs d', claim_batch_in_session w limit ids secs now d = Ok (cs, d')) as (cs & d' & R).
  { unfold claim_batch_in_session. unfold mbind at 1, M_bind at 1, gets. apply map_each_Ok.
    intros e s. unfold claim_one, draw_uuid, save_event. do 2 eexists. reflexivity. }
  exists cs, d'. unfold claim_outbox_batch, transaction. rewrite R. split; [done|].
  apply claim_batch_Ok in R as (_ & Hcs & Hkeep); [|done].
  set (rows := take _ _) in *. pose proof (claim_ids _ _ _ _ _ _ Hcs) as Hids.
  assert (∀ e, e ∈ rows → e ∈ outbox_events d ∧ relayable now ids e = true) as Hrows.
  { by intros e ?%in_take%elem_of_sort_by%elem_of_select. }
  split.
  - rewrite <- (Forall2_length _ _ _ Hcs). unfold rows. rewrite length_take. lia.
  - rewrite Hids. apply NoDup_map_take. rewrite (Permutation_map e_id (sort_by_Permutation _ _)).
    by apply NoDup_select.
  - intros c Hc. apply list_elem_of_lookup in Hc as [i Hi].
    destruct (Forall2_lookup_r _ _ _ _ _ Hcs Hi) as (e & He%list_elem_of_lookup_2 & tok & Hin & ->).
    destruct (Hrows e He) as [? ?]. exists e. eexists. split_and!; [done|done|exact Hin|..|done]; try done.
    unfold holds_event. simpl. rewrite String.eqb_refl. by apply bool_decide_eq_true.
  - intros e He Hno. apply Hkeep; [done|]. intros (e' & Hid & [He' Hyes]%Hrows)%elem_of_map.
    assert (e' = e) as -> by (by apply (key_unique e_id (outbox_events d))). congruence.
Qed.

(** What a failed publication leaves: the event waits between one second and five
    minutes, or it is dead and no relay takes it again. *)
Definition backs_off (e : outbox_event) (error : string) (now : Z) (status : string) (d' : db) : Prop :=
  ∃ e', e' ∈ outbox_events d' ∧ e_id e' = e_id e ∧ e_status e' = status
    ∧ e_payload_json e' = e_payload_json e
    ∧ ((status = "dead" ∧ publish_exhausted e = true ∧ ∀ now' ids, relayable now' ids e' = false)
       ∨ (status = "retry" ∧ publish_exhausted e = false
          ∧ ∃ due, now + seconds 1 <= due <= now + seconds 300
              ∧ (∀ now' ids, now' < due → relayable now' ids e' = false)
              ∧ (∀ now', due <= now' → e_published_at e = None → relayable now' None e' = true))).

Lemma backoff_bounds n : seconds 1 <= publish_backoff n <= seconds 300.
Proof.
  unfold publish_backoff, seconds.
  assert (1 <= 2 ^ Z.max 0 (n - 1)); [|lia].
  pose proof (Z.pow_le_mono_r 2 0 (Z.max 0 (n - 1)) ltac:(lia) ltac:(lia)). lia.
Qed.

(** A failed publication under a live claim retries with a backoff between one
    second and five minutes, and after the last attempt gives the event up for good. *)
Theorem failed_publication_backs_off d e tok error now :
  reachable d → e ∈ outbox_events d → holds_event (e_id e) tok e = true →
  ∃ status d', mark_outbox_failed (e_id e) tok error now d = (Ok status, d')
    ∧ backs_off e error now status d'.
Proof.
  intros Hu%reachable_unique He Hh.
  exists (e_status (fail_event error now e)). eexists. split.
  { unfold mark_outbox_failed, transaction, mbind, M_bind, gets, save_event, modify, mret, M_ret.
    rewrite (select_key_unique e_id (outbox_events d) e); [reflexivity|done..|].
    intros r _ [Hid _]%holds_event_open. done. }
  exists (fail_event error now e). split_and!; [by apply (saved_event e _ d)|done..|].
  unfold fail_event, relayable. simpl. destruct (publish_exhausted e) eqn:Ex; [left|right].
  - split_and!; [done..|]. intros now' ids. by rewrite andb_false_r.
  - pose proof (backoff_bounds (e_publish_attempt_count e)).
    split_and!; [done..|]. exists (now + publish_backoff (e_publish_attempt_count e)).
    split_and!; [| |intros now' ids Hlt|intros now' Hle Hp]; [lia|lia|..].
    + rewrite (proj2 (Z.leb_gt _ _) Hlt). simpl. by rewrite !andb_false_r.
    + rewrite (proj2 (Z.leb_le _ _) Hle), Hp. done.
Qed.
End appends.

(** * The program *)

Record relay_report := RelayReport {
  rep_published : Z;
  rep_failed : Z;
  rep_dead : Z;
  rep_stale : Z;
}.
#[export] Instance relay_report_eta : Eta relay_report := λ r,
  RelayReport (rep_published r) (rep_failed r) (rep_dead r) (rep_stale r).

Definition no_events : relay_report := RelayReport 0 0 0 0.

(** The counters after a failed publication. *)
Definition count_failure (status : string) (r : relay_report) : relay_report :=
  if String.eqb status "stale" then r <| rep_stale := rep_stale r + 1 |>
  else if String.eqb status "dead" then
    r <| rep_dead := rep_dead r + 1 |> <| rep_failed := rep_failed r + 1 |>
  else r <| rep_failed := rep_failed r + 1 |>.

Definition count_publication (marked : bool) (r : relay_report) : relay_report :=
  if marked then r <| rep_published := rep_published r + 1 |>
  else r <| rep_stale := rep_stale r + 1 |>.

Section relay.
Context `{Platform, Redis}.

(** The body of the loop over the claimed events; [context] is the trace that
    [core.lifecycle] resumes for the event. *)
Definition relay_one (context : outbox_claim → trace_context) (report : relay_report)
    (event : outbox_claim) : IO world relay_report :=
  try_except (publish_task (oc_id event) (oc_payload event) (context event))
    (λ exc,
       status ← transact (mark_outbox_failed (oc_id event) (oc_lease_token event) (describe exc));
       mret (count_failure status report))
    (λ _,
       marked ← transact (mark_outbox_published (oc_id event) (oc_lease_token event));
       mret (count_publication marked report)).

(** [relay_id] is the given worker id, or one made of the host name and a UUID. *)
Definition relay_outbox_batch (context : outbox_claim → trace_context) (limit : Z)
    (event_ids : option (list string)) (relay_id : string) : IO world relay_report :=
  events ← transact (claim_outbox_batch relay_id limit event_ids OUTBOX_LEASE_SECONDS);
  io_for events no_events (relay_one context).

(** [apps/outbox_relay.py] *)
Definition run_once (context : outbox_claim → trace_context) (relay_id : string) :
    IO world relay_report :=
  transact (enqueue_due_retries OUTBOX_BATCH_SIZE None);;
  relay_outbox_batch context OUTBOX_BATCH_SIZE None relay_id.
End relay.

(** * A concrete run: the two events of [demo] are claimed, one of them is published. *)

Definition demo_relay : list op := (demo ++ [ClaimEvents "r1" 10 None 30 50])%list.
Definition demo_sent : list op := (demo_relay ++ [EventPublished "event_2" "6" 60])%list.

Definition event_shows (e : outbox_event) (eid status tok : string) : bool :=
  String.eqb (e_id e) eid && String.eqb (e_status e) status
  && String.eqb (default "" (e_lease_token e)) tok.

Section witnesses.
#[local] Existing Instance test_platform.

Lemma demo_relay_reachable : reachable (run demo_relay).
Proof. by apply (reachable_run demo_relay). Qed.
Lemma demo_sent_reachable : reachable (run demo_sent).
Proof. by apply (reachable_run demo_sent). Qed.

Lemma publication_is_final_witness :
  ∃ e, e_id e = "event_2" ∧ e_status e = "published"
    ∧ e ∈ outbox_events (exec (EventFailed "event_2" "6" "late" 70) (run demo_sent)).
Proof.
  destruct (row_exists (λ e, event_shows e "event_2" "published" "") (outbox_events (run demo_sent)))
    as (e & He & Hs); [vm_compute; reflexivity|].
  unfold event_shows in Hs. bools. destruct Hs as [[Hid Hst] _].
  exists e. split_and!; [exact Hid|exact Hst|].
  apply (publication_is_final (run demo_sent) _ e demo_sent_reachable); [|exact He|].
  - apply rtc_once, (step_exec _ (EventFailed "event_2" "6" "late" 70)). reflexivity.
  - rewrite Hst. apply py_in_true. reflexivity.
Defined.

Lemma claim_leases_due_events_witness :
  ∃ cs d', claim_outbox_batch "r1" 1 None 30 50 (run demo) = (Ok cs, d')
    ∧ map oc_id cs = ["event_2"] ∧ batch_claimed 50 1 None 30 (run demo) d' cs.
Proof.
  destruct (claim_leases_due_events (run demo) "r1" 1 None 30 50 demo_reachable)
    as (cs & d' & E & Hb).
  exists cs, d'. split_and!; [exact E| |exact Hb].
  vm_compute in E. injection E as <- _. reflexivity.
Defined.

Lemma failed_publication_backs_off_witness :
  ∃ e status d', e_id e = "event_2" ∧ status = "retry"
    ∧ mark_outbox_failed "event_2" "6" "ConnectionError" 60 (run demo_relay) = (Ok status, d')
    ∧ backs_off e "ConnectionError" 60 status d'.
Proof.
  destruct (row_exists (λ e, event_shows e "event_2" "publishing" "6" && holds_event (e_id e) "6" e)
    (outbox_events (run demo_relay))) as (e & He & Hs); [vm_compute; reflexivity|].
  unfold event_shows in Hs. apply andb_true_iff in Hs as [Hs Hh]. bools.
  destruct Hs as [[Hid Hst] _].
  destruct (failed_publication_backs_off _ e "6" "ConnectionError" 60 demo_relay_reachable He Hh)
    as (status & d' & E & Hb).
  exists e, status, d'. rewrite Hid in E. split_and!; [exact Hid| |exact E|exact Hb].
  vm_compute in E. injection E as <- _. reflexivity.
Defined.
End witnesses.
