(* ===== verification/System.v ===== *)
(** The whole system: the database, the Redis streams, and the processes around them.

    [sys_step] is the abstract specification: what any process may do to the shared
    state.  The programs of [Processes.v], [Relay.v] and [Worker.v] are verified against it. *)

From stdpp Require Import base list strings gmap relations.
From Stdlib Require Import ZArith Lia.
From S2P Require Import Prelude Schema Consistency Dispatch Stages Tasks Watermark.
From S2P Require Import Invariant Runs Operations Completion Outbox Pipeline Publication.
From S2P Require Import RedisKeys Streams Relay.

Open Scope string_scope.
Open Scope Z_scope.

Section system.
Context `{Platform, !Digests}.

(** * The specification *)

(** The stream entry that publishes an event. *)
Definition entry_of (e : outbox_event) (context : trace_context) (id : string) : redis_call :=
  XAdd (stream_key (rq_task_type (e_payload_json e)))
    (task_fields (e_id e) (e_payload_json e) context) id.

Definition sent (s : sys) (e : outbox_event) : Prop :=
  ∃ context id, entry_of e context id ∈ s_calls s.

(** The attempt that the event asks for has been claimed, or the task is over. *)
Definition answered (d : db) (e : outbox_event) : Prop :=
  ∀ t, t ∈ tasks d → t_id t = rq_task_id (e_payload_json e) →
    rq_attempt (e_payload_json e) <= t_attempt_count t ∨ t_status t ∈ TERMINAL.

Definition fresh_entry (s : sys) (stream id : string) : Prop :=
  ∀ f, XAdd stream f id ∉ s_calls s.

Definition executes (c : redis_call) (s : sys) : sys :=
  s <| s_calls := (s_calls s ++ [c])%list |>.

(** What a process may do: a transaction, where an event is marked as published only
    after it was added to its stream; adding the entry of an event, or an entry of the
    dead letter stream; acknowledging an entry whose event is answered; reading. *)
Inductive sys_step (s : sys) : sys → Prop :=
  | sys_op o : legal o = true →
      (∀ eid, marks o eid → ∃ e, e ∈ outbox_events (s_db s) ∧ e_id e = eid ∧ sent s e) →
      sys_step s (s <| s_db := exec o (s_db s) |>)
  | sys_publish e context id : e ∈ outbox_events (s_db s) →
      fresh_entry s (stream_key (rq_task_type (e_payload_json e))) id →
      sys_step s (executes (entry_of e context id) s)
  | sys_bury f id : fresh_entry s dead_letter_key id →
      sys_step s (executes (XAdd dead_letter_key f id) s)
  | sys_ack e context stream group id : e ∈ outbox_events (s_db s) →
      stream = stream_key (rq_task_type (e_payload_json e)) →
      entry_of e context id ∈ s_calls s → answered (s_db s) e →
      sys_step s (executes (XAck stream group id) s)
  | sys_read c : match c with XAdd _ _ _ | XAck _ _ _ => False | _ => True end →
      sys_step s (executes c s).

Definition sys_reachable (s : sys) : Prop := rtc sys_step (Sys empty_db []) s.

(** * Its invariant *)

Record sys_ok (s : sys) : Prop := {
  ok_db : reachable (s_db s);
  ok_sent : ∀ e, e ∈ outbox_events (s_db s) → e_status e = "published" → sent s e;
  ok_entries : ∀ str f id, XAdd str f id ∈ s_calls s → str = dead_letter_key
    ∨ ∃ e context, e ∈ outbox_events (s_db s) ∧ XAdd str f id = entry_of e context id;
  ok_unique : ∀ str f f' id, XAdd str f id ∈ s_calls s → XAdd str f' id ∈ s_calls s → f = f';
  ok_acked : ∀ str g id, XAck str g id ∈ s_calls s → ∃ e context, e ∈ outbox_events (s_db s)
    ∧ str = stream_key (rq_task_type (e_payload_json e))
    ∧ entry_of e context id ∈ s_calls s ∧ answered (s_db s) e;
}.

Lemma entry_body e e' context id :
  event_body e' = event_body e → entry_of e' context id = entry_of e context id.
Proof. unfold event_body, entry_of. intros E. by injection E as -> _ _ _ -> _. Qed.

Lemma sent_body s e e' : event_body e' = event_body e → sent s e → sent s e'.
Proof. intros Hb (c & id & Hin). exists c, id. by rewrite (entry_body _ _ _ _ Hb). Qed.

Lemma answered_body d e e' : event_body e' = event_body e → answered d e → answered d e'.
Proof. unfold event_body, answered. intros E. by injection E as _ _ _ _ -> _. Qed.

(** An answered event stays answered. *)
Lemma answered_step d d' e :
  reachable d → step d d' → e ∈ outbox_events d → answered d e → answered d' e.
Proof.
  intros Hr Hs He Ha t' Ht' Hid. destruct (step_grown d d' Hr Hs) as [_ Hg].
  destruct (grown_tasks_back _ _ Hg t' Ht') as [(t & Ht & Hev)|[_ Hnew]].
  - destruct (evolves_gate _ _ Hev) as (Hid' & _).
    destruct (Ha t Ht) as [Hle|Hterm]; [congruence| |].
    + left. destruct Hev as [_ _ ? ? _ _ _]. lia.
    + right. by rewrite (evolves_terminal _ _ Hev Hterm).
  - exfalso. pose proof (published_known d (reachable_published d Hr) e He) as Hk.
    apply elem_of_map in Hk as (t & Htid & Ht). apply (Hnew t Ht). congruence.
Qed.

(** Events after a transaction: the old ones with the same body, or pending ones; the
    newly published ones are those that the transaction marks. *)
Lemma event_after o d e' :
  reachable d → legal o = true → e' ∈ outbox_events (exec o d) →
  (∃ e, e ∈ outbox_events d ∧ event_body e' = event_body e
     ∧ (e_status e' = "published" → e_status e = "published" ∨ marks o (e_id e)))
  ∨ e_status e' = "pending".
Proof.
  intros Hr Hl He'. pose proof (reachable_unique d Hr) as Hu.
  destruct (exec_events o d Hu) as [(es & E & Hpend)|Hrel].
  - rewrite E in He'. apply elem_of_app in He' as [?|Hin]; [left; exists e'; auto|right].
    by eapply (proj1 (Forall_forall _ _)) in Hpend.
  - left. apply list_elem_of_lookup in He' as [i Hi].
    destruct (Forall2_lookup_r _ _ _ _ _ (relays_events _ _ _ Hrel) Hi) as (e & Hi' & Hb & _ & Hp).
    exists e. split_and!; [by eapply list_elem_of_lookup_2|done|].
    intros Hs. destruct (Hp Hs) as [->|?]; auto.
Qed.

Lemma ok_op s o : sys_ok s → legal o = true →
  (∀ eid, marks o eid → ∃ e, e ∈ outbox_events (s_db s) ∧ e_id e = eid ∧ sent s e) →
  sys_ok (s <| s_db := exec o (s_db s) |>).
Proof.
  intros [Hr Hsent Hent Huniq Hack] Hl Hm. assert (step (s_db s) (exec o (s_db s))) as Hst
    by by apply step_exec.
  pose proof (reachable_unique _ Hr) as Hu.
  assert (∀ e, e ∈ outbox_events (s_db s) → ∃ e', e' ∈ outbox_events (exec o (s_db s))
    ∧ event_body e' = event_body e) as Hkeep.
  { intros e He. destruct (step_event _ _ e Hr Hst He) as (e' & ? & ? & _). eauto. }
  split; simpl.
  - by eapply reachable_step.
  - intros e' He' Hp. destruct (event_after o _ e' Hr Hl He') as [(e & He & Hb & Hpe)|Hpend];
      [|congruence].
    assert (sent s e) as Hs; [|by eapply (sent_body s e e')].
    destruct (Hpe Hp) as [?|Hmark]; [by apply Hsent|].
    destruct (Hm _ Hmark) as (e2 & He2 & Hid & Hs2).
    by assert (e2 = e) as -> by (by apply (key_unique e_id (outbox_events (s_db s)))).
  - intros str f id Hin. destruct (Hent str f id Hin) as [?|(e & c & He & E)]; [by left|right].
    destruct (Hkeep e He) as (e' & He' & Hb). exists e', c. by rewrite (entry_body e e').
  - exact Huniq.
  - intros str g id Hin. destruct (Hack str g id Hin) as (e & c & He & Hstr & Hc & Ha).
    destruct (Hkeep e He) as (e' & He' & Hb). exists e', c. rewrite (entry_body e e') by done.
    split_and!; [done| |done|].
    + unfold event_body in Hb. by injection Hb as _ _ _ _ -> _.
    + eapply answered_body; [done|]. by eapply answered_step.
Qed.

(** A command that adds no entry keeps the facts about entries. *)
Lemma ok_call s c : sys_ok s →
  match c with
  | XAdd str f id => fresh_entry s str id ∧ (str = dead_letter_key
      ∨ ∃ e context, e ∈ outbox_events (s_db s) ∧ XAdd str f id = entry_of e context id)
  | XAck str g id => ∃ e context, e ∈ outbox_events (s_db s)
      ∧ str = stream_key (rq_task_type (e_payload_json e))
      ∧ entry_of e context id ∈ s_calls s ∧ answered (s_db s) e
  | _ => True
  end → sys_ok (executes c s).
Proof.
  intros [Hr Hsent Hent Huniq Hack] Hc.
  assert (∀ c', c' ∈ s_calls (executes c s) → c' ∈ s_calls s ∨ c' = c) as Hin.
  { intros c' [?|?%list_elem_of_singleton]%elem_of_app; auto. }
  assert (∀ c', c' ∈ s_calls s → c' ∈ s_calls (executes c s)) as Hincl.
  { intros c' ?. apply elem_of_app. by left. }
  split.
  - done.
  - intros e He Hp. destruct (Hsent e He Hp) as (cx & id & ?). exists cx, id. auto.
  - intros str f id [?|E]%Hin; [by apply Hent|]. rewrite <- E in Hc. apply Hc.
  - intros str f f' id [Hf|E]%Hin [Hf'|E']%Hin; [by eapply Huniq| | |congruence].
    + rewrite <- E' in Hc. destruct Hc as [Hfresh _]. by destruct (Hfresh f).
    + rewrite <- E in Hc. destruct Hc as [Hfresh _]. by destruct (Hfresh f').
  - intros str g id [Ha|E]%Hin.
    + destruct (Hack str g id Ha) as (e & cx & ? & ? & ? & ?). exists e, cx. auto.
    + rewrite <- E in Hc. destruct Hc as (e & cx & ? & ? & ? & ?). exists e, cx. auto.
Qed.

Lemma sys_step_ok s s' : sys_ok s → sys_step s s' → sys_ok s'.
Proof.
  intros Hok [o Hl Hm|e c id He Hf|f id Hf|e c str g id He Hs Hc Ha|c Hc].
  - by apply ok_op.
  - apply ok_call; [done|]. split; [done|right]. by exists e, c.
  - apply ok_call; [done|]. split; [done|by left].
  - apply ok_call; [done|]. by exists e, c.
  - apply ok_call; [done|]. by destruct c.
Qed.

Lemma reachable_ok s : sys_reachable s → sys_ok s.
Proof.
  assert (sys_ok (Sys empty_db [])) as Hstart.
  { split; simpl; [by apply rtc_refl|..]; by intros; exfalso; eapply not_elem_of_nil. }
  unfold sys_reachable. intros Hr. revert Hstart. induction Hr as [|s1 s2 s3 Hs _ IH]; [done|].
  intros Hstart. apply IH. by eapply sys_step_ok.
Qed.

(** A task for which nothing is left to do in Redis: the request for its next attempt is
    still in the outbox, or it is in the stream of its type and no worker has
    acknowledged it. *)
Definition request_pending (s : sys) (t : task) : Prop :=
  ∃ e, e ∈ outbox_events (s_db s) ∧ requests e (t_id t) (t_attempt_count t + 1)
    ∧ (e_status e ≠ "published"
       ∨ ∃ context id, entry_of e context id ∈ s_calls s
           ∧ ∀ g, XAck (stream_key (rq_task_type (e_payload_json e))) g id ∉ s_calls s).

Lemma entry_of_inj e e' context context' id :
  entry_of e context id = entry_of e' context' id → e_id e = e_id e'.
Proof.
  unfold entry_of. intros E. injection E as _ E.
  assert (∀ e context, task_fields (e_id e) (e_payload_json e) context !! "event_id" = Some (e_id e)) as Hf.
  { intros e0 [[[a b] c]|]; unfold task_fields; simpl_map; done. }
  pose proof (Hf e context) as H1. rewrite E, Hf in H1. congruence.
Qed.


(** Runs of the pipeline alone. *)
Definition marks_none (o : op) : bool := match o with EventPublished _ _ _ => false | _ => true end.

Lemma sys_run ops d : forallb (λ o, legal o && marks_none o) ops = true →
  sys_reachable (Sys d []) → sys_reachable (Sys (foldl (λ d o, exec o d) d ops) []).
Proof.
  revert d. induction ops as [|o ops IH]; intros d Hl Hr; [done|]. simpl in Hl.
  apply andb_true_iff in Hl as [[Ho Hm]%andb_true_iff Hl]. apply IH; [done|].
  eapply rtc_r; [exact Hr|]. apply (sys_op (Sys d []) o Ho). intros eid Hmark. by destruct o.
Qed.
End system.

Section witnesses.
#[local] Existing Instance test_platform.

Definition demo_sys : sys := Sys (run demo) [].

Lemma demo_sys_reachable : sys_reachable demo_sys.
Proof. apply (sys_run demo); [vm_compute; reflexivity|constructor]. Qed.

End witnesses.
