(* ===== verification/Processes.v ===== *)
(** The processes that share the database and Redis, and the relay among them.

    The world of [Streams.v] is an instance of the program logic of [Rely.v]; the rules for
    a transaction and for a command of Redis are derived here. *)

From stdpp Require Import base list strings gmap relations.
From Stdlib Require Import ZArith Lia.
From S2P Require Import Prelude Rely Schema Consistency Dispatch Stages Tasks Watermark.
From S2P Require Import Invariant Runs Operations Completion Outbox Pipeline Publication.
From S2P Require Import RedisKeys Streams Relay System.

Open Scope string_scope.
Open Scope Z_scope.

Section processes.
Context `{Platform, !Digests, Redis, !RedisLaws}.

(** * The processes of the system *)

#[global] Instance sys_process : Process world sys := {|
  shared := w_sys;
  put_shared := λ s w, w <| w_sys := s |>;
  others := w_others;
  next_other := meanwhile;
  spec_step := sys_step;
  rely := sys_step;
  reached := sys_reachable;
|}.

#[global] Instance sys_process_laws : ProcessLaws world sys.
Proof.
  split; [done|done| |done|].
  - intros w. simpl. unfold meanwhile. destruct (w_others w) as [|[f now] rest] eqn:E.
    + by exists (w_now w), w.
    + by eexists now, _.
  - intros s s' Hr Hs. unfold reached, sys_process, sys_reachable in *. by eapply rtc_r.
Qed.

Lemma reachable_trans s s' : sys_reachable s → rtc sys_step s s' → sys_reachable s'.
Proof. unfold sys_reachable. intros. by etrans. Qed.

Lemma runs_meanwhile P : stable P → runs P meanwhile (λ r s, P s ∧ ∃ now, r = Ok now).
Proof. exact (runs_next_other P). Qed.

(** A transaction is one step. *)
Lemma runs_transact {A} P (f : Z → db → result A * db) (Q : result A → sys → Prop) :
  stable P →
  (∀ now s r d', sys_reachable s → P s → f now (s_db s) = (r, d') →
     sys_step s (s <| s_db := d' |>) ∧ Q r (s <| s_db := d' |>)) →
  runs P (transact f) Q.
Proof.
  intros Hst Hf. unfold transact. apply (runs_bind _ _ _ (λ _ s, P s)).
  - eapply runs_weaken; [done|by apply runs_meanwhile|]. by intros r s [? [now ->]].
  - intros now w r w' Hr Ho Hp E. destruct (f now (s_db (w_sys w))) as [r1 d'] eqn:Ef.
    injection E as <- <-. destruct (Hf now (w_sys w) r1 d' Hr Hp Ef) as [Hs HQ].
    split_and!; [by apply rtc_once|done|done].
Qed.

(** So is a command; one that fails is no step. *)
Lemma runs_command {A} P (reply : list redis_call → result A) call (Q : result A → sys → Prop) :
  stable P →
  (∀ s a, sys_reachable s → P s → reply (s_calls s) = Ok a →
     sys_step s (executes (call a) s) ∧ Q (Ok a) (executes (call a) s)) →
  (∀ s e, P s → Q (Raise e) s) →
  runs P (command reply call) Q.
Proof.
  intros Hst Hok Hr. unfold command. apply (runs_bind _ _ _ (λ _ s, P s)).
  - eapply runs_weaken; [done|by apply runs_meanwhile|]. by intros r s [? [now ->]].
  - intros _ w r w' Hreach Ho Hp E. destruct (reply (s_calls (w_sys w))) as [a|e] eqn:Ef;
      injection E as <- <-.
    + destruct (Hok (w_sys w) a Hreach Hp Ef) as [Hs HQ]. split_and!; [by apply rtc_once|done|done].
    + split_and!; [done|done|by apply Hr].
Qed.

(** * Stable facts *)

Lemma step_db s s' : sys_step s s' → s_db s' = s_db s ∨ step (s_db s) (s_db s').
Proof. intros []; simpl; auto. right. by apply step_exec. Qed.

(** The outbox has an event with this body. *)
Definition has_event (e : outbox_event) (s : sys) : Prop :=
  ∃ e', e' ∈ outbox_events (s_db s) ∧ event_body e' = event_body e.

Lemma has_event_stable e : stable (has_event e).
Proof.
  intros s s' Hr Hs (e1 & He1 & Hb). unfold has_event. destruct (step_db s s' Hs) as [->|Hst]; [by exists e1|].
  destruct (step_event _ _ e1 (ok_db _ (reachable_ok _ Hr)) Hst He1) as (e2 & He2 & Hb2 & _).
  exists e2. split; [done|congruence].
Qed.

Lemma calls_grow s s' c : sys_step s s' → c ∈ s_calls s → c ∈ s_calls s'.
Proof. intros [] Hc; simpl; [done|..]; apply elem_of_app; by left. Qed.

Lemma call_stable c : stable (λ s, c ∈ s_calls s).
Proof. intros s s' _ Hs. by apply calls_grow. Qed.

Lemma sent_stable e : stable (λ s, sent s e).
Proof. intros s s' _ Hs (cx & id & Hc). exists cx, id. by eapply calls_grow. Qed.

(** * The relay *)

(** Publishing an event of the outbox. *)
Lemma runs_publish e context :
  runs (has_event e) (publish_task (e_id e) (e_payload_json e) context)
    (λ r s, has_event e s ∧ match r with Ok _ => sent s e | Raise _ => True end).
Proof.
  unfold publish_task, xadd. apply runs_command; [apply has_event_stable| |by auto].
  intros s id Hr (e' & He' & Hb) Hx.
  assert (entry_of e context id = XAdd (stream_key (rq_task_type (e_payload_json e)))
    (task_fields (e_id e) (e_payload_json e) context) id) as <- by done.
  rewrite <- (entry_body e e') by done. split_and!.
  - apply sys_publish; [done|]. intros f. apply (xadd_fresh _ _ _ _ f) in Hx.
    unfold event_body in Hb. injection Hb as _ _ _ _ -> _. exact Hx.
  - by exists e'.
  - exists context, id. rewrite <- (entry_body e e') by done. apply elem_of_app. right. by left.
Qed.

(** The row behind a claimed event. *)
Definition claims_event (c : outbox_claim) (s : sys) : Prop :=
  ∃ e, has_event e s ∧ e_id e = oc_id c ∧ e_payload_json e = oc_payload c.

Lemma claims_event_stable c : stable (claims_event c).
Proof.
  intros s s' Hr Hs (e & He & ? & ?). exists e. split_and!; [|done|done]. by eapply has_event_stable.
Qed.

Lemma runs_relay_one context report c (P : sys → Prop) :
  stable P → (∀ s, P s → claims_event c s) →
  runs P (relay_one context report c) (λ _ s, P s).
Proof.
  intros HP Hc w r w' Hr Ho Hp. destruct (Hc _ Hp) as (e & He & Hid & Hpay).
  revert Hr Ho. cut (runs (λ s, P s ∧ has_event e s) (relay_one context report c) (λ _ s, P s)).
  { intros Hrun Hr Ho E. by apply (Hrun w r w' Hr Ho). }
  unfold relay_one. rewrite <- Hid, <- Hpay.
  apply (runs_try _ _ _ _ (λ _ s, P s ∧ has_event e s ∧ sent s e) (λ _ s, P s)).
  - intros w1 r1 w2 Hr1 Ho1 [Hp1 He1] E.
    destruct (runs_publish e (context c) w1 r1 w2 Hr1 Ho1 He1 E) as (Hs & Ho2 & He2 & Hsent).
    split_and!; [done|done|].
    destruct r1; [split_and!; [by eapply stable_rtc|done|done]|by eapply stable_rtc].
  - intros exc. apply (runs_bind _ _ _ (λ _ s, P s)).
    + apply runs_transact; [done|]. intros now s r2 d' Hr2 Hp2 E.
      replace d' with (exec (EventFailed (e_id e) (oc_lease_token c) (describe exc) now) (s_db s))
        by (simpl; by rewrite E).
      assert (sys_step s (s <| s_db := exec (EventFailed (e_id e) (oc_lease_token c) (describe exc) now) (s_db s) |>))
        as Hs by (apply sys_op; [done|by intros eid []]).
      split; [done|]. assert (P (s <| s_db := exec (EventFailed (e_id e) (oc_lease_token c) (describe exc) now) (s_db s) |>))
        by (by eapply HP). by destruct r2.
    + intros st. by apply runs_ret.
  - intros mid. apply (runs_bind _ _ _ (λ _ s, P s)).
    + apply runs_transact; [by apply stable_and, stable_and; [|apply has_event_stable|apply sent_stable]|].
      intros now s r2 d' Hr2 (Hp2 & (e' & He' & Hb) & Hs2) E.
      set (o := EventPublished (e_id e) (oc_lease_token c) now).
      replace d' with (exec o (s_db s)) by (simpl; by rewrite E).
      assert (sys_step s (s <| s_db := exec o (s_db s) |>)) as Hs.
      { apply sys_op; [done|]. intros eid ->. exists e'. split_and!; [done| |by eapply (sent_body s e)].
        unfold event_body in Hb. congruence. }
      split; [done|]. assert (P (s <| s_db := exec o (s_db s) |>)) by (by eapply HP). by destruct r2.
    + intros b. by apply runs_ret.
Qed.

(** The claimed events are in the outbox. *)
Lemma claim_in_outbox d w limit ids secs now cs d' :
  reachable d → claim_outbox_batch w limit ids secs now d = (Ok cs, d') →
  ∀ c, c ∈ cs → ∃ e, e ∈ outbox_events d' ∧ e_id e = oc_id c ∧ e_payload_json e = oc_payload c.
Proof.
  intros Hu%reachable_unique R%transaction_Ok c Hc.
  apply claim_batch_Ok in R as (_ & Hcs & _); [|done]. apply list_elem_of_lookup in Hc as [i Hi].
  destruct (Forall2_lookup_r _ _ _ _ _ Hcs Hi) as (e & _ & tok & Hin & ->). by eexists.
Qed.

Lemma relay_runs context limit ids relay_id :
  runs (λ _, True) (relay_outbox_batch context limit ids relay_id) (λ _ _, True).
Proof.
  unfold relay_outbox_batch.
  apply (runs_bind _ _ _ (λ cs s, ∀ c, c ∈ cs → claims_event c s)).
  - apply runs_transact; [apply stable_pure|]. intros now s r d' Hr _ E.
    set (o := ClaimEvents relay_id limit ids OUTBOX_LEASE_SECONDS now).
    split.
    + replace d' with (exec o (s_db s)) by (simpl; by rewrite E).
      apply sys_op; [done|by intros eid []].
    + destruct r as [cs|]; [|done]. intros c Hc.
      destruct (claim_in_outbox _ _ _ _ _ _ _ _ (ok_db _ (reachable_ok _ Hr)) E c Hc) as (e & He & ? & ?).
      exists e. split_and!; [by exists e|done|done].
  - intros cs. apply runs_for; [|done]. intros acc c Hc.
    apply (runs_weaken _ (λ s, ∀ c, c ∈ cs → claims_event c s) _ _
      (λ _ s, ∀ c, c ∈ cs → claims_event c s)); [done| |by intros []].
    apply runs_relay_one; [|auto].
    apply stable_forall. intros c'. apply stable_impl, claims_event_stable.
Qed.

(** Every run takes only steps of the system. *)
Definition follows {A} (m : IO world A) : Prop := ∀ w r w',
  sys_reachable (w_sys w) → others_ok w → m w = (r, w') → rtc sys_step (w_sys w) (w_sys w').

Lemma runs_follows {A} (m : IO world A) : runs (λ _, True) m (λ _ _, True) → follows m.
Proof. intros Hm w r w' Hr Ho E. by destruct (Hm w r w' Hr Ho I E) as (? & _). Qed.

Lemma alone_ok (w : world) : w_others w = [] → others_ok w.
Proof. intros E. unfold others_ok. simpl. rewrite E. constructor. Qed.

(** C19: the relay implements its specification.  Run against any interleaving of other
    processes, failures of Redis included, it takes only steps of the system: above all it
    marks an event as published only when its entry is in the stream. *)
Theorem relay_follows_specification context limit ids relay_id :
  follows (relay_outbox_batch context limit ids relay_id).
Proof. apply runs_follows, relay_runs. Qed.
End processes.

Section witnesses.
#[local] Existing Instance test_platform.
#[local] Existing Instance test_redis.

(** A relay with the two events of [demo] before it. *)
Definition demo_world : world := World demo_sys ∅ ∅ ∅ (Lanes 0 0 0) [] 50.
Definition demo_relayed : Prelude.result relay_report * world :=
  relay_outbox_batch (λ _, None) 10 None "r1" demo_world.

Lemma relay_follows_specification_witness :
  demo_relayed.1 = Ok (RelayReport 2 0 0 0)
  ∧ length (s_calls (w_sys demo_relayed.2)) = 2%nat
  ∧ rtc sys_step demo_sys (w_sys demo_relayed.2).
Proof.
  split; [vm_compute; reflexivity|]. split; [vm_compute; reflexivity|].
  apply (relay_follows_specification (λ _, None) 10 None "r1" demo_world demo_relayed.1 demo_relayed.2
    demo_sys_reachable); [apply alone_ok; reflexivity|].
  unfold demo_relayed. apply surjective_pairing.
Defined.
End witnesses.

