(* ===== verification/Worker.v ===== *)
(** [runtime/streams/worker.py]: what a worker does with one message of its stream,
    the heartbeat that renews its lease, and the loop of the adaptive worker. *)

From stdpp Require Import base list strings gmap relations.
From Stdlib Require Import ZArith Lia.
From S2P Require Import Prelude Schema Consistency Dispatch Stages Tasks.
From S2P Require Import RedisKeys Streams.

Open Scope string_scope.
Open Scope Z_scope.

Section worker.
Context `{Platform, Redis}.

(** The check of [TaskOutcome.__post_init__]. *)
Definition make_outcome (o : outcome) : result outcome :=
  if several_outcomes o
  then Raise (ValueError "a task may produce only one Inbox/dependency outcome") else Ok o.

Definition default_outcome (t : task) : outcome :=
  if truthy (pl_inbox_id (t_payload_json t))
  then TaskOutcome (pl_inbox_id (t_payload_json t)) None None None None else no_outcome.

(** A handler gets the claimed row and returns an outcome, or None. *)
Definition task_handler : Type := claim → IO world (option outcome).

(** [StreamWorker]: its constant fields *)
Record stream_worker := StreamWorker {
  task_type : string;
  handler : task_handler;
  worker_id : string;
}.

Definition seconds_between_heartbeats : Z := Z.max 500000 (seconds TASK_LEASE_SECONDS / 3).

(** The heartbeat thread, for a number of periods; true when the ownership was lost.
    Exceptions are logged and the loop goes on. *)
Fixpoint renew_lease (periods : nat) (task_id lease_token : string) (claim_version : Z) :
    IO world bool :=
  match periods with
  | O => mret false
  | S periods =>
      try_except (transact (λ now, renew_task_lease task_id lease_token claim_version
                    TASK_LEASE_SECONDS now))
        (λ _, renew_lease periods task_id lease_token claim_version)
        (λ renewed, if renewed : bool then renew_lease periods task_id lease_token claim_version
                    else mret true)
  end.

(** [except RetryLater as exc: ...] *)
Definition defer_message (w : stream_worker) (message : stream_message) (task_id : string)
    (lease_token : string) (claim_version : Z) (reason : string) (delay : Z) : IO world unit :=
  deferred ← transact (defer_task task_id reason delay lease_token claim_version);
  if deferred : bool then ack (task_type w) (sm_message_id message);; mret tt else mret tt.

(** WORKER_RETRY_BASE_SECONDS * 2 ** max(0, failure_no - 1) *)
Definition failure_delay (t : task) : Z :=
  let failure_no := t_failure_count t + 1 in
  WORKER_RETRY_BASE * 2 ^ Z.max 0 (failure_no - 1).

(** [except Exception as exc: ...] *)
Definition fail_message (w : stream_worker) (message : stream_message) (t : task)
    (lease_token : string) (exc : exn) : IO world unit :=
  let error := describe exc in
  status ← transact (fail_task (t_id t) error (failure_delay t) lease_token (t_claim_version t));
  (if String.eqb status "dead_letter" then dead_letter message error;; mret tt else mret tt);;
  if String.eqb status "stale" then mret tt
  else ack (task_type w) (sm_message_id message);; mret tt.

Definition complete_message (w : stream_worker) (message : stream_message) (t : task)
    (lease_token : string) (o : outcome) : IO world unit :=
  completed ← transact (complete_task (t_id t) lease_token (t_claim_version t) o);
  if completed : bool then ack (task_type w) (sm_message_id message);; mret tt else mret tt.

(** From the claim on: run the handler, and record what came of it. *)
Definition run_claimed (w : stream_worker) (message : stream_message) (c : claim) : IO world unit :=
  let t := cl_task c in
  let lease_token := default "" (t_lease_token t) in
  try_except (handler w c)
    (λ exc,
       match exc with
       | RetryLater reason delay =>
           defer_message w message (t_id t) lease_token (t_claim_version t) reason delay
       | _ => fail_message w message t lease_token exc
       end)
    (λ o, complete_message w message t lease_token (default (default_outcome t) o)).

(** The statuses under which a message that could not be claimed is done with. *)
Definition DONE_WITH : list string := ["blocked"; "cancelled"; "completed"; "dead_letter"; "retry"].

Definition skip_claim (w : stream_worker) (message : stream_message) (task_id : string) : IO world unit :=
  existing ← transact (λ _, transaction (get_task task_id));
  if match existing with None => true | Some t => py_in (t_status t) DONE_WITH end
  then ack (task_type w) (sm_message_id message);; mret tt
  else mret tt.

Definition handle (w : stream_worker) (message : stream_message) : IO world unit :=
  let task_id := default "" (sm_fields message !! "task_id") in
  if String.eqb task_id "" then
    dead_letter message "missing task_id";;
    ack (task_type w) (sm_message_id message);;
    mret tt
  else
    c ← transact (claim_task task_id (worker_id w) TASK_LEASE_SECONDS);
    match c with
    | None => skip_claim w message task_id
    | Some c => run_claimed w message c
    end.

(** [monotonic] is the reading of [time.monotonic()]. *)
Definition reclaim_if_due (w : stream_worker) (monotonic : Z) : IO world (list stream_message) :=
  next ← io_gets (λ s, default 0 (w_next_reclaim_at s !! task_type w));
  if monotonic <? next then mret []
  else
    ms ← reclaim (task_type w) (worker_id w) STREAM_CLAIM_IDLE_MS STREAM_BATCH_SIZE;
    io_modify (λ s, s <| w_next_reclaim_at :=
      <[task_type w := monotonic + Z.max 100000 STREAM_RECLAIM_INTERVAL]> (w_next_reclaim_at s) |>);;
    mret ms.

Fixpoint handle_all (w : stream_worker) (ms : list stream_message) : IO world unit :=
  match ms with
  | [] => mret tt
  | m :: ms => handle w m;; handle_all w ms
  end.

Definition run_once (w : stream_worker) (block_ms monotonic : Z) : IO world Z :=
  ms ← read (task_type w) (worker_id w) STREAM_BATCH_SIZE block_ms;
  ms ← match ms with [] => reclaim_if_due w monotonic | _ => mret ms end;
  handle_all w ms;;
  mret (Z.of_nat (length ms)).

(** * [AdaptiveStreamWorker] *)

(** Its workers share the id and the client; the lanes split its task types. *)
Definition BACKGROUND : list string := ["delivery"; "enrichment"].

Definition foreground_task_types (ws : list stream_worker) : list string :=
  List.filter (λ ty, negb (py_in ty BACKGROUND)) (map task_type ws).
Definition background_task_types (ws : list stream_worker) : list string :=
  List.filter (λ ty, py_in ty BACKGROUND) (map task_type ws).

Definition rotated (task_types : list string) (cursor : nat) : list string :=
  (drop cursor task_types ++ take cursor task_types)%list.

(** [self.workers.get(task_type)] *)
Definition worker_for (ws : list stream_worker) (ty : string) : option stream_worker :=
  List.find (λ w, String.eqb (task_type w) ty) ws.

(** A message of an unknown type is buried, but not acknowledged. *)
Fixpoint handle_messages (ws : list stream_worker) (ms : list stream_message) : IO world unit :=
  match ms with
  | [] => mret tt
  | m :: ms =>
      let ty := default "" (sm_fields m !! "task_type") in
      match worker_for ws ty with
      | None => dead_letter m ("unsupported task_type: " +:+ ty);; mret tt
      | Some w => handle w m
      end;;
      handle_messages ws ms
  end.

(** The counters after a batch of a lane. *)
Definition foreground_served (n : nat) (l : lanes) : lanes :=
  l <| foreground_cursor := ((foreground_cursor l + 1) mod n)%nat |>
    <| foreground_batches := S (foreground_batches l) |>.
Definition background_served (n : nat) (l : lanes) : lanes :=
  l <| background_cursor := ((background_cursor l + 1) mod n)%nat |>
    <| foreground_batches := 0%nat |>.

(** The order of the lanes: the background lane comes first after four foreground
    batches. *)
Definition lane_order (ws : list stream_worker) (l : lanes) : list (list string * bool) :=
  let foreground := rotated (foreground_task_types ws) (foreground_cursor l) in
  let background := rotated (background_task_types ws) (background_cursor l) in
  if negb (bool_decide (background = [])) && (4 <=? foreground_batches l)%nat
  then [(background, false); (foreground, true)]
  else [(foreground, true); (background, false)].

(** The loop over the lanes: the number of messages of the first lane that has some. *)
Fixpoint serve_lanes (ws : list stream_worker) (wid : string) (ls : list (list string * bool)) :
    IO world (option Z) :=
  match ls with
  | [] => mret None
  | (lane, is_foreground) :: ls =>
      match lane with
      | [] => serve_lanes ws wid ls
      | _ =>
          ms ← read_many lane wid 1;
          match ms with
          | [] => serve_lanes ws wid ls
          | _ =>
              handle_messages ws ms;;
              io_modify (λ s, s <| w_lanes :=
                if is_foreground : bool
                then foreground_served (length (foreground_task_types ws)) (w_lanes s)
                else background_served (length (background_task_types ws)) (w_lanes s) |>);;
              mret (Some (Z.of_nat (length ms)))
          end
      end
  end.

(** The loop over the reclaims. *)
Fixpoint serve_reclaimed (ws : list stream_worker) (monotonic : Z) (types : list string) : IO world Z :=
  match types with
  | [] => mret 0
  | ty :: types =>
      match worker_for ws ty with
      | None => throw (KeyError ty)
      | Some w =>
          ms ← reclaim_if_due w monotonic;
          match ms with
          | [] => serve_reclaimed ws monotonic types
          | _ => handle_all w ms;; mret (Z.of_nat (length ms))
          end
      end
  end.

Definition adaptive_run_once (ws : list stream_worker) (wid : string) (monotonic : Z) : IO world Z :=
  l ← io_gets w_lanes;
  served ← serve_lanes ws wid (lane_order ws l);
  match served with
  | Some n => mret n
  | None =>
      l ← io_gets w_lanes;
      serve_reclaimed ws monotonic
        (rotated (map task_type ws) (foreground_cursor l mod length ws))
  end.
End worker.
