(* ===== verification/WorkerSpec.v ===== *)
(** The worker implements the specification of [System]: in particular it acknowledges
    a message only when the request in it has been answered. *)

From stdpp Require Import base list strings gmap relations.
From Stdlib Require Import ZArith Lia.
From S2P Require Import Prelude Rely Schema Consistency Dispatch Stages Tasks Watermark.
From S2P Require Import Invariant Runs Operations Completion Outbox Pipeline Fencing Publication.
From S2P Require Import RedisKeys Streams Relay System Processes Worker.

Open Scope string_scope.
Open Scope Z_scope.

(** * Where the operations leave the task *)

Section outcomes.
Context `{Platform}.

Definition left_as (tid : string) (sts : list string) (d : db) : Prop :=
  ∃ t, t ∈ tasks d ∧ t_id t = tid ∧ t_status t ∈ sts.

Lemma complete_leaves tid tok v o now d d' :
  truthy (activate_task_id o) = false → complete_task tid tok v o now d = (Ok true, d') →
  left_as tid ["completed"] d'.
Proof.
  intros Hact R. unfold complete_task in R. destruct (several_outcomes o); [done|].
  apply transaction_Ok in R. unfold complete_in_session in R.
  destruct (inbox_outcome o) as [[iid fl]|] eqn:Eo.
  - apply complete_outcome_Ok in R as [[? _]|(_ & m & t & Hm & _ & Ht & Hc & ->)]; [done|].
    apply completable_owns in Hc as [(Hid & _)%owns_facts _].
    exists (complete_row now t). split_and!; [by apply completed_in_statement|done|by left].
  - assert (existsb truthy (outcomes o) = false) as Hnone.
    { unfold outcomes. simpl. rewrite Hact. unfold inbox_outcome in Eo. by repeat case_match. }
    rewrite Hnone in R. simpl in R.
    apply complete_plain_Ok in R as [[? _]|(_ & t & Ht & (Hid & _)%owns_facts & (_ & _ & Hc))];
      [done|].
    exists (complete_row now t). split_and!; [rewrite Hc; by apply updated_row|done|by left].
Qed.

Lemma defer_leaves tid why dl tok v now d d' :
  defer_task tid why dl tok v now d = (Ok true, d') → left_as tid ["retry"] d'.
Proof.
  intros R%transaction_Ok. unfold defer_in_session, save_task in R.
  apply bind_Ok in R as (o & d1 & R1 & R). apply owned_Ok in R1 as [-> Hown].
  destruct o as [t|]; [|run1 R; done].
  destruct (Hown t eq_refl) as [Hin (Hid & _)%owns_facts].
  apply bind_Ok in R as (u & d1 & ->%modify_Ok & R).
  apply bind_Ok in R as (w & d2 & (_ & _ & R2)%finish_attempt_core & R). run1 R.
  exists (defer_row why dl now t). split_and!; [rewrite R2; by apply (saved_row t)|done|by left].
Qed.

Lemma fail_leaves tid err dl tok v now d st d' :
  inv None d → fail_task tid err dl tok v now d = (Ok st, d') → st ≠ "stale" →
  left_as tid ["retry"; "dead_letter"] d'.
Proof.
  intros Hi R%transaction_Ok Hst. unfold fail_in_session, save_task in R.
  apply bind_Ok in R as (o & d1 & R1 & R). apply owned_Ok in R1 as [-> Hown].
  destruct o as [t|]; [|run1 R; done].
  destruct (Hown t eq_refl) as [Hin (Hid & Hrun & Hv)%owns_facts].
  apply bind_Ok in R as (u & d1 & ->%modify_Ok & R).
  apply bind_Ok in R as (w & d2 & R2%finish_attempt_core & R).
  apply bind_Ok in R as (w' & d3 & R3 & R). run1 R.
  set (row := fail_row err dl now t) in *.
  assert (row ∈ tasks d2) as Hrow by (destruct R2 as (_ & _ & ->); by apply (saved_row t)).
  assert (t_status row ≠ "running") as Hnr by (simpl; by destruct (_ <=? _)).
  assert (inv None d2) as Hi2.
  { eapply inv_core; [exact R2|]. apply (carries_save_task None t row); [done| | |done].
    - by apply fail_evolves.
    - by apply running_moves; [|simpl; destruct (_ <=? _)]. }
  destruct (String.eqb_spec (t_status row) "dead_letter") as [Hd|Hd].
  - destruct (release_barrier_carries _ _ _ _ _ _ R3 Hi2) as [_ Hg].
    destruct (grown_tasks _ _ Hg row Hrow) as (t' & Ht' & Hev). exists t'.
    split_and!; [done|by destruct (evolves_gate _ _ Hev) as (-> & _)|].
    rewrite (evolves_terminal _ _ Hev); rewrite Hd; [right; by left|by apply py_in_true].
  - run1 R3. exists row. split_and!; [done|done|]. simpl.
    destruct (_ <=? _); [right; by left|by left].
Qed.
End outcomes.

Section worker.
Context `{Platform, !Digests, Redis, !RedisLaws}.

(** * Facts that survive the other processes *)

(** The event of a message, and its entry in the stream. *)
Definition concerns (e : outbox_event) (context : trace_context) (mid : string) (s : sys) : Prop :=
  has_event e s ∧ entry_of e context mid ∈ s_calls s.

Lemma concerns_stable e cx mid : stable (concerns e cx mid).
Proof. apply stable_and; [apply has_event_stable|apply call_stable]. Qed.

Definition replied (e : outbox_event) (cx : trace_context) (mid : string) (s : sys) : Prop :=
  concerns e cx mid s ∧ answered (s_db s) e.

Lemma replied_stable e cx mid : stable (replied e cx mid).
Proof.
  intros s s' Hr Hs [Hc Ha]. split; [by eapply concerns_stable|].
  destruct Hc as [(e' & He' & Hb) _]. destruct (step_db s s' Hs) as [->|Hst]; [done|].
  eapply (answered_body _ e' e); [done|].
  eapply answered_step; [exact (ok_db _ (reachable_ok _ Hr))|done|done|]. by eapply answered_body.
Qed.

(** The request of a task that is not queued is answered. *)
Lemma unqueued_answered e cx mid s :
  sys_reachable s → concerns e cx mid s →
  (∀ t, t ∈ tasks (s_db s) → t_id t = rq_task_id (e_payload_json e) → t_status t ≠ "queued") →
  replied e cx mid s.
Proof.
  intros Hr Hc Hq. split; [done|]. destruct Hc as [(e' & He' & Hb) _].
  pose proof (reachable_published _ (ok_db _ (reachable_ok _ Hr))) as Hp.
  apply (answered_body _ e' e); [done|]. intros t Ht Hid.
  destruct (published_served _ Hp e' t He' Ht Hid) as [|[_ Hsp]]; [by left|right].
  unfold event_body in Hb. injection Hb as _ _ _ _ Hpay _.
  apply elem_of_cons in Hsp as [Hs|]; [|done]. destruct (Hq t Ht); [congruence|done].
Qed.

Lemma left_answered e cx mid sts s :
  sys_reachable s → concerns e cx mid s → "queued" ∉ sts →
  left_as (rq_task_id (e_payload_json e)) sts (s_db s) → replied e cx mid s.
Proof.
  intros Hr Hc Hsts (t & Ht & Hid & Hst). apply unqueued_answered; [done..|]. intros t' Ht' Hid' Hq.
  assert (t' = t) as ->; [|congruence].
  apply (key_unique t_id (tasks (s_db s))); [|done|done|congruence].
  apply (published_ids _ (reachable_published _ (ok_db _ (reachable_ok _ Hr)))).
Qed.

(** * The client *)

Lemma runs_ensure P ty : stable P →
  runs P (ensure_group ty) (λ r s, P s ∧ ∀ sg, r = Ok sg → sg.1 = stream_key ty).
Proof.
  intros HP. unfold ensure_group. apply (runs_bind _ _ _ (λ _, P)).
  { apply runs_lift. intros s Hs. destruct (group_of ty); [done|]. by split. }
  intros g. apply (runs_bind _ _ _ (λ _, P)); [by apply runs_gets|].
  intros ens. destruct (bool_decide _).
  { apply runs_ret. intros s Hs. split; [done|]. by intros sg [= <-]. }
  apply (runs_bind _ _ _ (λ _, P)).
  - apply (runs_try _ _ _ _ (λ _, P) (λ _, P)).
    + unfold xgroup_create. apply runs_command; [done| |done].
      intros s a Hr Hs _. assert (sys_step s (executes (XGroupCreate (stream_key ty) g) s)) as Hst
        by by apply sys_read. split; [done|by eapply HP].
    + intros e. destruct (response_error "BUSYGROUP" e); [by apply runs_ret|].
      by apply runs_throw.
    + intros a. by apply runs_ret.
  - intros _. apply (runs_bind _ _ _ (λ _, P)); [by apply runs_local|]. intros _.
    apply runs_ret. intros s Hs. split; [done|]. by intros sg [= <-].
Qed.

Lemma runs_ack ty e cx mid :
  stream_key ty = stream_key (rq_task_type (e_payload_json e)) →
  runs (replied e cx mid) (ack ty mid) (λ _ _, True).
Proof.
  intros Hty. unfold ack. apply (runs_bind _ _ _ (λ sg s, sg.1 = stream_key ty ∧ replied e cx mid s)).
  - eapply runs_weaken; [done|apply runs_ensure, replied_stable|].
    intros [sg|] s [? ?]; [by auto|done].
  - intros [str g]. unfold xack. apply runs_command; [|intros s n Hr (Hstr & Hc & Ha) _|done].
    { apply stable_and; [apply stable_pure|apply replied_stable]. }
    simpl in Hstr. subst str. destruct Hc as [(e' & He' & Hb) Hent]. split; [|done].
    apply (sys_ack s e' cx); [done| | |by eapply answered_body].
    + unfold event_body in Hb. injection Hb as _ _ _ _ -> _. done.
    + by rewrite (entry_body e e').
Qed.

(** Acknowledging as the last step. *)
Lemma runs_ack_tt ty e cx mid :
  stream_key ty = stream_key (rq_task_type (e_payload_json e)) →
  runs (replied e cx mid) (ack ty mid;; mret tt) (λ _ _, True).
Proof.
  intros Hty. apply (runs_bind _ _ _ (λ _ _, True)); [|intros ?; by apply runs_ret].
  eapply runs_weaken; [done|by apply runs_ack|]. by intros [].
Qed.

Lemma runs_dead_letter P m err : stable P → runs P (dead_letter m err) (λ _ s, P s).
Proof.
  intros HP. unfold dead_letter, xadd. apply runs_command; [done| |done].
  intros s id Hr Hs Hx.
  assert (sys_step s (executes (XAdd dead_letter_key (<["error" := str_take 1000 err]>
    (<["source_message_id" := sm_message_id m]> (<["source_stream" := sm_stream m]> (sm_fields m)))) id) s))
    as Hst.
  { apply sys_bury. intros f. by eapply xadd_fresh. }
  split; [done|by eapply HP].
Qed.

(** A transaction of the pipeline. *)
Lemma runs_op {A} P (o : Z → op) (f : Z → db → result A * db) (Q : result A → sys → Prop) :
  stable P → (∀ now, legal (o now) = true) → (∀ now eid, ¬ marks (o now) eid) →
  (∀ now d, exec (o now) d = (f now d).2) →
  (∀ now s s' r, sys_reachable s → sys_reachable s' → P s' → s_db s' = (f now (s_db s)).2 →
     f now (s_db s) = (r, s_db s') → Q r s') →
  runs P (transact f) Q.
Proof.
  intros HP Hl Hm Hex HQ. apply runs_transact; [done|]. intros now s r d' Hr Hp E.
  assert (sys_step s (s <| s_db := d' |>)) as Hs.
  { replace d' with (exec (o now) (s_db s)) by (rewrite Hex; by rewrite E).
    apply sys_op; [done|]. intros eid Hmark. by destruct (Hm now eid). }
  split; [done|]. apply (HQ now s); [done|by eapply rtc_r|by eapply HP|by rewrite E|done].
Qed.

Lemma runs_read {A} P (f : db → result A * db) (Q : result A → sys → Prop) :
  stable P → (∀ d, (f d).2 = d) → (∀ s, sys_reachable s → P s → Q (f (s_db s)).1 s) →
  runs P (transact (λ _, f)) Q.
Proof.
  intros HP Hf HQ. unfold transact. apply (runs_bind _ _ _ (λ _ s, P s)).
  - eapply runs_weaken; [done|by apply runs_meanwhile|]. by intros r s [? [now ->]].
  - intros now w r w' Hr Ho Hp E. destruct w as [[d c] ? ? ? ? ? ?]. simpl in *.
    specialize (HQ (Sys d c) Hr Hp). specialize (Hf d). simpl in HQ.
    destruct (f d) as [x d']. simpl in Hf, HQ. subst d'. injection E as <- <-. done.
Qed.

(** * The worker *)

(** A handler follows the specification and does not ask for the activation of a task. *)
Definition well_behaved (h : task_handler) : Prop :=
  ∀ c, runs (λ _, True) (h c)
    (λ r _, ∀ o, r = Ok (Some o) → truthy (activate_task_id o) = false).

(** The message is an entry of the stream of a task type. *)
Definition received_from (ty : string) (m : stream_message) (s : sys) : Prop :=
  XAdd (stream_key ty) (sm_fields m) (sm_message_id m) ∈ s_calls s.

Lemma received_stable ty m : stable (received_from ty m).
Proof. apply call_stable. Qed.

Lemma all_received_stable ty (ms : list stream_message) :
  stable (λ s, ∀ m, m ∈ ms → received_from ty m s).
Proof. apply stable_forall. intros m. apply stable_impl, received_stable. Qed.

Section one_message.
Context (w : stream_worker) (m : stream_message) (e : outbox_event) (cx : trace_context).
Context (Hty : stream_key (task_type w) = stream_key (rq_task_type (e_payload_json e))).
Let P : sys → Prop := concerns e cx (sm_message_id m).
Let tid : string := rq_task_id (e_payload_json e).

Lemma runs_ack_if (b : bool) : 
  runs (λ s, b = true → replied e cx (sm_message_id m) s)
    (if b then ack (task_type w) (sm_message_id m);; mret tt else mret tt) (λ _ _, True).
Proof.
  destruct b; [|by apply runs_ret].
  eapply runs_weaken; [|by apply (runs_ack_tt _ e cx)|done]. auto.
Qed.

Lemma runs_defer tok v why dl :
  runs P (defer_message w m tid tok v why dl) (λ _ _, True).
Proof.
  unfold defer_message.
  apply (runs_bind _ _ _ (λ b s, b = true → replied e cx (sm_message_id m) s)); [|apply runs_ack_if].
  apply (runs_op _ (λ now, Defer tid why dl tok v now)); [apply concerns_stable|done|by intros ??[]|done|].
  intros now s s' r Hr Hr' Hc Hd E. destruct r as [b|]; [|done]. intros ->.
  apply (left_answered _ _ _ ["retry"]); [done|done|by apply py_in_false|]. by eapply defer_leaves.
Qed.

Lemma runs_complete t tok o :
  t_id t = tid → truthy (activate_task_id o) = false →
  runs P (complete_message w m t tok o) (λ _ _, True).
Proof.
  intros Hid Hact. unfold complete_message. rewrite Hid.
  apply (runs_bind _ _ _ (λ b s, b = true → replied e cx (sm_message_id m) s)); [|apply runs_ack_if].
  apply (runs_op _ (λ now, Complete tid tok (t_claim_version t) o now)); [apply concerns_stable| | |done|].
  - intros now. simpl. by rewrite Hact.
  - by intros ??[].
  - intros now s s' r Hr Hr' Hc Hd E. destruct r as [b|]; [|done]. intros ->.
    apply (left_answered _ _ _ ["completed"]); [done|done|by apply py_in_false|].
    by eapply complete_leaves.
Qed.

Lemma runs_fail t tok exc : t_id t = tid → runs P (fail_message w m t tok exc) (λ _ _, True).
Proof.
  intros Hid. unfold fail_message. rewrite Hid.
  apply (runs_bind _ _ _ (λ st s, st ≠ "stale" → replied e cx (sm_message_id m) s)).
  { apply (runs_op _ (λ now, Fail_ tid (describe exc) (failure_delay t) tok (t_claim_version t) now));
      [apply concerns_stable|done|by intros ??[]|done|].
    intros now s s' r Hr Hr' Hc Hd E. destruct r as [st|]; [|done]. intros Hst.
    apply (left_answered _ _ _ ["retry"; "dead_letter"]); [done|done|by apply py_in_false|].
    eapply fail_leaves; [|exact E|done]. exact (reachable_inv _ (ok_db _ (reachable_ok _ Hr))). }
  intros st. assert (stable (λ s, st ≠ "stale" → replied e cx (sm_message_id m) s)) as Hstb
    by apply stable_impl, replied_stable.
  apply (runs_bind _ _ _ (λ _ s, st ≠ "stale" → replied e cx (sm_message_id m) s)).
  - destruct (String.eqb st "dead_letter"); [|by apply runs_ret].
    apply (runs_bind _ _ _ (λ _ s, st ≠ "stale" → replied e cx (sm_message_id m) s));
      [|intros ?; by apply runs_ret].
    set (S := λ s, st ≠ "stale" → replied e cx (sm_message_id m) s) in *.
    apply (runs_weaken _ S _ _ (λ _ s, S s)); [done|by apply runs_dead_letter|by intros []].
  - intros _. destruct (String.eqb_spec st "stale"); [by apply runs_ret|].
    eapply runs_weaken; [|by apply (runs_ack_tt _ e cx)|done]. auto.
Qed.

Lemma runs_skip : runs P (skip_claim w m tid) (λ _ _, True).
Proof.
  unfold skip_claim.
  apply (runs_bind _ _ _ (λ o s, match o with None => true | Some t => py_in (t_status t) DONE_WITH end = true
    → replied e cx (sm_message_id m) s)).
  - apply runs_read; [apply concerns_stable|done|]. intros s Hr Hc. simpl. intros Hst.
    destruct (List.find _ _) as [t'|] eqn:Ef.
    + apply List.find_some in Ef as [Hin%list_elem_of_In Hid%String.eqb_eq].
      apply (left_answered _ _ _ DONE_WITH); [done|done|by apply py_in_false|].
      exists t'. apply py_in_true in Hst. done.
    + apply unqueued_answered; [done|done|]. intros t Ht%list_elem_of_In Hid _.
      apply (List.find_none _ _ Ef) in Ht. by apply String.eqb_neq in Ht.
  - intros o. apply runs_ack_if.
Qed.

Lemma runs_claimed c : t_id (cl_task c) = tid → well_behaved (handler w) →
  runs P (run_claimed w m c) (λ _ _, True).
Proof.
  intros Hid Hh. unfold run_claimed.
  apply (runs_try _ _ _ _ (λ o s, P s ∧ truthy (activate_task_id (default (default_outcome (cl_task c)) o)) = false)
    (λ _, P)).
  - intros w1 r w2 Hr Ho Hp E. destruct (Hh c w1 r w2 Hr Ho I E) as (Hs & Ho2 & HQ).
    assert (P (w_sys w2)) as Hp2 by (eapply stable_rtc; [apply concerns_stable|done..]).
    split_and!; [done|done|]. destruct r as [[o|]|]; [|split; [done|]|done].
    + split; [done|]. by apply HQ.
    + simpl. unfold default_outcome. by destruct (truthy (pl_inbox_id _)).
  - intros exc. rewrite Hid. destruct exc; try (by apply runs_fail). apply runs_defer.
  - intros o. destruct (truthy (activate_task_id _)) eqn:Ht.
    + by intros w1 r1 w2 _ _ [_ Hf].
    + eapply runs_weaken; [|by apply runs_complete|done]. by intros s [? _].
Qed.

Lemma runs_handle : default "" (sm_fields m !! "task_id") = tid → tid ≠ "" →
  well_behaved (handler w) → runs P (handle w m) (λ _ _, True).
Proof.
  intros Hid Hne Hh. unfold handle. rewrite Hid.
  destruct (String.eqb_spec tid ""); [done|].
  apply (runs_bind _ _ _ (λ o s, P s ∧ ∀ c, o = Some c → t_id (cl_task c) = tid)).
  - apply (runs_op _ (λ now, ClaimTask tid (worker_id w) TASK_LEASE_SECONDS now));
      [apply concerns_stable|done|by intros ??[]|done|].
    intros now s s' r Hr Hr' Hc Hd E. destruct r as [o|]; [|done]. split; [done|].
    intros c ->. apply transaction_Ok in E.
    apply claim_row_stored in E as (t & tok & _ & [Hc' _]%claimable_status & -> & _). done.
  - intros [c|].
    + destruct (decide (t_id (cl_task c) = tid)) as [Hc|Hc].
      * eapply runs_weaken; [|by apply runs_claimed|done]. by intros s [? _].
      * intros w1 r w2 Hr Ho [_ Hcl]. destruct Hc. by apply Hcl.
    + eapply runs_weaken; [|apply runs_skip|done]. by intros s [? _].
Qed.
End one_message.

(** ** The message and its event *)

Lemma stream_key_not_dead ty : is_Some (list_find (λ kv, kv.1 = ty) GROUPS) → stream_key ty ≠ dead_letter_key.
Proof.
  intros Hg E. unfold stream_key, dead_letter_key, Keys.dead_letter_stream, Keys.stream in E.
  apply (inj (String.append _)), (inj (String.append _)), Keys.part_inj in E.
  destruct Hg as [[i kv] (Hin & <- & _)%list_find_Some]. apply list_elem_of_lookup_2 in Hin.
  revert E. repeat (apply elem_of_cons in Hin as [->|Hin]; [done|]). by apply not_elem_of_nil in Hin.
Qed.

Lemma task_fields_id e cx :
  task_fields (e_id e) (e_payload_json e) cx !! "task_id" = Some (rq_task_id (e_payload_json e)).
Proof. destruct cx as [[[a b] c]|]; unfold task_fields; by simpl_map. Qed.

Definition known_type (ty : string) : Prop := is_Some (list_find (λ kv, kv.1 = ty) GROUPS).

Lemma received_concerns ty m s :
  sys_reachable s → known_type ty → received_from ty m s →
  ∃ e cx, concerns e cx (sm_message_id m) s
    ∧ stream_key ty = stream_key (rq_task_type (e_payload_json e))
    ∧ default "" (sm_fields m !! "task_id") = rq_task_id (e_payload_json e)
    ∧ rq_task_id (e_payload_json e) ≠ "".
Proof.
  intros Hr Hty Hm. pose proof (reachable_ok _ Hr) as Hok.
  destruct (ok_entries _ Hok _ _ _ Hm) as [Hd|(e & cx & He & E)];
    [by apply stream_key_not_dead in Hty|].
  exists e, cx. unfold received_from in Hm. rewrite E in Hm.
  pose proof (f_equal (λ c, match c with XAdd str _ _ => str | _ => "" end) E) as Es.
  pose proof (f_equal (λ c, match c with XAdd _ f _ => f | _ => ∅ end) E) as Ef.
  simpl in Es, Ef. split_and!.
  - split; [by exists e|done].
  - done.
  - by rewrite Ef, task_fields_id.
  - pose proof (reachable_published _ (ok_db _ Hok)) as Hp.
    pose proof (published_known _ Hp e He) as (t & Hid & Ht)%elem_of_map.
    destruct (published_tasks _ Hp t Ht) as [[n Hn] _]. rewrite <- Hid, Hn. done.
Qed.

(** One message, whatever it is. *)
Lemma runs_message w m :
  known_type (task_type w) → well_behaved (handler w) →
  runs (received_from (task_type w) m) (handle w m) (λ _ _, True).
Proof.
  intros Hty Hh w1 r w2 Hr Ho Hm E.
  destruct (received_concerns _ _ _ Hr Hty Hm) as (e & cx & Hc & Hs & Hid & Hne).
  exact (runs_handle w m e cx Hs Hid Hne Hh w1 r w2 Hr Ho Hc E).
Qed.

Lemma runs_messages w ms :
  known_type (task_type w) → well_behaved (handler w) →
  runs (λ s, ∀ m, m ∈ ms → received_from (task_type w) m s) (handle_all w ms) (λ _ _, True).
Proof.
  intros Hty Hh. induction ms as [|m ms IH]; simpl; [by apply runs_ret|].
  apply (runs_bind _ _ _ (λ _ s, ∀ m, m ∈ ms → received_from (task_type w) m s)); [|intros _; exact IH].
  intros w1 r w2 Hr Ho Hms E.
  destruct (runs_message w m Hty Hh w1 r w2 Hr Ho (Hms m (list_elem_of_here _ _)) E) as (Hs & Ho2 & _).
  split_and!; [done|done|]. destruct r; [|done].
  eapply (stable_rtc _ _ _ (all_received_stable (task_type w) ms)); [exact Hr|exact Hs|].
  intros m' Hm'. apply Hms. by right.
Qed.

(** ** Reading *)

Lemma messages_in r m : m ∈ messages r → ∃ es, (sm_stream m, es) ∈ r ∧ (sm_message_id m, sm_fields m) ∈ es.
Proof.
  unfold messages. intros ([s es] & Hm & Hr)%list_elem_of_bind.
  apply elem_of_map in Hm as ([id f] & <- & He). by exists es.
Qed.

Lemma runs_xreadgroup ty g c n b :
  runs (λ _, True) (xreadgroup (stream_key ty) g c n b)
    (λ r s, ∀ rep m, r = Ok rep → m ∈ messages rep → received_from ty m s).
Proof.
  unfold xreadgroup. apply runs_command; [apply stable_pure| |done].
  intros s rep Hr _ E. split; [by apply sys_read|]. intros rep' m [= <-] (es & Hs & Hm)%messages_in.
  destruct (xreadgroup_entries _ _ _ _ _ _ _ _ _ _ _ E Hs Hm) as [_ Hin].
  apply elem_of_app. by left.
Qed.

Lemma runs_group {A} ty (Q : result A → sys → Prop) :
  (∀ e s, Q (Raise e) s) →
  runs (λ _, True) (ensure_group ty)
    (λ r s, match r with Ok sg => sg.1 = stream_key ty | Raise e => Q (Raise e) s end).
Proof.
  intros HQ. eapply (runs_weaken _ (λ _, True)); [done|apply runs_ensure, stable_pure|].
  intros [sg|] s [_ Hsg]; [by apply Hsg|apply HQ].
Qed.

Lemma runs_read_stream ty c n b :
  runs (λ _, True) (read ty c n b)
    (λ r s, ∀ ms, r = Ok ms → ∀ m, m ∈ ms → received_from ty m s).
Proof.
  unfold read. apply (runs_bind _ _ _ (λ sg _, sg.1 = stream_key ty)).
  { by apply (runs_group _ (λ r s, ∀ ms, r = Ok ms → ∀ m, m ∈ ms → received_from ty m s)). }
  intros [str g]. 
  apply (runs_bind _ _ _ (λ rep s, ∀ m, m ∈ messages rep → received_from ty m s)).
  2:{ intros rep. apply runs_ret. by intros s Hs ms [= <-]. }
  assert (∀ (sg : string * string) (R : sys → Prop), (∀ s, R s → sg.1 = stream_key ty) →
    runs R (xreadgroup sg.1 sg.2 c (Z.max 1 n) (Some (Z.max 0 b)))
      (λ r s, match r with
       | Ok rep => ∀ m, m ∈ messages rep → received_from ty m s
       | Raise e => ∀ ms : list stream_message, Raise e = Ok ms → ∀ m, m ∈ ms → received_from ty m s
       end)) as Hask.
  { intros sg R HR w1 r w2 Hr Ho HRw E. specialize (HR _ HRw). rewrite HR in E.
    destruct (runs_xreadgroup ty _ _ _ _ w1 r w2 Hr Ho I E) as (? & ? & HQ).
    split_and!; [done|done|]. destruct r; [|done]. intros m. by apply HQ. }
  apply (runs_try _ _ _ _ (λ rep s, ∀ m, m ∈ messages rep → received_from ty m s) (λ _ _, True)).
  - eapply (runs_weaken _ (λ _, (str, g).1 = stream_key ty)); [done|by apply Hask|]. by intros [].
  - intros exc. destruct (response_error "NOGROUP" exc); [|by apply runs_throw].
    apply (runs_bind _ _ _ (λ _ _, True)); [by apply runs_local|]. intros _.
    apply (runs_bind _ _ _ (λ sg _, sg.1 = stream_key ty)).
    { by apply (runs_group _ (λ r s, ∀ ms, r = Ok ms → ∀ m, m ∈ ms → received_from ty m s)). }
    intros sg. by apply Hask.
  - intros rep. apply runs_ret. done.
Qed.

Lemma runs_reclaim ty c mi n :
  runs (λ _, True) (reclaim ty c mi n)
    (λ r s, ∀ ms, r = Ok ms → ∀ m, m ∈ ms → received_from ty m s).
Proof.
  unfold reclaim. apply (runs_bind _ _ _ (λ sg _, sg.1 = stream_key ty)).
  { by apply (runs_group _ (λ r s, ∀ ms, r = Ok ms → ∀ m, m ∈ ms → received_from ty m s)). }
  intros [str g]. apply (runs_bind _ _ _ (λ _ _, str = stream_key ty)); [by apply runs_gets|].
  intros start.
  set (got := λ (rep : option string * list (string * fields)) s,
    ∀ m, m ∈ map (λ '(id, f), StreamMessage str id f) rep.2 → received_from ty m s).
  apply (runs_bind _ _ _ got).
  - unfold xautoclaim. apply runs_command; [apply stable_pure| |done].
    intros s [o es] Hr -> E. split; [by apply sys_read|]. intros m Hm.
    apply elem_of_map in Hm as ([id f] & <- & Hin). simpl.
    apply elem_of_app. left. by eapply xautoclaim_entries.
  - intros [next es]. apply (runs_bind _ _ _ (λ _, got (next, es))); [by apply runs_local|].
    intros _. apply runs_ret. by intros s Hs ms [= <-].
Qed.

(** C20: the worker implements its specification.  One round of a worker - reading or
    reclaiming messages, claiming their tasks, running the handler, recording the outcome,
    acknowledging - takes only steps of the system, whatever the others do meanwhile: it
    never acknowledges a message whose request may still have to be served. *)
Theorem worker_follows_specification w block_ms monotonic :
  known_type (task_type w) → well_behaved (handler w) → follows (run_once w block_ms monotonic).
Proof.
  intros Hty Hh. apply runs_follows. unfold run_once.
  set (got := λ (ms : list stream_message) s, ∀ m, m ∈ ms → received_from (task_type w) m s).
  apply (runs_bind _ _ _ got).
  { eapply (runs_weaken _ (λ _, True)); [done|apply runs_read_stream|]. intros [ms|] s Hs; [|done]. intros m. by apply Hs. }
  intros ms. apply (runs_bind _ _ _ got).
  - destruct ms as [|m ms]; [|apply runs_ret; auto]. unfold reclaim_if_due.
    apply (runs_bind _ _ _ (λ _ _, True)); [by apply runs_gets|]. intros next.
    destruct (monotonic <? next); [apply runs_ret; by intros s _ m ?%not_elem_of_nil|].
    apply (runs_bind _ _ _ got).
    { eapply (runs_weaken _ (λ _, True)); [done|apply runs_reclaim|]. intros [ms|] s Hs; [|done]. intros m. by apply Hs. }
    intros ms. apply (runs_bind _ _ _ (λ _, got ms)); [by apply runs_local|].
    intros _. by apply runs_ret.
  - intros ms'. apply (runs_bind _ _ _ (λ _ _, True)); [|intros _; by apply runs_ret].
    eapply runs_weaken; [|by apply runs_messages|by intros []]. done.
Qed.

(** ** The heartbeat *)

Lemma renewal_follows_specification periods tid tok v :
  runs (λ _, True) (renew_lease periods tid tok v) (λ _ _, True).
Proof.
  induction periods as [|n IH]; simpl; [by apply runs_ret|].
  apply (runs_try _ _ _ _ (λ _ _, True) (λ _ _, True)); [|done|].
  - apply (runs_op _ (λ now, Renew tid tok v TASK_LEASE_SECONDS now));
      [apply stable_pure|done|by intros ??[]|done|]. by intros ??? [].
  - intros [|]; [exact IH|by apply runs_ret].
Qed.

(** ** The adaptive worker *)

(** The message is an entry of one of the task streams. *)
Definition received (m : stream_message) (s : sys) : Prop :=
  ∃ ty, known_type ty ∧ received_from ty m s.

Definition all_received (ms : list stream_message) (s : sys) : Prop := ∀ m, m ∈ ms → received m s.

Lemma stable_received ms : stable (all_received ms).
Proof.
  intros s s' Hr Hs Hms m Hm. destruct (Hms m Hm) as (ty & ? & ?). exists ty.
  split; [done|]. by eapply received_stable.
Qed.

(** The streams of a pipeline. *)
Definition task_streams (sgs : list (string * string)) : Prop :=
  ∀ sg, sg ∈ sgs → ∃ ty, known_type ty ∧ sg.1 = stream_key ty.

Lemma runs_ensure_groups P tys : stable P → (∀ ty, ty ∈ tys → known_type ty) →
  runs P (ensure_groups tys) (λ r s, P s ∧ ∀ sgs, r = Ok sgs → task_streams sgs).
Proof.
  intros HP. induction tys as [|ty tys IH]; intros Hk; simpl.
  { apply runs_ret. intros s Hs. split; [done|]. intros sgs [= <-] sg ?%not_elem_of_nil. done. }
  apply (runs_bind _ _ _ (λ sg s, P s ∧ sg.1 = stream_key ty)).
  { eapply (runs_weaken _ P); [done|by apply runs_ensure|].
    intros [sg|] s [Hs Hsg]; [by auto|by split]. }
  intros sg. apply (runs_bind _ _ _ (λ sgs s, (P s ∧ sg.1 = stream_key ty) ∧ task_streams sgs)).
  { intros w r w' Hr Ho [Hp Hsg] E.
    destruct (IH (λ ty' Hin, Hk ty' (list_elem_of_further _ _ _ Hin)) w r w' Hr Ho Hp E) as (? & ? & Hp' & HQ).
    split_and!; [done|done|]. destruct r; [|by split]. split; [by split|by apply HQ]. }
  intros sgs. apply runs_ret. intros s [[Hp Hsg] Hs]. split; [done|]. intros sgs' [= <-] sg'.
  intros [->|Hin]%elem_of_cons; [exists ty; split; [apply Hk; by left|done]|by apply Hs].
Qed.

(** The replies of a pipeline, and the messages in them. *)
Definition replies_received (rs : list (Prelude.result read_reply)) (s : sys) : Prop :=
  ∀ rep, Ok rep ∈ rs → all_received (messages rep) s.

Lemma stable_replies rs : stable (replies_received rs).
Proof. apply stable_forall. intros rep. apply stable_impl, stable_received. Qed.

Lemma runs_pipeline sgs c n : task_streams sgs → ∀ P, stable P →
  runs P (read_pipeline sgs c n) (λ r s, P s ∧ ∃ rs, r = Ok rs ∧ replies_received rs s).
Proof.
  induction sgs as [|[str g] sgs IH]; intros Hts P HP; simpl.
  { apply runs_ret. intros s Hs. split; [done|]. exists []. split; [done|].
    by intros rep ?%not_elem_of_nil. }
  destruct (Hts (str, g) (list_elem_of_here _ _)) as (ty & Hty & Hstr). simpl in Hstr. subst str.
  apply (runs_bind _ _ _ (λ r s, P s ∧ replies_received [r] s)).
  - apply (runs_try _ _ _ _ (λ rep s, P s ∧ all_received (messages rep) s) (λ _ s, P s)).
    + unfold xreadgroup. apply runs_command; [done| |done].
      intros s rep Hr Hp E. set (c' := XReadGroup _ _ _ _ _).
      assert (sys_step s (executes c' s)) as Hst by (by apply sys_read).
      split; [done|]. split; [by eapply HP|]. intros m (es & Hs & Hm)%messages_in. exists ty. split; [done|].
      destruct (xreadgroup_entries _ _ _ _ _ _ _ _ _ _ _ E Hs Hm) as [_ Hin].
      apply elem_of_app. by left.
    + intros e. apply runs_ret. intros s Hp. split; [done|].
      intros rep Hin. by apply list_elem_of_singleton in Hin.
    + intros rep. apply runs_ret. intros s [Hp Hrep]. split; [done|].
      intros rep' Hin. apply list_elem_of_singleton in Hin. by injection Hin as ->.
  - intros r. apply (runs_bind _ _ _ (λ rs s, (P s ∧ replies_received [r] s) ∧ replies_received rs s)).
    + eapply (runs_weaken _ (λ s, P s ∧ replies_received [r] s)); [done| |].
      * apply IH; [|by apply stable_and, stable_replies].
        intros sg Hin. apply Hts. by right.
      * intros r' s [? (rs & -> & ?)]. done.
    + intros rs. apply runs_ret. intros s [[Hp Ha1] Ha2]. split; [done|]. eexists. split; [done|].
      intros rep [<-|Hin]%elem_of_cons; [apply Ha1; by left|by apply Ha2].
Qed.

Lemma runs_sort tys rs : (∀ ty, ty ∈ tys → known_type ty) →
  runs (replies_received rs) (sort_replies tys rs)
    (λ r s, ∀ ms missing, r = Ok (ms, missing) →
       all_received ms s ∧ ∀ ty, ty ∈ missing → known_type ty).
Proof.
  revert rs. induction tys as [|ty tys IH]; intros rs Hk; simpl.
  { apply runs_ret. intros s _ ms missing [= <- <-]. split; by intros ? ?%not_elem_of_nil. }
  assert (∀ ty', ty' ∈ tys → known_type ty') as Hk' by (intros; apply Hk; by right).
  destruct rs as [|[rep|e] rs].
  { apply runs_ret. intros s _ ms missing [= <- <-]. split; by intros ? ?%not_elem_of_nil. }
  - apply (runs_bind _ _ _ (λ p s, all_received (messages rep) s ∧ all_received p.1 s
      ∧ ∀ ty', ty' ∈ p.2 → known_type ty')).
    + intros w r w' Hr Ho Hrs E.
      assert (replies_received rs (w_sys w)) as Hrs' by (intros rep' ?; apply Hrs; by right).
      destruct (IH rs Hk' w r w' Hr Ho Hrs' E) as (Hs & Ho' & HQ). split_and!; [done|done|].
      destruct r as [[ms missing]|]; [|done]. destruct (HQ ms missing eq_refl).
      split_and!; [|done|done]. eapply stable_rtc; [apply stable_received|done|done|].
      apply Hrs. by left.
    + intros [ms missing]. apply runs_ret. intros s (Ha1 & Ha2 & Ha3) ms' missing' [= <- <-].
      split; [|done]. intros m [Hm|Hm]%elem_of_app; auto.
  - destruct (response_error "NOGROUP" e); [|by apply runs_throw].
    apply (runs_bind _ _ _ (λ _, replies_received rs)).
    { apply runs_local; [done|]. intros s Hrs rep' ?. apply Hrs. by right. }
    intros _. apply (runs_bind _ _ _ (λ p s, all_received p.1 s ∧ ∀ ty', ty' ∈ p.2 → known_type ty')).
    { eapply runs_weaken; [done|by apply IH|]. intros [[ms missing]|] s HQ; [by apply HQ|done]. }
    intros [ms missing]. apply runs_ret. intros s [Ha1 Ha2] ms' missing' [= <- <-]. split; [done|].
    intros ty' [->|?]%elem_of_cons; [apply Hk; by left|auto].
Qed.

Lemma all_ok_in rs reps : all_ok rs = Ok reps → ∀ rep, rep ∈ reps → Ok rep ∈ rs.
Proof.
  revert reps. induction rs as [|[r|e] rs IH]; intros reps; simpl; [| |done].
  - intros [= <-] rep ?%not_elem_of_nil. done.
  - destruct (all_ok rs) as [l|]; [|done]. intros [= <-] rep [->|Hin]%elem_of_cons; [by left|].
    right. by apply (IH l).
Qed.

Lemma runs_read_many tys c n : (∀ ty, ty ∈ tys → known_type ty) →
  runs (λ _, True) (read_many tys c n) (λ r s, ∀ ms, r = Ok ms → all_received ms s).
Proof.
  intros Hk. unfold read_many. apply (runs_bind _ _ _ (λ sgs _, task_streams sgs)).
  { eapply (runs_weaken _ (λ _, True)); [done|by apply runs_ensure_groups; [apply stable_pure|]|].
    intros [sgs|] s [_ Hs]; [by apply Hs|done]. }
  intros sgs. apply (runs_bind _ _ _ replies_received).
  { intros w r w' Hr Ho Hts E.
    destruct (runs_pipeline sgs c n Hts _ (stable_pure True) w r w' Hr Ho I E) as (? & ? & _ & rs & -> & ?).
    done. }
  intros rs. apply (runs_bind _ _ _ (λ p s, all_received p.1 s ∧ ∀ ty, ty ∈ p.2 → known_type ty)).
  { eapply runs_weaken; [done|by apply runs_sort|]. intros [[ms missing]|] s HQ; [by apply HQ|done]. }
  intros [ms missing]. destruct missing as [|ty missing].
  { apply runs_ret. by intros s [Hms _] ms' [= <-]. }
  intros w0 r0 w0' Hr0 Ho0 [Hms0 Hmiss]. revert w0 r0 w0' Hr0 Ho0 Hms0.
  change (runs (all_received ms) (retry_streams ← ensure_groups (ty :: missing);
    replies ← read_pipeline retry_streams c n; more ← io_lift (all_ok replies);
    mret (ms ++ (more ≫= messages))%list) (λ r s, ∀ ms', r = Ok ms' → all_received ms' s)).
  apply (runs_bind _ _ _ (λ sgs s, all_received ms s ∧ task_streams sgs)).
  { eapply (runs_weaken _ (all_received ms)); [done|by apply runs_ensure_groups; [apply stable_received|]|].
    intros [sgs'|] s [Hs1 Hs2]; [by auto|done]. }
  intros sgs'. apply (runs_bind _ _ _ (λ rs s, all_received ms s ∧ replies_received rs s)).
  { intros w r w' Hr Ho [Hms Hts] E.
    destruct (runs_pipeline sgs' c n Hts _ (stable_received ms) w r w' Hr Ho Hms E) as (? & ? & ? & rs' & -> & ?).
    done. }
  intros rs'. apply (runs_bind _ _ _ (λ more s, all_received ms s ∧ ∀ rep, rep ∈ more → all_received (messages rep) s)).
  { apply runs_lift. intros s [Hms Hrs]. destruct (all_ok rs') as [reps|] eqn:Ea; [|done].
    split; [done|]. intros rep Hin. apply Hrs. by eapply all_ok_in. }
  intros more. apply runs_ret. intros s [Hms Hmore] ms' [= <-] m [Hm|Hm]%elem_of_app; [auto|].
  apply list_elem_of_bind in Hm as (rep & Hm & Hrep). by apply (Hmore rep).
Qed.

(** The workers of an adaptive worker: well behaved, of known types. *)
Definition team (ws : list stream_worker) : Prop :=
  ∀ w, w ∈ ws → known_type (task_type w) ∧ well_behaved (handler w).

Lemma worker_for_in ws ty w : worker_for ws ty = Some w → w ∈ ws ∧ task_type w = ty.
Proof. intros [Hin%list_elem_of_In Hty%String.eqb_eq]%List.find_some. done. Qed.

Lemma task_fields_type e cx :
  task_fields (e_id e) (e_payload_json e) cx !! "task_type" = Some (rq_task_type (e_payload_json e)).
Proof. destruct cx as [[[a b] c]|]; unfold task_fields; by simpl_map. Qed.

Lemma runs_dispatch ws m : team ws →
  runs (received m)
    (match worker_for ws (default "" (sm_fields m !! "task_type")) with
     | None => dead_letter m ("unsupported task_type: " +:+ default "" (sm_fields m !! "task_type"));; mret tt
     | Some w => handle w m
     end) (λ _ _, True).
Proof.
  intros Hteam. destruct (worker_for ws _) as [w|] eqn:Ew.
  - apply worker_for_in in Ew as [Hw Hwt]. destruct (Hteam w Hw) as [Hk Hb].
    intros w1 r w2 Hr Ho (ty & Hty & Hm) E.
    assert (received_from (task_type w) m (w_sys w1)) as Hm'.
    { pose proof (reachable_ok _ Hr) as Hok. unfold received_from in *.
      destruct (ok_entries _ Hok _ _ _ Hm) as [Hd|(e & cx & He & Ee)];
        [by apply stream_key_not_dead in Hty|].
      pose proof (f_equal (λ c, match c with XAdd str _ _ => str | _ => "" end) Ee) as Es.
      pose proof (f_equal (λ c, match c with XAdd _ f _ => f | _ => ∅ end) Ee) as Ef.
      simpl in Es, Ef. rewrite Ef, task_fields_type in Hwt. simpl in Hwt.
      by rewrite Hwt, <- Es. }
    exact (runs_message w m Hk Hb w1 r w2 Hr Ho Hm' E).
  - apply (runs_bind _ _ _ (λ _ _, True)); [|intros ?; by apply runs_ret].
    eapply (runs_weaken _ (λ _, True)); [done|apply runs_dead_letter, stable_pure|by intros []].
Qed.

Lemma runs_handle_messages ws ms : team ws →
  runs (all_received ms) (handle_messages ws ms) (λ _ _, True).
Proof.
  intros Hteam. induction ms as [|m ms IH]; simpl; [by apply runs_ret|].
  apply (runs_bind _ _ _ (λ _, all_received ms)); [|intros _; exact IH].
  intros w1 r w2 Hr Ho Hms E.
  destruct (runs_dispatch ws m Hteam w1 r w2 Hr Ho (Hms m (list_elem_of_here _ _)) E) as (Hs & Ho2 & _).
  split_and!; [done|done|]. destruct r; [|done].
  eapply (stable_rtc _ _ _ (stable_received ms)); [exact Hr|exact Hs|].
  intros m' Hm'. apply Hms. by right.
Qed.

Lemma runs_serve_lanes ws wid ls : team ws →
  (∀ lane b ty, (lane, b) ∈ ls → ty ∈ lane → known_type ty) →
  runs (λ _, True) (serve_lanes ws wid ls) (λ _ _, True).
Proof.
  intros Hteam. induction ls as [|[lane b] ls IH]; intros Hk; simpl; [by apply runs_ret|].
  assert (runs (λ _, True) (serve_lanes ws wid ls) (λ _ _, True)) as Hrest.
  { apply IH. intros lane' b' ty Hin. apply (Hk lane' b'). by right. }
  destruct lane as [|ty lane]; [done|].
  apply (runs_bind _ _ _ all_received).
  { eapply (runs_weaken _ (λ _, True)); [done|apply runs_read_many|].
    - intros ty' Hty'. apply (Hk (ty :: lane) b); [by left|done].
    - intros [ms|] s Hs; [by apply Hs|done]. }
  intros [|m ms]; [by eapply runs_weaken; [..|exact Hrest|done]|].
  apply (runs_bind _ _ _ (λ _ _, True)).
  { eapply (runs_weaken _ (all_received (m :: ms))); [done|by apply runs_handle_messages|by intros []]. }
  intros _. apply (runs_bind _ _ _ (λ _ _, True)); [by apply runs_local|]. intros _. by apply runs_ret.
Qed.

Lemma runs_reclaim_due w mono :
  runs (λ _, True) (reclaim_if_due w mono)
    (λ r s, ∀ ms, r = Ok ms → ∀ m, m ∈ ms → received_from (task_type w) m s).
Proof.
  unfold reclaim_if_due. apply (runs_bind _ _ _ (λ _ _, True)); [by apply runs_gets|]. intros next.
  destruct (mono <? next); [apply runs_ret; by intros s _ ms [= <-] m ?%not_elem_of_nil|].
  set (got := λ (ms : list stream_message) s, ∀ m, m ∈ ms → received_from (task_type w) m s).
  apply (runs_bind _ _ _ got).
  { eapply (runs_weaken _ (λ _, True)); [done|apply runs_reclaim|].
    intros [ms|] s Hs; [|done]. intros m. by apply Hs. }
  intros ms. apply (runs_bind _ _ _ (λ _, got ms)); [by apply runs_local|].
  intros _. apply runs_ret. by intros s Hs ms' [= <-].
Qed.

Lemma runs_serve_reclaimed ws mono tys : team ws →
  runs (λ _, True) (serve_reclaimed ws mono tys) (λ _ _, True).
Proof.
  intros Hteam. induction tys as [|ty tys IH]; simpl; [by apply runs_ret|].
  destruct (worker_for ws ty) as [w|] eqn:Ew; [|by apply runs_throw].
  apply worker_for_in in Ew as [Hw _]. destruct (Hteam w Hw) as [Hk Hb].
  apply (runs_bind _ _ _ (λ ms s, ∀ m, m ∈ ms → received_from (task_type w) m s)).
  { eapply (runs_weaken _ (λ _, True)); [done|apply runs_reclaim_due|].
    intros [ms|] s Hs; [|done]. intros m. by apply Hs. }
  intros [|m ms]; [by eapply runs_weaken; [..|exact IH|done]|].
  apply (runs_bind _ _ _ (λ _ _, True)); [|intros _; by apply runs_ret].
  eapply runs_weaken; [|by apply runs_messages|by intros []]. done.
Qed.

Lemma in_rotated ty tys n : ty ∈ rotated tys n → ty ∈ tys.
Proof.
  unfold rotated. rewrite <- (take_drop n tys) at 3. rewrite !elem_of_app. tauto.
Qed.

Lemma lane_types ws l lane b ty : (lane, b) ∈ lane_order ws l → ty ∈ lane → ty ∈ map task_type ws.
Proof.
  assert (∀ p n, ty ∈ rotated (List.filter p (map task_type ws)) n → ty ∈ map task_type ws) as Hin.
  { intros p n Hr%in_rotated. by apply (elem_of_select ty p) in Hr as [? _]. }
  unfold lane_order. destruct (_ && _); intros [E|[E|[]%not_elem_of_nil]%elem_of_cons]%elem_of_cons;
    injection E as -> _; apply Hin.
Qed.

(** So does the adaptive worker, which serves all the streams: reading its lanes in
    turn, it dispatches each message to the worker of its type, and every round takes
    only steps of the system. *)
Theorem adaptive_worker_follows_specification ws wid monotonic :
  team ws → follows (adaptive_run_once ws wid monotonic).
Proof.
  intros Hteam. apply runs_follows. unfold adaptive_run_once.
  apply (runs_bind _ _ _ (λ _ _, True)); [by apply runs_gets|]. intros l.
  apply (runs_bind _ _ _ (λ _ _, True)).
  - eapply (runs_weaken _ (λ _, True)); [done|apply runs_serve_lanes; [done|]|by intros []].
    intros lane b ty Hin (w & <- & Hw)%(lane_types ws l lane b ty Hin)%elem_of_map. by apply Hteam.
  - intros [n|]; [by apply runs_ret|].
    apply (runs_bind _ _ _ (λ _ _, True)); [by apply runs_gets|]. intros l'.
    by apply runs_serve_reclaimed.
Qed.
End worker.

Section witnesses.
#[local] Existing Instance test_platform.
#[local] Existing Instance test_redis.

(** Workers that have nothing to do but finish: the one for queries handles the question
    of [demo], which the relay has put into its stream. *)
Definition idle (ty : string) : stream_worker := StreamWorker ty (λ _, mret None) "w2".

Lemma idle_well_behaved ty : well_behaved (handler (idle ty)).
Proof. intros c. apply runs_ret. by intros s _ o [=]. Qed.

Definition demo_relayed_world : world := demo_relayed.2.

Lemma demo_relayed_reachable : sys_reachable (w_sys demo_relayed_world).
Proof.
  apply (reachable_trans demo_sys); [exact demo_sys_reachable|].
  apply (runs_follows _ (relay_runs (λ _, None) 10 None "r1") demo_world demo_relayed.1
    demo_relayed.2 demo_sys_reachable); [apply alone_ok; reflexivity|].
  unfold demo_relayed. apply surjective_pairing.
Qed.

Definition demo_served : Prelude.result Z * world := run_once (idle "query") 0 0 demo_relayed_world.

Lemma worker_follows_specification_witness :
  demo_served.1 = Ok 1 ∧ rtc sys_step (w_sys demo_relayed_world) (w_sys demo_served.2).
Proof.
  split; [vm_compute; reflexivity|].
  apply (worker_follows_specification (idle "query") 0 0 ltac:(by eexists) (idle_well_behaved "query")
    demo_relayed_world demo_served.1 demo_served.2 demo_relayed_reachable);
    [apply alone_ok; vm_compute; reflexivity|].
  unfold demo_served. apply surjective_pairing.
Defined.

Definition demo_team : list stream_worker := [idle "query"; idle "delivery"].

Lemma demo_team_ok : team demo_team.
Proof.
  intros w Hw. apply elem_of_cons in Hw as [->|Hw]; [|apply list_elem_of_singleton in Hw as ->];
    (split; [by eexists|apply idle_well_behaved]).
Qed.

Definition demo_adaptive : Prelude.result Z * world :=
  adaptive_run_once demo_team "w2" 0 demo_relayed_world.

Lemma adaptive_worker_follows_specification_witness :
  demo_adaptive.1 = Ok 1 ∧ rtc sys_step (w_sys demo_relayed_world) (w_sys demo_adaptive.2).
Proof.
  split; [vm_compute; reflexivity|].
  apply (adaptive_worker_follows_specification demo_team "w2" 0 demo_team_ok
    demo_relayed_world demo_adaptive.1 demo_adaptive.2 demo_relayed_reachable);
    [apply alone_ok; vm_compute; reflexivity|].
  unfold demo_adaptive. apply surjective_pairing.
Defined.
End witnesses.
