(* ===== verification/Delivery.v ===== *)
(** Deliveries of texts to chats, sent at most a bounded number of times:
    [runtime/delivery_store.py], the records, the interface [DeliveryStore] of a store with
    its contract [DeliveryLaws], and the store in a local JSON file.

    The handler of [Deliver.v] is verified against the interface; the local store and the
    store in the database ([DeliveryDb.v]) are instances of it. *)

From stdpp Require Import base list strings gmap.
From Stdlib Require Import ZArith Lia.
From S2P Require Import Prelude Schema Consistency Dispatch Stages Tasks Watermark Invariant Runs.

Open Scope string_scope.
Open Scope Z_scope.

Definition DELIVERY_RESERVED : string := "reserved".
Definition DELIVERY_SENT : string := "sent".
Definition DELIVERY_FAILED : string := "failed".
Definition DELIVERY_UNKNOWN : string := "unknown".

(** [DeliveryRecord]; the ISO time stamps are the instants that they denote. *)
Record delivery_record := DeliveryRecord {
  dr_delivery_key : string;
  dr_delivery_type : string;
  dr_space_id : string;
  dr_message_id : option string;
  dr_status : string;
  dr_created_at : Z;
  dr_updated_at : Z;
  dr_reserved_at : option Z;
  dr_lease_expires_at : option Z;
  dr_attempt_count : Z;
  dr_error : option string;
}.
#[export] Instance delivery_record_eta : Eta delivery_record := λ r,
  DeliveryRecord (dr_delivery_key r) (dr_delivery_type r) (dr_space_id r) (dr_message_id r)
    (dr_status r) (dr_created_at r) (dr_updated_at r) (dr_reserved_at r)
    (dr_lease_expires_at r) (dr_attempt_count r) (dr_error r).

(** The arguments of [reserve_delivery]. *)
Record reservation := Reservation {
  rv_delivery_key : string;
  rv_delivery_type : string;
  rv_space_id : string;
  rv_message_id : option string;
  rv_tenant_id : string;
}.

Definition is_reservation_expired (r : delivery_record) (now : Z) : bool :=
  String.eqb (dr_status r) DELIVERY_RESERVED
  && match dr_lease_expires_at r with None => true | Some l => l <=? now end.

Section delivery.
Context `{Platform}.

(** The three early returns of [reserve_delivery]. *)
Definition refuses (old : option delivery_record) (now : Z) : bool :=
  match old with
  | None => false
  | Some r =>
      py_in (dr_status r) [DELIVERY_SENT; DELIVERY_UNKNOWN]
      || (String.eqb (dr_status r) DELIVERY_RESERVED && negb (is_reservation_expired r now))
      || (DELIVERY_MAX_ATTEMPTS <=? dr_attempt_count r)
  end.

(** The record of a new reservation; [stamp] is the resolution of the store's clock. *)
Definition reserved_record (stamp : Z → Z) (a : reservation) (space_id : string)
    (old : option delivery_record) (now : Z) : delivery_record :=
  DeliveryRecord (rv_delivery_key a) (rv_delivery_type a) space_id (rv_message_id a)
    DELIVERY_RESERVED
    (match old with Some r => dr_created_at r | None => stamp now end)
    (stamp now) (Some (stamp now))
    (Some (stamp (now + seconds DELIVERY_RESERVATION_TTL_SECONDS)))
    (match old with Some r => dr_attempt_count r + 1 | None => 1 end) None.

Definition with_status (status : string) (error : option string) (now : Z)
    (r : delivery_record) : delivery_record :=
  r <| dr_status := status |> <| dr_updated_at := now |> <| dr_error := error |>.

(** * The interface *)

Class DeliveryStore (S : Type) := {
  clock_stamp : Z → Z;
  find_delivery : string → S → option delivery_record;
  reserve : reservation → Z → S → Prelude.result (option delivery_record) * S;
  set_status : string → string → option string → Z → S → Prelude.result unit * S;
  get : string → S → Prelude.result (option delivery_record) * S;
  recover_stale : Z → S → Prelude.result Z * S;
}.

Definition mark_sent {S : Type} `{DeliveryStore S} (key : string) := set_status key DELIVERY_SENT None.
Definition mark_failed {S : Type} `{DeliveryStore S} (key error : string) :=
  set_status key DELIVERY_FAILED (Some error).
Definition mark_unknown {S : Type} `{DeliveryStore S} (key error : string) :=
  set_status key DELIVERY_UNKNOWN (Some error).

(** The other keys are as they were. *)
Definition frame {S : Type} `{DeliveryStore S} (key : string) (s s' : S) : Prop :=
  ∀ k, k ≠ key → find_delivery k s' = find_delivery k s.

(** What [recover_stale_reserved_deliveries] does to a record. *)
Definition recovered (stamp : Z → Z) (now : Z) (r : delivery_record) : delivery_record :=
  if is_reservation_expired r now
  then with_status DELIVERY_FAILED (Some "reservation lease expired") (stamp now) r else r.

(** The contract of a store. *)
Class DeliveryLaws (S : Type) `{DeliveryStore S} : Prop := {
  stamp_late : ∀ t, clock_stamp t <= t < clock_stamp t + milliseconds 1;
  reserve_law : ∀ a now s r s', reserve a now s = (r, s') →
    match r with
    | Raise _ => s' = s
    | Ok None => refuses (find_delivery (rv_delivery_key a) s) now = true
        ∧ ∀ k, find_delivery k s' = find_delivery k s
    | Ok (Some rec) => refuses (find_delivery (rv_delivery_key a) s) now = false
        ∧ (∃ space_id, rec = reserved_record clock_stamp a space_id
             (find_delivery (rv_delivery_key a) s) now)
        ∧ find_delivery (rv_delivery_key a) s' = Some rec ∧ frame (rv_delivery_key a) s s'
    end;
  update_law : ∀ key status error now s r s', set_status key status error now s = (r, s') →
    match r with
    | Raise _ => s' = s
    | Ok _ => find_delivery key s'
        = option_map (with_status status error (clock_stamp now)) (find_delivery key s)
        ∧ frame key s s'
    end;
  get_law : ∀ key s r s', get key s = (r, s') →
    s' = s ∧ r = Ok (find_delivery key s);
  recover_law : ∀ now s r s', recover_stale now s = (r, s') →
    match r with
    | Raise _ => s' = s
    | Ok _ => ∀ k, find_delivery k s' = option_map (recovered clock_stamp now) (find_delivery k s)
    end;
}.
End delivery.

(** * The local store *)

(** The JSON file maps delivery keys to records; a time stamp keeps the milliseconds. *)
Definition local_items : Type := gmap string delivery_record.
Definition iso_milliseconds (t : Z) : Z := t / milliseconds 1 * milliseconds 1.

Module Local.
Section local.
Context `{Platform}.

Definition reserve_delivery (a : reservation) (now : Z) (items : local_items) :
    Prelude.result (option delivery_record) * local_items :=
  let old := items !! rv_delivery_key a in
  if refuses old now then (Ok None, items)
  else
    let record := reserved_record iso_milliseconds a (rv_space_id a) old now in
    (Ok (Some record), <[rv_delivery_key a := record]> items).

Definition update_status (key status : string) (error : option string) (now : Z)
    (items : local_items) : Prelude.result unit * local_items :=
  match items !! key with
  | None => (Ok tt, items)
  | Some raw => (Ok tt, <[key := with_status status error (iso_milliseconds now) raw]> items)
  end.

Definition get_delivery (key : string) (items : local_items) :
    Prelude.result (option delivery_record) * local_items := (Ok (items !! key), items).

Definition recover_stale_reserved_deliveries (now : Z) (items : local_items) :
    Prelude.result Z * local_items :=
  (Ok (Z.of_nat (size (filter (λ kv, is_reservation_expired kv.2 now = true) items))),
   fmap (recovered iso_milliseconds now) items).
End local.

#[global] Instance local_store `{Platform} : DeliveryStore local_items := {|
  clock_stamp := iso_milliseconds;
  find_delivery := λ key items, items !! key;
  reserve := reserve_delivery;
  set_status := update_status;
  get := get_delivery;
  recover_stale := recover_stale_reserved_deliveries;
|}.

#[global] Instance local_laws `{Platform} : DeliveryLaws local_items.
Proof.
  split.
  - intros t. simpl. unfold iso_milliseconds. change (milliseconds 1) with 1000.
    pose proof (Z.div_mod t 1000 ltac:(lia)). pose proof (Z.mod_pos_bound t 1000 ltac:(lia)). lia.
  - intros a now s r s'. simpl. unfold reserve_delivery.
    destruct (refuses _ now) eqn:E; intros [= <- <-]; [done|].
    split_and!; [done|by exists (rv_space_id a)|by apply lookup_insert_eq|].
    intros k Hk. by apply lookup_insert_ne.
  - intros key status error now s r s'. simpl. unfold update_status.
    destruct (s !! key) as [raw|] eqn:E; intros [= <- <-].
    + split; [by apply lookup_insert_eq|]. intros k Hk. by apply lookup_insert_ne.
    + by rewrite E.
  - by intros key s r s' [= <- <-].
  - intros now s r s' E. injection E as <- <-. intros k.
    exact (lookup_fmap (recovered iso_milliseconds now) s k).
Qed.
End Local.

