(* ===== verification/DeliveryDb.v ===== *)
(** The store of the deliveries in the database: [repositories/postgres/delivery.py], and the
    proof that it keeps the contract of [Delivery.v]. *)

From stdpp Require Import base list strings gmap.
From Stdlib Require Import ZArith Lia.
From S2P Require Import Prelude Schema Consistency Dispatch Stages Tasks Watermark Invariant Runs.
From S2P Require Import Delivery.

Open Scope string_scope.
Open Scope Z_scope.

(** * The tables *)

Record delivery := DeliveryRow { dl_record : delivery_record; dl_tenant_id : string }.
#[export] Instance delivery_eta : Eta delivery := λ r, DeliveryRow (dl_record r) (dl_tenant_id r).

Record delivery_attempt := DeliveryAttempt {
  da_delivery_key : string;
  da_attempt_no : Z;
  da_status : string;
  da_started_at : Z;
  da_finished_at : option Z;
  da_error : option string;
}.
#[export] Instance delivery_attempt_eta : Eta delivery_attempt := λ r,
  DeliveryAttempt (da_delivery_key r) (da_attempt_no r) (da_status r) (da_started_at r)
    (da_finished_at r) (da_error r).

(** The tables of the store; the spaces and tenants are in [dd_core]. *)
Record delivery_db := DeliveryDb {
  dd_core : db;
  deliveries : list delivery;
  delivery_attempts : list delivery_attempt;
}.
#[export] Instance delivery_db_eta : Eta delivery_db := λ r,
  DeliveryDb (dd_core r) (deliveries r) (delivery_attempts r).

Section postgres.
Context `{Platform}.

Definition has_key (key : string) (r : delivery) : bool :=
  String.eqb (dr_delivery_key (dl_record r)) key.

(** A statement on the other tables. *)
Definition on_core {A} (m : session A) : M delivery_db A := λ d,
  match m (dd_core d) with
  | Ok (a, core) => Ok (a, d <| dd_core := core |>)
  | Raise e => Raise e
  end.

Definition select_delivery (key : string) : M delivery_db (option delivery) :=
  rows ← gets (λ d, select_where (has_key key) (deliveries d));
  lift_result (scalar_one_or_none rows).

Definition save_delivery (key : string) (row : delivery) : M delivery_db unit :=
  modify (λ d, d <| deliveries := update_where (has_key key) (λ _, row) (deliveries d) |>).

(** INSERT ... ON CONFLICT (delivery_key, attempt_no) DO NOTHING *)
Definition insert_attempt (key : string) (attempt_no now : Z) : M delivery_db unit :=
  modify (λ d,
    if existsb (λ a, String.eqb (da_delivery_key a) key && (da_attempt_no a =? attempt_no))
         (delivery_attempts d)
    then d
    else d <| delivery_attempts := (delivery_attempts d ++
           [DeliveryAttempt key attempt_no DELIVERY_RESERVED now None None])%list |>).

Definition finish_delivery_attempt (row : delivery_record) (status : string)
    (error : option string) (now : Z) : M delivery_db unit :=
  modify (λ d, d <| delivery_attempts := update_where
    (λ a, String.eqb (da_delivery_key a) (dr_delivery_key row)
          && (da_attempt_no a =? dr_attempt_count row))
    (λ a, a <| da_status := status |> <| da_finished_at := Some now |> <| da_error := error |>)
    (delivery_attempts d) |>).

Definition reserve_delivery (a : reservation) (now : Z) :
    delivery_db → Prelude.result (option delivery_record) * delivery_db :=
  transaction (
    space_id ← on_core (ensure_tenant_space (rv_space_id a) (rv_tenant_id a) "feishu");
    row ← select_delivery (rv_delivery_key a);
    let old := option_map dl_record row in
    if refuses old now then mret None
    else
      let record := reserved_record (λ t, t) a space_id old now in
      let row' := DeliveryRow record (rv_tenant_id a) in
      match row with
      | None => modify (λ d, d <| deliveries := (deliveries d ++ [row'])%list |>)
      | Some _ => save_delivery (rv_delivery_key a) row'
      end;;
      insert_attempt (rv_delivery_key a) (dr_attempt_count record) now;;
      mret (Some record)).

Definition update_status (key status : string) (error : option string) (now : Z) :
    delivery_db → Prelude.result unit * delivery_db :=
  transaction (
    row ← select_delivery key;
    match row with
    | None => mret tt
    | Some r =>
        save_delivery key (r <| dl_record := with_status status error now (dl_record r) |>);;
        finish_delivery_attempt (dl_record r) status error now
    end).

Definition get_delivery (key : string) (d : delivery_db) :
    Prelude.result (option delivery_record) * delivery_db :=
  (Ok (option_map dl_record (List.find (has_key key) (deliveries d))), d).

Definition recover_stale_reserved_deliveries (now : Z) :
    delivery_db → Prelude.result Z * delivery_db :=
  transaction (
    stale ← gets (λ d, select_where (λ r, is_reservation_expired (dl_record r) now) (deliveries d));
    modify (λ d, d <| deliveries :=
      map (λ r, r <| dl_record := recovered (λ t, t) now (dl_record r) |>) (deliveries d) |>);;
    for_each stale (λ r, finish_delivery_attempt (dl_record r) DELIVERY_FAILED
      (Some "reservation lease expired") now);;
    mret (Z.of_nat (length stale))).
End postgres.

Definition find_row (key : string) (d : delivery_db) : option delivery_record :=
  option_map dl_record (List.find (has_key key) (deliveries d)).

#[global] Instance postgres_store `{Platform} : DeliveryStore delivery_db := {|
  clock_stamp := λ t, t;
  find_delivery := find_row;
  reserve := reserve_delivery;
  set_status := update_status;
  get := get_delivery;
  recover_stale := recover_stale_reserved_deliveries;
|}.

Section laws.
Context `{Platform}.

Lemma find_select p (l : list delivery) o :
  scalar_one_or_none (select_where p l) = Ok o → List.find p l = o.
Proof.
  intros Ho. destruct o as [r|].
  - apply scalar_one_or_none_Some in Ho. induction l as [|x l IH]; [done|].
    unfold select_where in Ho. simpl in Ho |- *. destruct (p x); [by injection Ho as ->|].
    by apply IH.
  - apply scalar_one_or_none_None in Ho. induction l as [|x l IH]; [done|].
    unfold select_where in Ho. simpl in Ho |- *. destruct (p x); [done|]. by apply IH.
Qed.

Lemma find_app (p : delivery → bool) l x :
  List.find p (l ++ [x])%list = match List.find p l with
                               | Some r => Some r
                               | None => if p x then Some x else None
                               end.
Proof. induction l as [|y l IH]; simpl; [done|]. by destruct (p y). Qed.

Lemma find_update key k row l :
  has_key key row = true →
  List.find (has_key k) (update_where (has_key key) (λ _, row) l)
  = if decide (k = key) then option_map (λ _, row) (List.find (has_key key) l)
    else List.find (has_key k) l.
Proof.
  intros Hrow. unfold update_where. induction l as [|x l IH]; simpl; [by destruct (decide _)|].
  unfold has_key in *. apply String.eqb_eq in Hrow.
  destruct (String.eqb_spec (dr_delivery_key (dl_record x)) key) as [Hx|Hx].
  - rewrite Hrow. destruct (decide (k = key)) as [->|Hne].
    + by rewrite String.eqb_refl.
    + rewrite (proj2 (String.eqb_neq key k)) by done. rewrite IH.
      destruct (String.eqb_spec (dr_delivery_key (dl_record x)) k); [congruence|done].
  - rewrite IH. destruct (decide (k = key)) as [->|Hne].
    + by rewrite (proj2 (String.eqb_neq _ _) Hx).
    + done.
Qed.

(** The statements on other tables keep the deliveries. *)
Definition same_deliveries (d d' : delivery_db) : Prop := deliveries d' = deliveries d.
#[local] Instance same_deliveries_preorder : PreOrder same_deliveries.
Proof. unfold same_deliveries. split; [done|]. intros ???. congruence. Qed.

Lemma on_core_same {A} (m : session A) : sat same_deliveries (on_core m).
Proof.
  intros d a d' R. unfold on_core in R. destruct (m (dd_core d)) as [[]|]; [|done].
  by injection R as _ <-.
Qed.

Lemma finish_same r st err now : sat same_deliveries (finish_delivery_attempt r st err now).
Proof. unfold finish_delivery_attempt. sat_auto. done. Qed.

Lemma insert_attempt_same key n now : sat same_deliveries (insert_attempt key n now).
Proof. unfold insert_attempt. sat_auto. by destruct (existsb _ _). Qed.

Lemma find_same key d d' : same_deliveries d d' → find_row key d' = find_row key d.
Proof. unfold same_deliveries, find_row. by intros ->. Qed.

Lemma select_delivery_Ok key d o d' :
  select_delivery key d = Ok (o, d') → d' = d ∧ List.find (has_key key) (deliveries d) = o.
Proof.
  unfold select_delivery. intros R. apply bind_Ok in R as (rows & d1 & [-> ->]%gets_Ok & R).
  apply lift_result_Ok in R as [Ho ->]. split; [done|]. by apply find_select.
Qed.

Lemma transaction_Raise_same {S A} (m : M S A) s e s' : transaction m s = (Raise e, s') → s' = s.
Proof. unfold transaction. destruct (m s) as [[]|]; by intros [=]. Qed.

Lemma save_Ok key row d u d' : save_delivery key row d = Ok (u, d') →
  deliveries d' = update_where (has_key key) (λ _, row) (deliveries d).
Proof. unfold save_delivery. intros ->%modify_Ok. done. Qed.

Lemma find_key key l r : List.find (has_key key) l = Some r → dr_delivery_key (dl_record r) = key.
Proof. by intros [_ Hk%String.eqb_eq]%List.find_some. Qed.

(** The rows after a save. *)
Lemma find_saved key k row d d' :
  deliveries d' = update_where (has_key key) (λ _, row) (deliveries d) →
  has_key key row = true → is_Some (List.find (has_key key) (deliveries d)) →
  find_row k d' = if decide (k = key) then Some (dl_record row) else find_row k d.
Proof.
  intros E Hrow [r Hr]. unfold find_row. rewrite E, find_update by done.
  destruct (decide (k = key)); [by rewrite Hr|done].
Qed.

Lemma find_recovered now key l :
  List.find (has_key key)
    (map (λ r, r <| dl_record := recovered (λ t, t) now (dl_record r) |>) l)
  = option_map (λ r, r <| dl_record := recovered (λ t, t) now (dl_record r) |>)
      (List.find (has_key key) l).
Proof.
  induction l as [|x l IH]; simpl; [done|].
  assert (has_key key (x <| dl_record := recovered (λ t, t) now (dl_record x) |>) = has_key key x) as ->.
  { unfold has_key, recovered. simpl. by destruct (is_reservation_expired _ _). }
  by destruct (has_key key x).
Qed.

Lemma reserve_row a now d r d' :
  reserve_delivery a now d = (Ok r, d') →
  let old := find_row (rv_delivery_key a) d in
  match r with
  | None => refuses old now = true ∧ same_deliveries d d'
  | Some rec => refuses old now = false
      ∧ (∃ space_id, rec = reserved_record (λ t, t) a space_id old now)
      ∧ ∀ k, find_row k d' = if decide (k = rv_delivery_key a) then Some rec else find_row k d
  end.
Proof.
  intros R%transaction_Ok. apply bind_Ok in R as (sid & d1 & R1%on_core_same & R).
  apply bind_Ok in R as (row & d2 & (-> & Hrow)%select_delivery_Ok & R).
  assert (option_map dl_record row = find_row (rv_delivery_key a) d) as Hold.
  { rewrite <- (find_same _ _ _ R1). unfold find_row. by rewrite Hrow. }
  rewrite Hold in R. simpl. set (old := find_row (rv_delivery_key a) d) in *.
  cbv zeta in R. destruct (refuses old now) eqn:Er; [by run1 R|].
  set (rec := reserved_record _ _ _ _ _) in R.
  apply bind_Ok in R as (u & d2 & R2 & R).
  apply bind_Ok in R as (v & d3 & R3%insert_attempt_same & R). run1 R.
  split_and!; [done|by exists sid|]. intros k. rewrite (find_same k _ _ R3).
  assert (has_key (rv_delivery_key a) (DeliveryRow rec (rv_tenant_id a)) = true) as Hk
    by (apply String.eqb_refl).
  rewrite <- (find_same k _ _ R1). destruct row as [row|].
  - apply save_Ok in R2. by rewrite (find_saved _ k _ _ _ R2 Hk (ex_intro _ _ Hrow)).
  - run1 R2. unfold find_row. simpl. rewrite find_app.
    destruct (decide (k = rv_delivery_key a)) as [->|Hne].
    + rewrite Hrow. by rewrite Hk.
    + unfold has_key at 2. simpl. rewrite (proj2 (String.eqb_neq (rv_delivery_key a) k)) by done.
      by destruct (List.find (has_key k) (deliveries d1)).
Qed.

Lemma update_row key st err now d d' :
  update_status key st err now d = (Ok tt, d') →
  ∀ k, find_row k d' = if decide (k = key)
    then option_map (with_status st err now) (find_row key d) else find_row k d.
Proof.
  intros R%transaction_Ok k. apply bind_Ok in R as (row & d1 & (-> & Hrow)%select_delivery_Ok & R).
  destruct row as [row|].
  - apply bind_Ok in R as (u & d1 & R1%save_Ok & R2%finish_same).
    pose proof (proj2 (List.find_some _ _ Hrow)) as Hk.
    rewrite (find_same k _ _ R2), (find_saved key k _ _ _ R1 Hk (ex_intro _ _ Hrow)).
    destruct (decide (k = key)); [|done]. unfold find_row. by rewrite Hrow.
  - run1 R. destruct (decide (k = key)) as [->|]; [|done]. unfold find_row. by rewrite Hrow.
Qed.

#[global] Instance postgres_laws : DeliveryLaws delivery_db.
Proof.
  split.
  - intros t. simpl. unfold milliseconds. lia.
  - intros a now s r s' E. simpl in *. destruct r as [[rec|]|e].
    + apply reserve_row in E as (? & ? & Hk). split_and!; [done|done| |].
      * rewrite Hk. by destruct (decide _).
      * intros k Hne. simpl. rewrite Hk. by destruct (decide _).
    + apply reserve_row in E as (? & Hs). split; [done|]. intros k. by apply find_same.
    + by apply transaction_Raise_same in E.
  - intros key st err now s r s' E. simpl in *. destruct r as [[]|e].
    + pose proof (update_row _ _ _ _ _ _ E) as Hk. split.
      * rewrite Hk. by destruct (decide _).
      * intros k Hne. simpl. rewrite Hk. by destruct (decide _).
    + by apply transaction_Raise_same in E.
  - by intros key s r s' [= <- <-].
  - intros now s r s' E. simpl in *. destruct r as [n|e]; [|by apply transaction_Raise_same in E].
    apply transaction_Ok in E. apply bind_Ok in E as (stale & d1 & [-> ->]%gets_Ok & R).
    apply bind_Ok in R as (u & d2 & ->%modify_Ok & R). apply bind_Ok in R as (v & d3 & R & R').
    run1 R'. intros k.
    assert (sat same_deliveries (for_each (select_where (λ r, is_reservation_expired (dl_record r) now)
      (deliveries s)) (λ r, finish_delivery_attempt (dl_record r) DELIVERY_FAILED
        (Some "reservation lease expired") now))) as Hs.
    { apply sat_for_each; [apply _|]. intros x. apply finish_same. }
    apply Hs in R. rewrite (find_same k _ _ R). unfold find_row. simpl.
    rewrite find_recovered. by destruct (List.find _ _).
Qed.
End laws.

(** The database store keeps the contract of the interface: [reserve_delivery] refuses
    or starts the next attempt, [_update_status] and [recover_stale_reserved_deliveries]
    change the status of the deliveries that they are about, and nothing else; a transaction
    that raises changes nothing. *)
Theorem database_store_keeps_contract `{Platform} :
  (∀ a now d r d', reserve_delivery a now d = (r, d') →
     match r with
     | Raise _ => d' = d
     | Ok None => refuses (find_row (rv_delivery_key a) d) now = true
         ∧ ∀ k, find_row k d' = find_row k d
     | Ok (Some rec) => refuses (find_row (rv_delivery_key a) d) now = false
         ∧ (∃ space_id, rec = reserved_record (λ t, t) a space_id (find_row (rv_delivery_key a) d) now)
         ∧ ∀ k, find_row k d' = if decide (k = rv_delivery_key a) then Some rec else find_row k d
     end)
  ∧ (∀ key status error now d r d', update_status key status error now d = (r, d') →
     match r with
     | Raise _ => d' = d
     | Ok _ => ∀ k, find_row k d' = if decide (k = key)
         then option_map (with_status status error now) (find_row key d) else find_row k d
     end)
  ∧ (∀ now d r d', recover_stale_reserved_deliveries now d = (r, d') →
     match r with
     | Raise _ => d' = d
     | Ok _ => ∀ k, find_row k d' = option_map (recovered (λ t, t) now) (find_row k d)
     end).
Proof.
  split_and!.
  - intros a now d r d' E. destruct r as [[rec|]|e].
    + by apply reserve_row in E.
    + apply reserve_row in E as [? Hs]. split; [done|]. intros k. by apply find_same.
    + by apply transaction_Raise_same in E.
  - intros key st err now d r d' E. destruct r as [[]|e]; [by apply update_row|].
    by apply transaction_Raise_same in E.
  - intros now d r d' E. exact (recover_law now d r d' E).
Qed.
