(* ===== verification/TextChunks.v ===== *)
(** [core/text_chunks.py]: splitting a long text into messages. *)

From stdpp Require Import base list strings.
From Stdlib Require Import ZArith Lia.
From S2P Require Import Prelude.

Open Scope string_scope.
Open Scope Z_scope.

(** * Characters of a text *)

(** A text is the sequence of its UTF-8 bytes; a byte 10xxxxxx continues a character. *)
Definition continues (c : Ascii.ascii) : bool :=
  let n := Ascii.N_of_ascii c in (128 <=? n)%N && (n <? 192)%N.

(** The continuation bytes at the front, and the characters after them. *)
Fixpoint split_chars (text : string) : string * list string :=
  match text with
  | EmptyString => (EmptyString, [])
  | String c rest =>
      let (front, cs) := split_chars rest in
      if continues c then (String c front, cs) else (EmptyString, String c front :: cs)
  end.

(** [for char in text] *)
Definition chars (text : string) : list string :=
  let (front, cs) := split_chars text in
  match front with EmptyString => cs | _ => front :: cs end.

(** ["".join(parts)] *)
Definition join (parts : list string) : string := String.concat "" parts.

(** [len(char.encode("utf-8"))] *)
Definition byte_length (s : string) : Z := Z.of_nat (String.length s).

(** A text that is well-formed UTF-8 has characters of one to four bytes. *)
Definition well_formed (text : string) : bool := forallb (λ c, byte_length c <=? 4) (chars text).

(** * The split *)

(** The local variables of the loop. *)
Record chunking := Chunking { chunks : list string; pending : list string; chunk_size : Z }.
#[export] Instance chunking_eta : Eta chunking := λ r,
  Chunking (chunks r) (pending r) (chunk_size r).

Definition truthy_list {A} (l : list A) : bool := match l with [] => false | _ => true end.

Definition flush (s : chunking) : chunking :=
  Chunking (chunks s ++ [join (pending s)])%list [] 0.

Definition chunk_char (max_bytes : Z) (s : chunking) (char : string) : chunking :=
  let width := byte_length char in
  let s := if truthy_list (pending s) && (max_bytes <? chunk_size s + width) then flush s else s in
  Chunking (chunks s) (pending s ++ [char])%list (chunk_size s + width).

Definition text_chunks (text : string) (max_bytes : Z) : list string :=
  let s := fold_left (chunk_char max_bytes) (chars text) (Chunking [] [] 0) in
  if truthy_list (pending s) || negb (truthy_list (chunks s)) then chunks (flush s) else chunks s.

(** * What it promises *)

(** The chunk of these characters is within the bound, or a single character. *)
Definition fits (max_bytes : Z) (group : list string) : Prop :=
  byte_length (join group) <= max_bytes ∨ length group = 1%nat.

(** The next group starts with a character that this one had no room for. *)
Fixpoint greedy (max_bytes : Z) (groups : list (list string)) : Prop :=
  match groups with
  | g :: ((c :: _) :: _) as rest =>
      max_bytes < byte_length (join g) + byte_length c ∧ greedy max_bytes rest
  | _ => True
  end.

(** The specification: consecutive, non-empty groups of the characters, each as long as it
    can be. *)
Record split_of (max_bytes : Z) (cs : list string) (groups : list (list string)) : Prop := {
  split_all : mjoin groups = cs;
  split_non_empty : Forall (λ g, g ≠ []) groups;
  split_fits : Forall (fits max_bytes) groups;
  split_greedy : greedy max_bytes groups;
}.

Lemma join_cons s l : join (s :: l) = s +:+ join l.
Proof. destruct l; [|done]. symmetry. apply append_nil_r. Qed.

Lemma byte_length_app a b : byte_length (a +:+ b) = byte_length a + byte_length b.
Proof.
  unfold byte_length. induction a as [|x a IH]; [done|].
  change (Z.of_nat (S (String.length (a +:+ b))) = Z.of_nat (S (String.length a)) + Z.of_nat (String.length b)).
  lia.
Qed.

Lemma join_app a b : join (a ++ b)%list = join a +:+ join b.
Proof.
  induction a as [|x a IH]; [done|]. cbn [app]. by rewrite !join_cons, IH, append_assoc.
Qed.

Lemma join_map groups : join (map join groups) = join (mjoin groups).
Proof.
  induction groups as [|g groups IH]; [done|].
  change (join (join g :: map join groups) = join (g ++ mjoin groups)%list).
  by rewrite join_cons, IH, join_app.
Qed.

(** The characters are the text. *)
Lemma split_chars_text text : (split_chars text).1 +:+ join (split_chars text).2 = text.
Proof.
  induction text as [|c text IH]; [done|]. simpl. destruct (split_chars text) as [front cs].
  simpl in IH. destruct (continues c); simpl.
  - change (String c (front +:+ join cs) = String c text). by rewrite IH.
  - rewrite join_cons. change (String c (front +:+ join cs) = String c text). by rewrite IH.
Qed.

Lemma chars_text text : join (chars text) = text.
Proof.
  pose proof (split_chars_text text) as E. unfold chars. destruct (split_chars text) as [[|c front] cs].
  - exact E.
  - rewrite join_cons. exact E.
Qed.

(** The invariant of the loop. *)
Record split_so_far (max_bytes : Z) (cs : list string) (s : chunking) (groups : list (list string)) : Prop := {
  so_chunks : chunks s = map join groups;
  so_size : chunk_size s = byte_length (join (pending s));
  so_split : split_of max_bytes cs
    (groups ++ match pending s with [] => [] | p => [p] end)%list;
  so_pending : pending s = [] → groups = [];
}.

Lemma fits_snoc max_bytes p c :
  truthy_list p && (max_bytes <? byte_length (join p) + byte_length c) = false →
  fits max_bytes (p ++ [c])%list.
Proof.
  unfold fits. destruct p as [|x p]; cbn [truthy_list]; intros E; [by right|]. left.
  bools. destruct E as [E|E]; [done|]. by rewrite join_app, byte_length_app.
Qed.

Lemma greedy_snoc max_bytes groups p c :
  p ≠ [] → greedy max_bytes (groups ++ [p])%list → greedy max_bytes (groups ++ [p ++ [c]])%list.
Proof.
  intros Hp. induction groups as [|g [|h groups] IH]; simpl in *; [done| |].
  - by destruct p.
  - destruct h; [done|]. intros [? ?]. split; [done|by apply IH].
Qed.

Lemma greedy_new max_bytes groups p c :
  max_bytes < byte_length (join p) + byte_length c → greedy max_bytes (groups ++ [p])%list →
  greedy max_bytes (groups ++ [p; [c]])%list.
Proof.
  intros Hc. induction groups as [|g [|h groups] IH]; simpl in *; [done| |].
  - destruct p; [done|]. by intros [? ?].
  - destruct h; [done|]. intros [? ?]. split; [done|by apply IH].
Qed.

Lemma mjoin_snoc {A} (groups : list (list A)) p : mjoin (groups ++ [p])%list = (mjoin groups ++ p)%list.
Proof.
  induction groups as [|g groups IH]; [apply app_nil_r|].
  change (g ++ mjoin (groups ++ [p]) = (g ++ mjoin groups) ++ p)%list. by rewrite IH, app_assoc.
Qed.

(** A character joins the last group, or starts one. *)
Lemma split_snoc max_bytes cs groups p c :
  p ≠ [] → byte_length (join p) + byte_length c <= max_bytes →
  split_of max_bytes cs (groups ++ [p])%list →
  split_of max_bytes (cs ++ [c])%list (groups ++ [p ++ [c]])%list.
Proof.
  intros Hp Hle [Ha Hn Hf Hg]. rewrite mjoin_snoc in Ha. split.
  - by rewrite mjoin_snoc, <- Ha, app_assoc.
  - apply Forall_app in Hn as [Hn _]. apply Forall_app. split; [done|]. constructor; [by destruct p|done].
  - apply Forall_app in Hf as [Hf _]. apply Forall_app. split; [done|]. constructor; [|done].
    left. by rewrite join_app, byte_length_app.
  - by apply greedy_snoc.
Qed.

Lemma split_new max_bytes cs groups p c :
  max_bytes < byte_length (join p) + byte_length c →
  split_of max_bytes cs (groups ++ [p])%list →
  split_of max_bytes (cs ++ [c])%list (groups ++ [p; [c]])%list.
Proof.
  intros Hlt [Ha Hn Hf Hg]. 
  replace (groups ++ [p; [c]])%list with ((groups ++ [p]) ++ [[c]])%list by (by rewrite <- app_assoc).
  split.
  - by rewrite mjoin_snoc, Ha.
  - apply Forall_app. split; [done|]. by repeat constructor.
  - apply Forall_app. split; [done|]. constructor; [by right|done].
  - rewrite <- app_assoc. by apply greedy_new.
Qed.

Lemma chunk_char_ok max_bytes cs s groups c :
  split_so_far max_bytes cs s groups →
  ∃ groups', split_so_far max_bytes (cs ++ [c])%list (chunk_char max_bytes s c) groups'.
Proof.
  intros [Hc Hs Hsplit Hp]. unfold chunk_char.
  destruct (pending s) as [|x p] eqn:Ep; cbn [truthy_list andb].
  - exists groups. rewrite (Hp eq_refl) in *. split; simpl; [done| | |done].
    + by rewrite Hs, Ep.
    + destruct Hsplit as [Ha _ _ _]. rewrite <- Ha. rewrite Ep. split; simpl; try done.
      * by repeat constructor.
      * constructor; [by right|done].
  - rewrite Hs. destruct (Z.ltb_spec max_bytes (byte_length (join (x :: p)) + byte_length c)) as [Hlt|Hle].
    + exists (groups ++ [x :: p])%list. split; simpl; [|done| |done].
      * by rewrite Hc, map_app, Ep.
      * rewrite <- app_assoc. by apply split_new.
    + exists groups. rewrite Ep. split; simpl; [done| | |done].
      * change (x :: p ++ [c])%list with ((x :: p) ++ [c])%list. by rewrite Hs, join_app, byte_length_app.
      * by apply (split_snoc max_bytes cs groups (x :: p) c).
Qed.

Lemma chunk_chars_ok max_bytes rest : ∀ cs s groups,
  split_so_far max_bytes cs s groups →
  ∃ groups', split_so_far max_bytes (cs ++ rest)%list (fold_left (chunk_char max_bytes) rest s) groups'.
Proof.
  induction rest as [|c rest IH]; intros cs s groups Hs; simpl.
  - exists groups. by rewrite app_nil_r.
  - destruct (chunk_char_ok _ _ _ _ c Hs) as [groups' Hs']. apply IH in Hs' as [groups2 ?].
    exists groups2. by rewrite <- app_assoc in *.
Qed.

Lemma text_chunks_groups (text : string) (max_bytes : Z) :
  ∃ groups, split_of max_bytes (chars text) groups
  ∧ text_chunks text max_bytes = (if String.eqb text "" then [""] else map join groups)
  ∧ join (text_chunks text max_bytes) = text.
Proof.
  assert (split_so_far max_bytes [] (Chunking [] [] 0) []) as H0 by (by repeat split).
  destruct (chunk_chars_ok max_bytes (chars text) _ _ _ H0) as [groups Hs]. unfold text_chunks.
  set (s := fold_left _ _ _) in *. destruct Hs as [Hc Hs Hsplit Hp].
  assert (join (mjoin (groups ++ match pending s with [] => [] | p => [p] end)%list) = text) as Htext.
  { destruct Hsplit as [-> _ _ _]. apply chars_text. }
  eexists. split; [exact Hsplit|]. unfold flush. rewrite Hc.
  destruct (pending s) as [|x p] eqn:Ep; cbn [truthy_list orb].
  - rewrite (Hp eq_refl) in *. simpl in Htext. subst text. done.
  - destruct (String.eqb_spec text "") as [->|Hne].
    + by subst s.
    + split; [by rewrite map_app|].
      change [join (x :: p)] with (map join [x :: p]). rewrite <- map_app. cbn [chunks]. by rewrite join_map.
Qed.

(** The bound holds for text in UTF-8: a character has at most four bytes. *)
Lemma text_chunks_fit text max_bytes :
  well_formed text = true → 4 <= max_bytes →
  Forall (λ part, byte_length part <= max_bytes) (text_chunks text max_bytes).
Proof.
  intros Hw Hmax. destruct (text_chunks_groups text max_bytes) as (groups & [Ha _ Hf _] & -> & _).
  destruct (String.eqb text ""); [constructor; [unfold byte_length; simpl; lia|done]|].
  apply Forall_map. apply Forall_forall. intros g Hg.
  rewrite Forall_forall in Hf. destruct (Hf g Hg) as [|Hlen]; [done|].
  destruct g as [|c [|]]; [done| |done]. change (byte_length c <= max_bytes).
  enough (byte_length c <= 4) by lia. unfold well_formed in Hw.
  rewrite forallb_forall in Hw. apply Z.leb_le, Hw. rewrite <- Ha, <- list_elem_of_In.
  apply list_elem_of_join. exists [c]. split; [by left|done].
Qed.

(** C23: a text is split into consecutive chunks of whole characters, each within the bound
    or a single character, and each as long as it can be; nothing of the text is lost,
    repeated or reordered. *)
Theorem text_chunks_split (text : string) (max_bytes : Z) :
  ∃ groups, split_of max_bytes (chars text) groups
  ∧ text_chunks text max_bytes = (if String.eqb text "" then [""] else map join groups)
  ∧ join (text_chunks text max_bytes) = text.
Proof. apply text_chunks_groups. Qed.
