(* ===== verification/Subscriptions.v ===== *)
(** The subscriptions to the automatic summary: [summary/subscription.py] (a local JSON file)
    and [repositories/postgres/summary.py] (the database), behind one interface. *)

From stdpp Require Import base list strings gmap.
From Stdlib Require Import ZArith Lia.
From S2P Require Import Prelude Schema Dispatch Invariant.

Open Scope string_scope.
Open Scope Z_scope.

(** [SummarySubscription] *)
Record subscription := Subscription {
  su_space_id : string;
  su_chat_id : string;
  su_enabled : bool;
  su_time : string;
  su_range_key : string;
  su_last_sent_date : option string;
}.
#[export] Instance subscription_eta : Eta subscription := λ r,
  Subscription (su_space_id r) (su_chat_id r) (su_enabled r) (su_time r) (su_range_key r)
    (su_last_sent_date r).

(** * The interface *)

Class SummaryStore (T : Type) := {
  get_summary_subscription : string → T → option subscription;
  enable_summary_subscription : string → string → T → Prelude.result (option subscription) * T;
  disable_summary_subscription : string → T → Prelude.result (option subscription) * T;
  mark_summary_sent : string → string → T → Prelude.result unit * T;
}.

(** The subscription of [space_id] becomes [f] of what it was, the others stay. *)
Definition changes_subscription {T : Type} `{SummaryStore T} (space_id : string)
    (f : option subscription → option subscription) (s s' : T) : Prop :=
  ∀ k, get_summary_subscription k s'
       = if decide (k = space_id) then f (get_summary_subscription k s)
         else get_summary_subscription k s.

Definition enabled_subscription `{Platform} (space_id chat_id : string)
    (old : option subscription) : subscription :=
  match old with
  | Some r => r <| su_space_id := space_id |> <| su_chat_id := chat_id |> <| su_enabled := true |>
  | None => Subscription space_id chat_id true SUMMARY_DEFAULT_TIME "today" None
  end.

Class SummaryLaws (T : Type) `{Platform, SummaryStore T} (valid : T → Prop) : Prop := {
  enable_law : ∀ space_id chat_id s r s', valid s →
    enable_summary_subscription space_id chat_id s = (Ok r, s') →
    valid s' ∧ r = get_summary_subscription space_id s'
    ∧ changes_subscription space_id (Some ∘ enabled_subscription space_id chat_id) s s';
  disable_law : ∀ space_id s r s', valid s →
    disable_summary_subscription space_id s = (Ok r, s') →
    valid s' ∧ r = get_summary_subscription space_id s'
    ∧ changes_subscription space_id (option_map (λ r, r <| su_enabled := false |>)) s s';
  mark_law : ∀ space_id sent_date s u s', valid s →
    mark_summary_sent space_id sent_date s = (Ok u, s') →
    valid s' ∧ changes_subscription space_id
      (option_map (λ r, r <| su_last_sent_date := Some sent_date |>)) s s';
}.

(** * The local file *)

Module LocalSummary.

Abbreviation local_subscriptions := (gmap string subscription).

(** [old.get("time") or DEFAULT_SUMMARY_TIME] *)
Definition or_default (s d : string) : string := if String.eqb s "" then d else s.

Section local.
Context `{Platform}.

Definition enable_summary_subscription (space_id chat_id : string) (items : local_subscriptions) :
    Prelude.result (option subscription) * local_subscriptions :=
  let old := items !! space_id in
  let sub := Subscription space_id chat_id true
    (or_default (default "" (su_time <$> old)) SUMMARY_DEFAULT_TIME)
    (or_default (default "" (su_range_key <$> old)) "today")
    (old ≫= su_last_sent_date) in
  (Ok (Some sub), <[space_id := sub]> items).

Definition disable_summary_subscription (space_id : string) (items : local_subscriptions) :
    Prelude.result (option subscription) * local_subscriptions :=
  match items !! space_id with
  | None => (Ok None, items)
  | Some old =>
      let sub := old <| su_enabled := false |> in
      (Ok (Some sub), <[space_id := sub]> items)
  end.

Definition mark_summary_sent (space_id sent_date : string) (items : local_subscriptions) :
    Prelude.result unit * local_subscriptions :=
  match items !! space_id with
  | None => (Ok tt, items)
  | Some old => (Ok tt, <[space_id := old <| su_last_sent_date := Some sent_date |>]> items)
  end.
End local.

#[global] Instance local_summary `{Platform} : SummaryStore local_subscriptions :=
  Build_SummaryStore local_subscriptions (λ space_id items, items !! space_id)
    enable_summary_subscription disable_summary_subscription mark_summary_sent.

(** A subscription has a time and a range, and is stored under its space. *)
Definition valid (items : local_subscriptions) : Prop :=
  ∀ k r, items !! k = Some r → su_space_id r = k ∧ su_time r ≠ "" ∧ su_range_key r ≠ "".

Lemma valid_insert k r items :
  valid items → su_space_id r = k → su_time r ≠ "" → su_range_key r ≠ "" → valid (<[k := r]> items).
Proof. intros Hv ??? j r' [[<- <-]|[??]]%lookup_insert_Some; [done|by apply Hv]. Qed.

Lemma insert_changes `{Platform} k f r (items : local_subscriptions) :
  f (items !! k) = Some r → changes_subscription k f items (<[k := r]> items).
Proof.
  intros Hf j. simpl. destruct (decide (j = k)) as [->|Hne].
  - by rewrite lookup_insert_eq.
  - by apply lookup_insert_ne.
Qed.

#[global] Instance local_summary_laws `{Platform} : SummaryLaws local_subscriptions
  (λ items, SUMMARY_DEFAULT_TIME ≠ "" ∧ valid items).
Proof.
  split.
  - intros sid cid s r s' [Hd Hv] [= <- <-]. simpl. rewrite lookup_insert_eq.
    assert (∀ o, or_default o SUMMARY_DEFAULT_TIME ≠ "") as Ht
      by (intros o; unfold or_default; by destruct (String.eqb_spec o "")).
    assert (∀ o, or_default o "today" ≠ "") as Hk
      by (intros o; unfold or_default; by destruct (String.eqb_spec o "")).
    split_and!; [done|by apply valid_insert; simpl; auto|done|]. apply insert_changes. simpl.
    destruct (s !! sid) as [o|] eqn:E; [|done]. destruct (Hv _ _ E) as (<- & Ho & Hr).
    simpl. unfold or_default. by rewrite !(proj2 (String.eqb_neq _ _)).
  - intros sid s r s' [Hd Hv]. simpl. unfold disable_summary_subscription.
    destruct (s !! sid) as [o|] eqn:E; intros [= <- <-].
    + rewrite lookup_insert_eq. destruct (Hv _ _ E) as (? & ? & ?).
      split_and!; [done|by apply valid_insert|done|]. apply insert_changes. by rewrite E.
    + split_and!; [done|done|done|]. intros k. simpl. destruct (decide _) as [->|]; [by rewrite E|done].
  - intros sid date s u s' [Hd Hv]. simpl. unfold mark_summary_sent.
    destruct (s !! sid) as [o|] eqn:E; intros [= <- <-].
    + destruct (Hv _ _ E) as (? & ? & ?).
      split_and!; [done|by apply valid_insert|]. apply insert_changes. by rewrite E.
    + split_and!; [done|done|]. intros k. simpl. destruct (decide _) as [->|]; [by rewrite E|done].
Qed.
End LocalSummary.

(** * The database *)

Record subscription_row := SubscriptionRow {
  sr_subscription : subscription;
  sr_tenant_id : string;
}.

(** The table by its primary key, [space_id]; the spaces are in [sd_core]. *)
Record summary_db := SummaryDb {
  sd_core : db;
  summary_subscriptions : gmap string subscription_row;
}.
#[export] Instance summary_db_eta : Eta summary_db := λ r,
  SummaryDb (sd_core r) (summary_subscriptions r).

Module PostgresSummary.
Section postgres.
Context `{Platform}.

(** The keyword arguments of [_upsert]. *)
Record updates := Updates {
  up_enabled : option bool;
  up_last_sent_date : option (option string);
}.

Definition get_subscription (space_id : string) (d : summary_db) : option subscription :=
  sr_subscription <$> summary_subscriptions d !! space_id.

Definition upsert_values (space_id chat_id : string) (u : updates) (old : option subscription) :
    subscription :=
  Subscription space_id chat_id
    (default (from_option su_enabled true old) (up_enabled u))
    (from_option su_time SUMMARY_DEFAULT_TIME old)
    (from_option su_range_key "today" old)
    (default (old ≫= su_last_sent_date) (up_last_sent_date u)).

(** A row refers to a space. *)
Definition check_space (space_id : string) : M summary_db unit := λ d,
  match List.find (λ s, String.eqb (sp_id s) space_id) (spaces (sd_core d)) with
  | Some _ => Ok (tt, d)
  | None => Raise (IntegrityError "summary_subscriptions_space_id_fkey")
  end.

Definition ensure_space (space_id : string) : M summary_db string := λ d,
  match ensure_tenant_space space_id DEFAULT_TENANT_ID "feishu" (sd_core d) with
  | Ok (sid, core) => Ok (sid, d <| sd_core := core |>)
  | Raise e => Raise e
  end.

Definition upsert (space_id chat_id : string) (u : updates) (d : summary_db) :
    Prelude.result (option subscription) * summary_db :=
  let '(r, d) := transaction (
    ensure_space space_id;;
    old ← gets (get_subscription space_id);
    check_space space_id;;
    modify (λ d, d <| summary_subscriptions := <[space_id :=
      SubscriptionRow (upsert_values space_id chat_id u old) DEFAULT_TENANT_ID]>
      (summary_subscriptions d) |>)) d in
  match r with
  | Ok _ => (Ok (get_subscription space_id d), d)
  | Raise e => (Raise e, d)
  end.

Definition enable_subscription (space_id chat_id : string) :=
  upsert space_id chat_id (Updates (Some true) None).

Definition disable_subscription (space_id : string) (d : summary_db) :
    Prelude.result (option subscription) * summary_db :=
  match get_subscription space_id d with
  | None => (Ok None, d)
  | Some old => upsert space_id (su_chat_id old) (Updates (Some false) None) d
  end.

Definition mark_sent_date (space_id sent_date : string) (d : summary_db) :
    Prelude.result unit * summary_db :=
  match get_subscription space_id d with
  | None => (Ok tt, d)
  | Some old =>
      let '(r, d) := upsert space_id (su_chat_id old) (Updates None (Some (Some sent_date))) d in
      (match r with Ok _ => Ok tt | Raise e => Raise e end, d)
  end.
End postgres.

#[global] Instance postgres_summary `{Platform} : SummaryStore summary_db :=
  Build_SummaryStore summary_db get_subscription enable_subscription disable_subscription
    mark_sent_date.

(** A row is stored under the space of its subscription. *)
Definition valid_rows (d : summary_db) : Prop :=
  ∀ k r, get_subscription k d = Some r → su_space_id r = k.

Lemma upsert_Ok `{Platform} sid cid u d r d' :
  upsert sid cid u d = (Ok r, d') →
  r = get_subscription sid d'
  ∧ ∀ k, get_subscription k d' = if decide (k = sid)
      then Some (upsert_values sid cid u (get_subscription sid d)) else get_subscription k d.
Proof.
  unfold upsert. destruct (transaction _ d) as [[[]|] d1] eqn:E; intros [= <- <-].
  split; [done|]. apply transaction_Ok in E.
  apply bind_Ok in E as (s & d2 & E1 & E). apply bind_Ok in E as (old & d3 & [-> ->]%gets_Ok & E).
  apply bind_Ok in E as (v & d4 & E2 & ->%modify_Ok).
  assert (summary_subscriptions d2 = summary_subscriptions d) as E3.
  { unfold ensure_space in E1. destruct (ensure_tenant_space _ _ _ _) as [[]|]; [|done].
    by injection E1 as _ <-. }
  assert (d4 = d2) as -> by (unfold check_space in E2; destruct (List.find _ _); congruence).
  intros k. unfold get_subscription. simpl. rewrite E3. destruct (decide (k = sid)) as [->|].
  - by rewrite lookup_insert_eq.
  - by rewrite lookup_insert_ne.
Qed.

Lemma upsert_changes `{Platform} sid cid u d r d' f :
  valid_rows d → upsert sid cid u d = (Ok r, d') →
  f (get_subscription sid d) = Some (upsert_values sid cid u (get_subscription sid d)) →
  valid_rows d' ∧ r = get_subscription sid d' ∧ changes_subscription sid f d d'.
Proof.
  intros Hv [Hr Hk]%upsert_Ok Hf. split_and!; [|done|].
  - intros k x. rewrite Hk. destruct (decide (k = sid)) as [->|]; [by intros [= <-]|apply Hv].
  - intros k. simpl. rewrite Hk. by destruct (decide (k = sid)) as [->|].
Qed.

#[global] Instance postgres_summary_laws `{Platform} : SummaryLaws summary_db valid_rows.
Proof.
  split.
  - intros sid cid s r s' Hv E. simpl in E. eapply upsert_changes; [done|exact E|].
    simpl. unfold enabled_subscription, upsert_values. by destruct (get_subscription sid s) as [[]|].
  - intros sid s r s' Hv. simpl. unfold disable_subscription.
    destruct (get_subscription sid s) as [o|] eqn:Eo; intros E.
    + eapply upsert_changes; [done|exact E|]. rewrite Eo. simpl. pose proof (Hv _ _ Eo) as <-. by destruct o.
    + injection E as <- <-. split_and!; [done|done|]. intros k. simpl.
      destruct (decide (k = sid)) as [->|]; [by rewrite Eo|done].
  - intros sid date s u s' Hv. simpl. unfold mark_sent_date.
    destruct (get_subscription sid s) as [o|] eqn:Eo; intros E.
    + destruct (upsert _ _ _ _) as [[r|] d'] eqn:Eu; [|done]. injection E as _ <-.
      eapply upsert_changes in Eu as (? & ? & ?); [split; [done|eassumption]|done|].
      rewrite Eo. simpl. pose proof (Hv _ _ Eo) as <-. by destruct o.
    + injection E as <- <-. split; [done|]. intros k. simpl.
      destruct (decide (k = sid)) as [->|]; [by rewrite Eo|done].
Qed.
End PostgresSummary.

(** * The two stores agree *)

Inductive summary_op :=
  | Enable (space_id chat_id : string)
  | Disable (space_id : string)
  | MarkSent (space_id sent_date : string).

Definition apply_op {T : Type} `{SummaryStore T} (o : summary_op) (s : T) :
    Prelude.result (option subscription) * T :=
  match o with
  | Enable space_id chat_id => enable_summary_subscription space_id chat_id s
  | Disable space_id => disable_summary_subscription space_id s
  | MarkSent space_id sent_date =>
      let '(r, s) := mark_summary_sent space_id sent_date s in
      (match r with Ok _ => Ok None | Raise e => Raise e end, s)
  end.

(** The answers to a sequence of calls, up to the first that raises. *)
Fixpoint apply_ops {T : Type} `{SummaryStore T} (l : list summary_op) (s : T) :
    Prelude.result (list (option subscription)) * T :=
  match l with
  | [] => (Ok [], s)
  | o :: l =>
      match apply_op o s with
      | (Raise e, s) => (Raise e, s)
      | (Ok a, s) =>
          match apply_ops l s with
          | (Raise e, s) => (Raise e, s)
          | (Ok answers, s) => (Ok (a :: answers), s)
          end
      end
  end.

Definition same_subscriptions {T1 T2 : Type} `{SummaryStore T1, SummaryStore T2} (s1 : T1) (s2 : T2) : Prop :=
  ∀ k, get_summary_subscription k s1 = get_summary_subscription k s2.

Section agreement.
Context `{Platform}.
Context {T1 : Type} {st1 : SummaryStore T1} {valid1 : T1 → Prop} {laws1 : SummaryLaws T1 valid1}.
Context {T2 : Type} {st2 : SummaryStore T2} {valid2 : T2 → Prop} {laws2 : SummaryLaws T2 valid2}.

Lemma changes_same k f (s1 s1' : T1) (s2 s2' : T2) :
  same_subscriptions s1 s2 → changes_subscription k f s1 s1' → changes_subscription k f s2 s2' →
  same_subscriptions s1' s2'.
Proof. intros Hs H1 H2 j. by rewrite H1, H2, Hs. Qed.

Lemma op_agrees o (s1 s1' : T1) (s2 s2' : T2) a1 a2 :
  valid1 s1 → valid2 s2 → same_subscriptions s1 s2 →
  apply_op o s1 = (Ok a1, s1') → apply_op o s2 = (Ok a2, s2') →
  a1 = a2 ∧ valid1 s1' ∧ valid2 s2' ∧ same_subscriptions s1' s2'.
Proof.
  intros Hv1 Hv2 Hs E1 E2. destruct o as [k c|k|k date]; simpl in E1, E2.
  - apply enable_law in E1 as (? & -> & ?); [|done]. apply enable_law in E2 as (? & -> & ?); [|done].
    assert (same_subscriptions s1' s2') as Hs' by (by eapply changes_same). by split_and!.
  - apply disable_law in E1 as (? & -> & ?); [|done]. apply disable_law in E2 as (? & -> & ?); [|done].
    assert (same_subscriptions s1' s2') as Hs' by (by eapply changes_same). by split_and!.
  - destruct (mark_summary_sent k date s1) as [[u1|] t1] eqn:M1; [|done].
    destruct (mark_summary_sent k date s2) as [[u2|] t2] eqn:M2; [|done].
    injection E1 as <- <-. injection E2 as <- <-.
    apply mark_law in M1 as [? ?]; [|done]. apply mark_law in M2 as [? ?]; [|done].
    split_and!; [done..|by eapply changes_same].
Qed.

Lemma ops_agree l : ∀ (s1 s1' : T1) (s2 s2' : T2) a1 a2,
  valid1 s1 → valid2 s2 → same_subscriptions s1 s2 →
  apply_ops l s1 = (Ok a1, s1') → apply_ops l s2 = (Ok a2, s2') →
  a1 = a2 ∧ same_subscriptions s1' s2'.
Proof.
  induction l as [|o l IH]; intros s1 s1' s2 s2' a1 a2 Hv1 Hv2 Hs E1 E2; simpl in E1, E2.
  - by injection E1 as <- <-; injection E2 as <- <-.
  - destruct (apply_op o s1) as [[b1|] t1] eqn:O1; [|done].
    destruct (apply_op o s2) as [[b2|] t2] eqn:O2; [|done].
    destruct (op_agrees _ _ _ _ _ _ _ Hv1 Hv2 Hs O1 O2) as (-> & Hw1 & Hw2 & Ht).
    destruct (apply_ops l t1) as [[c1|] u1] eqn:L1; [|done].
    destruct (apply_ops l t2) as [[c2|] u2] eqn:L2; [|done].
    injection E1 as <- <-. injection E2 as <- <-.
    destruct (IH _ _ _ _ _ _ Hw1 Hw2 Ht L1 L2) as [-> ?]. done.
Qed.
End agreement.

(** The local file and the database answer every sequence of calls alike: with the
    same subscriptions to begin with, enabling, disabling and marking give the same answers
    and leave the same subscriptions. *)
Theorem subscription_stores_agree `{Platform} (l : list summary_op)
    (s1 s1' : gmap string subscription) (s2 s2' : summary_db) a1 a2 :
  SUMMARY_DEFAULT_TIME ≠ "" → LocalSummary.valid s1 → PostgresSummary.valid_rows s2 →
  same_subscriptions s1 s2 →
  apply_ops l s1 = (Ok a1, s1') → apply_ops l s2 = (Ok a2, s2') →
  a1 = a2 ∧ same_subscriptions s1' s2'.
Proof. intros ???. by apply ops_agree. Qed.

Section demo.
#[local] Existing Instance test_platform.

Definition demo_ops : list summary_op :=
  [Enable "s1" "c1"; MarkSent "s1" "2026-01-01"; MarkSent "s2" "2026-01-01"; Disable "s1";
   Enable "s1" "c2"].

Definition answers_of {T : Type} (r : Prelude.result (list (option subscription)) * T) :
    list (option subscription) := match r.1 with Ok a => a | Raise _ => [] end.

Lemma subscription_stores_agree_witness :
  answers_of (apply_ops demo_ops (∅ : gmap string subscription))
  = answers_of (apply_ops demo_ops (SummaryDb empty_db ∅)).
Proof.
  apply (subscription_stores_agree demo_ops ∅
    (apply_ops demo_ops (∅ : gmap string subscription)).2
    (SummaryDb empty_db ∅)
    (apply_ops demo_ops (SummaryDb empty_db ∅)).2); [done|..].
  - by intros k r.
  - by intros k r.
  - by intros k.
  - vm_compute. reflexivity.
  - vm_compute. reflexivity.
Defined.
End demo.
