(* ===== verification/SummaryScheduler.v ===== *)
(** The scheduler of the automatic summaries ([summary/scheduler.py], [summary/reconciliation.py]),
    against the interfaces of the deliveries, of the subscriptions and of the executor.

    A tick reads the enabled subscriptions once; for each it first reconciles the delivery of the
    day, and submits a summary when it is due.  The log output is left out. *)

From stdpp Require Import base list strings gmap.
From Stdlib Require Import ZArith Lia.
From S2P Require Import Prelude Schema Consistency Dispatch Delivery Subscriptions.

Open Scope string_scope.
Open Scope Z_scope.

(** [auto_summary_key] of [runtime/delivery_store.py] *)
Definition auto_summary_key (space_id range_key date : string) : string :=
  "auto_summary:" +:+ space_id +:+ ":" +:+ range_key +:+ ":" +:+ date.

(** [value.split(":", 1)], when the separator is there *)
Fixpoint split_colon (value : string) : option (string * string) :=
  match value with
  | EmptyString => None
  | String c rest =>
      if Ascii.eqb c (Ascii.ascii_of_N 58) then Some ("", rest)
      else option_map (λ '(a, b), (String c a, b)) (split_colon rest)
  end.

(** [int(text)] of an ASCII text: spaces around, one sign, digits with single underscores *)
Definition is_digit (c : Ascii.ascii) : bool :=
  let n := Ascii.N_of_ascii c in (48 <=? n)%N && (n <=? 57)%N.
Definition is_blank (c : Ascii.ascii) : bool :=
  let n := Ascii.N_of_ascii c in ((9 <=? n) && (n <=? 13) || (28 <=? n) && (n <=? 32))%N.
Fixpoint drop_blanks (l : list Ascii.ascii) : list Ascii.ascii :=
  match l with c :: l' => if is_blank c then drop_blanks l' else l | [] => [] end.
Fixpoint int_digits (after_digit : bool) (acc : Z) (l : list Ascii.ascii) : option Z :=
  match l with
  | [] => if after_digit then Some acc else None
  | c :: l =>
      if is_digit c then int_digits true (acc * 10 + Z.of_N (Ascii.N_of_ascii c - 48)) l
      else if after_digit && Ascii.eqb c (Ascii.ascii_of_N 95)
      then match l with d :: _ => if is_digit d then int_digits false acc l else None | [] => None end
      else None
  end.
Definition py_int (text : string) : option Z :=
  match rev (drop_blanks (rev (drop_blanks (String.list_ascii_of_string text)))) with
  | c :: l =>
      if Ascii.eqb c (Ascii.ascii_of_N 45) then option_map Z.opp (int_digits false 0 l)
      else if Ascii.eqb c (Ascii.ascii_of_N 43) then int_digits false 0 l
      else int_digits false 0 (c :: l)
  | [] => None
  end.

(** The arguments of [submit_summary]; its callback marks the summary of [sb_date] as sent. *)
Record submission := Submission {
  sb_space_id : string;
  sb_range_key : string;
  sb_chat_id : string;
  sb_delivery_key : string;
  sb_date : string;
}.

(** The enabled subscriptions, as either store lists them *)
Class SummaryListing (T : Type) `{SummaryStore T} := {
  list_enabled_summary_subscriptions : T → list subscription;
  listing_law : ∀ s r, r ∈ list_enabled_summary_subscriptions s → su_enabled r = true ∧ ∃ k, get_summary_subscription k s = Some r;
}.

(** The executor: whether the task was accepted, and what it has accepted so far. *)
Class SummaryExecutor (E : Type) := {
  submit_summary : submission → E → Prelude.result bool * E;
  submitted : E → list submission;
  submit_law : ∀ a e r e', submit_summary a e = (r, e') →
    submitted e' = match r with Ok true => (submitted e ++ [a])%list | _ => submitted e end;
}.

(** The moment of a tick: [datetime.now()], its date, and the instant *)
Record moment := Moment { mo_today : string; mo_hour : Z; mo_minute : Z; mo_instant : Z }.

Section scheduler.
Context `{Platform}.
Context {S T X : Type} `{DeliveryStore S, SummaryStore T, SummaryExecutor X}.
Context {listing : SummaryListing T}.

Record world := World { deliveries_of : S; subscriptions_of : T; executor_of : X }.

Definition on_deliveries {A} (m : S → Prelude.result A * S) : IO world A := λ w,
  let '(r, s) := m (deliveries_of w) in (r, World s (subscriptions_of w) (executor_of w)).
Definition on_subscriptions {A} (m : T → Prelude.result A * T) : IO world A := λ w,
  let '(r, t) := m (subscriptions_of w) in (r, World (deliveries_of w) t (executor_of w)).
Definition on_executor {A} (m : X → Prelude.result A * X) : IO world A := λ w,
  let '(r, e) := m (executor_of w) in (r, World (deliveries_of w) (subscriptions_of w) e).

(** [reconcile_auto_summary_delivery]: whether the summary of the day needs no submission *)
Definition reconcile_auto_summary_delivery (space_id range_key sent_date : string) (now : Z) : IO world bool :=
  let delivery_key := auto_summary_key space_id range_key sent_date in
  delivery ← on_deliveries (get delivery_key);
  match delivery with
  | None => mret false
  | Some d =>
      if String.eqb (dr_status d) DELIVERY_SENT then
        sub ← io_gets (λ w, get_summary_subscription space_id (subscriptions_of w));
        (if match sub with None => true | Some s => negb (bool_decide (su_last_sent_date s = Some sent_date)) end
         then on_subscriptions (mark_summary_sent space_id sent_date) else mret tt);;
        mret true
      else if String.eqb (dr_status d) DELIVERY_UNKNOWN then mret true
      else if String.eqb (dr_status d) DELIVERY_RESERVED then
        if is_reservation_expired d now
        then on_deliveries (mark_failed delivery_key "reservation lease expired" now);; mret false
        else mret true
      else if String.eqb (dr_status d) DELIVERY_FAILED then mret (DELIVERY_MAX_ATTEMPTS <=? dr_attempt_count d)
      else mret false
  end.

(** [_minutes]: [hour, minute = value.split(":", 1)] *)
Definition minutes (value : string) : Prelude.result Z :=
  match split_colon value with
  | None => Raise (ValueError "not enough values to unpack (expected 2, got 1)")
  | Some (hour, minute) =>
      match py_int hour, py_int minute with
      | Some h, Some m => Ok (h * 60 + m)
      | _, _ => Raise (ValueError "invalid literal for int() with base 10")
      end
  end.
Definition is_due (sub : subscription) (now : moment) : Prelude.result bool :=
  if bool_decide (su_last_sent_date sub = Some (mo_today now)) then Ok false
  else match minutes (su_time sub) with
       | Ok m => Ok (m <=? mo_hour now * 60 + mo_minute now)
       | Raise e => Raise e
       end.

Definition submission_of (now : moment) (sub : subscription) : submission :=
  Submission (su_space_id sub) (su_range_key sub) (su_chat_id sub)
    (auto_summary_key (su_space_id sub) (su_range_key sub) (mo_today now)) (mo_today now).

(** The body of the [try]: how many summaries were submitted *)
Definition process_subscription (now : moment) (sub : subscription) : IO world Z :=
  settled ← reconcile_auto_summary_delivery (su_space_id sub) (su_range_key sub) (mo_today now) (mo_instant now);
  if settled : bool then mret 0
  else
    due ← io_lift (is_due sub now);
    if due : bool then
      accepted ← on_executor (submit_summary (submission_of now sub));
      mret (if accepted : bool then 1 else 0)
    else mret 0.

Definition run_summary_scheduler_once (now : moment) : IO world Z :=
  subscriptions ← io_gets (λ w, list_enabled_summary_subscriptions (subscriptions_of w));
  io_for subscriptions 0 (λ count sub,
    try_except (process_subscription now sub) (λ _, mret count) (λ n, mret (count + n))).

(** [run_scheduler_tick_safely] *)
Definition run_scheduler_tick_safely (now : moment) : IO world unit :=
  try_except (run_summary_scheduler_once now) (λ _, mret tt) (λ _, mret tt).

(** The callback [on_success] of a submission *)
Definition on_success (a : submission) : IO world unit :=
  on_subscriptions (mark_summary_sent (sb_space_id a) (sb_date a)).

(** ** What a tick should submit *)

Definition key_of (now : moment) (sub : subscription) : string :=
  auto_summary_key (su_space_id sub) (su_range_key sub) (mo_today now).

(** The delivery of the day settles the summary of the day. *)
Definition settles (delivery : option delivery_record) (t : Z) : bool :=
  match delivery with
  | None => false
  | Some d =>
      String.eqb (dr_status d) DELIVERY_SENT || String.eqb (dr_status d) DELIVERY_UNKNOWN
      || (String.eqb (dr_status d) DELIVERY_RESERVED && negb (is_reservation_expired d t))
      || (String.eqb (dr_status d) DELIVERY_FAILED && (DELIVERY_MAX_ATTEMPTS <=? dr_attempt_count d))
  end.
Definition wanted (now : moment) (s : S) (sub : subscription) : bool :=
  negb (settles (find_delivery (key_of now sub) s) (mo_instant now))
  && match is_due sub now with Ok due => due | Raise _ => false end.

(** A tick only gives up reservations that have expired. *)
Definition evolved (t : Z) (s s' : S) : Prop :=
  ∀ k, find_delivery k s' = find_delivery k s
    ∨ ∃ d, find_delivery k s = Some d ∧ is_reservation_expired d t = true
        ∧ find_delivery k s' = Some (with_status DELIVERY_FAILED (Some "reservation lease expired") (clock_stamp t) d).

Lemma failed_has_not_expired e t t' d : is_reservation_expired (with_status DELIVERY_FAILED e t d) t' = false.
Proof. done. Qed.

Lemma evolved_refl t s : evolved t s s.
Proof. intros k. by left. Qed.
Lemma evolved_trans t s1 s2 s3 : evolved t s1 s2 → evolved t s2 s3 → evolved t s1 s3.
Proof.
  intros H12 H23 k. destruct (H12 k) as [E|(d & E & Hd & E')], (H23 k) as [F|(d' & F & Hd' & F')].
  - left. by rewrite F.
  - right. exists d'. by rewrite <- E.
  - right. exists d. by rewrite F.
  - rewrite E' in F. injection F as <-. by rewrite failed_has_not_expired in Hd'.
Qed.

Lemma expired_is_reserved d t : is_reservation_expired d t = true → dr_status d = DELIVERY_RESERVED.
Proof. unfold is_reservation_expired. by intros [?%String.eqb_eq _]%andb_true_iff. Qed.

(** Once settled, settled for the rest of the tick *)
Lemma settles_evolved t s s' k : evolved t s s' →
  settles (find_delivery k s) t = true → settles (find_delivery k s') t = true.
Proof.
  intros Hs Hk. destruct (Hs k) as [->|(d & E & Hd & _)]; [done|].
  rewrite E in Hk. simpl in Hk. rewrite Hd, (expired_is_reserved _ _ Hd) in Hk. done.
Qed.
Lemma wanted_evolved now s s' sub : evolved (mo_instant now) s s' →
  wanted now s' sub = true → wanted now s sub = true.
Proof.
  unfold wanted. intros Hs [Hn ->]%andb_true_iff. apply negb_true_iff in Hn. rewrite andb_true_r.
  apply negb_true_iff, not_true_iff_false. intros Ht. by rewrite (settles_evolved _ _ _ _ Hs Ht) in Hn.
Qed.

(** ** One subscription *)

Context `{laws : !DeliveryLaws S}.

Lemma mark_failed_evolved k t s r s' d : mark_failed k "reservation lease expired" t s = (r, s') →
  find_delivery k s = Some d → is_reservation_expired d t = true → evolved t s s'.
Proof.
  intros Hm Hk Hd k'. apply update_law in Hm. destruct r as [u|e]; [|subst; by left].
  destruct Hm as [Hat Hframe]. destruct (decide (k' = k)) as [->|Hne]; [|by left; apply Hframe].
  right. exists d. by rewrite Hat, Hk.
Qed.

(** The store of the deliveries writes what it is asked to. *)
Definition answers : Prop := ∀ k status error t (s : S), ∃ s', set_status k status error t s = (Ok tt, s').

#[local] Ltac reconciled := split_and!; [done|apply evolved_refl|by intros ? ?|intros ? ?; by simplify_eq/=|intros ? ? ?; by simplify_eq/=].

Lemma reconcile_spec space_id range_key date t w r w' :
  reconcile_auto_summary_delivery space_id range_key date t w = (r, w') →
  executor_of w' = executor_of w ∧ evolved t (deliveries_of w) (deliveries_of w')
  ∧ frame (auto_summary_key space_id range_key date) (deliveries_of w) (deliveries_of w')
  ∧ (∀ b, r = Ok b → b = settles (find_delivery (auto_summary_key space_id range_key date) (deliveries_of w)) t)
  ∧ (answers → ∀ e, r = Raise e →
       settles (find_delivery (auto_summary_key space_id range_key date) (deliveries_of w)) t = true).
Proof.
  unfold reconcile_auto_summary_delivery, on_deliveries, on_subscriptions, io_gets, mbind, IO_bind, mret, IO_ret.
  set (k := auto_summary_key _ _ _).
  destruct (get k (deliveries_of w)) as [r0 s0] eqn:Hg. apply get_law in Hg as [-> ->].
  destruct (find_delivery k (deliveries_of w)) as [d|] eqn:Hk; [|intros [= <- <-]; reconciled].
  unfold settles. simpl.
  destruct (String.eqb (dr_status d) DELIVERY_SENT) eqn:Hs; simpl.
  { repeat case_match; intros [= <- <-]; simplify_eq/=; reconciled. }
  destruct (String.eqb (dr_status d) DELIVERY_UNKNOWN) eqn:Hu; simpl.
  { intros [= <- <-]; reconciled. }
  destruct (String.eqb (dr_status d) DELIVERY_RESERVED) eqn:Hr; simpl.
  { apply String.eqb_eq in Hr. rewrite Hr. destruct (is_reservation_expired d t) eqn:He; simpl.
    - destruct (mark_failed _ _ _ _) as [r1 s1] eqn:Hm. pose proof (mark_failed_evolved _ _ _ _ _ _ Hm Hk He).
      pose proof (update_law _ _ _ _ _ _ _ Hm) as Hl.
      destruct r1 as [u|e]; intros [= <- <-]; simpl; (split_and!; [done|done| | |]).
      + apply Hl.
      + by intros b [= <-].
      + done.
      + by subst s1.
      + done.
      + intros Ha. destruct (Ha k DELIVERY_FAILED (Some "reservation lease expired") t (deliveries_of w)) as [s' Hs'].
        unfold mark_failed in Hm. by rewrite Hs' in Hm.
    - intros [= <- <-]; reconciled. }
  destruct (String.eqb (dr_status d) DELIVERY_FAILED); intros [= <- <-]; reconciled.
Qed.

#[local] Ltac not_submitted :=
  split; [done|exists false]; simpl;
  match goal with E : _ = submitted _ |- _ => rewrite E | E : executor_of _ = _ |- _ => rewrite E end;
  rewrite app_nil_r; split_and!; [first [by left|by right; eauto]|done|done].

(** What the body does: it submits the summary or not, and only a wanted one. *)
Lemma process_spec now sub w r w' : process_subscription now sub w = (r, w') →
  evolved (mo_instant now) (deliveries_of w) (deliveries_of w')
  ∧ ∃ b : bool, (r = Ok (Z.b2z b) ∨ (b = false ∧ ∃ e, r = Raise e))
      ∧ submitted (executor_of w') = (submitted (executor_of w) ++ (if b then [submission_of now sub] else []))%list
      ∧ (b = true → wanted now (deliveries_of w) sub = true).
Proof.
  unfold process_subscription, on_executor, io_lift, mbind, IO_bind, mret, IO_ret.
  destruct (reconcile_auto_summary_delivery _ _ _ _ w) as [r0 w0] eqn:Hrec.
  apply reconcile_spec in Hrec as (Hx & Hs & Hf & Hb & Hr).
  destruct r0 as [[|]|e].
  1, 3: intros [= <- <-]; by not_submitted.
  destruct (is_due sub now) as [[|]|e] eqn:Hd.
  2, 3: intros [= <- <-]; by not_submitted.
  destruct (submit_summary _ _) as [r1 x1] eqn:Hsub. apply submit_law in Hsub.
  destruct r1 as [[|]|e]; intros [= <- <-]; simpl.
  2, 3: by rewrite Hx in Hsub; not_submitted.
  split; [done|]. exists true. rewrite Hsub, Hx. split; [by left|]. split; [done|]. intros _. unfold wanted, key_of. by rewrite <- (Hb false), Hd.
Qed.
(** ** A tick *)

#[local] Abbreviation run_from now count l := (io_for l count (λ c sub,
    try_except (process_subscription now sub) (λ _, mret c) (λ n, mret (c + n)))).

Lemma run_from_cons now count sub l w r w' : run_from now count (sub :: l) w = (r, w') →
  ∃ (b : bool) w1, run_from now (count + Z.b2z b) l w1 = (r, w')
    ∧ evolved (mo_instant now) (deliveries_of w) (deliveries_of w1)
    ∧ submitted (executor_of w1) = (submitted (executor_of w) ++ (if b then [submission_of now sub] else []))%list
    ∧ (b = true → wanted now (deliveries_of w) sub = true)
    ∧ (∃ r1, process_subscription now sub w = (r1, w1)).
Proof.
  simpl. unfold mbind at 1, IO_bind at 1, try_except at 1.
  destruct (process_subscription now sub w) as [r1 w1] eqn:Hp.
  destruct (process_spec _ _ _ _ _ Hp) as (He & b & Hr & Hs & Hb).
  intros Hrun. exists b, w1. split_and!; [|done..|by exists r1].
  destruct Hr as [->|[-> [e ->]]]; unfold mret, IO_ret in Hrun; [done|]. simpl. by rewrite Z.add_0_r.
Qed.

Lemma sublist_wanted now s s' l : evolved (mo_instant now) s s' →
  select_where (wanted now s') l `sublist_of` select_where (wanted now s) l.
Proof.
  intros Hs. induction l as [|sub l IH]; [constructor|]. unfold select_where in *. simpl.
  destruct (wanted now s' sub) eqn:Hw.
  - rewrite (wanted_evolved _ _ _ _ Hs Hw). by apply sublist_skip.
  - destruct (wanted now s sub); [by apply sublist_cons|done].
Qed.

Lemma run_submits now l : ∀ count w r w', run_from now count l w = (r, w') →
  evolved (mo_instant now) (deliveries_of w) (deliveries_of w')
  ∧ ∃ new, r = Ok (count + Z.of_nat (length new))
      ∧ submitted (executor_of w') = (submitted (executor_of w) ++ map (submission_of now) new)%list
      ∧ new `sublist_of` select_where (wanted now (deliveries_of w)) l.
Proof.
  induction l as [|sub l IH]; intros count w r w' Hrun.
  { injection Hrun as <- <-. split; [apply evolved_refl|]. exists [].
    rewrite app_nil_r. split_and!; [f_equal; simpl; lia|done|constructor]. }
  apply run_from_cons in Hrun as (b & w1 & Hrun & He & Hs & Hb & _).
  apply IH in Hrun as (He' & new & -> & Hs' & Hnew).
  split; [by eapply evolved_trans|].
  assert (new `sublist_of` select_where (wanted now (deliveries_of w)) l) as Hin.
  { etransitivity; [exact Hnew|by apply sublist_wanted]. }
  exists ((if b then [sub] else []) ++ new)%list. rewrite Hs', Hs. split_and!.
  - f_equal. destruct b; simpl; lia.
  - by destruct b; simpl; rewrite <- app_assoc.
  - unfold select_where in *. destruct b; simpl; [rewrite Hb by done; by apply sublist_skip|].
    destruct (wanted _ _ _); [by apply sublist_cons|done].
Qed.

(** After its success a summary is not due again on its day. *)
Lemma success_is_not_due `{L : !SummaryLaws T valid} now sub w w' sub' : valid (subscriptions_of w) →
  on_success (submission_of now sub) w = (Ok tt, w') →
  get_summary_subscription (su_space_id sub) (subscriptions_of w') = Some sub' → is_due sub' now = Ok false.
Proof.
  intros Hv. unfold on_success, on_subscriptions, submission_of. simpl.
  destruct (mark_summary_sent _ _ _) as [[[]|e] t'] eqn:Hm; [|done]. intros E. simplify_eq. simpl. intros Hsub.
  apply (mark_law (valid := valid)) in Hm as [_ Hc]; [|done].
  specialize (Hc (su_space_id sub)). rewrite decide_True, Hsub in Hc by done.
  destruct (get_summary_subscription _ (subscriptions_of w)); simplify_eq/=. unfold is_due. by rewrite bool_decide_eq_true_2.
Qed.

(** ** Nothing that is due is missed *)

(** The executor has room. *)
Definition accepts : Prop := ∀ a (x : X), ∃ x', submit_summary a x = (Ok true, x').

Lemma process_exact now sub w r w' : answers → accepts → process_subscription now sub w = (r, w') →
  submitted (executor_of w') = (submitted (executor_of w)
    ++ (if wanted now (deliveries_of w) sub then [submission_of now sub] else []))%list
  ∧ frame (key_of now sub) (deliveries_of w) (deliveries_of w').
Proof.
  intros Hans Hacc.
  unfold process_subscription, on_executor, io_lift, mbind, IO_bind, mret, IO_ret, wanted, key_of.
  destruct (reconcile_auto_summary_delivery _ _ _ _ w) as [r0 w0] eqn:Hrec.
  apply reconcile_spec in Hrec as (Hx & _ & Hf & Hb & Hr).
  destruct r0 as [[|]|e].
  1: rewrite <- (Hb true) by done. 3: rewrite (Hr Hans e) by done.
  1, 3: intros [= <- <-]; simpl; by rewrite Hx, app_nil_r.
  rewrite <- (Hb false) by done.
  destruct (is_due sub now) as [[|]|e]; simpl.
  2, 3: intros [= <- <-]; by rewrite Hx, app_nil_r.
  destruct (Hacc (submission_of now sub) (executor_of w0)) as [x' E]. rewrite E.
  apply submit_law in E. intros [= <- <-]. simpl. by rewrite E, Hx.
Qed.

Lemma run_exact now l : answers → accepts → NoDup (map (key_of now) l) → ∀ count w r w',
  run_from now count l w = (r, w') →
  submitted (executor_of w') = (submitted (executor_of w)
    ++ map (submission_of now) (select_where (wanted now (deliveries_of w)) l))%list.
Proof.
  intros Hans Hacc. induction l as [|sub l IH]; intros Hnd count w r w' Hrun.
  { injection Hrun as <- <-. by rewrite app_nil_r. }
  apply run_from_cons in Hrun as (b & w1 & Hrun & _ & _ & _ & r1 & Hp).
  apply process_exact in Hp as [Hs Hf]; [|done..]. simpl in Hnd. apply NoDup_cons in Hnd as [Hnew Hnd].
  apply IH in Hrun; [|done]. rewrite Hrun, Hs, <- app_assoc. f_equal.
  replace (select_where (wanted now (deliveries_of w1)) l) with (select_where (wanted now (deliveries_of w)) l).
  { unfold select_where. simpl. by destruct (wanted _ _ _). }
  apply List.filter_ext_in. intros sub' Hin. unfold wanted. rewrite Hf; [done|].
  intros E. apply Hnew. rewrite <- E. apply elem_of_map_in. by apply list_elem_of_In.
Qed.

(** The summaries of one day have different keys, when the range and the date have no colon. *)
Lemma keys_distinct now l : no_colon (mo_today now) → Forall (no_colon ∘ su_range_key) l →
  NoDup (map su_space_id l) → NoDup (map (key_of now) l).
Proof.
  intros Hd. induction l as [|sub l IH]; intros Hr Hnd; simpl in *; [constructor|].
  inversion_clear Hr as [|? ? Hsub Hl]. apply NoDup_cons in Hnd as [Hnew Hnd].
  apply NoDup_cons. split; [|by apply IH]. intros (sub' & E & Hin)%elem_of_map. apply Hnew.
  rewrite Forall_forall in Hl. specialize (Hl _ Hin). apply elem_of_map. exists sub'. split; [|done].
  unfold key_of, auto_summary_key in E. apply (inj (String.append "auto_summary:")) in E.
  rewrite <- !append_assoc in E. rewrite !(append_assoc _ ":" (mo_today now)) in E.
  apply split_at_last_colon in E as [E _]; [|done..].
  rewrite !append_assoc in E. by apply split_at_last_colon in E as [? _].
Qed.

End scheduler.

(** * Local stores *)

(** The enabled subscriptions of the local file; their order in the file is not kept by the map. *)
Definition list_enabled_local (items : LocalSummary.local_subscriptions) : list subscription :=
  select_where su_enabled (map snd (map_to_list items)).
Lemma local_listing_law `{Platform} (items : LocalSummary.local_subscriptions) r :
  r ∈ list_enabled_local items →
  su_enabled r = true ∧ ∃ k, get_summary_subscription k items = Some r.
Proof.
  intros [Hin Hr]%elem_of_select. split; [done|].
  apply elem_of_map in Hin as ([k r'] & <- & Hin). exists k. by apply elem_of_map_to_list in Hin.
Qed.
#[export] Instance local_listing `{Platform} : SummaryListing LocalSummary.local_subscriptions := {|
  list_enabled_summary_subscriptions := list_enabled_local;
  listing_law := local_listing_law;
|}.

(** An executor that accepts everything *)
#[export] Instance log_executor : SummaryExecutor (list submission).
Proof.
  refine {| submit_summary := λ a log, (Ok true, (log ++ [a])%list); submitted := λ log, log |}.
  by intros a e r e' [= <- <-].
Defined.

Module Example.
#[local] Existing Instance test_platform.

Definition noon : moment := Moment "2026-05-01" 12 0 (seconds 1000).
Definition sub (space time : string) (last : option string) : subscription :=
  Subscription space ("chat_" +:+ space) true time "today" last.
Definition delivery (space status : string) (expires attempts : Z) : string * delivery_record :=
  let key := auto_summary_key space "today" "2026-05-01" in
  (key, DeliveryRecord key "auto_summary" space None status 0 0 (Some 0) (Some (seconds expires)) attempts None).
Definition start : world := World
  (list_to_map [delivery "s_sent" "sent" 0 1; delivery "s_live" "reserved" 1001 1; delivery "s_old" "reserved" 999 1;
                delivery "s_out" "failed" 0 DELIVERY_MAX_ATTEMPTS] : local_items)
  (list_to_map (map (λ s, (su_space_id s, s))
     [sub "s_new" "11:59" None; sub "s_late" "12:01" None; sub "s_bad" "noon" None; sub "s_done" "9:00" (Some "2026-05-01");
      sub "s_sent" "9:00" None; sub "s_live" "9:00" None; sub "s_old" " 9:0_0" None; sub "s_out" "9:00" None])
   : LocalSummary.local_subscriptions)
  ([] : list submission).

Example py_int_accepts : map py_int [" 09"; "+7"; "1_0"; "-3 "; "1__0"; "_1"; ""; "x"]
  = [Some 9; Some 7; Some 10; Some (-3); None; None; None; None].
Proof. reflexivity. Qed.

Example two_are_due : map su_space_id (select_where (wanted noon (deliveries_of start))
    (list_enabled_summary_subscriptions (subscriptions_of start))) = ["s_old"; "s_new"].
Proof. vm_compute. reflexivity. Qed.

Lemma deliveries_answer : answers (S := local_items).
Proof. intros k status error t s. simpl. unfold Local.update_status. destruct (_ !! _); by eexists. Qed.
Lemma log_accepts : accepts (X := list submission).
Proof. intros a x. by eexists. Qed.

Definition subs_of_start := list_enabled_summary_subscriptions (subscriptions_of start).
Lemma ranges_have_no_colon : Forall (no_colon ∘ su_range_key) subs_of_start.
Proof. apply Forall_forall. intros s Hs. unfold subs_of_start in Hs. vm_compute in Hs. set_unfold. by destruct_or! Hs; subst. Qed.
Lemma spaces_are_distinct : NoDup (map su_space_id subs_of_start).
Proof. apply (bool_decide_unpack _). vm_compute. exact I. Qed.

Definition after : world := (run_summary_scheduler_once noon start).2.
Lemma tick_is : run_summary_scheduler_once noon start = (Ok 2, after).
Proof. unfold after. destruct (run_summary_scheduler_once noon start) as [r w] eqn:E. simpl. f_equal.
  transitivity (run_summary_scheduler_once noon start).1; [by rewrite E|vm_compute; reflexivity]. Qed.


End Example.
