(* ===== verification/Deliver.v ===== *)
(** Sending a delivery: [handle_delivery] of [apps/handlers.py] over the store of the
    deliveries and [send_text] of [bot/feishu_bot.py], and the bound on how often a text is
    sent.

    The Feishu client is a parameter: its reply to a request is a function of the requests
    before it. *)

From stdpp Require Import base list strings gmap pretty relations.
From Stdlib Require Import ZArith Lia.
From S2P Require Import Prelude Rely Schema Consistency Dispatch Stages Tasks Delivery.
From S2P Require Import TextChunks Subscriptions.

Open Scope string_scope.
Open Scope Z_scope.

(** * The chat *)

(** What the code reads of a response of the client. *)
Record response := Response {
  rs_success : bool;
  rs_code : Z;
  rs_msg : string;
  rs_log_id : string;
}.

(** A request to create a message: the chat and the content. *)
Definition request : Type := string * string.

Class Feishu := {
  create_message : list request → request → Prelude.result response;
}.

Definition quote_mark : Ascii.ascii := Ascii.ascii_of_nat 34.

(** The characters that [json.dumps] escapes when [ensure_ascii] is off. *)
Definition json_escape (c : Ascii.ascii) : string :=
  let n := Ascii.N_of_ascii c in
  if (n =? 34)%N then String (Ascii.ascii_of_nat 92) (String quote_mark EmptyString)
  else if (n =? 92)%N then "\\"
  else if (n =? 10)%N then "\n"
  else if (n =? 13)%N then "\r"
  else if (n =? 9)%N then "\t"
  else if (n =? 12)%N then "\f"
  else if (n =? 8)%N then "\b"
  else if (n <? 32)%N then "\u00" +:+ String (hex_digit (n / 16)) (String (hex_digit (n mod 16)) EmptyString)
  else String c EmptyString.

Fixpoint json_escaped (s : string) : string :=
  match s with
  | EmptyString => EmptyString
  | String c s => json_escape c +:+ json_escaped s
  end.

Definition quoted (s : string) : string := String quote_mark (s +:+ String quote_mark EmptyString).

(** [json.dumps({"text": text}, ensure_ascii=False)] *)
Definition message_content (text : string) : string :=
  "{" +:+ quoted "text" +:+ ": " +:+ quoted (json_escaped text) +:+ "}".

Definition send_error (r : response) : exn :=
  RuntimeError ("client.im.v1.message.create failed, code: " +:+ pretty (rs_code r)
    +:+ ", msg: " +:+ rs_msg r +:+ ", log_id: " +:+ rs_log_id r).

(** * The state *)

(** The log records reservations and calls of [send_text], with the activation of the
    handler that made them, the key and the number of the attempt.  The code does not read
    it. *)
Inductive devent :=
  | Reserved (who key : string) (attempt : Z)
  | Sending (who key : string) (attempt : Z).
#[export] Instance devent_eq_dec : EqDecision devent.
Proof. solve_decision. Defined.

(** The state that the handlers share: the stores, the requests to the chat, the log. *)
Record delivery_sys (S T : Type) := DeliverySys {
  ds_store : S;
  ds_summaries : T;
  ds_requests : list request;
  ds_log : list devent;
}.
Arguments DeliverySys {S T} _ _ _ _.
Arguments ds_store {S T} _.
Arguments ds_summaries {S T} _.
Arguments ds_requests {S T} _.
Arguments ds_log {S T} _.
#[export] Instance delivery_sys_eta S T : Eta (delivery_sys S T) := λ r,
  DeliverySys (ds_store r) (ds_summaries r) (ds_requests r) (ds_log r).

(** The world of one activation of the handler, as in [Streams.v]. *)
Record delivery_world (S T : Type) := DeliveryWorld {
  dw_sys : delivery_sys S T;
  dw_others : list ((delivery_sys S T → delivery_sys S T) * Z);
  dw_now : Z;
}.
Arguments DeliveryWorld {S T} _ _ _.
Arguments dw_sys {S T} _.
Arguments dw_others {S T} _.
Arguments dw_now {S T} _.
#[export] Instance delivery_world_eta S T : Eta (delivery_world S T) := λ r,
  DeliveryWorld (dw_sys r) (dw_others r) (dw_now r).

Section handler.
Context `{Platform, Feishu}.
Context {S T : Type} `{DeliveryStore S, SummaryStore T}.
#[local] Abbreviation world := (delivery_world S T).
#[local] Abbreviation state := (delivery_sys S T).

Definition other_handlers : IO world Z := λ w,
  match dw_others w with
  | [] => (Ok (dw_now w), w)
  | (f, now) :: rest => (Ok now, DeliveryWorld (f (dw_sys w)) rest now)
  end.

(** A step on the shared state. *)
Definition during {A} (f : Z → state → Prelude.result A * state) : IO world A :=
  now ← other_handlers;
  (λ w, let '(r, s) := f now (dw_sys w) in (r, w <| dw_sys := s |>)) : IO world A.

(** A call of the store. *)
Definition on_store {A} (f : Z → S → Prelude.result A * S) : IO world A :=
  during (λ now s, let '(r, store) := f now (ds_store s) in (r, s <| ds_store := store |>)).

Definition log_event (e : devent) : IO world unit :=
  during (λ _ s, (Ok tt, s <| ds_log := (ds_log s ++ [e])%list |>)).

(** [reserve_delivery], with its entry in the log. *)
Definition reserve_logged (who : string) (a : reservation) : IO world (option delivery_record) :=
  during (λ now s,
    let '(r, store) := reserve a now (ds_store s) in
    (r, s <| ds_store := store |> <| ds_log := (ds_log s ++
          match r with
          | Ok (Some rec) => [Reserved who (rv_delivery_key a) (dr_attempt_count rec)]
          | _ => []
          end)%list |>)).

(** * Sending *)

(** [_send_text_part]; a request that fails may have reached the chat. *)
Definition send_text_part (chat_id text : string) : IO world unit :=
  response ← during (λ _ s,
    let request := (chat_id, message_content text) in
    (create_message (ds_requests s) request,
     s <| ds_requests := (ds_requests s ++ [request])%list |>));
  if rs_success response then mret tt else throw (send_error response).

Definition MAX_BYTES : Z := 6000.

Definition send_text (chat_id text : string) : IO world unit :=
  io_for (text_chunks text MAX_BYTES) tt (λ _ part, send_text_part chat_id part).

(** * The handler *)

(** [payload[name]] *)
Definition item (name : string) (p : payload) : Prelude.result string :=
  match pl_rest p !! name with Some v => Ok v | None => Raise (KeyError name) end.

(** [payload.get("delivery_type") or "message"] *)
Definition delivery_type_of (p : payload) : string :=
  let o := pl_rest p !! "delivery_type" in if truthy o then default "message" o else "message".

(** [str(task.get("tenant_id") or "default")] *)
Definition tenant_of (t : task) : string :=
  if String.eqb (t_tenant_id t) "" then "default" else t_tenant_id t.

Definition reservation_of (key : string) (t : task) : reservation :=
  let p := t_payload_json t in
  Reservation key (delivery_type_of p) (t_space_id t) (pl_rest p !! "message_id") (tenant_of t).

(** [if payload.get("delivery_type") == "auto_summary" and payload.get("sent_date"): ...] *)
Definition mark_summary (t : task) : IO world unit :=
  let p := t_payload_json t in
  let sent_date := pl_rest p !! "sent_date" in
  if bool_decide (pl_rest p !! "delivery_type" = Some "auto_summary") && truthy sent_date
  then during (λ _ s,
    let '(r, summaries) := mark_summary_sent (t_space_id t) (default "" sent_date) (ds_summaries s) in
    (r, s <| ds_summaries := summaries |>))
  else mret tt.

Definition already_reserved : exn := RetryLater "delivery is already reserved" (seconds 1).

(** The body of the [try]. *)
Definition try_send (who key : string) (attempt : Z) (t : task) : IO world unit :=
  let p := t_payload_json t in
  chat_id ← io_lift (item "chat_id" p);
  text ← io_lift (item "text" p);
  log_event (Sending who key attempt);;
  send_text chat_id text.

(** [except TimeoutError as exc: ... except Exception as exc: ...] *)
Definition send_failed (key : string) (exc : exn) : IO world unit :=
  match exc with
  | TimeoutError _ => on_store (mark_unknown key (exn_type exc))
  | _ => on_store (mark_failed key (describe exc));; throw exc
  end.

Definition handle_delivery (who : string) (t : task) : IO world unit :=
  key ← io_lift (item "delivery_key" (t_payload_json t));
  reserved ← reserve_logged who (reservation_of key t);
  match reserved with
  | None =>
      existing ← on_store (λ _, get key);
      if match existing with
         | Some r => py_in (dr_status r) [DELIVERY_SENT; DELIVERY_UNKNOWN]
         | None => false
         end
      then mret tt
      else throw already_reserved
  | Some rec =>
      if FAKE_EXTERNALS then on_store (mark_sent key);; mark_summary t
      else
        try_except (try_send who key (dr_attempt_count rec) t)
          (send_failed key)
          (λ _, on_store (mark_sent key);; mark_summary t)
  end.

(** * The specification *)

(** What an activation [who] of the handler, or any other program that uses the store, may
    do.  Marking is not fenced: anyone may mark any delivery. *)
Inductive dstep (who : string) : relation state :=
  | step_reserve a now r store s : reserve a now (ds_store s) = (r, store) →
      dstep who s (s <| ds_store := store |> <| ds_log := (ds_log s ++
          match r with
          | Ok (Some rec) => [Reserved who (rv_delivery_key a) (dr_attempt_count rec)]
          | _ => []
          end)%list |>)
  | step_mark key status error now s :
      dstep who s (s <| ds_store := (set_status key status error now (ds_store s)).2 |>)
  | step_recover now s : dstep who s (s <| ds_store := (recover_stale now (ds_store s)).2 |>)
  | step_sending key n s : Reserved who key n ∈ ds_log s → Sending who key n ∉ ds_log s →
      dstep who s (s <| ds_log := (ds_log s ++ [Sending who key n])%list |>)
  | step_request r s : dstep who s (s <| ds_requests := (ds_requests s ++ [r])%list |>)
  | step_summaries x s : dstep who s (s <| ds_summaries := x |>).

Definition any_step : relation state := λ s s', ∃ who, dstep who s s'.
Definition others_step (who : string) : relation state := λ s s', ∃ who', who' ≠ who ∧ dstep who' s s'.
End handler.
