(* ===== verification/DeliverSpec.v ===== *)
(** What the handler of deliveries promises: a text is sent a bounded number of times, a
    live reservation is exclusive, and every run of [handle_delivery] follows the
    specification of [Deliver.v]. *)

From stdpp Require Import base list strings gmap relations.
From Stdlib Require Import ZArith Lia.
From S2P Require Import Prelude Rely Schema Consistency Dispatch Stages Tasks Delivery.
From S2P Require Import TextChunks Subscriptions Deliver.

Open Scope string_scope.
Open Scope Z_scope.

Section deliveries.
Context `{Platform, Feishu}.
Context {S T : Type} `{DeliveryStore S, !DeliveryLaws S, SummaryStore T}.
#[local] Abbreviation world := (delivery_world S T).
#[local] Abbreviation state := (delivery_sys S T).

(** * Attempts are bounded *)

(** The attempts that the store has counted. *)
Definition attempts (key : string) (s : state) : Z :=
  match find_delivery key (ds_store s) with Some r => dr_attempt_count r | None => 0 end.

Definition attempt_limit : Z := Z.max 1 DELIVERY_MAX_ATTEMPTS.

(** The calls of [send_text] for a delivery. *)
Definition sends_of (key : string) (log : list devent) : list Z :=
  omap (λ e, match e with
             | Sending _ k n => if String.eqb k key then Some n else None
             | Reserved _ _ _ => None
             end) log.

Lemma attempts_same key (s s' : state) f :
  (∀ r, dr_attempt_count (f r) = dr_attempt_count r) →
  find_delivery key (ds_store s') = option_map f (find_delivery key (ds_store s)) →
  attempts key s' = attempts key s.
Proof.
  intros Hf E. unfold attempts. rewrite E.
  destruct (find_delivery key (ds_store s)); [apply Hf|done].
Qed.

Lemma recovered_attempts f now r : dr_attempt_count (recovered f now r) = dr_attempt_count r.
Proof. unfold recovered. by destruct (is_reservation_expired r now). Qed.

Lemma mark_attempts key k st err now (s s' : state) :
  ds_store s' = (set_status key st err now (ds_store s)).2 → attempts k s' = attempts k s.
Proof.
  intros E. destruct (set_status key st err now (ds_store s)) as [r store] eqn:Em. simpl in E.
  apply update_law in Em. destruct r as [u|e].
  - destruct Em as [Hk Hf]. destruct (decide (k = key)) as [->|Hne].
    + eapply (attempts_same _ _ _ (with_status st err (clock_stamp now))); [done|]. by rewrite E.
    + unfold attempts. rewrite E. by rewrite Hf.
  - unfold attempts. by rewrite E, Em.
Qed.

Lemma recover_attempts k now (s s' : state) :
  ds_store s' = (recover_stale now (ds_store s)).2 → attempts k s' = attempts k s.
Proof.
  intros E. destruct (recover_stale now (ds_store s)) as [r store] eqn:Em. simpl in E.
  apply recover_law in Em. destruct r as [n|e].
  - apply (attempts_same _ _ _ (recovered clock_stamp now)); [apply recovered_attempts|]. by rewrite E.
  - unfold attempts. by rewrite E, Em.
Qed.

(** A reservation counts one attempt more, up to the limit. *)
Lemma reserve_attempts a now r store (s s' : state) :
  reserve a now (ds_store s) = (r, store) → ds_store s' = store →
  match r with
  | Ok (Some rec) =>
      dr_attempt_count rec = attempts (rv_delivery_key a) s + 1
      ∧ attempts (rv_delivery_key a) s' = dr_attempt_count rec
      ∧ dr_attempt_count rec <= attempt_limit
      ∧ ∀ k, k ≠ rv_delivery_key a → attempts k s' = attempts k s
  | _ => ∀ k, attempts k s' = attempts k s
  end.
Proof.
  intros E%reserve_law Es. unfold attempts. rewrite Es. destruct r as [[rec|]|e].
  - destruct E as (Hr & [sp Hrec] & Hf & Hframe). rewrite Hf. split_and!; [|done| |].
    + rewrite Hrec. simpl. by destruct (find_delivery _ _).
    + unfold attempt_limit. rewrite Hrec. simpl. unfold refuses in Hr.
      destruct (find_delivery _ _) as [old|]; [|lia]. bools. lia.
    + intros k Hk. by rewrite Hframe.
  - intros k. by rewrite (proj2 E).
  - intros k. by rewrite E.
Qed.

(** A step of the specification reserves, or counts nothing and perhaps sends. *)
Lemma dstep_cases who (s s' : state) :
  dstep who s s' →
  (∃ key, ds_log s' = (ds_log s ++ [Reserved who key (attempts key s')])%list
     ∧ attempts key s' = attempts key s + 1 ∧ attempts key s' <= attempt_limit
     ∧ ∀ k, k ≠ key → attempts k s' = attempts k s)
  ∨ ((∀ k, attempts k s' = attempts k s)
     ∧ (ds_log s' = ds_log s
        ∨ ∃ key n, Reserved who key n ∈ ds_log s ∧ (Sending who key n ∉ ds_log s)
            ∧ ds_log s' = (ds_log s ++ [Sending who key n])%list)).
Proof.
  intros Hs. destruct Hs as [a now r store s E|key st err now s|now s|key n s Hr Hn|q s|x s].
  - pose proof (reserve_attempts a now r store s (s <| ds_store := store |>
      <| ds_log := (ds_log s ++ (match r with
         | Ok (Some rec) => [Reserved who (rv_delivery_key a) (dr_attempt_count rec)]
         | _ => [] end))%list |>) E eq_refl) as Ha.
    destruct r as [[rec|]|e].
    + left. destruct Ha as (H1' & H2' & H3' & H4'). exists (rv_delivery_key a). simpl.
      rewrite H2'. split_and!; [done|lia|done|done].
    + right. split; [done|]. left. simpl. by rewrite app_nil_r.
    + right. split; [done|]. left. simpl. by rewrite app_nil_r.
  - right. split; [|by left]. intros k. by eapply mark_attempts.
  - right. split; [|by left]. intros k. by eapply recover_attempts.
  - right. split; [done|]. right. by exists key, n.
  - right. split; [done|by left].
  - right. split; [done|by left].
Qed.

(** Since the start, at which the store had counted the attempts [from]: each attempt was
    reserved once, and sent at most once, by the activation that reserved it. *)
Record accounted (from : string → Z) (s : state) : Prop := {
  ac_grow : ∀ key, from key <= attempts key s <= Z.max (from key) attempt_limit;
  ac_reserved : ∀ who key n, Reserved who key n ∈ ds_log s → from key < n <= attempts key s;
  ac_once : ∀ who who' key n,
    Reserved who key n ∈ ds_log s → Reserved who' key n ∈ ds_log s → who = who';
  ac_sending : ∀ who key n, Sending who key n ∈ ds_log s → Reserved who key n ∈ ds_log s;
  ac_nodup : ∀ key, NoDup (sends_of key (ds_log s));
}.

Lemma sends_of_app key l e :
  sends_of key (l ++ [e])%list
  = (sends_of key l ++ match e with
                       | Sending _ k n => if String.eqb k key then [n] else []
                       | Reserved _ _ _ => []
                       end)%list.
Proof.
  unfold sends_of. rewrite omap_app. f_equal. destruct e as [| who k n]; [done|]. simpl.
  by destruct (String.eqb k key).
Qed.

Lemma sends_of_elem key n l : n ∈ sends_of key l → ∃ who, Sending who key n ∈ l.
Proof.
  unfold sends_of. intros ([|who k m] & He & Hn)%list_elem_of_omap; [done|].
  destruct (String.eqb_spec k key) as [->|]; [|done]. injection Hn as ->. by exists who.
Qed.

Lemma accounted_start s : ds_log s = [] → accounted (λ key, attempts key s) s.
Proof.
  intros E. split; rewrite ?E.
  - intros key. lia.
  - by intros who key n ?%not_elem_of_nil.
  - by intros who who' key n ?%not_elem_of_nil.
  - by intros who key n ?%not_elem_of_nil.
  - intros key. constructor.
Qed.

Lemma reserve_accounted from who key s s' :
  accounted from s →
  ds_log s' = (ds_log s ++ [Reserved who key (attempts key s')])%list →
  attempts key s' = attempts key s + 1 → attempts key s' <= attempt_limit →
  (∀ k, k ≠ key → attempts k s' = attempts k s) → accounted from s'.
Proof.
  intros [Hg Hr Ho Hs Hn] El Ek Elim Eo. split.
  - intros k. specialize (Hg k). destruct (decide (k = key)) as [->|Hne]; [lia|by rewrite Eo].
  - intros w k n. rewrite El, elem_of_app, list_elem_of_singleton. intros [Hin|[= -> -> ->]].
    + specialize (Hr _ _ _ Hin). destruct (decide (k = key)) as [->|Hne]; [lia|by rewrite Eo].
    + specialize (Hg key). lia.
  - intros w w' k n. rewrite El, !elem_of_app, !list_elem_of_singleton.
    intros [Hin|E] [Hin'|E']; [by eapply Ho| | |congruence].
    + injection E' as -> -> ->. specialize (Hr _ _ _ Hin). lia.
    + injection E as -> -> ->. specialize (Hr _ _ _ Hin'). lia.
  - intros w k n. rewrite El, !elem_of_app, list_elem_of_singleton. intros [Hin|?]; [auto|done].
  - intros k. rewrite El, sends_of_app, app_nil_r. apply Hn.
Qed.

Lemma send_accounted from who key n s s' :
  accounted from s → (∀ k, attempts k s' = attempts k s) →
  Reserved who key n ∈ ds_log s → Sending who key n ∉ ds_log s →
  ds_log s' = (ds_log s ++ [Sending who key n])%list → accounted from s'.
Proof.
  intros [Hg Hr Ho Hs Hn] Ea Hres Hnew El.
  assert (∀ w k m, Reserved w k m ∈ ds_log s' ↔ Reserved w k m ∈ ds_log s) as Hl.
  { intros w k m. rewrite El, elem_of_app, list_elem_of_singleton. split; [by intros [|]|by left]. }
  split.
  - intros k. rewrite Ea. apply Hg.
  - intros w k m. rewrite Hl, Ea. apply Hr.
  - intros w w' k m. rewrite !Hl. apply Ho.
  - intros w k m. rewrite Hl, El, elem_of_app, list_elem_of_singleton. intros [?|[= -> -> ->]]; auto.
  - intros k. rewrite El, sends_of_app. destruct (String.eqb_spec key k) as [<-|]; [|by rewrite app_nil_r].
    apply NoDup_app. split_and!; [done| |apply NoDup_singleton].
    intros m Hm ->%list_elem_of_singleton. apply sends_of_elem in Hm as [w Hw].
    apply Hnew. by rewrite (Ho who w key n Hres (Hs _ _ _ Hw)).
Qed.

Lemma step_accounted from s s' : accounted from s → any_step s s' → accounted from s'.
Proof.
  intros Ha [who [(key & El & Ek & Elim & Eo)|[Ea [El|(key & n & Hr & Hn & El)]]]%dstep_cases].
  - by eapply reserve_accounted.
  - destruct Ha as [Hg Hr Ho Hs Hn]. split; rewrite ?El; [| |done..].
    + intros k. by rewrite Ea.
    + intros w k n. rewrite Ea. apply Hr.
  - by eapply send_accounted.
Qed.

Lemma steps_accounted from s s' : accounted from s → rtc any_step s s' → accounted from s'.
Proof. intros Ha Hs. induction Hs; eauto using step_accounted. Qed.

(** Different integers in a range are no more than its length. *)
Lemma NoDup_range (l : list Z) lo hi :
  NoDup l → lo <= hi → (∀ n, n ∈ l → lo < n <= hi) → Z.of_nat (length l) <= hi - lo.
Proof.
  intros Hn Hle Hin.
  assert (length l <= length (seqZ (lo + 1) (hi - lo)))%nat as Hl.
  { apply submseteq_length, NoDup_submseteq; [done|]. intros n Hl. apply Hin in Hl.
    apply elem_of_seqZ. lia. }
  rewrite length_seqZ in Hl. lia.
Qed.

Lemma sends_counted (s s' : state) key :
  ds_log s = [] → rtc any_step s s' →
  Z.of_nat (length (sends_of key (ds_log s'))) <= attempts key s' - attempts key s
  ∧ attempts key s' <= Z.max (attempts key s) attempt_limit.
Proof.
  intros El Hs. destruct (steps_accounted _ _ _ (accounted_start s El) Hs) as [Hg Hr Ho Hsend Hn].
  split; [|apply Hg]. apply NoDup_range; [done|apply Hg|].
  intros n [w Hw]%sends_of_elem. eapply Hr, Hsend, Hw.
Qed.

(** C21: a text is sent at most [DELIVERY_MAX_ATTEMPTS] times.  However many activations of
    the handler run at once, whoever fails, crashes, marks deliveries or gives stale
    reservations back: [send_text] is called at most once for each reserved attempt, and
    together with the attempts already counted never more often than the limit. *)
Theorem sends_are_bounded (s s' : state) (key : string) :
  ds_log s = [] → rtc any_step s s' → attempts key s <= attempt_limit →
  Z.of_nat (length (sends_of key (ds_log s'))) + attempts key s <= attempt_limit.
Proof. intros El Hs Ha. pose proof (sends_counted s s' key El Hs). lia. Qed.

(** * Reservations are exclusive *)

(** What the programs do before the instant [t], marks of [key] apart. *)
Inductive calm (key : string) (t : Z) : relation S :=
  | calm_reserve a now r s s' : now < t → reserve a now s = (r, s') → calm key t s s'
  | calm_mark k status error now s : k ≠ key →
      calm key t s (set_status k status error now s).2
  | calm_recover now s : now < t → calm key t s (recover_stale now s).2.

(** Sent, in doubt, or reserved with a lease until [t] at least. *)
Definition held (t : Z) (r : delivery_record) : Prop :=
  dr_status r ∈ [DELIVERY_SENT; DELIVERY_UNKNOWN]
  ∨ (dr_status r = DELIVERY_RESERVED ∧ ∃ l, dr_lease_expires_at r = Some l ∧ t <= l).

Lemma held_not_expired t r now : held t r → now < t → is_reservation_expired r now = false.
Proof.
  unfold held, is_reservation_expired. intros [Hs|(Hs & l & -> & Hl)] Hlt; [|bools; right; lia].
  rewrite (proj2 (String.eqb_neq (dr_status r) DELIVERY_RESERVED)); [done|].
  intros E. rewrite E in Hs. by apply elem_of_cons in Hs as [|Hs%list_elem_of_singleton].
Qed.

Lemma held_refuses t r now : held t r → now < t → refuses (Some r) now = true.
Proof.
  intros Hh Hlt. pose proof (held_not_expired _ _ _ Hh Hlt) as He. unfold refuses. rewrite He.
  destruct Hh as [Hs|[Hs _]]; [by rewrite (proj2 (py_in_true _ _) Hs)|]. bools. rewrite Hs. auto.
Qed.

Lemma calm_held key t r s s' : held t r → calm key t s s' →
  find_delivery key s = Some r → find_delivery key s' = Some r.
Proof.
  intros Hh Hc Hf. destruct Hc as [a now x s s' Hlt E%reserve_law|k st err now s Hk|now s Hlt].
  - destruct x as [[rec|]|e]; [|by rewrite (proj2 E)|by rewrite E].
    destruct E as (Hr & _ & _ & Hframe). rewrite Hframe; [done|]. intros ->.
    rewrite Hf, (held_refuses t) in Hr by done. done.
  - destruct (set_status k st err now s) as [x s'] eqn:E. simpl. apply update_law in E.
    destruct x; [|by rewrite E]. by rewrite (proj2 E).
  - destruct (recover_stale now s) as [x s'] eqn:E. simpl. apply recover_law in E.
    destruct x; [|by rewrite E]. rewrite E, Hf. simpl. unfold recovered.
    by rewrite (held_not_expired t).
Qed.

Lemma held_excludes t r key s s' a now x s'' :
  held t r → find_delivery key s = Some r → rtc (calm key t) s s' →
  rv_delivery_key a = key → now < t → reserve a now s' = (x, s'') →
  find_delivery key s' = Some r ∧ ∀ rec, x ≠ Ok (Some rec).
Proof.
  intros Hh Hf Hs <- Hlt E. assert (find_delivery (rv_delivery_key a) s' = Some r) as Hf'.
  { induction Hs as [|s1 s2 s3 Hc _ IH]; [done|]. apply IH; [by eapply calm_held|done]. }
  split; [done|]. intros rec ->. apply reserve_law in E as [Hr _].
  by rewrite Hf', (held_refuses t) in Hr.
Qed.

(** A reservation excludes all others until its lease ends.  Before that, whatever the
    other programs reserve, recover or mark - other than this delivery -, the reservation
    stands, and every further call of [reserve_delivery] for its key is refused. *)
Theorem reservation_is_exclusive (a b : reservation) (t0 now : Z) rec (s s1 s2 s3 : S) x :
  reserve a t0 s = (Ok (Some rec), s1) →
  rtc (calm (rv_delivery_key a)
         (clock_stamp (t0 + seconds DELIVERY_RESERVATION_TTL_SECONDS))) s1 s2 →
  rv_delivery_key b = rv_delivery_key a →
  now < clock_stamp (t0 + seconds DELIVERY_RESERVATION_TTL_SECONDS) →
  reserve b now s2 = (x, s3) →
  find_delivery (rv_delivery_key a) s2 = Some rec ∧ ∀ rec', x ≠ Ok (Some rec').
Proof.
  intros (_ & [sp Hrec] & Hf & _)%reserve_law Hs Hb Hlt E.
  eapply held_excludes; [|exact Hf|exact Hs|exact Hb|exact Hlt|exact E].
  right. rewrite Hrec. simpl. split; [done|]. eexists. split; [done|]. lia.
Qed.

(** A delivery that was sent, or may have been, is never sent again: as long as nobody
    marks it anew, every reservation of it is refused, at any time. *)
Theorem settled_delivery_stays_settled (key : string) (b : reservation) (t now : Z) r (s s1 s2 : S) x :
  find_delivery key s = Some r → dr_status r ∈ [DELIVERY_SENT; DELIVERY_UNKNOWN] →
  rtc (calm key t) s s1 → rv_delivery_key b = key → now < t → reserve b now s1 = (x, s2) →
  find_delivery key s1 = Some r ∧ ∀ rec, x ≠ Ok (Some rec).
Proof.
  intros Hf Hst Hs Hb Hlt E. by eapply held_excludes; [left|..].
Qed.

(** * The handler follows the specification *)

Section activation.
Variable who : string.

#[local] Instance activation_process : Process world state := {|
  shared := dw_sys;
  put_shared := λ s w, w <| dw_sys := s |>;
  others := dw_others;
  next_other := other_handlers;
  spec_step := any_step;
  rely := others_step who;
  reached := λ _, True;
|}.

#[local] Instance activation_laws : ProcessLaws world state.
Proof.
  split; [done|done| | |done].
  - intros w. simpl. unfold other_handlers. destruct (dw_others w) as [|[f now] rest] eqn:E.
    + by exists (dw_now w), w.
    + by eexists now, _.
  - intros s s' (w & _ & Hs). by exists w.
Qed.

Lemma runs_during {A} P (f : Z → state → Prelude.result A * state) (Q : Prelude.result A → state → Prop) :
  stable P → (∀ now s r s', P s → f now s = (r, s') → dstep who s s' ∧ Q r s') →
  runs P (during f) Q.
Proof.
  intros Hst Hf. apply (runs_atomically P f Q Hst). intros now s r s' _ Hp E.
  destruct (Hf now s r s' Hp E) as [Hs HQ]. split; [|done]. apply rtc_once. by exists who.
Qed.

(** The activation has not acted yet; it has a reservation that it has not used. *)
Definition fresh (s : state) : Prop :=
  ∀ key n, (Reserved who key n ∉ ds_log s) ∧ (Sending who key n ∉ ds_log s).
Definition granted (key : string) (n : Z) (s : state) : Prop :=
  Reserved who key n ∈ ds_log s ∧ (Sending who key n ∉ ds_log s).

(** What the others write into the log is theirs. *)
Lemma others_log (s s' : state) e :
  others_step who s s' → match e with Reserved w _ _ | Sending w _ _ => w = who end →
  e ∈ ds_log s' ↔ e ∈ ds_log s.
Proof.
  intros (w & Hne & Hs) He. apply dstep_cases in Hs as [(key & El & _)|[_ [El|(key & n & _ & _ & El)]]];
    rewrite El; [|done|]; rewrite elem_of_app, list_elem_of_singleton; (split; [intros [?| ->]; [done|congruence]|by left]).
Qed.

Lemma fresh_stable : stable fresh.
Proof. intros s s' _ Hs Hf key n. rewrite !(others_log _ _ _ Hs) by done. apply Hf. Qed.
Lemma granted_stable key n : stable (granted key n).
Proof. intros s s' _ Hs Hg. unfold granted. rewrite !(others_log _ _ _ Hs) by done. exact Hg. Qed.

Lemma runs_send_text chat text : runs (λ _, True) (send_text chat text) (λ _ _, True).
Proof.
  unfold send_text. apply runs_for; [|done]. intros acc part _.
  unfold send_text_part. apply (runs_bind _ _ _ (λ _ _, True)).
  - apply runs_during; [apply stable_pure|]. intros now s r s' _ [= <- <-].
    split; [apply step_request|by destruct (create_message _ _)].
  - intros rs. destruct (rs_success rs); [by apply runs_ret|by apply runs_throw].
Qed.

Lemma runs_mark key status error :
  runs (λ _, True) (on_store (set_status key status error)) (λ _ _, True).
Proof.
  apply runs_during; [apply stable_pure|]. intros now s r s' _ E.
  destruct (set_status key status error now (ds_store s)) as [x store] eqn:Em.
  injection E as <- <-. split; [|done].
  replace store with (set_status key status error now (ds_store s)).2 by (by rewrite Em).
  apply step_mark.
Qed.

Lemma runs_mark_summary t : runs (λ _, True) (mark_summary t) (λ _ _, True).
Proof.
  unfold mark_summary. destruct (_ && _); [|by apply runs_ret].
  apply runs_during; [apply stable_pure|]. intros now s r s' _ E.
  destruct (mark_summary_sent _ _ _) as [x y]. injection E as <- <-. split; [apply step_summaries|done].
Qed.

Lemma runs_finish key t : runs (λ _, True) (on_store (mark_sent key);; mark_summary t) (λ _ _, True).
Proof.
  apply (runs_bind _ _ _ (λ _ _, True)); [|intros _; apply runs_mark_summary].
  eapply runs_post; [apply runs_mark|]. by intros [] s.
Qed.

Lemma runs_try_send key n t :
  runs (granted key n) (try_send who key n t) (λ _ _, True).
Proof.
  unfold try_send. do 2 (apply (runs_bind _ _ _ (λ _, granted key n));
    [apply runs_lift; intros s Hs; by destruct (item _ _)|intros ?]).
  apply (runs_bind _ _ _ (λ _ _, True)); [|intros _; apply runs_send_text].
  apply runs_during; [apply granted_stable|]. intros now s r s' [Hr Hn] [= <- <-].
  split; [by apply step_sending|done].
Qed.

Lemma runs_send_failed key exc : runs (λ _, True) (send_failed key exc) (λ _ _, True).
Proof.
  unfold send_failed. destruct exc; try apply runs_mark;
    (apply (runs_bind _ _ _ (λ _ _, True)); [|intros _; by apply runs_throw];
     eapply runs_post; [apply runs_mark|by intros [] s]).
Qed.

(** A reservation gives the permission to send, once. *)
Lemma runs_reserve a :
  runs fresh (reserve_logged who a) (λ r s,
    match r with Ok (Some rec) => granted (rv_delivery_key a) (dr_attempt_count rec) s | _ => True end).
Proof.
  apply runs_during; [apply fresh_stable|]. intros now s r s' Hf E.
  destruct (reserve a now (ds_store s)) as [x store] eqn:Er. injection E as <- <-.
  split; [by eapply step_reserve|]. destruct x as [[rec|]|e]; [|done|done].
  destruct (Hf (rv_delivery_key a) (dr_attempt_count rec)) as [_ Hn].
  split; simpl; rewrite elem_of_app, list_elem_of_singleton; [by right|]. by intros [|].
Qed.

Lemma handle_runs t : runs fresh (handle_delivery who t) (λ _ _, True).
Proof.
  unfold handle_delivery. apply (runs_bind _ _ _ (λ _, fresh)).
  { apply runs_lift. intros s Hs. by destruct (item _ _). }
  intros key. apply (runs_bind _ _ _ (λ o s,
    match o with Some rec => granted key (dr_attempt_count rec) s | None => True end)).
  { eapply runs_post; [apply runs_reserve|]. intros [[rec|]|e] s Hs; exact Hs. }
  intros [rec|].
  - destruct FAKE_EXTERNALS; [by apply (runs_weaken _ _ _ _ _ (λ _ _, I) (runs_finish key t))|].
    apply (runs_try _ _ _ _ (λ _ _, True) (λ _ _, True)).
    + eapply runs_post; [apply runs_try_send|]. by intros [] s.
    + intros exc. apply runs_send_failed.
    + intros u. apply runs_finish.
  - apply (runs_bind _ _ _ (λ _ _, True)).
    + apply runs_during; [apply stable_pure|]. intros now s r s' _ E.
      destruct (get key (ds_store s)) as [x store] eqn:Eg. injection E as <- <-.
      apply get_law in Eg as [-> ->]. split; [|done]. destruct s as [st su rq lg]. simpl.
      apply (step_summaries who su (DeliverySys st su rq lg)).
    + intros o. destruct (match o with Some _ => _ | None => _ end);
        [by apply runs_ret|by apply runs_throw].
Qed.
End activation.

(** C22: every run of [handle_delivery] takes only the steps that the specification allows,
    whatever the other handlers do meanwhile: above all it calls [send_text] only for an
    attempt that it has reserved itself, and once. *)
Theorem handler_follows_specification (who : string) (t : task) (w w' : world) r :
  (∀ key n, (Reserved who key n ∉ ds_log (dw_sys w)) ∧ (Sending who key n ∉ ds_log (dw_sys w))) →
  Forall (λ f, ∀ s, rtc (others_step who) s (f.1 s)) (dw_others w) →
  handle_delivery who t w = (r, w') → rtc any_step (dw_sys w) (dw_sys w').
Proof.
  intros Hf Ho E. refine (proj1 (handle_runs who t w r w' I _ Hf E)).
  eapply Forall_impl; [exact Ho|]. intros f Hs s _. apply Hs.
Qed.

(** * What an undisturbed run does *)

(** The requests that [send_text] makes. *)
Definition parts_of (chat_id text : string) : list request :=
  map (λ part, (chat_id, message_content part)) (text_chunks text MAX_BYTES).

Lemma during_alone {A} (f : Z → state → Prelude.result A * state) w :
  dw_others w = [] →
  during f w = ((f (dw_now w) (dw_sys w)).1, w <| dw_sys := (f (dw_now w) (dw_sys w)).2 |>).
Proof.
  intros E. unfold during, other_handlers, mbind, IO_bind. rewrite E.
  by destruct (f (dw_now w) (dw_sys w)).
Qed.

Lemma on_store_alone {A} (f : Z → S → Prelude.result A * S) (w : world) :
  dw_others w = [] →
  on_store f w = ((f (dw_now w) (ds_store (dw_sys w))).1,
    w <| dw_sys := dw_sys w <| ds_store := (f (dw_now w) (ds_store (dw_sys w))).2 |> |>).
Proof.
  intros E. unfold on_store. rewrite during_alone by done.
  by destruct (f (dw_now w) (ds_store (dw_sys w))).
Qed.

(** An undisturbed program that leaves the store and the summaries alone. *)
Definition only_sends (w w' : world) : Prop :=
  dw_others w' = [] ∧ dw_now w' = dw_now w ∧ ds_store (dw_sys w') = ds_store (dw_sys w)
  ∧ ds_summaries (dw_sys w') = ds_summaries (dw_sys w).

Lemma send_parts chat parts : ∀ (w : world) r w',
  dw_others w = [] → io_for parts tt (λ _ part, send_text_part chat part) w = (r, w') →
  only_sends w w' ∧ ∃ sent rest,
    parts = (sent ++ rest)%list ∧ (r = Ok tt → rest = [])
    ∧ ds_requests (dw_sys w') = (ds_requests (dw_sys w)
        ++ map (λ part, (chat, message_content part)) sent)%list.
Proof.
  induction parts as [|part parts IH]; intros w r w' Ho E; simpl in E.
  - injection E as <- <-. split; [done|]. exists [], []. split_and!; [done|done|]. simpl. by rewrite app_nil_r.
  - unfold mbind at 1, IO_bind in E. unfold send_text_part at 1, mbind at 1, IO_bind in E.
    rewrite during_alone in E by done. simpl in E.
    set (w1 := w <| dw_sys := _ |>) in E.
    assert (∀ r1, (r, w') = (Raise r1, w1) → only_sends w w' ∧ ∃ sent rest,
      part :: parts = (sent ++ rest)%list ∧ (r = Ok tt → rest = [])
      ∧ ds_requests (dw_sys w') = (ds_requests (dw_sys w)
          ++ map (λ part, (chat, message_content part)) sent)%list) as Hfail.
    { intros r1 [= -> ->]. split; [done|]. by exists [part], parts. }
    destruct (create_message _ _) as [rs|e]; [|by apply (Hfail e)].
    destruct (rs_success rs); [|by apply (Hfail (send_error rs))]. simpl in E.
    destruct (IH w1 r w' Ho E) as [(? & ? & ? & ?) (sent & rest & -> & Hr & Hq)].
    split; [done|]. exists (part :: sent), rest. split_and!; [done|done|].
    rewrite Hq. simpl. by rewrite <- app_assoc.
Qed.

Lemma try_send_alone who key n t (w : world) r w' :
  dw_others w = [] → try_send who key n t w = (r, w') →
  only_sends w w' ∧ (r = Ok tt → ∃ chat_id text,
    item "chat_id" (t_payload_json t) = Ok chat_id ∧ item "text" (t_payload_json t) = Ok text
    ∧ ds_requests (dw_sys w') = (ds_requests (dw_sys w) ++ parts_of chat_id text)%list).
Proof.
  intros Ho E. unfold try_send, io_lift, mbind, IO_bind in E.
  destruct (item "chat_id" _) as [chat|e]; [|by injection E as <- <-].
  destruct (item "text" _) as [text|e]; [|by injection E as <- <-].
  unfold log_event in E. rewrite during_alone in E by done. simpl in E.
  apply send_parts in E as [(? & ? & ? & ?) (sent & rest & Hp & Hr & Hq)]; [|done].
  split; [done|]. intros ->. exists chat, text. split_and!; [done|done|].
  rewrite (Hr eq_refl), app_nil_r in Hp. rewrite Hq. unfold parts_of. by rewrite Hp.
Qed.

Lemma mark_summary_alone t (w : world) r w' :
  dw_others w = [] → mark_summary t w = (r, w') →
  ds_store (dw_sys w') = ds_store (dw_sys w) ∧ ds_requests (dw_sys w') = ds_requests (dw_sys w).
Proof.
  intros Ho. unfold mark_summary. destruct (_ && _); [|by intros [= <- <-]].
  rewrite during_alone by done. destruct (mark_summary_sent _ _ _) as [x y]. by intros [= <- <-].
Qed.

(** The requests of a successful sending, or none when the externals are fake. *)
Definition sent_requests (t : task) (q : list request) : Prop :=
  if FAKE_EXTERNALS then q = []
  else ∃ chat_id text, item "chat_id" (t_payload_json t) = Ok chat_id
    ∧ item "text" (t_payload_json t) = Ok text ∧ q = parts_of chat_id text.

Lemma finish_alone key t (w w' : world) :
  dw_others w = [] → is_Some (find_delivery key (ds_store (dw_sys w))) →
  (on_store (mark_sent key);; mark_summary t) w = (Ok tt, w') →
  ds_requests (dw_sys w') = ds_requests (dw_sys w)
  ∧ ∃ r, find_delivery key (ds_store (dw_sys w')) = Some r ∧ dr_status r = DELIVERY_SENT.
Proof.
  intros Ho [r0 Hf] E. unfold mbind, IO_bind in E. rewrite on_store_alone in E by done.
  destruct (mark_sent key (dw_now w) (ds_store (dw_sys w))) as [x store] eqn:Em.
  simpl in E. destruct x as [u|]; [|done]. apply mark_summary_alone in E as [Es Eq]; [|done].
  rewrite Es, Eq. apply update_law in Em as [Em _]. split; [done|]. simpl. rewrite Em, Hf. by eexists.
Qed.

(** The world after [reserve_delivery]. *)
Lemma reserve_alone who a (w : world) :
  dw_others w = [] → ∃ w1,
    reserve_logged who a w = ((reserve a (dw_now w) (ds_store (dw_sys w))).1, w1)
    ∧ dw_others w1 = [] ∧ dw_now w1 = dw_now w
    ∧ ds_store (dw_sys w1) = (reserve a (dw_now w) (ds_store (dw_sys w))).2
    ∧ ds_requests (dw_sys w1) = ds_requests (dw_sys w)
    ∧ ds_summaries (dw_sys w1) = ds_summaries (dw_sys w).
Proof.
  intros Ho. unfold reserve_logged. rewrite during_alone by done.
  destruct (reserve a (dw_now w) (ds_store (dw_sys w))) as [x store]. by eexists.
Qed.

(** [handle_delivery] after a reservation that was refused. *)
Lemma refused_alone who t key (w w' : world) r :
  dw_others w = [] → item "delivery_key" (t_payload_json t) = Ok key →
  (reserve (reservation_of key t) (dw_now w) (ds_store (dw_sys w))).1 = Ok None →
  handle_delivery who t w = (r, w') →
  ds_requests (dw_sys w') = ds_requests (dw_sys w)
  ∧ (∀ k, find_delivery k (ds_store (dw_sys w')) = find_delivery k (ds_store (dw_sys w)))
  ∧ r = match find_delivery key (ds_store (dw_sys w)) with
        | Some rec => if py_in (dr_status rec) [DELIVERY_SENT; DELIVERY_UNKNOWN] then Ok tt
                      else Raise already_reserved
        | None => Raise already_reserved
        end.
Proof.
  intros Ho Hkey Hres E. unfold handle_delivery, io_lift, mbind, IO_bind in E. rewrite Hkey in E.
  destruct (reserve_alone who (reservation_of key t) w Ho) as (w1 & E1 & Ho1 & _ & Es & Eq & _).
  rewrite E1, Hres in E. rewrite on_store_alone in E by done.
  destruct (reserve _ _ _) as [x store] eqn:Er. simpl in Hres, Es. subst x.
  apply reserve_law in Er as [_ Hsame]. simpl in Hsame. rewrite Es in E.
  destruct (get key store) as [y store'] eqn:Eg. apply get_law in Eg as [-> ->].
  simpl in E. rewrite Hsame in E. set (w2 := w1 <| dw_sys := _ |>) in E.
  assert (w' = w2 ∧ r = match find_delivery key (ds_store (dw_sys w)) with
        | Some rec => if py_in (dr_status rec) [DELIVERY_SENT; DELIVERY_UNKNOWN] then Ok tt
                      else Raise already_reserved
        | None => Raise already_reserved
        end) as [-> ->].
  { destruct (find_delivery key _) as [rec|]; [destruct (py_in _ _)|]; by injection E as <- <-. }
  split_and!; [done|exact Hsame|done].
Qed.

(** A delivery that the handler is done with is settled.  When [handle_delivery] returns,
    the delivery was sent or in doubt before and nothing was sent now; or it is marked as sent,
    and all the parts of the text, in their order, have been accepted by the chat; or it is in
    doubt, after a timeout. *)
Theorem handled_delivery_is_settled (who : string) (t : task) (key : string) (w w' : world) :
  dw_others w = [] → item "delivery_key" (t_payload_json t) = Ok key →
  handle_delivery who t w = (Ok tt, w') →
  ∃ r, find_delivery key (ds_store (dw_sys w')) = Some r
  ∧ ((find_delivery key (ds_store (dw_sys w)) = Some r
      ∧ dr_status r ∈ [DELIVERY_SENT; DELIVERY_UNKNOWN]
      ∧ ds_requests (dw_sys w') = ds_requests (dw_sys w))
     ∨ (dr_status r = DELIVERY_SENT ∧ ∃ q, sent_requests t q
        ∧ ds_requests (dw_sys w') = (ds_requests (dw_sys w) ++ q)%list)
     ∨ (dr_status r = DELIVERY_UNKNOWN ∧ dr_error r = Some "TimeoutError")).
Proof.
  intros Ho Hkey E. destruct (reserve (reservation_of key t) (dw_now w) (ds_store (dw_sys w)))
    as [x store] eqn:Er. pose proof (reserve_law _ _ _ _ _ Er) as Hl. destruct x as [[rec|]|e].
  - unfold handle_delivery, io_lift, mbind at 1, IO_bind in E. rewrite Hkey in E. unfold mbind at 1, IO_bind in E.
    destruct (reserve_alone who (reservation_of key t) w Ho) as (w1 & E1 & Ho1 & _ & Es & Eq & _).
    rewrite E1 in E. rewrite Er in E, Es. simpl in E, Es. destruct Hl as (_ & _ & Hf & _). simpl in Hf.
    unfold sent_requests. destruct FAKE_EXTERNALS.
    + apply finish_alone in E as (Hq & r & Hr & Hst); [|done|rewrite Es, Hf; by eexists].
      exists r. split; [done|]. right. left. split; [done|]. exists []. by rewrite app_nil_r, Hq.
    + unfold try_except in E. destruct (try_send _ _ _ _ w1) as [[u|exc] w2] eqn:Et;
        apply try_send_alone in Et as [(Ho2 & _ & Hs2 & _) Hsent]; try done.
      * destruct u. destruct (Hsent eq_refl) as (c & x & Hc & Hx & Hq2).
        apply finish_alone in E as (Hq & r & Hr & Hst); [|done|rewrite Hs2, Es, Hf; by eexists].
        exists r. split; [done|]. right. left. split; [done|]. eexists. split; [by exists c, x|].
        by rewrite Hq, Hq2, Eq.
      * destruct exc; try (unfold send_failed, mbind, IO_bind in E;
          destruct (on_store _ w2) as [[]]; by injection E).
        unfold send_failed in E. rewrite on_store_alone in E by done.
        destruct (mark_unknown _ _ _ _) as [y s3] eqn:Em. simpl in E. injection E as -> <-. simpl.
        apply update_law in Em as [Em _]. rewrite Em, Hs2, Es, Hf. simpl. eexists.
        split; [done|]. right. right. by split.
  - assert ((reserve (reservation_of key t) (dw_now w) (ds_store (dw_sys w))).1 = Ok None) as Hn
      by (by rewrite Er).
    destruct (refused_alone who t key w w' _ Ho Hkey Hn E) as (Hq & Hsame & Hr).
    destruct (find_delivery key (ds_store (dw_sys w))) as [rec|] eqn:Ef; [|done].
    destruct (py_in _ _) eqn:Ep; [|done]. exists rec. rewrite Hsame, Ef. split; [done|]. left.
    apply py_in_true in Ep. done.
  - unfold handle_delivery, io_lift, mbind at 1, IO_bind in E. rewrite Hkey in E. unfold mbind at 1, IO_bind in E.
    destruct (reserve_alone who (reservation_of key t) w Ho) as (w1 & E1 & _).
    rewrite E1, Er in E. done.
Qed.

(** The store answers every call. *)
Definition answers (s : S) : Prop :=
  (∀ a now, is_Ok (reserve a now s).1) ∧ ∀ key status error now, is_Ok (set_status key status error now s).1.

Lemma mark_alone key status error (w : world) rec :
  dw_others w = [] → answers (ds_store (dw_sys w)) →
  find_delivery key (ds_store (dw_sys w)) = Some rec → ∃ w',
    on_store (set_status key status error) w = (Ok tt, w')
    ∧ find_delivery key (ds_store (dw_sys w'))
      = Some (with_status status error (clock_stamp (dw_now w)) rec).
Proof.
  intros Ho [_ Ha] Hf. rewrite on_store_alone by done. specialize (Ha key status error (dw_now w)).
  destruct (set_status key status error _ _) as [[[]|] store] eqn:Em; [|done]. simpl.
  eexists. split; [done|]. simpl. apply update_law in Em as [Em _]. by rewrite Em, Hf.
Qed.

Lemma send_failed_alone key e (w w' : world) rec r :
  dw_others w = [] → answers (ds_store (dw_sys w)) →
  find_delivery key (ds_store (dw_sys w)) = Some rec →
  send_failed key e w = (r, w') →
  ∃ d, find_delivery key (ds_store (dw_sys w')) = Some d
  ∧ dr_attempt_count d = dr_attempt_count rec
  ∧ match e with
    | TimeoutError _ =>
        r = Ok tt ∧ dr_status d = DELIVERY_UNKNOWN ∧ dr_error d = Some "TimeoutError"
    | _ => r = Raise e ∧ dr_status d = DELIVERY_FAILED ∧ dr_error d = Some (describe e)
    end.
Proof.
  intros Ho Ha Hf. unfold send_failed, mark_failed, mark_unknown.
  destruct (mark_alone key DELIVERY_FAILED (Some (describe e)) w rec Ho Ha Hf) as (v & Ev & Hv).
  destruct (mark_alone key DELIVERY_UNKNOWN (Some (exn_type e)) w rec Ho Ha Hf) as (u & Eu & Hu).
  destruct e; unfold mbind, IO_bind; rewrite ?Ev, ?Eu; intros [= <- <-]; eexists;
    (split; [first [exact Hv|exact Hu]|]); by split_and!.
Qed.

(** A failure to send is recorded.  When the text could not be sent, the delivery is
    marked as failed, with the exception, which is raised again, so that the task is retried;
    after a timeout, when the text may have arrived, the delivery is in doubt and the handler
    returns.  Either way the attempt has been counted. *)
Theorem failed_sending_is_recorded (who : string) (t : task) (key : string) rec (w w1 w2 w' : world) e r :
  dw_others w = [] → FAKE_EXTERNALS = false → (∀ s : S, answers s) →
  item "delivery_key" (t_payload_json t) = Ok key →
  reserve_logged who (reservation_of key t) w = (Ok (Some rec), w1) →
  try_send who key (dr_attempt_count rec) t w1 = (Raise e, w2) →
  handle_delivery who t w = (r, w') →
  attempts key (dw_sys w') = attempts key (dw_sys w) + 1
  ∧ ∃ d, find_delivery key (ds_store (dw_sys w')) = Some d
  ∧ match e with
    | TimeoutError _ =>
        r = Ok tt ∧ dr_status d = DELIVERY_UNKNOWN ∧ dr_error d = Some "TimeoutError"
    | _ => r = Raise e ∧ dr_status d = DELIVERY_FAILED ∧ dr_error d = Some (describe e)
    end.
Proof.
  intros Ho Hfake Hans Hkey E1 Et E.
  destruct (reserve_alone who (reservation_of key t) w Ho) as (w3 & E3 & Ho1 & _ & Es & _).
  rewrite E1 in E3. injection E3 as Hres <-.
  destruct (reserve (reservation_of key t) (dw_now w) (ds_store (dw_sys w))) as [x store] eqn:Er.
  simpl in Hres, Es. subst x. destruct (reserve_attempts _ _ _ _ (dw_sys w) (dw_sys w1) Er Es)
    as (Hn & _). apply reserve_law in Er as (_ & _ & Hf & _). simpl in Hf, Hn.
  pose proof (try_send_alone who key _ t w1 _ w2 Ho1 Et) as [(Ho2 & _ & Hs2 & _) _].
  rewrite <- Es, <- Hs2 in Hf.
  unfold handle_delivery, io_lift, mbind at 1, IO_bind in E. rewrite Hkey in E.
  unfold mbind at 1, IO_bind in E. rewrite E1, Hfake in E. unfold try_except in E. rewrite Et in E.
  destruct (send_failed_alone key e w2 w' rec r Ho2 (Hans _) Hf E) as (d & Hd & Hc & Hm).
  split; [unfold attempts at 1; rewrite Hd; lia|by exists d].
Qed.

(** * Deliveries that ran out of attempts *)

(** Activations of the handler at the given times, one after the other. *)
Fixpoint activations (who : string) (t : task) (times : list Z) (s : state) :
    list (Prelude.result unit) * state :=
  match times with
  | [] => ([], s)
  | now :: times =>
      let '(r, w) := handle_delivery who t (DeliveryWorld s [] now) in
      let '(rs, s) := activations who t times (dw_sys w) in (r :: rs, s)
  end.

(** A failed delivery without attempts left is retried for ever.  Nothing more is sent,
    the delivery stays as it is, and every activation of the handler ends in [RetryLater],
    which the worker does not count as a failure: the task never ends, not even in the dead
    letters. *)
Theorem exhausted_delivery_is_retried_for_ever (who : string) (t : task) (key : string) rec
    (times : list Z) : ∀ s : state,
  (∀ s : S, answers s) → item "delivery_key" (t_payload_json t) = Ok key →
  find_delivery key (ds_store s) = Some rec → dr_status rec = DELIVERY_FAILED →
  DELIVERY_MAX_ATTEMPTS <= dr_attempt_count rec →
  let '(rs, s') := activations who t times s in
  rs = map (λ _, Raise already_reserved) times
  ∧ find_delivery key (ds_store s') = Some rec ∧ ds_requests s' = ds_requests s.
Proof.
  intros s Hans Hkey Hf Hst Hmax. revert s Hf.
  induction times as [|now times IH]; intros s Hf; simpl; [done|].
  destruct (handle_delivery who t (DeliveryWorld s [] now)) as [r w] eqn:E.
  assert ((reserve (reservation_of key t) now (ds_store s)).1 = Ok None) as Hres.
  { destruct (Hans (ds_store s)) as [Ha _]. specialize (Ha (reservation_of key t) now).
    destruct (reserve _ _ _) as [[[x|]|] s1] eqn:Er; [|done|done].
    apply reserve_law in Er as [Hr _]. simpl in Hr. rewrite Hf in Hr. unfold refuses in Hr. bools. lia. }
  destruct (refused_alone who t key (DeliveryWorld s [] now) w r eq_refl Hkey Hres E) as (Hq & Hsame & Hr).
  simpl in Hq, Hsame, Hr. rewrite Hf, Hst in Hr. simpl in Hr.
  specialize (IH (dw_sys w)). destruct (activations who t times (dw_sys w)) as [rs s'].
  destruct IH as (-> & Hf' & Hq'); [by rewrite Hsame|]. split_and!; [by rewrite Hr|done|congruence].
Qed.
End deliveries.

(** * Examples *)

Section witnesses.
#[local] Existing Instance test_platform.

Definition delivery_payload (text : string) : payload :=
  empty_payload <| pl_rest := {["delivery_key" := "k"; "chat_id" := "chat"; "text" := text]} |>.
Definition delivery_task (text : string) : task :=
  Task "t" "delivery" "default" "s1" None "delivery:k" "processing" 0 1 0 0 5 (delivery_payload text)
    None 0 None None None None None None 1.

(** A chat that accepts everything, one that refuses, one that times out. *)
Definition accepting : Feishu := Build_Feishu (λ _ _, Ok (Response true 0 "ok" "l")).
Definition refusing : Feishu := Build_Feishu (λ _ _, Ok (Response false 500 "no" "l")).
Definition silent : Feishu := Build_Feishu (λ _ _, Raise (TimeoutError "read")).

#[local] Abbreviation local_world := (delivery_world local_items (gmap string subscription)).
#[local] Abbreviation local_state := (delivery_sys local_items (gmap string subscription)).

Definition start_world (now : Z) : local_world := DeliveryWorld (DeliverySys ∅ ∅ [] []) [] now.
Definition run_delivery (f : Feishu) (w : local_world) : Prelude.result unit * local_world :=
  @handle_delivery _ f _ _ _ _ "h1" (delivery_task "hello") w.
Definition delivered : Prelude.result unit * local_world := run_delivery accepting (start_world 5).

Lemma handler_follows_specification_witness :
  delivered.1 = Ok tt
  ∧ ds_log (dw_sys delivered.2) = [Reserved "h1" "k" 1; Sending "h1" "k" 1]
  ∧ rtc any_step (dw_sys (start_world 5)) (dw_sys delivered.2).
Proof.
  split; [vm_compute; reflexivity|]. split; [vm_compute; reflexivity|].
  apply (@handler_follows_specification _ accepting _ _ _ _ _ "h1" (delivery_task "hello")
    (start_world 5) delivered.2 delivered.1).
  - intros key n. split; apply not_elem_of_nil.
  - constructor.
  - apply surjective_pairing.
Defined.

Lemma handled_delivery_is_settled_witness :
  delivered.1 = Ok tt ∧ ∃ r, find_delivery "k" (ds_store (dw_sys delivered.2)) = Some r
    ∧ (dr_status r = DELIVERY_SENT ∨ dr_status r = DELIVERY_UNKNOWN).
Proof.
  split; [vm_compute; reflexivity|].
  destruct (@handled_delivery_is_settled _ accepting _ _ _ _ _ "h1" (delivery_task "hello") "k"
    (start_world 5) delivered.2) as (r & Hr & [(Hs & _)|[(Hs & _)|(Hs & _)]]).
  - reflexivity.
  - reflexivity.
  - assert (delivered.1 = Ok tt) as <- by (vm_compute; reflexivity). apply surjective_pairing.
  - exists r. split; [exact Hr|]. discriminate Hs.
  - exists r. split; [exact Hr|]. by left.
  - exists r. split; [exact Hr|]. by right.
Defined.

Lemma local_answers (s : local_items) : answers s.
Proof.
  split; intros; simpl.
  - unfold Local.reserve_delivery. by destruct (refuses _ _).
  - unfold Local.update_status. by destruct (_ !! _).
Qed.

(** The world after the reservation, and after the refused request. *)
Definition reserved_world : local_world :=
  (reserve_logged "h1" (reservation_of "k" (delivery_task "hello")) (start_world 5)).2.
Definition first_record : delivery_record :=
  default (DeliveryRecord "" "" "" None "" 0 0 None None 0 None)
    (ds_store (dw_sys reserved_world) !! "k").
Definition refused_world : Prelude.result unit * local_world :=
  @try_send refusing _ _ "h1" "k" 1 (delivery_task "hello") reserved_world.
Definition no_answer : exn :=
  RuntimeError "client.im.v1.message.create failed, code: 500, msg: no, log_id: l".

Lemma failed_sending_is_recorded_witness :
  attempts "k" (dw_sys (run_delivery refusing (start_world 5)).2)
    = attempts "k" (dw_sys (start_world 5)) + 1
  ∧ ∃ d, find_delivery "k" (ds_store (dw_sys (run_delivery refusing (start_world 5)).2)) = Some d
    ∧ (run_delivery refusing (start_world 5)).1 = Raise no_answer
    ∧ dr_status d = DELIVERY_FAILED ∧ dr_error d = Some (describe no_answer).
Proof.
  apply (@failed_sending_is_recorded _ refusing _ _ _ _ _ "h1" (delivery_task "hello") "k" first_record
    (start_world 5) reserved_world refused_world.2 (run_delivery refusing (start_world 5)).2 no_answer
    (run_delivery refusing (start_world 5)).1).
  - reflexivity.
  - reflexivity.
  - apply local_answers.
  - reflexivity.
  - vm_compute. reflexivity.
  - vm_compute. reflexivity.
  - apply surjective_pairing.
Defined.

(** Three failures, and a lifetime of retries. *)
Definition exhausted : local_state :=
  (@activations _ refusing _ _ _ _ "h1" (delivery_task "hello") [5; 6; 7]
     (dw_sys (start_world 0))).2.
Definition exhausted_record : delivery_record :=
  default (DeliveryRecord "" "" "" None "" 0 0 None None 0 None) (ds_store exhausted !! "k").

Lemma exhausted_delivery_is_retried_for_ever_witness :
  let '(rs, s') := @activations _ accepting _ _ _ _ "h1" (delivery_task "hello")
    [seconds 1; seconds 1000000] exhausted in
  rs = [Raise already_reserved; Raise already_reserved]
  ∧ find_delivery "k" (ds_store s') = Some exhausted_record ∧ ds_requests s' = ds_requests exhausted.
Proof.
  apply (@exhausted_delivery_is_retried_for_ever _ accepting _ _ _ _ _ "h1" (delivery_task "hello")
    "k" exhausted_record [seconds 1; seconds 1000000] exhausted).
  - apply local_answers.
  - reflexivity.
  - vm_compute. reflexivity.
  - vm_compute. reflexivity.
  - vm_compute. discriminate.
Defined.

Lemma sends_are_bounded_witness :
  Z.of_nat (length (sends_of "k" (ds_log (dw_sys delivered.2))))
    + attempts "k" (dw_sys (start_world 5)) <= attempt_limit.
Proof.
  apply (@sends_are_bounded _ _ _ _ _ (dw_sys (start_world 5)) (dw_sys delivered.2) "k").
  - reflexivity.
  - apply (@handle_runs _ accepting _ _ _ _ _ "h1" (delivery_task "hello") (start_world 5)
      delivered.1 delivered.2 I).
    + constructor.
    + intros key n. split; apply not_elem_of_nil.
    + apply surjective_pairing.
  - vm_compute. discriminate.
Defined.

Definition demo_reservation : reservation := reservation_of "k" (delivery_task "hello").
Definition reserved_store : local_items := (Local.reserve_delivery demo_reservation 5 ∅).2.

Lemma reservation_is_exclusive_witness :
  find_delivery "k" reserved_store = Some first_record
  ∧ ∀ rec, (Local.reserve_delivery demo_reservation (seconds 599) reserved_store).1 ≠ Ok (Some rec).
Proof.
  apply (@reservation_is_exclusive _ _ _ _ demo_reservation demo_reservation 5 (seconds 599)
    first_record ∅ reserved_store reserved_store
    (Local.reserve_delivery demo_reservation (seconds 599) reserved_store).2).
  - vm_compute. reflexivity.
  - apply rtc_refl.
  - reflexivity.
  - vm_compute. reflexivity.
  - apply surjective_pairing.
Defined.

Definition sent_store : local_items := (Local.update_status "k" DELIVERY_SENT None 6 reserved_store).2.
Definition sent_record : delivery_record := with_status DELIVERY_SENT None 0 first_record.

Lemma settled_delivery_stays_settled_witness :
  find_delivery "k" sent_store = Some sent_record
  ∧ ∀ rec, (Local.reserve_delivery demo_reservation (seconds 9999) sent_store).1 ≠ Ok (Some rec).
Proof.
  apply (@settled_delivery_stays_settled _ _ _ _ "k" demo_reservation (seconds 10000) (seconds 9999)
    sent_record sent_store sent_store
    (Local.reserve_delivery demo_reservation (seconds 9999) sent_store).2).
  - vm_compute. reflexivity.
  - vm_compute. apply list_elem_of_here.
  - apply rtc_refl.
  - reflexivity.
  - vm_compute. reflexivity.
  - apply surjective_pairing.
Defined.
End witnesses.
