(* ===== verification/RedisStore.v ===== *)
(** The Redis commands behind the coordination code: an interface with their documented
    effects, and one concrete store for the examples.

    Time is the clock of the server.  A key holds a value and perhaps the instant at which
    it expires; an expired key is as if it were not there. *)

From stdpp Require Import base list strings gmap pretty.
From Stdlib Require Import ZArith Lia Ascii.
From S2P Require Import Prelude.

Open Scope string_scope.
Open Scope Z_scope.

Inductive rvalue :=
  | RString (v : string)
  | RZset (members : gmap string Z).

Definition entry : Type := rvalue * option Z.

Definition live (now : Z) (e : entry) : bool :=
  match e.2 with None => true | Some deadline => now <? deadline end.
Definition alive (now : Z) (o : option entry) : option entry :=
  match o with Some e => if live now e then Some e else None | None => None end.

(** The members of a sorted set; a missing key is an empty one. *)
Definition members (o : option entry) : gmap string Z :=
  match o with Some (RZset m, _) => m | _ => ∅ end.
Definition deadline (o : option entry) : option Z := match o with Some (_, e) => e | None => None end.

(** The key holds a sorted set, or nothing: other types are an error of the command. *)
Definition zset_key (o : option entry) : Prop :=
  match o with Some (RString _, _) => False | _ => True end.

(** A sorted set that becomes empty is deleted. *)
Definition zset_entry (m : gmap string Z) (e : option Z) : option entry :=
  if decide (m = ∅) then None else Some (RZset m, e).

Definition string_of (o : option entry) : option string :=
  match o with Some (RString v, _) => Some v | _ => None end.

(** The number under a key; a missing key counts as zero. *)
Definition number (o : option entry) : option Z :=
  match o with None => Some 0 | Some (RString v, _) => int_value v | Some _ => None end.

Class RedisStore (R : Type) := {
  entry_at : Z → string → R → option entry;
  set_px : Z → string → string → Z → R → R;
  set_nx_px : Z → string → string → Z → R → bool * R;
  del_key : Z → string → R → R;
  pexpire : Z → string → Z → R → R;
  incrby : Z → string → Z → R → Z * R;
  pttl : Z → string → R → Z;
  zremrangebyscore : Z → string → Z → R → R;
  zadd : Z → string → Z → string → R → R;
  zrem : Z → string → string → R → R;
}.

(** A command changes the entry of its key, and no other. *)
Definition updates {R} `{RedisStore R} (now : Z) (k : string) (e : option entry) (s s' : R) : Prop :=
  ∀ now' j, now <= now' →
    entry_at now' j s' = if decide (j = k) then alive now' e else entry_at now' j s.

Class RedisStoreLaws (R : Type) `{RedisStore R} : Prop := {
  entry_expires : ∀ now now' k s, now <= now' →
    entry_at now' k s = alive now' (entry_at now k s);
  set_px_law : ∀ now k v ttl s, 0 < ttl →
    updates now k (Some (RString v, Some (now + milliseconds ttl))) s (set_px now k v ttl s);
  set_nx_px_law : ∀ now k v ttl s, 0 < ttl →
    match entry_at now k s with
    | Some _ => (set_nx_px now k v ttl s).1 = false
        ∧ updates now k (entry_at now k s) s (set_nx_px now k v ttl s).2
    | None => (set_nx_px now k v ttl s).1 = true
        ∧ updates now k (Some (RString v, Some (now + milliseconds ttl))) s (set_nx_px now k v ttl s).2
    end;
  del_key_law : ∀ now k s, updates now k None s (del_key now k s);
  pexpire_law : ∀ now k ttl s, 0 < ttl →
    updates now k (option_map (λ e, (e.1, Some (now + milliseconds ttl))) (entry_at now k s)) s
      (pexpire now k ttl s);
  incrby_law : ∀ now k d s n, number (entry_at now k s) = Some n →
    (incrby now k d s).1 = n + d
    ∧ updates now k (Some (RString (pretty (n + d)), deadline (entry_at now k s))) s (incrby now k d s).2;
  (** the milliseconds left, up to rounding *)
  pttl_law : ∀ now k s v d, entry_at now k s = Some (v, Some d) →
    d - now - 1000 <= milliseconds (pttl now k s) <= d - now + 1000;
  zremrangebyscore_law : ∀ now k top s, zset_key (entry_at now k s) →
    updates now k (zset_entry (filter (λ m, top < m.2) (members (entry_at now k s)))
      (deadline (entry_at now k s))) s (zremrangebyscore now k top s);
  zadd_law : ∀ now k score member s, zset_key (entry_at now k s) →
    updates now k (Some (RZset (<[member := score]> (members (entry_at now k s))),
      deadline (entry_at now k s))) s (zadd now k score member s);
  zrem_law : ∀ now k member s, zset_key (entry_at now k s) →
    updates now k (zset_entry (delete member (members (entry_at now k s)))
      (deadline (entry_at now k s))) s (zrem now k member s);
}.

(** * A concrete store *)

Module Concrete.
Definition put (k : string) (o : option entry) (s : gmap string entry) : gmap string entry :=
  partial_alter (λ _, o) k s.

#[export] Instance store : RedisStore (gmap string entry) := {|
  entry_at := λ now k s, alive now (s !! k);
  set_px := λ now k v ttl s, put k (Some (RString v, Some (now + milliseconds ttl))) s;
  set_nx_px := λ now k v ttl s,
    match alive now (s !! k) with
    | Some _ => (false, s)
    | None => (true, put k (Some (RString v, Some (now + milliseconds ttl))) s)
    end;
  del_key := λ now k s, put k None s;
  pexpire := λ now k ttl s,
    put k (option_map (λ e, (e.1, Some (now + milliseconds ttl))) (alive now (s !! k))) s;
  incrby := λ now k d s,
    let o := alive now (s !! k) in
    let n := default 0 (number o) + d in
    (n, put k (Some (RString (pretty n), deadline o)) s);
  pttl := λ now k s,
    match alive now (s !! k) with
    | None => -2
    | Some (_, None) => -1
    | Some (_, Some d) => (d - now) / 1000
    end;
  zremrangebyscore := λ now k top s,
    let o := alive now (s !! k) in
    put k (zset_entry (filter (λ m, top < m.2) (members o)) (deadline o)) s;
  zadd := λ now k score member s,
    let o := alive now (s !! k) in
    put k (Some (RZset (<[member := score]> (members o)), deadline o)) s;
  zrem := λ now k member s,
    let o := alive now (s !! k) in
    put k (zset_entry (delete member (members o)) (deadline o)) s;
|}.

Lemma alive_alive now now' o : now <= now' → alive now' (alive now o) = alive now' o.
Proof.
  intros Hle. destruct o as [[v [d|]]|]; [|done|done]. unfold alive at 2, live at 1. simpl.
  destruct (Z.ltb_spec now d); [done|]. unfold alive, live. simpl.
  by rewrite (proj2 (Z.ltb_ge now' d)) by lia.
Qed.

Lemma put_updates now k o s : updates now k o s (put k o s).
Proof.
  intros now' j Hle. simpl. unfold put. destruct (decide (j = k)) as [->|Hne].
  - by rewrite lookup_partial_alter_eq.
  - by rewrite lookup_partial_alter_ne.
Qed.

Lemma same_updates now k s : updates now k (entry_at now k s) s s.
Proof.
  intros now' j Hle. simpl. destruct (decide (j = k)) as [->|Hne]; [|done]. by rewrite alive_alive.
Qed.

#[export] Instance laws : RedisStoreLaws (gmap string entry).
Proof.
  split; try (intros; apply put_updates).
  - intros now now' k s Hle. simpl. by rewrite alive_alive.
  - intros now k v ttl s Ht. simpl. destruct (alive now (s !! k)) eqn:E.
    + split; [done|]. pose proof (same_updates now k s) as Hs. simpl in Hs. by rewrite E in Hs.
    + split; [done|]. apply put_updates.
  - intros now k d s n Hn. simpl in *. rewrite Hn. split; [done|]. apply put_updates.
  - intros now k s v d E. simpl in *. rewrite E. unfold milliseconds.
    pose proof (Z.div_mod (d - now) 1000 ltac:(lia)).
    pose proof (Z.mod_pos_bound (d - now) 1000 ltac:(lia)). lia.
Qed.
End Concrete.
