(* ===== verification/Coordination.v ===== *)
(** Coordination between the processes: the idempotency store
    ([infrastructure/redis_idempotency.py]), the distributed lock
    ([infrastructure/redis_lock.py]) and the rate limiter
    ([infrastructure/redis_rate_limit.py]), in Redis and in the memory of one process.

    Time is in microseconds; one clock serves Redis and the processes. *)

From stdpp Require Import base list strings gmap pretty relations.
From Stdlib Require Import ZArith Lia.
From S2P Require Import Prelude RedisStore.

Open Scope string_scope.
Open Scope Z_scope.

(** [int(seconds * 1000)] of a number of seconds; the time in milliseconds. *)
Definition in_milliseconds (s : Z) : Z := s * 1000.
Definition now_ms (now : Z) : Z := now / 1000.

(** * Idempotency *)

Definition ttl_seconds (n : Z) : Z := Z.max 1 n.
Definition failed_ttl (n : Z) : Z := Z.min (ttl_seconds n) 60.

Module RedisIdempotency.
Section redis.
Context {R : Type} `{RedisStore R}.

(** The Lua script [_BEGIN_LUA]. *)
Definition begin (ttl : Z) (key : string) (now : Z) (s : R) : bool * R :=
  let current := string_of (entry_at now key s) in
  if bool_decide (current = None) || bool_decide (current = Some "failed")
  then (true, set_px now key "processing" (in_milliseconds (ttl_seconds ttl)) s)
  else (false, s).

Definition complete (ttl : Z) (key : string) (now : Z) (s : R) : R :=
  set_px now key "completed" (in_milliseconds (ttl_seconds ttl)) s.
Definition fail (ttl : Z) (key : string) (now : Z) (s : R) : R :=
  set_px now key "failed" (in_milliseconds (failed_ttl ttl)) s.
Definition get (key : string) (now : Z) (s : R) : option string := string_of (entry_at now key s).
End redis.
End RedisIdempotency.

Module LocalIdempotency.
(** [_items] *)
Abbreviation items := (gmap string (string * Z)).

Definition begin (ttl : Z) (key : string) (now : Z) (s : items) : bool * items :=
  if match s !! key with Some (_, expires) => now <? expires | None => false end
  then (false, s)
  else (true, <[key := ("processing", now + seconds (ttl_seconds ttl))]> s).

Definition complete (ttl : Z) (key : string) (now : Z) (s : items) : items :=
  <[key := ("completed", now + seconds (ttl_seconds ttl))]> s.
Definition fail (ttl : Z) (key : string) (now : Z) (s : items) : items :=
  <[key := ("failed", now + seconds (failed_ttl ttl))]> s.

Definition get (key : string) (now : Z) (s : items) : option string * items :=
  match s !! key with
  | Some (status, expires) => if expires <=? now then (None, delete key s) else (Some status, s)
  | None => (None, delete key s)
  end.
End LocalIdempotency.

(** * The distributed lock *)

Section lock.
Context {R : Type} `{RedisStore R}.

(** [RedisDistributedLock] *)
Record distributed_lock := DistributedLock {
  lock_key : string;
  lock_ttl_ms : Z;
  lock_token : string;
  lock_acquired : bool;
}.

(** The constructor clamps the TTL. *)
Definition new_lock (key : string) (ttl_ms : Z) (token : string) : distributed_lock :=
  DistributedLock key (Z.max 100 ttl_ms) token false.

(** Assignment to [self.acquired]. *)
Definition set_acquired (b : bool) (l : distributed_lock) : distributed_lock :=
  DistributedLock (lock_key l) (lock_ttl_ms l) (lock_token l) b.

(** One attempt of [acquire]. *)
Definition try_acquire (l : distributed_lock) (now : Z) (s : R) : bool * R :=
  set_nx_px now (lock_key l) (lock_token l) (lock_ttl_ms l) s.

Definition holds (l : distributed_lock) (now : Z) (s : R) : bool :=
  bool_decide (string_of (entry_at now (lock_key l) s) = Some (lock_token l)).

(** [renew] is the Lua script [_RENEW_LUA]; [release] the script [_RELEASE_LUA], for a lock
    that believes itself acquired. *)
Definition renew (l : distributed_lock) (now : Z) (s : R) : bool * R :=
  if holds l now s then (true, pexpire now (lock_key l) (lock_ttl_ms l) s) else (false, s).
Definition release (l : distributed_lock) (now : Z) (s : R) : bool * (distributed_lock * R) :=
  if negb (lock_acquired l) then (false, (l, s))
  else if holds l now s then (true, (set_acquired false l, del_key now (lock_key l) s))
  else (false, (set_acquired false l, s)).

(** What the holder of the lock shares with the others: Redis and the advisory locks of
    PostgreSQL, by key.  Before each poll the others run; the reading of the clock comes
    with it. *)
Record lock_world := LockWorld {
  lw_redis : R;
  lw_advisory : gset string;
  lw_others : list ((R * gset string → R * gset string) * Z);
  lw_now : Z;
}.

Definition others_run (w : lock_world) : lock_world :=
  match lw_others w with
  | [] => w
  | (f, now) :: rest =>
      let '(s, a) := f (lw_redis w, lw_advisory w) in LockWorld s a rest now
  end.

Definition with_redis (s : R) (w : lock_world) : lock_world :=
  LockWorld s (lw_advisory w) (lw_others w) (lw_now w).

(** The loop of [acquire], for a number of polls. *)
Fixpoint poll (fuel : nat) (until : Z) (l : distributed_lock) (w : lock_world) :
    option bool * lock_world :=
  match fuel with
  | O => (None, w)
  | S fuel =>
      let '(taken, s) := try_acquire l (lw_now w) (lw_redis w) in
      let w := with_redis s w in
      if taken : bool then (Some true, w)
      else if until <=? lw_now w then (Some false, w)
      else poll fuel until l (others_run w)
  end.

Definition acquire (fuel : nat) (wait : Z) (l : distributed_lock) (w : lock_world) :
    option (bool * distributed_lock) * lock_world :=
  let '(b, w) := poll fuel (lw_now w + Z.max 0 wait) l w in
  (option_map (λ taken : bool, (taken, if taken then set_acquired true l else l)) b, w).

(** [SELECT pg_advisory_lock(...)] waits while another connection holds the lock; [None] while
    it is waiting.  The hash of the key is left out: it only makes more keys meet. *)
Definition advisory_lock (key : string) (w : lock_world) : option lock_world :=
  if bool_decide (key ∈ lw_advisory w) then None
  else Some (LockWorld (lw_redis w) ({[key]} ∪ lw_advisory w) (lw_others w) (lw_now w)).

(** [coordinated_lock] up to its [yield], with the Redis backend: the name of the lock that
    protects the block, or an exception; [None] while it waits.  [acquired] is what
    [lock.acquire] returned or raised. *)
Definition coordinated_enter (critical : bool) (key : string) (acquired : result bool)
    (w : lock_world) : option (result string * lock_world) :=
  match acquired with
  | Ok true => Some (Ok "redis", w)
  | Raise e => if critical then option_map (λ w, (Ok "postgres", w)) (advisory_lock key w)
               else Some (Raise e, w)
  | Ok false =>
      if critical then option_map (λ w, (Ok "postgres", w)) (advisory_lock key w)
      else Some (Raise (TimeoutError ("could not acquire Redis lock: " +:+ key)), w)
  end.

Definition coordinated_lock (fuel : nat) (critical : bool) (key : string) (ttl_ms wait : Z)
    (token : string) (w : lock_world) : option (result string * lock_world) :=
  let l := new_lock key ttl_ms token in
  match acquire fuel wait l w with
  | (Some (b, _), w) => coordinated_enter critical key (Ok b) w
  | (None, _) => None
  end.
End lock.

(** * Rate limits *)

Record limit_result := LimitResult {
  lr_allowed : bool;
  lr_current : Z;
  lr_retry_after_ms : Z;
}.

Definition at_least_1 (n : Z) : Z := Z.max 1 n.

Section limiter.
Context {R : Type} `{RedisStore R}.

(** [RedisRateLimiter.allow], with the Lua script [_FIXED_WINDOW_LUA]. *)
Definition allow (key : string) (limit window_seconds cost : Z) (now : Z) (s : R) : limit_result * R :=
  let cost := at_least_1 cost in
  let window_ms := at_least_1 (in_milliseconds window_seconds) in
  let limit := at_least_1 limit in
  let '(value, s) := incrby now key cost s in
  let s := if value =? cost then pexpire now key window_ms s else s in
  let ttl := pttl now key s in
  (LimitResult (value <=? limit) value (Z.max 0 ttl), s).

(** [RedisRateLimiter.acquire_slot], with the Lua script [_ACQUIRE_SLOT_LUA]. *)
Definition acquire_slot (key : string) (limit ttl_seconds : Z) (token : string) (now : Z) (s : R) :
    option string * R :=
  let ttl_ms := at_least_1 (in_milliseconds ttl_seconds) in
  let expires_ms := now_ms now + ttl_ms in
  let s := zremrangebyscore now key (now_ms now) s in
  if at_least_1 limit <=? Z.of_nat (size (members (entry_at now key s))) then (None, s)
  else
    let s := zadd now key expires_ms token s in
    (Some token, pexpire now key ttl_ms s).

Definition release_slot (key token : string) (now : Z) (s : R) : R := zrem now key token s.
End limiter.

Module LocalLimiter.
(** [_windows] and [_slots] *)
Record limiter := Limiter {
  windows : gmap string (Z * Z);
  slots : gmap string (gmap string Z);
}.

Definition allow (key : string) (limit window_seconds cost : Z) (now : Z) (s : limiter) :
    limit_result * limiter :=
  let fresh := (now + seconds window_seconds, 0) in
  let '(expires, current) := default fresh (windows s !! key) in
  let '(expires, current) := if expires <=? now then fresh else (expires, current) in
  let current := current + at_least_1 cost in
  (LimitResult (current <=? limit) current (Z.max 0 ((expires - now) / 1000)),
   Limiter (<[key := (expires, current)]> (windows s)) (slots s)).

Definition acquire_slot (key : string) (limit ttl_seconds : Z) (token : string) (now : Z) (s : limiter) :
    option string * limiter :=
  let mine := filter (λ slot, now < slot.2) (default ∅ (slots s !! key)) in
  if limit <=? Z.of_nat (size mine) then (None, Limiter (windows s) (<[key := mine]> (slots s)))
  else (Some token,
        Limiter (windows s) (<[key := <[token := now + seconds ttl_seconds]> mine]> (slots s))).

Definition release_slot (key token : string) (s : limiter) : limiter :=
  match slots s !! key with
  | Some mine => Limiter (windows s) (<[key := delete token mine]> (slots s))
  | None => s
  end.
End LocalLimiter.

(** What the coordination between the processes promises, and where it does not: a key that
    was begun is not begun again, a lock excludes other locks while its lease lasts, the limits
    are limits - and [coordinated_lock] on a critical path does not exclude. *)

Section coordination.
Context {R : Type} `{RedisStore R, !RedisStoreLaws R}.

(** A string under [key], other than those that [free] names, until [until] at least. *)
Definition occupied (key : string) (value : string → Prop) (until now : Z) (s : R) : Prop :=
  ∃ v d, entry_at now key s = Some (RString v, Some d) ∧ value v ∧ until <= d.

Lemma occupied_later key value until now now' s :
  now <= now' < until → occupied key value until now s → occupied key value until now' s.
Proof.
  intros Ht (v & d & E & Hv & Hd). exists v, d. split; [|done].
  rewrite (entry_expires now now') by lia. rewrite E. unfold alive, live. simpl.
  by rewrite (proj2 (Z.ltb_lt now' d)) by lia.
Qed.

(** Writing another key, or the key itself with a value that counts and lasts. *)
Lemma occupied_updates key value until now k e s s' :
  updates now k e s s' → now < until →
  (k = key → ∃ v d, e = Some (RString v, Some d) ∧ value v ∧ until <= d) →
  occupied key value until now s → occupied key value until now s'.
Proof.
  intros Hu Hlt Hk (v & d & E & Hv & Hd). unfold occupied. rewrite (Hu now key) by lia.
  destruct (decide (key = k)) as [->|]; [|by exists v, d].
  destruct (Hk eq_refl) as (v' & d' & -> & Hv' & Hd'). exists v', d'. split; [|done].
  unfold alive, live. simpl. by rewrite (proj2 (Z.ltb_lt now d')) by lia.
Qed.

(** * Idempotency *)

(** What anyone does in Redis before [until], failures of [key] apart; the first component
    is the clock. *)
Inductive idempotency_step (ttl : Z) (key : string) (until : Z) : relation (Z * R) :=
  | ids_begin k last now s : last <= now < until →
      idempotency_step ttl key until (last, s) (now, (RedisIdempotency.begin ttl k now s).2)
  | ids_complete k last now s : last <= now < until →
      idempotency_step ttl key until (last, s) (now, RedisIdempotency.complete ttl k now s)
  | ids_fail k last now s : last <= now < until → k ≠ key →
      idempotency_step ttl key until (last, s) (now, RedisIdempotency.fail ttl k now s).

Definition not_failed (v : string) : Prop := v ≠ "failed".

Lemma ttl_positive ttl : 0 < in_milliseconds (ttl_seconds ttl).
Proof. unfold in_milliseconds, ttl_seconds. lia. Qed.
Lemma failed_ttl_positive ttl : 0 < in_milliseconds (failed_ttl ttl).
Proof. unfold in_milliseconds, failed_ttl, ttl_seconds. lia. Qed.

Lemma idempotency_occupied ttl key until t0 (p p' : Z * R) :
  until <= t0 + seconds (ttl_seconds ttl) → t0 <= p.1 < until →
  idempotency_step ttl key until p p' →
  occupied key not_failed until p.1 p.2 → t0 <= p'.1 < until ∧ occupied key not_failed until p'.1 p'.2.
Proof.
  intros Hu Ht Hs Ho. destruct Hs as [k last now s Hn|k last now s Hn|k last now s Hn Hk];
    simpl in *; (split; [lia|]); apply (occupied_later _ _ _ _ now) in Ho; try lia.
  - unfold RedisIdempotency.begin. destruct (_ || _) eqn:Eb; [|done]. simpl.
    eapply occupied_updates; [apply set_px_law, ttl_positive|lia| |done].
    intros ->. destruct Ho as (v & d & E & Hv & _). rewrite E in Eb. simpl in Eb. bools.
    by injection Eb as ->.
  - unfold RedisIdempotency.complete.
    eapply occupied_updates; [apply set_px_law, ttl_positive|lia| |done].
    intros ->. eexists _, _. split; [done|]. split; [done|]. unfold in_milliseconds, milliseconds, seconds in *. lia.
  - unfold RedisIdempotency.fail.
    by eapply occupied_updates; [apply set_px_law, failed_ttl_positive|lia| |done].
Qed.

Lemma idempotency_steps_occupied ttl key until t0 (p p' : Z * R) :
  until <= t0 + seconds (ttl_seconds ttl) → rtc (idempotency_step ttl key until) p p' →
  t0 <= p.1 < until → occupied key not_failed until p.1 p.2 →
  t0 <= p'.1 < until ∧ occupied key not_failed until p'.1 p'.2.
Proof.
  intros Hu Hs. induction Hs as [p|p1 p2 p3 Hstep _ IH]; [done|]. intros Ht Ho.
  destruct (idempotency_occupied ttl key until t0 p1 p2 Hu Ht Hstep Ho). by apply IH.
Qed.

(** at most once: when [begin] has accepted a key, every further [begin] for it is refused
    until the TTL has passed, whatever is begun, completed or, for other keys, failed. *)
Theorem begun_key_is_refused (ttl : Z) (key : string) (t0 t1 t : Z) (s s1 s2 : R) :
  RedisIdempotency.begin ttl key t0 s = (true, s1) →
  rtc (idempotency_step ttl key (t0 + seconds (ttl_seconds ttl))) (t0, s1) (t1, s2) →
  t1 <= t < t0 + seconds (ttl_seconds ttl) →
  RedisIdempotency.begin ttl key t s2 = (false, s2).
Proof.
  intros Eb Hs Ht. set (until := t0 + seconds (ttl_seconds ttl)) in *.
  assert (t0 < until) as Hlt by (subst until; unfold seconds, ttl_seconds; lia).
  assert (occupied key not_failed until t0 s1) as H1'.
  { unfold RedisIdempotency.begin in Eb. destruct (_ || _); [|done]. injection Eb as <-.
    unfold occupied. rewrite (set_px_law _ _ _ _ _ (ttl_positive ttl) t0) by lia.
    rewrite decide_True by done. eexists _, _. unfold alive, live. simpl.
    rewrite (proj2 (Z.ltb_lt _ _)); [split; [done|split; [done|]]|];
      unfold until, in_milliseconds, milliseconds, seconds, ttl_seconds in *; lia. }
  destruct (idempotency_steps_occupied ttl key until t0 _ _ (Z.le_refl _) Hs) as [Ht1 Ho];
    [simpl; lia|done|]. simpl in Ht1, Ho.
  apply (occupied_later _ _ _ _ t) in Ho as (v & d & E & Hv & Hd); [|lia].
  unfold RedisIdempotency.begin. rewrite E. simpl.
  rewrite bool_decide_eq_false_2; [done|]. by intros [= ->].
Qed.

(** * The distributed lock *)

(** What the holders of other tokens do before [until]. *)
Inductive lock_step (mine : distributed_lock) (until : Z) : relation (Z * R) :=
  | ls_acquire l last now s : last <= now < until → 0 < lock_ttl_ms l →
      lock_token l ≠ lock_token mine →
      lock_step mine until (last, s) (now, (try_acquire l now s).2)
  | ls_renew l last now s : last <= now < until → 0 < lock_ttl_ms l →
      lock_token l ≠ lock_token mine →
      lock_step mine until (last, s) (now, (renew l now s).2)
  | ls_release l last now s : last <= now < until → lock_token l ≠ lock_token mine →
      lock_step mine until (last, s) (now, (release l now s).2.2).

Definition held_until (mine : distributed_lock) (until now : Z) (s : R) : Prop :=
  occupied (lock_key mine) (λ v, v = lock_token mine) until now s.

Lemma held_holds mine until now s : held_until mine until now s → holds mine now s = true.
Proof.
  intros (v & d & E & -> & _). unfold holds. rewrite E. by apply bool_decide_eq_true_2.
Qed.

(** The others find the key taken, and not by them. *)
Lemma taken_refuses mine until now s l :
  held_until mine until now s → 0 < lock_ttl_ms l → lock_key l = lock_key mine →
  lock_token l ≠ lock_token mine →
  (try_acquire l now s).1 = false ∧ holds l now s = false.
Proof.
  intros (v & d & E & -> & _) Httl Hk Ht. unfold try_acquire, holds. rewrite Hk. split.
  - pose proof (set_nx_px_law now (lock_key mine) (lock_token l) (lock_ttl_ms l) s Httl) as Hl.
    rewrite E in Hl. apply Hl.
  - rewrite E. apply bool_decide_eq_false_2. simpl. congruence.
Qed.

(** A refused [SET NX] changes nothing, an accepted one only its key. *)
Lemma try_acquire_updates l now s : 0 < lock_ttl_ms l → ∃ e,
  updates now (lock_key l) e s (try_acquire l now s).2
  ∧ ((try_acquire l now s).1 = false → e = entry_at now (lock_key l) s)
  ∧ ((try_acquire l now s).1 = true →
      e = Some (RString (lock_token l), Some (now + milliseconds (lock_ttl_ms l)))).
Proof.
  intros Httl. pose proof (set_nx_px_law now (lock_key l) (lock_token l) (lock_ttl_ms l) s Httl) as Hl.
  unfold try_acquire. destruct (entry_at now (lock_key l) s) as [e|] eqn:E; destruct Hl as [Hb Hu];
    rewrite Hb; eexists; split_and!; [exact Hu|..]; done.
Qed.

Lemma lock_step_held mine until (p p' : Z * R) :
  p.1 < until → lock_step mine until p p' → held_until mine until p.1 p.2 →
  p'.1 < until ∧ held_until mine until p'.1 p'.2.
Proof.
  intros Hlt Hs Ho. unfold held_until in *.
  destruct Hs as [l last now s Hn Httl Ht|l last now s Hn Httl Ht|l last now s Hn Ht];
    simpl in *; (split; [lia|]); apply (occupied_later _ _ _ _ now) in Ho; try lia.
  - destruct (try_acquire_updates l now s Httl) as (e & Hu & Hf & _).
    eapply occupied_updates; [exact Hu|lia| |exact Ho]. intros Hk.
    destruct (taken_refuses mine until now s l Ho Httl Hk Ht) as [Hb _]. rewrite (Hf Hb), Hk.
    destruct Ho as (v & d & E & Hv & Hd). by exists v, d.
  - unfold renew. destruct (holds l now s) eqn:Eh; [|done]. simpl.
    eapply occupied_updates; [by apply pexpire_law|lia| |exact Ho]. intros Hk.
    destruct (taken_refuses mine until now s l Ho Httl Hk Ht) as [_ Hb]. by rewrite Eh in Hb.
  - unfold release. destruct (lock_acquired l), (holds l now s) eqn:Eh; try done. simpl.
    eapply occupied_updates; [apply del_key_law|lia| |exact Ho]. intros Hk.
    destruct Ho as (v & d & E & -> & Hd). unfold holds in Eh. rewrite Hk, E in Eh.
    apply bool_decide_eq_true in Eh. simpl in Eh; congruence.
Qed.

Lemma lock_steps_held mine until (p p' : Z * R) :
  rtc (lock_step mine until) p p' → p.1 < until → held_until mine until p.1 p.2 →
  p'.1 < until ∧ held_until mine until p'.1 p'.2.
Proof.
  intros Hs. induction Hs as [p|p1 p2 p3 Hstep _ IH]; [done|]. intros Ht Ho.
  destruct (lock_step_held mine until p1 p2 Ht Hstep Ho). by apply IH.
Qed.

(** Taking or renewing the lock starts a lease. *)
Lemma lease_starts mine now s s' :
  0 < lock_ttl_ms mine → (try_acquire mine now s = (true, s') ∨ renew mine now s = (true, s')) →
  held_until mine (now + milliseconds (lock_ttl_ms mine)) now s'.
Proof.
  intros Httl Hs. exists (lock_token mine), (now + milliseconds (lock_ttl_ms mine)).
  assert (updates now (lock_key mine) (Some (RString (lock_token mine),
    Some (now + milliseconds (lock_ttl_ms mine)))) s s') as Hu.
  { destruct Hs as [Hs|Hs].
    - destruct (try_acquire_updates mine now s Httl) as (e & Hu & _ & Ht). rewrite Hs in Hu, Ht.
      by rewrite <- (Ht eq_refl).
    - unfold renew in Hs. destruct (holds mine now s) eqn:Eh; [|done]. injection Hs as <-.
      unfold holds in Eh. apply bool_decide_eq_true in Eh.
      pose proof (pexpire_law now (lock_key mine) (lock_ttl_ms mine) s Httl) as Hu.
      destruct (entry_at now (lock_key mine) s) as [[[v|m] d]|]; [|done|done]. by injection Eh as ->. }
  split; [|done]. rewrite (Hu now) by lia. rewrite decide_True by done. unfold alive, live. simpl.
  rewrite (proj2 (Z.ltb_lt _ _)); [done|]. unfold milliseconds. lia.
Qed.

(** C24: mutual exclusion: once a process has acquired or renewed the lock, then until its
    lease ends, whatever the holders of other tokens try, nobody else acquires the lock, and
    nobody else renews or releases it; it stays with its holder. *)
Theorem lock_is_exclusive (mine l : distributed_lock) (t0 t1 t : Z) (s s1 s2 : R) :
  0 < lock_ttl_ms mine → 0 < lock_ttl_ms l →
  (try_acquire mine t0 s = (true, s1) ∨ renew mine t0 s = (true, s1)) →
  rtc (lock_step mine (t0 + milliseconds (lock_ttl_ms mine))) (t0, s1) (t1, s2) →
  t1 <= t < t0 + milliseconds (lock_ttl_ms mine) →
  lock_key l = lock_key mine → lock_token l ≠ lock_token mine →
  holds mine t s2 = true
  ∧ (try_acquire l t s2).1 = false ∧ (renew l t s2).1 = false ∧ (release l t s2).1 = false.
Proof.
  intros Httl Hl Hstart Hs Ht Hk Htok. apply lease_starts in Hstart; [|done].
  assert (t0 < t0 + milliseconds (lock_ttl_ms mine)) as Hlt by (unfold milliseconds; lia).
  destruct (lock_steps_held mine _ _ _ Hs Hlt Hstart) as [_ Ho]. simpl in Ho.
  apply (occupied_later _ _ _ _ t) in Ho; [|lia].
  destruct (taken_refuses mine _ t s2 l Ho Hl Hk Htok) as [Ha Hh].
  unfold renew, release. rewrite Hh. split_and!; [by eapply held_holds|done|done|].
  by destruct (lock_acquired l).
Qed.

(** * Waiting for the lock *)

(** The clock goes on by a poll interval at least, each time the process sleeps. *)
Fixpoint ticks (last : Z) (l : list ((R * gset string → R * gset string) * Z)) : Prop :=
  match l with
  | [] => True
  | (_, now) :: l => last + milliseconds 50 <= now ∧ ticks now l
  end.

Lemma poll_ends fuel : ∀ stop l w,
  (fuel <= length (lw_others w))%nat → ticks (lw_now w) (lw_others w) →
  stop <= lw_now w + milliseconds 50 * Z.of_nat fuel →
  ∃ b w', poll (S fuel) stop l w = (Some b, w').
Proof.
  induction fuel as [|fuel IH]; intros stop l w Hlen Ht Hu; simpl;
    destruct (try_acquire l (lw_now w) (lw_redis w)) as [taken s];
    (destruct taken; [by do 2 eexists|]); unfold with_redis; simpl.
  - rewrite (proj2 (Z.leb_le stop (lw_now w))) by lia. by do 2 eexists.
  - destruct (stop <=? lw_now w); [by do 2 eexists|].
    apply IH; unfold others_run; simpl; destruct (lw_others w) as [|[f now] rest]; simpl in *; try lia;
      destruct Ht as [Ht Hts]; destruct (f _); simpl; [lia|done|].
    unfold milliseconds in *. lia.
Qed.

(** [acquire] returns: the loop polls every 50 milliseconds, and at the latest when the
    waiting time is over it gives up. *)
Theorem acquire_terminates (wait : Z) (l : distributed_lock) (w : lock_world) (n : nat) :
  wait <= milliseconds 50 * Z.of_nat n → (n <= length (lw_others w))%nat →
  ticks (lw_now w) (lw_others w) →
  ∃ b l' w', acquire (S n) wait l w = (Some (b, l'), w').
Proof.
  intros Hw Hn Ht. unfold acquire.
  destruct (poll_ends n (lw_now w + Z.max 0 wait) l w Hn Ht) as (b & w' & ->).
  - unfold milliseconds in *. lia.
  - by do 3 eexists.
Qed.

(** * A critical section that is not exclusive *)

(** The others do nothing, and the clock stays before [stop]. *)
Definition idle_before (stop : Z) (l : list ((R * gset string → R * gset string) * Z)) : Prop :=
  Forall (λ o, (∀ p, o.1 p = p) ∧ o.2 < stop) l.

Lemma poll_refused mine lease l : 0 < lock_ttl_ms l → lock_key l = lock_key mine →
  lock_token l ≠ lock_token mine → ∀ fuel stop w b w',
  held_until mine lease (lw_now w) (lw_redis w) → lw_now w < lease →
  idle_before lease (lw_others w) → ticks (lw_now w) (lw_others w) →
  poll fuel stop l w = (Some b, w') →
  b = false ∧ held_until mine lease (lw_now w') (lw_redis w') ∧ lw_now w' < lease
  ∧ lw_advisory w' = lw_advisory w.
Proof.
  intros Httl Hk Htok fuel. induction fuel as [|fuel IH]; intros stop w b w' Hh Hlt Hi Ht E; [done|].
  simpl in E. destruct (taken_refuses mine lease (lw_now w) (lw_redis w) l Hh Httl Hk Htok) as [Hb _].
  assert (held_until mine lease (lw_now w) (try_acquire l (lw_now w) (lw_redis w)).2) as Hh'.
  { apply (lock_step_held mine lease (lw_now w, lw_redis w) (lw_now w, _)); [done| |done].
    constructor; [lia|done|done]. }
  destruct (try_acquire l (lw_now w) (lw_redis w)) as [taken s]. simpl in Hb, Hh'. subst taken.
  unfold with_redis in E. simpl in E. destruct (stop <=? lw_now w); [by injection E as <- <-|].
  destruct (lw_others w) as [|[f now] rest] eqn:Eo; unfold others_run in E; simpl in E.
  - apply IH in E; simpl in *; [done|done|done|by constructor|done].
  - apply Forall_cons in Hi as [[Hf Hn] Hi]. destruct Ht as [Ht Hts]. simpl in Hf, Hn.
    rewrite Hf in E. apply IH in E; simpl in *; [done| |done|done|done].
    eapply occupied_later; [|exact Hh']. unfold milliseconds in Ht. lia.
Qed.

(** A lock on a critical path does not exclude.  When the holder of the Redis lock is
    still at work as the waiting time ends, [coordinated_lock] lets the next one in under the
    advisory lock of PostgreSQL, which the holder does not have: two processes are in the
    critical section at once, each under a lock of its own. *)
Theorem critical_lock_does_not_exclude (mine : distributed_lock) (key token : string)
    (ttl_ms wait lease : Z) (n : nat) (w : lock_world) :
  lock_key mine = key → token ≠ lock_token mine →
  held_until mine lease (lw_now w) (lw_redis w) → lw_now w < lease →
  wait <= milliseconds 50 * Z.of_nat n → (n <= length (lw_others w))%nat →
  ticks (lw_now w) (lw_others w) → idle_before lease (lw_others w) → (key ∉ lw_advisory w) →
  ∃ w', coordinated_lock (S n) true key ttl_ms wait token w = Some (Ok "postgres", w')
  ∧ holds mine (lw_now w') (lw_redis w') = true ∧ key ∈ lw_advisory w'.
Proof.
  intros <- Htok Hh Hlt Hw Hn Ht Hi Ha. set (l := new_lock (lock_key mine) ttl_ms token).
  destruct (poll_ends n (lw_now w + Z.max 0 wait) l w Hn Ht) as (b & w' & E).
  { unfold milliseconds in *. lia. }
  destruct (poll_refused mine lease l ltac:(simpl; lia) eq_refl Htok _ _ _ _ _ Hh Hlt Hi Ht E)
    as (-> & Hh' & _ & Hadv).
  unfold coordinated_lock, acquire. fold l. rewrite E. simpl. unfold advisory_lock.
  rewrite Hadv, bool_decide_eq_false_2 by done. simpl. eexists. split; [done|]. simpl.
  split; [by eapply held_holds|]. by apply elem_of_union_l, elem_of_singleton_2.
Qed.

(** * Slots *)

(** The slots of one key as the callers know them: a slot is theirs from the moment it is
    granted until they release it or it expires. *)
Inductive slot_step (key : string) (limit ttl : Z) : relation (Z * R * gmap string Z) :=
  | ss_acquire token last now s held : last <= now → held !! token = None →
      let r := acquire_slot key limit ttl token now s in
      slot_step key limit ttl (last, s, held)
        (now, r.2, match r.1 with
                   | Some t => <[t := now_ms now + at_least_1 (in_milliseconds ttl)]> held
                   | None => held
                   end)
  | ss_release token last now s held : last <= now →
      slot_step key limit ttl (last, s, held) (now, release_slot key token now s, delete token held).

(** The live slots of the callers at an instant. *)
Definition live_slots (now : Z) (held : gmap string Z) : gmap string Z :=
  filter (λ slot, now_ms now < slot.2) held.

Record slots_ok (key : string) (limit ttl : Z) (p : Z * R * gmap string Z) : Prop := {
  so_type : zset_key (entry_at p.1.1 key p.1.2);
  so_limit : Z.of_nat (size (members (entry_at p.1.1 key p.1.2))) <= at_least_1 limit;
  so_kept : ∀ token e, p.2 !! token = Some e → now_ms p.1.1 < e →
    members (entry_at p.1.1 key p.1.2) !! token = Some e;
  so_deadline : ∀ token e, p.2 !! token = Some e → now_ms p.1.1 < e →
    ∃ d, deadline (entry_at p.1.1 key p.1.2) = Some d ∧ e * 1000 <= d;
  so_recent : ∀ token e, p.2 !! token = Some e →
    e <= now_ms p.1.1 + at_least_1 (in_milliseconds ttl);
}.

Lemma alive_zset now o : zset_key o → zset_key (alive now o).
Proof. destruct o as [[[] [d|]]|]; simpl; try done. by destruct (live _ _). Qed.

Lemma alive_members now o : members (alive now o) = members o ∨ members (alive now o) = ∅.
Proof. destruct o as [e|]; simpl; [|by right]. destruct (live now e); [by left|by right]. Qed.

Lemma now_ms_le a b : a <= b → now_ms a <= now_ms b.
Proof. intros. unfold now_ms. by apply Z.div_le_mono. Qed.

(** A slot that is live now keeps its key alive. *)
Lemma slot_alive now d e : now_ms now < e → e * 1000 <= d → now < d.
Proof.
  unfold now_ms. intros He Hd. pose proof (Z.div_mod now 1000 ltac:(lia)).
  pose proof (Z.mod_pos_bound now 1000 ltac:(lia)). lia.
Qed.

Lemma slots_later key limit ttl last now s held : last <= now →
  slots_ok key limit ttl (last, s, held) → slots_ok key limit ttl (now, s, held).
Proof.
  intros Hle [Ht Hl Hk Hd Hr]. simpl in *. pose proof (now_ms_le _ _ Hle) as Hms.
  assert (∀ token e, held !! token = Some e → now_ms now < e →
    entry_at now key s = entry_at last key s) as Hsame.
  { intros token e Hh He. destruct (Hd token e Hh) as (d & Ed & Hde); [lia|].
    rewrite (entry_expires last now) by done. destruct (entry_at last key s) as [[v x]|]; [|done].
    simpl in Ed. subst x. unfold alive, live. simpl.
    by rewrite (proj2 (Z.ltb_lt now d) (slot_alive now d e He Hde)). }
  split; simpl.
  - rewrite (entry_expires last now) by done. by apply alive_zset.
  - rewrite (entry_expires last now) by done.
    destruct (alive_members now (entry_at last key s)) as [->| ->]; [done|]. rewrite map_size_empty.
    unfold at_least_1. lia.
  - intros token e Hh He. rewrite (Hsame _ _ Hh He). apply Hk; [done|lia].
  - intros token e Hh He. rewrite (Hsame _ _ Hh He). apply (Hd token); [done|lia].
  - intros token e Hh. specialize (Hr token e Hh). lia.
Qed.

Lemma updates_here now k e s s' : updates now k e s s' → entry_at now k s' = alive now e.
Proof. intros Hu. rewrite (Hu now k) by lia. by rewrite decide_True. Qed.

Lemma alive_zset_entry now m d : (∀ x, d = Some x → now < x) →
  alive now (zset_entry m d) = zset_entry m d.
Proof.
  intros Hd. unfold zset_entry. destruct (decide (m = ∅)); [done|]. unfold alive, live. simpl.
  destruct d as [x|]; [|done]. by rewrite (proj2 (Z.ltb_lt now x)) by (by apply Hd).
Qed.

Lemma entry_future now k s x : deadline (entry_at now k s) = Some x → now < x.
Proof.
  intros Hd. rewrite (entry_expires now now) in Hd by lia.
  destruct (entry_at now k s) as [[v d]|]; [|done]. unfold alive, live in Hd. simpl in Hd.
  destruct d as [y|]; [|done]. destruct (Z.ltb_spec now y); [|done]. by injection Hd as <-.
Qed.

Lemma members_zset_entry m d : members (zset_entry m d) = m.
Proof. unfold zset_entry. by destruct (decide (m = ∅)) as [->|]. Qed.

Lemma deadline_zset_entry m d x y : m !! x = Some y → deadline (zset_entry m d) = d.
Proof. intros Hm. unfold zset_entry. destruct (decide (m = ∅)) as [->|]; done. Qed.

Lemma zset_entry_type m d : zset_key (zset_entry m d).
Proof. unfold zset_entry. by destruct (decide (m = ∅)). Qed.

(** A command that keeps, of the members, those that are live and still held. *)
Lemma slots_shrink key limit ttl now s s' held held' m :
  slots_ok key limit ttl (now, s, held) →
  entry_at now key s' = zset_entry m (deadline (entry_at now key s)) →
  (size m <= size (members (entry_at now key s)))%nat →
  (∀ token e, held' !! token = Some e → held !! token = Some e) →
  (∀ token e, held' !! token = Some e → now_ms now < e →
     members (entry_at now key s) !! token = Some e → m !! token = Some e) →
  slots_ok key limit ttl (now, s', held').
Proof.
  intros [Ht Hl Hk Hd Hr] E Hsize Hsub Hkeep. simpl in *. split; simpl; rewrite ?E, ?members_zset_entry.
  - apply zset_entry_type.
  - lia.
  - intros token e Hh He. apply Hkeep; [done|done|]. apply Hk; [by apply Hsub|done].
  - intros token e Hh He. erewrite deadline_zset_entry by (apply Hkeep; [done|done|]; apply Hk; [by apply Hsub|done]).
    apply (Hd token); [by apply Hsub|done].
  - intros token e Hh. by apply (Hr token), Hsub.
Qed.

Lemma purge_slots key limit ttl now s held :
  slots_ok key limit ttl (now, s, held) →
  let s' := zremrangebyscore now key (now_ms now) s in
  entry_at now key s' = zset_entry (filter (λ m, now_ms now < m.2) (members (entry_at now key s)))
    (deadline (entry_at now key s))
  ∧ slots_ok key limit ttl (now, s', held).
Proof.
  intros Hok s'. assert (entry_at now key s'
    = zset_entry (filter (λ m, now_ms now < m.2) (members (entry_at now key s)))
      (deadline (entry_at now key s))) as E.
  { unfold s'. rewrite (updates_here _ _ _ _ _ (zremrangebyscore_law now key (now_ms now) s (so_type _ _ _ _ Hok))).
    apply alive_zset_entry. intros x. apply entry_future. }
  split; [done|]. eapply slots_shrink; [exact Hok|exact E|apply map_size_filter|done|].
  intros token e Hh He Hm. by apply map_lookup_filter_Some.
Qed.

Lemma slot_step_ok key limit ttl p p' :
  slots_ok key limit ttl p → slot_step key limit ttl p p' → slots_ok key limit ttl p'.
Proof.
  intros Hok Hs. destruct Hs as [token last now s held Hle Hnew r|token last now s held Hle];
    apply (slots_later _ _ _ _ now) in Hok; try done.
  - subst r. unfold acquire_slot. destruct (purge_slots _ _ _ _ _ _ Hok) as [E Hok'].
    set (s' := zremrangebyscore now key (now_ms now) s) in *.
    destruct (Z.leb_spec (at_least_1 limit) (Z.of_nat (size (members (entry_at now key s'))))) as [|Hlt]; [done|].
    set (T := at_least_1 (in_milliseconds ttl)). assert (0 < T) as HT by (subst T; unfold at_least_1; lia).
    set (m := members (entry_at now key s')) in *.
    assert (entry_at now key (pexpire now key T (zadd now key (now_ms now + T) token s'))
      = Some (RZset (<[token := now_ms now + T]> m), Some (now + milliseconds T))) as E2.
    { rewrite (updates_here _ _ _ _ _ (pexpire_law now key T _ HT)).
      rewrite (updates_here _ _ _ _ _ (zadd_law now key (now_ms now + T) token s' (so_type _ _ _ _ Hok'))).
      fold m. assert (live now (RZset (<[token:=now_ms now + T]> m), deadline (entry_at now key s')) = true) as Hlive.
      { unfold live. simpl. destruct (deadline (entry_at now key s')) as [x|] eqn:Ex; [|done].
        apply Z.ltb_lt. by eapply entry_future. }
      unfold alive at 2. rewrite Hlive. simpl. unfold alive, live. simpl.
      rewrite (proj2 (Z.ltb_lt _ _)); [done|]. unfold milliseconds. lia. }
    destruct Hok' as [Ht Hl Hk Hd Hr]. simpl in Ht, Hl, Hk, Hd, Hr. fold m in Hk.
    split; cbn [fst snd]; rewrite ?E2; cbn [members deadline zset_key].
    + done.
    + rewrite map_size_insert. destruct (m !! token); simpl; lia.
    + intros t e [[-> ->]|[Hne Hh]]%lookup_insert_Some He.
      * apply lookup_insert_eq.
      * rewrite lookup_insert_ne by done. by apply Hk.
    + intros t e Hh He. eexists. split; [done|]. unfold milliseconds.
      assert (e <= now_ms now + T) as HeT.
      { apply lookup_insert_Some in Hh as [[_ <-]|[Hne Hh]]; [lia|]. by apply (Hr t). }
      unfold now_ms in *. pose proof (Z.div_mod now 1000 ltac:(lia)).
      pose proof (Z.mod_pos_bound now 1000 ltac:(lia)). lia.
    + intros t e [[_ <-]|[Hne Hh]]%lookup_insert_Some; [lia|]. by apply (Hr t).
  - unfold release_slot.
    assert (entry_at now key (zrem now key token s)
      = zset_entry (delete token (members (entry_at now key s))) (deadline (entry_at now key s))) as E.
    { rewrite (updates_here _ _ _ _ _ (zrem_law now key token s (so_type _ _ _ _ Hok))).
      apply alive_zset_entry. intros x. apply entry_future. }
    eapply slots_shrink; [exact Hok|exact E|apply map_subseteq_size, delete_subseteq| |].
    + intros t e [_ Hh]%lookup_delete_Some. done.
    + intros t e [Hne _]%lookup_delete_Some _ Hm. by apply lookup_delete_Some.
Qed.

(** Never more slots than the limit: however the callers acquire and release the slots of
    a key, at no instant do more than [limit] of them hold one that they have not released
    and that has not expired. *)
Theorem live_slots_are_bounded (key : string) (limit ttl t0 t : Z) (s s' : R) (held : gmap string Z) :
  entry_at t0 key s = None → rtc (slot_step key limit ttl) (t0, s, ∅) (t, s', held) →
  Z.of_nat (size (live_slots t held)) <= at_least_1 limit.
Proof.
  intros Hnone Hs. assert (slots_ok key limit ttl (t, s', held)) as [_ Hl Hk _ _].
  { assert (slots_ok key limit ttl (t0, s, ∅)) as H0.
    { split; simpl; rewrite ?Hnone; [done|simpl; rewrite map_size_empty; unfold at_least_1; lia|..];
        by intros ? ? ?%lookup_empty_Some. }
    clear Hnone. induction Hs as [|p1 p2 p3 Hstep _ IH]; [done|]. apply IH. by eapply slot_step_ok. }
  simpl in *. etrans; [|exact Hl]. apply Nat2Z.inj_le. apply map_subseteq_size.
  apply map_subseteq_spec. intros token e [Hh He]%map_lookup_filter_Some. by apply Hk.
Qed.

(** * Fixed windows *)

(** Calls of [allow] for one key, at the given times and costs: the cost of those that were
    allowed. *)
Fixpoint allowed_cost (key : string) (limit window : Z) (calls : list (Z * Z)) (s : R) : Z :=
  match calls with
  | [] => 0
  | (now, cost) :: calls =>
      let '(r, s) := allow key limit window cost now s in
      (if lr_allowed r then at_least_1 cost else 0) + allowed_cost key limit window calls s
  end.

(** The calls come in order, and before [stop]. *)
Fixpoint in_order (last stop : Z) (calls : list (Z * Z)) : Prop :=
  match calls with
  | [] => True
  | (now, _) :: calls => last <= now < stop ∧ in_order now stop calls
  end.

(** The counter of an open window. *)
Definition counted (key : string) (v stop now : Z) (s : R) : Prop :=
  entry_at now key s = Some (RString (pretty v), Some stop).

Lemma counted_later key v stop now now' s :
  now <= now' < stop → counted key v stop now s → counted key v stop now' s.
Proof.
  intros Ht E. unfold counted in *. rewrite (entry_expires now now'), E by lia.
  unfold alive, live. simpl. by rewrite (proj2 (Z.ltb_lt now' stop)) by lia.
Qed.

Lemma clamped n : 0 < at_least_1 n.
Proof. unfold at_least_1. lia. Qed.

Lemma allow_counted key limit window cost now v stop s r s' :
  0 < v → now < stop → counted key v stop now s → allow key limit window cost now s = (r, s') →
  counted key (v + at_least_1 cost) stop now s'
  ∧ lr_allowed r = (v + at_least_1 cost <=? at_least_1 limit).
Proof.
  intros Hv Hlt E. unfold allow.
  assert (number (entry_at now key s) = Some v) as Hn.
  { rewrite E. apply int_value_pretty. }
  destruct (incrby_law now key (at_least_1 cost) s v Hn) as [Hr Hu].
  destruct (incrby now key (at_least_1 cost) s) as [value s1]. simpl in Hr, Hu. subst value.
  rewrite (proj2 (Z.eqb_neq _ _)) by lia. intros [= <- <-]. split; [|done].
  unfold counted. rewrite (updates_here _ _ _ _ _ Hu), E. unfold alive, live. simpl.
  by rewrite (proj2 (Z.ltb_lt now stop)).
Qed.

Lemma open_window_bounded key limit window calls : ∀ last v stop granted s,
  0 < v → counted key v stop last s → in_order last stop calls →
  granted <= v → granted <= at_least_1 limit →
  granted + allowed_cost key limit window calls s <= at_least_1 limit.
Proof.
  induction calls as [|[now cost] calls IH]; intros last v stop granted s Hv Hc Hin Hgv Hgl; simpl; [lia|].
  destruct Hin as [Ht Hin]. destruct (allow key limit window cost now s) as [r s'] eqn:E.
  destruct (allow_counted key limit window cost now v stop s r s') as [Hc' Hr];
    [done|lia|by eapply counted_later|done|].
  assert (0 < at_least_1 cost) as Hcost by apply clamped.
  rewrite Hr. destruct (Z.leb_spec (v + at_least_1 cost) (at_least_1 limit)) as [Hle|Hgt].
  - rewrite Z.add_assoc. eapply IH; [|exact Hc'|exact Hin|lia|lia]. lia.
  - apply (IH now (v + at_least_1 cost) stop); [lia|done|done|lia|done].
Qed.

(** Within one window the requests that the limiter allows cost no more than the limit,
    however many come and whatever they cost. *)
Theorem window_is_bounded (key : string) (limit window t0 cost : Z) (calls : list (Z * Z)) (s : R) :
  entry_at t0 key s = None →
  in_order t0 (t0 + milliseconds (at_least_1 (in_milliseconds window))) calls →
  allowed_cost key limit window ((t0, cost) :: calls) s <= at_least_1 limit.
Proof.
  intros Hnone Hin. set (stop := t0 + milliseconds (at_least_1 (in_milliseconds window))) in *.
  assert (t0 < stop) as Hlt by (subst stop; unfold milliseconds, at_least_1; lia).
  simpl. destruct (allow key limit window cost t0 s) as [r s'] eqn:E. unfold allow in E.
  assert (0 < at_least_1 cost) as Hcost by apply clamped.
  destruct (incrby_law t0 key (at_least_1 cost) s 0) as [Hr Hu]; [by rewrite Hnone|].
  destruct (incrby t0 key (at_least_1 cost) s) as [value s1]. simpl in Hr, Hu.
  rewrite Z.add_0_l in Hr, Hu. subst value.
  rewrite Z.eqb_refl in E. injection E as <- <-. simpl.
  set (s2 := pexpire t0 key _ s1). assert (counted key (at_least_1 cost) stop t0 s2) as Hc.
  { unfold counted, s2. rewrite (updates_here _ _ _ _ _ (pexpire_law t0 key _ s1 (clamped _))),
      (updates_here _ _ _ _ _ Hu), Hnone. simpl.
    fold stop. unfold alive, live. cbn [snd]. by rewrite (proj2 (Z.ltb_lt t0 stop)). }
  destruct (Z.leb_spec (at_least_1 cost) (at_least_1 limit)) as [Hle|Hgt].
  - by apply (open_window_bounded key limit window calls t0 (at_least_1 cost) stop).
  - apply (open_window_bounded key limit window calls t0 (at_least_1 cost) stop 0); [done|done|done|lia|].
    apply Z.lt_le_incl, clamped.
Qed.
End coordination.

(** * The theorems at concrete inputs *)

Import Concrete.

Definition empty_redis : gmap string entry := ∅.
Definition lock_a : distributed_lock := new_lock "lock:digest:7" 5000 "a".
Definition lock_b : distributed_lock := set_acquired true (new_lock "lock:digest:7" 5000 "b").

Definition idempotency_example (p : bool * gmap string entry) : Prop :=
  RedisIdempotency.begin 60 "task:1" 3000 (RedisIdempotency.complete 60 "task:1" 2000 p.2)
  = (false, RedisIdempotency.complete 60 "task:1" 2000 p.2).

Lemma begun_key_is_refused_witness :
  idempotency_example (RedisIdempotency.begin 60 "task:1" 1000 empty_redis).
Proof.
  apply (begun_key_is_refused 60 "task:1" 1000 2000 3000 empty_redis
    (RedisIdempotency.begin 60 "task:1" 1000 empty_redis).2); [done| |vm_compute; split; done].
  apply rtc_once. by apply (ids_complete 60 "task:1").
Defined.

Lemma lock_is_exclusive_witness :
  let s := (try_acquire lock_b 1000 (try_acquire lock_a 0 empty_redis).2).2 in
  holds lock_a 4000000 s = true
  ∧ (try_acquire lock_b 4000000 s).1 = false ∧ (renew lock_b 4000000 s).1 = false
  ∧ (release lock_b 4000000 s).1 = false.
Proof.
  apply (lock_is_exclusive lock_a lock_b 0 1000 4000000 empty_redis
    (try_acquire lock_a 0 empty_redis).2); [done|done|by left| |split; done|done|done].
  apply rtc_once. by apply (ls_acquire lock_a).
Defined.

(** A process that polls twice before it gives up. *)
Definition waiting_world : @lock_world (gmap string entry) :=
  LockWorld (try_acquire lock_a 0 empty_redis).2 ∅ [(λ p, p, 60000); (λ p, p, 120000)] 0.

Lemma acquire_terminates_witness :
  ∃ b l' w', acquire 3 (milliseconds 100) lock_b waiting_world = (Some (b, l'), w').
Proof. apply (acquire_terminates (milliseconds 100) lock_b waiting_world 2); vm_compute; by repeat split. Defined.

Lemma critical_lock_does_not_exclude_witness :
  ∃ w', coordinated_lock 3 true "lock:digest:7" 5000 (milliseconds 100) "b" waiting_world
          = Some (Ok "postgres", w')
  ∧ holds lock_a (lw_now w') (lw_redis w') = true ∧ "lock:digest:7" ∈ lw_advisory w'.
Proof.
  apply (critical_lock_does_not_exclude lock_a "lock:digest:7" "b" 5000 (milliseconds 100) 5000000 2
    waiting_world).
  - reflexivity.
  - discriminate.
  - exists "a", 5000000. split; [by vm_compute|]. split; [reflexivity|]. by vm_compute.
  - reflexivity.
  - by vm_compute.
  - simpl. lia.
  - vm_compute. by repeat split.
  - repeat constructor.
  - apply not_elem_of_empty.
Defined.

Definition one_slot : gmap string Z := {["t1" := now_ms 1000 + at_least_1 (in_milliseconds 30)]}.

Lemma live_slots_are_bounded_witness :
  Z.of_nat (size (live_slots 1000 one_slot)) <= at_least_1 1.
Proof.
  apply (live_slots_are_bounded "slots:chat" 1 30 0 1000 empty_redis
    (acquire_slot "slots:chat" 1 30 "t1" 1000 empty_redis).2); [done|].
  apply rtc_once.
  pose proof (ss_acquire "slots:chat" 1 30 "t1" 0 1000 empty_redis ∅ ltac:(lia) eq_refl) as Hs.
  replace one_slot with (match (acquire_slot "slots:chat" 1 30 "t1" 1000 empty_redis).1 with
    | Some t => <[t := now_ms 1000 + at_least_1 (in_milliseconds 30)]> ∅
    | None => (∅ : gmap string Z)
    end); [exact Hs|by vm_compute].
Defined.

Lemma window_is_bounded_witness :
  allowed_cost "rate:chat" 2 60 [(0, 1); (1000, 1); (2000, 1)] empty_redis <= at_least_1 2.
Proof.
  apply (window_is_bounded "rate:chat" 2 60 0 1 [(1000, 1); (2000, 1)] empty_redis); [done|].
  vm_compute. by repeat split.
Defined.
