(* ===== verification/Caches.v ===== *)
(** The caches and sessions in Redis: [RedisCache], [EmbeddingCache] and
    [invalidate_space_cache] of [infrastructure/redis_cache.py], [RedisSessionStore] of
    [infrastructure/redis_session.py], over the commands of [RedisStore] and the keys of
    [RedisKeys].

    The JSON library is a parameter: [json_kept] is what of a value it reads back.  An exception of
    the connection is the business of the callers. *)

From stdpp Require Import base list strings gmap pretty.
From Stdlib Require Import ZArith Lia.
From S2P Require Import Prelude RedisStore Coordination RedisKeys.
Import Keys.

Open Scope string_scope.
Open Scope Z_scope.

(** [json.dumps(value, ensure_ascii=False, default=str)] and [json.loads(raw)] *)
Class JsonValue (V : Type) := {
  value_dumps : V → string;
  value_loads : string → option V;
  json_kept : V → V;
}.
Class JsonValueLaws (V : Type) `{JsonValue V} : Prop := {
  loads_value : ∀ v, value_loads (value_dumps v) = Some (json_kept v);
  dumps_value : ∀ v, value_dumps v ≠ "";
}.

(** The reply of Redis to a command on a key of another type, and what [json.loads] raises *)
Definition wrong_type : exn := OtherError "ResponseError" "WRONGTYPE Operation against a key holding the wrong kind of value".
Definition not_json : exn := OtherError "JSONDecodeError" "Expecting value".

Section redis.
Context {R : Type} `{RedisStore R}.

(** [client.get], [client.set(..., ex=...)] and [client.incr] *)
Definition redis_get (key : string) (now : Z) (s : R) : result (option string) :=
  match entry_at now key s with
  | None => Ok None
  | Some (RString v, _) => Ok (Some v)
  | Some (RZset _, _) => Raise wrong_type
  end.
Definition redis_set_ex (key value : string) (ttl_seconds now : Z) (s : R) : R :=
  set_px now key value (in_milliseconds ttl_seconds) s.
Definition redis_incr (key : string) (now : Z) (s : R) : result Z * R :=
  match number (entry_at now key s) with
  | Some _ => let '(n, s) := incrby now key 1 s in (Ok n, s)
  | None => (Raise (OtherError "ResponseError" "value is not an integer or out of range"), s)
  end.

Section caches.
Context `{Platform} {V : Type} `{JsonValue V}.
(** [RedisKeys(env)] and [self.enabled] *)
Variable env : string.
Variable enabled : bool.

(** ** [RedisCache] *)

Definition version (tenant_id space_id : string) (now : Z) (s : R) : result Z :=
  if negb enabled then Ok 0
  else value ← redis_get (cache_version env tenant_id space_id) now s;
       match value with
       | None => Ok 0
       | Some v => if String.eqb v "" then Ok 0
                   else match int_value v with
                        | Some n => Ok n
                        | None => Raise (ValueError "invalid literal for int() with base 10")
                        end
       end.

Definition bump_version (tenant_id space_id : string) (now : Z) (s : R) : result Z * R :=
  if negb enabled then (Ok 0, s) else redis_incr (cache_version env tenant_id space_id) now s.

Definition cached (raw : option string) : result (option V) :=
  match raw with
  | None => Ok None
  | Some raw => if String.eqb raw "" then Ok None
                else match value_loads raw with Some v => Ok (Some v) | None => Raise not_json end
  end.

Definition cache_get (kind space_id query_payload tenant_id : string) (now : Z) (s : R) : result (option V) :=
  if negb enabled then Ok None
  else n ← version tenant_id space_id now s;
       raw ← redis_get (cache_search env tenant_id kind space_id n query_payload) now s;
       cached raw.

Definition cache_set (kind space_id query_payload : string) (value : V) (ttl_seconds : Z) (tenant_id : string)
    (now : Z) (s : R) : result unit * R :=
  if negb enabled then (Ok tt, s)
  else match version tenant_id space_id now s with
       | Ok n => (Ok tt, redis_set_ex (cache_search env tenant_id kind space_id n query_payload)
                           (value_dumps value) (at_least_1 ttl_seconds) now s)
       | Raise e => (Raise e, s)
       end.

(** [invalidate_space_cache]: an exception is swallowed. *)
Definition invalidate_space_cache (backend space_id tenant_id : string) (now : Z) (s : R) : R :=
  if negb (String.eqb backend "redis") || negb enabled then s
  else (bump_version tenant_id space_id now s).2.

(** ** [RedisSessionStore] *)

Definition session_ttl (ttl_seconds : Z) : Z := at_least_1 ttl_seconds.
Definition session_get (tenant_id user_id : string) (now : Z) (s : R) : result (option V) :=
  raw ← redis_get (session env tenant_id user_id) now s; cached raw.
Definition session_set (ttl_seconds : Z) (tenant_id user_id : string) (value : V) (now : Z) (s : R) : R :=
  redis_set_ex (session env tenant_id user_id) (value_dumps value) (session_ttl ttl_seconds) now s.
Definition session_delete (tenant_id user_id : string) (now : Z) (s : R) : R :=
  del_key now (session env tenant_id user_id) s.
Definition session_touch (ttl_seconds : Z) (tenant_id user_id : string) (now : Z) (s : R) : R :=
  pexpire now (session env tenant_id user_id) (in_milliseconds (session_ttl ttl_seconds)) s.
End caches.

(** ** [EmbeddingCache] *)

Section embeddings.
Context `{Platform} {F : Type}.
(** [json.dumps] of a list of numbers; [json.loads] with [float] on every item of a list, where [None]
    stands for a text that is not JSON, not a list, or whose items are no numbers *)
Variable numbers_dumps : list F → string.
Variable numbers_loads : string → option (list F).
Variable env : string.
Variable enabled : bool.

Definition embedding_get (model text : string) (now : Z) (s : R) : result (option (list F)) :=
  if negb enabled then Ok None
  else raw ← redis_get (cache_embedding env model text) now s;
       match raw with
       | None => Ok None
       | Some raw => if String.eqb raw "" then Ok None
                     else match numbers_loads raw with
                          | Some (x :: l) => Ok (Some (x :: l))
                          | _ => Ok None
                          end
       end.
Definition embedding_set (model text : string) (embedding : list F) (ttl_seconds now : Z) (s : R) : R :=
  if negb enabled then s
  else redis_set_ex (cache_embedding env model text) (numbers_dumps embedding) (at_least_1 ttl_seconds) now s.
End embeddings.
End redis.

(** * The cache of a space is a table that an invalidation empties *)

(** What a name keeps of a call: absent arguments are unknown, and texts are their digests. *)
Definition space_of `{Platform} (tenant_id space_id : string) : string * string := (known tenant_id, known space_id).
Definition call_of `{Platform} (kind query_payload : string) : string * string := (known kind, hash query_payload).

(** The specification: for each space and call the value and the moment at which it expires. *)
Definition table (V : Type) : Type := string * string → string * string → option (V * Z).
Definition fresh {V} (now : Z) (o : option (V * Z)) : option V :=
  match o with Some (v, d) => if now <? d then Some v else None | None => None end.
Definition store {V} (sp call : string * string) (x : V * Z) (a : table V) : table V :=
  λ sp' call', if decide (sp' = sp ∧ call' = call) then Some x else a sp' call'.
Definition empty_space {V} (sp : string * string) (a : table V) : table V :=
  λ sp' call', if decide (sp' = sp) then None else a sp' call'.

Inductive cache_op (V R : Type) :=
  | Get (kind space_id query_payload tenant_id : string)
  | Set_ (kind space_id query_payload : string) (value : V) (ttl_seconds : Z) (tenant_id : string)
  | Invalidate (space_id tenant_id : string)
  (** what the other clients of Redis do meanwhile *)
  | Others (f : R → R).
Arguments Get {V R}. Arguments Set_ {V R}. Arguments Invalidate {V R}. Arguments Others {V R}.

Section refinement.
Context `{Platform, !HexDigests} {R : Type} `{RedisStore R, !RedisStoreLaws R} {V : Type} `{JsonValue V, !JsonValueLaws V}.
Variable env : string.

Definition run_op (o : cache_op V R) (now : Z) (s : R) : result (option V) * R :=
  match o with
  | Get kind space_id q t => (cache_get env true kind space_id q t now s, s)
  | Set_ kind space_id q v ttl t =>
      let '(r, s) := cache_set env true kind space_id q v ttl t now s in (u ← r; Ok None, s)
  | Invalidate space_id t => let '(r, s) := bump_version env true t space_id now s in (n ← r; Ok None, s)
  | Others f => (Ok None, f s)
  end.
Definition spec_op (o : cache_op V R) (now : Z) (a : table V) : option V * table V :=
  match o with
  | Get kind space_id q t => (json_kept <$> fresh now (a (space_of t space_id) (call_of kind q)), a)
  | Set_ kind space_id q v ttl t =>
      (None, store (space_of t space_id) (call_of kind q) (v, now + milliseconds (in_milliseconds (at_least_1 ttl))) a)
  | Invalidate space_id t => (None, empty_space (space_of t space_id) a)
  | Others _ => (None, a)
  end.

(** The others leave the keys of the cache alone. *)
Definition leaves_cache (o : cache_op V R) : Prop :=
  match o with
  | Others f => ∀ now s t sp, entry_at now (cache_version env t sp) (f s) = entry_at now (cache_version env t sp) s
      ∧ ∀ k n q, entry_at now (cache_search env t k sp n q) (f s) = entry_at now (cache_search env t k sp n q) s
  | _ => True
  end.

Fixpoint run_ops (ops : list (cache_op V R * Z)) (s : R) : list (result (option V)) * R :=
  match ops with
  | [] => ([], s)
  | (o, now) :: ops => let '(r, s) := run_op o now s in let '(rs, s) := run_ops ops s in (r :: rs, s)
  end.
Fixpoint spec_ops (ops : list (cache_op V R * Z)) (a : table V) : list (option V) * table V :=
  match ops with
  | [] => ([], a)
  | (o, now) :: ops => let '(x, a) := spec_op o now a in let '(xs, a) := spec_ops ops a in (x :: xs, a)
  end.

(** The store holds the table: the entries of the present version of each space are those of the
    table, and there are none of a later version. *)
Definition entry_of (o : option (V * Z)) : option entry :=
  option_map (λ x, (RString (value_dumps x.1), Some x.2)) o.
Record represents (last : Z) (versions : string * string → Z) (s : R) (a : table V) : Prop := {
  rep_version : ∀ t sp, number (entry_at last (cache_version env t sp) s) = Some (versions (space_of t sp))
    ∧ deadline (entry_at last (cache_version env t sp) s) = None;
  rep_present : ∀ t k sp q, entry_at last (cache_search env t k sp (versions (space_of t sp)) q) s
    = alive last (entry_of (a (space_of t sp) (call_of k q)));
  rep_later : ∀ t k sp q n, versions (space_of t sp) < n → entry_at last (cache_search env t k sp n q) s = None;
}.

(** ** The keys *)

Lemma version_key_inj t sp t' sp' :
  cache_version env t sp = cache_version env t' sp' → space_of t sp = space_of t' sp'.
Proof.
  intros E. pose proof (keys_never_collide env (CacheVersion t sp) (CacheVersion t' sp') E) as Hc.
  unfold space_of. simpl in Hc. congruence.
Qed.
Lemma search_key_inj t k sp n q t' k' sp' n' q' :
  cache_search env t k sp n q = cache_search env t' k' sp' n' q' →
  space_of t sp = space_of t' sp' ∧ call_of k q = call_of k' q' ∧ n = n'.
Proof.
  intros E. pose proof (keys_never_collide env (CacheSearch t k sp n q) (CacheSearch t' k' sp' n' q') E) as Hc.
  unfold space_of, call_of. simpl in Hc. split_and!; congruence.
Qed.
Lemma version_is_no_search t sp t' k sp' n q : cache_version env t sp ≠ cache_search env t' k sp' n q.
Proof. intros E. by pose proof (keys_never_collide env (CacheVersion t sp) (CacheSearch t' k sp' n q) E). Qed.
Lemma version_key_eq t sp t' sp' : space_of t sp = space_of t' sp' → cache_version env t sp = cache_version env t' sp'.
Proof. intros [= Ht Hs]. unfold cache_version, tenant, part. fold (known t) (known t') (known sp) (known sp'). by rewrite Ht, Hs. Qed.
Lemma search_key_eq t k sp n q t' k' sp' q' : space_of t sp = space_of t' sp' → call_of k q = call_of k' q' →
  cache_search env t k sp n q = cache_search env t' k' sp' n q'.
Proof.
  intros [= Ht Hs] [= Hk Hq]. unfold cache_search, tenant, part.
  fold (known t) (known t') (known sp) (known sp') (known k) (known k'). by rewrite Ht, Hs, Hk, Hq.
Qed.

(** ** Time passes *)

Lemma alive_forever now o : deadline o = None → alive now o = o.
Proof. destruct o as [[v [d|]]|]; [done|intros _; by unfold alive|done]. Qed.

Lemma represents_later last now versions s a : last <= now → represents last versions s a → represents now versions s a.
Proof.
  intros Hle [Hv Hp Hl]. split; intros; rewrite (entry_expires last now) by done.
  - destruct (Hv t sp) as [Hn Hd]. by rewrite alive_forever.
  - by rewrite Hp, Concrete.alive_alive.
  - by rewrite Hl.
Qed.

(** ** One operation *)

Lemma version_reads now versions s a t sp : represents now versions s a →
  version env true t sp now s = Ok (versions (space_of t sp)).
Proof.
  intros [Hv _ _]. destruct (Hv t sp) as [Hn _]. unfold version, redis_get, mbind, result_bind. simpl.
  destruct (entry_at now _ s) as [[[v|m] d]|]; simpl in Hn; [|done|by injection Hn as <-].
  destruct (String.eqb_spec v "") as [->|_]; [done|]. by rewrite Hn.
Qed.

Lemma get_agrees now versions s a kind sp q t : represents now versions s a →
  cache_get env true kind sp q t now s = Ok (json_kept <$> fresh now (a (space_of t sp) (call_of kind q))).
Proof.
  intros Hrep. unfold cache_get. simpl. rewrite (version_reads now versions s a t sp Hrep). simpl.
  unfold mbind, result_bind, redis_get. rewrite (rep_present _ _ _ _ Hrep).
  destruct (a _ _) as [[v d]|]; simpl; [|done]. unfold alive, live. simpl. destruct (now <? d); simpl; [|done].
  unfold cached. destruct (String.eqb_spec (value_dumps v) "") as [E|_]; [by apply dumps_value in E|].
  by rewrite loads_value.
Qed.

Lemma set_represents now versions s a kind sp q v ttl t r s' : represents now versions s a →
  cache_set env true kind sp q v ttl t now s = (r, s') →
  r = Ok tt ∧ represents now versions s'
    (store (space_of t sp) (call_of kind q) (v, now + milliseconds (in_milliseconds (at_least_1 ttl))) a).
Proof.
  intros Hrep. unfold cache_set. simpl. rewrite (version_reads now versions s a t sp Hrep). intros [= <- <-].
  split; [done|]. unfold redis_set_ex. set (key := cache_search env t kind sp (versions (space_of t sp)) q).
  assert (0 < in_milliseconds (at_least_1 ttl)) as Ht by (unfold in_milliseconds, at_least_1; lia).
  pose proof (set_px_law now key (value_dumps v) _ s Ht) as Hu. destruct Hrep as [Hv Hp Hl].
  split; intros; rewrite (Hu now) by lia.
  - rewrite decide_False by apply version_is_no_search. apply Hv.
  - unfold store. destruct (decide (space_of t0 sp0 = space_of t sp ∧ call_of k q0 = call_of kind q)) as [[Hs Hc]|Hne].
    + rewrite decide_True by (rewrite Hs; by apply search_key_eq). done.
    + rewrite decide_False; [apply Hp|]. unfold key. intros (? & ? & _)%search_key_inj. by apply Hne.
  - rewrite decide_False; [by apply Hl|]. unfold key. intros (Hs & _ & Hn)%search_key_inj. rewrite Hs in *. lia.
Qed.

Definition next_version (sp : string * string) (versions : string * string → Z) : string * string → Z :=
  λ sp', if decide (sp' = sp) then versions sp' + 1 else versions sp'.

Lemma bump_represents now versions s a sp t r s' : represents now versions s a →
  bump_version env true t sp now s = (r, s') →
  r = Ok (versions (space_of t sp) + 1)
  ∧ represents now (next_version (space_of t sp) versions) s' (empty_space (space_of t sp) a).
Proof.
  intros [Hv Hp Hl]. unfold bump_version, redis_incr. simpl. destruct (Hv t sp) as [Hn Hd]. rewrite Hn.
  destruct (incrby_law now (cache_version env t sp) 1 s _ Hn) as [Hr Hu].
  destruct (incrby now _ 1 s) as [n s1]. simpl in Hr, Hu. intros [= <- <-]. rewrite Hr. split; [done|].
  assert (∀ j, (∀ t sp, j ≠ cache_version env t sp) → entry_at now j s1 = entry_at now j s) as Hother.
  { intros j Hj. rewrite (Hu now) by lia. by rewrite decide_False. }
  split; intros.
  - rewrite !(Hu now) by lia. unfold next_version.
    destruct (decide (space_of t0 sp0 = space_of t sp)) as [E|Hne].
    + rewrite (decide_True (P := cache_version env t0 sp0 = _)) by by apply version_key_eq. rewrite Hd, E. simpl.
      by rewrite int_value_pretty.
    + rewrite (decide_False (P := cache_version env t0 sp0 = _)) by by intros ?%version_key_inj. apply Hv.
  - rewrite Hother by (intros ? ? E; by eapply version_is_no_search). unfold next_version, empty_space.
    destruct (decide (space_of t0 sp0 = space_of t sp)) as [E|Hne]; [|apply Hp]. simpl. apply Hl. lia.
  - rewrite Hother by (intros ? ? E; by eapply version_is_no_search). apply Hl.
    unfold next_version in *. destruct (decide _); lia.
Qed.

Lemma others_represent now versions s a f : leaves_cache (Others f) → represents now versions s a → represents now versions (f s) a.
Proof.
  intros Hf [Hv Hp Hl]. split; intros.
  - rewrite (proj1 (Hf now s t sp)). apply Hv.
  - rewrite (proj2 (Hf now s t sp)). apply Hp.
  - rewrite (proj2 (Hf now s t sp)). by apply Hl.
Qed.

Lemma op_agrees_with_table o now versions s a r s' x a' : leaves_cache o → represents now versions s a →
  run_op o now s = (r, s') → spec_op o now a = (x, a') → r = Ok x ∧ ∃ versions', represents now versions' s' a'.
Proof.
  intros Hf Hrep. destruct o as [kind sp q t|kind sp q v ttl t|sp t|f]; simpl.
  - rewrite (get_agrees _ _ _ _ _ _ _ _ Hrep). intros [= <- <-] [= <- <-]. eauto.
  - destruct (cache_set _ _ _ _ _ _ _ _ _ _) as [r0 s0] eqn:E. apply (set_represents _ _ _ _ _ _ _ _ _ _ _ _ Hrep) in E as [-> E].
    intros [= <- <-] [= <- <-]. eauto.
  - destruct (bump_version _ _ _ _ _ _) as [r0 s0] eqn:E. apply (bump_represents _ _ _ _ _ _ _ _ Hrep) in E as [-> E].
    intros [= <- <-] [= <- <-]. eauto.
  - intros [= <- <-] [= <- <-]. split; [done|]. exists versions. by apply others_represent.
Qed.

(** The operations come in the order of time. *)
Fixpoint in_order (last : Z) (ops : list (cache_op V R * Z)) : Prop :=
  match ops with [] => True | (_, now) :: ops => last <= now ∧ in_order now ops end.


(** A store without keys of the cache holds the empty table. *)
Lemma empty_represents last s : (∀ t sp, entry_at last (cache_version env t sp) s = None) →
  (∀ t k sp n q, entry_at last (cache_search env t k sp n q) s = None) → represents last (λ _, 0) s (λ _ _, None).
Proof. intros Hv Hs. split; intros; [by rewrite Hv|by rewrite Hs|by rewrite Hs]. Qed.

(** A value that is computed before an invalidation and stored after it is served as if it were
    new: [set] takes the version of the moment at which it runs. *)
Lemma late_value_is_served now versions s a kind sp q v ttl t : represents now versions s a →
  let s1 := (bump_version env true t sp now s).2 in
  let s2 := (cache_set env true kind sp q v ttl t now s1).2 in
  cache_get env true kind sp q t now s2 = Ok (Some (json_kept v)).
Proof.
  intros Hrep. destruct (bump_version _ _ _ _ _ _) as [r1 s1] eqn:E1. simpl.
  apply (bump_represents _ _ _ _ _ _ _ _ Hrep) in E1 as [_ Hrep1].
  destruct (cache_set _ _ _ _ _ _ _ _ _ _) as [r2 s2] eqn:E2. simpl.
  apply (set_represents _ _ _ _ _ _ _ _ _ _ _ _ Hrep1) in E2 as [_ Hrep2].
  rewrite (get_agrees _ _ _ _ _ _ _ _ Hrep2). unfold store. rewrite decide_True by done. simpl.
  unfold milliseconds, in_milliseconds, at_least_1. by rewrite (proj2 (Z.ltb_lt _ _)) by lia.
Qed.

(** * Sessions *)

Lemma session_key_inj t u t' u' : session env t u = session env t' u' → known t = known t' ∧ known u = known u'.
Proof. intros E. pose proof (keys_never_collide env (Session t u) (Session t' u') E) as Hc. simpl in Hc. split; congruence. Qed.

(** C0: a session is read back by its own user, and by nobody else, until it expires: after a
    session was written, its tenant and user read what JSON keeps of it as long as its time to live
    has not passed since it was written or last touched; no operation on it changes what another
    tenant or user reads, and once it was deleted it is empty. *)
Theorem sessions_are_isolated ttl t u v now now' s :
  now <= now' →
  let s' := session_set env ttl t u v now s in
  let until := now + milliseconds (in_milliseconds (session_ttl ttl)) in
  session_get env t u now' s' = Ok (if now' <? until then Some (json_kept v) else None)
  ∧ (now < until → session_get env t u now' (session_touch env ttl t u now s')
      = Ok (if now' <? until then Some (json_kept v) else None))
  ∧ session_get (V := V) env t u now' (session_delete env t u now s) = Ok None
  ∧ ∀ t' u', (known t', known u') ≠ (known t, known u) →
      session_get (V := V) env t' u' now' s' = session_get env t' u' now' s
      ∧ session_get (V := V) env t' u' now' (session_delete env t u now s) = session_get env t' u' now' s
      ∧ session_get (V := V) env t' u' now' (session_touch env ttl t u now s) = session_get env t' u' now' s.
Proof.
  intros Hle s' until. unfold session_get, redis_get, mbind, result_bind.
  assert (0 < in_milliseconds (session_ttl ttl)) as Hpos by (unfold in_milliseconds, session_ttl, at_least_1; lia).
  pose proof (set_px_law now (session env t u) (value_dumps v) _ s Hpos) as Hset.
  pose proof (del_key_law now (session env t u) s) as Hdel.
  assert (Hread : ∀ o : option entry, o = alive now' (Some (RString (value_dumps v), Some until)) →
    match match o with None => Ok None | Some (RString x, _) => Ok (Some x) | Some (RZset _, _) => Raise wrong_type end with
    | Ok raw => cached raw | Raise e => Raise e end = Ok (if now' <? until then Some (json_kept v) else None)).
  { intros o ->. unfold alive, live. simpl. destruct (now' <? until); [|done]. unfold cached.
    destruct (String.eqb_spec (value_dumps v) "") as [E|_]; [by apply dumps_value in E|]. by rewrite loads_value. }
  split_and!.
  - apply Hread. unfold s', session_set, redis_set_ex. rewrite (Hset now') by done. by rewrite decide_True.
  - intros Hu. apply Hread. unfold session_touch. rewrite (pexpire_law now _ _ s' Hpos now') by done. rewrite decide_True by done.
    unfold s', session_set, redis_set_ex. rewrite (Hset now) by lia. rewrite decide_True by done.
    unfold alive at 2, live. simpl. fold until. by rewrite (proj2 (Z.ltb_lt now until)).
  - unfold session_delete. rewrite (Hdel now') by done. by rewrite decide_True.
  - intros t' u' Hne.
    assert (session env t' u' ≠ session env t u) as Hkey.
    { intros [Ht Hu]%session_key_inj. by rewrite Ht, Hu in Hne. }
    unfold s', session_set, redis_set_ex, session_delete, session_touch.
    by rewrite (Hset now'), (Hdel now'), (pexpire_law now _ _ s Hpos now'), !decide_False by done.
Qed.
End refinement.

(** * Embeddings *)

(** An embedding is read back until it expires; what is no list of numbers, or an empty one, is
    treated as absent. *)
Lemma embedding_reads_back `{Platform} {R : Type} `{RedisStore R, !RedisStoreLaws R} {F : Type}
    (numbers_dumps : list F → string) (numbers_loads : string → option (list F)) env model text (e : list F) ttl now now' s :
  numbers_loads (numbers_dumps e) = Some e → e ≠ [] → numbers_dumps e ≠ "" → now <= now' →
  embedding_get numbers_loads env true model text now' (embedding_set numbers_dumps env true model text e ttl now s)
  = Ok (if now' <? now + milliseconds (in_milliseconds (at_least_1 ttl)) then Some e else None).
Proof.
  intros Hread Hne Hd Hle. unfold embedding_get, embedding_set, redis_get, redis_set_ex, mbind, result_bind. simpl.
  assert (0 < in_milliseconds (at_least_1 ttl)) as Hpos by (unfold in_milliseconds, at_least_1; lia).
  rewrite (set_px_law now _ _ _ s Hpos now') by done. rewrite decide_True by done. unfold alive, live. simpl.
  destruct (now' <? _); [|done]. destruct (String.eqb_spec (numbers_dumps e) "") as [E|_]; [done|].
  rewrite Hread. by destruct e.
Qed.

(** * A concrete run *)

Module Example.
#[local] Existing Instance test_platform.
Import Concrete.

(** Texts as the values *)
#[local] Instance test_value : JsonValue string := {|
  value_dumps := λ v, "'" +:+ v;
  value_loads := λ raw, match raw with String _ v => Some v | EmptyString => None end;
  json_kept := λ v, v;
|}.
#[local] Instance test_value_laws : JsonValueLaws string.
Proof. by split. Qed.

(** A value is served until the notes of the space change, and is then computed again; another space
    keeps its values, and a value that was computed too early comes back. *)
Definition ops : list (cache_op string (gmap string entry) * Z) :=
  [(Get "search_notes" "chat" "{}" "default", 0); (Set_ "search_notes" "chat" "{}" "old" 60 "default", 1);
   (Set_ "search_notes" "chat 2" "{}" "other" 60 "default", 2); (Get "search_notes" "chat" "{}" "default", 3);
   (Invalidate "chat" "default", 4); (Get "search_notes" "chat" "{}" "default", 5);
   (Get "search_notes" "chat 2" "{}" "default", 6); (Set_ "search_notes" "chat" "{}" "late" 60 "default", 7);
   (Get "search_notes" "chat" "{}" "default", 8); (Get "search_notes" "chat" "{}" "default", seconds 61)].
Definition nothing : gmap string entry := ∅.


Lemma sessions_are_isolated_witness :
  session_get "dev" "t" "u" (seconds 9) (session_set "dev" 10 "t" "u" "hello" 0 nothing) = Ok (Some "hello")
  ∧ session_get "dev" "t" "v" (seconds 9) (session_set "dev" 10 "t" "u" "hello" 0 nothing) = Ok (None : option string).
Proof.
  destruct (sessions_are_isolated "dev" 10 "t" "u" "hello" 0 (seconds 9) nothing ltac:(vm_compute; discriminate))
    as (Hget & _ & _ & Hother).
  split; [exact Hget|]. rewrite (proj1 (Hother "t" "v" ltac:(vm_compute; discriminate))). reflexivity.
Defined.
End Example.
