(* ===== verification/Hooks.v ===== *)
(** The hooks around the runs of the agents, their calls of the language model and of their tools:
    [agent/hooks/]: the manager, the context of a run and the eight hooks.

    What the hooks call - limits, idempotency keys, locks, caches, sessions, the queue and the log
    of the runs - is the class [HookServices]; the laws say which slots, locks and keys a call may
    take.  [Coordination] and [Caches] model the services themselves.  Durations and the output of
    the log are left out. *)

From stdpp Require Import base list strings gmap.
From Stdlib Require Import ZArith Lia.
From S2P Require Import Prelude TextChunks Coordination RedisKeys.

Open Scope string_scope.
Open Scope Z_scope.

(** * The services *)

Inductive backend := RedisBackend | LocalBackend.
#[export] Instance backend_eq_dec : EqDecision backend.
Proof. solve_decision. Defined.
#[export] Instance backend_countable : Countable backend.
Proof.
  refine {| encode := λ b, match b with RedisBackend => 1%positive | LocalBackend => 2%positive end;
            decode := λ p, match p with 1%positive => Some RedisBackend | _ => Some LocalBackend end |}.
  by intros [].
Defined.

(** [Sv] is the state of the services, [V] are JSON values: arguments, results, sessions. *)
Class HookServices (Sv V : Type) := {
  begin_key : backend → string → IO Sv bool;
  complete_key : backend → string → IO Sv unit;
  fail_key : backend → string → IO Sv unit;
  allow : backend → string → Z → Z → IO Sv limit_result;
  acquire_slot : backend → string → Z → IO Sv (option string);
  release_slot : backend → string → string → IO Sv unit;
  (** [coordinated_lock(key, critical=True)], entered and left; its value names the kind of lock *)
  enter_lock : string → IO Sv (Z * string);
  exit_lock : Z → IO Sv unit;
  cache_get : string → string → string → IO Sv (option V);
  cache_set : string → string → string → V → IO Sv unit;
  cache_bump : string → IO Sv unit;
  session_get : string → string → IO Sv V;
  session_set : string → string → V → IO Sv unit;
  session_delete : string → string → IO Sv unit;
  session_touch : string → string → IO Sv unit;
  (** [enqueue_task] of the type, tenant, space, message, idempotency key, tool, arguments and run *)
  enqueue_task : string → string → string → option string → string → string → V → string → IO Sv string;
  start_agent_run : string → IO Sv unit;
  finish_agent_run : string → string → option string → IO Sv unit;
  add_agent_step : string → Z → string → string → string → option string → IO Sv unit;
  add_llm_usage : string → Z → Z → IO Sv unit;
  (** what is taken: slots, locks, and the status of the idempotency keys *)
  slots : Sv → gset (backend * string * string);
  locks : Sv → gset Z;
  idem : Sv → backend * string → option string;
  (** [json.dumps(args, sort_keys=True, default=str)], [str(result)], the answer to a queued call,
      [bool(value)] and [{}] *)
  args_text : V → string;
  result_text : V → string;
  queued_value : string → V;
  truthy : V → bool;
  empty_value : V;
}.

(** A call that takes nothing *)
Definition quiet {Sv V A} `{HookServices Sv V} (m : IO Sv A) : Prop := ∀ s r s', m s = (r, s') →
  slots s' ⊆ slots s ∧ locks s' ⊆ locks s ∧ ∀ k, idem s' k = idem s k.

Class HookServicesLaws (Sv V : Type) `{HookServices Sv V} : Prop := {
  begin_law : ∀ b k s r s', begin_key b k s = (r, s') → slots s' ⊆ slots s ∧ locks s' ⊆ locks s
    ∧ (∀ k', k' ≠ (b, k) → idem s' k' = idem s k')
    ∧ idem s' (b, k) = match r with Ok true => Some "processing" | _ => idem s (b, k) end;
  complete_law : ∀ b k s r s', complete_key b k s = (r, s') → slots s' ⊆ slots s ∧ locks s' ⊆ locks s
    ∧ (∀ k', k' ≠ (b, k) → idem s' k' = idem s k')
    ∧ idem s' (b, k) = match r with Ok _ => Some "completed" | Raise _ => idem s (b, k) end;
  fail_law : ∀ b k s r s', fail_key b k s = (r, s') → slots s' ⊆ slots s ∧ locks s' ⊆ locks s
    ∧ (∀ k', k' ≠ (b, k) → idem s' k' = idem s k')
    ∧ idem s' (b, k) = match r with Ok _ => Some "failed" | Raise _ => idem s (b, k) end;
  acquire_law : ∀ b k n s r s', acquire_slot b k n s = (r, s') → locks s' ⊆ locks s ∧ (∀ k', idem s' k' = idem s k')
    ∧ slots s' ⊆ match r with Ok (Some token) => {[(b, k, token)]} ∪ slots s | _ => slots s end;
  release_law : ∀ b k token s r s', release_slot b k token s = (r, s') → locks s' ⊆ locks s ∧ (∀ k', idem s' k' = idem s k')
    ∧ slots s' ⊆ match r with Ok _ => slots s ∖ {[(b, k, token)]} | Raise _ => slots s end;
  enter_law : ∀ k s r s', enter_lock k s = (r, s') → slots s' ⊆ slots s ∧ (∀ k', idem s' k' = idem s k')
    ∧ match r with Ok (h, _) => h ∈ locks s' ∧ locks s' ⊆ {[h]} ∪ locks s | Raise _ => locks s' ⊆ locks s end;
  exit_law : ∀ h s r s', exit_lock h s = (r, s') → slots s' ⊆ slots s ∧ (∀ k', idem s' k' = idem s k')
    ∧ locks s' ⊆ match r with Ok _ => locks s ∖ {[h]} | Raise _ => locks s end;
  allow_quiet : ∀ b k n c, quiet (allow b k n c);
  cache_get_quiet : ∀ t s p, quiet (cache_get t s p);
  cache_set_quiet : ∀ t s p v, quiet (cache_set t s p v);
  cache_bump_quiet : ∀ s, quiet (cache_bump s);
  session_get_quiet : ∀ t u, quiet (session_get t u);
  session_set_quiet : ∀ t u v, quiet (session_set t u v);
  session_delete_quiet : ∀ t u, quiet (session_delete t u);
  session_touch_quiet : ∀ t u, quiet (session_touch t u);
  enqueue_quiet : ∀ y t s m i n v p, quiet (enqueue_task y t s m i n v p);
  start_quiet : ∀ r, quiet (start_agent_run r);
  finish_quiet : ∀ r x e, quiet (finish_agent_run r x e);
  step_quiet : ∀ r n y x t e, quiet (add_agent_step r n y x t e);
  usage_quiet : ∀ r i o, quiet (add_llm_usage r i o);
}.

(** The settings that the hooks read *)
Class HookSettings := {
  coordination_is_redis : bool;
  CACHE_ENABLED : bool;
  queue_is_streams : bool;
  RATE_LIMIT_ASK_PER_MINUTE : Z;
  RATE_LIMIT_INGEST_PER_MINUTE : Z;
  LLM_TOKEN_BUDGET_PER_MINUTE : Z;
  LLM_CONCURRENCY_LIMIT : Z;
  SUIXINJI_ENV : string;
}.

(** * The context of a run *)

(** [AgentRunContext]; of [metadata] the entries that the hooks use, and [resources] by their names:
    [idempotency], [llm_slots], [space_lock:...], [tool_cache_hit:...], [tool_cache_payload:...]
    and [step_no] *)
Record run_context (V : Type) := RunContext {
  cx_run_id : string;
  cx_tenant_id : string;
  cx_user_id : string;
  cx_space_id : string;
  cx_message_id : option string;
  cx_task_id : option string;
  cx_run_type : string;
  cx_session : V;
  cx_allow_tool_dispatch : bool;
  cx_session_update : option V;
  cx_rate_limit : option (Z * Z);
  cx_lock_source : string;
  cx_idempotency : option (backend * string);
  cx_llm_slots : list (backend * string * string);
  cx_space_locks : gmap string Z;
  cx_cache_hits : gmap string V;
  cx_cache_payloads : gmap string string;
  cx_step_no : Z;
}.
Arguments RunContext {V}. Arguments cx_run_id {V}. Arguments cx_tenant_id {V}. Arguments cx_user_id {V}.
Arguments cx_space_id {V}. Arguments cx_message_id {V}. Arguments cx_task_id {V}. Arguments cx_run_type {V}.
Arguments cx_session {V}. Arguments cx_allow_tool_dispatch {V}. Arguments cx_session_update {V}.
Arguments cx_rate_limit {V}. Arguments cx_lock_source {V}. Arguments cx_idempotency {V}. Arguments cx_llm_slots {V}.
Arguments cx_space_locks {V}. Arguments cx_cache_hits {V}. Arguments cx_cache_payloads {V}. Arguments cx_step_no {V}.
#[export] Instance run_context_eta V : Eta (run_context V) := λ c,
  RunContext (cx_run_id c) (cx_tenant_id c) (cx_user_id c) (cx_space_id c) (cx_message_id c) (cx_task_id c) (cx_run_type c)
    (cx_session c) (cx_allow_tool_dispatch c) (cx_session_update c) (cx_rate_limit c) (cx_lock_source c) (cx_idempotency c)
    (cx_llm_slots c) (cx_space_locks c) (cx_cache_hits c) (cx_cache_payloads c) (cx_step_no c).

(** [request]: the entries that the hooks read and write *)
Record llm_request := LlmRequest { rq_name : option string; rq_user_prompt : option string; rq_estimated_input_tokens : option Z }.

Definition WRITE_TOOLS : list string :=
  ["save_note"; "update_memory"; "forget_memory"; "purge_memory"; "consolidate_memory"; "process_memory"].
Definition READ_TOOLS : list string :=
  ["search_notes"; "get_note"; "get_related_notes"; "search_memories"; "search_tasks"; "memory_search"; "semantic_search";
   "list_recent"; "follow_links"; "by_type"; "by_tag"; "filter_notes"; "related_notes"; "task_status_search"].
Definition ASYNC_TOOLS (tool_name : string) : option string :=
  if String.eqb tool_name "generate_summary" then Some "summary"
  else if String.eqb tool_name "consolidate_memory" then Some "memory"
  else if String.eqb tool_name "large_import" then Some "ingest" else None.

Section hooks.
Context `{Platform} {Sv V : Type} `{HookServices Sv V, HookSettings}.

Record run_state := RunState { ctx : run_context V; sv : Sv }.

Definition on_services {A} (m : IO Sv A) : IO run_state A := λ s,
  let '(r, s') := m (sv s) in (r, RunState (ctx s) s').
Definition set_ctx (f : run_context V → run_context V) : IO run_state unit := λ s, (Ok tt, RunState (f (ctx s)) (sv s)).
Definition get_ctx : IO run_state (run_context V) := io_gets ctx.
(** [try: m  except Exception: pass] *)
Definition attempt (m : IO run_state unit) : IO run_state unit := try_except m (λ _, mret tt) mret.

(** * The hooks *)

(** [AgentHook]; [before_llm] returns the request, which it may have changed. *)
Record hook := Hook {
  hk_name : string;
  before_agent : IO run_state unit;
  after_agent : V → IO run_state unit;
  before_llm : llm_request → IO run_state llm_request;
  after_llm : llm_request → V → IO run_state unit;
  before_tool : string → V → IO run_state unit;
  after_tool : string → V → V → IO run_state unit;
  on_error : exn → string → IO run_state unit;
}.
#[export] Instance hook_eta : Eta hook := λ h,
  Hook (hk_name h) (before_agent h) (after_agent h) (before_llm h) (after_llm h) (before_tool h) (after_tool h) (on_error h).
Definition agent_hook (name : string) : hook :=
  Hook name (mret tt) (λ _, mret tt) mret (λ _ _, mret tt) (λ _ _, mret tt) (λ _ _ _, mret tt) (λ _ _, mret tt).

(** ** [ObservabilityHook] *)

(** [next_step] and [_step] *)
Definition next_step : IO run_state Z :=
  c ← get_ctx; set_ctx (λ c, c <| cx_step_no := cx_step_no c + 1 |>);; mret (cx_step_no c + 1).
Definition record_step (step_type name status : string) (error_type : option string) : IO run_state unit :=
  attempt (c ← get_ctx; n ← next_step; on_services (add_agent_step (cx_run_id c) n step_type name status error_type)).
Definition observability_hook : hook := Hook "observability"
  (c ← get_ctx; attempt (on_services (start_agent_run (cx_run_id c))))
  (λ _, c ← get_ctx; attempt (on_services (finish_agent_run (cx_run_id c) "completed" None)))
  mret
  (λ request _, record_step "llm" (opt_or (rq_name request) "complete_json") "completed" None)
  (λ _ _, mret tt)
  (λ tool_name _ _, record_step "tool" tool_name "completed" None)
  (λ error scope,
    if String.eqb scope "agent"
    then c ← get_ctx; attempt (on_services (finish_agent_run (cx_run_id c) "failed" (Some (exn_type error))))
    else record_step scope scope "failed" (Some (exn_type error))).

(** ** [RateLimitHook] *)

(** [limiter.allow] in Redis, or half of the limit in this process when Redis fails *)
Definition allow_or_half (key : string) (limit cost : Z) : IO run_state (backend * limit_result) :=
  if coordination_is_redis
  then try_except (on_services (allow RedisBackend key limit cost))
         (λ _, r ← on_services (allow LocalBackend key (Z.max 1 (limit / 2)) cost); mret (LocalBackend, r))
         (λ r, mret (RedisBackend, r))
  else r ← on_services (allow LocalBackend key limit cost); mret (LocalBackend, r).
Definition RateLimitExceeded : exn := OtherError "RateLimitExceeded" "request rate limit exceeded".
Definition rate_limit_hook : hook := agent_hook "rate_limit" <| before_agent :=
  c ← get_ctx;
  let is_ingest := py_in (cx_run_type c) ["ingest"; "memory"] in
  let action := if is_ingest then "ingest" else "ask" in
  let limit := if is_ingest then RATE_LIMIT_INGEST_PER_MINUTE else RATE_LIMIT_ASK_PER_MINUTE in
  answer ← allow_or_half (Keys.rate_user SUIXINJI_ENV (cx_tenant_id c) (cx_user_id c) action) limit 1;
  set_ctx (λ c, c <| cx_rate_limit := Some (lr_current answer.2, lr_retry_after_ms answer.2) |>);;
  if lr_allowed answer.2 then mret tt else throw RateLimitExceeded |>.

(** ** [IdempotencyHook] *)

Definition falsy (o : option string) : bool := match o with Some x => String.eqb x "" | None => true end.
Definition DuplicateAgentRequest : exn := OtherError "DuplicateAgentRequest" "duplicate request".
Definition begin_or_local (key : string) : IO run_state (backend * bool) :=
  if coordination_is_redis
  then try_except (on_services (begin_key RedisBackend key))
         (λ _, acquired ← on_services (begin_key LocalBackend key); mret (LocalBackend, acquired))
         (λ acquired, mret (RedisBackend, acquired))
  else acquired ← on_services (begin_key LocalBackend key); mret (LocalBackend, acquired).
(** [resources.pop("idempotency", None)] *)
Definition pop_idempotency : IO run_state (option (backend * string)) :=
  c ← get_ctx; set_ctx (λ c, c <| cx_idempotency := None |>);; mret (cx_idempotency c).
Definition idempotency_hook : hook := agent_hook "idempotency"
  <| before_agent :=
    c ← get_ctx;
    if falsy (cx_message_id c) || negb (falsy (cx_task_id c)) then mret tt
    else
      let key := Keys.idempotency SUIXINJI_ENV (cx_tenant_id c) (cx_run_type c) (default "" (cx_message_id c)) in
      answer ← begin_or_local key;
      if negb (answer.2 : bool) then throw DuplicateAgentRequest
      else set_ctx (λ c, c <| cx_idempotency := Some (answer.1, key) |>) |>
  <| after_agent := λ _,
    resource ← pop_idempotency;
    match resource with Some (b, key) => on_services (complete_key b key) | None => mret tt end |>
  <| on_error := λ _ scope,
    if negb (String.eqb scope "agent") then mret tt
    else resource ← pop_idempotency;
         match resource with Some (b, key) => on_services (fail_key b key) | None => mret tt end |>.

(** ** [SessionHook] *)

Definition session_hook : hook := agent_hook "session"
  <| before_agent :=
    if negb coordination_is_redis then mret tt
    else c ← get_ctx;
         try_except (on_services (session_get (cx_tenant_id c) (cx_user_id c)))
           (λ _, set_ctx (λ c, c <| cx_session := empty_value |>)) (λ v, set_ctx (λ c, c <| cx_session := v |>)) |>
  <| after_agent := λ _,
    if negb coordination_is_redis then mret tt
    else c ← get_ctx;
         attempt (match cx_session_update c with
                  | None => if truthy (cx_session c) then on_services (session_touch (cx_tenant_id c) (cx_user_id c)) else mret tt
                  | Some update => if truthy update then on_services (session_set (cx_tenant_id c) (cx_user_id c) update)
                                   else on_services (session_delete (cx_tenant_id c) (cx_user_id c))
                  end) |>.

(** ** [LlmUsageHook] *)

Definition LlmCapacityExceeded (msg : string) : exn := OtherError "LlmCapacityExceeded" msg.
Definition estimate_tokens (text : string) : Z := Z.max 1 (Z.of_nat (length (chars text)) / 4).
(** [_release]: a slot that cannot be given back is left to expire. *)
Fixpoint release_each (held : list (backend * string * string)) : IO run_state unit :=
  match held with
  | [] => mret tt
  | (b, key, token) :: held => attempt (on_services (release_slot b key token));; release_each held
  end.
Definition release_slots : IO run_state unit :=
  c ← get_ctx; set_ctx (λ c, c <| cx_llm_slots := [] |>);; release_each (rev (cx_llm_slots c)).
Definition llm_usage_hook : hook := agent_hook "llm_usage"
  <| before_llm := λ request,
    c ← get_ctx;
    let tokens := estimate_tokens (opt_or (rq_user_prompt request) "") in
    budget ← allow_or_half (Keys.rate_tenant_tokens SUIXINJI_ENV (cx_tenant_id c)) LLM_TOKEN_BUDGET_PER_MINUTE tokens;
    if negb (lr_allowed budget.2) then throw (LlmCapacityExceeded "tenant LLM token budget exceeded")
    else
      let slot_key := Keys.concurrency_llm SUIXINJI_ENV (cx_tenant_id c) in
      token ← on_services (acquire_slot budget.1 slot_key LLM_CONCURRENCY_LIMIT);
      match token with
      | None => throw (LlmCapacityExceeded "tenant LLM concurrency limit exceeded")
      | Some token =>
          set_ctx (λ c, c <| cx_llm_slots := (cx_llm_slots c ++ [(budget.1, slot_key, token)])%list |>);;
          mret (LlmRequest (rq_name request) (rq_user_prompt request) (Some tokens))
      end |>
  <| after_llm := λ request result,
    release_slots;;
    c ← get_ctx;
    attempt (on_services (add_llm_usage (cx_run_id c) (default 0 (rq_estimated_input_tokens request))
                            (estimate_tokens (result_text result)))) |>
  <| on_error := λ _ scope, if py_in scope ["llm"; "agent"] then release_slots else mret tt |>.

(** ** [TaskDispatchHook] *)

Definition task_dispatch_hook : hook := agent_hook "task_dispatch" <| before_tool := λ tool_name args,
  c ← get_ctx;
  if negb queue_is_streams || negb (cx_allow_tool_dispatch c) then mret tt
  else match ASYNC_TOOLS tool_name with
       | None => mret tt
       | Some task_type =>
           task_id ← on_services (enqueue_task task_type (cx_tenant_id c) (cx_space_id c) (cx_message_id c)
                       ("tool:" +:+ cx_run_id c +:+ ":" +:+ tool_name) tool_name args (cx_run_id c));
           set_ctx (λ c, c <| cx_cache_hits := <[tool_name := queued_value task_id]> (cx_cache_hits c) |>)
       end |>.

(** ** [ToolCacheHook] *)

Definition tool_cache_hook : hook := agent_hook "tool_cache"
  <| before_tool := λ tool_name args,
    if negb coordination_is_redis || negb CACHE_ENABLED || negb (py_in tool_name READ_TOOLS) then mret tt
    else
      let payload := args_text args in
      c ← get_ctx;
      try_except (on_services (cache_get tool_name (cx_space_id c) payload)) (λ _, mret tt)
        (λ value, match value with
                  | None => mret tt
                  | Some v => set_ctx (λ c, c <| cx_cache_hits := <[tool_name := v]> (cx_cache_hits c) |>
                                              <| cx_cache_payloads := <[tool_name := payload]> (cx_cache_payloads c) |>)
                  end) |>
  <| after_tool := λ tool_name args result,
    if negb coordination_is_redis || negb CACHE_ENABLED then mret tt
    else attempt (
      c ← get_ctx;
      if py_in tool_name WRITE_TOOLS then on_services (cache_bump (cx_space_id c))
      else if negb (py_in tool_name READ_TOOLS) then mret tt
      else
        set_ctx (λ c, c <| cx_cache_payloads := delete tool_name (cx_cache_payloads c) |>);;
        on_services (cache_set tool_name (cx_space_id c)
                       (default (args_text args) (cx_cache_payloads c !! tool_name)) result)) |>.

(** ** [SpaceLockHook] *)

(** [_release] *)
Definition release_lock (tool_name : string) : IO run_state unit :=
  c ← get_ctx;
  set_ctx (λ c, c <| cx_space_locks := delete tool_name (cx_space_locks c) |>);;
  match cx_space_locks c !! tool_name with Some h => on_services (exit_lock h) | None => mret tt end.
Definition space_lock_hook : hook := agent_hook "space_lock"
  <| before_tool := λ tool_name _,
    if negb (py_in tool_name WRITE_TOOLS) then mret tt
    else
      c ← get_ctx;
      entered ← on_services (enter_lock (Keys.lock_space SUIXINJI_ENV (cx_tenant_id c) (cx_space_id c)));
      set_ctx (λ c, c <| cx_space_locks := <[tool_name := entered.1]> (cx_space_locks c) |>
                      <| cx_lock_source := entered.2 |>) |>
  <| after_tool := λ tool_name _ _, release_lock tool_name |>
  <| on_error := λ _ _,
    c ← get_ctx;
    io_for (map fst (map_to_list (cx_space_locks c))) tt (λ _ tool_name, release_lock tool_name) |>.

(** * [HookManager] *)

(** [_on_error] *)
Definition notify_error (hooks : list hook) (error : exn) (scope : string) : IO run_state unit :=
  io_for (rev hooks) tt (λ _ h, attempt (on_error h error scope)).

Definition run_agent (hooks : list hook) (callable : IO run_state V) : IO run_state V :=
  try_except
    (io_for hooks tt (λ _ h, before_agent h);;
     result ← callable;
     io_for (rev hooks) tt (λ _ h, after_agent h result);;
     mret result)
    (λ e, notify_error hooks e "agent";; throw e) mret.

Definition run_llm (hooks : list hook) (request : llm_request) (callable : IO run_state V) : IO run_state V :=
  try_except
    (request ← io_for hooks request (λ request h, before_llm h request);
     result ← callable;
     io_for (rev hooks) tt (λ _ h, after_llm h request result);;
     mret result)
    (λ e, notify_error hooks e "llm";; throw e) mret.

(** [context.resources.pop(cache_marker)] when it is there, the call of the tool otherwise *)
Definition cached_or_call (tool_name : string) (callable : IO run_state V) : IO run_state V :=
  c ← get_ctx;
  match cx_cache_hits c !! tool_name with
  | Some v => set_ctx (λ c, c <| cx_cache_hits := delete tool_name (cx_cache_hits c) |>);; mret v
  | None => callable
  end.
Definition run_tool (hooks : list hook) (tool_name : string) (args : V) (callable : IO run_state V) : IO run_state V :=
  try_except
    (io_for hooks tt (λ _ h, before_tool h tool_name args);;
     result ← cached_or_call tool_name callable;
     io_for (rev hooks) tt (λ _ h, after_tool h tool_name args result);;
     mret result)
    (λ e, notify_error hooks e "tool";; throw e) mret.

(** [_build_default_manager] *)
Definition default_hooks : list hook :=
  [observability_hook; rate_limit_hook; idempotency_hook; session_hook; llm_usage_hook; task_dispatch_hook;
   tool_cache_hook; space_lock_hook].
End hooks.
