(* ===== verification/HooksSpec.v ===== *)
(** What the hooks take they give back: slots of the language model, locks of spaces and
    idempotency keys, whatever fails inside of a run. *)

From stdpp Require Import base list strings gmap pretty.
From Stdlib Require Import ZArith Lia.
From S2P Require Import Prelude TextChunks Coordination RedisKeys Hooks.

#[local] Set Warnings "-clear-no-such-hyp".
Open Scope string_scope.
Open Scope Z_scope.

Section calm.
Context `{Platform} {Sv V : Type} `{HookServices Sv V, HookSettings, !HookServicesLaws Sv V}.
#[local] Abbreviation run_state := (run_state (Sv := Sv) (V := V)).
#[local] Abbreviation hook := (hook (Sv := Sv) (V := V)).

(** * Steps that take nothing *)

(** The context names the same run and holds the same. *)
Definition same_run (c c' : run_context V) : Prop :=
  cx_run_id c' = cx_run_id c ∧ cx_tenant_id c' = cx_tenant_id c ∧ cx_run_type c' = cx_run_type c
  ∧ cx_message_id c' = cx_message_id c ∧ cx_task_id c' = cx_task_id c ∧ cx_space_id c' = cx_space_id c.
Definition same_holdings (c c' : run_context V) : Prop :=
  cx_idempotency c' = cx_idempotency c ∧ cx_llm_slots c' = cx_llm_slots c ∧ cx_space_locks c' = cx_space_locks c.
Definition tame (s s' : run_state) : Prop :=
  same_run (ctx s) (ctx s') ∧ same_holdings (ctx s) (ctx s')
  ∧ slots (sv s') ⊆ slots (sv s) ∧ locks (sv s') ⊆ locks (sv s) ∧ ∀ k, idem (sv s') k = idem (sv s) k.
Definition calm {A} (m : IO run_state A) : Prop := ∀ s r s', m s = (r, s') → tame s s'.

Lemma tame_refl s : tame s s.
Proof. by repeat split. Qed.
Lemma tame_trans s1 s2 s3 : tame s1 s2 → tame s2 s3 → tame s1 s3.
Proof.
  intros ((?&?&?&?&?&?)&(?&?&?)&?&?&Hi) ((?&?&?&?&?&?)&(?&?&?)&?&?&Hi').
  split; [|split; [|split; [|split]]]; [split_and!; congruence|split_and!; congruence|set_solver|set_solver|].
  intros k. by rewrite Hi', Hi.
Qed.

Lemma calm_ret {A} (a : A) : calm (mret a).
Proof. intros s r s' [= <- <-]. apply tame_refl. Qed.
Lemma calm_throw {A} e : calm (@throw _ A e).
Proof. intros s r s' [= <- <-]. apply tame_refl. Qed.
Lemma calm_get : calm get_ctx.
Proof. intros s r s' [= <- <-]. apply tame_refl. Qed.
Lemma calm_bind {A B} (m : IO run_state A) (f : A → IO run_state B) : calm m → (∀ a, calm (f a)) → calm (m ≫= f).
Proof.
  intros Hm Hf s r s'. unfold mbind, IO_bind. destruct (m s) as [[a|e] s1] eqn:E; intros Hr.
  - eapply tame_trans; [by eapply Hm|by eapply Hf].
  - injection Hr as <- <-. by eapply Hm.
Qed.
Lemma calm_try {A B} (m : IO run_state A) (h : exn → IO run_state B) k :
  calm m → (∀ e, calm (h e)) → (∀ a, calm (k a)) → calm (try_except m h k).
Proof.
  intros Hm Hh Hk s r s'. unfold try_except. destruct (m s) as [[a|e] s1] eqn:E; intros Hr.
  - eapply tame_trans; [by eapply Hm|by eapply Hk].
  - eapply tame_trans; [by eapply Hm|by eapply Hh].
Qed.
Lemma calm_services {A} (m : IO Sv A) : quiet m → calm (on_services m).
Proof.
  intros Hm s r s'. unfold on_services. destruct (m (sv s)) as [r0 s0] eqn:E. intros [= <- <-].
  destruct (Hm _ _ _ E) as (? & ? & ?). by repeat split.
Qed.
Lemma calm_set (f : run_context V → run_context V) : (∀ c, same_run c (f c) ∧ same_holdings c (f c)) → calm (set_ctx f).
Proof. intros Hf s r s' [= <- <-]. destruct (Hf (ctx s)). split; [done|split; [done|by repeat split]]. Qed.
Lemma calm_attempt m : calm m → calm (attempt m).
Proof. intros Hm. apply calm_try; [done|intros; apply calm_ret..]. Qed.
End calm.

Create HintDb hooks.
#[export] Hint Resolve calm_ret calm_throw calm_get calm_attempt calm_services : hooks.
#[export] Hint Resolve allow_quiet cache_get_quiet cache_set_quiet cache_bump_quiet session_get_quiet session_set_quiet
  session_delete_quiet session_touch_quiet enqueue_quiet start_quiet finish_quiet step_quiet usage_quiet : hooks.

(** Splits a program into steps that take nothing. *)
Ltac calm_step :=
  match goal with
  | |- calm (mbind _ _) => apply calm_bind; [|intros ?]
  | |- calm (try_except _ _ _) => apply calm_try; [|intros ?|intros ?]
  | |- calm (attempt _) => apply calm_attempt
  | |- calm (set_ctx _) => apply calm_set; intros ?; by repeat split
  | |- calm (match ?x with _ => _ end) => destruct x
  | |- calm (let _ := _ in _) => cbv zeta
  end.
Ltac calm_auto := repeat calm_step; eauto with hooks.

(** * What each hook takes *)

Section hooks.
Context `{Platform} {Sv V : Type} `{HookServices Sv V, HookSettings, !HookServicesLaws Sv V}.
#[local] Abbreviation run_state := (run_state (Sv := Sv) (V := V)).
#[local] Abbreviation hook := (hook (Sv := Sv) (V := V)).

(** Every handler of the hook takes nothing. *)
Definition calm_hook (h : hook) : Prop :=
  calm (before_agent h) ∧ (∀ v, calm (after_agent h v)) ∧ (∀ rq, calm (before_llm h rq)) ∧ (∀ rq v, calm (after_llm h rq v))
  ∧ (∀ t a, calm (before_tool h t a)) ∧ (∀ t a v, calm (after_tool h t a v)) ∧ (∀ e x, calm (on_error h e x)).

Lemma calm_record_step y n x e : calm (record_step y n x e).
Proof. unfold record_step, next_step. calm_auto. Qed.
Lemma calm_allow key limit cost : calm (allow_or_half key limit cost).
Proof. unfold allow_or_half. calm_auto. Qed.
#[local] Hint Resolve calm_record_step calm_allow : hooks.

Lemma observability_is_calm : calm_hook observability_hook.
Proof. unfold calm_hook. split_and!; intros; simpl; calm_auto. Qed.
Lemma rate_limit_is_calm : calm_hook rate_limit_hook.
Proof. unfold calm_hook. split_and!; intros; simpl; calm_auto. Qed.
Lemma session_is_calm : calm_hook session_hook.
Proof. unfold calm_hook. split_and!; intros; simpl; calm_auto. Qed.
Lemma task_dispatch_is_calm : calm_hook task_dispatch_hook.
Proof. unfold calm_hook. split_and!; intros; simpl; calm_auto. Qed.
Lemma tool_cache_is_calm : calm_hook tool_cache_hook.
Proof. unfold calm_hook. split_and!; intros; simpl; calm_auto. Qed.

(** Handlers that only give back *)
Definition gives_back (s s' : run_state) : Prop :=
  same_run (ctx s) (ctx s') ∧ cx_idempotency (ctx s') = cx_idempotency (ctx s) ∧ ∀ k, idem (sv s') k = idem (sv s) k.
Lemma gives_back_refl s : gives_back s s.
Proof. by repeat split. Qed.
Lemma gives_back_trans s1 s2 s3 : gives_back s1 s2 → gives_back s2 s3 → gives_back s1 s3.
Proof.
  intros ((?&?&?&?&?&?)&?&Hi) ((?&?&?&?&?&?)&?&Hi'). split; [split_and!; congruence|split; [congruence|]]. intros k. by rewrite Hi', Hi.
Qed.

(** The services answer when something is given back. *)
Record answers : Prop := {
  release_answers : ∀ b k token (s : Sv), ∃ s', release_slot b k token s = (Ok tt, s');
  exit_answers : ∀ h (s : Sv), ∃ s', exit_lock h s = (Ok tt, s');
  complete_answers : ∀ b k (s : Sv), idem s (b, k) = Some "processing" → ∃ s', complete_key b k s = (Ok tt, s');
  fail_answers : ∀ b k (s : Sv), idem s (b, k) = Some "processing" → ∃ s', fail_key b k s = (Ok tt, s');
}.
Hypothesis Hans : answers.

(** What the others hold *)
Variable others : gset (backend * string * string) * gset Z.

(** Beside what the others hold, the slots taken are among those of the context, and the locks
    taken among [m], the locks of the context. *)
Definition accounted (m : gmap string Z) (s : run_state) : Prop :=
  slots (sv s) ⊆ others.1 ∪ list_to_set (cx_llm_slots (ctx s))
  ∧ cx_space_locks (ctx s) = m ∧ locks (sv s) ⊆ others.2 ∪ map_img m.
(** Nor is there a slot. *)
Definition within (m : gmap string Z) (s : run_state) : Prop := accounted m s ∧ cx_llm_slots (ctx s) = [].

Lemma tame_accounted m s s' : tame s s' → accounted m s → accounted m s'.
Proof. intros (_ & (_ & Hl & Hm) & Hs & Hk & _) (Hs0 & <- & Hk0). unfold accounted. rewrite Hl, Hm. split_and!; [set_solver|done|set_solver]. Qed.
Lemma tame_within m s s' : tame s s' → within m s → within m s'.
Proof. intros Ht [Ha He]. split; [by eapply tame_accounted|]. destruct Ht as (_ & (_ & Hl & _) & _). by rewrite Hl. Qed.
Lemma calm_keeps {A} (P : run_state → Prop) (m : IO run_state A) : calm m → (∀ s s', tame s s' → P s → P s') → io_keeps P m.
Proof. intros Hm HP s Hs. destruct (m s) as [r s'] eqn:E. eapply HP; [by eapply Hm|done]. Qed.

Lemma release_each_spec held : ∀ s, ∃ s', release_each held s = (Ok tt, s') ∧ ctx s' = ctx s ∧ gives_back s s'
  ∧ locks (sv s') ⊆ locks (sv s) ∧ slots (sv s') ⊆ slots (sv s) ∖ list_to_set held.
Proof.
  induction held as [|[[b k] token] held IH]; intros s; simpl.
  { exists s. split_and!; [done|done|apply gives_back_refl|done|set_solver]. }
  unfold attempt, on_services, try_except, mbind, IO_bind.
  destruct (release_answers Hans b k token (sv s)) as [s1 E]. rewrite E. simpl.
  destruct (release_law _ _ _ _ _ _ E) as (Hl & Hi & Hs).
  destruct (IH (RunState (ctx s) s1)) as (s' & E' & Hc & (_ & _ & Hi') & Hl' & Hs'). exists s'. rewrite E'. simpl in *.
  split_and!; [done|done| |set_solver|set_solver]. split; [by rewrite Hc|split; [by rewrite Hc|]]. intros k'. by rewrite Hi', Hi.
Qed.

Lemma release_slots_spec m s : accounted m s → ∃ s', release_slots s = (Ok tt, s') ∧ within m s' ∧ gives_back s s'.
Proof.
  intros (Hs & Hm & Hl). unfold release_slots, get_ctx, io_gets, set_ctx, mbind, IO_bind. simpl.
  destruct (release_each_spec (rev (cx_llm_slots (ctx s))) (RunState (ctx s <| cx_llm_slots := [] |>) (sv s)))
    as (s' & E & Hc & (_ & _ & Hi) & Hl' & Hs'). exists s'. simpl in *. split_and!; [done| |].
  - split; [|by rewrite Hc]. unfold accounted. rewrite Hc. simpl. split_and!; [|done|set_solver].
    intros x Hx. apply Hs' in Hx. apply elem_of_difference in Hx as [Hx Hn]. apply Hs in Hx.
    rewrite elem_of_list_to_set, list_elem_of_In, <- in_rev, <- list_elem_of_In in Hn. set_solver.
  - split; [by rewrite Hc|split; [by rewrite Hc|done]].
Qed.

Lemma img_delete (m : gmap string Z) t h x : m !! t = Some h → x ∈ (map_img m : gset Z) → x ≠ h → x ∈ (map_img (delete t m) : gset Z).
Proof.
  intros Ht (i & Hi)%elem_of_map_img Hne. apply elem_of_map_img. exists i. rewrite lookup_delete_ne; [done|]. intros ->. congruence.
Qed.

Lemma release_lock_spec m t s : accounted m s → ∃ s', release_lock t s = (Ok tt, s') ∧ accounted (delete t m) s' ∧ gives_back s s'
  ∧ cx_llm_slots (ctx s') = cx_llm_slots (ctx s).
Proof.
  intros (Hs & <- & Hl). unfold release_lock, get_ctx, io_gets, set_ctx, on_services, mbind, IO_bind, mret, IO_ret. simpl.
  destruct (cx_space_locks (ctx s) !! t) as [h|] eqn:Ht; simpl.
  - destruct (exit_answers Hans h (sv s)) as [s1 E]. rewrite E. destruct (exit_law _ _ _ _ E) as (Hs' & Hi & Hl').
    eexists. split; [done|]. unfold accounted. simpl. split_and!; [set_solver|done| |by repeat split|done].
    intros x Hx. apply Hl' in Hx. apply elem_of_difference in Hx as [Hx Hn]. rewrite elem_of_singleton in Hn.
    apply Hl in Hx. apply elem_of_union in Hx as [Hx|Hx]; [set_solver|]. apply elem_of_union_r. by eapply img_delete.
  - eexists. split; [done|]. unfold accounted. simpl. split_and!; [done|done| |by repeat split|done]. by rewrite delete_id.
Qed.

Lemma release_all_spec l : ∀ m s, accounted m s → ∃ s', io_for l tt (λ _ t, release_lock t) s = (Ok tt, s')
  ∧ accounted (fold_left (λ m t, delete t m) l m) s' ∧ gives_back s s' ∧ cx_llm_slots (ctx s') = cx_llm_slots (ctx s).
Proof.
  induction l as [|t l IH]; intros m s Ha; simpl; [exists s; split_and!; [done|done|apply gives_back_refl|done]|].
  destruct (release_lock_spec m t s Ha) as (s1 & E1 & Ha1 & Hg1 & Hl1). unfold mbind, IO_bind. rewrite E1.
  destruct (IH (delete t m) s1 Ha1) as (s2 & E2 & Ha2 & Hg2 & Hl2). exists s2. split_and!; [done|done| |congruence].
  by eapply gives_back_trans.
Qed.

Lemma delete_all l : ∀ m : gmap string Z, (∀ t h, m !! t = Some h → t ∈ l) → fold_left (λ m t, delete t m) l m = ∅.
Proof.
  induction l as [|t l IH]; intros m Hm; simpl.
  - apply map_eq. intros i. rewrite lookup_empty. destruct (m !! i) as [h|] eqn:E; [|done]. by apply Hm, elem_of_nil in E.
  - apply IH. intros t' h [Hne E]%lookup_delete_Some. apply Hm, elem_of_cons in E as [->|]; done.
Qed.

Lemma release_every_lock m s e x : accounted m s → ∃ s', on_error space_lock_hook e x s = (Ok tt, s') ∧ accounted ∅ s' ∧ gives_back s s'
  ∧ cx_llm_slots (ctx s') = cx_llm_slots (ctx s).
Proof.
  intros Ha. simpl. unfold get_ctx, io_gets, mbind at 1, IO_bind at 1.
  destruct (release_all_spec (map fst (map_to_list (cx_space_locks (ctx s)))) m s Ha) as (s' & E & Ha' & Hg & Hl).
  exists s'. split_and!; [done| |done|done]. rewrite delete_all in Ha'; [done|].
  intros t h Ht. destruct Ha as (_ & Hm & _). rewrite <- Hm in Ht. apply elem_of_map. exists (t, h). split; [done|]. by apply elem_of_map_to_list.
Qed.

(** * The loops over the hooks *)

Lemma keeps_for (P : run_state → Prop) (body : hook → IO run_state unit) l :
  Forall (λ h, io_keeps P (body h)) l → io_keeps P (io_for l tt (λ _ h, body h)).
Proof.
  induction 1 as [|h l Hh _ IH]; simpl; [intros s Hs; done|]. apply io_keeps_bind; [done|]. by intros [].
Qed.

(** What one of the hooks reaches and the later ones keep *)
Lemma for_reaches (P Q : run_state → Prop) (body : hook → IO run_state unit) l1 h l2 :
  Forall (λ h, io_keeps P (body h)) l1 →
  io_triple P (body h) (λ r s, P s ∧ match r with Ok _ => Q s | Raise _ => True end) →
  Forall (λ h, io_keeps P (body h) ∧ io_keeps Q (body h)) l2 →
  io_triple P (io_for (l1 ++ h :: l2) tt (λ _ h, body h)) (λ r s, P s ∧ match r with Ok _ => Q s | Raise _ => True end).
Proof.
  intros Hfst Hh Hrest. induction Hfst as [|h1 l1 Hh1 _ IH]; simpl.
  - eapply io_triple_bind with (R := λ _ s, P s ∧ Q s).
    + eapply io_triple_post; [exact Hh|]. intros [a|e] s; simpl; tauto.
    + intros []. clear Hh. assert (io_keeps (λ s, P s ∧ Q s) (io_for l2 tt (λ _ h, body h))) as Hk.
      { apply keeps_for. eapply Forall_impl; [exact Hrest|]. simpl. intros h' [HP HQ] s [? ?]. split; [by apply HP|by apply HQ]. }
      eapply io_triple_post; [by apply io_triple_keeps|]. simpl. intros [|] s [? ?]; done.
  - eapply io_triple_bind with (R := λ _, P).
    + eapply io_triple_post; [by apply io_triple_keeps|]. intros [|] s; simpl; [done|]. done.
    + by intros [].
Qed.

Lemma keeps_for_acc {B} (P : run_state → Prop) (body : B → hook → IO run_state B) l :
  Forall (λ h, ∀ b, io_keeps P (body b h)) l → ∀ b, io_keeps P (io_for l b body).
Proof.
  induction 1 as [|h l Hh _ IH]; intros b; simpl; [intros s Hs; done|]. apply io_keeps_bind; [apply Hh|apply IH].
Qed.
Lemma for_last (P Q : run_state → Prop) (body : hook → IO run_state unit) l h :
  (∀ s, P s → Q s) → Forall (λ h, io_keeps P (body h)) l → io_triple P (body h) (λ _, Q) →
  io_triple P (io_for (l ++ [h]) tt (λ _ h, body h)) (λ _, Q).
Proof.
  intros HPQ Hl Hh. induction Hl as [|h1 l Hh1 _ IH]; simpl.
  - eapply io_triple_bind with (R := λ _, Q); [eapply io_triple_post; [exact Hh|]; by intros [|] s|].
    intros []. by apply io_triple_ret.
  - eapply io_triple_bind with (R := λ _, P); [|by intros []].
    eapply io_triple_post; [by apply io_triple_keeps|]. intros [|] s; simpl; auto.
Qed.
Lemma notify_cons (P P1 Q : run_state → Prop) h l e x :
  io_triple P (on_error h e x) (λ _, P1) → io_triple P1 (io_for l tt (λ _ h, attempt (on_error h e x))) (λ _, Q) →
  io_triple P (io_for (h :: l) tt (λ _ h, attempt (on_error h e x))) (λ _, Q).
Proof.
  intros Hh Hl. simpl. eapply io_triple_bind with (R := λ _, P1); [|by intros []].
  eapply io_triple_try; [exact Hh|intros e'; by apply io_triple_ret..].
Qed.

(** ** The idempotency key is neither a slot nor a lock *)

Definition mild (s s' : run_state) : Prop :=
  cx_llm_slots (ctx s') = cx_llm_slots (ctx s) ∧ cx_space_locks (ctx s') = cx_space_locks (ctx s)
  ∧ slots (sv s') ⊆ slots (sv s) ∧ locks (sv s') ⊆ locks (sv s).
Definition stable (P : run_state → Prop) : Prop := ∀ s s', mild s s' → P s → P s'.
Lemma tame_mild s s' : tame s s' → mild s s'.
Proof. by intros (_ & (_ & ? & ?) & ? & ? & _). Qed.
Lemma accounted_stable m : stable (accounted m).
Proof. intros s s' (Hl & Hm & Hs & Hk) (Hs0 & <- & Hk0). unfold accounted. rewrite Hl, Hm. split_and!; [by etrans|done|by etrans]. Qed.
Lemma within_stable m : stable (within m).
Proof. intros s s' Hx [Ha He]. split; [by eapply accounted_stable|]. destruct Hx as (-> & _). done. Qed.
Lemma keeps_calm {A} P (m : IO run_state A) : stable P → calm m → io_keeps P m.
Proof. intros HP Hm. eapply calm_keeps; [done|]. intros s s' Ht. apply HP. by apply tame_mild. Qed.
Lemma keeps_services {A} P (m : IO Sv A) : stable P →
  (∀ s r s', m s = (r, s') → slots s' ⊆ slots s ∧ locks s' ⊆ locks s) → io_keeps P (on_services m).
Proof.
  intros HP Hm s Hs. unfold on_services. destruct (m (sv s)) as [r s'] eqn:E. destruct (Hm _ _ _ E). eapply HP; [|done]. done.
Qed.
Lemma keeps_set P (f : run_context V → run_context V) : stable P →
  (∀ c, cx_llm_slots (f c) = cx_llm_slots c ∧ cx_space_locks (f c) = cx_space_locks c) → io_keeps P (set_ctx f).
Proof. intros HP Hf s Hs. eapply HP; [|done]. destruct (Hf (ctx s)). done. Qed.

Lemma keeps_begin P key : stable P → io_keeps P (begin_or_local key).
Proof.
  intros HP. assert (∀ b, io_keeps P (on_services (begin_key b key))) as Hb.
  { intros b. apply keeps_services; [done|]. intros s r s' E. by destruct (begin_law _ _ _ _ _ E) as (? & ? & _). }
  unfold begin_or_local. repeat keeps_step; auto.
Qed.
Lemma keeps_pop P : stable P → io_keeps P pop_idempotency.
Proof. intros HP. unfold pop_idempotency, get_ctx. repeat keeps_step. by apply keeps_set. Qed.
Lemma keeps_complete P b k : stable P → io_keeps P (on_services (complete_key b k)).
Proof. intros HP. apply keeps_services; [done|]. intros s r s' E. by destruct (complete_law _ _ _ _ _ E) as (? & ? & _). Qed.
Lemma keeps_fail P b k : stable P → io_keeps P (on_services (fail_key b k)).
Proof. intros HP. apply keeps_services; [done|]. intros s r s' E. by destruct (fail_law _ _ _ _ _ E) as (? & ? & _). Qed.

Lemma idempotency_keeps P : stable P → io_keeps P (before_agent idempotency_hook)
  ∧ (∀ v, io_keeps P (after_agent idempotency_hook v)) ∧ ∀ e x, io_keeps P (on_error idempotency_hook e x).
Proof.
  intros HP. split_and!; intros; simpl; unfold get_ctx; repeat keeps_step;
    auto using keeps_begin, keeps_pop, keeps_complete, keeps_fail; by apply keeps_set.
Qed.

(** ** The slots and the locks *)

Lemma before_llm_accounted m rq : io_keeps (accounted m) (before_llm llm_usage_hook rq).
Proof.
  pose proof (accounted_stable m) as HP. simpl. unfold get_ctx. keeps_step; [keeps_step|].
  apply io_keeps_bind; [apply keeps_calm; [done|apply calm_allow]|intros [b budget]]. simpl.
  destruct (negb _); [keeps_step|].
  intros s (Hs & Hm & Hl). unfold on_services, mbind at 1, IO_bind at 1.
  destruct (acquire_slot _ _ _ _) as [r s1] eqn:E. destruct (acquire_law _ _ _ _ _ _ E) as (Hl' & _ & Hs').
  destruct r as [[token|]|e]; simpl; unfold accounted; simpl; (split_and!; [|done|by etrans]).
  - rewrite list_to_set_app_L. simpl. set_solver.
  - by etrans.
  - by etrans.
Qed.
Lemma after_llm_within m rq v : io_triple (accounted m) (after_llm llm_usage_hook rq v) (λ r s, accounted m s ∧ match r with Ok _ => within m s | Raise _ => True end).
Proof.
  simpl. eapply io_triple_bind with (R := λ _ s, within m s).
  - intros s Hs. destruct (release_slots_spec m s Hs) as (s' & -> & Hw & _). done.
  - intros []. eapply io_triple_post; [apply io_triple_keeps|].
    + apply keeps_calm; [apply within_stable|]. calm_auto.
    + intros r s Hw. split; [apply Hw|by destruct r].
Qed.
(** The tool [t] runs: its lock, or no lock, is in the context. *)
Definition busy (t : string) (s : run_state) : Prop := ∃ m, (m = ∅ ∨ ∃ h, m = {[t := h]}) ∧ within m s.
Lemma busy_stable t : stable (busy t).
Proof. intros s s' Hx (m & Hm & Hw). exists m. split; [done|]. by eapply within_stable. Qed.
Lemma idle_busy t s : within ∅ s → busy t s.
Proof. intros Hw. exists ∅. auto. Qed.

Lemma before_tool_busy t a : io_triple (within ∅) (before_tool space_lock_hook t a) (λ _, busy t).
Proof.
  simpl. destruct (negb _); [apply io_triple_ret; apply idle_busy|].
  unfold get_ctx. apply io_triple_gets. intros c. intros s [[(Hs & Hm & Hl) He] _].
  unfold on_services, mbind, IO_bind. destruct (enter_lock _ _) as [r s1] eqn:E. destruct (enter_law _ _ _ _ E) as (Hs' & _ & Hr).
  destruct r as [[h src]|e]; simpl.
  - exists {[t := h]}. split; [eauto|]. split; [|done]. unfold accounted. simpl. rewrite Hm, insert_empty.
    split_and!; [by etrans|done|]. rewrite map_img_singleton_L. rewrite map_img_empty_L in Hl. destruct Hr as [_ Hr]. set_solver.
  - apply idle_busy. split; [|done]. unfold accounted. simpl. split_and!; [by etrans|done|by etrans].
Qed.
Lemma after_tool_idle t a v : io_triple (busy t) (after_tool space_lock_hook t a v) (λ r s, busy t s ∧ match r with Ok _ => within ∅ s | Raise _ => True end).
Proof.
  intros s (m & Hm & Ha & He). simpl. destruct (release_lock_spec m t s Ha) as (s' & -> & Ha' & _ & Hl). simpl.
  assert (within ∅ s') as Hw; [|split; [by apply idle_busy|done]].
  split; [|by rewrite Hl]. assert (delete t m = ∅) as E; [|by rewrite E in Ha'].
  destruct Hm as [->|[h ->]]; [apply delete_empty|apply delete_singleton_eq].
Qed.

Lemma lock_error m e x : io_triple (accounted m) (on_error space_lock_hook e x) (λ _ s, accounted ∅ s).
Proof. intros s Ha. destruct (release_every_lock m s e x Ha) as (s' & -> & Ha' & _). done. Qed.
Lemma lock_error_within m e x : io_triple (within m) (on_error space_lock_hook e x) (λ _ s, within ∅ s).
Proof. intros s [Ha He]. destruct (release_every_lock m s e x Ha) as (s' & -> & Ha' & _ & Hl). split; [done|by rewrite <- He]. Qed.
Lemma llm_error m e x : py_in x ["llm"; "agent"] = true → io_triple (accounted m) (on_error llm_usage_hook e x) (λ _ s, within m s).
Proof. intros Hx s Ha. simpl. rewrite Hx. destruct (release_slots_spec m s Ha) as (s' & -> & Hw & _). done. Qed.
Lemma llm_error_within m e x : io_triple (within m) (on_error llm_usage_hook e x) (λ _ s, within m s).
Proof.
  destruct (py_in x ["llm"; "agent"]) eqn:Hx; [|simpl; rewrite Hx; by apply io_triple_ret].
  eapply io_triple_pre; [by apply llm_error|]. by intros s [].
Qed.

Lemma calm_error_keeps P h e x : stable P → calm_hook h → io_triple P (on_error h e x) (λ _, P).
Proof. intros HP (_&_&_&_&_&_&He). apply io_triple_keeps, keeps_calm; [done|apply He]. Qed.
#[local] Hint Resolve observability_is_calm rate_limit_is_calm session_is_calm task_dispatch_is_calm tool_cache_is_calm
  accounted_stable within_stable busy_stable : hooks.
#[local] Ltac quiet_error := eapply notify_cons; [apply calm_error_keeps; eauto with hooks|].

Lemma notify_rest e x : io_triple (within ∅) (io_for [session_hook; idempotency_hook; rate_limit_hook; observability_hook] tt
  (λ _ h, attempt (on_error h e x))) (λ _, within ∅).
Proof.
  quiet_error. eapply notify_cons; [apply io_triple_keeps, idempotency_keeps; eauto with hooks|]. do 2 quiet_error. by apply io_triple_ret.
Qed.
Lemma notify_within m e x : io_triple (within m) (notify_error default_hooks e x) (λ _, within ∅).
Proof.
  unfold notify_error. simpl rev. eapply notify_cons; [apply lock_error_within|]. do 2 quiet_error.
  eapply notify_cons; [apply llm_error_within|]. apply notify_rest.
Qed.
Lemma notify_accounted m e x : py_in x ["llm"; "agent"] = true → io_triple (accounted m) (notify_error default_hooks e x) (λ _, within ∅).
Proof.
  intros Hx. unfold notify_error. simpl rev. eapply notify_cons; [apply lock_error|]. do 2 quiet_error.
  eapply notify_cons; [by apply llm_error|]. apply notify_rest.
Qed.

(** * The runs *)

Lemma calm_of_hook P h : stable P → calm_hook h → io_keeps P (before_agent h) ∧ (∀ v, io_keeps P (after_agent h v))
  ∧ (∀ rq, io_keeps P (before_llm h rq)) ∧ (∀ rq v, io_keeps P (after_llm h rq v))
  ∧ (∀ t a, io_keeps P (before_tool h t a)) ∧ (∀ t a v, io_keeps P (after_tool h t a v)).
Proof. intros HP (?&?&?&?&?&?&_). split_and!; intros; apply keeps_calm; auto. Qed.
Lemma keeps_ret_any {A} P (a : A) : io_keeps (S := run_state) P (mret a).
Proof. apply io_keeps_ret. Qed.
(** The handlers that the model gives no body, and those that take nothing *)
#[local] Ltac quiet_handler :=
  first [ apply keeps_ret_any
        | solve [eapply calm_of_hook; eauto with hooks]
        | solve [eapply idempotency_keeps; eauto with hooks] ].
#[local] Ltac quiet_handlers := repeat (apply Forall_cons; split); try (by apply Forall_nil);
  cbv beta; try match goal with |- llm_request → _ => intros ? | |- ∀ _ : llm_request, _ => intros ? end;
  try match goal with |- _ ∧ _ => split end; try quiet_handler.

Lemma llm_run m request callable : calm callable → io_triple (within m) (run_llm default_hooks request callable)
  (λ r s, match r with Ok _ => within m s | Raise _ => within ∅ s end).
Proof.
  intros Hc. unfold run_llm. eapply io_triple_try with (R := λ r s, accounted m s ∧ match r with Ok _ => within m s | Raise _ => True end).
  - eapply io_triple_pre; [|by intros s [Ha _]].
    eapply io_triple_bind with (R := λ _, accounted m).
    + eapply io_triple_post; [apply io_triple_keeps, keeps_for_acc|by intros [|] s].
      quiet_handlers. apply before_llm_accounted.
    + intros rq. eapply io_triple_bind with (R := λ _, accounted m).
      * eapply io_triple_post; [apply io_triple_keeps, keeps_calm; eauto with hooks|by intros [|] s].
      * intros result. eapply io_triple_bind with (R := λ _, within m).
        -- eapply io_triple_post with (Q := λ r s, accounted m s ∧ match r with Ok _ => within m s | Raise _ => True end); [|by intros [|] s [? ?]].
           apply (for_reaches (accounted m) (within m) (λ h, after_llm h rq result) [space_lock_hook; tool_cache_hook; task_dispatch_hook]
                    llm_usage_hook [session_hook; idempotency_hook; rate_limit_hook; observability_hook]);
             [quiet_handlers|apply after_llm_within|quiet_handlers].
        -- intros []. apply io_triple_ret. intros s Hw. split; [apply Hw|done].
  - intros e. eapply io_triple_bind with (R := λ _, within ∅).
    + eapply io_triple_post; [eapply io_triple_pre; [by apply notify_accounted|by intros s []]|]. by intros [|] s.
    + intros []. by apply io_triple_throw.
  - intros v. apply io_triple_ret. by intros s [].
Qed.

Lemma tool_run t args callable : io_keeps (busy t) callable → io_triple (within ∅) (run_tool default_hooks t args callable) (λ _, within ∅).
Proof.
  intros Hc. unfold run_tool. eapply io_triple_try with (R := λ r s, busy t s ∧ match r with Ok _ => within ∅ s | Raise _ => True end).
  - eapply io_triple_bind with (R := λ _, busy t).
    + eapply io_triple_post with (Q := λ _, busy t); [|by intros [|] s].
      apply (for_last (within ∅) (busy t) (λ h, before_tool h t args)
               [observability_hook; rate_limit_hook; idempotency_hook; session_hook; llm_usage_hook; task_dispatch_hook; tool_cache_hook]
               space_lock_hook); [apply idle_busy|quiet_handlers|apply before_tool_busy].
    + intros []. eapply io_triple_bind with (R := λ _, busy t).
      * eapply io_triple_post with (Q := λ _, busy t); [|by intros [|] s]. apply io_triple_keeps.
        unfold cached_or_call, get_ctx. repeat keeps_step; [apply keeps_set; eauto with hooks|done].
      * intros result. eapply io_triple_bind with (R := λ _, within ∅).
        -- eapply io_triple_post with (Q := λ r s, busy t s ∧ match r with Ok _ => within ∅ s | Raise _ => True end); [|by intros [|] s [? ?]].
           apply (for_reaches (busy t) (within ∅) (λ h, after_tool h t args result) [] space_lock_hook
                    [tool_cache_hook; task_dispatch_hook; llm_usage_hook; session_hook; idempotency_hook; rate_limit_hook; observability_hook]);
             [quiet_handlers|apply after_tool_idle|quiet_handlers].
        -- intros []. apply io_triple_ret. intros s Hw. split; [by apply idle_busy|done].
  - intros e. eapply io_triple_bind with (R := λ _, within ∅).
    + eapply io_triple_post with (Q := λ _, within ∅); [|by intros [|] s]. intros s [(m & _ & Hw) _]. by eapply notify_within.
    + intros []. by apply io_triple_throw.
  - intros v. apply io_triple_ret. by intros s [].
Qed.

Lemma agent_run callable : io_keeps (within ∅) callable → io_triple (within ∅) (run_agent default_hooks callable) (λ _, within ∅).
Proof.
  intros Hc. unfold run_agent. eapply io_triple_try with (R := λ _, within ∅).
  - apply io_triple_keeps. apply io_keeps_bind; [apply keeps_for; quiet_handlers|]. intros [].
    apply io_keeps_bind; [done|]. intros v. apply io_keeps_bind; [|intros []; apply io_keeps_ret].
    apply (keeps_for _ (λ h, after_agent h v)). quiet_handlers.
  - intros e. eapply io_triple_bind with (R := λ _, within ∅).
    + eapply io_triple_post with (Q := λ _, within ∅); [apply notify_within|by intros [|] s].
    + intros []. by apply io_triple_throw.
  - intros v. by apply io_triple_ret.
Qed.
End hooks.

(** * Theorems *)

Section theorems.
Context `{Platform} {Sv V : Type} `{HookServices Sv V, HookSettings, !HookServicesLaws Sv V}.
#[local] Abbreviation run_state := (run_state (Sv := Sv) (V := V)).
#[local] Abbreviation hook := (hook (Sv := Sv) (V := V)).
Implicit Types (callable : IO run_state V) (s : run_state).

(** A run holds nothing, beside what the others hold. *)
Definition idle (others : gset (backend * string * string) * gset Z) : run_state → Prop := within others ∅.

(** C39: what the hooks take they give back, on every path: as long as the services answer when
    something is given back, a run of an agent, of one of its tools or of the model that starts with
    no slot and no lock ends with none, whether it returns, fails or is refused by a hook.  A call of
    the model inside of a tool returns with the locks of the tool, and fails without them. *)
Theorem everything_taken_is_given_back others : answers (Sv := Sv) (V := V) →
  (∀ callable, io_keeps (idle others) callable → io_keeps (idle others) (run_agent default_hooks callable))
  ∧ (∀ t args callable, io_keeps (busy others t) callable → io_keeps (idle others) (run_tool default_hooks t args callable))
  ∧ (∀ m request callable, calm callable → io_triple (within others m) (run_llm default_hooks request callable)
       (λ r s, match r with Ok _ => within others m s | Raise _ => idle others s end)).
Proof.
  intros Hans. split_and!.
  - intros callable Hc. exact (agent_run Hans others callable Hc).
  - intros t args callable Hc. exact (tool_run Hans others t args callable Hc).
  - intros m request callable Hc. exact (llm_run Hans others m request callable Hc).
Qed.

(** A call of the model is one of the things that a tool may do. *)
Lemma llm_inside_a_tool others t request callable : answers (Sv := Sv) (V := V) → calm callable →
  io_keeps (busy others t) (run_llm default_hooks request callable).
Proof.
  intros Hans Hc s (m & Hm & Hw). pose proof (llm_run Hans others m request callable Hc s Hw) as Hr.
  destruct (run_llm _ _ _ s) as [[v|e] s']; simpl in *; [by exists m|by apply idle_busy].
Qed.

(** [SpaceLockHook.on_error] does not look at the scope: a call of the model that fails inside of a
    tool gives the lock of the tool away, also when the tool catches the exception and goes on. *)
Lemma failed_call_unlocks_the_tool others t h request callable s e s' : answers (Sv := Sv) (V := V) → calm callable →
  within others {[t := h]} s → h ∉ others.2 → run_llm default_hooks request callable s = (Raise e, s') →
  cx_space_locks (ctx s') = ∅ ∧ h ∉ locks (sv s').
Proof.
  intros Hans Hc Hw Hh Hr. pose proof (llm_run Hans others _ request callable Hc s Hw) as H'. rewrite Hr in H'. simpl in H'.
  destruct H' as [(_ & Hm & Hl) _]. split; [done|]. intros Hin. apply Hl, elem_of_union in Hin as [Hin|Hin]; [done|].
  rewrite map_img_empty_L in Hin. by apply elem_of_empty in Hin.
Qed.

(** ** The lock of a write *)

Definition locked (t : string) (s : run_state) : Prop := ∃ h, cx_space_locks (ctx s) !! t = Some h ∧ h ∈ locks (sv s).
Definition if_locked (t : string) callable : IO run_state V := λ s,
  match cx_space_locks (ctx s) !! t with
  | Some h => if bool_decide (h ∈ locks (sv s)) then callable s else (Raise (RuntimeError "the space is not locked"), s)
  | None => (Raise (RuntimeError "the space is not locked"), s)
  end.

Lemma if_locked_same t callable s : locked t s → cached_or_call t callable s = cached_or_call t (if_locked t callable) s.
Proof.
  intros (h & Hh & Hin). unfold cached_or_call, get_ctx, io_gets, mbind, IO_bind.
  destruct (cx_cache_hits (ctx s) !! t); [done|]. unfold if_locked. by rewrite Hh, bool_decide_eq_true_2.
Qed.

Lemma lock_is_taken t args : t ∈ WRITE_TOOLS →
  io_triple (λ _, True) (before_tool space_lock_hook t args) (λ r s, match r with Ok _ => locked t s | Raise _ => True end).
Proof.
  intros Ht s _. simpl. rewrite (bool_decide_eq_true_2 _ Ht : py_in t WRITE_TOOLS = true). simpl.
  unfold get_ctx, io_gets, on_services, mbind, IO_bind. destruct (enter_lock _ _) as [r s1] eqn:E.
  destruct (enter_law _ _ _ _ E) as (_ & _ & Hr). destruct r as [[h src]|e]; simpl; [|done].
  exists h. simpl. rewrite lookup_insert_eq. by destruct Hr.
Qed.

(** C0: a tool that writes runs under the lock of its space: it makes no difference to check, when
    the tool is called, that the lock of the run is in the context and is held. *)
Theorem writes_run_under_the_lock t args callable s : t ∈ WRITE_TOOLS →
  run_tool default_hooks t args callable s = run_tool default_hooks t args (if_locked t callable) s.
Proof.
  intros Ht. unfold run_tool, try_except, mbind at 1 5, IO_bind at 1 5.
  set (l := [observability_hook; rate_limit_hook; idempotency_hook; session_hook; llm_usage_hook; task_dispatch_hook; tool_cache_hook]).
  assert (io_triple (λ _, True) (io_for default_hooks tt (λ _ h, before_tool h t args))
    (λ r s, match r with Ok _ => locked t s | Raise _ => True end)) as Hb.
  { change default_hooks with (l ++ [space_lock_hook])%list. clearbody l. induction l as [|h l IH]; simpl.
    - eapply io_triple_bind with (R := λ _, locked t); [by apply (lock_is_taken t args)|]. intros []. by apply io_triple_ret.
    - eapply io_triple_bind with (R := λ _ _, True); [by intros s' _; destruct (_ s').1|]. by intros []. }
  specialize (Hb s I). destruct (io_for default_hooks tt _ s) as [[[]|e] s1]; simpl in Hb; [|done].
  unfold mbind, IO_bind. by rewrite (if_locked_same t callable s1 Hb).
Qed.

(** ** The idempotency key of a request *)

Section request.
Hypothesis Hans : answers (Sv := Sv) (V := V).
Variable start : run_state.
Variable message_id : string.
Definition request_key : string := Keys.idempotency SUIXINJI_ENV (cx_tenant_id (ctx start)) (cx_run_type (ctx start)) message_id.

(** Nothing begun; the key begun; the key ended, all in the run of [start] *)
Definition fresh s : Prop := same_run (ctx start) (ctx s) ∧ cx_idempotency (ctx s) = None ∧ ∀ k, idem (sv s) k = idem (sv start) k.
Definition key_is (b : backend) (status : string) s : Prop := same_run (ctx start) (ctx s)
  ∧ idem (sv s) (b, request_key) = Some status ∧ ∀ k, k ≠ (b, request_key) → idem (sv s) k = idem (sv start) k.
Definition begun b s : Prop := key_is b "processing" s ∧ cx_idempotency (ctx s) = Some (b, request_key).
Definition ended b status s : Prop := key_is b status s ∧ cx_idempotency (ctx s) = None.
(** Kept by what does not end a key *)
Definition unended (P : run_state → Prop) : Prop := ∀ s s', gives_back s s' → P s → P s'.

Lemma same_run_trans (c1 c2 c3 : run_context V) : same_run c1 c2 → same_run c2 c3 → same_run c1 c3.
Proof. intros (?&?&?&?&?&?) (?&?&?&?&?&?). split_and!; congruence. Qed.
Lemma fresh_unended : unended fresh.
Proof.
  intros s s' (Hc & Hi & Hk) (Hr & Hn & Hk0). split; [by eapply same_run_trans|]. split; [congruence|]. intros k. by rewrite Hk, Hk0.
Qed.
Lemma key_unended b st s s' : gives_back s s' → key_is b st s → key_is b st s'.
Proof.
  intros (Hc & _ & Hk) (Hr & Hst & Hk0). split; [by eapply same_run_trans|]. split; [by rewrite Hk|]. intros k Hne. rewrite Hk. by apply Hk0.
Qed.
Lemma begun_unended b : unended (begun b).
Proof. intros s s' Hg [Hk Hb]. split; [by eapply key_unended|]. destruct Hg as (_ & -> & _). done. Qed.
Lemma ended_unended b st : unended (ended b st).
Proof. intros s s' Hg [Hk Hb]. split; [by eapply key_unended|]. destruct Hg as (_ & -> & _). done. Qed.

Lemma calm_unended {A} P (m : IO run_state A) : unended P → calm m → io_keeps P m.
Proof. intros HP Hm. eapply calm_keeps; [done|]. intros s s' (? & (? & _) & _ & _ & ?). by apply HP. Qed.

(** The error handlers of the slots and locks do not end a key. *)
Lemma holders s : accounted (slots (sv s), locks (sv s)) (cx_space_locks (ctx s)) s.
Proof. unfold accounted. simpl. split_and!; [set_solver|done|set_solver]. Qed.
Lemma lock_error_unended P e x : unended P → io_keeps P (on_error space_lock_hook e x).
Proof. intros HP s Hs. destruct (release_every_lock Hans _ _ s e x (holders s)) as (s' & E & _ & Hg & _). rewrite E. by eapply HP. Qed.
Lemma llm_error_unended P e x : unended P → io_keeps P (on_error llm_usage_hook e x).
Proof.
  intros HP s Hs. simpl. destruct (py_in x _); [|done].
  destruct (release_slots_spec Hans _ _ s (holders s)) as (s' & E & _ & Hg). rewrite E. by eapply HP.
Qed.

#[local] Hint Resolve fresh_unended begun_unended ended_unended observability_is_calm rate_limit_is_calm session_is_calm
  task_dispatch_is_calm tool_cache_is_calm : hooks.
Lemma calm_error_unended P h e x : unended P → calm_hook h → io_triple P (on_error h e x) (λ _, P).
Proof. intros HP (_&_&_&_&_&_&He). apply io_triple_keeps, calm_unended; [done|apply He]. Qed.
#[local] Ltac quiet_error := eapply notify_cons; [apply calm_error_unended; eauto with hooks|].

(** The error handler of the key *)
Lemma key_error b e : io_triple (begun b) (on_error idempotency_hook e "agent") (λ _, ended b "failed").
Proof.
  intros s [(Hr & Hst & Hk0) Hb]. simpl. unfold pop_idempotency, get_ctx, io_gets, set_ctx, on_services, mbind, IO_bind, mret, IO_ret.
  simpl. rewrite Hb. simpl. destruct (fail_answers Hans b request_key (sv s) Hst) as [s1 E]. rewrite E. simpl.
  destruct (fail_law _ _ _ _ _ E) as (_ & _ & Hk & Hnew). split; [|done]. split; [done|]. split; [done|].
  intros k Hne. simpl. rewrite Hk by done. by apply Hk0.
Qed.
Lemma fresh_error e : io_triple fresh (on_error idempotency_hook e "agent") (λ _, fresh).
Proof.
  intros s (Hr & Hn & Hk0). simpl. unfold pop_idempotency, get_ctx, io_gets, set_ctx, mbind, IO_bind, mret, IO_ret. simpl. by rewrite Hn.
Qed.
Lemma notify_key (P Q : run_state → Prop) e : unended P → unended Q → io_triple P (on_error idempotency_hook e "agent") (λ _, Q) →
  io_triple P (notify_error default_hooks e "agent") (λ _, Q).
Proof.
  intros HP HQ Hi. unfold notify_error. simpl rev.
  eapply notify_cons; [by apply io_triple_keeps, lock_error_unended|]. do 2 quiet_error.
  eapply notify_cons; [by apply io_triple_keeps, llm_error_unended|]. quiet_error.
  eapply notify_cons; [exact Hi|]. do 2 quiet_error. by apply io_triple_ret.
Qed.

(** The handlers before and after the run *)
Hypothesis Hmessage : cx_message_id (ctx start) = Some message_id.
Hypothesis Hnamed : message_id ≠ "".
Hypothesis Htask : falsy (cx_task_id (ctx start)) = true.

Lemma begin_key_spec b s : fresh s → io_triple (λ s', s' = s) (on_services (begin_key b request_key))
  (λ r s', fresh s' ∧ r ≠ Ok true ∨ r = Ok true ∧ key_is b "processing" s' ∧ cx_idempotency (ctx s') = None).
Proof.
  intros (Hr & Hn & Hk0) _ ->. unfold on_services. destruct (begin_key b request_key (sv s)) as [r s1] eqn:E.
  destruct (begin_law _ _ _ _ _ E) as (_ & _ & Hk & Hnew). simpl.
  destruct r as [[|]|e]; [right|left..].
  - split; [done|]. split; [|done]. split; [done|]. split; [done|]. intros k Hne. simpl. rewrite Hk by done. apply Hk0.
  - split; [|done]. split; [done|]. split; [done|]. intros k. simpl.
    destruct (decide (k = (b, request_key))) as [->|Hne]; [rewrite Hnew|rewrite Hk by done]; apply Hk0.
  - split; [|done]. split; [done|]. split; [done|]. intros k. simpl.
    destruct (decide (k = (b, request_key))) as [->|Hne]; [rewrite Hnew|rewrite Hk by done]; apply Hk0.
Qed.

Definition acquired_spec (r : Prelude.result (backend * bool)) s : Prop :=
  match r with
  | Ok (b, true) => key_is b "processing" s ∧ cx_idempotency (ctx s) = None
  | _ => fresh s
  end.
Lemma begin_local s : fresh s → acquired_spec
  ((acquired ← on_services (begin_key LocalBackend request_key); mret (LocalBackend, acquired)) s).1
  ((acquired ← on_services (begin_key LocalBackend request_key); mret (LocalBackend, acquired)) s).2.
Proof.
  intros Hf. unfold mbind, IO_bind. pose proof (begin_key_spec LocalBackend s Hf s eq_refl) as Hb.
  destruct (on_services (begin_key LocalBackend request_key) s) as [[[|]|e] s1]; simpl in *; destruct Hb as [[? ?]|(? & ? & ?)]; done.
Qed.
Lemma begin_spec : io_triple fresh (begin_or_local request_key) acquired_spec.
Proof.
  intros s Hf. unfold begin_or_local. destruct coordination_is_redis; [|by apply begin_local].
  unfold try_except. pose proof (begin_key_spec RedisBackend s Hf s eq_refl) as Hb.
  destruct (on_services (begin_key RedisBackend request_key) s) as [[[|]|e] s1]; simpl in *; destruct Hb as [[? ?]|(? & ? & ?)]; try done.
  by apply begin_local.
Qed.

Lemma idempotency_begins : io_triple fresh (before_agent idempotency_hook)
  (λ r s, match r with Ok _ => ∃ b, begun b s | Raise _ => fresh s end).
Proof.
  simpl. unfold get_ctx. apply io_triple_gets. intros c s [Hf ->]. pose proof Hf as ((_ & Ht & Hy & Hm & Hk & _) & _).
  rewrite Hm, Hk, Hmessage, Htask, Ht, Hy. simpl. rewrite (proj2 (String.eqb_neq _ _) Hnamed). simpl.
  change (Keys.idempotency _ _ _ message_id) with request_key. unfold mbind, IO_bind.
  pose proof (begin_spec s Hf) as Hb. destruct (begin_or_local request_key s) as [[[b [|]]|e] s1]; simpl in *; [|done..].
  destruct Hb as [(Hr & Hst & Hk0) Hn]. exists b. split; [|done]. by split.
Qed.

(** Stages of a loop: [E] describes where it stopped. *)
Definition to (P Q E : run_state → Prop) (m : IO run_state unit) : Prop :=
  io_triple P m (λ r s, match r with Ok _ => Q s | Raise _ => E s end).
Lemma for_stages (P Q E : run_state → Prop) (body : hook → IO run_state unit) l1 h l2 :
  Forall (λ h, to P P E (body h)) l1 → to P Q E (body h) → Forall (λ h, to Q Q E (body h)) l2 →
  to P Q E (io_for (l1 ++ h :: l2) tt (λ _ h, body h)).
Proof.
  intros Hl1 Hh Hl2. induction Hl1 as [|h1 l1 Hh1 _ IH]; simpl.
  - eapply io_triple_bind with (R := λ _, Q); [exact Hh|]. intros []. clear Hh. induction Hl2 as [|h2 l2 Hh2 _ IH]; simpl.
    + by apply io_triple_ret.
    + eapply io_triple_bind with (R := λ _, Q); [exact Hh2|]. by intros [].
  - eapply io_triple_bind with (R := λ _, P); [exact Hh1|]. by intros [].
Qed.
Lemma to_calm P (E : run_state → Prop) m : unended P → calm m → (∀ s, P s → E s) → to P P E m.
Proof. intros HP Hm HE. eapply io_triple_post; [apply io_triple_keeps; by apply calm_unended|]. intros [|] s; simpl; auto. Qed.
Lemma to_done P E : to P P E (mret tt).
Proof. by apply io_triple_ret. Qed.
Lemma to_attempt P E m : unended P → calm m → to P P E (attempt m).
Proof.
  intros HP Hm. unfold to, attempt. eapply io_triple_try with (R := λ _, P).
  - apply io_triple_keeps. by apply calm_unended.
  - intros e. by apply io_triple_ret.
  - intros []. by apply io_triple_ret.
Qed.

Definition some_begun s : Prop := ∃ b, begun b s.
Lemma some_begun_unended : unended some_begun.
Proof. intros s s' Hg [b Hb]. exists b. by eapply begun_unended. Qed.
#[local] Hint Resolve some_begun_unended : hooks.
Lemma before_spec : to fresh some_begun (λ s, fresh s ∨ some_begun s) (io_for default_hooks tt (λ _ h, before_agent h)).
Proof.
  apply (for_stages _ _ _ before_agent [observability_hook; rate_limit_hook] idempotency_hook
    [session_hook; llm_usage_hook; task_dispatch_hook; tool_cache_hook; space_lock_hook]).
  - repeat (apply Forall_cons; split); [| |by apply Forall_nil]; (apply to_calm; [eauto with hooks| |auto]);
      [apply observability_is_calm|apply rate_limit_is_calm].
  - eapply io_triple_post; [apply idempotency_begins|]. intros [|] s; simpl; auto.
  - repeat (apply Forall_cons; split); try (by apply Forall_nil); try apply to_done.
    apply to_calm; [eauto with hooks|apply session_is_calm|auto].
Qed.

Lemma key_completes b v : to (begun b) (ended b "completed") (begun b) (after_agent idempotency_hook v).
Proof.
  intros s [(Hr & Hst & Hk0) Hb]. simpl. unfold pop_idempotency, get_ctx, io_gets, set_ctx, on_services, mbind, IO_bind, mret, IO_ret.
  simpl. rewrite Hb. simpl. destruct (complete_answers Hans b request_key (sv s) Hst) as [s1 E]. rewrite E. simpl.
  destruct (complete_law _ _ _ _ _ E) as (_ & _ & Hk & Hnew). split; [|done]. split; [done|]. split; [done|].
  intros k Hne. simpl. rewrite Hk by done. by apply Hk0.
Qed.
Lemma after_spec b v : to (begun b) (ended b "completed") (begun b) (io_for (rev default_hooks) tt (λ _ h, after_agent h v)).
Proof.
  apply (for_stages _ _ _ (λ h, after_agent h v) [space_lock_hook; tool_cache_hook; task_dispatch_hook; llm_usage_hook; session_hook]
    idempotency_hook [rate_limit_hook; observability_hook]).
  - repeat (apply Forall_cons; split); try (by apply Forall_nil); try apply to_done.
    apply to_calm; [eauto with hooks|apply session_is_calm|auto].
  - apply key_completes.
  - repeat (apply Forall_cons; split); try (by apply Forall_nil); [apply to_done|]. simpl. unfold get_ctx.
    apply io_triple_gets. intros c. eapply io_triple_pre; [apply to_attempt; [eauto with hooks|calm_auto]|]. by intros s [].
Qed.

(** The context and the keys are left alone by what the agent does. *)
Definition leaves_key callable : Prop := ∀ s r s', callable s = (r, s') → gives_back s s'.

End request.
End theorems.

(** * A process whose Redis does not answer *)

Module Example.
#[local] Existing Instance test_platform.

(** The limiter and the idempotency keys of the process, the locks taken, and the moment *)
Record desk := Desk {
  dk_now : Z;
  dk_fresh : nat;
  dk_limiter : LocalLimiter.limiter;
  dk_items : LocalIdempotency.items;
  dk_locks : gset Z;
  dk_log : list string;
}.
#[local] Instance desk_eta : Eta desk := λ d, Desk (dk_now d) (dk_fresh d) (dk_limiter d) (dk_items d) (dk_locks d) (dk_log d).

Definition down {A} : IO desk A := throw (OtherError "ConnectionError" "Connection refused").
Definition log (line : string) : IO desk unit := io_modify (λ d, d <| dk_log := (dk_log d ++ [line])%list |>).
(** The local backend, or no answer *)
Definition locally {A} (b : backend) (m : IO desk A) : IO desk A := match b with RedisBackend => down | LocalBackend => m end.

Definition slots_of (l : LocalLimiter.limiter) : gset (backend * string * string) :=
  list_to_set (map_to_list (LocalLimiter.slots l) ≫= λ kv, map (λ tv, (LocalBackend, kv.1, tv.1)) (map_to_list kv.2)).

#[local] Instance desk_services : HookServices desk string := {|
  begin_key := λ b k, locally b (λ d, let '(r, i) := LocalIdempotency.begin 60 k (dk_now d) (dk_items d) in (Ok r, d <| dk_items := i |>));
  complete_key := λ b k, locally b (io_modify (λ d, d <| dk_items := LocalIdempotency.complete 60 k (dk_now d) (dk_items d) |>));
  fail_key := λ b k, locally b (io_modify (λ d, d <| dk_items := LocalIdempotency.fail 60 k (dk_now d) (dk_items d) |>));
  allow := λ b k limit cost, locally b (λ d,
    let '(r, l) := LocalLimiter.allow k limit 60 cost (dk_now d) (dk_limiter d) in (Ok r, d <| dk_limiter := l |>));
  acquire_slot := λ b k limit, locally b (λ d,
    let '(r, l) := LocalLimiter.acquire_slot k limit 60 (pretty (Z.of_nat (dk_fresh d))) (dk_now d) (dk_limiter d) in
    (Ok r, d <| dk_limiter := l |> <| dk_fresh := S (dk_fresh d) |>));
  release_slot := λ b k token, match b with
    | RedisBackend => mret tt
    | LocalBackend => io_modify (λ d, d <| dk_limiter := LocalLimiter.release_slot k token (dk_limiter d) |>) end;
  enter_lock := λ k d, let h := Z.of_nat (dk_fresh d) in (Ok (h, "postgres"), d <| dk_locks := {[h]} ∪ dk_locks d |> <| dk_fresh := S (dk_fresh d) |>);
  exit_lock := λ h, io_modify (λ d, d <| dk_locks := dk_locks d ∖ {[h]} |>);
  cache_get := λ _ _ _, down; cache_set := λ _ _ _ _, down; cache_bump := λ _, down;
  session_get := λ _ _, down; session_set := λ _ _ _, down; session_delete := λ _ _, down; session_touch := λ _ _, down;
  enqueue_task := λ y _ _ _ n _ _ _, log ("enqueue " +:+ y +:+ " " +:+ n);; mret "task";
  start_agent_run := λ r, log ("start " +:+ r);
  finish_agent_run := λ r x _, log ("finish " +:+ r +:+ " " +:+ x);
  add_agent_step := λ _ n y x t _, log ("step " +:+ pretty n +:+ " " +:+ y +:+ " " +:+ x +:+ " " +:+ t);
  add_llm_usage := λ _ i o, log ("usage " +:+ pretty i +:+ " " +:+ pretty o);
  slots := λ d, slots_of (dk_limiter d);
  locks := dk_locks;
  idem := λ d '(b, k), match b with RedisBackend => None | LocalBackend => fst <$> dk_items d !! k end;
  args_text := λ v, v; result_text := λ v, v; queued_value := λ id, "queued " +:+ id;
  truthy := λ v, negb (String.eqb v ""); empty_value := "";
|}.

Lemma elem_of_slots l b k token : (b, k, token) ∈ slots_of l ↔ b = LocalBackend ∧ ∃ m e, LocalLimiter.slots l !! k = Some m ∧ m !! token = Some e.
Proof.
  unfold slots_of. rewrite elem_of_list_to_set, list_elem_of_bind. split.
  - intros ([k' m] & Hin & Hkv). apply elem_of_map in Hin as ([t e] & E & Hte). simpl in *. injection E as <- <- <-. split; [done|].
    exists m, e. split; by apply elem_of_map_to_list.
  - intros (-> & m & e & Hm & He). exists (k, m). split; [|by apply elem_of_map_to_list].
    apply elem_of_map. exists (token, e). split; [done|]. by apply elem_of_map_to_list.
Qed.
Lemma acquired_slots k limit ttl token now l r l' : LocalLimiter.acquire_slot k limit ttl token now l = (r, l') →
  slots_of l' ⊆ match r with Some t => {[(LocalBackend, k, t)]} ∪ slots_of l | None => slots_of l end.
Proof.
  unfold LocalLimiter.acquire_slot. set (mine := filter _ _).
  assert (∀ t e, mine !! t = Some e → (LocalBackend, k, t) ∈ slots_of l) as Hmine.
  { intros t e [He _]%map_lookup_filter_Some. apply elem_of_slots. split; [done|].
    destruct (LocalLimiter.slots l !! k) as [m|]; [by exists m, e|simpl in He; by apply lookup_empty_Some in He]. }
  destruct (_ <=? _); intros [= <- <-]; intros [[b k'] t] (-> & m & e & Hm & He)%elem_of_slots; simpl in Hm;
    (destruct (decide (k' = k)) as [->|Hne]; [rewrite lookup_insert_eq in Hm; injection Hm as <-|rewrite lookup_insert_ne in Hm by congruence]).
  - by eapply Hmine.
  - apply elem_of_slots. eauto.
  - destruct (decide (t = token)) as [->|Ht]; [set_solver|]. rewrite lookup_insert_ne in He by congruence. apply elem_of_union_r. by eapply Hmine.
  - apply elem_of_union_r, elem_of_slots. eauto.
Qed.
Lemma released_slots k token l : slots_of (LocalLimiter.release_slot k token l) ⊆ slots_of l ∖ {[(LocalBackend, k, token)]}.
Proof.
  unfold LocalLimiter.release_slot. intros [[b k'] t] (-> & m & e & Hm & He)%elem_of_slots.
  apply elem_of_difference. rewrite elem_of_singleton. destruct (LocalLimiter.slots l !! k) as [mine|] eqn:Ek; simpl in Hm.
  - destruct (decide (k' = k)) as [->|Hne].
    + rewrite lookup_insert_eq in Hm. injection Hm as <-. apply lookup_delete_Some in He as [Hne He]. split; [|congruence].
      apply elem_of_slots. eauto.
    + rewrite lookup_insert_ne in Hm by congruence. split; [apply elem_of_slots; eauto|congruence].
  - split; [apply elem_of_slots; eauto|]. intros [= -> ->]. congruence.
Qed.
Lemma allowed_slots k limit w cost now l : LocalLimiter.slots (LocalLimiter.allow k limit w cost now l).2 = LocalLimiter.slots l.
Proof. unfold LocalLimiter.allow. by repeat case_match. Qed.

(** A new status of one key *)
Lemma keyed_items k st e (items : LocalIdempotency.items) : fst <$> <[k := (st, e)]> items !! k = Some st
  ∧ ∀ b k', (b, k') ≠ (LocalBackend, k) →
      match b with RedisBackend => None | LocalBackend => fst <$> <[k := (st, e)]> items !! k' end
      = match b with RedisBackend => None | LocalBackend => fst <$> items !! k' end.
Proof.
  split; [by rewrite lookup_insert_eq|]. intros [] k' Hne; [done|]. rewrite lookup_insert_ne; [done|congruence].
Qed.

#[local] Instance desk_laws : HookServicesLaws desk string.
Proof.
  split; unfold quiet; simpl; unfold locally, down, throw, log, io_modify, mbind, IO_bind, mret, IO_ret.
  all: try (intros; repeat case_match; simplify_eq/=; by repeat split).
  - intros [] k s r s'; [intros [= <- <-]; by repeat split|]. unfold LocalIdempotency.begin.
    destruct (match dk_items s !! k with Some (_, expires) => dk_now s <? expires | None => false end); intros [= <- <-];
      simpl; [by repeat split|]. destruct (keyed_items k "processing" (dk_now s + seconds (ttl_seconds 60)) (dk_items s)) as [E E'].
    split_and!; [done|done| |done]. intros [b' k']. apply E'.
  - intros [] k s r s' [= <- <-]; simpl; [by repeat split|].
    destruct (keyed_items k "completed" (dk_now s + seconds (ttl_seconds 60)) (dk_items s)) as [E E'].
    split_and!; [done|done| |done]. intros [b' k']. apply E'.
  - intros [] k s r s' [= <- <-]; simpl; [by repeat split|].
    destruct (keyed_items k "failed" (dk_now s + seconds (failed_ttl 60)) (dk_items s)) as [E E'].
    split_and!; [done|done| |done]. intros [b' k']. apply E'.
  - intros [] k n s r s'; [intros [= <- <-]; by repeat split|].
    destruct (LocalLimiter.acquire_slot _ _ _ _ _ _) as [r0 l] eqn:E. intros [= <- <-]. simpl. split_and!; [done|by intros [[] ?]|].
    by apply acquired_slots in E.
  - intros [] k token s r s' [= <- <-]; simpl; (split_and!; [done|by intros [[] ?]|]); [|apply released_slots].
    intros [[b k'] t] Hin. apply elem_of_difference. split; [done|]. apply elem_of_slots in Hin as [-> _]. set_solver.
  - intros k s r s' [= <- <-]. simpl. split_and!; [done|by intros [[] ?]|set_solver|done].
  - intros [] k n c s r s'; [intros [= <- <-]; by repeat split|].
    destruct (LocalLimiter.allow k n 60 c (dk_now s) (dk_limiter s)) as [r0 l] eqn:E. intros [= <- <-]. simpl.
    split_and!; [|done|by intros [[] ?]]. pose proof (allowed_slots k n 60 c (dk_now s) (dk_limiter s)) as Hs. rewrite E in Hs. simpl in Hs.
    unfold slots_of. by rewrite Hs.
Qed.
Lemma desk_answers : answers (Sv := desk) (V := string).
Proof. split; [intros [] k token s|intros h s|intros [] k s Hk|intros [] k s Hk]; first [done|by eexists]. Qed.

#[local] Instance test_hooks : HookSettings := {|
  coordination_is_redis := true; CACHE_ENABLED := true; queue_is_streams := false;
  RATE_LIMIT_ASK_PER_MINUTE := 20; RATE_LIMIT_INGEST_PER_MINUTE := 120; LLM_TOKEN_BUDGET_PER_MINUTE := 200000;
  LLM_CONCURRENCY_LIMIT := 4; SUIXINJI_ENV := "dev";
|}.

(** A note is processed under its lock; the model fails, and patterns take its place. *)
Definition run_of (message : string) : run_context string :=
  RunContext "run_1" "default" "ann" "chat" (Some message) None "memory" "" false None None "" None [] ∅ ∅ ∅ 0.
Definition quiet_desk : desk := Desk 0 0 (LocalLimiter.Limiter ∅ ∅) ∅ ∅ [].
Definition at_start : run_state (Sv := desk) (V := string) := RunState (run_of "msg_1") quiet_desk.
Definition ask_model : IO (run_state (Sv := desk) (V := string)) string := throw (RuntimeError "no model").
Definition process : IO (run_state (Sv := desk) (V := string)) string :=
  try_except (run_llm default_hooks (LlmRequest None (Some "extract") None) ask_model) (λ _, mret "by patterns") mret.
Definition agent : IO (run_state (Sv := desk) (V := string)) string := run_tool default_hooks "process_memory" "{}" process.
Definition at_end := run_agent default_hooks agent at_start.

Example run_of_a_note : at_end.1 = Ok "by patterns" ∧ dk_log (sv at_end.2) =
  ["start run_1"; "step 1 llm llm failed"; "step 2 tool process_memory completed"; "finish run_1 completed"].
Proof. vm_compute. split; reflexivity. Qed.

Lemma start_is_idle : idle (∅, ∅) at_start.
Proof. repeat split; apply (bool_decide_unpack _); vm_compute; exact I. Qed.
Lemma ask_model_is_calm : calm ask_model.
Proof. apply calm_throw. Qed.
Lemma process_is_busy t : io_keeps (busy (∅, ∅) t) process.
Proof. apply io_keeps_try; [apply llm_inside_a_tool; [apply desk_answers|apply ask_model_is_calm]|intros ?; apply io_keeps_ret..]. Qed.

Lemma everything_taken_is_given_back_witness : idle (∅, ∅) at_end.2 ∧ dk_fresh (sv at_end.2) = 2%nat.
Proof.
  split; [|vm_compute; reflexivity].
  apply (proj1 (everything_taken_is_given_back (∅, ∅) desk_answers) agent); [|exact start_is_idle].
  apply (proj1 (proj2 (everything_taken_is_given_back (∅, ∅) desk_answers)) "process_memory" "{}" process).
  apply process_is_busy.
Defined.

Lemma writes_run_under_the_lock_witness :
  agent at_start = run_tool default_hooks "process_memory" "{}" (if_locked "process_memory" process) at_start
  ∧ (agent at_start).1 = Ok "by patterns".
Proof.
  split; [|vm_compute; reflexivity].
  apply (writes_run_under_the_lock "process_memory" "{}" process at_start). apply (bool_decide_unpack _). vm_compute. exact I.
Defined.

(** The answer to a message, and the same message again *)
Definition answer : IO (run_state (Sv := desk) (V := string)) string := mret "an answer".
Definition answered := run_agent default_hooks answer at_start.
Definition again := run_agent default_hooks answer (RunState (run_of "msg_1") (sv answered.2)).
Example second_is_refused : answered.1 = Ok "an answer" ∧ again.1 = Raise DuplicateAgentRequest.
Proof. vm_compute. split; reflexivity. Qed.

Lemma answered_is : run_agent default_hooks answer at_start = (Ok "an answer", answered.2).
Proof. unfold answered. destruct (run_agent default_hooks answer at_start) as [r s] eqn:E. simpl. f_equal.
  transitivity (run_agent default_hooks answer at_start).1; [by rewrite E|vm_compute; reflexivity]. Qed.
End Example.
