(* ===== verification/KeyPool.v ===== *)
(** The pool of API keys that the model client rotates through: [core/llm_key_pool.py].

    A key that failed cools down; [acquire] takes the next key in the rotation that is not
    cooling and was not used in this request.  Times are microseconds of the monotonic
    clock. *)

From stdpp Require Import base list strings gmap.
From Stdlib Require Import ZArith Lia.
From S2P Require Import Prelude.

Open Scope string_scope.
Open Scope Z_scope.

(** [_KeyState] *)
Record key_state := KeyState {
  ks_key : string;
  cooldown_until : Z;
  failures : Z;
  successes : Z;
}.
#[export] Instance key_state_eta : Eta key_state := λ r,
  KeyState (ks_key r) (cooldown_until r) (failures r) (successes r).

(** [APIKeyPool] *)
Record pool := Pool {
  states : list key_state;
  cursor : nat;
  default_cooldown : Z;
  failure_cooldown : Z;
}.
#[export] Instance pool_eta : Eta pool := λ r,
  Pool (states r) (cursor r) (default_cooldown r) (failure_cooldown r).

(** The loop of [_configured_keys] that removes empty and repeated values. *)
Fixpoint unique_keys (seen : gset string) (values : list string) : list string :=
  match values with
  | [] => []
  | v :: values =>
      if bool_decide (v ≠ "" ∧ v ∉ seen) then v :: unique_keys ({[v]} ∪ seen) values
      else unique_keys seen values
  end.

(** [APIKeyPool.__init__]; the two arguments are the numbers in the environment. *)
Definition new_pool (keys : list string) (default_cooldown failure_cooldown : Z) : pool :=
  Pool (map (λ k, KeyState k 0 0 0) keys) 0 (Z.max (seconds 1) default_cooldown)
    (Z.max 0 failure_cooldown).

Definition size (p : pool) : nat := length (states p).

(** [slot]: the position of a key, counted from one. *)
Definition slot (key : option string) (p : pool) : option nat :=
  match key with
  | Some k => if String.eqb k "" then None
              else option_map (λ s, S s.1) (list_find (λ s, ks_key s = k) (states p))
  | None => None
  end.

Definition ordered (p : pool) : list nat :=
  map (λ offset, (cursor p + offset) mod size p)%nat (seq 0 (size p)).

Definition key_at (p : pool) (i : nat) : option string := option_map ks_key (states p !! i).
Definition cooldown_at (p : pool) (i : nat) : Z := default 0 (option_map cooldown_until (states p !! i)).

Definition excluded (exclude : gset string) (p : pool) (i : nat) : bool :=
  match key_at p i with Some k => bool_decide (k ∈ exclude) | None => false end.

(** The keys that were not used, or all of them when every key was. *)
Definition candidates (exclude : gset string) (p : pool) : list nat :=
  match filter (λ i, excluded exclude p i = false) (ordered p) with
  | [] => ordered p
  | l => l
  end.

Definition available (now : Z) (p : pool) (i : nat) : bool := cooldown_at p i <=? now.

(** [acquire]: a key, or how long to wait for one. *)
Definition acquire (exclude : gset string) (now : Z) (p : pool) : (option string * Z) * pool :=
  match states p with
  | [] => ((None, 0), p)
  | _ =>
      let cs := candidates exclude p in
      match filter (λ i, available now p i = true) cs with
      | i :: _ => ((key_at p i, 0), p <| cursor := (S i mod size p)%nat |>)
      | [] => ((None, Z.max 0 (default 0 (min_agg (map (cooldown_at p) cs)) - now)), p)
      end
  end.

(** [for state in self._states: if state.key == key: ...; return] *)
Fixpoint update_first (k : string) (f : key_state → key_state) (l : list key_state) :
    list key_state :=
  match l with
  | [] => []
  | s :: l => if String.eqb (ks_key s) k then f s :: l else s :: update_first k f l
  end.

(** [if not key: return] *)
Definition report (key : option string) (f : key_state → key_state) (p : pool) : pool :=
  match key with
  | Some k => if String.eqb k "" then p else p <| states := update_first k f (states p) |>
  | None => p
  end.

Definition report_success (key : option string) (p : pool) : pool :=
  report key (λ s, s <| successes := successes s + 1 |> <| failures := 0 |>) p.

(** The cooldown after a failure.  [jitter] is what [random.uniform] returned, in
    millionths. *)
Definition cooldown (category : string) (retry_after : option Z) (jitter now : Z) (p : pool)
    (until : Z) : Z :=
  if String.eqb category "insufficient_balance" then Z.max until (now + seconds 1800)
  else if String.eqb category "rate_limit" then
    let pause := default (default_cooldown p) retry_after * (1000000 + jitter) / 1000000 in
    Z.max until (now + Z.max 0 pause)
  else if py_in category ["connection_error"; "server_error"] && negb (failure_cooldown p =? 0)
  then Z.max until (now + failure_cooldown p)
  else until.

Definition report_failure (key : option string) (category : string) (retry_after : option Z)
    (jitter now : Z) (p : pool) : pool :=
  report key (λ s, s <| failures := failures s + 1 |>
    <| cooldown_until := cooldown category retry_after jitter now p (cooldown_until s) |>) p.

Definition has_alternative (used : gset string) (now : Z) (p : pool) : bool :=
  existsb (λ s, bool_decide (ks_key s ∉ used) && (cooldown_until s <=? now)) (states p).

(** What the threads that share the pool do to it. *)
Inductive pool_op :=
  | PAcquire (exclude : gset string)
  | PSuccess (key : option string)
  | PFailure (key : option string) (category : string) (retry_after : option Z) (jitter : Z).

Definition run_op (o : pool_op) (now : Z) (p : pool) : pool :=
  match o with
  | PAcquire exclude => (acquire exclude now p).2
  | PSuccess key => report_success key p
  | PFailure key category retry_after jitter => report_failure key category retry_after jitter now p
  end.

(** * The invariant *)

(** The keys are distinct and not empty, and the cursor is a position. *)
Record pool_ok (p : pool) : Prop := {
  po_keys : NoDup (map ks_key (states p));
  po_nonempty : Forall (λ s, ks_key s ≠ "") (states p);
  po_cursor : (cursor p < Nat.max 1 (size p))%nat;
}.

(** The operations keep the keys, and never shorten a cooldown. *)
Record pool_grows (p p' : pool) : Prop := {
  pg_keys : map ks_key (states p') = map ks_key (states p);
  pg_cooldown : ∀ i, (i < size p)%nat → cooldown_at p i <= cooldown_at p' i;
}.

#[export] Instance pool_grows_preorder : PreOrder pool_grows.
Proof.
  split; [by split|]. intros p1 p2 p3 [K12 C12] [K23 C23]. split; [by rewrite K23|].
  intros i Hi. etrans; [by apply C12|]. apply C23. unfold size in *.
  by rewrite <- (length_map ks_key), K12, length_map.
Qed.

Lemma pool_grows_size p p' : pool_grows p p' → size p' = size p.
Proof. intros [K _]. unfold size. by rewrite <- (length_map ks_key), K, length_map. Qed.

Lemma pool_grows_key p p' i : pool_grows p p' → key_at p' i = key_at p i.
Proof.
  intros [K _]. apply (f_equal (.!! i)) in K. unfold key_at.
  by rewrite !list_lookup_fmap in K.
Qed.

Lemma ordered_lookup p o :
  (o < size p)%nat → ordered p !! o = Some ((cursor p + o) mod size p)%nat.
Proof. intros Ho. unfold ordered. by rewrite list_lookup_fmap, lookup_seq_lt. Qed.

Lemma ordered_bound p i : i ∈ ordered p → (i < size p)%nat.
Proof.
  unfold ordered. intros (o & <- & Ho)%elem_of_map. apply elem_of_seq in Ho.
  apply Nat.mod_upper_bound. lia.
Qed.

Lemma ordered_all p i : pool_ok p → (i < size p)%nat → ∃ o, (o < size p)%nat ∧ ordered p !! o = Some i.
Proof.
  intros [_ _ Hc] Hi. destruct (decide (cursor p <= i)%nat) as [Hle|Hgt].
  - exists (i - cursor p)%nat. split; [lia|]. rewrite ordered_lookup by lia. f_equal.
    replace (cursor p + (i - cursor p))%nat with i by lia. by apply Nat.mod_small.
  - exists (i + size p - cursor p)%nat. split; [lia|]. rewrite ordered_lookup by lia. f_equal.
    replace (cursor p + (i + size p - cursor p))%nat with (i + 1 * size p)%nat by lia.
    rewrite Nat.Div0.mod_add. by apply Nat.mod_small.
Qed.

Lemma key_at_Some p i : (i < size p)%nat → ∃ k, key_at p i = Some k.
Proof.
  intros Hi. unfold key_at. destruct (lookup_lt_is_Some_2 (states p) i Hi) as [s ->]. by eexists.
Qed.

Lemma excluded_false exclude p i k :
  key_at p i = Some k → excluded exclude p i = false ↔ k ∉ exclude.
Proof. intros Hk. unfold excluded. rewrite Hk. apply bool_decide_eq_false. Qed.

(** A key that [acquire] may take: one that was not used, or any when every key was. *)
Definition usable (exclude : gset string) (p : pool) (i : nat) : Prop :=
  (i < size p)%nat ∧ (excluded exclude p i = false ∨ ∀ j, (j < size p)%nat → excluded exclude p j = true).

Lemma elem_of_candidates exclude p i :
  pool_ok p → i ∈ candidates exclude p ↔ usable exclude p i.
Proof.
  intros Hok. assert (∀ j, (j < size p)%nat → j ∈ ordered p) as Hall.
  { intros j Hj. destruct (ordered_all p j Hok Hj) as (o & _ & Ho). by eapply list_elem_of_lookup_2. }
  unfold candidates, usable. destruct (filter _ (ordered p)) as [|x l] eqn:E.
  - assert (∀ j, (j < size p)%nat → excluded exclude p j = true) as Hex.
    { intros j Hj. destruct (excluded exclude p j) eqn:Ex; [done|].
      assert (j ∈ filter (λ i, excluded exclude p i = false) (ordered p)) as Hin
        by (by apply list_elem_of_filter; auto).
      rewrite E in Hin. by inversion Hin. }
    split; [intros Hi; split; [by apply ordered_bound|by right]|intros [Hi _]; by apply Hall].
  - rewrite <- E, list_elem_of_filter. split.
    + intros [Hx Hi]. split; [by apply ordered_bound|by left].
    + intros [Hi [Hx|Hx]]; [by auto|].
      assert (x ∈ filter (λ i, excluded exclude p i = false) (ordered p)) as [Hf Ho]%list_elem_of_filter
        by (rewrite E; by left).
      by rewrite Hx in Hf by (by apply ordered_bound).
Qed.

(** What [acquire] decides when there are keys. *)
Lemma acquire_cases exclude now p :
  size p ≠ 0%nat →
  (∃ i, i ∈ candidates exclude p ∧ available now p i = true
     ∧ acquire exclude now p = ((key_at p i, 0), p <| cursor := (S i mod size p)%nat |>))
  ∨ (∀ i, i ∈ candidates exclude p → now < cooldown_at p i)
    ∧ ∃ first, min_agg (map (cooldown_at p) (candidates exclude p)) = first
      ∧ acquire exclude now p = ((None, Z.max 0 (default 0 first - now)), p).
Proof.
  intros Hs. unfold acquire. unfold size in Hs. destruct (states p) as [|s0 ss] eqn:E; [done|]. rewrite <- E in *.
  destruct (filter _ (candidates exclude p)) as [|i rest] eqn:Ef.
  - right. split; [|by eexists]. intros i Hi. destruct (Z.lt_ge_cases now (cooldown_at p i)) as [|Hle]; [done|].
    assert (i ∈ filter (λ i, available now p i = true) (candidates exclude p)) as Hin.
    { apply list_elem_of_filter. split; [by apply Z.leb_le|done]. }
    rewrite Ef in Hin. by inversion Hin.
  - left. exists i. assert (i ∈ filter (λ i, available now p i = true) (candidates exclude p))
      as [Ha Hi]%list_elem_of_filter by (rewrite Ef; by left). done.
Qed.

Lemma cursor_grows p i : pool_grows p (p <| cursor := i |>).
Proof. by split. Qed.

Lemma acquire_grows exclude now p : pool_grows p (acquire exclude now p).2.
Proof.
  destruct (decide (size p = 0%nat)) as [Hs|Hs].
  - unfold acquire. apply nil_length_inv in Hs. by rewrite Hs.
  - destruct (acquire_cases exclude now p Hs) as [(i & _ & _ & ->)|(_ & first & _ & ->)]; [apply cursor_grows|done].
Qed.

Lemma update_first_lookup k f l i :
  update_first k f l !! i = l !! i ∨ ∃ s, l !! i = Some s ∧ update_first k f l !! i = Some (f s).
Proof.
  revert i. induction l as [|s l IH]; intros i; simpl; [by left|].
  destruct (String.eqb _ _), i as [|i]; simpl; eauto.
Qed.

Lemma report_grows key f p :
  (∀ s, ks_key (f s) = ks_key s ∧ cooldown_until s <= cooldown_until (f s)) →
  pool_grows p (report key f p).
Proof.
  intros Hf. unfold report. destruct key as [k|]; [|done]. destruct (String.eqb k ""); [done|]. split; simpl.
  - induction (states p) as [|s l IH]; [done|]. simpl. destruct (String.eqb _ _); simpl; [|by rewrite IH].
    by rewrite (proj1 (Hf s)).
  - intros i _. unfold cooldown_at. simpl.
    destruct (update_first_lookup k f (states p) i) as [->|(s & -> & ->)]; [done|]. simpl. apply Hf.
Qed.

Lemma cooldown_later category retry_after jitter now p until :
  until <= cooldown category retry_after jitter now p until.
Proof. unfold cooldown. repeat case_match; simpl; lia. Qed.

Lemma run_op_grows o now p : pool_grows p (run_op o now p).
Proof.
  destruct o; simpl; [apply acquire_grows|apply report_grows|apply report_grows]; intros s; simpl;
    (split; [done|]); [done|apply cooldown_later].
Qed.

Lemma pool_ok_grows p p' :
  pool_ok p → pool_grows p p' → (cursor p' < Nat.max 1 (size p'))%nat → pool_ok p'.
Proof.
  intros [Hk Hn _] [K _] Hc. split; [by rewrite K| |done].
  apply (Forall_map ks_key (λ k, k ≠ "")). rewrite K. by apply (Forall_map ks_key (λ k, k ≠ "")).
Qed.

Lemma run_op_ok o now p : pool_ok p → pool_ok (run_op o now p).
Proof.
  intros Hok. pose proof (run_op_grows o now p) as Hg. apply (pool_ok_grows p); [done..|].
  rewrite (pool_grows_size _ _ Hg). pose proof (po_cursor p Hok) as Hc.
  destruct o as [exclude|key|key category retry_after jitter]; simpl.
  - destruct (decide (size p = 0%nat)) as [Hs|Hs].
    + unfold acquire. apply nil_length_inv in Hs. by rewrite Hs.
    + destruct (acquire_cases exclude now p Hs) as [(i & _ & _ & ->)|(_ & first & _ & ->)]; [|done]. simpl.
      pose proof (Nat.mod_upper_bound (S i) (size p) Hs). lia.
  - unfold report_success, report. by repeat case_match.
  - unfold report_failure, report. by repeat case_match.
Qed.

Lemma unique_keys_fresh values : ∀ seen,
  NoDup (unique_keys seen values) ∧ Forall (λ k, k ≠ "" ∧ k ∉ seen) (unique_keys seen values).
Proof.
  induction values as [|v values IH]; intros seen; simpl; [by split; constructor|].
  case_bool_decide as Hv; [|apply IH]. destruct (IH ({[v]} ∪ seen)) as [Hn Hf]. split.
  - constructor; [|done]. intros Hin. rewrite Forall_forall in Hf. destruct (Hf v Hin) as [_ []].
    by apply elem_of_union_l, elem_of_singleton_2.
  - constructor; [done|]. eapply Forall_impl; [exact Hf|]. simpl. intros k [Hk Hs].
    by apply not_elem_of_union in Hs as [_ Hs].
Qed.

Lemma new_pool_ok values d f : pool_ok (new_pool (unique_keys ∅ values) d f).
Proof.
  destruct (unique_keys_fresh values ∅) as [Hn Hf].
  assert (map ks_key (map (λ k, KeyState k 0 0 0) (unique_keys ∅ values)) = unique_keys ∅ values) as Hk.
  { rewrite map_map. apply map_id. }
  split; simpl.
  - by rewrite Hk.
  - apply Forall_map. by eapply Forall_impl; [exact Hf|]; simpl; intros k [? _].
  - lia.
Qed.

(** A run of operations, each at its time. *)
Fixpoint run_ops (ops : list (pool_op * Z)) (p : pool) : pool :=
  match ops with
  | [] => p
  | (o, now) :: ops => run_ops ops (run_op o now p)
  end.

Lemma run_ops_ok ops : ∀ p, pool_ok p → pool_ok (run_ops ops p) ∧ pool_grows p (run_ops ops p).
Proof.
  induction ops as [|[o now] ops IH]; intros p Hok; simpl; [done|].
  destruct (IH (run_op o now p)) as [Hok' Hg]; [by apply run_op_ok|]. split; [done|].
  etrans; [apply run_op_grows|exact Hg].
Qed.

(** The pool is well formed: whatever the configured values, and whatever the threads do,
    its keys stay the distinct configured values in their order, none is empty, the cursor is a
    position, and no operation shortens a cooldown. *)
Theorem pool_invariant (values : list string) (d f : Z) (ops later : list (pool_op * Z)) :
  let p0 := new_pool (unique_keys ∅ values) d f in
  let p1 := run_ops ops p0 in
  let p2 := run_ops later p1 in
  pool_ok p1 ∧ map ks_key (states p1) = unique_keys ∅ values ∧ pool_grows p1 p2.
Proof.
  intros p0 p1 p2. destruct (run_ops_ok ops p0 (new_pool_ok values d f)) as [Hok [Hk _]].
  split; [done|]. split; [|by apply run_ops_ok]. unfold p1. rewrite Hk. simpl. rewrite map_map. apply map_id.
Qed.

(** [acquire] gives out a key that is not cooling, and one that this request has not
    used unless it has used every key; when it gives none although there are keys, the waiting
    time is exact: such a key is free from [now + wait] on, and none before. *)
Theorem acquire_spec (exclude : gset string) (now wait : Z) (key : option string) (p p' : pool) :
  pool_ok p → size p ≠ 0%nat → acquire exclude now p = ((key, wait), p') →
  match key with
  | Some k => wait = 0 ∧ ∃ i, key_at p i = Some k ∧ usable exclude p i ∧ available now p i = true
  | None => p' = p ∧ 0 < wait
      ∧ ∀ t, (∃ i, usable exclude p i ∧ available t p i = true) ↔ now + wait <= t
  end.
Proof.
  intros Hok Hs E. assert (∃ i, usable exclude p i) as [i0 Hi0].
  { destruct (existsb (λ i, negb (excluded exclude p i)) (seq 0 (size p))) eqn:Ex.
    - apply existsb_exists in Ex as (i & Hi & Hx). apply in_seq in Hi. exists i. split; [lia|left].
      by apply negb_true_iff.
    - exists 0%nat. split; [lia|right]. intros j Hj. destruct (excluded exclude p j) eqn:Ej; [done|].
      assert (existsb (λ i, negb (excluded exclude p i)) (seq 0 (size p)) = true) as Ht; [|by rewrite Ex in Ht].
      apply existsb_exists. exists j. split; [apply in_seq; lia|by rewrite Ej]. }
  destruct (acquire_cases exclude now p Hs) as [(i & Hi & Ha & Eq)|(Hcool & first & Hm & Eq)]; rewrite Eq in E;
    injection E as <- <- <-.
  - apply elem_of_candidates in Hi; [|done]. destruct (key_at_Some p i (proj1 Hi)) as [k Hk]. rewrite Hk.
    split; [done|]. by exists i.
  - destruct first as [c|]; simpl in *.
    2: { apply min_agg_None, map_eq_nil in Hm. apply elem_of_candidates in Hi0; [|done].
         rewrite Hm in Hi0. by inversion Hi0. }
    apply min_agg_Some in Hm as [Hc Hmin]. apply elem_of_map in Hc as (i & <- & Hi).
    pose proof (Hcool i Hi). split; [done|]. split; [lia|]. intros t. split.
    + intros (j & Hj & Ht%Z.leb_le). apply elem_of_candidates in Hj; [|done].
      specialize (Hmin _ (elem_of_map_in _ _ _ Hj)). lia.
    + intros Ht. exists i. split; [by apply elem_of_candidates|]. apply Z.leb_le. lia.
Qed.

(** * The rotation is fair *)

Fixpoint acquisitions (ops : list (pool_op * Z)) : nat :=
  match ops with
  | [] => O
  | (PAcquire _, _) :: ops => S (acquisitions ops)
  | _ :: ops => acquisitions ops
  end.

(** The keys that the acquisitions of a run give out. *)
Fixpoint handed_out (ops : list (pool_op * Z)) (p : pool) : list (option string) :=
  match ops with
  | [] => []
  | (o, now) :: ops =>
      (match o with PAcquire exclude => [(acquire exclude now p).1.1] | _ => [] end
       ++ handed_out ops (run_op o now p))%list
  end.

(** Requests of their own, each finding the key in position [i] not cooling. *)
Fixpoint ready_throughout (i : nat) (ops : list (pool_op * Z)) (p : pool) : Prop :=
  match ops with
  | [] => True
  | (o, now) :: ops =>
      match o with PAcquire exclude => exclude = ∅ ∧ available now p i = true | _ => True end
      ∧ ready_throughout i ops (run_op o now p)
  end.

Lemma candidates_empty p : candidates ∅ p = ordered p.
Proof.
  unfold candidates. destruct (filter _ _) eqn:E; [done|]. rewrite <- E. clear E.
  induction (ordered p) as [|i l' IH]; [done|]. rewrite filter_cons_True; [by rewrite IH|].
  unfold excluded. destruct (key_at p i); [|done]. by apply bool_decide_eq_false, not_elem_of_empty.
Qed.

(** The first element that passes is not after one that does. *)
Lemma filter_first {A} (f : A → bool) (l : list A) o i :
  l !! o = Some i → f i = true → ∃ o' j rest,
    (o' <= o)%nat ∧ l !! o' = Some j ∧ f j = true ∧ filter (λ x, f x = true) l = j :: rest.
Proof.
  revert o. induction l as [|x l IH]; intros o Ho Hi; [done|].
  destruct (f x) eqn:Ex.
  - exists 0%nat, x. rewrite filter_cons_True by done. eexists. split; [lia|done].
  - destruct o as [|o]; [injection Ho as ->; by rewrite Ex in Hi|].
    destruct (IH o Ho Hi) as (o' & j & rest & Hle & Hj & Hf & Heq).
    exists (S o'), j, rest. rewrite filter_cons_False by (by rewrite Ex). split; [lia|done].
Qed.

(** An acquisition takes the key in position [i], or brings the cursor closer to it. *)
Lemma acquire_turns now p o i :
  pool_ok p → ordered p !! o = Some i → available now p i = true →
  (acquire ∅ now p).1.1 = key_at p i
  ∨ ∃ o', (o' < o)%nat ∧ ordered (acquire ∅ now p).2 !! o' = Some i.
Proof.
  intros Hok Ho Ha. pose proof (list_elem_of_lookup_2 _ _ _ Ho) as Hin%ordered_bound.
  destruct (filter_first (available now p) (ordered p) o i Ho Ha) as (o' & j & rest & Hle & Hj & _ & Hf).
  unfold acquire. unfold size in Hin. destruct (states p) as [|s0 ss] eqn:E; [simpl in Hin; lia|]. rewrite <- E in *.
  rewrite candidates_empty, Hf. simpl. destruct (decide (o' = o)) as [->|Hne].
  - left. congruence.
  - right. exists (o - o' - 1)%nat. split; [lia|].
    assert (o < size p)%nat as Hlt.
    { apply lookup_lt_Some in Ho. unfold ordered in Ho. by rewrite length_map, length_seq in Ho. }
    rewrite ordered_lookup in Ho, Hj by lia. injection Ho as Ho. injection Hj as Hj.
    rewrite ordered_lookup by (unfold size in *; simpl; lia). f_equal. unfold size at 2. simpl.
    fold (size p). rewrite <- Ho, <- Hj.
    replace (S ((cursor p + o') mod size p) mod size p)%nat with ((cursor p + o' + 1) mod size p)%nat.
    + rewrite Nat.Div0.add_mod_idemp_l. f_equal. lia.
    + rewrite <- (Nat.add_1_r ((cursor p + o') mod size p)). by rewrite Nat.Div0.add_mod_idemp_l.
Qed.

Lemma turn_comes i k ops : ∀ p o,
  pool_ok p → key_at p i = Some k → ordered p !! o = Some i → ready_throughout i ops p →
  (o < acquisitions ops)%nat → Some k ∈ handed_out ops p.
Proof.
  induction ops as [|[op now] ops IH]; intros p o Hok Hk Ho Hr Hlen; simpl in *; [lia|].
  destruct Hr as [Ha Hr]. pose proof (run_op_ok op now p Hok) as Hok'.
  assert (key_at (run_op op now p) i = Some k) as Hk'
    by (by rewrite (pool_grows_key _ _ _ (run_op_grows op now p))).
  assert (∀ p', pool_grows p p' → cursor p' = cursor p → ordered p' = ordered p) as Hsame.
  { intros p' Hg Hc. unfold ordered. by rewrite Hc, (pool_grows_size _ _ Hg). }
  destruct op as [exclude|key|key category retry_after jitter].
  - destruct Ha as [-> Ha]. apply elem_of_app.
    destruct (acquire_turns now p o i Hok Ho Ha) as [Heq|(o' & Hlt & Ho')].
    + left. rewrite Heq, Hk. by left.
    + right. apply (IH _ o'); [done..|lia].
  - apply (IH _ o Hok' Hk'); [|done|done].
    rewrite Hsame; [done|apply (run_op_grows (PSuccess key) now)|].
    simpl. unfold report_success, report. by repeat case_match.
  - apply (IH _ o Hok' Hk'); [|done|done].
    rewrite Hsame; [done|apply (run_op_grows (PFailure key category retry_after jitter) now)|].
    simpl. unfold report_failure, report. by repeat case_match.
Qed.

(** The rotation is fair: a key that is not cooling is given out at the latest by the
    [size]-th acquisition, whatever successes and failures the threads report in between. *)
Theorem rotation_is_fair (i : nat) (k : string) (ops : list (pool_op * Z)) (p : pool) :
  pool_ok p → key_at p i = Some k → ready_throughout i ops p →
  (size p <= acquisitions ops)%nat → Some k ∈ handed_out ops p.
Proof.
  intros Hok Hk Hr Hlen. assert (i < size p)%nat as Hi.
  { unfold key_at in Hk. destruct (states p !! i) eqn:E; [|done]. by apply lookup_lt_Some in E. }
  destruct (ordered_all p i Hok Hi) as (o & Hlt & Ho). apply (turn_comes i k ops p o); [done..|lia].
Qed.

(** * The theorems at concrete inputs *)

Definition two_keys : pool := new_pool (unique_keys ∅ ["a"; ""; "b"; "a"]) (seconds 30) (seconds 2).

Lemma acquire_spec_witness :
  ∃ k wait p', acquire {["a"]} 0 two_keys = ((Some k, wait), p') ∧ k = "b" ∧ wait = 0
  ∧ ∃ i, key_at two_keys i = Some k ∧ usable {["a"]} two_keys i ∧ available 0 two_keys i = true.
Proof.
  eexists "b", 0, _. split; [reflexivity|]. split; [done|].
  refine (acquire_spec {["a"]} 0 0 (Some "b") two_keys _ (new_pool_ok _ _ _) _ _); [discriminate|reflexivity].
Defined.

Lemma rotation_is_fair_witness :
  Some "b" ∈ handed_out [(PAcquire ∅, 0); (PFailure (Some "a") "rate_limit" None 0, 1); (PAcquire ∅, 2)] two_keys.
Proof.
  apply (rotation_is_fair 1 "b"); [apply new_pool_ok|reflexivity|by vm_compute|by vm_compute; lia].
Defined.
