(* ===== verification/LlmClient.v ===== *)
(** The requests to the language model, with failover between the keys of the pool:
    [classify_llm_error], [_client_from_key_pool], [_chat_completion_with_key_pool] and
    [_embedding_request_with_key_pool] of [core/llm_client.py].

    The provider is a parameter: its reply is a function of the requests of this call, of
    which only the key is recorded, the rest being the same in all of them.  Other threads use
    the pool between any two of its operations. *)

From stdpp Require Import base list strings gmap.
From Stdlib Require Import ZArith Lia.
From S2P Require Import Prelude Consistency KeyPool.

Open Scope string_scope.
Open Scope Z_scope.

(** An exception of the client library: the name of its class, its text, its [status_code],
    whether it is an [APITimeoutError], and the pause [retry_after_seconds] reads from it. *)
Record llm_error := LlmError {
  le_type : string;
  le_text : string;
  le_status : option Z;
  le_timeout : bool;
  le_retry_after : option Z;
}.

(** [any(token in name or token in text for token in tokens)] *)
Definition mentions (tokens : list string) (texts : list string) : bool :=
  existsb (λ token, existsb (str_contains token) texts) tokens.

(** [classify_llm_error(exc)], without a response and a phase *)
Definition classify_llm_error `{Platform} (e : llm_error) : string :=
  let name := str_lower (le_type e) in
  let text := str_lower (le_text e) in
  if bool_decide (le_status e = Some 402) || str_contains "insufficient balance" text
  then "insufficient_balance"
  else if mentions ["timeout"] [name; text] then "transport_timeout"
  else if mentions ["connection"; "connecterror"; "network"; "dns"; "ssl"] [name; text]
  then "connection_error"
  else if mentions ["ratelimit"; "rate_limit"; "429"; "too many requests"] [name; text]
  then "rate_limit"
  else if mentions [" 500"; " 502"; " 503"; " 504"; "server error"; "bad gateway";
                    "service unavailable"] [text]
  then "server_error"
  else if mentions ["json"] [name; text] then
    if mentions ["unterminated"; "unexpected end"; "truncated"] [text]
    then "truncated_response" else "invalid_json"
  else "unknown".

(** The categories that another key may avoid. *)
Definition FAILOVER : list string :=
  ["rate_limit"; "connection_error"; "server_error"; "insufficient_balance"].

Inductive reply :=
  | Answer (response : string)
  | Failed (e : llm_error).

(** The provider, and the random source of the jitter. *)
Class Provider := {
  provider_reply : list (option string) → reply;
  provider_jitter : list (option string) → Z;
}.

(** The shared pool; what the other threads do before each of this thread's operations, and the
    time that passes; the clock; the keys of the requests so far. *)
Record llm_world := LlmWorld {
  ll_pool : pool;
  ll_others : list (list pool_op * Z);
  ll_now : Z;
  ll_asked : list (option string);
}.

Definition meanwhile (w : llm_world) : llm_world :=
  match ll_others w with
  | [] => w
  | (ops, pause) :: rest =>
      let now := ll_now w + Z.max 0 pause in
      LlmWorld (run_ops (map (λ o, (o, now)) ops) (ll_pool w)) rest now (ll_asked w)
  end.

(** An operation of this thread on the pool. *)
Definition on_pool {A} (f : Z → pool → A * pool) (w : llm_world) : A * llm_world :=
  let w := meanwhile w in
  let '(a, p) := f (ll_now w) (ll_pool w) in
  (a, LlmWorld p (ll_others w) (ll_now w) (ll_asked w)).

Definition sleep (pause : Z) (w : llm_world) : llm_world :=
  LlmWorld (ll_pool w) (ll_others w) (ll_now w + pause) (ll_asked w).

(** A client is the key it sends. *)
Record key_client := KeyClient {
  client_key : option string;
  current_key : option string;
  used_keys : gset string;
}.

Definition client_with (config_key key : option string) (used : gset string) : key_client :=
  match key with
  | None => KeyClient config_key None used
  | Some k => KeyClient (Some k) (Some k) ({[k]} ∪ used)
  end.

Definition client_from_key_pool (config_key : option string) (used : gset string) (w : llm_world) :
    key_client * llm_world :=
  let '((key, wait), w) := on_pool (acquire used) w in
  let '(key, w) :=
    if bool_decide (key = None) && (0 <? wait) then
      let '((key, _), w) := on_pool (acquire used) (sleep wait w) in (key, w)
    else (key, w) in
  (client_with config_key key used, w).

Section client.
Context `{Platform, Provider}.

Definition ask (c : key_client) (w : llm_world) : reply * llm_world :=
  let asked := (ll_asked w ++ [client_key c])%list in
  (provider_reply asked, LlmWorld (ll_pool w) (ll_others w) (ll_now w) asked).

Definition succeeded (c : key_client) : llm_world → unit * llm_world :=
  on_pool (λ _ p, (tt, report_success (current_key c) p)).

Definition failed (c : key_client) (category : string) (retry_after : option Z) (w : llm_world) :
    unit * llm_world :=
  on_pool (λ now p, (tt, report_failure (current_key c) category retry_after
    (provider_jitter (ll_asked w)) now p)) w.

Definition alternative (c : key_client) : llm_world → bool * llm_world :=
  on_pool (λ now p, (has_alternative (used_keys c) now p, p)).

(** The [while True] loop of [_chat_completion_with_key_pool], for a number of rounds: the
    response with the number of attempts, or the exception. *)
Fixpoint chat_loop (fuel : nat) (config_key : option string) (timeout_retries : Z)
    (attempt timeout_attempts : Z) (c : key_client) (w : llm_world) :
    option ((string * Z) + llm_error) * llm_world :=
  match fuel with
  | O => (None, w)
  | S fuel =>
      let attempt := attempt + 1 in
      let '(r, w) := ask c w in
      match r with
      | Answer response => let '(_, w) := succeeded c w in (Some (inl (response, attempt)), w)
      | Failed e =>
          if le_timeout e then
            let timeout_attempts := timeout_attempts + 1 in
            if timeout_attempts <=? timeout_retries
            then chat_loop fuel config_key timeout_retries attempt timeout_attempts c w
            else
              let '(_, w) := failed c "transport_timeout" None w in
              let '(other, w) := alternative c w in
              if other then
                let '(c, w) := client_from_key_pool config_key (used_keys c) w in
                chat_loop fuel config_key timeout_retries attempt timeout_attempts c w
              else (Some (inr e), w)
          else
            let category := classify_llm_error e in
            let '(_, w) := failed c category (le_retry_after e) w in
            if py_in category FAILOVER then
              let '(other, w) := alternative c w in
              if other then
                let '(c, w) := client_from_key_pool config_key (used_keys c) w in
                chat_loop fuel config_key timeout_retries attempt timeout_attempts c w
              else (Some (inr e), w)
            else (Some (inr e), w)
      end
  end.

Definition chat_completion (fuel : nat) (config_key : option string) (timeout_retries : Z)
    (w : llm_world) : option ((string * Z) + llm_error) * llm_world :=
  let '(c, w) := client_from_key_pool config_key ∅ w in
  chat_loop fuel config_key timeout_retries 0 0 c w.

(** The loop of [_embedding_request_with_key_pool]. *)
Fixpoint embedding_loop (fuel : nat) (config_key : option string) (c : key_client)
    (w : llm_world) : option (string + llm_error) * llm_world :=
  match fuel with
  | O => (None, w)
  | S fuel =>
      let '(r, w) := ask c w in
      match r with
      | Answer response => let '(_, w) := succeeded c w in (Some (inl response), w)
      | Failed e =>
          let category := classify_llm_error e in
          let '(_, w) := failed c category (le_retry_after e) w in
          if py_in category FAILOVER then
            let '(other, w) := alternative c w in
            if other then
              let '(c, w) := client_from_key_pool config_key (used_keys c) w in
              embedding_loop fuel config_key c w
            else (Some (inr e), w)
          else (Some (inr e), w)
      end
  end.

Definition embedding_request (fuel : nat) (config_key : option string) (w : llm_world) :
    option (string + llm_error) * llm_world :=
  let '(c, w) := client_from_key_pool config_key ∅ w in embedding_loop fuel config_key c w.
End client.

(** * The failover ends *)

Definition is_failure (o : pool_op) : nat := match o with PFailure _ _ _ _ => 1 | _ => 0 end.
Definition count_failures (ops : list pool_op) : nat := sum_list_with is_failure ops.

(** The failures that the other threads report from now on. *)
Definition failures_ahead (w : llm_world) : nat :=
  sum_list_with (λ o, count_failures o.1) (ll_others w).

(** The keys of the pool that were not used. *)
Definition fresh (used : gset string) (p : pool) : nat :=
  length (filter (λ k, k ∉ used) (map ks_key (states p))).

(** What every operation of a thread on the shared pool respects: the keys stay; the pool stays
    well formed. *)
Record passes (w w' : llm_world) : Prop := {
  pa_grows : pool_grows (ll_pool w) (ll_pool w');
  pa_ok : pool_ok (ll_pool w) → pool_ok (ll_pool w');
  pa_ahead : (failures_ahead w' <= failures_ahead w)%nat;
  pa_asked : ll_asked w' = ll_asked w;
}.

#[export] Instance passes_preorder : PreOrder passes.
Proof.
  split; [by split|]. intros w1 w2 w3 [G1 O1 A1 K1] [G2 O2 A2 K2]. split; [by etrans|auto|lia|congruence].
Qed.

(** Time passes, and unless another thread reported a failure no cooldown changed. *)
Record calmly (w w' : llm_world) : Prop := {
  ca_now : ll_now w <= ll_now w';
  ca_cooldown : failures_ahead w' = failures_ahead w →
    ∀ i, cooldown_at (ll_pool w') i = cooldown_at (ll_pool w) i;
}.

Lemma run_op_calm o now p : is_failure o = 0%nat → ∀ i, cooldown_at (run_op o now p) i = cooldown_at p i.
Proof.
  destruct o as [exclude|key|]; [| |done]; intros _ i; simpl.
  - destruct (decide (size p = 0%nat)) as [Hs|Hs].
    + unfold acquire. apply nil_length_inv in Hs. by rewrite Hs.
    + by destruct (acquire_cases exclude now p Hs) as [(j & _ & _ & ->)|(_ & first & _ & ->)].
  - unfold report_success, report. destruct key as [k|]; [|done]. destruct (String.eqb k ""); [done|].
    unfold cooldown_at. simpl.
    by match goal with |- context [update_first k ?f ?l] =>
      destruct (update_first_lookup k f l i) as [->|(s & -> & ->)] end.
Qed.

Lemma run_ops_calm ops now : ∀ p, count_failures ops = 0%nat →
  ∀ i, cooldown_at (run_ops (map (λ o, (o, now)) ops) p) i = cooldown_at p i.
Proof.
  induction ops as [|o ops IH]; intros p Hc i; simpl; [done|]. unfold count_failures in Hc. simpl in Hc.
  rewrite IH by (unfold count_failures; lia). apply run_op_calm. lia.
Qed.

Lemma meanwhile_passes w : passes w (meanwhile w).
Proof.
  unfold meanwhile. destruct (ll_others w) as [|[ops pause] rest] eqn:E; [done|]. split; simpl; [| | |done].
  - set (l := map _ ops). clearbody l. revert l. clear E.
    intros l. generalize (ll_pool w). induction l as [|[o now] l IH]; intros p; simpl; [done|].
    etrans; [apply run_op_grows|apply IH].
  - intros Hok. by apply run_ops_ok.
  - unfold failures_ahead. rewrite E. simpl. lia.
Qed.

Lemma meanwhile_calmly w : calmly w (meanwhile w).
Proof.
  unfold meanwhile. destruct (ll_others w) as [|[ops pause] rest] eqn:E; [by split|]. split; simpl; [lia|].
  unfold failures_ahead. rewrite E. simpl. intros Hc i. apply run_ops_calm. lia.
Qed.

Lemma on_pool_passes {A} (f : Z → pool → A * pool) w :
  (∀ now p, ∃ o, (f now p).2 = run_op o now p) ∨ (∀ now p, (f now p).2 = p) →
  passes w (on_pool f w).2.
Proof.
  intros Hf. etrans; [apply meanwhile_passes|]. unfold on_pool.
  destruct (f _ _) as [a p] eqn:E. apply (f_equal snd) in E. simpl in E. destruct Hf as [Hf|Hf].
  - destruct (Hf (ll_now (meanwhile w)) (ll_pool (meanwhile w))) as [o Ho]. rewrite Ho in E. subst p.
    split; simpl; [apply run_op_grows|apply run_op_ok|done|done].
  - rewrite Hf in E. by subst p.
Qed.

Lemma acquire_passes used w : passes w (on_pool (acquire used) w).2.
Proof. apply on_pool_passes. left. intros now p. by exists (PAcquire used). Qed.

Lemma fresh_passes used w w' : passes w w' → fresh used (ll_pool w') = fresh used (ll_pool w).
Proof. intros [[K _] _ _ _]. unfold fresh. by rewrite K. Qed.

Lemma fresh_less (k : string) (used : gset string) (l : list string) : k ∈ l → k ∉ used →
  (length (filter (λ x, x ∉ {[k]} ∪ used) l) < length (filter (λ x, x ∉ used) l))%nat.
Proof.
  intros Hin Hk. assert (∀ l, (length (filter (λ x, x ∉ {[k]} ∪ used) l) <= length (filter (λ x, x ∉ used) l))%nat)
    as Hle.
  { clear l Hin. intros l. induction l as [|x l IH]; [done|]. rewrite !filter_cons.
    do 2 case_decide; simpl; try lia. by exfalso; set_solver. }
  induction l as [|x l IH]; [by inversion Hin|]. rewrite !filter_cons.
  destruct (decide (x = k)) as [->|Hne].
  - assert (¬ (k ∉ {[k]} ∪ used)) as Hn by (clear; set_solver). rewrite decide_False, decide_True by done. simpl. specialize (Hle l). lia.
  - apply elem_of_cons in Hin as [->|Hin]; [done|]. specialize (IH Hin).
    do 2 case_decide; simpl; try lia. by exfalso; set_solver.
Qed.

(** What remains before the failover has to give up. *)
Definition budget (used : gset string) (w : llm_world) : nat :=
  fresh used (ll_pool w) + failures_ahead w.

Lemma used_up w w' used k :
  passes w w' → k ∈ map ks_key (states (ll_pool w')) → k ∉ used →
  (budget ({[k]} ∪ used) w' < budget used w)%nat.
Proof.
  intros Hp Hin Hk. pose proof (fresh_less k used _ Hin Hk) as Hlt. pose proof (pa_ahead _ _ Hp).
  pose proof (fresh_passes used w w' Hp). unfold budget, fresh in *. lia.
Qed.

(** Position [i] holds a key that was not used. *)
Definition unused (used : gset string) (p : pool) (i : nat) : Prop :=
  (i < size p)%nat ∧ excluded used p i = false.

Lemma unused_grows used p p' i : pool_grows p p' → unused used p i → unused used p' i.
Proof.
  intros Hg [Hi Hx]. split; [by rewrite (pool_grows_size _ _ Hg)|].
  unfold excluded in *. by rewrite (pool_grows_key _ _ _ Hg).
Qed.

(** An acquisition while there is an unused key: it gives out such a key, or they are all
    cooling and one of them will be free when the waiting time is over. *)
Lemma acquire_step used w key wait w' i :
  pool_ok (ll_pool w) → unused used (ll_pool w) i → on_pool (acquire used) w = ((key, wait), w') →
  passes w w'
  ∧ match key with
    | Some k => k ∈ map ks_key (states (ll_pool w')) ∧ k ∉ used
    | None => calmly w w' ∧ 0 < wait
        ∧ (∀ j, unused used (ll_pool w') j → ll_now w' < cooldown_at (ll_pool w') j)
        ∧ ∃ j, unused used (ll_pool w') j ∧ cooldown_at (ll_pool w') j <= ll_now w' + wait
    end.
Proof.
  intros Hok Hi E. pose proof (acquire_passes used w) as Hp. rewrite E in Hp. split; [done|]. simpl in Hp.
  unfold on_pool in E. pose proof (meanwhile_passes w) as [Hg Ho _ _]. pose proof (meanwhile_calmly w) as Hc.
  destruct (unused_grows _ _ _ _ Hg Hi) as [Hi1 Hx].
  set (w1 := meanwhile w) in *.
  destruct (acquire used (ll_now w1) (ll_pool w1)) as [[key' wait'] p1] eqn:Ea. injection E as -> -> <-.
  pose proof (acquire_grows used (ll_now w1) (ll_pool w1)) as Hg1. rewrite Ea in Hg1. simpl in *.
  pose proof (acquire_spec used _ wait key _ p1 (Ho Hok) ltac:(lia) Ea) as Hs.
  assert (∀ j, usable used (ll_pool w1) j → unused used (ll_pool w1) j) as Hu.
  { intros j [Hj [Hf|Hall]]; [done|]. by rewrite (Hall i Hi1) in Hx. }
  destruct key as [k|].
  - destruct Hs as (_ & j & Hk & [Hj Hf]%Hu & _). rewrite (pg_keys _ _ Hg1).
    split; [|by apply (excluded_false used _ j k Hk)].
    apply (list_elem_of_lookup_2 _ j). by rewrite list_lookup_fmap.
  - destruct Hs as (-> & Hw & Hex). split; [by destruct Hc|]. split; [done|]. split.
    + intros j [Hj Hf]. destruct (Z.lt_ge_cases (ll_now w1) (cooldown_at (ll_pool w1) j)) as [|Hle]; [done|].
      enough (ll_now w1 + wait <= ll_now w1) by lia. apply Hex. exists j. split; [by split; [|left]|].
      by apply Z.leb_le.
    + destruct (proj2 (Hex (ll_now w1 + wait)) (Z.le_refl _)) as (j & Hj & Ha). exists j.
      split; [by apply Hu|by apply Z.leb_le].
Qed.

(** Taking the next key uses up one that was not used before, or a failure of another thread. *)
Lemma client_progress config_key used w c w' i :
  pool_ok (ll_pool w) → unused used (ll_pool w) i → client_from_key_pool config_key used w = (c, w') →
  passes w w' ∧ (budget (used_keys c) w' < budget used w)%nat.
Proof.
  intros Hok Hi. unfold client_from_key_pool.
  destruct (on_pool (acquire used) w) as [[key wait] w1] eqn:E1.
  destruct (acquire_step used w key wait w1 i Hok Hi E1) as [Hp1 Hs]. destruct key as [k|].
  - intros [= <- <-]. split; [done|]. destruct Hs. by apply (used_up w _ used k).
  - destruct Hs as (_ & Hw & _ & j & Hj & Hfree). rewrite bool_decide_eq_true_2, (proj2 (Z.ltb_lt 0 wait)) by done.
    simpl. destruct (on_pool (acquire used) (sleep wait w1)) as [[key wait2] w2] eqn:E2. intros [= <- <-].
    destruct (acquire_step used (sleep wait w1) key wait2 w2 j) as [Hp2 Hs2]; [exact (pa_ok _ _ Hp1 Hok)|exact Hj|exact E2|].
    assert (passes w w2) as Hp by (etrans; [exact Hp1|]; etrans; [|exact Hp2]; by split).
    split; [done|]. destruct key as [k|]; simpl; [destruct Hs2; by apply (used_up w _ used k)|].
    destruct Hs2 as ([Hnow Hc] & _ & Hall & _). pose proof (pa_ahead _ _ Hp1). pose proof (pa_ahead _ _ Hp2) as Hle.
    change (failures_ahead (sleep wait w1)) with (failures_ahead w1) in *.
    unfold budget. rewrite (fresh_passes used _ _ Hp).
    destruct (decide (failures_ahead w2 = failures_ahead w1)) as [He|]; [|lia]. exfalso.
    specialize (Hall j (unused_grows _ _ _ _ (pa_grows _ _ Hp2) Hj)). rewrite (Hc He) in Hall. simpl in *. lia.
Qed.

Section ends.
Context `{Platform, Provider}.

Lemma succeeded_passes c w : passes w (succeeded c w).2.
Proof. apply on_pool_passes. left. intros now p. by exists (PSuccess (current_key c)). Qed.

Lemma failed_passes c category retry_after w : passes w (failed c category retry_after w).2.
Proof.
  apply on_pool_passes. left. intros now p.
  by exists (PFailure (current_key c) category retry_after (provider_jitter (ll_asked w))).
Qed.

Lemma alternative_passes c w : passes w (alternative c w).2.
Proof. apply on_pool_passes. by right. Qed.

Lemma alternative_unused c w b w' :
  alternative c w = (b, w') → b = true → ∃ i, unused (used_keys c) (ll_pool w') i.
Proof.
  unfold alternative, on_pool. intros [= <- <-] Hb. simpl in *.
  apply existsb_exists in Hb as (s & Hs & [Hk%bool_decide_eq_true _]%andb_true_iff).
  apply list_elem_of_In in Hs. apply list_elem_of_lookup in Hs as [i Hi]. exists i.
  assert (key_at (ll_pool (meanwhile w)) i = Some (ks_key s)) as Hki by (unfold key_at; by rewrite Hi).
  split; [by apply lookup_lt_Some in Hi|]. by apply (excluded_false _ _ _ _ Hki).
Qed.

(** The failover after a failure: either the call is over, or a client is taken that uses up
    some of the budget. *)
Lemma failover_progress config_key c w b w1 c' w2 :
  pool_ok (ll_pool w) → alternative c w = (b, w1) → b = true →
  client_from_key_pool config_key (used_keys c) w1 = (c', w2) →
  passes w w2 ∧ (budget (used_keys c') w2 < budget (used_keys c) w)%nat.
Proof.
  intros Hok Ea Hb Ec. pose proof (alternative_passes c w) as Hp. rewrite Ea in Hp. simpl in Hp.
  destruct (alternative_unused c w b w1 Ea Hb) as [i Hi].
  destruct (client_progress config_key (used_keys c) w1 c' w2 i) as [Hp2 Hlt]; [by apply (pa_ok _ _ Hp)|done..|].
  split; [by etrans|]. unfold budget in *. rewrite (fresh_passes _ _ _ Hp) in Hlt. pose proof (pa_ahead _ _ Hp). lia.
Qed.

Lemma budget_passes used w w' : passes w w' → (budget used w' <= budget used w)%nat.
Proof. intros Hp. unfold budget. rewrite (fresh_passes _ _ _ Hp). pose proof (pa_ahead _ _ Hp). lia. Qed.

(** What a run of a loop from [w] achieved: it returned, after at most [n] requests. *)
Definition ended {A} (n : nat) (w : llm_world) (r : option A * llm_world) : Prop :=
  r.1 ≠ None ∧ (length (ll_asked r.2) <= length (ll_asked w) + n)%nat.

Lemma ended_later {A} n m w w' (r : option A * llm_world) :
  (length (ll_asked w') + n <= length (ll_asked w) + m)%nat → ended n w' r → ended m w r.
Proof. intros Hle [Hr Hlen]. split; [done|lia]. Qed.

Lemma ask_asked c w r w' : ask c w = (r, w') →
  length (ll_asked w') = S (length (ll_asked w)) ∧ ll_pool w' = ll_pool w
  ∧ ∀ used, budget used w' = budget used w.
Proof. intros [= _ <-]. simpl. rewrite length_app. simpl. split; [lia|done]. Qed.

Lemma ended_now {A} n (a : A) w w' : passes w w' → ended n w (Some a, w').
Proof. intros Hp. split; [done|]. simpl. rewrite (pa_asked _ _ Hp). lia. Qed.

(** The end of both loops: report the failure, then go on with another key or stop. *)
Lemma failover_ends {A} (k : key_client → llm_world → option A * llm_world) (stop : A) n
    config_key category retry_after c w :
  pool_ok (ll_pool w) →
  (∀ c' w', pool_ok (ll_pool w') → (budget (used_keys c') w' < budget (used_keys c) w)%nat → ended n w' (k c' w')) →
  ended n w
    (let '(_, w1) := failed c category retry_after w in
     let '(other, w2) := alternative c w1 in
     if other then let '(c', w3) := client_from_key_pool config_key (used_keys c) w2 in k c' w3
     else (Some stop, w2)).
Proof.
  intros Hok Hk. pose proof (failed_passes c category retry_after w) as Hp1.
  destruct (failed _ _ _ _) as [? w1]. simpl in Hp1.
  pose proof (alternative_passes c w1) as Hp2. destruct (alternative c w1) as [other w2] eqn:E2. simpl in Hp2.
  destruct other; [|apply ended_now; by etrans].
  destruct (client_from_key_pool config_key (used_keys c) w2) as [c' w3] eqn:E3.
  destruct (failover_progress config_key c w1 true w2 c' w3) as [Hp3 Hlt]; [by apply (pa_ok _ _ Hp1)|done..|].
  pose proof (budget_passes (used_keys c) _ _ Hp1). assert (passes w w3) as Hp by by etrans.
  eapply ended_later; [|apply Hk; [by apply (pa_ok _ _ Hp)|lia]]. rewrite (pa_asked _ _ Hp). lia.
Qed.

Lemma chat_loop_ends config_key retries fuel : ∀ attempt timeouts c w,
  pool_ok (ll_pool w) → (budget (used_keys c) w + Z.to_nat (retries - timeouts) < fuel)%nat →
  ended (S (budget (used_keys c) w + Z.to_nat (retries - timeouts))) w
    (chat_loop fuel config_key retries attempt timeouts c w).
Proof.
  induction fuel as [|fuel IH]; intros attempt timeouts c w Hok Hlt; [lia|]. cbn [chat_loop].
  destruct (ask c w) as [r wa] eqn:Ea. destruct (ask_asked c w r wa Ea) as (Hlen & Hpool & Hb).
  rewrite <- Hpool in Hok. rewrite <- (Hb (used_keys c)) in *.
  apply (ended_later (budget (used_keys c) wa + Z.to_nat (retries - timeouts)) _ _ wa); [lia|].
  destruct r as [response|e].
  - pose proof (succeeded_passes c wa) as Hp. destruct (succeeded c wa) as [? w1]. by apply ended_now.
  - assert (∀ timeouts' c' w', timeouts <= timeouts' → pool_ok (ll_pool w') →
      (budget (used_keys c') w' < budget (used_keys c) wa)%nat →
      ended (budget (used_keys c) wa + Z.to_nat (retries - timeouts)) w'
        (chat_loop fuel config_key retries (attempt + 1) timeouts' c' w')) as Hnext.
    { intros timeouts' c' w' Ht Hok' Hlt'. eapply ended_later; [|apply IH; [done|lia]]. lia. }
    destruct (le_timeout e).
    + destruct (Z.leb_spec (timeouts + 1) retries).
      * eapply ended_later; [|apply IH; [done|lia]]. lia.
      * apply failover_ends; [done|]. intros. apply Hnext; [lia|done..].
    + destruct (py_in _ FAILOVER); [apply failover_ends; [done|]; intros; by apply Hnext|].
      pose proof (failed_passes c (classify_llm_error e) (le_retry_after e) wa) as Hp.
      destruct (failed _ _ _ _) as [? w1]. by apply ended_now.
Qed.

Lemma embedding_loop_ends config_key fuel : ∀ c w,
  pool_ok (ll_pool w) → (budget (used_keys c) w < fuel)%nat →
  ended (S (budget (used_keys c) w)) w (embedding_loop fuel config_key c w).
Proof.
  induction fuel as [|fuel IH]; intros c w Hok Hlt; [lia|]. cbn [embedding_loop].
  destruct (ask c w) as [r wa] eqn:Ea. destruct (ask_asked c w r wa Ea) as (Hlen & Hpool & Hb).
  rewrite <- Hpool in Hok. rewrite <- (Hb (used_keys c)) in *.
  apply (ended_later (budget (used_keys c) wa) _ _ wa); [lia|]. destruct r as [response|e].
  - pose proof (succeeded_passes c wa) as Hp. destruct (succeeded c wa) as [? w1]. by apply ended_now.
  - destruct (py_in _ FAILOVER).
    + apply failover_ends; [done|]. intros c' w' Hok' Hlt'. eapply ended_later; [|apply IH; [done|lia]]. lia.
    + pose proof (failed_passes c (classify_llm_error e) (le_retry_after e) wa) as Hp.
      destruct (failed _ _ _ _) as [? w1]. by apply ended_now.
Qed.

(** The first client leaves room for as many further requests as there are other keys and
    failures to come. *)
Lemma first_client config_key w c w' :
  pool_ok (ll_pool w) → client_from_key_pool config_key ∅ w = (c, w') →
  passes w w' ∧ (S (budget (used_keys c) w') <= Nat.max 1 (size (ll_pool w)) + failures_ahead w)%nat.
Proof.
  intros Hok E. assert (budget ∅ w = size (ll_pool w) + failures_ahead w)%nat as Hb.
  { unfold budget, fresh, size. f_equal. rewrite <- (length_map ks_key). f_equal.
    induction (map ks_key (states (ll_pool w))) as [|k l IH]; [done|].
    by rewrite filter_cons_True, IH by apply not_elem_of_empty. }
  destruct (size (ll_pool w)) as [|n] eqn:Hs.
  - unfold client_from_key_pool, on_pool in E. pose proof (meanwhile_passes w) as Hp.
    set (w1 := meanwhile w) in *. pose proof (pool_grows_size _ _ (pa_grows _ _ Hp)) as Hs1. rewrite Hs in Hs1.
    unfold acquire at 1 in E. apply nil_length_inv in Hs1 as Hnil. rewrite Hnil in E. simpl in E. injection E as <- <-.
    assert (passes w (LlmWorld (ll_pool w1) (ll_others w1) (ll_now w1) (ll_asked w1))) as Hp' by by destruct w1.
    split; [done|]. simpl. pose proof (budget_passes ∅ _ _ Hp'). lia.
  - destruct (client_progress config_key ∅ w c w' 0%nat Hok) as [Hp Hlt]; [|done|split; [done|lia]].
    split; [lia|]. unfold excluded. destruct (key_at _ _); [|done]. by apply bool_decide_eq_false, not_elem_of_empty.
Qed.

(** C25: the failover ends: whatever the provider replies and whatever the other threads do to
    the pool, a chat completion returns or raises after at most one request per key, one per
    failure that another thread reports meanwhile, and the retries after timeouts. *)
Theorem chat_completion_ends (config_key : option string) (retries : Z) (w : llm_world) (fuel : nat) :
  pool_ok (ll_pool w) →
  (Nat.max 1 (size (ll_pool w)) + failures_ahead w + Z.to_nat retries <= fuel)%nat →
  ended (Nat.max 1 (size (ll_pool w)) + failures_ahead w + Z.to_nat retries) w
    (chat_completion fuel config_key retries w).
Proof.
  intros Hok Hf. unfold chat_completion. destruct (client_from_key_pool config_key ∅ w) as [c w'] eqn:E.
  destruct (first_client config_key w c w' Hok E) as [Hp Hb].
  eapply ended_later; [|apply chat_loop_ends; [by apply (pa_ok _ _ Hp)|rewrite Z.sub_0_r; lia]].
  rewrite (pa_asked _ _ Hp), Z.sub_0_r. lia.
Qed.

(** The same for an embedding, which is not retried after a timeout. *)
Theorem embedding_request_ends (config_key : option string) (w : llm_world) (fuel : nat) :
  pool_ok (ll_pool w) → (Nat.max 1 (size (ll_pool w)) + failures_ahead w <= fuel)%nat →
  ended (Nat.max 1 (size (ll_pool w)) + failures_ahead w) w (embedding_request fuel config_key w).
Proof.
  intros Hok Hf. unfold embedding_request. destruct (client_from_key_pool config_key ∅ w) as [c w'] eqn:E.
  destruct (first_client config_key w c w' Hok E) as [Hp Hb].
  eapply ended_later; [|apply embedding_loop_ends; [by apply (pa_ok _ _ Hp)|lia]]. rewrite (pa_asked _ _ Hp). lia.
Qed.
End ends.

(** * The theorem at a concrete input *)

(** The provider refuses the first key, another thread reports a failure of the second. *)
#[local] Instance refusing : Provider := {|
  provider_reply := λ asked, match asked with
    | [_] => Failed (LlmError "RateLimitError" "429" (Some 429) false None)
    | _ => Answer "{}"
    end;
  provider_jitter := λ _, 0;
|}.

Definition contended : llm_world :=
  LlmWorld two_keys [([], 0); ([], 0); ([PFailure (Some "b") "server_error" None 0], 10)] 0 [].

Lemma chat_completion_ends_witness :
  @ended (string * Z + llm_error) 3 contended
    (@chat_completion test_platform refusing 3 (Some "a") 0 contended).
Proof. apply (@chat_completion_ends test_platform refusing (Some "a") 0 contended 3 (new_pool_ok _ _ _)). by vm_compute. Defined.
