(* ===== verification/Wal.v ===== *)
(** The write-ahead log of the local mode: [core/wal.py] and the names of its files,
    [core/file_lock.py].  A file holds one JSON object per line.

    The JSON library is a parameter.  A file is its text; each operation runs under the lock
    of its file, so it is one step. *)

From stdpp Require Import base pretty countable list strings gmap.
From Stdlib Require Import ZArith Lia Ascii.
From S2P Require Import Prelude Consistency TextChunks.

Open Scope string_scope.

(** [WalRecord]; [sender] as its items. *)
Record wal_record := WalRecord {
  w_id : string;
  w_source : string;
  w_event_id : option string;
  w_message_id : string;
  w_space_id : string;
  w_chat_id : option string;
  w_chat_type : string;
  w_sender : list (string * string);
  w_ts : string;
  w_text : string;
  w_status : string;
  w_sensitivity : string;
}.
#[export] Instance wal_record_eta : Eta wal_record := λ r,
  WalRecord (w_id r) (w_source r) (w_event_id r) (w_message_id r) (w_space_id r) (w_chat_id r)
    (w_chat_type r) (w_sender r) (w_ts r) (w_text r) (w_status r) (w_sensitivity r).

Definition LF : Ascii.ascii := Ascii.ascii_of_N 10.
Definition CR : Ascii.ascii := Ascii.ascii_of_N 13.

Fixpoint one_line (s : string) : Prop :=
  match s with
  | EmptyString => True
  | String c s => c ≠ LF ∧ c ≠ CR ∧ one_line s
  end.

(** [json.dumps(asdict(record), ensure_ascii=False)] and [json.loads(line)]: an object is
    written in braces, with control characters escaped, and is read back. *)
Class Json := {
  json_dumps : wal_record → string;
  json_loads : string → option wal_record;
}.
Class JsonLaws `{Json} : Prop := {
  loads_dumps : ∀ r, json_loads (json_dumps r) = Some r;
  dumps_one_line : ∀ r, one_line (json_dumps r);
  dumps_braces : ∀ r, ∃ body, json_dumps r = "{" +:+ body +:+ "}";
}.

(** [safe_space_id]: every character outside [a-zA-Z0-9_.-] becomes an underscore. *)
Definition safe_char (c : Ascii.ascii) : bool :=
  byte_in c 97 122 || byte_in c 65 90 || byte_in c 48 57 || byte_in c 95 95 || byte_in c 45 46.
Definition safe_space_id (space_id : string) : string :=
  join (map (λ char, match char with
                     | String c EmptyString => if safe_char c then char else "_"
                     | _ => "_"
                     end) (chars space_id)).

(** The log files by name. *)
Abbreviation files := (gmap string string).

Definition wal_path (space_id : string) : string := safe_space_id space_id +:+ ".jsonl".

(** [for line in f], in text mode: LF, CR and CR LF end a line. *)
Fixpoint read_lines (line s : string) : list string :=
  match s with
  | EmptyString => if String.eqb line "" then [] else [line]
  | String c s =>
      if Ascii.eqb c LF then line :: read_lines "" s
      else if Ascii.eqb c CR then
        match s with
        | String d s' => if Ascii.eqb d LF then line :: read_lines "" s' else line :: read_lines "" s
        | EmptyString => [line]
        end
      else read_lines (line +:+ String c EmptyString) s
  end.

Abbreviation logs := (gmap string (list wal_record)).

Section wal.
Context `{Json}.

Definition print_record (r : wal_record) : string := json_dumps r +:+ String LF EmptyString.
Definition print_records (rs : list wal_record) : string := join (map print_record rs).

Definition append_record (r : wal_record) (fs : files) : files :=
  let path := wal_path (w_space_id r) in
  <[path := default "" (fs !! path) +:+ print_record r]> fs.

Fixpoint parse_lines (lines : list string) : result (list wal_record) :=
  match lines with
  | [] => Ok []
  | line :: lines =>
      let line := py_strip line in
      if String.eqb line "" then parse_lines lines
      else match json_loads line with
           | None => Raise (ValueError "Expecting value")
           | Some r => match parse_lines lines with Ok rs => Ok (r :: rs) | Raise e => Raise e end
           end
  end.

Definition load_records (space_id : string) (fs : files) : result (list wal_record) :=
  match fs !! wal_path space_id with
  | None => Ok []
  | Some content => parse_lines (read_lines "" content)
  end.

Definition message_exists (space_id message_id : string) (fs : files) : result bool :=
  match load_records space_id fs with
  | Ok rs => Ok (existsb (λ r, String.eqb (w_message_id r) message_id) rs)
  | Raise e => Raise e
  end.

Definition append_message_once (r : wal_record) (fs : files) : result bool * files :=
  match message_exists (w_space_id r) (w_message_id r) fs with
  | Raise e => (Raise e, fs)
  | Ok true => (Ok false, fs)
  | Ok false => (Ok true, append_record r fs)
  end.

Definition load_pending_records (space_id : string) (fs : files) : result (list wal_record) :=
  match load_records space_id fs with
  | Ok rs => Ok (filter (λ r, w_status r = "pending") rs)
  | Raise e => Raise e
  end.

(** Reading the file, changing the records with an id, and writing all of them back. *)
Definition rewrite_records (space_id record_id : string) (f : wal_record → wal_record) (fs : files) :
    result unit * files :=
  match load_records space_id fs with
  | Raise e => (Raise e, fs)
  | Ok rs =>
      (Ok tt, <[wal_path space_id :=
         print_records (map (λ r, if String.eqb (w_id r) record_id then f r else r) rs)]> fs)
  end.

Definition processed (r : wal_record) : wal_record := r <| w_status := "processed" |>.
Definition mark_processed (space_id record_id : string) : files → result unit * files :=
  rewrite_records space_id record_id processed.

Definition blocked (category : string) (preserve_pending : bool) (r : wal_record) : wal_record :=
  r <| w_text := "[敏感内容已拦截，原文未保存]" |>
    <| w_status := if preserve_pending then "pending" else "blocked_sensitive" |>
    <| w_sensitivity := str_or category "sensitive" |>.
Definition mark_sensitive_blocked (space_id record_id category : string) (preserve_pending : bool) :
    files → result unit * files :=
  rewrite_records space_id record_id (blocked category preserve_pending).

(** * What is written is read back *)

Context `{!JsonLaws}.

(** A text whose last byte is a closing brace keeps it under [strip]. *)
Fixpoint braced (s : string) : Prop :=
  match s with
  | EmptyString => False
  | String c EmptyString => c = "}"%char
  | String _ s => braced s
  end.

Lemma braced_tail c s : braced (String c s) → c ≠ "}"%char → braced s.
Proof. by destruct s. Qed.

Lemma whitespace_braced s s' : whitespace s = Some s' → braced s → braced s'.
Proof.
  assert (∀ c lo hi, byte_in c lo hi = true → byte_in "}"%char lo hi = false → c ≠ "}"%char) as Hc
    by (intros c lo hi H1 H2 ->; congruence).
  destruct s as [|a s1]; [done|]. cbn [whitespace].
  destruct (byte_in a 9 13 || byte_in a 28 32) eqn:Ea.
  { intros [= <-] Hb. apply (braced_tail a); [done|]. apply orb_true_iff in Ea as [Ea|Ea]; by eapply Hc. }
  destruct s1 as [|b s2]; [done|]. change (braced (String a (String b s2))) with (braced (String b s2)).
  destruct (byte_in a 194 194 && (byte_in b 133 133 || byte_in b 160 160)) eqn:Eb.
  { intros [= <-] Hb. apply (braced_tail b); [done|]. apply andb_true_iff in Eb as [_ Eb].
    apply orb_true_iff in Eb as [Eb|Eb]; by eapply Hc. }
  destruct s2 as [|c s3]; [done|]. change (braced (String b (String c s3))) with (braced (String c s3)).
  case_match eqn:Ec; [|done]. intros [= <-] Hb. apply (braced_tail c); [done|]. intros ->.
  assert (∀ x, x && false = false) as Hf by apply andb_false_r.
  revert Ec. change (byte_in "}"%char 128 128) with false. change (byte_in "}"%char 128 138) with false.
  change (byte_in "}"%char 168 169) with false. change (byte_in "}"%char 175 175) with false.
  change (byte_in "}"%char 159 159) with false. simpl. by rewrite !Hf.
Qed.

Lemma all_space_braced n s : braced s → all_space n s = false.
Proof.
  revert s. induction n as [|n IH]; intros s Hb; [by destruct s|]. destruct s as [|a s]; [done|]. cbn [all_space].
  destruct (whitespace (String a s)) as [s'|] eqn:E; [|done]. apply IH. by eapply whitespace_braced.
Qed.

Lemma rstrip_braced s : braced s → rstrip s = s.
Proof.
  induction s as [|c s IH]; intros Hb; [done|]. cbn [rstrip]. rewrite all_space_braced by done.
  destruct s as [|d s]; [done|]. by rewrite IH.
Qed.

Lemma braced_app s : braced (s +:+ "}").
Proof. induction s as [|c s IH]; [done|]. simpl. by destruct s. Qed.

Lemma strip_dumps r : py_strip (json_dumps r) = json_dumps r.
Proof.
  destruct (dumps_braces r) as [body ->]. unfold py_strip.
  change ("{" +:+ body +:+ "}") with (String "{" (body +:+ "}")). cbn [String.length lstrip].
  replace (whitespace (String "{" (body +:+ "}"))) with (@None string).
  - apply rstrip_braced. apply (braced_app (String "{" body)).
  - destruct body as [|a [|b body]]; reflexivity.
Qed.
Lemma read_line l : ∀ line rest, one_line l →
  read_lines line (l +:+ String LF rest) = (line +:+ l) :: read_lines "" rest.
Proof.
  induction l as [|c l IH]; intros line rest Hl; cbn [one_line] in Hl.
  - change ("" +:+ String LF rest) with (String LF rest). cbn [read_lines].
    rewrite Ascii.eqb_refl. by rewrite append_nil_r.
  - destruct Hl as (H1 & H2 & Hl). change (String c l +:+ String LF rest) with (String c (l +:+ String LF rest)).
    cbn [read_lines]. rewrite (proj2 (Ascii.eqb_neq c LF) H1), (proj2 (Ascii.eqb_neq c CR) H2), IH by done.
    by rewrite append_assoc.
Qed.

Lemma read_records rs : parse_lines (read_lines "" (print_records rs)) = Ok rs.
Proof.
  assert (∀ r rest, read_lines "" (print_record r +:+ rest) = json_dumps r :: read_lines "" rest) as Hr.
  { intros r rest. unfold print_record. rewrite append_assoc. apply read_line, dumps_one_line. }
  unfold print_records. induction rs as [|r rs IH]; [done|]. cbn [map]. rewrite join_cons, Hr. cbn [parse_lines].
  rewrite strip_dumps, loads_dumps, IH. destruct (dumps_braces r) as [body ->]. done.
Qed.

(** * The log as lists of records *)

Definition records_of (space_id : string) (l : logs) : list wal_record := default [] (l !! wal_path space_id).

Definition logged (r : wal_record) (l : logs) : logs :=
  <[wal_path (w_space_id r) := (records_of (w_space_id r) l ++ [r])%list]> l.
Definition known (r : wal_record) (l : logs) : bool :=
  existsb (λ r', String.eqb (w_message_id r') (w_message_id r)) (records_of (w_space_id r) l).
Definition changed (space_id record_id : string) (f : wal_record → wal_record) (l : logs) : logs :=
  <[wal_path space_id := map (λ r, if String.eqb (w_id r) record_id then f r else r) (records_of space_id l)]> l.

Inductive wal_op :=
  | WAppendOnce (r : wal_record)
  | WProcessed (space_id record_id : string)
  | WBlocked (space_id record_id category : string) (preserve_pending : bool).

(** What the code does to the files, and what it does to the lists. *)
Definition run_wal (o : wal_op) (fs : files) : files :=
  match o with
  | WAppendOnce r => (append_message_once r fs).2
  | WProcessed sid rid => (mark_processed sid rid fs).2
  | WBlocked sid rid category preserve => (mark_sensitive_blocked sid rid category preserve fs).2
  end.
Definition spec_wal (o : wal_op) (l : logs) : logs :=
  match o with
  | WAppendOnce r => if known r l then l else logged r l
  | WProcessed sid rid => changed sid rid processed l
  | WBlocked sid rid category preserve => changed sid rid (blocked category preserve) l
  end.

Lemma load_printed sid (l : logs) : load_records sid (print_records <$> l) = Ok (records_of sid l).
Proof.
  unfold load_records, records_of. rewrite lookup_fmap. destruct (l !! wal_path sid); [|done]. apply read_records.
Qed.

Lemma append_printed r (l : logs) : append_record r (print_records <$> l) = print_records <$> logged r l.
Proof.
  unfold append_record, logged, records_of. rewrite fmap_insert, lookup_fmap. f_equal.
  unfold print_records. rewrite map_app, join_app. cbn [map].
  change (join [print_record r]) with (print_record r).
  by destruct (l !! wal_path (w_space_id r)).
Qed.

Lemma rewrite_printed sid rid f (l : logs) :
  rewrite_records sid rid f (print_records <$> l) = (Ok tt, print_records <$> changed sid rid f l).
Proof. unfold rewrite_records, changed. by rewrite load_printed, fmap_insert. Qed.

Lemma once_printed r (l : logs) :
  append_message_once r (print_records <$> l)
  = (Ok (negb (known r l)), print_records <$> (if known r l then l else logged r l)).
Proof.
  unfold append_message_once, message_exists. rewrite load_printed. fold (known r l).
  destruct (known r l); [done|]. by rewrite append_printed.
Qed.

Lemma run_printed o (l : logs) : run_wal o (print_records <$> l) = print_records <$> spec_wal o l.
Proof.
  destruct o; simpl; [by rewrite once_printed|..]; unfold mark_processed, mark_sensitive_blocked;
    by rewrite rewrite_printed.
Qed.

Lemma runs_printed ops : ∀ l : logs,
  fold_left (λ fs o, run_wal o fs) ops (print_records <$> l)
  = print_records <$> fold_left (λ l o, spec_wal o l) ops l.
Proof. induction ops as [|o ops IH]; intros l; simpl; [done|]. by rewrite run_printed, IH. Qed.

Lemma files_printed ops :
  fold_left (λ fs o, run_wal o fs) ops ∅ = print_records <$> fold_left (λ l o, spec_wal o l) ops ∅.
Proof. by rewrite <- runs_printed, fmap_empty. Qed.

(** C26: what is written is read back: whatever is appended, marked and blocked, starting from
    no files, [load_records] returns without an error exactly the records that were logged in
    the file of the space, in order and with their changes, and [append_message_once] tells
    whether the message was new. *)
Theorem log_reads_back (ops : list wal_op) (space_id : string) (r : wal_record) :
  let fs := fold_left (λ fs o, run_wal o fs) ops ∅ in
  let l := fold_left (λ l o, spec_wal o l) ops ∅ in
  load_records space_id fs = Ok (records_of space_id l)
  ∧ (append_message_once r fs).1 = Ok (negb (known r l)).
Proof.
  intros fs l. unfold fs. rewrite files_printed. by rewrite load_printed, once_printed.
Qed.

(** * Each message once *)

Definition logged_once (l : logs) : Prop := ∀ path rs, l !! path = Some rs → NoDup (map w_message_id rs).

Lemma records_once sid l : logged_once l → NoDup (map w_message_id (records_of sid l)).
Proof. intros Hl. unfold records_of. destruct (l !! wal_path sid) eqn:E; [by eapply Hl|constructor]. Qed.

Lemma spec_once o l : logged_once l → logged_once (spec_wal o l).
Proof.
  intros Hl. assert (∀ sid rs, NoDup (map w_message_id rs) → logged_once (<[wal_path sid := rs]> l)) as Hins.
  { intros sid rs Hrs path rs' [[_ <-]|[_ E]]%lookup_insert_Some; [done|by eapply Hl]. }
  assert (∀ sid rid f, (∀ r, w_message_id (f r) = w_message_id r) → logged_once (changed sid rid f l)) as Hch.
  { intros sid rid f Hf. apply Hins. rewrite map_map.
    replace (map _ (records_of sid l)) with (map w_message_id (records_of sid l)); [by apply records_once|].
    apply map_ext. intros r. by destruct (String.eqb _ _). }
  destruct o as [r| |]; simpl; [|by apply Hch..]. destruct (known r l) eqn:Ek; [done|]. apply Hins.
  rewrite map_app. apply NoDup_app. split_and!; [by apply records_once| |apply NoDup_singleton].
  intros m (r' & Hm & Hr')%elem_of_map ->%list_elem_of_singleton.
  assert (known r l = true); [|congruence]. apply existsb_exists. exists r'. split; [by apply list_elem_of_In|].
  by apply String.eqb_eq.
Qed.

(** A message is logged at most once: no two records of a file carry the same message,
    however often it is delivered and whatever is marked in between. *)
Theorem messages_logged_once (ops : list wal_op) (space_id : string) (rs : list wal_record) :
  load_records space_id (fold_left (λ fs o, run_wal o fs) ops ∅) = Ok rs →
  NoDup (map w_message_id rs).
Proof.
  rewrite files_printed, load_printed. intros [= <-]. apply records_once.
  assert (logged_once ∅) as Hempty by (by intros path rs ?%lookup_empty_Some). revert Hempty.
  generalize (∅ : logs). induction ops as [|o ops IH]; intros l Hl; simpl; [done|]. by apply IH, spec_once.
Qed.
End wal.

(** * A concrete printer *)

Definition option_strings (o : option string) : string := match o with Some s => "1" +:+ s | None => "" end.
Definition strings_option (s : string) : option string := match s with String _ s => Some s | EmptyString => None end.
Fixpoint strings_pairs (l : list string) : list (string * string) :=
  match l with a :: b :: l => (a, b) :: strings_pairs l | _ => [] end.
(** A record as a list of strings *)
Definition record_strings (r : wal_record) : list string :=
  w_id r :: w_source r :: option_strings (w_event_id r) :: w_message_id r :: w_space_id r :: option_strings (w_chat_id r)
    :: w_chat_type r :: w_ts r :: w_text r :: w_status r :: w_sensitivity r :: concat (map (λ p, [p.1; p.2]) (w_sender r)).
Definition strings_record (l : list string) : option wal_record :=
  match l with
  | id :: source :: event :: message :: space :: chat :: type :: ts :: text :: status :: sensitivity :: sender =>
      Some (WalRecord id source (strings_option event) message space (strings_option chat) type (strings_pairs sender) ts text
        status sensitivity)
  | _ => None
  end.

#[export] Instance wal_record_eq_dec : EqDecision wal_record.
Proof. solve_decision. Defined.
#[export] Instance wal_record_countable : Countable wal_record.
Proof.
  refine (inj_countable record_strings strings_record _). intros [a b c d e f g sender i j k l]. cbn.
  assert (strings_pairs (concat (map (λ p, [p.1; p.2]) sender)) = sender) as -> by (induction sender as [|[x y] s IH]; cbn; congruence).
  by destruct c, f.
Defined.

(** A record as a number in braces. *)
#[local] Instance numbers : Json := {|
  json_dumps := λ r, "{" +:+ pretty (N.pos (encode r)) +:+ ":}";
  json_loads := λ s,
    match s with
    | String _ body =>
        match digits_value 0 (before_colon body) with
        | Some (N.pos p) => decode p
        | _ => None
        end
    | EmptyString => None
    end;
|}.

Lemma before_colon_app a b : no_colon a → before_colon (a +:+ String ":" b) = a.
Proof.
  induction a as [|c a IH]; [done|]. intros [Hc Ha].
  change (String c a +:+ String ":" b) with (String c (a +:+ String ":" b)). cbn [before_colon].
  by rewrite (proj2 (Ascii.eqb_neq _ _) Hc), IH.
Qed.

Lemma one_line_app a b : one_line a → one_line b → one_line (a +:+ b).
Proof. induction a as [|c a IH]; simpl; [done|]. intros (H1 & H2 & Ha) Hb. by split_and!; [| |apply IH]. Qed.

Lemma pretty_one_line x : ∀ s, one_line s → one_line (pretty_N_go x s).
Proof.
  induction (N.lt_wf_0 x) as [x _ IH]; intros s Hs.
  destruct (decide (x = 0)%N) as [->|Hx]; [by rewrite pretty_N_go_0|].
  rewrite pretty_N_go_step by lia. apply IH; [apply N.div_lt; lia|].
  unfold pretty_N_char. by repeat case_match.
Qed.

Lemma pretty_pos p : pretty (N.pos p) = pretty_N_go (N.pos p) "".
Proof. unfold pretty, pretty_N. by rewrite decide_False. Qed.

#[local] Instance numbers_laws : JsonLaws.
Proof.
  split; intros r; unfold json_loads, json_dumps, numbers.
  - change ("{" +:+ pretty (N.pos (encode r)) +:+ ":}")
      with (String "{" (pretty (N.pos (encode r)) +:+ String ":" "}")). cbv beta iota.
    rewrite before_colon_app by apply pretty_N_no_colon. rewrite pretty_pos, digits_value_pretty.
    apply decode_encode.
  - split; [done|]. split; [done|]. apply (one_line_app (pretty (N.pos (encode r)))); [|done]. rewrite pretty_pos. by apply pretty_one_line.
  - exists (pretty (N.pos (encode r)) +:+ ":"). by rewrite append_assoc.
Qed.

Definition note_record (id message space : string) : wal_record :=
  WalRecord id "feishu" None message space None "p2p" [] "2026-01-01T00:00:00" "hello" "pending" "normal".

Definition log_example : list wal_op :=
  [WAppendOnce (note_record "1" "m1" "s"); WAppendOnce (note_record "2" "m1" "s"); WProcessed "s" "1"].

Definition logged_example : list wal_record :=
  records_of "s" (fold_left (λ l o, spec_wal o l) log_example ∅).

Lemma log_reads_back_witness :
  let fs := fold_left (λ fs o, run_wal o fs) log_example ∅ in
  load_records "s" fs = Ok logged_example
  ∧ (append_message_once (note_record "3" "m3" "s") fs).1
    = Ok (negb (known (note_record "3" "m3" "s") (fold_left (λ l o, spec_wal o l) log_example ∅))).
Proof. exact (log_reads_back log_example "s" (note_record "3" "m3" "s")). Defined.

Lemma messages_logged_once_witness : NoDup (map w_message_id logged_example).
Proof. apply (messages_logged_once log_example "s"). rewrite files_printed. apply load_printed. Defined.

(** Spaces whose names differ only in characters that are replaced share a file: a message of the
    one is a message of the other. *)
Lemma spaces_share_a_file :
  wal_path "ou:a" = wal_path "ou_a"
  ∧ (append_message_once (note_record "2" "m1" "ou_a")
       (fold_left (λ fs o, run_wal o fs) [WAppendOnce (note_record "1" "m1" "ou:a")] ∅)).1 = Ok false.
Proof.
  split; [reflexivity|]. rewrite files_printed, once_printed. cbn [fst]. by vm_compute.
Qed.
