(* ===== verification/Regex.v ===== *)
(** The regular expressions that the program gives to the [re] module of Python: a matcher,
    what it recognises, and that the two agree.

    A text is the list of its characters.  The tables of Unicode - what counts as a space, a
    digit, a word character, and the folding of [IGNORECASE] - are arbitrary functions.  Only
    the existence of a match is modelled, so greedy and lazy repetition are the same. *)

From stdpp Require Import base list strings.
From Stdlib Require Import ZArith Lia.
From S2P Require Import Prelude TextChunks.

Open Scope string_scope.

Class Unicode := {
  re_space : string → bool;
  re_digit : string → bool;
  re_word : string → bool;
  re_fold : string → string;
}.

Inductive re :=
  | Eps
  | Cls (p : string → bool)           (* one character of a class *)
  | Cat (a b : re)
  | Alt (a b : re)
  | Star (r : re)
  | Bnd                               (* \b *)
  | Look (r : re).                    (* (?=r) *)

Section regex.
Context `{Unicode}.

(** ** The notation of the patterns *)

Definition one (x : string) : re := Cls (String.eqb x).
Definition one_i (x : string) : re := Cls (λ c, String.eqb (re_fold c) (re_fold x)).
Definition cat (rs : list re) : re := foldr Cat Eps rs.
Definition alt (rs : list re) : re := match rs with [] => Cls (λ _, false) | r :: rs => foldl Alt r rs end.
Definition opt (r : re) : re := Alt r Eps.
Definition plus (r : re) : re := Cat r (Star r).
Fixpoint times (n : nat) (r : re) : re := match n with O => Eps | S n => Cat r (times n r) end.
Fixpoint up_to (n : nat) (r : re) : re := match n with O => Eps | S n => opt (Cat r (up_to n r)) end.
Definition at_least (n : nat) (r : re) : re := Cat (times n r) (Star r).         (* r{n,} *)
Definition between (n m : nat) (r : re) : re := Cat (times n r) (up_to (m - n) r).   (* r{n,m} *)
Definition lit (s : string) : re := cat (map one (chars s)).
Definition lit_i (s : string) : re := cat (map one_i (chars s)).
Definition words (ss : list string) : re := alt (map lit ss).
Definition words_i (ss : list string) : re := alt (map lit_i ss).

(** Ranges of ASCII, and the members of a class *)
Definition in_range (lo hi : N) (c : string) : bool :=
  match c with
  | String a EmptyString => let n := Ascii.N_of_ascii a in (lo <=? n)%N && (n <=? hi)%N
  | _ => false
  end.
Definition in_set (s : string) (c : string) : bool := existsb (String.eqb c) (chars s).
Definition alnum (c : string) : bool := in_range 65 90 c || in_range 97 122 c || in_range 48 57 c.
Definition space : re := Cls re_space.
Definition non_space : re := Cls (λ c, negb (re_space c)).
Definition any : re := Cls (λ _, true).

(** ** The matcher *)

Definition is_word (o : option string) : bool := match o with Some c => re_word c | None => false end.

(** Does a prefix of [s] match, so that the rest satisfies [k]?  [prev] is the character before
    [s].  A round of a repetition that consumes nothing is not repeated. *)
Fixpoint run (r : re) (prev : option string) (s : list string) (k : option string → list string → bool) : bool :=
  match r with
  | Eps => k prev s
  | Cls p => match s with c :: s => if p c then k (Some c) s else false | [] => false end
  | Cat a b => run a prev s (λ prev s, run b prev s k)
  | Alt a b => if run a prev s k then true else run b prev s k
  | Star r =>
      (fix loop (fuel : nat) (prev : option string) (s : list string) : bool :=
         if k prev s then true
         else match fuel with
              | O => false
              | S fuel => run r prev s (λ prev s', if (length s' <? length s)%nat then loop fuel prev s' else false)
              end) (length s) prev s
  | Bnd => if Bool.eqb (is_word prev) (is_word (head s)) then false else k prev s
  | Look r => if run r prev s (λ _ _, true) then k prev s else false
  end.

(** [re.search] finds something. *)
Fixpoint search_from (r : re) (prev : option string) (s : list string) : bool :=
  if run r prev s (λ _ _, true) then true else match s with [] => false | c :: s => search_from r (Some c) s end.
Definition search (r : re) (text : string) : bool := search_from r None (chars text).
(** [re.fullmatch] *)
Definition fullmatch (r : re) (text : string) : bool :=
  run r None (chars text) (λ _ s, match s with [] => true | _ => false end).

(** * What a pattern means *)

(** [matches r prev s prev' s']: [r] matches what is between the positions. *)
Inductive matches : re → option string → list string → option string → list string → Prop :=
  | m_eps prev s : matches Eps prev s prev s
  | m_cls p c prev s : p c = true → matches (Cls p) prev (c :: s) (Some c) s
  | m_cat a b p1 s1 p2 s2 p3 s3 :
      matches a p1 s1 p2 s2 → matches b p2 s2 p3 s3 → matches (Cat a b) p1 s1 p3 s3
  | m_alt_l a b p1 s1 p2 s2 : matches a p1 s1 p2 s2 → matches (Alt a b) p1 s1 p2 s2
  | m_alt_r a b p1 s1 p2 s2 : matches b p1 s1 p2 s2 → matches (Alt a b) p1 s1 p2 s2
  | m_star_nil r prev s : matches (Star r) prev s prev s
  | m_star_cons r p1 s1 p2 s2 p3 s3 :
      matches r p1 s1 p2 s2 → matches (Star r) p2 s2 p3 s3 → matches (Star r) p1 s1 p3 s3
  | m_bnd prev s : is_word prev ≠ is_word (head s) → matches Bnd prev s prev s
  | m_look r prev s p' s' : matches r prev s p' s' → matches (Look r) prev s prev s.
#[local] Hint Constructors matches : core.

(** A match moves forward; one of no length stays where it is. *)
Lemma matches_forward r p s p' s' : matches r p s p' s' →
  (length s' ≤ length s)%nat ∧ (length s' = length s → s' = s ∧ p' = p).
Proof.
  assert (∀ (p1 : option string) (s1 : list string) (p2 : option string) s2 (p3 : option string) s3, (length s2 ≤ length s1)%nat ∧ (length s2 = length s1 → s2 = s1 ∧ p2 = p1) →
    (length s3 ≤ length s2)%nat ∧ (length s3 = length s2 → s3 = s2 ∧ p3 = p2) →
    (length s3 ≤ length s1)%nat ∧ (length s3 = length s1 → s3 = s1 ∧ p3 = p1)) as Htrans.
  { intros p1 s1 p2 s2 p3 s3 [L1 E1] [L2 E2]. split; [lia|]. intros E.
    destruct E1 as [-> ->]; [lia|]. by destruct E2 as [-> ->]. }
  induction 1; eauto; simpl; split; lia.
Qed.

(** A repetition whose first round, if any, consumes something *)
Lemma star_progress r p s p' s' : matches (Star r) p s p' s' →
  (p' = p ∧ s' = s) ∨ ∃ p1 s1, matches r p s p1 s1 ∧ (length s1 < length s)%nat ∧ matches (Star r) p1 s1 p' s'.
Proof.
  intros Hm. remember (Star r) as x eqn:E. revert E. induction Hm; intros [= ->]; [by left|].
  destruct (matches_forward _ _ _ _ _ Hm1) as [Hle Heq].
  destruct (decide (length s2 = length s1)) as [El|Hne].
  - destruct (Heq El) as [-> ->]. by apply IHHm2.
  - right. exists p2, s2. split_and!; [done|lia|done].
Qed.

Definition reaches (r : re) (p : option string) (s : list string) (k : option string → list string → bool) : Prop :=
  ∃ p' s', matches r p s p' s' ∧ k p' s' = true.

Lemma if_and (a b : bool) : (if a then b else false) = a && b.
Proof. by destruct a. Qed.
Lemma if_or (a b : bool) : (if a then true else b) = a || b.
Proof. by destruct a. Qed.

Lemma run_spec r : ∀ p s k, run r p s k = true ↔ reaches r p s k.
Proof.
  unfold reaches. induction r as [|q|a IHa b IHb|a IHa b IHb|r IH| |r IH]; intros p s k; cbn [run].
  - split; [eauto|]. intros (p' & s' & Hm & Hk). by inversion Hm; subst.
  - destruct s as [|c s].
    { split; [done|]. intros (p' & s' & Hm & Hk). inversion Hm. }
    rewrite if_and, andb_true_iff. split.
    + intros [Hq Hk]. eauto.
    + intros (p' & s' & Hm & Hk). by inversion Hm; subst.
  - rewrite IHa. setoid_rewrite IHb. split.
    + intros (p1 & s1 & H1 & p2 & s2 & H2 & Hk). eauto.
    + intros (p' & s' & Hm & Hk). inversion Hm; subst. eauto 10.
  - rewrite if_or, orb_true_iff, IHa, IHb. split.
    + intros [(p' & s' & ? & ?)|(p' & s' & ? & ?)]; eauto.
    + intros (p' & s' & Hm & Hk). inversion Hm; subst; eauto.
  - assert (length s ≤ length s)%nat as Hle by lia. revert Hle.
    generalize (length s) at 2 3 as fuel. intros fuel. revert p s.
    induction fuel as [|fuel IHf]; intros p s Hle; rewrite if_or, orb_true_iff.
    + destruct s; [|simpl in Hle; lia]. split; [intros [Hk|]; [eauto|done]|].
      intros (p' & s' & [[-> ->]|(p1 & s1 & _ & Hlt & _)]%star_progress & Hk); [by left|simpl in Hlt; lia].
    + rewrite IH. split.
      * intros [Hk|(p1 & s1 & H1 & Hand)]; [eauto|].
        rewrite if_and in Hand; apply andb_true_iff in Hand as [Hlt%Nat.ltb_lt Hr].
        apply IHf in Hr as (p' & s' & H2 & Hk); [|lia]. eauto.
      * intros (p' & s' & [[-> ->]|(p1 & s1 & H1 & Hlt & H2)]%star_progress & Hk); [by left|]. right.
        exists p1, s1. split; [done|].
        rewrite (proj2 (Nat.ltb_lt _ _) Hlt).
        apply IHf; [lia|eauto].
  - destruct (Bool.eqb _ _) eqn:E.
    + apply eqb_prop in E. split; [done|]. intros (p' & s' & Hm & _). inversion Hm; subst. contradiction.
    + apply eqb_false_iff in E. split; [eauto|]. intros (p' & s' & Hm & Hk). by inversion Hm; subst.
  - rewrite if_and, andb_true_iff, IH. split.
    + intros [(p' & s' & Hm & _) Hk]. eauto.
    + intros (p' & s' & Hm & Hk). inversion Hm; subst. eauto.
Qed.

(** [search] finds a match exactly if the pattern matches somewhere in the text, and [fullmatch]
    if it matches all of it: the matcher, with its bound on repetitions, is complete and sound. *)
Lemma search_from_spec r : ∀ p s, search_from r p s = true ↔
  ∃ front back p' s', s = (front ++ back)%list ∧ matches r (match last front with Some c => Some c | None => p end) back p' s'.
Proof.
  intros p s. revert p. induction s as [|c s IH]; intros p; cbn [search_from]; rewrite if_or, orb_true_iff, run_spec; unfold reaches.
  - split.
    + intros [(p' & s' & Hm & _)|]; [|done]. by exists [], [], p', s'.
    + intros (front & back & p' & s' & E & Hm). symmetry in E. apply app_nil in E as [-> ->]. left. eauto.
  - rewrite IH. split.
    + intros [(p' & s' & Hm & _)|(front & back & p' & s' & -> & Hm)]; [by exists [], (c :: s), p', s'|].
      exists (c :: front), back, p', s'. split; [done|]. rewrite last_cons. by destruct (last front).
    + intros (front & back & p' & s' & E & Hm). destruct front as [|d front].
      * simpl in E. subst. left. eauto.
      * injection E as <- ->. right. exists front, back, p', s'. split; [done|].
        rewrite last_cons in Hm. by destruct (last front).
Qed.

Theorem search_is_exact r text : search r text = true ↔
  ∃ front back p' s', chars text = (front ++ back)%list ∧ matches r (last front) back p' s'.
Proof.
  unfold search. rewrite search_from_spec. split; intros (front & back & p' & s' & E & Hm);
    exists front, back, p', s'; (split; [done|]); by destruct (last front).
Qed.

Theorem fullmatch_is_exact r text : fullmatch r text = true ↔ ∃ p', matches r None (chars text) p' [].
Proof.
  unfold fullmatch. rewrite run_spec. unfold reaches. split.
  - intros (p' & [|] & Hm & ?); [eauto|done].
  - intros (p' & Hm). by exists p', [].
Qed.
End regex.

(** The tables of ASCII, for the concrete runs *)
#[local] Instance ascii_tables : Unicode := {|
  re_space := λ c, in_range 9 13 c || in_range 28 32 c;
  re_digit := in_range 48 57;
  re_word := λ c, alnum c || String.eqb c "_" || match c with String _ EmptyString => false | _ => true end;
  re_fold := ascii_lower;
|}.

Example repetitions : search (cat [lit "a"; between 2 3 (lit "b"); Star (lit "c"); Bnd]) "xabbbccd abb"
  ∧ ¬ search (cat [Bnd; lit "sk-"; at_least 3 (Cls alnum)]) "ask-abcd sk-ab".
Proof. by vm_compute. Qed.
