(* ===== verification/Sensitive.v ===== *)
(** The recognition of sensitive texts ([core/sensitive.py]): a text with a credential or an
    identifier is not stored. *)

From stdpp Require Import base list strings.
From Stdlib Require Import ZArith Lia.
From S2P Require Import Prelude Consistency TextChunks Regex.

Open Scope string_scope.

(** [SensitiveAssessment]; its defaults are [not_sensitive]. *)
Record assessment := SensitiveAssessment {
  sa_sensitive : bool;
  sa_category : option string;
  sa_reason : option string;
  sa_blocks_storage : bool;
}.

Section sensitive.
Context `{Platform, Unicode}.

Definition HIGH_RISK_IDENTIFIER_LABELS : list string :=
  ["身份证"; "身份证号"; "身份号码"; "证件号"; "证件号码";
   "银行卡"; "银行卡号"; "银行账号"; "社保号"; "护照号"].
Definition SENSITIVE_TOPIC_KEYWORDS : list string :=
  (["密码"; "口令"; "私钥"; "密钥"] ++ HIGH_RISK_IDENTIFIER_LABELS
   ++ ["api key"; "apikey"; "access key"; "token"; "secret"; "password"; "authorization"])%list.

(** ** The patterns *)

(** A class under [IGNORECASE], given by its lower-case members *)
Definition cls_i (p : string → bool) : re := Cls (λ c, p (re_fold c)).
Definition key_with (separators word : string) : re := cat [lit_i word; opt (Cls (in_set separators)); lit_i "key"].
Definition credential_label : re :=
  alt [lit "密码"; lit "口令"; lit "私钥"; lit "密钥"; key_with "_ -" "api"; key_with "_ -" "access";
       lit_i "token"; lit_i "secret"; lit_i "password"].
Definition value_char : string → bool := λ c, negb (re_space c || in_set "，。；;" c).
Definition assignment : re := alt [lit "是"; lit "为"; Cls (in_set ":：=")].
Definition token_char : string → bool := λ c, alnum c || in_set "_-" c.

Definition CREDENTIAL_LABEL_VALUE_RE : re :=
  cat [credential_label; Star space; assignment; Star space; at_least 4 (Cls value_char)].
Definition CREDENTIAL_SPACE_VALUE_RE : re :=
  cat [credential_label; plus space; Look (at_least 8 (Cls value_char));
       Look (Cat (Star (Cls value_char)) (Cls re_digit)); at_least 8 (Cls value_char)].
Definition PREFIXED_SECRET_RE : re :=
  cat [Bnd; words_i ["sk"; "rk"; "pk"]; lit "-"; at_least 12 (cls_i token_char); Bnd].
Definition PROVIDER_SECRET_RE : re :=
  alt [Cat (lit "AKIA") (times 16 (Cls (λ c, in_range 48 57 c || in_range 65 90 c)));
       cat [lit "gh"; Cls (in_set "pousr"); lit "_"; at_least 20 (Cls alnum)];
       Cat (lit "AIza") (at_least 30 (Cls token_char))].
Definition JWT_RE : re :=
  let part := at_least 12 (Cls token_char) in cat [Bnd; part; lit "."; part; lit "."; part; Bnd].
Definition BEARER_RE : re :=
  cat [Bnd; lit_i "Bearer"; plus space; at_least 12 (cls_i (λ c, alnum c || in_set "._~+/=-" c))].
Definition key_kind : re := opt (Cat (lit " ") (plus (Cls (λ c, in_range 65 90 c || in_range 48 57 c)))).
Definition PRIVATE_KEY_RE : re :=
  cat [lit "-----BEGIN"; key_kind; lit " PRIVATE KEY-----"; Star any; lit "-----END"; key_kind; lit " PRIVATE KEY-----"].
Definition CONNECTION_CREDENTIAL_RE : re :=
  cat [Bnd; alt [Cat (lit_i "postgres") (opt (lit_i "ql")); lit_i "mysql"; Cat (lit_i "mongodb") (opt (lit_i "+srv"));
                 lit_i "redis"];
       lit "://"; plus (Cls (λ c, negb (re_space c || in_set ":/" c))); lit ":";
       plus (Cls (λ c, negb (re_space c || in_set "@" c))); lit "@"].
Definition URL_CREDENTIAL_RE : re :=
  cat [Cls (in_set "?&");
       alt [key_with "_-" "api"; lit_i "key"; lit_i "token"; lit_i "secret";
            cat [lit_i "access"; opt (Cls (in_set "_-")); lit_i "token"]; key_with "_-" "access"; lit_i "ticket"];
       lit "="; plus (Cls (λ c, negb (re_space c || in_set "&" c)))].
Definition IDENTIFIER_RE : re :=
  cat [alt [Cat (lit "身份证") (opt (lit "号")); Cat (lit "银行卡") (opt (lit "号")); lit "卡号"; lit "银行账号"; lit "账号"];
       Star space; opt assignment; Star space;
       between 12 19 (Cat (Cls re_digit) (opt (Cls (in_set " -")))); Cls (λ c, in_range 48 57 c || in_set "Xx" c)].

(** ** The assessment *)

Definition found (kind why : string) : assessment := SensitiveAssessment true (Some kind) (Some why) true.
Definition not_sensitive : assessment := SensitiveAssessment false None None false.

Definition assess_sensitive_text (value : string) : assessment :=
  if search PRIVATE_KEY_RE value then found "private_key" "private_key_block"
  else if search BEARER_RE value then found "credential" "bearer_token"
  else if search CONNECTION_CREDENTIAL_RE value then found "credential" "connection_string_credentials"
  else if search URL_CREDENTIAL_RE value then found "credential" "url_credentials"
  else if search PROVIDER_SECRET_RE value then found "credential" "provider_secret"
  else if search JWT_RE value then found "credential" "jwt"
  else if search PREFIXED_SECRET_RE value then found "credential" "prefixed_secret"
  else if search CREDENTIAL_LABEL_VALUE_RE value then found "credential" "credential_label_with_value"
  else if search CREDENTIAL_SPACE_VALUE_RE value then found "credential" "credential_label_with_space_value"
  else if search IDENTIFIER_RE value then found "identifier" "high_risk_identifier"
  else
    let compact := str_casefold value in
    if existsb (λ label, str_contains (str_casefold label) compact) HIGH_RISK_IDENTIFIER_LABELS
    then found "identifier" "high_risk_identifier_label"
    else not_sensitive.

Definition contains_sensitive_data (text : string) : bool := sa_sensitive (assess_sensitive_text text).
Definition mentions_sensitive_topic (text : string) : bool :=
  existsb (λ keyword, str_contains keyword (str_casefold text)) SENSITIVE_TOPIC_KEYWORDS.

(** * What is recognised *)

(** Whatever is recognised is kept out of the storage. *)
Lemma sensitive_is_blocked text : sa_blocks_storage (assess_sensitive_text text) = contains_sensitive_data text.
Proof. unfold contains_sensitive_data, assess_sensitive_text. by repeat case_match. Qed.

(** The texts of a sequence of patterns *)
Inductive spelled : list re → option string → list string → option string → list string → Prop :=
  | spelled_nil p s : spelled [] p s p s
  | spelled_cons r rs p1 s1 p2 s2 p3 s3 :
      matches r p1 s1 p2 s2 → spelled rs p2 s2 p3 s3 → spelled (r :: rs) p1 s1 p3 s3.
#[local] Hint Constructors matches spelled : core.

Lemma spelled_cat rs : ∀ p s p' s', spelled rs p s p' s' → matches (cat rs) p s p' s'.
Proof. induction 1; simpl; eauto. Qed.
Lemma one_matches c p s : matches (one c) p (c :: s) (Some c) s.
Proof. constructor. by apply String.eqb_eq. Qed.
Lemma one_i_matches c d p s : re_fold d = re_fold c → matches (one_i c) p (d :: s) (Some d) s.
Proof. intros E. constructor. rewrite E. by apply String.eqb_eq. Qed.

(** A word, in any case under [IGNORECASE] *)
Lemma letters_match (f : string → re) (same : string → string → Prop) cs ds p rest :
  (∀ c d p s, same c d → matches (f c) p (d :: s) (Some d) s) → Forall2 same cs ds →
  ∃ p', matches (cat (map f cs)) p (ds ++ rest)%list p' rest.
Proof.
  intros Hf Hs. revert p. induction Hs as [|c d cs ds Hcd _ IH]; intros p; simpl; [eauto|].
  destruct (IH (Some d)) as [p' Hm]. eauto.
Qed.

Lemma at_least_matches q vs n p rest : Forall (λ c, q c = true) vs → (n ≤ length vs)%nat →
  ∃ p', matches (at_least n (Cls q)) p (vs ++ rest)%list p' rest.
Proof.
  intros Hq. revert n p. unfold at_least. induction Hq as [|c vs Hc _ IH]; intros n p Hn.
  - destruct n; [|simpl in Hn; lia]. simpl. eauto.
  - destruct n as [|n]; simpl.
    + destruct (IH 0%nat (Some c)) as [p' Hm]; [lia|]. exists p'. inversion Hm as [| |a b q1 s1 q2 s2 q3 s3 H1 H2| | | | | |]; subst.
      inversion H1; subst. eauto.
    + destruct (IH n (Some c)) as [p' Hm]; [simpl in Hn; lia|]. exists p'. inversion Hm; subst. eauto.
Qed.

Lemma found_is_blocked r text : r ∈ [PRIVATE_KEY_RE; BEARER_RE; CONNECTION_CREDENTIAL_RE; URL_CREDENTIAL_RE; PROVIDER_SECRET_RE;
    JWT_RE; PREFIXED_SECRET_RE; CREDENTIAL_LABEL_VALUE_RE; CREDENTIAL_SPACE_VALUE_RE; IDENTIFIER_RE] →
  search r text = true → sa_blocks_storage (assess_sensitive_text text) = true.
Proof.
  intros Hr Hs. unfold assess_sensitive_text. repeat (case_match; [done|]).
  repeat (apply elem_of_cons in Hr as [->|Hr]; [congruence|]). by apply elem_of_nil in Hr.
Qed.

Definition spelling (word : string) (ds : list string) : Prop := Forall2 (λ c d, re_fold d = re_fold c) (chars word) ds.

Lemma assignment_matches mark p s : mark ∈ ["是"; "为"; ":"; "："; "="] → matches assignment p (mark :: s) (Some mark) s.
Proof.
  intros Hm. assert (∀ c, c ∈ chars ":：=" → matches (Cls (in_set ":：=")) p (c :: s) (Some c) s) as Hset.
  { intros c Hc. constructor. apply existsb_exists. exists c. split; [by apply list_elem_of_In|by apply String.eqb_eq]. }
  assert (∀ c, c = "是" ∨ c = "为" → matches (Alt (lit "是") (lit "为")) p (c :: s) (Some c) s) as Hw.
  { intros c [-> | ->]; [apply m_alt_l|apply m_alt_r]; eapply m_cat; constructor; by apply String.eqb_eq. }
  unfold assignment, alt. cbn [foldl].
  repeat (apply elem_of_cons in Hm as [->|Hm]); try (by apply elem_of_nil in Hm).
  - apply m_alt_l, Hw. by left.
  - apply m_alt_l, Hw. by right.
  - apply m_alt_r, Hset. by left.
  - apply m_alt_r, Hset. right. by left.
  - apply m_alt_r, Hset. right. right. by left.
Qed.

(** A password or a token that is named and given a value of at least four characters, in any
    case and anywhere in the text, is kept out of the storage. *)
Theorem labelled_secret_is_blocked text front label mark value back :
  chars text = (front ++ label ++ mark :: value ++ back)%list →
  (spelling "token" label ∨ spelling "secret" label ∨ spelling "password" label
   ∨ label = chars "密码" ∨ label = chars "口令" ∨ label = chars "私钥" ∨ label = chars "密钥") →
  mark ∈ ["是"; "为"; ":"; "："; "="] →
  Forall (λ c, re_space c = false ∧ c ∉ chars "，。；;") value → (4 ≤ length value)%nat →
  sa_blocks_storage (assess_sensitive_text text) = true.
Proof.
  intros Htext Hlabel Hmark Hvalue Hlen. apply (found_is_blocked CREDENTIAL_LABEL_VALUE_RE).
  { do 7 right. left. }
  apply search_is_exact.
  assert (∃ p', matches credential_label (last front) (label ++ mark :: value ++ back)%list p' (mark :: value ++ back)%list)
    as [p1 H1].
  { assert (∀ w ds, spelling w ds → ∃ p', matches (lit_i w) (last front) (ds ++ mark :: value ++ back)%list p' (mark :: value ++ back)%list)
      as Hi by (intros w ds; apply letters_match, one_i_matches).
    assert (∀ w, ∃ p', matches (lit w) (last front) (chars w ++ mark :: value ++ back)%list p' (mark :: value ++ back)%list) as Hl.
    { intros w. apply (letters_match one eq); [intros c d p s <-; apply one_matches|]. by induction (chars w); constructor. }
    unfold credential_label, alt. cbn [foldl].
    destruct_or! Hlabel;
      [destruct (Hi _ _ Hlabel) as [p' Hm]|destruct (Hi _ _ Hlabel) as [p' Hm]|destruct (Hi _ _ Hlabel) as [p' Hm]
      |subst label; destruct (Hl "密码") as [p' Hm]|subst label; destruct (Hl "口令") as [p' Hm]
      |subst label; destruct (Hl "私钥") as [p' Hm]|subst label; destruct (Hl "密钥") as [p' Hm]];
      exists p'; repeat first [exact Hm|apply m_alt_r; exact Hm|apply m_alt_l]. }
  destruct (at_least_matches value_char value 4 (Some mark) back) as [p2 H2]; [|done|].
  { eapply Forall_impl; [exact Hvalue|]. intros c [Hsp Hin]. unfold value_char, in_set. rewrite Hsp, orb_false_l. apply negb_true_iff.
    apply not_true_iff_false. intros (d & Hd%list_elem_of_In & E)%existsb_exists. apply String.eqb_eq in E as ->. done. }
  exists front, (label ++ mark :: value ++ back)%list, p2, back. split; [done|]. apply spelled_cat.
  econstructor; [exact H1|]. econstructor; [constructor|]. econstructor.
  { apply assignment_matches, Hmark. }
  econstructor; [constructor|]. eauto.
Qed.
End sensitive.

#[local] Existing Instance ascii_tables.
#[local] Existing Instance test_platform.

Example recognised : map (λ t, sa_reason (assess_sensitive_text t))
    ["我的密码是abc123"; "Authorization: bearer abcdefghijkl0"; "redis://u:p@host"; "see ?Token=abc"; "ghp_abcdefghij0123456789";
     "token abcdefg7"; "身份证号 110101199001011234"; "今天吃了馅饼"; "忘记密码了"]
  = [Some "credential_label_with_value"; Some "bearer_token"; Some "connection_string_credentials"; Some "url_credentials";
     Some "provider_secret"; Some "credential_label_with_space_value"; Some "high_risk_identifier"; None; None].
Proof. vm_compute. reflexivity. Qed.

(** A Chinese character is a word character, so that there is no word boundary after it: a key
    that follows it without a space is not recognised. *)
Example key_after_a_character :
  contains_sensitive_data "用 sk-abcdefghijkl0123" = true ∧ contains_sensitive_data "用sk-abcdefghijkl0123" = false.
Proof. split; vm_compute; reflexivity. Qed.

Lemma labelled_secret_is_blocked_witness :
  sa_blocks_storage (assess_sensitive_text "我的 Token：ab1d 谢谢") = true.
Proof.
  apply (labelled_secret_is_blocked "我的 Token：ab1d 谢谢" (chars "我的 ") (chars "Token") "：" (chars "ab1d") (chars " 谢谢")).
  - vm_compute. reflexivity.
  - left. repeat constructor.
  - apply py_in_true. vm_compute. reflexivity.
  - repeat constructor; vm_compute; try reflexivity; intros Hin; repeat (apply elem_of_cons in Hin as [?|Hin]; [done|]); by apply elem_of_nil in Hin.
  - vm_compute. lia.
Defined.
