(* ===== verification/MemoryText.v ===== *)
(** The texts of the memories: [normalize_content] and [memory_key_for] of [memory/models.py],
    and [merge_content] of [memory/policies]. *)

From stdpp Require Import base list strings.
From Stdlib Require Import ZArith Lia.
From S2P Require Import Prelude Consistency TextChunks.

Open Scope string_scope.
Open Scope Z_scope.

(** Tables of the Python runtime: the characters that [\w] of a regular expression matches,
    and a digest. *)
Class TextTables := {
  is_word_char : string → bool;
  sha1_hexdigest : string → string;
}.

(** [s.startswith(t)] *)
Fixpoint starts_with (t s : string) : bool :=
  match t, s with
  | EmptyString, _ => true
  | String a t, String b s => Ascii.eqb a b && starts_with t s
  | String _ _, EmptyString => false
  end.

(** Removing words: at each position the first of [tokens] that starts there is skipped, as by
    [re.sub("(?:a|b)", "", s)] and, for one token, [s.replace(token, "")]. *)
Fixpoint remove_tokens (tokens : list string) (skip : nat) (s : string) : string :=
  match s with
  | EmptyString => EmptyString
  | String c s' =>
      match skip with
      | S skip => remove_tokens tokens skip s'
      | O => match List.find (λ t, starts_with t s) tokens with
             | Some t => remove_tokens tokens (String.length t - 1) s'
             | None => String c (remove_tokens tokens 0 s')
             end
      end
  end.

(** [re.sub("^(?:a|b)", "", s)] *)
Definition remove_start (tokens : list string) (s : string) : string :=
  match List.find (λ t, starts_with t s) tokens with
  | Some t => String.substring (String.length t) (String.length s - String.length t) s
  | None => s
  end.

(** [s.lstrip(characters)], [s.rstrip(characters)] *)
Fixpoint drop_chars (characters cs : list string) : list string :=
  match cs with
  | [] => []
  | c :: rest => if py_in c characters then drop_chars characters rest else cs
  end.
Definition lstrip_chars (characters : list string) (s : string) : string :=
  join (drop_chars characters (chars s)).
Definition rstrip_chars (characters : list string) (s : string) : string :=
  join (rev (drop_chars characters (rev (chars s)))).

Section texts.
Context `{Platform, TextTables}.

(** [re.sub(r"[\s\W_]+", "", value)] keeps the other characters. *)
Definition kept_char (c : string) : bool :=
  is_word_char c && negb (String.eqb c "_") && negb (bool_decide (is_Some (whitespace c))).

Definition normalize_content (text : string) : string :=
  let value := join (List.filter kept_char (chars (str_casefold text))) in
  fold_left (λ value token, remove_tokens [token] 0 value)
    ["用户"; "我现在"; "我最近"; "我"; "本人"; "目前"; "现在"; "最近"] value.

Definition PREFERENCE_WORDS : list string :=
  ["用户"; "本人"; "我现在"; "我最近"; "我"; "喜欢"; "更喜欢"; "最喜欢"; "偏好"; "习惯"; "不喜欢"; "讨厌"; "厌恶"; "不爱";
   "不想"; "不打算"; "暂时不"; "过敏"; "优先选择"; "优先"].
Definition PREFERENCE_VERBS : list string :=
  ["喝"; "吃"; "用"; "使用"; "采用"; "选择"; "选"; "穿"; "看"; "听"; "玩"; "住"; "做"; "学习"; "学"; "买"; "去"].
Definition TASK_WORDS : list string :=
  ["记得"; "需要"; "待办"; "完成"; "完善"; "处理"; "修复"; "修改"; "修"; "改"; "实现"; "已经"; "正在"; "进行中"; "开始";
   "继续"; "阻塞"; "卡住"; "取消"; "不用做"; "不做了"; "现在"; "可以"; "还要给"; "补充测试"; "遇到"].

Definition memory_key_for (memory_type : string) (subject predicate object_value : option string)
    (content : string) : string :=
  let subject_key := str_or (normalize_content (opt_or subject "用户")) "用户" in
  let subject_key := if py_in subject_key ["user"; "me"; "myself"] then "user" else subject_key in
  let predicate_key := str_or (normalize_content (opt_or predicate memory_type)) memory_type in
  let object_key := normalize_content (opt_or object_value "") in
  if String.eqb memory_type "preference" then
    let topic := str_or object_key (normalize_content content) in
    let topic := remove_start PREFERENCE_VERBS (remove_tokens PREFERENCE_WORDS 0 topic) in
    "preference:" +:+ subject_key +:+ ":" +:+ str_or topic "unspecified" +:+ ":global"
  else if String.eqb memory_type "task" then
    let task_text := str_or object_key (normalize_content content) in
    let task_text := rstrip_chars ["了"] (lstrip_chars ["是"] (remove_tokens TASK_WORDS 0 task_text)) in
    "task:" +:+ subject_key +:+ ":" +:+ predicate_key +:+ ":" +:+ str_or task_text "unspecified"
  else if String.eqb memory_type "semantic" then
    let topic := str_or (normalize_content content) object_key in
    let separator := String (Ascii.ascii_of_N 31) "" in
    let topic := if String.eqb topic "" then
        str_take 16 (sha1_hexdigest (subject_key +:+ separator +:+ predicate_key +:+ separator
          +:+ normalize_content content))
      else topic in
    "semantic:" +:+ subject_key +:+ ":" +:+ predicate_key +:+ ":" +:+ str_take 96 topic
  else memory_type +:+ ":" +:+ subject_key +:+ ":" +:+ predicate_key +:+ ":"
       +:+ str_or object_key (normalize_content content).

Definition SEPARATORS : list string := ["。"; "；"; ";"; " "].

Definition merge_content (memory_type old_content new_content : string) : string :=
  let old_norm := normalize_content old_content in
  let new_norm := normalize_content new_content in
  if String.eqb old_norm "" then new_content
  else if str_contains old_norm new_norm then new_content
  else if str_contains new_norm old_norm then old_content
  else rstrip_chars SEPARATORS old_content +:+ "；"
       +:+ rstrip_chars SEPARATORS (lstrip_chars ["用"; "户"] new_content).

(** The key of a preference leaves the polarity out: liking and disliking a topic have one key. *)
Lemma polarity_removed topic :
  remove_tokens PREFERENCE_WORDS 0 ("喜欢" +:+ topic) = remove_tokens PREFERENCE_WORDS 0 topic
  ∧ remove_tokens PREFERENCE_WORDS 0 ("不喜欢" +:+ topic) = remove_tokens PREFERENCE_WORDS 0 topic.
Proof. split; reflexivity. Qed.

Lemma polarity_has_one_key (liked disliked topic : string) subject predicate object_value :
  normalize_content liked = "喜欢" +:+ topic → normalize_content disliked = "不喜欢" +:+ topic →
  memory_key_for "preference" subject predicate object_value liked
  = memory_key_for "preference" subject predicate object_value disliked.
Proof.
  intros E1 E2. unfold memory_key_for. rewrite E1, E2. generalize (normalize_content (opt_or object_value "")).
  intros object_key. destruct (String.eqb object_key "") eqn:E.
  - apply String.eqb_eq in E as ->. change (str_or "" ?s) with s.
    by rewrite (proj1 (polarity_removed topic)), (proj2 (polarity_removed topic)).
  - assert (∀ s, str_or object_key s = object_key) as Ho by (intros s; unfold str_or; by rewrite E).
    by rewrite !Ho.
Qed.
End texts.

(** [str.lstrip] takes a set of characters: a text that starts with the verb loses it. *)
Definition test_tables : TextTables :=
  {| is_word_char := λ c, negb (py_in c [" "; "."; ","; "_"]); sha1_hexdigest := hex_of |}.
Example merge_drops_the_verb :
  @merge_content test_platform test_tables "semantic" "后端是 Go 写的。" "用 Rust 写前端" = "后端是 Go 写的； Rust 写前端".
Proof. reflexivity. Qed.
