(* ===== verification/Memory.v ===== *)
(** The store of the memories in SQLite: [memory/repository.py], its tables, its row operations,
    and the data classes of [memory/models.py].

    A memory is a row that is changed in place; every change of its content or status writes
    the next row of its version history.  A function with a [conn] argument is a [session]
    computation, a function that opens a connection is a [transaction].  A time is its ISO text,
    which SQLite compares as text; a JSON column is the value it encodes, or its text where the
    code does not look inside; a REAL is a rational number. *)

From stdpp Require Import base list strings gmap.
From Stdlib Require Import ZArith Lia QArith Qminmax.
From S2P Require Import Prelude Consistency MemoryText.

Open Scope string_scope.
Open Scope Z_scope.

Definition MEMORY_TYPES : list string := ["episodic"; "semantic"; "preference"; "task"].
Definition MEMORY_STATUSES : list string :=
  ["active"; "superseded"; "conflicted"; "forgotten"; "archived"; "pending_review"; "deleted"; "expired"].
Definition TASK_STATUSES : list string := ["todo"; "done"].
Definition SOURCE_RELATIONS : list string :=
  ["created_from"; "supported_by"; "updated_by"; "contradicted_by"; "summarized_from"].
Definition DECISION_ACTIONS : list string :=
  ["insert"; "add_source"; "merge"; "update"; "update_task"; "supersede"; "conflict"; "pending_review"; "discard"].
Definition DECISION_RELATIONS : list string :=
  ["new"; "same"; "merge"; "update"; "update_task"; "supersede"; "conflict"; "orphan_completion"; "ambiguous_match"].
Definition MEMORY_RELATION_TYPES : list string :=
  ["supersedes"; "superseded_by"; "conflicts_with"; "supports"; "summarized_from"; "derived_from"].

(** [MemoryCandidate]: what was extracted from a note. *)
Record candidate := Candidate {
  c_candidate_id : string;
  c_memory_type : string;
  c_content : string;
  c_importance : Q;
  c_confidence : Q;
  c_task_status : option string;
  c_subject : option string;
  c_predicate : option string;
  c_object_value : option string;
  c_valid_from : option string;
  c_valid_until : option string;
  c_memory_key : option string;
  c_memory_key_version : string;
  c_polarity : option string;
  c_scope : string;
}.
#[export] Instance candidate_eta : Eta candidate := λ r,
  Candidate (c_candidate_id r) (c_memory_type r) (c_content r) (c_importance r) (c_confidence r)
    (c_task_status r) (c_subject r) (c_predicate r) (c_object_value r) (c_valid_from r)
    (c_valid_until r) (c_memory_key r) (c_memory_key_version r) (c_polarity r) (c_scope r).

(** [MemoryCandidate.__post_init__] *)
Definition valid_candidate (c : candidate) : bool :=
  py_in (c_memory_type c) MEMORY_TYPES
  && match c_task_status c with None => true | Some s => py_in s TASK_STATUSES end.

(** [MemoryDecision]: what the adjudication wants done with a candidate. *)
Record decision := Decision {
  d_decision_id : string;
  d_candidate_id : string;
  d_relation : string;
  d_target_memory_ids : list string;
  d_confidence : Q;
  d_reason : string;
  d_recommended_action : string;
  d_target_snapshot_version : option Z;
}.
#[export] Instance decision_eta : Eta decision := λ r,
  Decision (d_decision_id r) (d_candidate_id r) (d_relation r) (d_target_memory_ids r)
    (d_confidence r) (d_reason r) (d_recommended_action r) (d_target_snapshot_version r).

(** Table [memories] *)
Record memory := Memory {
  mm_id : string;
  mm_space_id : string;
  mm_memory_type : string;
  mm_content : string;
  mm_normalized_content : string;
  mm_importance : Q;
  mm_confidence : Q;
  mm_status : string;
  mm_task_status : option string;
  mm_subject : option string;
  mm_predicate : option string;
  mm_object_value : option string;
  mm_memory_key : option string;
  mm_memory_key_version : string;
  mm_polarity : option string;
  mm_scope : string;
  mm_valid_from : option string;
  mm_valid_until : option string;
  mm_last_confirmed_at : option string;
  mm_created_at : string;
  mm_updated_at : string;
  mm_last_accessed_at : option string;
  mm_access_count : Z;
  mm_current_version : Z;
}.
#[export] Instance memory_eta : Eta memory := λ r,
  Memory (mm_id r) (mm_space_id r) (mm_memory_type r) (mm_content r) (mm_normalized_content r)
    (mm_importance r) (mm_confidence r) (mm_status r) (mm_task_status r) (mm_subject r)
    (mm_predicate r) (mm_object_value r) (mm_memory_key r) (mm_memory_key_version r)
    (mm_polarity r) (mm_scope r) (mm_valid_from r) (mm_valid_until r) (mm_last_confirmed_at r)
    (mm_created_at r) (mm_updated_at r) (mm_last_accessed_at r) (mm_access_count r)
    (mm_current_version r).

(** Table [memory_versions] *)
Record version := Version {
  mv_id : string;
  mv_memory_id : string;
  mv_version : Z;
  mv_content : string;
  mv_status : string;
  mv_task_status : option string;
  mv_confidence : Q;
  mv_importance : Q;
  mv_valid_from : option string;
  mv_valid_until : option string;
  mv_reason : option string;
  mv_source_note_id : option string;
  mv_created_at : string;
}.

(** Table [memory_sources] *)
Record source := Source {
  so_memory_id : string;
  so_note_id : string;
  so_relation : string;
  so_created_at : string;
}.

(** Table [memory_version_sources] *)
Record version_source := VersionSource {
  vs_version_id : string;
  vs_note_id : string;
  vs_created_at : string;
}.

(** Table [memory_relations] *)
Record relation_row := RelationRow {
  re_id : string;
  re_space_id : string;
  re_source_memory_id : string;
  re_target_memory_id : string;
  re_relation : string;
  re_decision_id : option string;
  re_created_at : string;
}.

(** Table [memory_decisions] *)
Record decision_row := DecisionRow {
  dr_decision : decision;
  dr_space_id : string;
  dr_note_id : string;
  dr_status : string;
  dr_result_memory_ids : list string;
  dr_error : option string;
  dr_created_at : string;
  dr_applied_at : option string;
}.
#[export] Instance decision_row_eta : Eta decision_row := λ r,
  DecisionRow (dr_decision r) (dr_space_id r) (dr_note_id r) (dr_status r) (dr_result_memory_ids r)
    (dr_error r) (dr_created_at r) (dr_applied_at r).

(** Table [memory_candidates] *)
Record candidate_row := CandidateRow {
  cr_candidate : candidate;
  cr_space_id : string;
  cr_normalized_content : string;
  cr_status : string;
  cr_attempt_count : Z;
  cr_last_error : option string;
  cr_decision_id : option string;
  cr_created_at : string;
  cr_updated_at : string;
  cr_applied_at : option string;
}.
#[export] Instance candidate_row_eta : Eta candidate_row := λ r,
  CandidateRow (cr_candidate r) (cr_space_id r) (cr_normalized_content r) (cr_status r)
    (cr_attempt_count r) (cr_last_error r) (cr_decision_id r) (cr_created_at r) (cr_updated_at r)
    (cr_applied_at r).

(** The database, with the number of identifiers drawn. *)
Record store := Store {
  memories : list memory;
  memory_sources : list source;
  memory_versions : list version;
  memory_version_sources : list version_source;
  memory_relations : list relation_row;
  memory_decisions : list decision_row;
  memory_candidates : list candidate_row;
  memory_vectors : list string;
  drawn : nat;
}.
#[export] Instance store_eta : Eta store := λ r,
  Store (memories r) (memory_sources r) (memory_versions r) (memory_version_sources r)
    (memory_relations r) (memory_decisions r) (memory_candidates r) (memory_vectors r) (drawn r).

Definition empty_store : store := Store [] [] [] [] [] [] [] [] 0.

Abbreviation session := (M store).

(** [task_instance_authorized] of [memory/canonicalizer.py], which compares topics found by
    patterns over the texts, is an arbitrary predicate: the theorems hold for any. *)
Class TextRules := {
  text_tables :: TextTables;
  task_instance_authorized : candidate → memory → bool;
}.

(** * Task states *)

(** [memory/field_contracts.py]: [clean_text], [normalize_task_status] *)
Definition clean_text (value : option string) : option string :=
  match value with
  | None => None
  | Some v => let v := join_words (py_split v) in if String.eqb v "" then None else Some v
  end.

Definition TASK_STATUS_ALIASES : list (string * string) := [
  ("todo", "todo"); ("pending", "todo"); ("in_progress", "todo"); ("in progress", "todo"); ("进行中", "todo");
  ("正在", "todo"); ("继续", "todo"); ("blocked", "todo"); ("阻塞", "todo"); ("卡住", "todo");
  ("等待权限", "todo"); ("等待数据", "todo"); ("done", "done"); ("completed", "done"); ("complete", "done");
  ("完成", "done"); ("已完成", "done"); ("做完", "done"); ("搞定", "done"); ("cancelled", "done");
  ("canceled", "done"); ("取消", "done"); ("不做了", "done"); ("不用做", "done"); ("abandoned", "done"); ("放弃", "done")].

Definition alias (table : list (string * string)) (key : string) : option string :=
  option_map snd (List.find (λ e, String.eqb e.1 key) table).

Definition any_in (markers : list string) (text : string) : bool :=
  existsb (λ marker, str_contains marker text) markers.

Definition STATUS_MARKERS : list (string * list string) := [
  ("done", ["取消"; "不做了"; "不用做"; "不再维护"; "放弃"]);
  ("todo", ["阻塞"; "卡住"; "等待权限"; "等待数据"; "等确认"]);
  ("done", ["已完成"; "完成"; "做完"; "搞定"; "弄好"; "发布成功"; "已提交"; "提交"; "上线"; "学完"]);
  ("todo", ["正在"; "进行中"; "继续"; "需要"; "计划"; "准备"; "待办"; "要做"])].

Definition normalize_task_status `{Platform} (value : option string) (source_text : string) : option string :=
  let value := clean_text value in
  let direct := match value with
                | None => None
                | Some v => match alias TASK_STATUS_ALIASES (str_lower v) with
                            | Some s => Some s
                            | None => alias TASK_STATUS_ALIASES v
                            end
                end in
  match direct with
  | Some s => Some s
  | None => option_map fst (List.find (λ e, any_in e.2 source_text) STATUS_MARKERS)
  end.

(** [memory/task_state.py]: [infer_task_status], [validate_task_status] *)
Definition infer_task_status (value : string) : option string :=
  if any_in ["取消"; "不用做"; "不做了"; "放弃"] value then Some "done"
  else if any_in ["这周"; "本周"; "下周"; "明天"; "之后"; "计划"; "准备"] value
          && any_in ["完成"; "提交"; "上线"; "发布"] value then Some "todo"
  else if any_in ["卡住"; "阻塞"; "等确认"; "等待"; "暂停"] value then Some "todo"
  else if any_in ["正在"; "进行中"; "继续"] value then Some "todo"
  else if any_in ["需要"; "记得"; "待办"; "要做"; "准备"; "计划"] value then Some "todo"
  else if any_in ["完成"; "搞定"; "已做完"; "做完"; "学完"; "已学完"; "弄好"; "弄好了"; "提交"; "上线"] value
  then Some "done"
  else if str_contains "已经" value && any_in ["换成"; "更换为"; "改成"; "替换成"; "部署"; "发布"] value
  then Some "done"
  else if str_contains "准备" value && any_in ["最近"; "现在"; "重点"] value then Some "todo"
  else None.

Definition LEGACY_STATUSES : list (string * string) :=
  [("in_progress", "todo"); ("blocked", "todo"); ("cancelled", "done"); ("canceled", "done")].
Definition current_status (s : string) : string := default s (alias LEGACY_STATUSES s).

Definition validate_task_status `{Platform} (value : option string) : result (option string) :=
  match value with
  | None => Ok None
  | Some v =>
      let normalized := current_status (str_lower (py_strip v)) in
      if py_in normalized TASK_STATUSES then Ok (Some normalized)
      else Raise (ValueError ("invalid task_status: " +:+ v))
  end.

(** [memory/policies/task.py] *)
Definition ALLOWED_TRANSITIONS : list (string * list string) := [("todo", ["done"]); ("done", ["todo"])].
Definition can_transition (old_status new_status : option string) : bool :=
  let old_status := option_map current_status old_status in
  let new_status := option_map current_status new_status in
  match new_status, old_status with
  | None, _ => true
  | Some n, Some o => String.eqb o n
      || match List.find (λ e, String.eqb e.1 o) ALLOWED_TRANSITIONS with
         | Some (_, allowed) => py_in n allowed
         | None => false
         end
  | Some _, None => true
  end.

(** * Row operations *)

Definition text_leb (a b : string) : bool := String.leb a b.

Section rows.
Context `{Platform, TextRules}.

Definition new_id (prefix : string) : session string :=
  n ← gets drawn;
  modify (λ s, s <| drawn := S n |>);;
  mret (prefix +:+ "_" +:+ str_take 12 (uuid4_hex n)).

(** [effective_memory_key] *)
Definition effective_memory_key (c : candidate) : string :=
  opt_or (c_memory_key c)
    (memory_key_for (c_memory_type c) (c_subject c) (c_predicate c) (c_object_value c) (c_content c)).

(** The unique index [ix_preference_card_identity]. *)
Definition card_taken (id space_id : string) (key : option string) (key_version : string) (s : store) : bool :=
  String.eqb key_version "preference-card-v1"
  && existsb (λ m, negb (String.eqb (mm_id m) id) && String.eqb (mm_space_id m) space_id
       && bool_decide (mm_memory_key m = key) && bool_decide (key ≠ None)
       && String.eqb (mm_memory_key_version m) "preference-card-v1") (memories s).

Definition add_source_row (memory_id note_id relation now : string) : session bool :=
  if negb (py_in relation SOURCE_RELATIONS)
  then raise (ValueError ("invalid source relation: " +:+ relation))
  else
    known ← gets (λ s, existsb (λ r, String.eqb (so_memory_id r) memory_id
      && String.eqb (so_note_id r) note_id) (memory_sources s));
    if known : bool then mret false
    else
      modify (λ s, s <| memory_sources :=
        (memory_sources s ++ [Source memory_id note_id relation now])%list |>);;
      mret true.

(** INSERT OR IGNORE INTO memory_version_sources *)
Definition add_version_source (version_id now note_id : string) : session unit :=
  modify (λ s,
    if existsb (λ r, String.eqb (vs_version_id r) version_id && String.eqb (vs_note_id r) note_id)
         (memory_version_sources s)
    then s
    else s <| memory_version_sources :=
      (memory_version_sources s ++ [VersionSource version_id note_id now])%list |>).

(** [_add_version]; the row carries the values, under a fresh identifier. *)
Definition add_version (v : version) : session unit :=
  version_id ← new_id "ver";
  taken ← gets (λ s, existsb (λ r, String.eqb (mv_id r) version_id) (memory_versions s));
  if taken : bool then raise (IntegrityError "memory_versions.id")
  else
    modify (λ s, s <| memory_versions := (memory_versions s ++
      [Version version_id (mv_memory_id v) (mv_version v) (mv_content v) (mv_status v) (mv_task_status v)
         (mv_confidence v) (mv_importance v) (mv_valid_from v) (mv_valid_until v) (mv_reason v)
         (mv_source_note_id v) (mv_created_at v)])%list |>);;
    source_ids ← gets (λ s, map so_note_id (sort_by (λ a b, text_leb (so_created_at a) (so_created_at b))
      (select_where (λ r, String.eqb (so_memory_id r) (mv_memory_id v)) (memory_sources s))));
    for_each (source_ids ++ match mv_source_note_id v with
                            | Some n => if String.eqb n "" || py_in n source_ids then [] else [n]
                            | None => []
                            end)%list
      (add_version_source version_id (mv_created_at v)).

(** [_insert_memory_row] *)
Definition insert_memory_row (space_id : string) (c : candidate) (source_note_id source_relation status : string)
    (memory_id : option string) (now : string) : session string :=
  if negb (py_in status MEMORY_STATUSES)
  then raise (ValueError ("invalid memory status: " +:+ status))
  else
    record_id ← (match memory_id with Some i => mret i | None => new_id "mem" end);
    let key := effective_memory_key c in
    taken ← gets (λ s, existsb (λ m, String.eqb (mm_id m) record_id) (memories s)
      || card_taken record_id space_id (Some key) (c_memory_key_version c) s);
    if taken : bool then raise (IntegrityError "memories.id")
    else
      modify (λ s, s <| memories := (memories s ++
        [Memory record_id space_id (c_memory_type c) (c_content c) (normalize_content (c_content c))
           (c_importance c) (c_confidence c) status (c_task_status c) (c_subject c) (c_predicate c)
           (c_object_value c) (Some key) (c_memory_key_version c) (c_polarity c) (c_scope c)
           (c_valid_from c) (c_valid_until c) None now now None 0 1])%list |>);;
      add_source_row record_id source_note_id source_relation now;;
      add_version (Version "" record_id 1 (c_content c) status (normalize_task_status (c_task_status c) "")
        (c_confidence c) (c_importance c) (c_valid_from c) (c_valid_until c) (Some "created")
        (Some source_note_id) now);;
      mret record_id.

(** The optional arguments of [_versioned_update_row]. *)
Record changes := Changes {
  ch_content : option string;
  ch_status : option string;
  ch_task_status : option string;
  ch_valid_until : option string;
  ch_confidence : option Q;
  ch_importance : option Q;
  ch_last_confirmed_at : option string;
  ch_object_value : option string;
  ch_subject : option string;
  ch_scope : option string;
  ch_memory_key : option string;
  ch_memory_key_version : option string;
  ch_polarity : option string;
}.
#[global] Instance changes_eta : Eta changes := λ r,
  Changes (ch_content r) (ch_status r) (ch_task_status r) (ch_valid_until r) (ch_confidence r)
    (ch_importance r) (ch_last_confirmed_at r) (ch_object_value r) (ch_subject r) (ch_scope r)
    (ch_memory_key r) (ch_memory_key_version r) (ch_polarity r).
Definition no_changes : changes :=
  Changes None None None None None None None None None None None None None.

(** [x if x is not None else y], for a column that may be null *)
Definition or_column (x y : option string) : option string := match x with Some _ => x | None => y end.

(** [int(row["current_version"] or 1) + 1] *)
Definition next_version (row : memory) : Z :=
  (if mm_current_version row =? 0 then 1 else mm_current_version row) + 1.

(** The SET list, from the row that was read. *)
Definition changed_row (row : memory) (ch : changes) (now : string) (m : memory) : memory :=
  let content := default (mm_content row) (ch_content ch) in
  m <| mm_content := content |> <| mm_normalized_content := normalize_content content |>
    <| mm_status := default (mm_status row) (ch_status ch) |>
    <| mm_task_status := or_column (ch_task_status ch) (mm_task_status row) |>
    <| mm_valid_until := or_column (ch_valid_until ch) (mm_valid_until row) |>
    <| mm_subject := or_column (ch_subject ch) (mm_subject row) |>
    <| mm_object_value := or_column (ch_object_value ch) (mm_object_value row) |>
    <| mm_memory_key := or_column (ch_memory_key ch) (mm_memory_key row) |>
    <| mm_memory_key_version := default (mm_memory_key_version row) (ch_memory_key_version ch) |>
    <| mm_polarity := or_column (ch_polarity ch) (mm_polarity row) |>
    <| mm_scope := default (mm_scope row) (ch_scope ch) |>
    <| mm_confidence := default (mm_confidence row) (ch_confidence ch) |>
    <| mm_importance := default (mm_importance row) (ch_importance ch) |>
    <| mm_last_confirmed_at := or_column (ch_last_confirmed_at ch) (mm_last_confirmed_at row) |>
    <| mm_updated_at := now |> <| mm_current_version := next_version row |>.

(** UPDATE memories SET ... WHERE id = ..., under the unique index *)
Definition update_memories (id : string) (f : memory → memory) : session unit :=
  modify (λ s, s <| memories := update_where (λ m, String.eqb (mm_id m) id) f (memories s) |>);;
  clash ← gets (λ s, existsb (λ m, String.eqb (mm_id m) id
    && card_taken id (mm_space_id m) (mm_memory_key m) (mm_memory_key_version m) s) (memories s));
  if clash : bool then raise (IntegrityError "ix_preference_card_identity") else mret tt.

(** The version that records a changed row. *)
Definition version_of (m : memory) (valid_from : option string) (reason source_note_id : option string)
    (now : string) : version :=
  Version "" (mm_id m) (mm_current_version m) (mm_content m) (mm_status m) (mm_task_status m)
    (mm_confidence m) (mm_importance m) valid_from (mm_valid_until m) reason source_note_id now.

(** [_versioned_update_row] *)
Definition versioned_update_row (row : memory) (ch : changes) (reason : string)
    (source_note_id : option string) (now : string) : session unit :=
  update_memories (mm_id row) (changed_row row ch now);;
  add_version (version_of (changed_row row ch now row) (mm_valid_from row) (Some reason) source_note_id now).

(** [_add_relation_row] *)
Definition add_relation_row (space_id source_memory_id target_memory_id relation : string)
    (decision_id : option string) (now : string) : session unit :=
  if negb (py_in relation MEMORY_RELATION_TYPES)
  then raise (ValueError ("invalid memory relation: " +:+ relation))
  else
    known ← gets (λ s, existsb (λ r, String.eqb (re_source_memory_id r) source_memory_id
      && String.eqb (re_target_memory_id r) target_memory_id && String.eqb (re_relation r) relation)
      (memory_relations s));
    if known : bool then mret tt
    else
      relation_id ← new_id "rel";
      modify (λ s, if existsb (λ r, String.eqb (re_id r) relation_id) (memory_relations s) then s
        else s <| memory_relations := (memory_relations s ++
          [RelationRow relation_id space_id source_memory_id target_memory_id relation decision_id now])%list |>).

(** [_insert_decision_row]: INSERT OR REPLACE *)
Definition insert_decision_row (space_id note_id : string) (d : decision) (status : string)
    (result_memory_ids : list string) (error : option string) (now : string) : session unit :=
  if negb (py_in (d_recommended_action d) DECISION_ACTIONS)
  then raise (ValueError ("invalid decision action: " +:+ d_recommended_action d))
  else
    modify (λ s, s <| memory_decisions :=
      (select_where (λ r, negb (String.eqb (d_decision_id (dr_decision r)) (d_decision_id d))) (memory_decisions s)
       ++ [DecisionRow d space_id note_id status result_memory_ids error now
             (if String.eqb status "applied" then Some now else None)])%list |>).

(** SELECT * FROM memories WHERE id = ... *)
Definition select_memory (id : string) : session (option memory) :=
  gets (λ s, List.find (λ m, String.eqb (mm_id m) id) (memories s)).
End rows.

(** The rules of the concrete runs: tasks are the same when their texts are. *)
Definition test_rules : TextRules := {|
  text_tables := test_tables;
  task_instance_authorized := λ c m, String.eqb (c_content c) (mm_content m);
|}.
