(* ===== verification/MemoryOps.v ===== *)
(** The operations of the memory store: applying a decision to a candidate
    ([apply_memory_decision]), the review of pending memories, and the direct edits, all of
    [memory/repository.py].

    Of the dictionary that [apply_memory_decision] returns, the entries for the log (the
    confidence, the audit and the original action) are left out. *)

From stdpp Require Import base list strings gmap.
From Stdlib Require Import ZArith Lia QArith Qminmax.
From S2P Require Import Prelude Consistency MemoryText Memory.

Open Scope string_scope.
Open Scope Z_scope.

(** What [apply_memory_decision] returns. *)
Record applied := Applied {
  ap_action : string;
  ap_relation : string;
  ap_decision_id : string;
  ap_idempotent : bool;
  ap_memory_id : option string;
  ap_target_memory_id : option string;
  ap_source_added : option bool;
  ap_archived : list string;
}.
#[export] Instance applied_eta : Eta applied := λ r,
  Applied (ap_action r) (ap_relation r) (ap_decision_id r) (ap_idempotent r) (ap_memory_id r)
    (ap_target_memory_id r) (ap_source_added r) (ap_archived r).

Definition TASK_CARDS : list string := ["task-card-v1"; "task-card-v2"].

Definition quarter : Q := 1 # 4.
Definition confidence_cap : Q := 99 # 100.

(** [min(0.99, max(old, old + (new - old) * 0.25 + 0.02))] *)
Definition strengthened (old new : Q) : Q :=
  Qmin confidence_cap (Qmax old (old + (new - old) * quarter + (2 # 100)))%Q.
(** [min(0.99, max(old, new))] *)
Definition capped (old new : Q) : Q := Qmin confidence_cap (Qmax old new).

Section ops.
Context `{Platform, TextRules}.

(** The newest decision on the candidate that was applied or waits for review. *)
Definition prior_decision (candidate_id : string) (s : store) : option decision_row :=
  head (sort_by (λ a b, text_leb (dr_created_at b) (dr_created_at a))
    (select_where (λ r, String.eqb (d_candidate_id (dr_decision r)) candidate_id
      && py_in (dr_status r) ["applied"; "pending_review"]) (memory_decisions s))).

Definition replay (candidate_id : string) (r : decision_row) : applied :=
  let pending := String.eqb (dr_status r) "pending_review" in
  Applied (if pending then "pending_review" else "add_source") (if pending then "conflict" else "same")
    (d_decision_id (dr_decision r)) true (head (dr_result_memory_ids r)) None (Some false) [].

(** [target_row], or an exception when the target is missing. *)
Definition select_target (d : decision) : session (option memory) :=
  match d_target_memory_ids d with
  | [] => mret None
  | target_id :: _ =>
      if String.eqb target_id "" then mret None
      else
        row ← select_memory target_id;
        match row with
        | None => raise (ValueError ("decision target memory not found: " +:+ target_id))
        | Some row => mret (Some row)
        end
  end.

(** The checks for the cards, which have one memory per key. *)
Definition check_card (space_id : string) (c : candidate) (d : decision) (target : option memory) : session unit :=
  exists_key ← gets (λ s, existsb (λ m, String.eqb (mm_space_id m) space_id
    && bool_decide (mm_memory_key m = c_memory_key c) && bool_decide (c_memory_key c ≠ None)) (memories s));
  let moved row := negb (bool_decide (d_target_snapshot_version d = Some (mm_current_version row))) in
  (if py_in (c_memory_key_version c) TASK_CARDS then
     match target with
     | Some row => if negb (String.eqb (mm_space_id row) space_id) || moved row
                   then raise (OtherError "TaskVersionConflict" "task card version changed") else mret tt
     | None => if exists_key : bool
               then raise (OtherError "TaskVersionConflict" "task card concurrently created") else mret tt
     end
   else mret tt);;
  if String.eqb (c_memory_key_version c) "preference-card-v1" then
    match target with
    | Some row => if moved row : bool then raise (OtherError "CardVersionConflict" "card version changed") else mret tt
    | None => if exists_key : bool
              then raise (OtherError "CardVersionConflict" "card concurrently created") else mret tt
    end
  else mret tt.

(** The target has changed since the decision was made. *)
Definition is_stale_snapshot (d : decision) (row : memory) : bool :=
  match d_target_snapshot_version d with
  | None => false
  | Some v => negb ((if mm_current_version row =? 0 then 1 else mm_current_version row) =? v)
  end.

Definition same_state (c : candidate) (row : memory) : bool :=
  String.eqb (effective_memory_key c) (default "" (mm_memory_key row))
  && (if String.eqb (c_memory_type c) "task"
      then bool_decide (c_task_status c = mm_task_status row)
      else match c_object_value c with
           | None => false
           | Some v => negb (String.eqb v "") && bool_decide (mm_object_value row = Some v)
           end).

(** The decision as it is written, after the check of the snapshot. *)
Definition readjudicated (c : candidate) (d : decision) (target : option memory) : decision :=
  match target with
  | Some row =>
      if is_stale_snapshot d row then
        if same_state c row
        then d <| d_relation := "same" |> <| d_recommended_action := "add_source" |>
               <| d_reason := "concurrent_same_update_adds_source" |>
        else d <| d_relation := "conflict" |> <| d_recommended_action := "pending_review" |>
               <| d_reason := "stale_target_snapshot_requires_readjudication" |>
      else d
  | None => d
  end.

(** A task that is done already is only confirmed. *)
Definition already_done (c : candidate) (action : string) (target : option memory) : bool :=
  String.eqb action "update_task" && negb (py_in (c_memory_key_version c) TASK_CARDS)
  && match target with
     | Some row => String.eqb (c_memory_type c) "task" && bool_decide (c_task_status c = Some "done")
         && bool_decide (normalize_task_status (mm_task_status row) "" = Some "done")
     | None => false
     end.

(** [_memory_from_row]; the projection of the scope of tasks in a legacy status is left out. *)
Definition or_none (x : option string) : option string :=
  match x with Some v => if String.eqb v "" then None else Some v | None => None end.
Definition memory_from_row (m : memory) : memory :=
  m <| mm_task_status := normalize_task_status (mm_task_status m) "" |>
    <| mm_current_version := if mm_current_version m =? 0 then 1 else mm_current_version m |>
    <| mm_memory_key := or_none (mm_memory_key m) |> <| mm_polarity := or_none (mm_polarity m) |>.

(** [_archive_terminal_task_duplicates_row] *)
Definition archive_one (space_id target_id decision_id source_note_id now : string) (row : memory) : session unit :=
  versioned_update_row row (no_changes <| ch_status := Some "archived" |>)
    "duplicate_task_identity_reconciled" (Some source_note_id) now;;
  add_relation_row space_id target_id (mm_id row) "supersedes" (Some decision_id) now;;
  add_relation_row space_id (mm_id row) target_id "superseded_by" (Some decision_id) now.

Definition archive_duplicates (target : memory) (c : candidate) (decision_id source_note_id now : string) :
    session (list string) :=
  if py_in (c_memory_key_version c) TASK_CARDS then mret []
  else if negb (String.eqb (c_memory_type c) "task") || negb (bool_decide (c_task_status c = Some "done"))
  then mret []
  else
    rows ← gets (λ s, sort_by (λ a b, text_leb (mm_updated_at b) (mm_updated_at a))
      (select_where (λ m, String.eqb (mm_space_id m) (mm_space_id target)
        && String.eqb (mm_memory_type m) "task" && String.eqb (mm_status m) "active"
        && negb (String.eqb (mm_id m) (mm_id target))) (memories s)));
    let rows := select_where (λ m, task_instance_authorized c (memory_from_row m)) rows in
    for_each rows (archive_one (mm_space_id target) (mm_id target) decision_id source_note_id now);;
    mret (map mm_id rows).

(** UPDATE memories SET confidence, last_confirmed_at, updated_at *)
Definition confirm (c : candidate) (target : memory) (now : string) : session unit :=
  modify (λ s, s <| memories := update_where (λ m, String.eqb (mm_id m) (mm_id target))
    (λ m, m <| mm_confidence := strengthened (mm_confidence target) (c_confidence c) |>
            <| mm_last_confirmed_at := Some now |> <| mm_updated_at := now |>) (memories s) |>).

(** The branches of [apply_memory_decision] that need a target: the identifiers of the memories
    concerned, and the entries of the result. *)
Definition apply_to_target (space_id note_id : string) (c : candidate) (d : decision)
    (merged_content : option string) (action : string) (target : memory) (now : string) (r : applied) :
    session (list string * applied) :=
  let target_id := mm_id target in
  let related new_id forward backward :=
    add_relation_row space_id new_id target_id forward (Some (d_decision_id d)) now;;
    add_relation_row space_id target_id new_id backward (Some (d_decision_id d)) now in
  if String.eqb action "add_source" then
    added ← add_source_row target_id note_id "supported_by" now;
    (if added : bool then confirm c target now else mret tt);;
    archived ← (if added : bool then archive_duplicates target c (d_decision_id d) note_id now else mret []);
    mret ([target_id], r <| ap_memory_id := Some target_id |> <| ap_source_added := Some added |>
      <| ap_archived := archived |>)
  else if py_in action ["merge"; "update"] then
    added ← add_source_row target_id note_id (if String.eqb action "update" then "updated_by" else "supported_by") now;
    versioned_update_row target
      (Changes (Some (opt_or merged_content (c_content c))) None None None
         (Some (capped (mm_confidence target) (c_confidence c)))
         (Some (Qmax (mm_importance target) (c_importance c))) (Some now) (c_object_value c) None
         (Some (c_scope c)) (Some (effective_memory_key c)) (Some (c_memory_key_version c)) (c_polarity c))
      (d_reason d) (Some note_id) now;;
    mret ([target_id], r <| ap_memory_id := Some target_id |> <| ap_source_added := Some added |>)
  else if String.eqb action "update_task" then
    added ← add_source_row target_id note_id "updated_by" now;
    versioned_update_row target
      (Changes (Some (c_content c)) None (normalize_task_status (c_task_status c) "") None
         (Some (capped (mm_confidence target) (c_confidence c))) None (Some now) (c_object_value c)
         (c_subject c) (Some (c_scope c)) (Some (effective_memory_key c)) (Some (c_memory_key_version c)) None)
      (d_reason d) (Some note_id) now;;
    archived ← archive_duplicates target c (d_decision_id d) note_id now;
    mret ([target_id], r <| ap_memory_id := Some target_id |> <| ap_source_added := Some added |>
      <| ap_archived := archived |>)
  else if String.eqb action "supersede" then
    add_source_row target_id note_id "contradicted_by" now;;
    versioned_update_row target
      (no_changes <| ch_status := Some "superseded" |> <| ch_valid_until := Some now |>)
      (d_reason d) (Some note_id) now;;
    memory_id ← insert_memory_row space_id c note_id "created_from" "active" None now;
    related memory_id "supersedes" "superseded_by";;
    mret ([memory_id; target_id], r <| ap_memory_id := Some memory_id |> <| ap_target_memory_id := Some target_id |>)
  else if String.eqb action "conflict" then
    add_source_row target_id note_id "contradicted_by" now;;
    versioned_update_row target (no_changes <| ch_status := Some "conflicted" |>) (d_reason d) (Some note_id) now;;
    memory_id ← insert_memory_row space_id c note_id "created_from" "conflicted" None now;
    related memory_id "conflicts_with" "conflicts_with";;
    mret ([memory_id; target_id], r <| ap_memory_id := Some memory_id |> <| ap_target_memory_id := Some target_id |>)
  else raise (ValueError ("decision action cannot be applied: " +:+ action)).

Definition apply_action (space_id note_id : string) (c : candidate) (d : decision)
    (merged_content : option string) (action : string) (target : option memory) (now : string) (r : applied) :
    session (list string * applied) :=
  if String.eqb action "discard" then mret ([], r)
  else if String.eqb action "insert" then
    memory_id ← insert_memory_row space_id c note_id "created_from" "active" None now;
    mret ([memory_id], r <| ap_memory_id := Some memory_id |>)
  else if String.eqb action "pending_review" then
    memory_id ← insert_memory_row space_id c note_id "created_from" "pending_review" None now;
    mret ([memory_id], r <| ap_memory_id := Some memory_id |>
      <| ap_target_memory_id := option_map mm_id target |>)
  else match target with
       | Some target => apply_to_target space_id note_id c d merged_content action target now r
       | None => raise (ValueError ("decision action cannot be applied: " +:+ action))
       end.

(** The part of [apply_memory_decision] after the target was read. *)
Definition carry_out (space_id note_id : string) (c : candidate) (d : decision)
    (merged_content : option string) (target : option memory) (now : string) : session applied :=
  check_card space_id c d target;;
  let d' := readjudicated c d target in
  let done_already := already_done c (d_recommended_action d') target in
  let action := if done_already then "add_source" else d_recommended_action d' in
  let r := Applied action (if done_already then "same" else d_relation d') (d_decision_id d)
             done_already None None None [] in
  '(ids, r) ← apply_action space_id note_id c d merged_content action target now r;
  insert_decision_row space_id note_id d'
    (if String.eqb action "pending_review" then "pending_review" else "applied") ids None now;;
  mret r.

Definition apply_in_session (space_id note_id : string) (c : candidate) (d : decision)
    (merged_content : option string) (now : string) : session applied :=
  prior ← gets (prior_decision (c_candidate_id c));
  match prior with
  | Some r => mret (replay (c_candidate_id c) r)
  | None => target ← select_target d; carry_out space_id note_id c d merged_content target now
  end.

(** [apply_memory_decision]: a failure other than a version conflict is recorded in a
    transaction of its own, and raised again. *)
Definition apply_memory_decision (space_id note_id : string) (c : candidate) (d : decision)
    (merged_content : option string) (now : string) (s : store) : result applied * store :=
  match transaction (apply_in_session space_id note_id c d merged_content now) s with
  | (Ok r, s) => (Ok r, s)
  | (Raise e, s) =>
      if py_in (exn_type e) ["CardVersionConflict"; "TaskVersionConflict"] then (Raise e, s)
      else (Raise e, (transaction (insert_decision_row space_id note_id d "failed" [] (Some (exn_type e)) now) s).2)
  end.

(** * Direct edits *)

(** The arguments of [update_memory]. *)
Record edit := Edit {
  ed_content : option string;
  ed_status : option string;
  ed_task_status : option string;
  ed_valid_until : option string;
  ed_confidence : option Q;
  ed_importance : option Q;
  ed_last_confirmed_at : option string;
}.

(** The SET list of [update_memory]: the key is computed anew unless it belongs to a version
    that keeps it. *)
Definition edited_row (row : memory) (e : edit) (now : string) (m : memory) : memory :=
  let content := default (mm_content row) (ed_content e) in
  let key := if py_in (mm_memory_key_version row) ["memory-key-v3"; "preference-card-v1"]
                && negb (String.eqb (default "" (mm_memory_key row)) "")
             then mm_memory_key row
             else Some (memory_key_for (mm_memory_type row) (mm_subject row) (mm_predicate row)
                          (mm_object_value row) content) in
  m <| mm_content := content |> <| mm_normalized_content := normalize_content content |>
    <| mm_status := default (mm_status row) (ed_status e) |>
    <| mm_task_status := or_column (ed_task_status e) (mm_task_status row) |>
    <| mm_memory_key := key |> <| mm_polarity := mm_polarity row |>
    <| mm_valid_until := or_column (ed_valid_until e) (mm_valid_until row) |>
    <| mm_confidence := default (mm_confidence row) (ed_confidence e) |>
    <| mm_importance := default (mm_importance row) (ed_importance e) |>
    <| mm_last_confirmed_at := or_column (ed_last_confirmed_at e) (mm_last_confirmed_at row) |>
    <| mm_updated_at := now |> <| mm_current_version := next_version row |>.

Definition update_in_session (memory_id : string) (e : edit) (reason source_note_id : option string) (now : string) :
    session bool :=
  row ← select_memory memory_id;
  match row with
  | None => mret false
  | Some row =>
      let status := default (mm_status row) (ed_status e) in
      if negb (py_in status MEMORY_STATUSES) then raise (ValueError ("invalid memory status: " +:+ status))
      else
        update_memories memory_id (edited_row row e now);;
        add_version (version_of (edited_row row e now row) (mm_valid_from row) reason source_note_id now);;
        mret true
  end.

Definition get_memory (memory_id : string) (s : store) : option memory :=
  option_map memory_from_row (List.find (λ m, String.eqb (mm_id m) memory_id) (memories s)).

Definition update_memory (memory_id : string) (e : edit) (reason source_note_id : option string) (now : string) :
    IO store (option memory) :=
  updated ← transaction (update_in_session memory_id e reason source_note_id now);
  if updated : bool then io_gets (get_memory memory_id) else mret None.

Definition status_edit (status : string) : edit := Edit None (Some status) None None None None None.
Definition content_edit (content status : string) (task_status : option string) : edit :=
  Edit (Some content) (Some status) task_status None None None None.

Definition soft_delete_memory (memory_id reason now : string) : IO store (option memory) :=
  update_memory memory_id (status_edit "deleted") (Some reason) None now.

Definition REOPEN_MARKERS : list string := ["重新"; "再次"; "重做"; "返工"; "恢复"; "再开始"; "又开始"].

(** The task status that [correct_memory] resolves for a task. *)
Definition corrected_status (old : option string) (requested : option string) (content : string) :
    result (option string) :=
  let resolved := match requested with
                  | Some _ => requested
                  | None => match infer_task_status content with Some s => Some s | None => old end
                  end in
  if bool_decide (resolved ≠ old) && negb (can_transition old resolved)
  then Raise (ValueError "invalid task status transition")
  else if bool_decide (old = Some "done") && bool_decide (resolved = Some "todo")
          && negb (any_in REOPEN_MARKERS content)
  then Raise (ValueError "reopening a terminal task requires explicit wording")
  else Ok resolved.

Definition correct_memory (memory_id content : string) (task_status : option string) (reason now : string) :
    IO store (option memory) :=
  existing ← io_gets (get_memory memory_id);
  match existing with
  | None => mret None
  | Some m =>
      requested ← io_lift (validate_task_status task_status);
      if String.eqb (mm_memory_type m) "task" then
        resolved ← io_lift (corrected_status (mm_task_status m) requested content);
        update_memory memory_id (content_edit content "active" resolved) (Some reason) None now
      else update_memory memory_id (content_edit content "active" None) (Some reason) None now
  end.

(** [resolve_memory_conflict] *)
Definition resolve_memory_conflict (memory_id resolution : string) (content : option string) (now : string) :
    IO store (option memory) :=
  if negb (py_in resolution ["keep"; "merge"; "archive"])
  then throw (ValueError "resolution must be keep, merge, or archive")
  else if String.eqb resolution "keep"
  then update_memory memory_id (status_edit "active") (Some "user_resolved_conflict_keep") None now
  else if String.eqb resolution "merge" then
    match content with
    | Some text =>
        if String.eqb (py_strip text) "" then throw (ValueError "merge resolution requires content")
        else update_memory memory_id (content_edit text "active" None) (Some "user_resolved_conflict_merge") None now
    | None => throw (ValueError "merge resolution requires content")
    end
  else update_memory memory_id (status_edit "archived") (Some "user_resolved_conflict_archive") None now.

(** [purge_memory]: the sources of the versions and the decisions stay. *)
Definition purge_in_session (memory_id : string) : session bool :=
  row ← select_memory memory_id;
  match row with
  | None => mret false
  | Some _ =>
      modify (λ s, s
        <| memory_relations := select_where (λ r, negb (String.eqb (re_source_memory_id r) memory_id
             || String.eqb (re_target_memory_id r) memory_id)) (memory_relations s) |>
        <| memory_vectors := select_where (λ v, negb (String.eqb v memory_id)) (memory_vectors s) |>
        <| memory_sources := select_where (λ r, negb (String.eqb (so_memory_id r) memory_id)) (memory_sources s) |>
        <| memory_versions := select_where (λ r, negb (String.eqb (mv_memory_id r) memory_id)) (memory_versions s) |>
        <| memories := select_where (λ m, negb (String.eqb (mm_id m) memory_id)) (memories s) |>);;
      mret true
  end.
Definition purge_memory (memory_id : string) : IO store bool := transaction (purge_in_session memory_id).

(** [expire_due_memories] *)
Definition due (space_id : option string) (now : string) (m : memory) : bool :=
  String.eqb (mm_status m) "active"
  && match mm_valid_until m with Some v => text_leb v now | None => false end
  && match space_id with
     | Some sp => if String.eqb sp "" then true else String.eqb (mm_space_id m) sp
     | None => true
     end.
Definition expire_in_session (space_id : option string) (limit : Z) (now : string) : session Z :=
  rows ← gets (λ s, take (Z.to_nat (Z.max 1 (Z.min limit 1000)))
    (sort_by (λ a b, text_leb (default "" (mm_valid_until a)) (default "" (mm_valid_until b)))
       (select_where (due space_id now) (memories s))));
  for_each rows (λ row, versioned_update_row row (no_changes <| ch_status := Some "expired" |>)
    "valid_until_reached" None now);;
  mret (Z.of_nat (length rows)).
Definition expire_due_memories (space_id : option string) (limit : Z) (now : string) : IO store Z :=
  transaction (expire_in_session space_id limit now).

(** [mark_accessed] *)
Definition mark_accessed (memory_ids : list string) (now : string) : IO store unit :=
  transaction (for_each memory_ids (λ id, modify (λ s, s <| memories :=
    update_where (λ m, String.eqb (mm_id m) id)
      (λ m, m <| mm_last_accessed_at := Some now |> <| mm_access_count := mm_access_count m + 1 |>)
      (memories s) |>))).

(** [insert_memory], [add_source], [add_memory_relation] *)
Definition insert_memory (space_id : string) (c : candidate) (source_note_id source_relation status now : string) :
    IO store (option memory) :=
  if negb (py_in status MEMORY_STATUSES) then throw (ValueError ("invalid memory status: " +:+ status))
  else
    memory_id ← transaction (memory_id ← new_id "mem";
      insert_memory_row space_id c source_note_id source_relation status (Some memory_id) now);
    io_gets (get_memory memory_id).
Definition add_source (memory_id note_id relation now : string) : IO store bool :=
  transaction (add_source_row memory_id note_id relation now).
Definition add_memory_relation (space_id source_memory_id target_memory_id relation : string)
    (decision_id : option string) (now : string) : IO store unit :=
  transaction (add_relation_row space_id source_memory_id target_memory_id relation decision_id now).

(** [save_memory_candidate], [mark_memory_candidate] *)
Definition CANDIDATE_STATUSES : list string :=
  ["extracted"; "validated"; "adjudicated"; "applied"; "pending_review"; "discarded"; "failed"; "processing"].

Definition save_memory_candidate (space_id status : string) (c : candidate) (error decision_id : option string)
    (now : string) : IO store unit :=
  transaction (modify (λ s,
    if existsb (λ r, String.eqb (c_candidate_id (cr_candidate r)) (c_candidate_id c)) (memory_candidates s)
    then s <| memory_candidates := update_where
        (λ r, String.eqb (c_candidate_id (cr_candidate r)) (c_candidate_id c))
        (λ r, r <| cr_updated_at := now |> <| cr_last_error := or_column error (cr_last_error r) |>
                <| cr_decision_id := or_column decision_id (cr_decision_id r) |>) (memory_candidates s) |>
    else s <| memory_candidates := (memory_candidates s ++
        [CandidateRow c space_id (normalize_content (c_content c)) status 0 error decision_id now now None])%list |>)).

Definition mark_memory_candidate (candidate_id status : string) (error decision_id : option string) (now : string) :
    IO store bool :=
  if negb (py_in status CANDIDATE_STATUSES)
  then throw (ValueError ("invalid memory candidate status: " +:+ status))
  else transaction (
    found ← gets (λ s, existsb (λ r, String.eqb (c_candidate_id (cr_candidate r)) candidate_id) (memory_candidates s));
    modify (λ s, s <| memory_candidates := update_where
      (λ r, String.eqb (c_candidate_id (cr_candidate r)) candidate_id)
      (λ r, r <| cr_status := status |>
              <| cr_attempt_count := cr_attempt_count r + (if String.eqb status "processing" then 1 else 0) |>
              <| cr_last_error := error |> <| cr_decision_id := or_column decision_id (cr_decision_id r) |>
              <| cr_updated_at := now |>
              <| cr_applied_at := if py_in status ["applied"; "pending_review"; "discarded"]
                                  then Some now else cr_applied_at r |>) (memory_candidates s) |>);;
    mret (found : bool)).
End ops.
