(* ===== verification/MemoryReview.v ===== *)
(** The review of pending memories: [approve_pending_memory], [reject_pending_memory] and
    [edit_pending_memory] of [memory/repository.py]. *)

From stdpp Require Import base list strings gmap.
From Stdlib Require Import ZArith Lia QArith Qminmax.
From S2P Require Import Prelude Consistency MemoryText Memory MemoryOps.

Open Scope string_scope.
Open Scope Z_scope.

Section review.
Context `{Platform, TextRules}.

(** The newest decision that waits for the review of a memory.  The pattern ["%"id"%"] of the
    query finds the identifier in the list. *)
Definition pending_decision (memory_id : string) (s : store) : option decision_row :=
  last (sort_by (λ a b, text_leb (dr_created_at a) (dr_created_at b))
    (select_where (λ r, String.eqb (dr_status r) "pending_review"
      && py_in memory_id (dr_result_memory_ids r)) (memory_decisions s))).

(** [{"new": "insert", ...}[relation]] *)
Definition APPROVED_ACTIONS : list (string * string) :=
  [("new", "insert"); ("merge", "merge"); ("update_task", "update_task"); ("supersede", "supersede");
   ("conflict", "conflict")].

(** The target of the decision under review. *)
Definition review_target (d : decision) : session (option memory) :=
  match d_target_memory_ids d with
  | [] => mret None
  | target_id :: _ =>
      if String.eqb target_id "" then mret None
      else
        row ← select_memory target_id;
        match row with
        | None => raise (ValueError ("pending review target memory not found: " +:+ target_id))
        | Some row => mret (Some row)
        end
  end.

Definition both_ways (space_id a b forward backward decision_id now : string) : session unit :=
  add_relation_row space_id a b forward (Some decision_id) now;;
  add_relation_row space_id b a backward (Some decision_id) now.

(** The branches of [approve_pending_memory]: the identifier of the result, and of the memories
    concerned. *)
Definition approve_branch (pending : memory) (d : decision) (target : option memory)
    (source_note_ids : list string) (source_note_id now : string) : session (string * list string) :=
  let source := Some source_note_id in
  let accept := versioned_update_row pending
    (no_changes <| ch_status := Some "active" |> <| ch_last_confirmed_at := Some now |>)
    "user_approved_pending_memory" source now in
  if String.eqb (d_relation d) "new" then accept;; mret (mm_id pending, [mm_id pending])
  else match target with
  | None => raise (ValueError ("unsupported pending review relation: " +:+ d_relation d))
  | Some target =>
      let target_id := mm_id target in
      if String.eqb (d_relation d) "merge" then
        for_each source_note_ids (λ n, add_source_row target_id n "supported_by" now;; mret tt);;
        versioned_update_row target
          (no_changes <| ch_content := Some (merge_content (mm_memory_type pending) (mm_content target) (mm_content pending)) |>
             <| ch_confidence := Some (capped (mm_confidence target) (mm_confidence pending)) |>
             <| ch_importance := Some (Qmax (mm_importance target) (mm_importance pending)) |>
             <| ch_last_confirmed_at := Some now |>) "user_approved_merge" source now;;
        versioned_update_row pending (no_changes <| ch_status := Some "archived" |>) "merged_after_review" source now;;
        add_relation_row (mm_space_id pending) target_id (mm_id pending) "derived_from" (Some (d_decision_id d)) now;;
        mret (target_id, [target_id; mm_id pending])
      else if String.eqb (d_relation d) "update_task" then
        for_each source_note_ids (λ n, add_source_row target_id n "updated_by" now;; mret tt);;
        versioned_update_row target
          (no_changes <| ch_content := Some (mm_content pending) |> <| ch_task_status := mm_task_status pending |>
             <| ch_confidence := Some (capped (mm_confidence target) (mm_confidence pending)) |>
             <| ch_last_confirmed_at := Some now |>) "user_approved_task_update" source now;;
        versioned_update_row pending (no_changes <| ch_status := Some "archived" |>)
          "task_update_applied_after_review" source now;;
        mret (target_id, [target_id; mm_id pending])
      else if String.eqb (d_relation d) "supersede" then
        add_source_row target_id source_note_id "contradicted_by" now;;
        versioned_update_row target
          (no_changes <| ch_status := Some "superseded" |> <| ch_valid_until := Some now |>)
          "user_approved_supersede" source now;;
        accept;;
        both_ways (mm_space_id pending) (mm_id pending) target_id "supersedes" "superseded_by" (d_decision_id d) now;;
        mret (mm_id pending, [mm_id pending; target_id])
      else if String.eqb (d_relation d) "conflict" then
        add_source_row target_id source_note_id "contradicted_by" now;;
        versioned_update_row target (no_changes <| ch_status := Some "conflicted" |>) "user_approved_conflict" source now;;
        versioned_update_row pending (no_changes <| ch_status := Some "conflicted" |>) "user_approved_conflict" source now;;
        both_ways (mm_space_id pending) (mm_id pending) target_id "conflicts_with" "conflicts_with" (d_decision_id d) now;;
        mret (mm_id pending, [mm_id pending; target_id])
      else raise (ValueError ("unsupported pending review relation: " +:+ d_relation d))
  end.

(** UPDATE memory_decisions SET status = 'applied', ... *)
Definition mark_applied (d : decision) (result_ids : list string) (now : string) : session unit :=
  modify (λ s, s <| memory_decisions := update_where
    (λ r, String.eqb (d_decision_id (dr_decision r)) (d_decision_id d))
    (λ r, r <| dr_status := "applied" |> <| dr_result_memory_ids := result_ids |>
            <| dr_applied_at := Some now |> <| dr_error := None |>
            <| dr_decision := dr_decision r
                 <| d_recommended_action := default "" (alias APPROVED_ACTIONS (d_relation d)) |>
                 <| d_reason := d_reason (dr_decision r) +:+ "; user_approved" |> |>) (memory_decisions s) |>).

Definition approve_in_session (memory_id now : string) : session (option string) :=
  row ← gets (λ s, List.find (λ m, String.eqb (mm_id m) memory_id && String.eqb (mm_status m) "pending_review")
    (memories s));
  match row with
  | None => mret None
  | Some pending =>
      found ← gets (pending_decision memory_id);
      match found with
      | None => mret None
      | Some dr =>
          let d := dr_decision dr in
          target ← review_target d;
          source_note_ids ← gets (λ s, map so_note_id
            (select_where (λ r, String.eqb (so_memory_id r) memory_id) (memory_sources s)));
          let source_note_id := default (dr_note_id dr) (head source_note_ids) in
          '(result_id, result_ids) ← approve_branch pending d target source_note_ids source_note_id now;
          mark_applied d result_ids now;;
          mret (Some result_id)
      end
  end.

Definition approve_pending_memory (memory_id now : string) : IO store (option memory) :=
  result_id ← transaction (approve_in_session memory_id now);
  match result_id with Some i => io_gets (get_memory i) | None => mret None end.

(** [reject_pending_memory]: three transactions, the last one by [mark_memory_candidate]. *)
Definition reject_pending_memory (memory_id reason now : string) : IO store (option memory) :=
  pending ← io_gets (get_memory memory_id);
  match pending with
  | Some m =>
      if String.eqb (mm_status m) "pending_review" then
        updated ← update_memory memory_id (status_edit "archived") (Some reason) None now;
        candidate_id ← transaction (
          found ← gets (pending_decision memory_id);
          match found with
          | None => mret None
          | Some dr =>
              let candidate_id := d_candidate_id (dr_decision dr) in
              modify (λ s, s <| memory_decisions := update_where
                (λ r, String.eqb (d_candidate_id (dr_decision r)) candidate_id && String.eqb (dr_status r) "pending_review")
                (λ r, r <| dr_status := "rejected" |> <| dr_error := Some reason |>) (memory_decisions s) |>);;
              mret (Some candidate_id)
          end);
        match candidate_id with
        | Some i => if String.eqb i "" then mret updated
                    else mark_memory_candidate i "discarded" (Some reason) None now;; mret updated
        | None => mret updated
        end
      else mret None
  | None => mret None
  end.

(** [edit_pending_memory] *)
Definition revalidate (memory_id content : string) (m : memory) (next_status : option string) (now : string) :
    session unit :=
  found ← gets (pending_decision memory_id);
  match found with
  | None => mret tt
  | Some dr =>
      match next_status with
      | None => mret tt
      | Some n =>
          if negb (String.eqb (mm_memory_type m) "task") then mret tt
          else
            let d := dr_decision dr in
            target ← gets (λ s, match d_target_memory_ids d with [] => None | t :: _ => get_memory t s end);
            (match target with
             | Some t =>
                 if bool_decide (mm_task_status t = Some n) || can_transition (mm_task_status t) (Some n) then
                   modify (λ s, s <| memory_decisions := update_where
                     (λ r, String.eqb (d_decision_id (dr_decision r)) (d_decision_id d))
                     (λ r, r <| dr_decision := dr_decision r <| d_relation := "update_task" |>
                        <| d_recommended_action := "update_task" |>
                        <| d_reason := "user_edited_pending_memory_revalidated" |>
                        <| d_target_snapshot_version := Some (mm_current_version t) |> |>) (memory_decisions s) |>)
                 else mret tt
             | None => mret tt
             end);;
            modify (λ s, s <| memory_candidates := update_where
              (λ r, String.eqb (c_candidate_id (cr_candidate r)) (d_candidate_id d))
              (λ r, r <| cr_candidate := cr_candidate r <| c_content := content |> <| c_task_status := Some n |> |>
                      <| cr_normalized_content := normalize_content content |>
                      <| cr_updated_at := now |>) (memory_candidates s) |>)
      end
  end.

Definition edit_pending_memory (memory_id content now : string) : IO store (option memory) :=
  pending ← io_gets (get_memory memory_id);
  match pending with
  | Some m =>
      if String.eqb (mm_status m) "pending_review" && negb (String.eqb (py_strip content) "") then
        let is_task := String.eqb (mm_memory_type m) "task" in
        let next_status := if is_task then infer_task_status content else None in
        let task_status := if is_task
          then normalize_task_status (match next_status with Some _ => next_status | None => mm_task_status m end) ""
          else None in
        update_memory memory_id (content_edit content "pending_review" task_status)
          (Some "user_edited_pending_memory") None now;;
        transaction (revalidate memory_id content m next_status now);;
        approve_pending_memory memory_id now
      else mret None
  | None => mret None
  end.
End review.
