(* ===== verification/MemoryHistory.v ===== *)
(** The histories of the memories: the invariant of the memory store, and that each of its
    operations keeps it. *)

From stdpp Require Import base list strings gmap.
From Stdlib Require Import ZArith Lia QArith.
From S2P Require Import Prelude Consistency MemoryText Memory MemoryOps MemoryReview.

Open Scope string_scope.
Open Scope Z_scope.

(** * The invariant *)

Definition history (id : string) (s : store) : list version :=
  select_where (λ v, String.eqb (mv_memory_id v) id) (memory_versions s).

(** The versions of a memory are numbered from one to the current version, and the last one
    has its content and status. *)
Definition recorded (m : memory) (vs : list version) : Prop :=
  map mv_version vs = seqZ 1 (mm_current_version m)
  ∧ ∃ v, last vs = Some v ∧ mv_content v = mm_content m ∧ mv_status v = mm_status m.

(** The memory under review is not the one it is compared with. *)
Definition reviewable (r : decision_row) : Prop :=
  dr_status r = "pending_review" →
  ∀ t, head (d_target_memory_ids (dr_decision r)) = Some t → t ≠ "" → t ∉ dr_result_memory_ids r.

Record sound (s : store) : Prop := Sound {
  sound_ids : NoDup (map mm_id (memories s));
  sound_history : ∀ m, m ∈ memories s → recorded m (history (mm_id m) s);
  sound_versions : ∀ v, v ∈ memory_versions s → mv_memory_id v ∈ map mm_id (memories s);
  sound_reviews : ∀ r, r ∈ memory_decisions s → reviewable r;
}.

(** A sound store, with rows of distinct memories that are read from it and still current. *)
Definition good (rows : list memory) (s : store) : Prop :=
  sound s ∧ NoDup (map mm_id rows) ∧ ∀ m, m ∈ rows → m ∈ memories s.

Lemma sound_empty : sound empty_store.
Proof. split; simpl; [constructor|..]; intros ? Hx; by apply not_elem_of_nil in Hx. Qed.

Lemma good_sound rows s : good rows s → sound s.
Proof. by intros [? _]. Qed.
Lemma sound_good s : sound s → good [] s.
Proof. intros ?. split; [done|]. split; [constructor|]. intros m Hm. by apply not_elem_of_nil in Hm. Qed.

Lemma good_sublist rows rows' s : rows' `sublist_of` rows → good rows s → good rows' s.
Proof.
  intros Hsub (Hs & Hnd & Hin). split; [done|]. split.
  - eapply sublist_NoDup; [exact Hnd|]. by apply (fmap_sublist mm_id).
  - intros m Hm. apply Hin. by eapply elem_of_sublist.
Qed.

Lemma good_permutation rows rows' s : rows' ≡ₚ rows → good rows s → good rows' s.
Proof. intros Hp (Hs & Hnd & Hin). split; [done|]. setoid_rewrite Hp. by split. Qed.

(** ** Steps that leave memories, versions and decisions alone *)

Definition same_core (s s' : store) : Prop :=
  memories s' = memories s ∧ memory_versions s' = memory_versions s
  ∧ memory_decisions s' = memory_decisions s.
#[export] Instance same_core_preorder : PreOrder same_core.
Proof. split; [by intros ?|]. intros ??? (? & ? & ?) (? & ? & ?). split_and!; congruence. Qed.

Lemma good_same_core rows s s' : same_core s s' → good rows s → good rows s'.
Proof.
  intros (Hm & Hv & Hd) ([H1 H2 H3 H4] & Hnd & Hin). unfold good. rewrite Hm.
  split; [|done]. split; unfold history; rewrite ?Hm, ?Hv, ?Hd; done.
Qed.

Section steps.
Context `{Platform, TextRules}.

Lemma add_source_row_core memory_id note_id relation now :
  sat same_core (add_source_row memory_id note_id relation now).
Proof. unfold add_source_row. sat_auto. done. Qed.
Lemma add_version_source_core version_id now note_id :
  sat same_core (add_version_source version_id now note_id).
Proof. unfold add_version_source. sat_auto. by case_match. Qed.
Lemma new_memory_id_core prefix : sat same_core (new_id prefix).
Proof. unfold new_id. sat_auto. done. Qed.
Lemma add_relation_row_core space_id a b relation decision_id now :
  sat same_core (add_relation_row space_id a b relation decision_id now).
Proof. unfold add_relation_row. sat_auto; [apply new_memory_id_core|]. by case_match. Qed.

Lemma good_core {A} rows (m : session A) : sat same_core m → triple (good rows) m (λ _, good rows).
Proof. intros Hm. eapply triple_sat; [exact Hm|]. intros s s'. apply good_same_core. Qed.

(** ** Writing a version *)

Lemma add_version_effect v s u s' : add_version v s = Ok (u, s') →
  memories s' = memories s ∧ memory_decisions s' = memory_decisions s
  ∧ ∃ v', memory_versions s' = (memory_versions s ++ [v'])%list
      ∧ mv_memory_id v' = mv_memory_id v ∧ mv_version v' = mv_version v
      ∧ mv_content v' = mv_content v ∧ mv_status v' = mv_status v.
Proof.
  unfold add_version. intros (version_id & s1 & E1 & E)%bind_Ok.
  destruct (new_memory_id_core _ _ _ _ E1) as (<- & <- & <-).
  apply bind_Ok in E as (taken & s2 & [= <- ->] & E). case_match; [done|].
  apply bind_Ok in E as ([] & s3 & [= <-] & E).
  apply bind_Ok in E as (source_ids & s4 & [= <- <-] & E).
  apply (sat_for_each same_core) in E as (-> & -> & ->); [|intros; apply add_version_source_core].
  split; [done|]. split; [done|]. by eexists.
Qed.

Lemma update_memories_effect id f s u s' : update_memories id f s = Ok (u, s') →
  memories s' = update_where (λ m, String.eqb (mm_id m) id) f (memories s)
  ∧ memory_versions s' = memory_versions s ∧ memory_decisions s' = memory_decisions s.
Proof.
  unfold update_memories. intros ([] & s1 & [= <-] & E)%bind_Ok.
  apply bind_Ok in E as (clash & s2 & [= <- <-] & E). case_match; [done|].
  revert E. by intros [= _ <-].
Qed.

Lemma history_snoc s s' v id : memory_versions s' = (memory_versions s ++ [v])%list →
  history id s' = (history id s ++ if String.eqb (mv_memory_id v) id then [v] else [])%list.
Proof.
  intros E. unfold history, select_where. rewrite E, List.filter_app. simpl. by case_match.
Qed.

Lemma recorded_positive m vs : recorded m vs → 1 <= mm_current_version m.
Proof.
  intros [Hn (v & Hv & _)]. destruct (decide (1 <= mm_current_version m)) as [|Hc]; [done|].
  rewrite seqZ_nil in Hn by lia. by destruct vs.
Qed.

Lemma next_version_recorded m vs : recorded m vs → next_version m = mm_current_version m + 1.
Proof.
  intros Hr%recorded_positive. unfold next_version. case_match eqn:E; [|done]. bools. lia.
Qed.

(** The row [m] after a change that is recorded by the version [v]. *)
Lemma recorded_next m m' vs v : recorded m vs →
  mm_current_version m' = next_version m → mv_version v = next_version m →
  mv_content v = mm_content m' → mv_status v = mm_status m' → recorded m' (vs ++ [v]).
Proof.
  intros Hr Hm' Hv Hc Hst. pose proof (recorded_positive _ _ Hr) as Hpos.
  rewrite (next_version_recorded _ _ Hr) in Hm', Hv. destruct Hr as [Hn _]. split.
  - rewrite map_app, Hn, Hm'. simpl. rewrite Hv. rewrite seqZ_app by lia. f_equal.
    rewrite seqZ_cons by lia. rewrite seqZ_nil by lia. f_equal. lia.
  - exists v. split; [apply last_snoc|done].
Qed.

(** A change of a row together with the version that records it. *)
Lemma change_row row f v rows :
  (∀ m, mm_id (f m) = mm_id m) →
  mm_current_version (f row) = next_version row → mv_version v = next_version row →
  mv_memory_id v = mm_id row → mv_content v = mm_content (f row) → mv_status v = mm_status (f row) →
  triple (good (row :: rows)) (update_memories (mm_id row) f;; add_version v) (λ _, good (f row :: rows)).
Proof.
  intros Hid Hcv Hvv Hvid Hvc Hvs s [] s' ([Hnd Hh Hv Hr] & Hrows & Hin) ([] & s1 & E1 & E2)%bind_Ok.
  apply update_memories_effect in E1 as (M1 & V1 & D1).
  apply add_version_effect in E2 as (M2 & D2 & v' & V2 & Hid' & Hn' & Hc' & Hs').
  rewrite M1 in M2. rewrite D1 in D2. rewrite V1 in V2.
  assert (map mm_id (memories s') = map mm_id (memories s)) as Hids by (rewrite M2; by apply update_column).
  assert (row ∈ memories s) as Hrow by (apply Hin; by left).
  assert (∀ m, m ∈ memories s → mm_id m = mm_id row → m = row) as Huniq.
  { intros m Hm E. by apply (key_unique mm_id (memories s)). }
  assert (∀ m, m ∈ memories s' ↔ (m ∈ memories s ∧ mm_id m ≠ mm_id row) ∨ m = f row) as Hmem.
  { intros m. rewrite M2, elem_of_update. split.
    - intros (x & Hx & ->). destruct (String.eqb_spec (mm_id x) (mm_id row)) as [E|]; [|by left].
      right. by rewrite (Huniq x).
    - intros [[Hm Hne%String.eqb_neq]| ->]; [exists m; by rewrite Hne|].
      exists row. by rewrite String.eqb_refl. }
  split; [split|split].
  - by rewrite Hids.
  - intros m [[Hm Hne]| ->]%Hmem; rewrite (history_snoc s s' v') by done.
    + replace (String.eqb (mv_memory_id v') (mm_id m)) with false by (symmetry; bools; congruence).
      rewrite app_nil_r. auto.
    + rewrite Hid, Hid', Hvid, String.eqb_refl.
      apply (recorded_next row); [auto|done|congruence|congruence|congruence].
  - intros w Hw. rewrite Hids. rewrite V2 in Hw.
    apply elem_of_app in Hw as [Hw| ->%list_elem_of_singleton]; [auto|].
    rewrite Hid', Hvid. by apply elem_of_map_in.
  - by rewrite D2.
  - simpl. rewrite Hid. exact Hrows.
  - apply NoDup_cons in Hrows as [Hnot _].
    intros m [->|Hm]%elem_of_cons; apply Hmem; [by right|left].
    split; [apply Hin; by right|]. intros E. apply Hnot. rewrite <- E. by apply elem_of_map_in.
Qed.

Lemma versioned_update_row_good row ch reason source_note_id now rows :
  triple (good (row :: rows)) (versioned_update_row row ch reason source_note_id now)
    (λ _, good (changed_row row ch now row :: rows)).
Proof. by apply change_row. Qed.

(** ** A new memory *)

(** A new row with its first version. *)
Lemma append_row m v rows s s' :
  good rows s → mm_id m ∉ map mm_id (memories s) →
  mm_current_version m = 1 → mv_version v = 1 →
  mv_memory_id v = mm_id m → mv_content v = mm_content m → mv_status v = mm_status m →
  memories s' = (memories s ++ [m])%list → memory_versions s' = (memory_versions s ++ [v])%list →
  memory_decisions s' = memory_decisions s →
  good (m :: rows) s'.
Proof.
  intros ([Hnd Hh Hv Hr] & Hrows & Hin) Hnew Hm1 Hv1 Hvid Hc Hst M V D.
  assert (∀ x, x ∈ memories s → mm_id x ≠ mm_id m) as Hne.
  { intros x Hx E. apply Hnew. rewrite <- E. by apply elem_of_map_in. }
  assert (history (mm_id m) s = []) as Hempty.
  { apply select_empty. intros w Hw. bools. intros E. apply Hnew. rewrite <- E. auto. }
  split; [split|split].
  - rewrite M, map_app. apply NoDup_app. split; [done|]. split; [|apply NoDup_singleton].
    intros x Hx ->%list_elem_of_singleton. done.
  - intros x. rewrite M, elem_of_app, list_elem_of_singleton. rewrite (history_snoc s s' v) by done.
    intros [Hx| ->].
    + replace (String.eqb (mv_memory_id v) (mm_id x)) with false
        by (symmetry; bools; rewrite Hvid; intros E; by apply (Hne x)).
      rewrite app_nil_r. auto.
    + rewrite Hempty, Hvid, String.eqb_refl. simpl. split; [simpl; by rewrite Hv1, Hm1|].
      by exists v.
  - intros w. rewrite M, V, map_app, !elem_of_app, list_elem_of_singleton.
    intros [Hw| ->]; [left; auto|right]. rewrite Hvid. by left.
  - by rewrite D.
  - simpl. apply NoDup_cons. split; [|done]. intros (x & E & Hx)%elem_of_map.
    by apply (Hne x); [apply Hin|].
  - intros x. rewrite M, elem_of_app, list_elem_of_singleton. intros [->|Hx]%elem_of_cons; auto.
Qed.

Lemma insert_memory_row_good space_id c source_note_id source_relation status memory_id now rows :
  triple (good rows)
    (insert_memory_row space_id c source_note_id source_relation status memory_id now)
    (λ id s, ∃ m, mm_id m = id ∧ mm_status m = status ∧ mm_content m = c_content c ∧ good (m :: rows) s).
Proof.
  unfold insert_memory_row. case_match; [by apply triple_raise|].
  eapply (triple_bind _ (λ _, good rows)).
  { destruct memory_id; [by apply triple_ret|apply good_core, new_memory_id_core]. }
  intros record_id. apply triple_gets. intros taken. case_match eqn:Et; [by apply triple_raise|].
  intros s id s' (Hg & Hfree) E.
  apply bind_Ok in E as ([] & s1 & [= <-] & E).
  apply bind_Ok in E as (added & s2 & (M2 & V2 & D2)%add_source_row_core & E).
  apply bind_Ok in E as ([] & s3 & (M3 & D3 & v & V3 & Hvid & Hvn & Hvc & Hvs)%add_version_effect & E).
  revert E. intros [= <- <-]. symmetry in Hfree. apply orb_false_iff in Hfree as [Hfree _].
  rewrite M2 in M3. rewrite V2 in V3. rewrite D2 in D3. simpl in *.
  eexists. split_and!; [| | |eapply append_row; [exact Hg|..|exact M3|exact V3|exact D3]]; try done.
  simpl. intros (x & Ex & Hx)%elem_of_map.
  assert (existsb (λ m, String.eqb (mm_id m) record_id) (memories s) = true) as Hc; [|congruence].
  apply existsb_exists. exists x. split; [by apply list_elem_of_In|by apply String.eqb_eq].
Qed.

Lemma insert_memory_row_keeps space_id c source_note_id source_relation status memory_id now rows :
  triple (good rows)
    (insert_memory_row space_id c source_note_id source_relation status memory_id now) (λ _, good rows).
Proof.
  eapply triple_post; [apply insert_memory_row_good|]. intros ? s (m & _ & _ & _ & Hg). revert Hg.
  apply good_sublist. by apply sublist_cons.
Qed.

(** ** Columns that have no history, and the decisions *)

Lemma touch_rows p f rows :
  (∀ m, mm_id (f m) = mm_id m ∧ mm_content (f m) = mm_content m ∧ mm_status (f m) = mm_status m
        ∧ mm_current_version (f m) = mm_current_version m) →
  triple (good rows) (modify (λ s, s <| memories := update_where p f (memories s) |>))
    (λ _, good (update_where p f rows)).
Proof.
  intros Hf. apply triple_modify. intros s ([Hnd Hh Hv Hr] & Hrows & Hin).
  assert (∀ l, map mm_id (update_where p f l) = map mm_id l) as Hids.
  { intros l. apply update_column. intros x. apply Hf. }
  split; [split|split]; simpl; rewrite ?Hids; try done.
  - intros m (x & Hx & ->)%elem_of_update. destruct (Hh x Hx) as [Hn (v & Hl & Hc & Hst)].
    destruct (Hf x) as (E1 & E2 & E3 & E4). unfold recorded. case_match; [rewrite E1, E2, E3, E4|]; eauto.
  - intros m (x & Hx & ->)%elem_of_update. apply elem_of_update. eauto.
Qed.

Lemma insert_decision_row_good space_id note_id d status ids error now rows :
  (status = "pending_review" → ∀ t, head (d_target_memory_ids d) = Some t → t ≠ "" → t ∉ ids) →
  triple (good rows) (insert_decision_row space_id note_id d status ids error now) (λ _, good rows).
Proof.
  intros Hd. unfold insert_decision_row. case_match; [by apply triple_raise|].
  apply triple_modify. intros s ([Hnd Hh Hv Hr] & Hrows & Hin). split; [split|split]; try done.
  simpl. intros r [[Hx _]%elem_of_select| ->%list_elem_of_singleton]%elem_of_app; [auto|exact Hd].
Qed.

Lemma update_decisions_good p f rows :
  (∀ r, reviewable r → reviewable (f r)) →
  triple (good rows) (modify (λ s, s <| memory_decisions := update_where p f (memory_decisions s) |>))
    (λ _, good rows).
Proof.
  intros Hf. apply triple_modify. intros s ([Hnd Hh Hv Hr] & Hrows & Hin). split; [split|split]; try done.
  simpl. intros r (x & Hx & ->)%elem_of_update. case_match; auto.
Qed.

(** ** Reading rows *)

Lemma good_cons m rows s :
  good rows s → m ∈ memories s → mm_id m ∉ map mm_id rows → good (m :: rows) s.
Proof.
  intros (Hs & Hnd & Hin) Hm Hid. split; [done|]. split; [by apply NoDup_cons|].
  intros x [->|Hx]%elem_of_cons; auto.
Qed.

(** SELECT ... FROM memories for one row. *)
Lemma find_row {B} (p : memory → bool) (k : option memory → session B) rows (R : B → store → Prop) :
  triple (good rows) (k None) R →
  (∀ m, p m = true → triple (λ s, good rows s ∧ m ∈ memories s) (k (Some m)) R) →
  triple (good rows) (gets (λ s, List.find p (memories s)) ≫= k) R.
Proof.
  intros Hnone Hsome. apply triple_gets. intros [x|].
  - intros s b s' (Hs & E). symmetry in E. apply List.find_some in E as [E Hp].
    apply (Hsome x Hp). split; [done|]. by apply list_elem_of_In.
  - eapply triple_pre; [exact Hnone|]. by intros s [].
Qed.

Lemma select_target_good d :
  triple sound (select_target d) (λ o s, good (option_list o) s
    ∧ ∀ t, head (d_target_memory_ids d) = Some t → t ≠ "" → ∃ m, o = Some m ∧ mm_id m = t).
Proof.
  unfold select_target. destruct (d_target_memory_ids d) as [|t ts].
  { apply triple_ret. intros s Hs. by split; [apply sound_good|]. }
  case_match eqn:Et; bools.
  { apply triple_ret. intros s Hs. split; [by apply sound_good|]. by intros ? [= <-]. }
  eapply triple_pre; [|apply sound_good]. apply find_row; [apply triple_raise|].
  intros m Hm. bools. apply triple_ret. intros s [Hs Hin]. split.
  - apply good_cons; [done|done|]. apply not_elem_of_nil.
  - intros ? [= <-] _. eauto.
Qed.

(** ** Applying a decision *)

Lemma archive_one_good space_id target_id decision_id source_note_id now row rows :
  triple (good (row :: rows)) (archive_one space_id target_id decision_id source_note_id now row)
    (λ _, good rows).
Proof.
  unfold archive_one. eapply triple_bind; [apply versioned_update_row_good|]. intros ?.
  eapply triple_bind; [apply good_core, add_relation_row_core|]. intros ?.
  eapply triple_post; [apply good_core, add_relation_row_core|].
  intros ? s. apply good_sublist. by apply sublist_cons.
Qed.

Lemma archive_duplicates_good target c decision_id source_note_id now rows :
  (∀ m, m ∈ rows → mm_id m = mm_id target) →
  triple (good rows) (archive_duplicates target c decision_id source_note_id now) (λ _, good rows).
Proof.
  intros Hrows. unfold archive_duplicates. case_match; [by apply triple_ret|].
  case_match; [by apply triple_ret|]. apply triple_gets. intros found.
  eapply triple_bind with (R := λ _, good rows); [|intros ?; by apply triple_ret].
  eapply triple_pre;
    [apply (triple_for_each (λ k, good (k ++ rows)%list)); intros; apply archive_one_good|].
  intros s (Hg & ->). pose proof Hg as ([Hnd Hh Hv Hr] & Hrnd & Hin).
  set (p := λ m : memory, _ && _).
  assert (∀ m, m ∈ sort_by (λ a b, text_leb (mm_updated_at b) (mm_updated_at a)) (select_where p (memories s)) →
    m ∈ memories s ∧ mm_id m ≠ mm_id target) as Hfound.
  { intros m [Hm Hp]%elem_of_sort_by%elem_of_select. split; [done|]. unfold p in Hp. bools. tauto. }
  split; [by apply good_sound in Hg|]. split.
  - rewrite map_app. apply NoDup_app. split_and!; [|intros x|done].
    + apply NoDup_select. rewrite (Permutation_map mm_id (sort_by_Permutation _ _)). by apply NoDup_select.
    + intros (m & <- & [Hm _]%elem_of_select)%elem_of_map (m' & E & Hm')%elem_of_map.
      apply Hfound in Hm as [_ Hne]. apply Hne. rewrite <- E. auto.
  - intros m [[Hm _]%elem_of_select|Hm]%elem_of_app; [by apply Hfound|auto].
Qed.

Lemma for_sources_core {A} (ns : list A) (f : A → session bool) :
  (∀ n, sat same_core (f n)) → sat same_core (for_each ns (λ n, f n;; mret tt)).
Proof. intros Hf. sat_auto. Qed.

Lemma both_ways_core space_id a b forward backward decision_id now :
  sat same_core (both_ways space_id a b forward backward decision_id now).
Proof. unfold both_ways. sat_auto; apply add_relation_row_core. Qed.

End steps.

Create HintDb memory.
#[export] Hint Resolve add_source_row_core add_relation_row_core new_memory_id_core both_ways_core
  for_sources_core : memory.

(** One statement of a session, by its lemma. *)
Ltac memory_step :=
  eapply triple_bind;
  [ first [ apply good_core; solve [sat_auto; eauto with memory]
          | apply versioned_update_row_good
          | apply insert_memory_row_keeps
          | apply archive_duplicates_good ]
  | intros ? ].

Section operations.
Context `{Platform, TextRules}.

(** The memory [m] as a later row: with the same content, status and version. *)
Definition kept (m m' : memory) : Prop :=
  mm_id m' = mm_id m ∧ mm_content m' = mm_content m ∧ mm_status m' = mm_status m
  ∧ mm_task_status m' = mm_task_status m ∧ mm_current_version m' = mm_current_version m.
Definition keeps_row (m : memory) (s : store) : Prop := sound s ∧ ∃ m', m' ∈ memories s ∧ kept m m'.

Lemma good_keeps m m' s : kept m m' → good [m'] s → keeps_row m s.
Proof. intros Hk (Hs & _ & Hin). split; [done|]. exists m'. split; [apply Hin; by left|done]. Qed.

Lemma ret_sound rows {A} (x : A) : triple (good rows) (mret x : session _) (λ _, sound).
Proof. apply triple_ret. apply good_sound. Qed.

Lemma confirm_good c target now :
  triple (good [target]) (confirm c target now) (λ _ s, ∃ m, kept target m ∧ good [m] s).
Proof.
  unfold confirm. eapply triple_post; [by apply touch_rows|]. intros ? s. simpl.
  rewrite String.eqb_refl. intros Hg. eexists. by split; [|exact Hg].
Qed.

Lemma confirm_branch_good note_id c d target now r :
  triple (good [target])
    (added ← add_source_row (mm_id target) note_id "supported_by" now;
     (if added : bool then confirm c target now else mret tt);;
     archived ← (if added : bool then archive_duplicates target c (d_decision_id d) note_id now else mret []);
     mret ([mm_id target], r <| ap_memory_id := Some (mm_id target) |> <| ap_source_added := Some added |>
      <| ap_archived := archived |>))
    (λ _, keeps_row target).
Proof.
  memory_step. eapply triple_bind with (R := λ _ s, ∃ m, kept target m ∧ good [m] s).
  { destruct a; [apply confirm_good|]. apply triple_ret. by exists target. }
  intros [] s b s' (m & Hk & Hg). revert Hg.
  apply (triple_bind (good [m]) (λ _, good [m]) (λ _, keeps_row target)).
  - destruct a; [|by apply triple_ret]. apply archive_duplicates_good.
    intros ? ->%list_elem_of_singleton. apply Hk.
  - intros ?. apply triple_ret. intros ?. by apply good_keeps.
Qed.

Lemma apply_to_target_good space_id note_id c d merged_content action target now r :
  triple (good [target]) (apply_to_target space_id note_id c d merged_content action target now r)
    (λ _ s, sound s ∧ (action = "add_source" → keeps_row target s)).
Proof.
  assert (action ≠ "add_source" → ∀ m, triple (good [target]) m (λ _, sound) →
    triple (good [target]) m (λ (_ : list string * applied) s, sound s ∧ (action = "add_source" → keeps_row target s)))
    as Hother.
  { intros Hne m Hm. eapply triple_post; [exact Hm|]. by intros. }
  unfold apply_to_target. case_match eqn:E; bools.
  { eapply triple_post; [apply confirm_branch_good|]. intros ? s Hk. split; [apply Hk|done]. }
  apply Hother; [done|]. clear Hother.
  case_match; [repeat memory_step; apply ret_sound|].
  case_match.
  { memory_step. memory_step.
    eapply triple_bind; [apply archive_duplicates_good|intros ?; apply ret_sound].
    by intros m ->%list_elem_of_singleton. }
  case_match; [repeat memory_step; apply ret_sound|].
  case_match; [repeat memory_step; apply ret_sound|apply triple_raise].
Qed.

(** A candidate that waits for its review as the memory [id]. *)
Definition up_for_review (c : candidate) (id : option string) (s : store) : Prop :=
  ∃ m, m ∈ memories s ∧ id = Some (mm_id m) ∧ mm_status m = "pending_review" ∧ mm_content m = c_content c.

Lemma apply_action_good space_id note_id c d merged_content action target now r :
  triple (good (option_list target)) (apply_action space_id note_id c d merged_content action target now r)
    (λ r s, sound s
      ∧ (action = "pending_review" → up_for_review c (ap_memory_id r.2) s ∧ ∀ t, target = Some t → mm_id t ∉ r.1)
      ∧ (action = "pending_review" ∨ action = "add_source" → ∀ t, target = Some t → keeps_row t s)).
Proof.
  unfold apply_action. case_match eqn:E1; bools.
  { apply triple_ret. intros s Hg. subst action. split_and!; [by eapply good_sound|done|by intros []]. }
  case_match eqn:E2; bools.
  { memory_step. apply triple_ret. intros s Hg. subst action. split_and!; [by eapply good_sound|done|by intros []]. }
  case_match eqn:E3; bools.
  - eapply triple_bind; [apply insert_memory_row_good|]. intros id. apply triple_ret.
    intros s (m & <- & Hst & Hc & Hg). split; [by eapply good_sound|]. split.
    + intros _. split; [exists m; split_and!; try done; apply Hg; by left|].
      intros t -> [= E]%list_elem_of_singleton. destruct Hg as (_ & Hnd & _). simpl in Hnd.
      rewrite E in Hnd. apply NoDup_cons in Hnd as [Hnot _]. apply Hnot. by left.
    + intros _ t ->. apply (good_keeps t t); [done|]. revert Hg. apply good_sublist. by apply sublist_cons.
  - destruct target as [target|]; [|apply triple_raise].
    eapply triple_post; [apply apply_to_target_good|]. simpl. intros ? s [Hs Hk].
    split; [done|]. split; [done|]. intros [|Ha] t [= <-]; [done|]. auto.
Qed.

Lemma check_card_core space_id c d target : sat same_core (check_card space_id c d target).
Proof. unfold check_card. sat_auto. Qed.

Lemma readjudicated_targets c d target : d_target_memory_ids (readjudicated c d target) = d_target_memory_ids d.
Proof. unfold readjudicated. by repeat case_match. Qed.

Lemma readjudicated_stale c d row : is_stale_snapshot d row = true →
  let action := d_recommended_action (readjudicated c d (Some row)) in
  already_done c action (Some row) = false
  ∧ action = (if same_state c row then "add_source" else "pending_review").
Proof. intros Hs. simpl. rewrite Hs. by case_match. Qed.

Lemma insert_decision_row_memories space_id note_id d status ids error now s u s' :
  insert_decision_row space_id note_id d status ids error now s = Ok (u, s') → memories s' = memories s.
Proof. unfold insert_decision_row. case_match; [done|]. by intros [= _ <-]. Qed.

Lemma carry_out_good space_id note_id c d merged_content target now :
  (∀ t, head (d_target_memory_ids d) = Some t → t ≠ "" → ∃ m, target = Some m ∧ mm_id m = t) →
  triple (good (option_list target)) (carry_out space_id note_id c d merged_content target now)
    (λ r s, sound s ∧ ∀ row, target = Some row → is_stale_snapshot d row = true →
      keeps_row row s ∧ (same_state c row = false → up_for_review c (ap_memory_id r) s)).
Proof.
  intros Ht. unfold carry_out.
  eapply triple_bind; [apply good_core, check_card_core|]. intros ?.
  eapply triple_bind; [apply apply_action_good|]. intros [ids r].
  set (action := if already_done _ _ _ then _ else _).
  intros s b s' (Hs & Hrev & Hkeep) (u & s1 & E1 & [= <- <-])%bind_Ok.
  assert (sound s1) as Hs1.
  { refine (good_sound [] _ (insert_decision_row_good _ _ _ _ _ _ _ [] _ _ _ _ (sound_good _ Hs) E1)).
    case_match; [|done]. bools. intros _ t. rewrite readjudicated_targets.
    intros Hh Hne. destruct (Ht t Hh Hne) as (m & -> & <-). by apply Hrev. }
  apply insert_decision_row_memories in E1.
  split; [done|]. intros row -> Hstale. destruct (readjudicated_stale c d row Hstale) as [Hdone Ha].
  revert Hrev Hkeep. subst action. rewrite Hdone, Ha.
  unfold keeps_row, up_for_review. rewrite E1. intros Hrev Hkeep. split.
  - split; [done|]. apply Hkeep; [|done]. case_match; auto.
  - intros Hsame. rewrite Hsame in Hrev. by apply Hrev.
Qed.

Lemma apply_in_session_good space_id note_id c d merged_content now :
  triple sound (apply_in_session space_id note_id c d merged_content now) (λ _, sound).
Proof.
  unfold apply_in_session. apply triple_gets. intros prior.
  eapply triple_pre; [|intros s [Hs _]; exact Hs].
  destruct prior; [by apply triple_ret|].
  eapply triple_bind; [apply select_target_good|]. intros target s b s' [Hg Ht] E.
  exact (proj1 (carry_out_good _ _ _ _ _ _ _ Ht _ _ _ Hg E)).
Qed.


(** ** Direct edits *)

Lemma triple_find {B} (p : memory → bool) (k : option memory → session B) :
  triple sound (k None) (λ _, sound) →
  (∀ m, p m = true → triple (good [m]) (k (Some m)) (λ _, sound)) →
  triple sound (gets (λ s, List.find p (memories s)) ≫= k) (λ _, sound).
Proof.
  intros Hnone Hsome. eapply triple_pre; [apply find_row|apply sound_good].
  - eapply triple_pre; [exact Hnone|apply good_sound].
  - intros m Hm. eapply triple_pre; [by apply Hsome|]. intros s [Hs Hin].
    apply good_cons; [done|done|apply not_elem_of_nil].
Qed.

Lemma update_in_session_good memory_id e reason source_note_id now :
  triple sound (update_in_session memory_id e reason source_note_id now) (λ _, sound).
Proof.
  apply triple_find; [by apply triple_ret|]. intros row Hrow. bools. subst memory_id. simpl.
  case_match; [by apply triple_raise|].
  intros s b s' Hg ([] & s1 & E1 & E)%bind_Ok.
  apply bind_Ok in E as ([] & s2 & E2 & [= _ <-]).
  refine (good_sound _ _ (change_row row (edited_row row e now) _ [] _ _ _ _ _ _ s tt s2 Hg _));
    [| | | | | |apply bind_Ok; eexists _, s1; split; [exact E1|exact E2]]; done.
Qed.

Lemma expire_in_session_good space_id limit now :
  triple sound (expire_in_session space_id limit now) (λ _, sound).
Proof.
  unfold expire_in_session. apply triple_gets. intros rows.
  eapply triple_bind with (R := λ _, good []); [|intros ?; apply ret_sound].
  eapply triple_pre.
  - apply (triple_for_each good). intros x k.
    eapply triple_post; [apply versioned_update_row_good|]. intros ? s. apply good_sublist.
    by apply sublist_cons.
  - intros s [Hs ->]. split; [done|]. split.
    + apply NoDup_map_take. rewrite (Permutation_map mm_id (sort_by_Permutation _ _)).
      apply NoDup_select, Hs.
    + intros m Hm%in_take. by apply elem_of_sort_by, elem_of_select in Hm as [].
Qed.

Lemma purge_in_session_good memory_id : triple sound (purge_in_session memory_id) (λ _, sound).
Proof.
  apply triple_find; [by apply triple_ret|]. intros row _.
  eapply triple_bind with (R := λ _, sound); [|intros ?; by apply triple_ret].
  apply triple_modify. intros s [[Hnd Hh Hv Hr] _]. split; simpl; [by apply NoDup_select| | |done].
  - intros m [Hm Hne]%elem_of_select. bools. destruct (Hh m Hm) as [Hn Hl].
    unfold history. simpl. rewrite select_select; [by split|]. intros v E. bools. congruence.
  - intros v [Hw Hne]%elem_of_select. bools. apply Hv in Hw as (m & E & Hm)%elem_of_map.
    apply elem_of_map. exists m. split; [done|]. apply elem_of_select. split; [done|]. bools. congruence.
Qed.

Lemma mark_accessed_good memory_ids now : io_keeps sound (mark_accessed memory_ids now).
Proof.
  apply io_keeps_transaction. apply (triple_for_each (λ _, sound)). intros id _.
  eapply triple_pre; [eapply triple_post; [by apply touch_rows|]|apply sound_good].
  intros ? s. apply good_sound.
Qed.

Lemma update_memory_good memory_id e reason source_note_id now :
  io_keeps sound (update_memory memory_id e reason source_note_id now).
Proof. unfold update_memory. io_auto. apply update_in_session_good. Qed.


Lemma correct_memory_good memory_id content task_status reason now :
  io_keeps sound (correct_memory memory_id content task_status reason now).
Proof. unfold correct_memory. io_auto; apply update_memory_good. Qed.

Lemma resolve_memory_conflict_good memory_id resolution content now :
  io_keeps sound (resolve_memory_conflict memory_id resolution content now).
Proof. unfold resolve_memory_conflict. io_auto; apply update_memory_good. Qed.

(** ** The review of a pending memory *)

(** The memory [id] is no longer pending. *)
Definition settled (id : string) (s : store) : Prop :=
  ∃ m, mm_id m = id ∧ mm_status m ≠ "pending_review" ∧ good [m] s.

Lemma ret_settled {A} (x : A) m rows :
  mm_status m ≠ "pending_review" → triple (good (m :: rows)) (mret x : session _) (λ _, settled (mm_id m)).
Proof.
  intros Hm. apply triple_ret. intros s Hg. exists m. split_and!; [done|done|]. revert Hg.
  apply good_sublist. apply sublist_skip, sublist_nil_l.
Qed.

Lemma swap_good {A} x y rows (m : session A) Q :
  triple (good (y :: x :: rows)) m Q → triple (good (x :: y :: rows)) m Q.
Proof. intros Hm. eapply triple_pre; [exact Hm|]. intros s. apply good_permutation, Permutation_swap. Qed.

Ltac review_branch :=
  memory_step; apply swap_good; memory_step; apply swap_good; repeat memory_step;
  by apply (ret_settled _ (changed_row _ _ _ _)).

Lemma approve_branch_good pending d target source_note_ids source_note_id now :
  triple (good (pending :: option_list target))
    (approve_branch pending d target source_note_ids source_note_id now) (λ _, settled (mm_id pending)).
Proof.
  unfold approve_branch. case_match; [memory_step; by apply (ret_settled _ (changed_row _ _ _ _))|].
  destruct target as [target|]; [|by apply triple_raise]. simpl option_list.
  do 4 (case_match; [review_branch|]). by apply triple_raise.
Qed.

Lemma pending_decision_spec memory_id s r : pending_decision memory_id s = Some r →
  r ∈ memory_decisions s ∧ dr_status r = "pending_review" ∧ memory_id ∈ dr_result_memory_ids r.
Proof.
  unfold pending_decision. intros E%last_Some_elem_of. apply elem_of_sort_by, elem_of_select in E as [Hr Hp].
  by bools.
Qed.

Lemma review_target_good pending d :
  (∀ t, head (d_target_memory_ids d) = Some t → t ≠ "" → t ≠ mm_id pending) →
  triple (good [pending]) (review_target d) (λ o, good (pending :: option_list o)).
Proof.
  intros Ht. unfold review_target. destruct (d_target_memory_ids d) as [|t ts]; [by apply triple_ret|].
  case_match; bools; [by apply triple_ret|].
  apply find_row; [apply triple_raise|]. intros m Hm. bools. apply triple_ret. intros s [Hg Hin].
  eapply good_permutation; [apply Permutation_swap|]. apply good_cons; [done|done|].
  intros E%list_elem_of_singleton. subst t. by apply (Ht (mm_id m)).
Qed.

Lemma mark_applied_good d result_ids now rows :
  triple (good rows) (mark_applied d result_ids now) (λ _, good rows).
Proof. apply update_decisions_good. by intros r Hr. Qed.

Lemma mark_applied_settled d result_ids now id :
  triple (settled id) (mark_applied d result_ids now) (λ _, settled id).
Proof.
  intros s u s' (m & Hid & Hm & Hg) E. exists m. split_and!; [done|done|].
  exact (mark_applied_good _ _ _ _ s u s' Hg E).
Qed.

Lemma approve_in_session_good memory_id now :
  triple sound (approve_in_session memory_id now)
    (λ o s, sound s ∧ (o ≠ None → settled memory_id s)).
Proof.
  unfold approve_in_session. eapply triple_pre; [apply find_row|apply sound_good].
  { apply triple_ret. intros s Hs. by split; [eapply good_sound|]. }
  intros pending Hp. bools. destruct Hp as [Hid Hst]. subst memory_id.
  apply triple_gets. intros [dr|]; [|apply triple_ret; intros s [[Hs _] _]; by split; [eapply good_sound|]].
  intros s b s' [[Hg Hin] E] Ex. symmetry in E. apply pending_decision_spec in E as (Hdr & Hpend & Hres).
  pose proof (sound_reviews _ (good_sound _ _ Hg) dr Hdr Hpend) as Hne.
  assert (∀ t, head (d_target_memory_ids (dr_decision dr)) = Some t → t ≠ "" → t ≠ mm_id pending) as Ht.
  { intros t Ht Ht' ->. by apply (Hne (mm_id pending)). }
  assert (good [pending] s) as Hg1 by (apply good_cons; [done|done|apply not_elem_of_nil]).
  revert Hg1 Ex. clear Hne Hres Hpend Hdr Hg Hin. revert s b s'.
  eapply triple_bind; [by apply review_target_good|].
  intros target. apply triple_gets. intros notes. eapply triple_pre; [|intros s [Hs _]; exact Hs].
  eapply triple_bind; [apply approve_branch_good|]. intros [result_id result_ids].
  eapply triple_bind; [apply mark_applied_settled|]. intros ?. apply triple_ret.
  intros s Hs. split; [|done]. destruct Hs as (m & _ & _ & Hg). by eapply good_sound.
Qed.

Lemma approve_pending_memory_good memory_id now : io_keeps sound (approve_pending_memory memory_id now).
Proof.
  unfold approve_pending_memory. io_auto.
  eapply triple_post; [apply approve_in_session_good|]. by intros ? s [].
Qed.

(** A statement about the decisions or the candidates. *)
Lemma update_decisions_sound p f : (∀ r, reviewable r → reviewable (f r)) →
  triple sound (modify (λ s, s <| memory_decisions := update_where p f (memory_decisions s) |>)) (λ _, sound).
Proof.
  intros Hf. eapply triple_pre; [eapply triple_post; [by apply update_decisions_good|]|apply sound_good].
  intros ? s. apply good_sound.
Qed.

Lemma sound_core {A} (m : session A) : sat same_core m → triple sound m (λ _, sound).
Proof.
  intros Hm. eapply triple_pre; [eapply triple_post; [by apply (good_core [])|]|apply sound_good].
  intros ? s. apply good_sound.
Qed.

Lemma mark_memory_candidate_good candidate_id status error decision_id now :
  io_keeps sound (mark_memory_candidate candidate_id status error decision_id now).
Proof. unfold mark_memory_candidate. io_auto. apply sound_core. sat_auto. done. Qed.

Lemma reject_pending_memory_good memory_id reason now :
  io_keeps sound (reject_pending_memory memory_id reason now).
Proof.
  unfold reject_pending_memory. io_auto; [apply update_memory_good| |apply mark_memory_candidate_good].
  apply triple_gets. intros [dr|]; (eapply triple_pre; [|intros s [Hs _]; exact Hs]); [|by apply triple_ret].
  eapply triple_bind; [by apply update_decisions_sound|]. intros ?. by apply triple_ret.
Qed.

Lemma revalidate_good memory_id content m next_status now :
  triple sound (revalidate memory_id content m next_status now) (λ _, sound).
Proof.
  assert (∀ p f, triple sound (modify (λ s, s <| memory_candidates := update_where p f (memory_candidates s) |>))
    (λ _, sound)) as Hcand by (intros; apply sound_core; by apply sat_modify).
  unfold revalidate. apply triple_gets. intros found. eapply triple_pre; [|intros s [Hs _]; exact Hs].
  destruct found as [dr|]; [|by apply triple_ret]. destruct next_status as [n|]; [|by apply triple_ret].
  case_match; [by apply triple_ret|]. apply triple_gets. intros target.
  eapply triple_pre; [|intros s [Hs _]; exact Hs].
  eapply triple_bind with (R := λ _, sound); [|intros ?; apply Hcand].
  destruct target as [t|]; [|by apply triple_ret]. case_match; [|by apply triple_ret].
  by apply update_decisions_sound.
Qed.

Lemma edit_pending_memory_good memory_id content now :
  io_keeps sound (edit_pending_memory memory_id content now).
Proof.
  unfold edit_pending_memory. io_auto; [apply update_memory_good|apply revalidate_good|].
  apply approve_pending_memory_good.
Qed.

Lemma insert_memory_good space_id c source_note_id source_relation status now :
  io_keeps sound (insert_memory space_id c source_note_id source_relation status now).
Proof.
  unfold insert_memory. io_auto. eapply triple_pre; [|apply sound_good].
  eapply triple_bind; [apply good_core, new_memory_id_core|]. intros id.
  eapply triple_post; [apply insert_memory_row_keeps|]. intros ? s. apply good_sound.
Qed.

Lemma apply_memory_decision_good space_id note_id c d merged_content now :
  io_keeps sound (apply_memory_decision space_id note_id c d merged_content now).
Proof.
  intros s Hs. unfold apply_memory_decision.
  pose proof (io_keeps_transaction _ _ (apply_in_session_good space_id note_id c d merged_content now) s Hs) as Ht.
  destruct (transaction _ s) as [[r|e] s1]; [done|]. case_match; [done|]. simpl.
  refine (io_keeps_transaction sound _ _ s1 Ht).
  eapply triple_pre; [eapply triple_post; [by apply (insert_decision_row_good _ _ _ _ _ _ _ [])|]|apply sound_good].
  intros ? ?. apply good_sound.
Qed.
End operations.
