(* ===== verification/MemorySpec.v ===== *)
(** The memory store as a transition system, and its theorems: the histories of the memories
    are complete and only grow, a decision is applied once and never over a change of its
    target, and a review is decided once. *)

From stdpp Require Import base list strings gmap relations.
From Stdlib Require Import ZArith Lia QArith.
From S2P Require Import Prelude Consistency MemoryText Memory MemoryOps MemoryReview MemoryHistory.

Open Scope string_scope.
Open Scope Z_scope.

Section system.
Context `{Platform, TextRules}.

(** One call of a function that writes the store, whatever its result. *)
Inductive store_step (s : store) : store → Prop :=
  | StepApply space_id note_id c d merged_content now :
      store_step s (apply_memory_decision space_id note_id c d merged_content now s).2
  | StepApprove memory_id now : store_step s (approve_pending_memory memory_id now s).2
  | StepReject memory_id reason now : store_step s (reject_pending_memory memory_id reason now s).2
  | StepEdit memory_id content now : store_step s (edit_pending_memory memory_id content now s).2
  | StepUpdate memory_id e reason source_note_id now :
      store_step s (update_memory memory_id e reason source_note_id now s).2
  | StepCorrect memory_id content task_status reason now :
      store_step s (correct_memory memory_id content task_status reason now s).2
  | StepResolve memory_id resolution content now :
      store_step s (resolve_memory_conflict memory_id resolution content now s).2
  | StepDelete memory_id reason now : store_step s (soft_delete_memory memory_id reason now s).2
  | StepPurge memory_id : store_step s (purge_memory memory_id s).2
  | StepExpire space_id limit now : store_step s (expire_due_memories space_id limit now s).2
  | StepAccess memory_ids now : store_step s (mark_accessed memory_ids now s).2
  | StepInsert space_id c source_note_id source_relation status now :
      store_step s (insert_memory space_id c source_note_id source_relation status now s).2
  | StepSource memory_id note_id relation now : store_step s (add_source memory_id note_id relation now s).2
  | StepRelation space_id a b relation decision_id now :
      store_step s (add_memory_relation space_id a b relation decision_id now s).2
  | StepSave space_id status c error decision_id now :
      store_step s (save_memory_candidate space_id status c error decision_id now s).2
  | StepMark candidate_id status error decision_id now :
      store_step s (mark_memory_candidate candidate_id status error decision_id now s).2.

Lemma store_step_sound s s' : store_step s s' → sound s → sound s'.
Proof.
  intros Hstep Hs. destruct Hstep; revert s Hs; try first
    [ apply apply_memory_decision_good | apply approve_pending_memory_good | apply reject_pending_memory_good
    | apply edit_pending_memory_good | apply update_memory_good | apply correct_memory_good
    | apply resolve_memory_conflict_good | apply mark_accessed_good | apply insert_memory_good
    | apply mark_memory_candidate_good
    | apply io_keeps_transaction, purge_in_session_good
    | apply io_keeps_transaction, expire_in_session_good
    | apply io_keeps_transaction, sound_core; solve [auto with memory] ].
  apply io_keeps_transaction, sound_core, sat_modify. intros s. by case_match.
Qed.

Lemma reachable_sound s : rtc store_step empty_store s → sound s.
Proof.
  intros Hr. assert (sound empty_store) as Hs by apply sound_empty. revert Hs.
  induction Hr; eauto using store_step_sound.
Qed.

(** ** The history of versions is append-only *)

Definition extends (s s' : store) : Prop := memory_versions s `prefix_of` memory_versions s'.
#[local] Instance extends_preorder : PreOrder extends.
Proof. unfold extends. split; [by intros ?|]. intros ???. apply transitivity. Qed.

Lemma extends_same s s' : memory_versions s' = memory_versions s → extends s s'.
Proof. intros E. unfold extends. by rewrite E. Qed.
Lemma core_extends {A} (m : session A) : sat same_core m → sat extends m.
Proof. intros Hm s a s' E. apply extends_same. by apply Hm in E as (_ & E & _). Qed.

Lemma add_version_extends v : sat extends (add_version v).
Proof.
  intros s a s' E. apply add_version_effect in E as (_ & _ & v' & E & _). unfold extends. rewrite E.
  by apply prefix_app_r.
Qed.
Lemma update_memories_extends id f : sat extends (update_memories id f).
Proof. intros s a s' E. apply update_memories_effect in E as (_ & E & _). unfold extends. by rewrite E. Qed.
Lemma versioned_update_row_extends row ch reason source_note_id now :
  sat extends (versioned_update_row row ch reason source_note_id now).
Proof. apply sat_bind; [apply _|apply update_memories_extends|]. intros ?. apply add_version_extends. Qed.
Lemma add_source_row_extends memory_id note_id relation now :
  sat extends (add_source_row memory_id note_id relation now).
Proof. apply core_extends, add_source_row_core. Qed.
Lemma add_relation_row_extends space_id a b relation decision_id now :
  sat extends (add_relation_row space_id a b relation decision_id now).
Proof. apply core_extends, add_relation_row_core. Qed.
Lemma insert_memory_row_extends space_id c source_note_id source_relation status memory_id now :
  sat extends (insert_memory_row space_id c source_note_id source_relation status memory_id now).
Proof.
  unfold insert_memory_row.
  sat_auto; first [ apply core_extends, new_memory_id_core | apply add_source_row_extends
                  | apply add_version_extends | by apply extends_same ].
Qed.
#[local] Create HintDb extends.
#[local] Hint Resolve versioned_update_row_extends add_source_row_extends add_relation_row_extends
  insert_memory_row_extends update_memories_extends add_version_extends : extends.

(** Splits a session; what it writes directly are other tables than the versions. *)
Ltac extends_auto := sat_auto; eauto with extends; try (apply extends_same; by repeat case_match).

Lemma archive_duplicates_extends target c decision_id source_note_id now :
  sat extends (archive_duplicates target c decision_id source_note_id now).
Proof. unfold archive_duplicates, archive_one. extends_auto. Qed.
#[local] Hint Resolve archive_duplicates_extends : extends.
Lemma insert_decision_row_extends space_id note_id d status ids error now :
  sat extends (insert_decision_row space_id note_id d status ids error now).
Proof. unfold insert_decision_row. extends_auto. Qed.
Lemma apply_in_session_extends space_id note_id c d merged_content now :
  sat extends (apply_in_session space_id note_id c d merged_content now).
Proof.
  unfold apply_in_session, carry_out, check_card, select_target, select_memory, apply_action,
    apply_to_target, confirm, insert_decision_row.
  extends_auto.
Qed.
Lemma approve_in_session_extends memory_id now : sat extends (approve_in_session memory_id now).
Proof.
  unfold approve_in_session, review_target, select_memory, approve_branch, both_ways, mark_applied.
  extends_auto.
Qed.
Lemma update_in_session_extends memory_id e reason source_note_id now :
  sat extends (update_in_session memory_id e reason source_note_id now).
Proof. unfold update_in_session, select_memory. extends_auto. Qed.
Lemma revalidate_extends memory_id content m next_status now :
  sat extends (revalidate memory_id content m next_status now).
Proof. unfold revalidate. extends_auto. Qed.
Lemma expire_in_session_extends space_id limit now : sat extends (expire_in_session space_id limit now).
Proof. unfold expire_in_session. extends_auto. Qed.

(** The calls other than [purge_memory]. *)
Lemma io_extends {A} (m : session A) s0 : sat extends m → io_keeps (extends s0) (transaction m).
Proof.
  intros Hm. apply io_keeps_transaction. eapply triple_sat; [exact Hm|].
  intros s s' Hs. by transitivity s.
Qed.
#[local] Hint Resolve apply_in_session_extends approve_in_session_extends update_in_session_extends
  revalidate_extends expire_in_session_extends insert_decision_row_extends : extends.

Ltac io_extends_step := apply io_extends; solve [extends_auto; try by apply core_extends, new_memory_id_core].

Lemma update_memory_extends s0 memory_id e reason source_note_id now :
  io_keeps (extends s0) (update_memory memory_id e reason source_note_id now).
Proof. unfold update_memory. repeat (io_extends_step || io_step). Qed.
Lemma approve_extends s0 memory_id now : io_keeps (extends s0) (approve_pending_memory memory_id now).
Proof. unfold approve_pending_memory. repeat (io_extends_step || io_step). Qed.
Lemma apply_memory_decision_extends s0 space_id note_id c d merged_content now :
  io_keeps (extends s0) (apply_memory_decision space_id note_id c d merged_content now).
Proof.
  intros s Hs. unfold apply_memory_decision.
  pose proof (io_extends (apply_in_session space_id note_id c d merged_content now) s0
    (apply_in_session_extends _ _ _ _ _ _) s Hs) as Ht.
  destruct (transaction _ s) as [[r|e] s1]; [done|]. case_match; [done|]. simpl.
  exact (io_extends _ s0 (insert_decision_row_extends _ _ _ _ _ _ _) s1 Ht).
Qed.
#[local] Hint Resolve update_memory_extends approve_extends apply_memory_decision_extends : extends.

Lemma store_step_extends s s' : store_step s s' →
  (∃ id, s' = (purge_memory id s).2) ∨ extends s s'.
Proof.
  destruct 1; try (by left; eexists); right.
  all: match goal with |- extends ?s (?m ?s).2 => refine ((_ : io_keeps (extends s) m) s _); [|reflexivity] end.
  all: unfold reject_pending_memory, edit_pending_memory, correct_memory, resolve_memory_conflict,
    soft_delete_memory, expire_due_memories, mark_accessed, insert_memory, add_source, add_memory_relation,
    save_memory_candidate, mark_memory_candidate; eauto with extends.
  all: repeat (io_extends_step || io_step); eauto with extends.
Qed.

Lemma purge_history memory_id id s :
  history id s `prefix_of` history id (purge_memory memory_id s).2
  ∨ history id (purge_memory memory_id s).2 = [] ∧ id ∉ map mm_id (memories (purge_memory memory_id s).2).
Proof.
  unfold purge_memory, purge_in_session, select_memory, transaction, mbind, M_bind, gets, modify, mret, M_ret.
  destruct (List.find (λ m, String.eqb (mm_id m) memory_id) (memories s)) as [?|]; [|by left]. simpl.
  destruct (String.eqb_spec id memory_id) as [->|Hne]; [right|left].
  - split.
    + apply select_empty. simpl. intros v [_ Hv]%elem_of_select. bools. done.
    + simpl. intros (x & E & [_ Hx]%elem_of_select)%elem_of_map. bools. done.
  - unfold history. simpl. rewrite select_select; [done|]. intros v Hv. bools. congruence.
Qed.
End system.

Lemma select_target_reads `{Platform} d : sat eq (select_target d).
Proof. unfold select_target, select_memory. sat_auto. Qed.

(** The candidate of a decision that was carried out has its decision. *)
Definition decided (candidate_id : string) (s : store) : Prop :=
  ∃ r, r ∈ memory_decisions s ∧ d_candidate_id (dr_decision r) = candidate_id
    ∧ dr_status r ∈ ["applied"; "pending_review"].

Lemma prior_decision_decided candidate_id s : decided candidate_id s ↔ ∃ r, prior_decision candidate_id s = Some r.
Proof.
  unfold prior_decision. split.
  - intros (r & Hr & Hid & Hst).
    destruct (sort_by _ _) as [|x l] eqn:E; [|by eexists]. exfalso.
    apply (not_elem_of_nil r). rewrite <- E. apply elem_of_sort_by, elem_of_select. by bools.
  - intros (r & E%head_Some_elem_of). apply elem_of_sort_by, elem_of_select in E as [Hr Hp]. bools.
    by exists r.
Qed.

Lemma readjudicated_candidate `{Platform, TextRules} c d target :
  d_candidate_id (readjudicated c d target) = d_candidate_id d.
Proof. unfold readjudicated. by repeat case_match. Qed.

Lemma carry_out_decided `{Platform, TextRules} space_id note_id c d merged_content target now s r s' :
  carry_out space_id note_id c d merged_content target now s = Ok (r, s') → decided (d_candidate_id d) s'.
Proof.
  unfold carry_out. intros ([] & s1 & _ & E)%bind_Ok. apply bind_Ok in E as ([ids r1] & s2 & _ & E).
  apply bind_Ok in E as ([] & s3 & E & [= _ <-]). revert E. unfold insert_decision_row.
  case_match; [done|]. intros [= <-]. eexists. split; [apply elem_of_app; right; by left|].
  split; [apply readjudicated_candidate|]. simpl. case_match; set_solver.
Qed.

Lemma transaction_result {S A} (m : M S A) s r s' :
  transaction m s = (Ok r, s') → m s = Ok (r, s').
Proof. unfold transaction. destruct (m s) as [[??]|]; [|done]. by intros [= -> ->]. Qed.

Lemma apply_memory_decision_Ok `{Platform, TextRules} space_id note_id c d merged_content now s r s' :
  apply_memory_decision space_id note_id c d merged_content now s = (Ok r, s') →
  apply_in_session space_id note_id c d merged_content now s = Ok (r, s').
Proof.
  unfold apply_memory_decision. destruct (transaction _ s) as [[x|e] s1] eqn:E; [|by case_match].
  intros [= -> ->]. by apply transaction_result in E.
Qed.

Lemma approve_branch_other `{Platform, TextRules} pending d target notes note now s :
  d_relation d ∉ ["new"; "merge"; "update_task"; "supersede"; "conflict"] →
  ∃ msg, approve_branch pending d target notes note now s = Raise (ValueError msg).
Proof.
  intros Hr. rewrite !not_elem_of_cons in Hr. destruct Hr as (H1 & H2 & H3 & H4 & H5 & _).
  apply String.eqb_neq in H1, H2, H3, H4, H5. unfold approve_branch. rewrite H1, H2, H3, H4, H5.
  destruct target; by eexists.
Qed.

Lemma review_target_result `{Platform} d s :
  (∃ msg, review_target d s = Raise (ValueError msg)) ∨ ∃ o, review_target d s = Ok (o, s).
Proof.
  unfold review_target. destruct (d_target_memory_ids d) as [|t ts]; [right; by eexists|].
  case_match; [right; by eexists|]. unfold select_memory, mbind, M_bind, gets.
  case_match; [right|left]; by eexists.
Qed.

Lemma infer_task_status_values text r : infer_task_status text = Some r → r ∈ TASK_STATUSES.
Proof. unfold infer_task_status, TASK_STATUSES. repeat case_match; intros [= <-] || done; set_solver. Qed.

Lemma validate_task_status_values `{Platform} value r : validate_task_status value = Ok (Some r) → r ∈ TASK_STATUSES.
Proof.
  unfold validate_task_status. destruct value; [|done]. case_match eqn:E; [|done].
  intros [= <-]. by apply py_in_true in E.
Qed.

Lemma corrected_status_done requested content resolved :
  (∀ r, requested = Some r → r ∈ TASK_STATUSES) → any_in REOPEN_MARKERS content = false →
  corrected_status (Some "done") requested content = Ok resolved → resolved = Some "done".
Proof.
  intros Hreq Hno. unfold corrected_status. rewrite Hno.
  set (resolved' := match requested with Some _ => _ | None => _ end).
  assert (∀ r, resolved' = Some r → r ∈ TASK_STATUSES) as Hv.
  { intros r. unfold resolved'. destruct requested as [q|]; [by apply Hreq|].
    destruct (infer_task_status content) eqn:Ei; intros [= <-]; [by apply infer_task_status_values in Ei|set_solver]. }
  destruct resolved' as [q|] eqn:Eq.
  - specialize (Hv q eq_refl). unfold TASK_STATUSES in Hv.
    repeat (apply elem_of_cons in Hv as [->|Hv]); [done|by intros [= <-]|by apply not_elem_of_nil in Hv].
  - unfold resolved' in Eq. destruct requested; [done|]. by case_match.
Qed.

Lemma update_memory_rows `{Platform, TextRules} memory_id e reason note now s r s' :
  update_memory memory_id e reason note now s = (Ok r, s') → is_Some (get_memory memory_id s) →
  ∃ row, memories s' = update_where (λ m, String.eqb (mm_id m) memory_id) (edited_row row e now) (memories s).
Proof.
  unfold update_memory, mbind, IO_bind, io_gets, get_memory. intros E Hfound.
  destruct (transaction _ s) as [[b|e1] s1] eqn:Et; [|done].
  assert (s1 = s') as -> by (destruct b; by injection E). clear E.
  apply transaction_result in Et. unfold update_in_session, select_memory in Et.
  apply bind_Ok in Et as (o & s2 & [= <- <-] & E).
  destruct (List.find _ (memories s)) as [row|]; [|by destruct Hfound]. exists row.
  case_match; [done|]. apply bind_Ok in E as ([] & s3 & (E3 & _)%update_memories_effect & E).
  apply bind_Ok in E as ([] & s4 & (E4 & _)%add_version_effect & [= _ <-]). by rewrite E4, E3.
Qed.

(** A memory that is settled is not found for a review. *)
Lemma settled_not_pending id s : settled id s →
  List.find (λ m, String.eqb (mm_id m) id && String.eqb (mm_status m) "pending_review") (memories s) = None.
Proof.
  intros (m & <- & Hm & Hs & _ & Hin).
  destruct (List.find _ _) as [x|] eqn:E; [|done]. exfalso. apply List.find_some in E as [Hx Hp]. bools.
  destruct Hp as [Hid Hst]. apply Hm. rewrite <- Hst. f_equal. symmetry.
  apply (key_unique mm_id (memories s)); [apply Hs|by apply list_elem_of_In|apply Hin; by left|done].
Qed.

(** * The properties *)

Section properties.
Context `{Platform, TextRules}.


(** A call never changes or drops a version that was written: it extends the history of a memory, or it removes the memory with its whole history. *)
Theorem history_is_append_only s s' id :
  store_step s s' →
  history id s `prefix_of` history id s' ∨ history id s' = [] ∧ id ∉ map mm_id (memories s').
Proof.
  intros [[memory_id ->]|[k E]]%store_step_extends; [apply purge_history|left].
  unfold history, select_where. rewrite E, List.filter_app. by apply prefix_app_r.
Qed.

(** C10: A decision on a target that has changed since the decision was made leaves content, status, task status and version of the target alone, and unless the target already says what the candidate says, the candidate is put up for review. *)
Theorem stale_decision_never_overwrites space_id note_id c d merged_content now s r s' row :
  rtc store_step empty_store s →
  apply_memory_decision space_id note_id c d merged_content now s = (Ok r, s') →
  prior_decision (c_candidate_id c) s = None →
  row ∈ memories s → head (d_target_memory_ids d) = Some (mm_id row) → mm_id row ≠ "" →
  is_stale_snapshot d row = true →
  (∃ row', row' ∈ memories s' ∧ kept row row')
  ∧ (same_state c row = false → up_for_review c (ap_memory_id r) s').
Proof.
  intros Hs%reachable_sound Happly Hprior Hrow Hhead Hne Hstale.
  unfold apply_memory_decision, transaction in Happly.
  destruct (apply_in_session _ _ _ _ _ _ s) as [[r1 s1]|e] eqn:E; [|by case_match].
  injection Happly as -> ->. unfold apply_in_session in E.
  apply bind_Ok in E as (prior & s2 & [= <- <-] & E). rewrite Hprior in E.
  apply bind_Ok in E as (target & s3 & E1 & E).
  destruct (select_target_good d _ _ _ Hs E1) as [Hg Ht].
  destruct (Ht _ Hhead Hne) as (m & -> & Hid).
  apply select_target_reads in E1 as <-.
  assert (m = row) as ->.
  { apply (key_unique mm_id (memories s)); [apply Hs|apply Hg; by left|done|done]. }
  destruct (carry_out_good _ _ _ _ _ _ _ Ht _ _ _ Hg E) as [_ Hk].
  destruct (Hk row eq_refl Hstale) as [[_ Hkept] Hrev]. by split.
Qed.
(** A decision on a candidate is carried out once: whatever decision on it is applied after one has succeeded, the call reports the earlier one as repeated, and changes nothing. *)
Theorem candidate_is_decided_once space_id note_id c d merged_content now s r s'
    space_id' note_id' c' d' merged_content' now' :
  apply_memory_decision space_id note_id c d merged_content now s = (Ok r, s') →
  c_candidate_id c = d_candidate_id d → c_candidate_id c' = c_candidate_id c →
  ∃ r', apply_memory_decision space_id' note_id' c' d' merged_content' now' s' = (Ok r', s')
    ∧ ap_idempotent r' = true.
Proof.
  intros E%apply_memory_decision_Ok Hid Hid'.
  assert (decided (c_candidate_id c) s') as [p Hp]%prior_decision_decided.
  { unfold apply_in_session in E. apply bind_Ok in E as (prior & s1 & [= <- <-] & E).
    destruct (prior_decision (c_candidate_id c) s) as [p|] eqn:Ep.
    - injection E as _ <-. apply prior_decision_decided. eauto.
    - apply bind_Ok in E as (target & s2 & _ & E). rewrite Hid. by eapply carry_out_decided. }
  exists (replay (c_candidate_id c') p). split; [|done].
  unfold apply_memory_decision, transaction, apply_in_session, mbind, M_bind, gets.
  by rewrite Hid', Hp.
Qed.

(** A decision that cannot be carried out leaves memories, versions, sources and relations as they were; unless it lost against a newer version of a card, the failure is on record. *)
Theorem failed_decision_changes_no_memory space_id note_id c d merged_content now s e s' :
  apply_memory_decision space_id note_id c d merged_content now s = (Raise e, s') →
  d_recommended_action d ∈ DECISION_ACTIONS →
  memories s' = memories s ∧ memory_versions s' = memory_versions s
  ∧ memory_sources s' = memory_sources s ∧ memory_relations s' = memory_relations s
  ∧ (exn_type e ∉ ["CardVersionConflict"; "TaskVersionConflict"] →
     ∃ r, r ∈ memory_decisions s' ∧ dr_decision r = d ∧ dr_status r = "failed" ∧ dr_error r = Some (exn_type e)).
Proof.
  unfold apply_memory_decision, transaction. intros E Ha.
  destruct (apply_in_session _ _ _ _ _ _ s) as [[r s1]|e1]; [done|].
  destruct (py_in (exn_type e1) _) eqn:Ec; bools; [by injection E as -> ->; split_and!|].
  revert E. unfold insert_decision_row. apply py_in_true in Ha. rewrite Ha. simpl. intros [= -> <-].
  split_and!; try done. intros _. eexists. split; [apply elem_of_app; right; by left|done].
Qed.

(** A review is decided once: after a pending memory was approved, a second approval finds nothing to review and changes nothing. *)
Theorem review_is_decided_once s memory_id now m s' now' :
  rtc store_step empty_store s →
  approve_pending_memory memory_id now s = (Ok (Some m), s') →
  approve_pending_memory memory_id now' s' = (Ok None, s').
Proof.
  intros Hs%reachable_sound E. unfold approve_pending_memory, mbind, IO_bind in E.
  destruct (transaction _ s) as [[[id|]|e] s1] eqn:Et; [|done..]. injection E as _ <-.
  apply transaction_result in Et.
  destruct (approve_in_session_good memory_id now s (Some id) s1 Hs Et) as [_ Hset].
  unfold approve_pending_memory, transaction, approve_in_session, mbind, IO_bind, M_bind, gets.
  by rewrite (settled_not_pending _ _ (Hset ltac:(done))).
Qed.

(** A pending memory whose decision has a relation other than new, merge, update_task, supersede and conflict cannot be approved: the call raises ValueError and changes nothing. *)
Theorem other_relations_cannot_be_approved s memory_id now pending dr :
  pending ∈ memories s → mm_id pending = memory_id → mm_status pending = "pending_review" →
  pending_decision memory_id s = Some dr →
  d_relation (dr_decision dr) ∉ ["new"; "merge"; "update_task"; "supersede"; "conflict"] →
  ∃ msg, approve_pending_memory memory_id now s = (Raise (ValueError msg), s).
Proof.
  intros Hin Hid Hst Hdr Hr.
  assert (∃ msg, approve_in_session memory_id now s = Raise (ValueError msg)) as [msg E].
  { unfold approve_in_session, mbind, M_bind, gets.
    destruct (List.find _ (memories s)) as [row|] eqn:Ef.
    - rewrite Hdr. destruct (review_target_result (dr_decision dr) s) as [[msg ->]|[o ->]]; [by eexists|].
      destruct (approve_branch_other row (dr_decision dr) o
        (map so_note_id (select_where (λ r, String.eqb (so_memory_id r) memory_id) (memory_sources s)))
        (default (dr_note_id dr) (head (map so_note_id
          (select_where (λ r, String.eqb (so_memory_id r) memory_id) (memory_sources s))))) now s Hr) as [msg ->].
      by eexists.
    - apply list_elem_of_In, (List.find_none _ _ Ef) in Hin. bools. tauto. }
  exists msg. unfold approve_pending_memory, transaction, mbind, IO_bind. by rewrite E.
Qed.

(** Correcting a task that is done does not reopen it unless the new text says so explicitly. *)
Theorem reopening_needs_wording s memory_id m content requested reason now r s' :
  get_memory memory_id s = Some m → mm_memory_type m = "task" → mm_task_status m = Some "done" →
  correct_memory memory_id content requested reason now s = (Ok r, s') →
  any_in REOPEN_MARKERS content = false →
  ∀ row, row ∈ memories s' → mm_id row = memory_id → mm_task_status row = Some "done".
Proof.
  intros Hm Htype Hdone E Hno row Hrow Hid. unfold correct_memory, io_gets, io_lift, mbind, IO_bind in E.
  rewrite Hm, Htype, Hdone in E. simpl in E.
  destruct (validate_task_status requested) as [q|] eqn:Eq; [|done].
  destruct (corrected_status (Some "done") q content) as [resolved|] eqn:Er; [|done].
  apply corrected_status_done in Er as ->; [|intros ? ->; by eapply validate_task_status_values|done].
  apply update_memory_rows in E as (old & E); [|by eexists].
  rewrite E in Hrow. apply elem_of_update in Hrow as (x & _ & ->).
  case_match eqn:Ex; [done|]. bools. done.
Qed.
End properties.

(** * Concrete runs *)

Module Example.
#[local] Existing Instance test_platform.
#[local] Existing Instance test_rules.

Definition tea (id content : string) : candidate :=
  Candidate id "preference" content (1 # 2) (1 # 2) None None None (Some content) None None None "v1" None "personal".
Definition report (id content status : string) : candidate :=
  Candidate id "task" content (1 # 2) (1 # 2) (Some status) None None None None None None "v1" None "personal".
Definition decide_on (c : candidate) (id relation action : string) (targets : list string)
    (snapshot : option Z) : decision :=
  Decision id (c_candidate_id c) relation targets (9 # 10) "reason" action snapshot.

Definition nothing : memory :=
  Memory "" "" "" "" "" 0 0 "" None None None None None "" None "" None None None "" "" None 0 0.
Definition first (s : store) : memory := default nothing (head (memories s)).
Lemma first_in s : memories s ≠ [] → first s ∈ memories s.
Proof. unfold first. destruct (memories s); [done|]. by left. Qed.
Definition first_id (s : store) : string := mm_id (first s).
Definition value {A} (d : A) (r : result A) : A := match r with Ok a => a | Raise _ => d end.
Definition no_result : applied := Applied "" "" "" false None None None [].
Definition insert_one (c : candidate) (s : store) : store :=
  (apply_memory_decision "space" "note-1" c (decide_on c "dec-1" "new" "insert" [] None) None "2024-01-01" s).2.
Definition pend (c : candidate) (relation : string) (targets : list string) (s : store) : store :=
  (apply_memory_decision "space" "note-2" c (decide_on c "dec-2" relation "pending_review" targets None) None
     "2024-01-02" s).2.

(** A memory that was changed once. *)
Definition stored : store := insert_one (tea "cand-1" "green tea") empty_store.
Definition changed : store :=
  (update_memory (first_id stored) (content_edit "black tea" "active" None) None None "2024-01-02" stored).2.
(** A pending memory, new or without a known task. *)
Definition pending_new : store := pend (tea "cand-2" "oat milk") "new" [] empty_store.
Definition orphan : store := pend (report "cand-3" "report sent" "done") "orphan_completion" [] empty_store.
(** A task that is done. *)
Definition finished : store := insert_one (report "cand-4" "report sent" "done") empty_store.

Lemma stored_reachable : rtc store_step empty_store stored.
Proof. eapply rtc_once, StepApply. Qed.
Lemma changed_reachable : rtc store_step empty_store changed.
Proof. eapply rtc_r; [apply stored_reachable|apply StepUpdate]. Qed.
Lemma pending_reachable : rtc store_step empty_store pending_new.
Proof. eapply rtc_once, StepApply. Qed.


Lemma history_is_append_only_witness : let id := first_id stored in
  history id stored `prefix_of` history id changed ∨ history id changed = [] ∧ id ∉ map mm_id (memories changed).
Proof. apply (history_is_append_only stored changed). apply StepUpdate. Defined.

Definition coffee : candidate := tea "cand-5" "coffee".
Definition stale : decision := decide_on coffee "dec-5" "supersede" "supersede" [first_id stored] (Some 1).
Definition stale_run : result applied * store :=
  apply_memory_decision "space" "note-5" coffee stale None "2024-01-05" changed.
Lemma stale_decision_never_overwrites_witness :
  (∃ row', row' ∈ memories stale_run.2 ∧ kept (first changed) row')
  ∧ (same_state coffee (first changed) = false →
     up_for_review coffee (ap_memory_id (value no_result stale_run.1)) stale_run.2).
Proof.
  apply (stale_decision_never_overwrites "space" "note-5" coffee stale None "2024-01-05" changed).
  - apply changed_reachable.
  - vm_compute; reflexivity.
  - vm_compute; reflexivity.
  - apply first_in; vm_compute; discriminate.
  - vm_compute; reflexivity.
  - vm_compute; discriminate.
  - vm_compute; reflexivity.
Defined.

Definition first_run : result applied * store :=
  apply_memory_decision "space" "note-1" (tea "cand-1" "green tea")
    (decide_on (tea "cand-1" "green tea") "dec-1" "new" "insert" [] None) None "2024-01-01" empty_store.
Lemma candidate_is_decided_once_witness : ∃ r',
  apply_memory_decision "space" "note-9" (tea "cand-1" "white tea")
    (decide_on (tea "cand-1" "white tea") "dec-9" "new" "insert" [] None) None "2024-01-09" first_run.2
  = (Ok r', first_run.2) ∧ ap_idempotent r' = true.
Proof.
  apply (candidate_is_decided_once "space" "note-1" (tea "cand-1" "green tea")
    (decide_on (tea "cand-1" "green tea") "dec-1" "new" "insert" [] None) None "2024-01-01" empty_store
    (value no_result first_run.1)); [vm_compute; reflexivity|reflexivity|reflexivity].
Defined.

Definition lost : decision := decide_on coffee "dec-6" "merge" "merge" ["mem_unknown"] None.
Definition lost_run : result applied * store :=
  apply_memory_decision "space" "note-6" coffee lost None "2024-01-06" stored.
Lemma failed_decision_changes_no_memory_witness :
  memories lost_run.2 = memories stored ∧ ∃ r, r ∈ memory_decisions lost_run.2 ∧ dr_status r = "failed".
Proof.
  destruct (failed_decision_changes_no_memory "space" "note-6" coffee lost None "2024-01-06" stored
      (ValueError "decision target memory not found: mem_unknown") lost_run.2)
    as (Hm & _ & _ & _ & Hr); [vm_compute; reflexivity|apply py_in_true; reflexivity|].
  split; [exact Hm|]. destruct Hr as (r & Hr & _ & Hst & _); [apply py_in_false; reflexivity|].
  exists r. split; [exact Hr|exact Hst].
Defined.

Definition review : result (option memory) * store :=
  approve_pending_memory (first_id pending_new) "2024-01-03" pending_new.
Lemma review_is_decided_once_witness :
  approve_pending_memory (first_id pending_new) "2024-01-04" review.2 = (Ok None, review.2).
Proof.
  apply (review_is_decided_once pending_new (first_id pending_new) "2024-01-03"
    (default nothing (value None review.1))); [apply pending_reachable|vm_compute; reflexivity].
Defined.

Lemma other_relations_cannot_be_approved_witness :
  ∃ msg, approve_pending_memory (first_id orphan) "2024-01-03" orphan = (Raise (ValueError msg), orphan).
Proof.
  apply (other_relations_cannot_be_approved orphan (first_id orphan) "2024-01-03" (first orphan)
    (default (DecisionRow stale "" "" "" [] None "" None) (pending_decision (first_id orphan) orphan))).
  - apply first_in; vm_compute; discriminate.
  - reflexivity.
  - vm_compute; reflexivity.
  - vm_compute; reflexivity.
  - apply py_in_false; vm_compute; reflexivity.
Defined.

(** An approval does not look at the status of its target: what was approved ends up in a
    deleted memory. *)
Definition oat : candidate := tea "cand-7" "green tea with oat milk".
Definition pending_merge : store :=
  (apply_memory_decision "space" "note-7" oat
     (decide_on oat "dec-7" "merge" "pending_review" [first_id stored] (Some 1)) None "2024-01-03" stored).2.
Definition deleted_target : store := (soft_delete_memory (first_id stored) "user_forget" "2024-01-04" pending_merge).2.
Definition pending_id : string := default "" (option_map mm_id (last (memories deleted_target))).
Definition approved_late : store := (approve_pending_memory pending_id "2024-01-05" deleted_target).2.
Example approved_into_deleted :
  map (λ m, (mm_content m, mm_status m)) (memories approved_late)
  = [("green tea with oat milk", "deleted"); ("green tea with oat milk", "archived")].
Proof. vm_compute. reflexivity. Qed.

Definition correction : result (option memory) * store :=
  correct_memory (first_id finished) "sent the report" None "fix" "2024-01-03" finished.
Lemma reopening_needs_wording_witness :
  ∀ row, row ∈ memories correction.2 → mm_id row = first_id finished → mm_task_status row = Some "done".
Proof.
  apply (reopening_needs_wording finished (first_id finished) (first finished) "sent the report" None "fix"
    "2024-01-03" (value None correction.1)); vm_compute; reflexivity.
Defined.
End Example.
