(* ===== verification/Classifier.v ===== *)
(** The types and tags of notes ([core/taxonomy.py]) and the classification of a note
    ([core/classifier.py]): by a model, whose reply is a parameter and is normalised, or by
    markers in the text. *)

From stdpp Require Import base list strings.
From Stdlib Require Import ZArith Lia.
From S2P Require Import Prelude Consistency TextChunks.

Open Scope string_scope.

(** * The taxonomy *)

Definition NOTE_TYPES : list string := ["任务"; "学习"; "灵感"; "资料"; "生活"; "情绪"].
Definition GLOBAL_TAGS : list string :=
  ["重要"; "待处理"; "计划"; "复盘"; "问题"; "决定"; "提醒"; "想法"; "总结"; "长期"; "短期"; "待确认"].
Definition TYPE_TAGS : list (string * list string) :=
  [("任务", ["待办"; "进行中"; "已完成"; "优先级"; "截止时间"; "阻塞"; "跟进"; "安排"; "协作"; "检查"]);
   ("学习", ["概念"; "方法"; "笔记"; "课程"; "书籍"; "论文"; "练习"; "疑问"; "总结"; "知识点"]);
   ("灵感", ["创意"; "观察"; "设计"; "写作"; "产品想法"; "改进"; "灵光一闪"; "素材"; "可能性"]);
   ("资料", ["链接"; "文档"; "收藏"; "引用"; "清单"; "工具"; "教程"; "数据"; "案例"; "备查"]);
   ("生活", ["饮食"; "运动"; "睡眠"; "健康"; "出行"; "消费"; "家务"; "社交"; "娱乐"; "日常"]);
   ("情绪", ["开心"; "焦虑"; "压力"; "疲惫"; "低落"; "期待"; "烦躁"; "平静"; "感激"; "困惑"])].
Definition type_tags (note_type : string) : list string :=
  match List.find (λ e, String.eqb e.1 note_type) TYPE_TAGS with Some e => e.2 | None => [] end.
Definition ALL_TAGS : list string := (GLOBAL_TAGS ++ mjoin (map snd TYPE_TAGS))%list.
Definition allowed_tags_for_type (note_type : string) : list string := (type_tags note_type ++ GLOBAL_TAGS)%list.

(** [s.lstrip("#")] *)
Fixpoint lstrip_hash (s : string) : string :=
  match s with
  | String c rest => if Ascii.eqb c (Ascii.ascii_of_N 35) then lstrip_hash rest else s
  | EmptyString => s
  end.
Definition is_valid_type (value : string) : bool := py_in (py_strip value) NOTE_TYPES.
Definition is_valid_tag (value : string) : bool := py_in (lstrip_hash (py_strip value)) ALL_TAGS.
Definition normalize_type (value : string) : string :=
  let note_type := py_strip value in if py_in note_type NOTE_TYPES then note_type else "资料".
Definition normalize_tag (value : string) : string := lstrip_hash (py_strip value).

(** The first loop of [normalize_tags], which returns at five tags *)
Fixpoint keep_tags (note_type : string) (raw_tags result : list string) : list string :=
  match raw_tags with
  | [] => result
  | item :: raw_tags =>
      let tag := normalize_tag item in
      if negb (py_in tag (allowed_tags_for_type note_type)) || String.eqb tag note_type || py_in tag result
      then keep_tags note_type raw_tags result
      else
        let result := (result ++ [tag])%list in
        if (5 <=? length result)%nat then result else keep_tags note_type raw_tags result
  end.
(** The second one, up to two tags *)
Fixpoint fill_tags (note_type : string) (tags result : list string) : list string :=
  match tags with
  | [] => result
  | tag :: tags =>
      if (2 <=? length result)%nat then result
      else if py_in tag result || String.eqb tag note_type then fill_tags note_type tags result
      else fill_tags note_type tags (result ++ [tag])%list
  end.
(** [raw_tags] is [None] when it is not a list. *)
Definition normalize_tags (raw_tags : option (list string)) (note_type : string) : list string :=
  let result := keep_tags note_type (default [] raw_tags) [] in
  if (5 <=? length result)%nat then result else take 5 (fill_tags note_type (allowed_tags_for_type note_type) result).

(** * The classification *)

(** [NoteClassification] *)
Record classification := Classification { cl_title : string; cl_tags : list string; cl_type : string; cl_summary : string }.

(** The JSON object that the model replies: a missing title or summary is an error. *)
Record classification_reply := ClassificationReply {
  re_title : option string;
  re_tags : option (list string);
  re_type : string;
  re_summary : option string;
}.
Class ClassifierModel := { complete_classification : string → result classification_reply }.

Section classifier.
Context `{Platform}.

Definition normalize_classification_data (data : classification_reply) : classification_reply :=
  let note_type := normalize_type (re_type data) in
  ClassificationReply (re_title data) (Some (normalize_tags (re_tags data) note_type)) note_type (re_summary data).

Definition classify_text `{ClassifierModel} (text : string) : result classification :=
  match complete_classification text with
  | Raise e => Raise e
  | Ok data =>
      let data := normalize_classification_data data in
      match re_title data, re_tags data, re_summary data with
      | Some title, Some tags, Some summary => Ok (Classification title tags (re_type data) summary)
      | _, _, _ => Raise (OtherError "ValidationError" "NoteClassification")
      end
  end.

Definition mentions (markers : list string) (text : string) : bool := existsb (λ m, str_contains m text) markers.

(** [value.split(mark, 1)[0]] *)
Definition before_mark (mark text : string) : string :=
  join ((fix go (l : list string) := match l with
    | c :: l => if String.eqb c mark then [] else c :: go l
    | [] => []
    end) (chars text)).
(** [s.strip(members)] *)
Definition strip_members (members : list string) (text : string) : string :=
  let fix drop_front (l : list string) := match l with
    | c :: l' => if py_in c members then drop_front l' else l
    | [] => []
    end in
  join (rev (drop_front (rev (drop_front (chars text))))).

(** The type and the tags that the markers suggest *)
Definition suggested (value : string) : string * list string :=
  let lowered := str_casefold value in
  if mentions ["记得"; "待办"; "todo"; "需要"; "提醒"; "计划"; "跟进"; "截止"; "完成"; "修复"; "实现"] lowered
  then ("任务", ["待办"; "提醒"])
  else if mentions ["焦虑"; "压力"; "疲惫"; "低落"; "开心"; "烦躁"; "平静"; "感激"; "情绪"] value
  then ("情绪", [match List.find (λ tag, str_contains tag value) (type_tags "情绪") with Some tag => tag | None => "困惑" end; "日常"])
  else if mentions ["学习"; "课程"; "书"; "论文"; "练习"; "知识"; "研究"; "教程"] lowered
  then ("学习", ["笔记"; "知识点"])
  else if mentions ["灵感"; "创意"; "想法"; "设计"; "可以做"; "改进"] value
  then ("灵感", ["创意"; "想法"])
  else if str_contains "http://" lowered || str_contains "https://" lowered
          || mentions ["链接"; "文档"; "收藏"; "备查"; "资料"] value
  then ("资料", ["备查"; "收藏"])
  else ("生活",
    if mentions ["吃"; "喝"; "咖啡"; "茶"; "水果"; "餐"] value then ["饮食"; "日常"]
    else if mentions ["跑步"; "健身"; "运动"; "游泳"; "骑行"] value then ["运动"; "日常"]
    else ["日常"; "长期"]).

Definition classify_text_local (text : string) : classification :=
  let value := py_strip (join_words (py_split text)) in
  let '(note_type, tags) := suggested value in
  let title_source := strip_members [" "; "，"; ","; "；"; ";"] (before_mark "？" (before_mark "！" (before_mark "。" value))) in
  Classification (str_or (str_take 20 title_source) "随手记录") (normalize_tags (Some tags) note_type) note_type
    (str_or (str_take 120 value) "一条随手记录。").
End classifier.

(** * What a classification promises *)

(** Two to five different tags that the type allows *)
Definition proper (c : classification) : Prop :=
  cl_type c ∈ NOTE_TYPES ∧ (2 ≤ length (cl_tags c) ≤ 5)%nat ∧ NoDup (cl_tags c)
  ∧ Forall (λ t, t ∈ allowed_tags_for_type (cl_type c)) (cl_tags c).

(** What the loops keep: different tags that are allowed, at most five *)
Definition partial_tags (note_type : string) (ts : list string) : Prop :=
  (length ts ≤ 5)%nat ∧ NoDup ts ∧ Forall (λ t, t ∈ allowed_tags_for_type note_type ∧ t ≠ note_type) ts.

Lemma partial_snoc note_type ts t : partial_tags note_type ts → (length ts < 5)%nat →
  t ∈ allowed_tags_for_type note_type → t ≠ note_type → t ∉ ts → partial_tags note_type (ts ++ [t]).
Proof.
  intros (_ & Hnd & Hall) Hlen Hin Hne Hfresh. unfold partial_tags. rewrite length_app. simpl. split_and!; [lia| |].
  - apply NoDup_app. split_and!; [done| |apply NoDup_singleton]. intros x Hx ->%list_elem_of_singleton. done.
  - apply Forall_app. by repeat constructor.
Qed.

Lemma keep_tags_partial note_type raw : ∀ ts, partial_tags note_type ts → (length ts < 5)%nat →
  partial_tags note_type (keep_tags note_type raw ts).
Proof.
  induction raw as [|item raw IH]; intros ts Hts Hlen; cbn [keep_tags]; [done|].
  destruct (_ || _ || _) eqn:E; [by apply IH|]. rewrite !orb_false_iff, negb_false_iff in E. destruct E as [[Ha Hne] Hf].
  apply py_in_true in Ha. apply String.eqb_neq in Hne. apply py_in_false in Hf.
  assert (partial_tags note_type (ts ++ [normalize_tag item])) as Hp by (by apply partial_snoc).
  destruct (5 <=? _)%nat eqn:E5; [done|]. apply IH; [done|]. apply Nat.leb_gt in E5. lia.
Qed.

Lemma fill_tags_spec note_type tags : ∀ ts, partial_tags note_type ts → (length ts < 5)%nat →
  Forall (λ t, t ∈ allowed_tags_for_type note_type) tags →
  partial_tags note_type (fill_tags note_type tags ts) ∧ ts ⊆ fill_tags note_type tags ts
  ∧ ((length (fill_tags note_type tags ts) < 2)%nat → ∀ t, t ∈ tags → t ≠ note_type → t ∈ fill_tags note_type tags ts).
Proof.
  induction tags as [|t tags IH]; intros ts Hts Hlen Hall; cbn [fill_tags].
  { split_and!; [done|done|]. by intros _ t ?%elem_of_nil. }
  destruct (2 <=? length ts)%nat eqn:E2; [apply Nat.leb_le in E2; split_and!; [done|done|lia]|].
  inversion_clear Hall as [|?? Ht Hall']. destruct (py_in t ts || String.eqb t note_type) eqn:Et.
  - destruct (IH ts Hts Hlen Hall') as (Hp & Hsub & Hn). split_and!; [done|done|].
    intros H2 x [->|Hx]%elem_of_cons Hne; [|by apply Hn]. apply orb_true_iff in Et as [Et|Et].
    + apply Hsub. by apply py_in_true.
    + by apply String.eqb_eq in Et.
  - apply orb_false_iff in Et as [Et%py_in_false Hne%String.eqb_neq].
    destruct (IH (ts ++ [t])%list) as (Hp & Hsub & Hn); [by apply partial_snoc| |done|].
    { rewrite length_app. simpl. apply Nat.leb_gt in E2. lia. }
    split_and!; [done|by intros x Hx; apply Hsub, elem_of_app; left|].
    intros H2 x [->|Hx]%elem_of_cons Hx'; [|by apply Hn]. apply Hsub, elem_of_app. right. by left.
Qed.

(** Every type has two tags of its own. *)
Lemma two_tags note_type : note_type ∈ NOTE_TYPES → ∃ a b, a ≠ b ∧ a ≠ note_type ∧ b ≠ note_type
  ∧ a ∈ allowed_tags_for_type note_type ∧ b ∈ allowed_tags_for_type note_type.
Proof.
  assert (∀ t l, take 2 l = take 2 (allowed_tags_for_type t) → ∀ a b, take 2 l = [a; b] → a ≠ b → a ≠ t → b ≠ t →
    ∃ a b, a ≠ b ∧ a ≠ t ∧ b ≠ t ∧ a ∈ allowed_tags_for_type t ∧ b ∈ allowed_tags_for_type t) as Hl.
  { intros t l El a b Eab. exists a, b. rewrite Eab in El. split_and!; try done; apply (in_take _ 2); rewrite <- El; [by left|right; by left]. }
  intros Ht. repeat (apply elem_of_cons in Ht as [->|Ht]; [by eapply Hl; [reflexivity|vm_compute; reflexivity|..]|]).
  by apply elem_of_nil in Ht.
Qed.

Lemma normalize_tags_proper raw note_type : note_type ∈ NOTE_TYPES →
  let ts := normalize_tags raw note_type in
  (2 ≤ length ts ≤ 5)%nat ∧ NoDup ts ∧ Forall (λ t, t ∈ allowed_tags_for_type note_type) ts.
Proof.
  intros Ht. unfold normalize_tags.
  assert (partial_tags note_type (keep_tags note_type (default [] raw) [])) as Hk.
  { apply keep_tags_partial; [|simpl; lia]. split_and!; [simpl; lia|constructor|constructor]. }
  destruct (5 <=? _)%nat eqn:E5.
  - apply Nat.leb_le in E5. destruct Hk as (H1 & H2 & H3). split_and!; [lia|lia|done|].
    eapply Forall_impl; [exact H3|]. by intros x [? _].
  - apply Nat.leb_gt in E5.
    destruct (fill_tags_spec note_type (allowed_tags_for_type note_type) _ Hk E5) as ((H1 & H2 & H3) & _ & Hn); [by apply Forall_forall|].
    rewrite take_ge by done. split_and!; [|done|done|eapply Forall_impl; [exact H3|]; by intros x [? _]].
    apply Nat.nlt_ge. intros Hlt. destruct (two_tags note_type Ht) as (a & b & Hab & Ha & Hb & Hain & Hbin).
    pose proof (Hn Hlt a Hain Ha) as Ia. pose proof (Hn Hlt b Hbin Hb) as Ib.
    destruct (fill_tags _ _ _) as [|x [|y l]]; [by apply elem_of_nil in Ia| |simpl in Hlt; lia].
    apply list_elem_of_singleton in Ia, Ib. congruence.
Qed.

Section properties.
Context `{Platform}.

Lemma suggested_type value : (suggested value).1 ∈ NOTE_TYPES.
Proof. unfold suggested. repeat case_match; apply py_in_true; vm_compute; reflexivity. Qed.

(** Every classification, by the model - whatever it replies - or by the markers, has one of
    the types and two to five different tags that belong to it. *)
Theorem classifications_are_proper `{ClassifierModel} text :
  proper (classify_text_local text) ∧ ∀ c, classify_text text = Ok c → proper c.
Proof.
  split.
  - unfold classify_text_local. pose proof (suggested_type (py_strip (join_words (py_split text)))) as Ht.
    destruct (suggested _) as [note_type tags]. split; [exact Ht|]. by apply normalize_tags_proper.
  - intros c. unfold classify_text. destruct (complete_classification text) as [data|]; [|done].
    unfold normalize_classification_data. cbn [re_title re_tags re_summary re_type].
    assert (normalize_type (re_type data) ∈ NOTE_TYPES) as Ht.
    { unfold normalize_type. destruct (py_in _ _) eqn:E; [by apply py_in_true in E|]. apply py_in_true. by vm_compute. }
    repeat case_match; try done. intros [= <-]. split; [exact Ht|]. by apply normalize_tags_proper.
Qed.
End properties.

#[local] Existing Instance test_platform.
Example classified : classify_text_local "记得明天给小王打电话。很重要"
  = Classification "记得明天给小王打电话" ["待办"; "提醒"] "任务" "记得明天给小王打电话。很重要".
Proof. vm_compute. reflexivity. Qed.
