(* ===== verification/Notes.v ===== *)
(** The notes of a space: [storage/note_storage.py].  The interface [NoteStore] of a store with
    its contract [NoteLaws], and the store in local files, an index in JSON and a text in
    Markdown, as an instance; [NotesDb.v] is the store in the database.

    The index is the list of its entries.  An operation runs under the lock of its space, so it
    is one step.  The reading of ISO texts is a parameter. *)

From stdpp Require Import base list strings gmap pretty.
From Stdlib Require Import ZArith Lia.
From S2P Require Import Prelude Schema Consistency TextChunks Regex Sensitive Memory Wal.

Open Scope string_scope.
Open Scope Z_scope.

(** [NoteMetadata] *)
Record NoteMetadata := Note {
  nm_id : string;
  nm_message_id : string;
  nm_space_id : string;
  nm_ts : string;
  nm_title : string;
  nm_tags : list string;
  nm_type : string;
  nm_summary : string;
  nm_text : string;
  nm_related : list string;
  nm_enrichment_status : string;
  nm_enrichment_attempts : Z;
  nm_enrichment_error : option string;
  nm_enrichment_started_at : option string;
  nm_enrichment_updated_at : option string;
  nm_sensitivity : string;
  nm_tenant_id : string;
}.
#[export] Instance note_eta : Eta NoteMetadata := λ r,
  Note (nm_id r) (nm_message_id r) (nm_space_id r) (nm_ts r) (nm_title r) (nm_tags r) (nm_type r) (nm_summary r)
    (nm_text r) (nm_related r) (nm_enrichment_status r) (nm_enrichment_attempts r) (nm_enrichment_error r)
    (nm_enrichment_started_at r) (nm_enrichment_updated_at r) (nm_sensitivity r) (nm_tenant_id r).
#[export] Instance note_eq_dec : EqDecision NoteMetadata.
Proof. solve_decision. Defined.

(** The keyword arguments of [update_note_metadata]. *)
Inductive metadata :=
  | UTitle (v : string) | UTags (v : list string) | UType (v : string) | USummary (v : string) | URelated (v : list string)
  | UStatus (v : string) | UAttempts (v : Z) | UError (v : option string)
  | UStartedAt (v : option string) | UUpdatedAt (v : option string).

(** [item.update(updates)] *)
Definition set_metadata (n : NoteMetadata) (u : metadata) : NoteMetadata :=
  match u with
  | UTitle v => n <| nm_title := v |>
  | UTags v => n <| nm_tags := v |>
  | UType v => n <| nm_type := v |>
  | USummary v => n <| nm_summary := v |>
  | URelated v => n <| nm_related := v |>
  | UStatus v => n <| nm_enrichment_status := v |>
  | UAttempts v => n <| nm_enrichment_attempts := v |>
  | UError v => n <| nm_enrichment_error := v |>
  | UStartedAt v => n <| nm_enrichment_started_at := v |>
  | UUpdatedAt v => n <| nm_enrichment_updated_at := v |>
  end.
Definition with_metadata (us : list metadata) (n : NoteMetadata) : NoteMetadata := fold_left set_metadata us n.

Lemma with_metadata_keeps us n : let n' := with_metadata us n in
  nm_id n' = nm_id n ∧ nm_message_id n' = nm_message_id n ∧ nm_space_id n' = nm_space_id n ∧ nm_text n' = nm_text n
  ∧ nm_sensitivity n' = nm_sensitivity n.
Proof.
  unfold with_metadata. revert n. induction us as [|u us IH]; intros n; [done|]. simpl.
  destruct (IH (set_metadata n u)) as (-> & -> & -> & -> & ->). by destruct u.
Qed.

Section queryable.
Context `{Platform, Unicode}.

Definition is_note_queryable (n : NoteMetadata) : bool :=
  py_in (str_casefold (str_or (nm_sensitivity n) "normal")) [""; "normal"; "none"]
  && negb (Sensitive.contains_sensitive_data (nm_text n)).
End queryable.

(** * The interface *)

(** [notes_of space_id s] is the content of the store; [home n s] is the space under which a
    note is stored, [stored n s] how, and [kept u] what is kept of an update (of its times). *)
Class NoteStore (S : Type) := {
  notes_of : string → S → list NoteMetadata;
  same_space : string → string → bool;
  home : NoteMetadata → S → string;
  kept : metadata → metadata;
  stored : NoteMetadata → S → NoteMetadata;
  load_index : string → IO S (list NoteMetadata);
  find_note : string → string → IO S (option NoteMetadata);
  note_exists : string → string → IO S bool;
  save_note : NoteMetadata → IO S bool;
  update_note_metadata : string → string → list metadata → IO S (option NoteMetadata);
  list_pending_enrichments : Z → Z → IO S (list (string * string));
}.

Section contract.
Context {S : Type} `{NoteStore S}.

Definition has_message (message_id : string) (ns : list NoteMetadata) : bool :=
  existsb (λ n, String.eqb (nm_message_id n) message_id) ns.
Definition same_notes (s s' : S) : Prop := ∀ sid, notes_of sid s' = notes_of sid s.
(** The content of the space changes by [f], that of the other spaces does not. *)
Definition changes_notes (space_id : string) (f : list NoteMetadata → list NoteMetadata) (s s' : S) : Prop :=
  ∀ sid, notes_of sid s' = if same_space sid space_id then f (notes_of sid s) else notes_of sid s.

(** The first note with an id *)
Definition with_id (note_id : string) (ns : list NoteMetadata) : option NoteMetadata :=
  List.find (λ n, String.eqb (nm_id n) note_id) ns.
Fixpoint update_first (note_id : string) (f : NoteMetadata → NoteMetadata) (ns : list NoteMetadata) : list NoteMetadata :=
  match ns with
  | [] => []
  | n :: ns => if String.eqb (nm_id n) note_id then f n :: ns else n :: update_first note_id f ns
  end.
End contract.

(** What enrichment may be left to do for a note *)
Definition awaits_enrichment (max_attempts : Z) (n : NoteMetadata) : bool :=
  py_in (nm_enrichment_status n) ["provisional"; "enriching"; "failed"] && (nm_enrichment_attempts n <? max_attempts).

Class NoteLaws (S : Type) `{Platform, Unicode, NoteStore S} (valid : S → Prop) : Prop := {
  same_space_refl : ∀ sid, same_space sid sid = true;
  same_space_notes : ∀ a b s, same_space a b = true → notes_of a s = notes_of b s;
  load_law : ∀ sid s, valid s → ∃ s', valid s' ∧ same_notes s s' ∧
    ∃ ns, load_index sid s = (Ok ns, s') ∧ ns ≡ₚ notes_of sid s;
  find_law : ∀ sid id s, valid s → ∃ s', valid s' ∧ same_notes s s' ∧
    find_note sid id s = (Ok (with_id id (notes_of sid s)), s');
  exists_law : ∀ sid mid s, valid s → ∃ s', valid s' ∧ same_notes s s' ∧
    note_exists sid mid s = (Ok (has_message mid (notes_of sid s)), s');
  save_law : ∀ n s r s', valid s → save_note n s = (r, s') → valid s' ∧
    match r with
    | Raise _ => same_notes s s'
    | Ok _ =>
        if has_message (nm_message_id n) (notes_of (home n s) s) then same_notes s s'
        else changes_notes (home n s) (λ ns, (ns ++ [stored n s])%list) s s'
    end;
  update_law : ∀ sid id us s r s', valid s → is_Some (with_id id (notes_of sid s)) → update_note_metadata sid id us s = (r, s') → valid s' ∧
    match r with
    | Raise _ => same_notes s s'
    | Ok o => changes_notes sid (update_first id (with_metadata (map kept us))) s s' ∧ o = with_id id (notes_of sid s')
    end;
  pending_law : ∀ limit max_attempts s, valid s → ∃ refs s', valid s' ∧ same_notes s s' ∧
    list_pending_enrichments limit max_attempts s = (Ok refs, s')
    ∧ Z.of_nat (length refs) <= Z.max 1 limit
    ∧ ∀ sid id, (sid, id) ∈ refs → ∃ n, n ∈ notes_of sid s ∧ nm_id n = id ∧ awaits_enrichment max_attempts n = true;
  stored_keeps : ∀ n s, nm_id (stored n s) = nm_id n ∧ nm_message_id (stored n s) = nm_message_id n
    ∧ nm_text (stored n s) = nm_text n
    ∧ (nm_sensitivity n ≠ "" → nm_sensitivity (stored n s) = nm_sensitivity n)
    ∧ (nm_enrichment_status n ≠ "" → nm_enrichment_status (stored n s) = nm_enrichment_status n)
    ∧ nm_enrichment_attempts (stored n s) = nm_enrichment_attempts n;
  kept_times : ∀ u, kept u = u ∨ (∃ v w, u = UStartedAt v ∧ kept u = UStartedAt w) ∨ (∃ v w, u = UUpdatedAt v ∧ kept u = UUpdatedAt w);
}.

(** * The local files *)

(** A float is the 64 bits that represent it. *)
Definition float := Z.

(** [VectorItem], with the keys of its metadata *)
Record VectorItem := Vector {
  v_note_id : string;
  v_message_id : string;
  v_text : string;
  v_embedding : list float;
  v_title : string;
  v_tags : list string;
  v_type : string;
  v_summary : string;
  v_ts : string;
  v_sensitivity : option string;
}.
#[export] Instance vector_eq_dec : EqDecision VectorItem.
Proof. solve_decision. Defined.

(** The directory of a space may have an index and, in a directory of its own, the vectors of
    its notes; the texts are files by directory and date. *)
Record note_files := NoteFiles {
  nf_index : gmap string (option (list NoteMetadata));
  nf_markdown : gmap (string * string) string;
  nf_vectors : gmap string (list VectorItem);
}.
#[export] Instance note_files_eta : Eta note_files := λ r, NoteFiles (nf_index r) (nf_markdown r) (nf_vectors r).

(** [datetime.fromisoformat(ts).date().isoformat()]; [None] for a ValueError *)
Class NoteClock := { iso_date : string → option string }.

Module LocalNotes.
Section local.
Context `{Platform, Unicode, NoteClock}.

Definition index_of (space_id : string) (s : note_files) : list NoteMetadata :=
  default [] (default None (nf_index s !! safe_space_id space_id)).

(** [note_dir]: the directory is created. *)
Definition note_dir (space_id : string) (s : note_files) : note_files :=
  s <| nf_index := partial_alter (λ o, Some (default None o)) (safe_space_id space_id) (nf_index s) |>.

Definition load_index (space_id : string) : IO note_files (list NoteMetadata) := λ s,
  (Ok (index_of space_id s), note_dir space_id s).
Definition save_index (space_id : string) (items : list NoteMetadata) : IO note_files unit :=
  io_modify (λ s, s <| nf_index := <[safe_space_id space_id := Some items]> (nf_index s) |>).

Definition list_note_space_ids (s : note_files) : list string :=
  sort_by text_leb (map fst (map_to_list (nf_index s))).

Definition load_queryable_index (space_id : string) : IO note_files (list NoteMetadata) :=
  ns ← load_index space_id; mret (List.filter is_note_queryable ns).
Definition find_note (space_id note_id : string) : IO note_files (option NoteMetadata) :=
  ns ← load_index space_id; mret (with_id note_id ns).
Definition note_exists (space_id message_id : string) : IO note_files bool :=
  ns ← load_index space_id; mret (has_message message_id ns).

Definition update_note_metadata (space_id note_id : string) (us : list metadata) : IO note_files (option NoteMetadata) :=
  items ← load_index space_id;
  match with_id note_id items with
  | None => mret None
  | Some item =>
      save_index space_id (update_first note_id (with_metadata us) items);;
      mret (Some (with_metadata us item))
  end.

Definition pending_note (max_attempts : Z) (n : NoteMetadata) : bool :=
  awaits_enrichment max_attempts (n <| nm_enrichment_status := str_or (nm_enrichment_status n) "ready" |>)
  && is_note_queryable n.
Definition list_pending_enrichments (limit max_attempts : Z) : IO note_files (list (string * string)) :=
  directories ← io_gets list_note_space_ids;
  pending ← io_gets (λ s, mjoin (map (λ name,
    List.filter (λ r, negb (String.eqb r.1 "") && negb (String.eqb r.2 ""))
      (map (λ n, (str_or (nm_space_id n) name, nm_id n)) (List.filter (pending_note max_attempts) (index_of name s))))
    directories));
  mret (take (Z.to_nat (Z.max 1 limit)) pending).

(** The block of a note in the text of its day *)
Definition NL : string := String LF EmptyString.
Definition markdown_block (n : NoteMetadata) : string :=
  let tags := String.concat " " (map (λ tag, "#" +:+ tag) (nm_tags n)) in
  let related := str_or (String.concat " " (map (λ id, "`" +:+ id +:+ "`") (nm_related n))) "无" in
  join ["## "; nm_title n; NL; NL;
        "- id: `"; nm_id n; "`"; NL;
        "- message_id: `"; nm_message_id n; "`"; NL;
        "- time: "; nm_ts n; NL;
        "- type: "; nm_type n; NL;
        "- tags: "; tags; NL;
        "- related: "; related; NL; NL;
        "**摘要**："; nm_summary n; NL; NL;
        "**原文**"; NL; NL;
        nm_text n; NL; NL;
        "---"; NL].

Definition append_markdown_note (n : NoteMetadata) : IO note_files unit :=
  io_modify (note_dir (nm_space_id n));;
  match iso_date (nm_ts n) with
  | None => throw (ValueError ("Invalid isoformat string: '" +:+ nm_ts n +:+ "'"))
  | Some date =>
      io_modify (λ s, s <| nf_markdown := partial_alter
        (λ o, Some (default "" o +:+ markdown_block n)) (safe_space_id (nm_space_id n), date) (nf_markdown s) |>)
  end.
Definition append_index (n : NoteMetadata) : IO note_files unit :=
  items ← load_index (nm_space_id n); save_index (nm_space_id n) (items ++ [n])%list.

Definition save_note (n : NoteMetadata) : IO note_files bool :=
  existing ← note_exists (nm_space_id n) (nm_message_id n);
  if existing : bool then mret false
  else append_markdown_note n;; append_index n;; mret true.

(** ** The contract *)

Lemma chars_join l : Forall (λ c, ∃ a, c = String a EmptyString ∧ continues a = false) l → chars (join l) = l.
Proof.
  intros Hl. assert (split_chars (join l) = (EmptyString, l)) as E; [|unfold chars; by rewrite E].
  induction Hl as [|c l (a & -> & Ha) _ IH]; [done|]. rewrite join_cons.
  change (String a EmptyString +:+ join l) with (String a (join l)). simpl. by rewrite IH, Ha.
Qed.

Lemma safe_space_id_idem sid : safe_space_id (safe_space_id sid) = safe_space_id sid.
Proof.
  unfold safe_space_id. rewrite chars_join.
  - rewrite map_map. f_equal. apply map_ext. intros c.
    destruct c as [|a [|b c]]; [done| |done]. by destruct (safe_char a) eqn:E; [rewrite E|].
  - apply Forall_forall. intros c (x & <- & _)%elem_of_map. destruct x as [|a [|b x]]; [by eexists| |by eexists].
    destruct (safe_char a) eqn:E; [|by eexists]. eexists. split; [done|].
    destruct a as [[] [] [] [] [] [] [] []]; done.
Qed.

(** The notes are in the index of their space. *)
Definition valid (s : note_files) : Prop :=
  ∀ k ns, nf_index s !! k = Some ns → safe_space_id k = k ∧ ∀ n, n ∈ default [] ns → safe_space_id (nm_space_id n) = k.

#[global] Instance local_store : NoteStore note_files := {|
  notes_of := index_of;
  same_space a b := String.eqb (safe_space_id a) (safe_space_id b);
  home n s := nm_space_id n;
  kept u := u;
  stored n s := n;
  Notes.load_index := load_index;
  Notes.find_note := find_note;
  Notes.note_exists := note_exists;
  Notes.save_note := save_note;
  Notes.update_note_metadata := update_note_metadata;
  Notes.list_pending_enrichments := list_pending_enrichments;
|}.

Lemma note_dir_index sid sid' s : index_of sid' (note_dir sid s) = index_of sid' s.
Proof.
  unfold index_of, note_dir. simpl.
  destruct (decide (safe_space_id sid = safe_space_id sid')) as [<-|Hne].
  - rewrite lookup_partial_alter_eq. done.
  - by rewrite lookup_partial_alter_ne.
Qed.
Lemma note_dir_same sid s : same_notes s (note_dir sid s).
Proof. intros sid'. apply note_dir_index. Qed.
Lemma note_dir_valid sid s : valid s → valid (note_dir sid s).
Proof.
  intros Hv k ns. unfold note_dir. simpl. destruct (decide (safe_space_id sid = k)) as [<-|Hne].
  - rewrite lookup_partial_alter_eq. intros [= <-]. split; [apply safe_space_id_idem|].
    destruct (nf_index s !! safe_space_id sid) as [ns|] eqn:E; [by apply (Hv _ _ E)|]. by intros n ?%elem_of_nil.
  - rewrite lookup_partial_alter_ne by done. apply Hv.
Qed.

Lemma save_index_changes sid items s f : items = f (index_of sid s) →
  changes_notes sid f s (save_index sid items s).2.
Proof.
  intros -> sid'. simpl. unfold index_of. simpl. destruct (String.eqb_spec (safe_space_id sid') (safe_space_id sid)) as [->|Hne].
  - by rewrite lookup_insert_eq.
  - by rewrite lookup_insert_ne.
Qed.
Lemma save_index_valid sid items s : valid s → (∀ n, n ∈ items → safe_space_id (nm_space_id n) = safe_space_id sid) →
  valid (save_index sid items s).2.
Proof.
  intros Hv Hi k ns. simpl. intros [[<- <-]|[Hne E]]%lookup_insert_Some; [|by apply Hv].
  split; [apply safe_space_id_idem|done].
Qed.
Lemma index_of_valid sid s n : valid s → n ∈ index_of sid s → safe_space_id (nm_space_id n) = safe_space_id sid.
Proof.
  intros Hv. unfold index_of. destruct (nf_index s !! safe_space_id sid) as [ns|] eqn:E; [|by intros ?%elem_of_nil].
  intros Hn. by apply (Hv _ _ E).
Qed.

Lemma elem_of_update_first id f ns n : n ∈ update_first id f ns → ∃ n0, n0 ∈ ns ∧ (n = n0 ∨ n = f n0).
Proof.
  induction ns as [|x ns IH]; simpl; [by intros ?%elem_of_nil|]. destruct (String.eqb _ _).
  - intros [->|Hn]%elem_of_cons; [exists x; split; [by left|by right]|exists n; split; [by right|by left]].
  - intros [->|Hn]%elem_of_cons; [exists x; split; [by left|by left]|].
    destruct (IH Hn) as (n0 & ? & ?). exists n0. split; [by right|done].
Qed.
Lemma update_first_find id f ns : (∀ n, nm_id (f n) = nm_id n) → with_id id (update_first id f ns) = option_map f (with_id id ns).
Proof.
  intros Hf. unfold with_id. induction ns as [|n ns IH]; simpl; [done|]. destruct (String.eqb (nm_id n) id) eqn:E; simpl.
  - by rewrite Hf, E.
  - by rewrite E, IH.
Qed.
Lemma update_first_none id f ns : with_id id ns = None → update_first id f ns = ns.
Proof.
  unfold with_id. induction ns as [|n ns IH]; simpl; [done|]. destruct (String.eqb (nm_id n) id); [done|].
  intros E. by rewrite IH.
Qed.

#[global] Instance local_laws : NoteLaws note_files valid.
Proof.
  split.
  - intros sid. simpl. apply String.eqb_refl.
  - intros a b s E%String.eqb_eq. simpl. unfold index_of. by rewrite E.
  - intros sid s Hv. exists (note_dir sid s). split_and!; [by apply note_dir_valid|apply note_dir_same|]. by eexists.
  - intros sid id s Hv. exists (note_dir sid s). split_and!; [by apply note_dir_valid|apply note_dir_same|done].
  - intros sid mid s Hv. exists (note_dir sid s). split_and!; [by apply note_dir_valid|apply note_dir_same|done].
  - intros n s r s' Hv. simpl. unfold save_note, note_exists, load_index. unfold mbind, IO_bind, mret, IO_ret. simpl.
    set (s1 := note_dir (nm_space_id n) s). assert (valid s1) as Hv1 by (by apply note_dir_valid).
    destruct (has_message (nm_message_id n) (index_of (nm_space_id n) s)) eqn:E.
    { intros [= <- <-]. split; [done|]. apply note_dir_same. }
    unfold append_markdown_note, mbind, IO_bind, io_modify. simpl.
    assert (∀ sid t, same_notes s1 t → same_notes s (note_dir sid t)) as Hsame.
    { intros sid t Ht sid'. rewrite note_dir_same, Ht. apply note_dir_same. }
    destruct (iso_date (nm_ts n)) as [date|] eqn:Ed.
    2: { intros [= <- <-]. split; [by apply note_dir_valid|by apply Hsame]. }
    unfold append_index, load_index, mbind, IO_bind. intros [= <- <-].
    set (s2 := note_dir (nm_space_id n) s1).
    set (s3 := s2 <| nf_markdown := _ |>).
    assert (same_notes s s3) as Hs3 by (apply (Hsame (nm_space_id n) s1); by intros ?).
    assert (valid (note_dir (nm_space_id n) s3)) as Hv3 by (apply note_dir_valid, (note_dir_valid _ s1 Hv1)).
    split.
    + apply (save_index_valid (nm_space_id n) (index_of (nm_space_id n) s3 ++ [n])%list _ Hv3).
      intros x [Hx|Hx]%elem_of_app; [|by apply list_elem_of_singleton in Hx as ->]. apply (index_of_valid _ s3); [|done]. by apply (note_dir_valid _ s1).
    + intros sid'. etrans; [apply (save_index_changes (nm_space_id n) (index_of (nm_space_id n) s3 ++ [n])%list
        (note_dir (nm_space_id n) s3) (λ ns, (ns ++ [n])%list)); by rewrite note_dir_index|].
      pose proof (Hs3 sid') as E2. simpl in E2. simpl. by rewrite note_dir_index, E2.
  - intros sid id us s r s' Hv [item E]. simpl in E. simpl. unfold update_note_metadata, load_index.
    unfold mbind, IO_bind, mret, IO_ret. simpl.
    set (s1 := note_dir sid s). assert (valid s1) as Hv1 by (by apply note_dir_valid).
    rewrite map_id, E. intros [= <- <-]. split.
    + apply (save_index_valid sid (update_first id (with_metadata us) (index_of sid s)) s1 Hv1).
      intros n (n0 & Hn0 & Hn)%elem_of_update_first; destruct Hn as [-> | ->]; [by apply (index_of_valid _ s)|].
      destruct (with_metadata_keeps us n0) as (_ & _ & -> & _). by apply (index_of_valid _ s).
    + assert (changes_notes sid (update_first id (with_metadata us)) s
        (save_index sid (update_first id (with_metadata us) (index_of sid s)) s1).2) as Hc.
      { intros sid'. etrans; [apply (save_index_changes sid _ s1 (update_first id (with_metadata us))); unfold s1; by rewrite note_dir_index|].
        unfold s1. simpl. by rewrite note_dir_index. }
      split; [exact Hc|]. pose proof (Hc sid) as Hsid. simpl in Hsid. rewrite String.eqb_refl in Hsid. simpl.
      rewrite Hsid, update_first_find, E; [done|]. intros n. apply with_metadata_keeps.
  - intros limit max_attempts s Hv. simpl. unfold list_pending_enrichments, io_gets, mbind, IO_bind, mret, IO_ret.
    eexists _, s. split_and!; [done|by intros ?|done| |].
    + rewrite length_take. lia.
    + intros sid id Hin%in_take. apply list_elem_of_join in Hin as (l & Hr & (name & <- & Hname)%elem_of_map).
      apply list_elem_of_In, filter_In in Hr as [Hr Hne]. apply andb_true_iff in Hne as [Hsid Hid]. simpl in Hsid, Hid.
      apply list_elem_of_In, elem_of_map in Hr as (n & [= <- <-] & Hn).
      apply list_elem_of_In, filter_In in Hn as [Hn Hp]. apply list_elem_of_In in Hn. exists n. split_and!; [|done|].
      * pose proof (index_of_valid name s n Hv Hn) as Hsafe. unfold str_or.
        destruct (String.eqb_spec (nm_space_id n) ""); [done|]. unfold index_of. by rewrite Hsafe.
      * unfold pending_note in Hp. apply andb_true_iff in Hp as [Hp _]. unfold awaits_enrichment, str_or in *.
        by destruct (String.eqb_spec (nm_enrichment_status n) "").
  - done.
  - by left.
Qed.
End local.
End LocalNotes.
