(* ===== verification/NotesDb.v ===== *)
(** The notes in the database ([repositories/postgres/notes.py]), as an instance of the
    interface [NoteStore], and the queries on them.

    The tables hold the columns that the program reads; a note has no further metadata.  The
    order in which the database returns rows without ORDER BY is the order of the table.  One
    reading of the clock, [nd_now], serves a transaction. *)

From stdpp Require Import base list strings gmap.
From Stdlib Require Import ZArith Lia.
From S2P Require Import Prelude Schema Consistency Dispatch TextChunks Regex Sensitive Memory Notes.

Open Scope string_scope.
Open Scope Z_scope.

(** [Note], [NoteTag], [NoteRelation] *)
Record note_row := NoteRow {
  nr_id : string;
  nr_message_id : string;
  nr_tenant_id : string;
  nr_space_id : string;
  nr_created_at : Z;
  nr_title : string;
  nr_note_type : string;
  nr_summary : string;
  nr_text : string;
  nr_enrichment_status : string;
  nr_enrichment_attempts : Z;
  nr_enrichment_error : option string;
  nr_enrichment_started_at : option Z;
  nr_enrichment_updated_at : option Z;
  nr_sensitivity : string;
}.
#[export] Instance note_row_eta : Eta note_row := λ r,
  NoteRow (nr_id r) (nr_message_id r) (nr_tenant_id r) (nr_space_id r) (nr_created_at r) (nr_title r) (nr_note_type r)
    (nr_summary r) (nr_text r) (nr_enrichment_status r) (nr_enrichment_attempts r) (nr_enrichment_error r)
    (nr_enrichment_started_at r) (nr_enrichment_updated_at r) (nr_sensitivity r).

Record note_relation := NoteRelation { rel_source : string; rel_target : string; rel_kind : string }.
#[export] Instance note_relation_eq_dec : EqDecision note_relation.
Proof. solve_decision. Defined.

(** [NoteEmbedding] *)
Record note_embedding := NoteEmbedding { em_model : string; em_item : VectorItem }.

Record notes_db := NotesDb {
  nd_core : db;
  nd_notes : list note_row;
  nd_tags : list (string * string);
  nd_relations : list note_relation;
  nd_embeddings : list note_embedding;
  nd_now : Z;
}.
#[export] Instance notes_db_eta : Eta notes_db := λ r,
  NotesDb (nd_core r) (nd_notes r) (nd_tags r) (nd_relations r) (nd_embeddings r) (nd_now r).

(** [datetime.fromisoformat], a naive time in the local zone; [datetime.isoformat] *)
Class NoteTimes := {
  from_iso : string → option Z;
  to_iso : Z → string;
}.

Module PostgresNotes.
Section postgres.
Context `{Platform, Unicode, NoteTimes}.

(** [parse_datetime], and its use on a column that may be null *)
Definition parse_datetime (value : string) : M notes_db Z := λ d,
  if String.eqb value "" then Ok (nd_now d, d)
  else match from_iso value with
       | Some t => Ok (t, d)
       | None => Raise (ValueError ("Invalid isoformat string: '" +:+ value +:+ "'"))
       end.
Definition parse_optional (value : option string) : M notes_db (option Z) :=
  match value with
  | None => mret None
  | Some v => if String.eqb v "" then mret None else t ← parse_datetime v; mret (Some t)
  end.

(** ** Reading *)

Definition tags_of (note_id : string) (d : notes_db) : list string :=
  map snd (select_where (λ r, String.eqb r.1 note_id) (nd_tags d)).
Definition related_of (note_id : string) (d : notes_db) : list string :=
  map rel_target (select_where (λ r, String.eqb (rel_source r) note_id) (nd_relations d)).

(** [_as_note], with the parts that [_load_parts] reads *)
Definition as_note (d : notes_db) (r : note_row) : NoteMetadata :=
  Note (nr_id r) (nr_message_id r) (nr_space_id r) (to_iso (nr_created_at r)) (nr_title r) (tags_of (nr_id r) d)
    (nr_note_type r) (nr_summary r) (nr_text r) (related_of (nr_id r) d) (nr_enrichment_status r)
    (nr_enrichment_attempts r) (nr_enrichment_error r) (to_iso <$> nr_enrichment_started_at r)
    (to_iso <$> nr_enrichment_updated_at r) (nr_sensitivity r) (nr_tenant_id r).

Definition in_space (space_id : string) (r : note_row) : bool := String.eqb (nr_space_id r) space_id.
Definition older (a b : note_row) : bool :=
  (nr_created_at a <? nr_created_at b) || ((nr_created_at a =? nr_created_at b) && text_leb (nr_id a) (nr_id b)).

Definition load_index (space_id : string) : IO notes_db (list NoteMetadata) := transaction (
  rows ← gets (λ d, sort_by older (select_where (in_space space_id) (nd_notes d)));
  gets (λ d, map (as_note d) rows)).

Definition keyed (space_id note_id : string) (r : note_row) : bool := in_space space_id r && String.eqb (nr_id r) note_id.
Definition find_in_session (space_id note_id : string) : M notes_db (option NoteMetadata) :=
  rows ← gets (λ d, select_where (keyed space_id note_id) (nd_notes d));
  row ← lift_result (scalar_one_or_none rows);
  gets (λ d, option_map (as_note d) row).
Definition find_note (space_id note_id : string) : IO notes_db (option NoteMetadata) :=
  transaction (find_in_session space_id note_id).

Definition of_message (space_id message_id : string) (r : note_row) : bool :=
  in_space space_id r && String.eqb (nr_message_id r) message_id.
Definition note_exists (space_id message_id : string) : IO notes_db bool := transaction (
  rows ← gets (λ d, take 1 (select_where (of_message space_id message_id) (nd_notes d)));
  row ← lift_result (scalar_one_or_none rows);
  mret (match row with Some _ => true | None => false end)).

Definition list_space_ids (d : notes_db) : list string :=
  sort_by text_leb (remove_dups (map nr_space_id (nd_notes d))).

Definition list_pending_enrichments (limit max_attempts : Z) : IO notes_db (list (string * string)) := transaction (
  rows ← gets (λ d, take (Z.to_nat (Z.max 1 limit)) (sort_by (λ a b, nr_created_at a <=? nr_created_at b)
    (select_where (λ r, py_in (nr_enrichment_status r) ["provisional"; "enriching"; "failed"]
                        && (nr_enrichment_attempts r <? max_attempts)
                        && String.eqb (nr_sensitivity r) "normal") (nd_notes d))));
  mret (map (λ r, (nr_space_id r, nr_id r)) rows)).

(** ** Writing *)

Definition on_core {A} (m : Schema.session A) : M notes_db A := λ d,
  match m (nd_core d) with
  | Ok (a, core) => Ok (a, d <| nd_core := core |>)
  | Raise e => Raise e
  end.

(** INSERT ... ON CONFLICT ON CONSTRAINT uq_notes_space_message DO NOTHING; the primary key may
    still be violated. *)
Definition insert_note (r : note_row) : M notes_db (option string) := λ d,
  if existsb (of_message (nr_space_id r) (nr_message_id r)) (nd_notes d) then Ok (None, d)
  else if existsb (λ x, String.eqb (nr_id x) (nr_id r)) (nd_notes d) then Raise (IntegrityError "notes_pkey")
  else Ok (Some (nr_id r), d <| nd_notes := (nd_notes d ++ [r])%list |>).

(** INSERT ... ON CONFLICT DO NOTHING *)
Definition insert_tag (note_id tag : string) : M notes_db unit :=
  modify (λ d, if bool_decide ((note_id, tag) ∈ nd_tags d) then d
               else d <| nd_tags := (nd_tags d ++ [(note_id, tag)])%list |>).
Definition insert_relation (note_id target : string) : M notes_db unit :=
  modify (λ d, let r := NoteRelation note_id target "related" in
               if bool_decide (r ∈ nd_relations d) then d
               else d <| nd_relations := (nd_relations d ++ [r])%list |>).

Definition save_in_session (n : NoteMetadata) : M notes_db bool :=
  let tenant_id := str_or (nm_tenant_id n) DEFAULT_TENANT_ID in
  space_id ← on_core (ensure_tenant_space (nm_space_id n) tenant_id "feishu");
  created_at ← parse_datetime (nm_ts n);
  started_at ← parse_optional (nm_enrichment_started_at n);
  updated_at ← parse_optional (nm_enrichment_updated_at n);
  note_id ← insert_note (NoteRow (nm_id n) (nm_message_id n) tenant_id space_id created_at (nm_title n)
    (str_or (nm_type n) "other") (nm_summary n) (nm_text n) (str_or (nm_enrichment_status n) "ready")
    (nm_enrichment_attempts n) (nm_enrichment_error n) started_at updated_at (str_or (nm_sensitivity n) "normal"));
  match note_id with
  | None => mret false
  | Some note_id =>
      for_each (nm_tags n) (insert_tag note_id);;
      for_each (nm_related n) (insert_relation note_id);;
      mret true
  end.
Definition save_note (n : NoteMetadata) : IO notes_db bool := transaction (save_in_session n).

(** A column of the row; the tags and the relations are rows of their own. *)
Definition set_column (r : note_row) (u : metadata) : M notes_db note_row :=
  match u with
  | UTitle v => mret (r <| nr_title := v |>)
  | UType v => mret (r <| nr_note_type := v |>)
  | USummary v => mret (r <| nr_summary := v |>)
  | UStatus v => mret (r <| nr_enrichment_status := v |>)
  | UAttempts v => mret (r <| nr_enrichment_attempts := v |>)
  | UError v => mret (r <| nr_enrichment_error := v |>)
  | UStartedAt v => t ← parse_optional v; mret (r <| nr_enrichment_started_at := t |>)
  | UUpdatedAt v => t ← parse_optional v; mret (r <| nr_enrichment_updated_at := t |>)
  | UTags _ | URelated _ => mret r
  end.
(** UPDATE notes SET ...: the values are the same for every row. *)
Fixpoint set_columns (r : note_row) (us : list metadata) : M notes_db note_row :=
  match us with
  | [] => mret r
  | u :: us => r ← set_column r u; set_columns r us
  end.
Definition update_row (space_id note_id : string) (us : list metadata) : M notes_db unit := λ d,
  match List.find (keyed space_id note_id) (nd_notes d) with
  | Some r =>
      match set_columns r us d with
      | Ok (r', _) => Ok (tt, d <| nd_notes := update_where (keyed space_id note_id) (λ _, r') (nd_notes d) |>)
      | Raise e => Raise e
      end
  | None => Ok (tt, d)
  end.

(** The times are read before the session is opened. *)
Definition read_times (u : metadata) : M notes_db unit :=
  match u with
  | UStartedAt v => parse_optional v;; mret tt
  | UUpdatedAt v => parse_optional v;; mret tt
  | _ => mret tt
  end.

(** [session.add(NoteTag(...))]: the keys are checked. *)
Definition check_note (note_id constraint : string) : M notes_db unit := λ d,
  if existsb (λ r, String.eqb (nr_id r) note_id) (nd_notes d) then Ok (tt, d) else Raise (IntegrityError constraint).
Definition add_tag (note_id tag : string) : M notes_db unit := λ d,
  if bool_decide ((note_id, tag) ∈ nd_tags d) then Raise (IntegrityError "note_tags_pkey")
  else (check_note note_id "note_tags_note_id_fkey";;
        modify (λ d, d <| nd_tags := (nd_tags d ++ [(note_id, tag)])%list |>)) d.
Definition add_relation (note_id target : string) : M notes_db unit := λ d,
  let r := NoteRelation note_id target "related" in
  if bool_decide (r ∈ nd_relations d) then Raise (IntegrityError "note_relations_pkey")
  else (check_note note_id "note_relations_source_note_id_fkey";;
        modify (λ d, d <| nd_relations := (nd_relations d ++ [r])%list |>)) d.

Definition replace_tags (note_id : string) (tags : list string) : M notes_db unit :=
  modify (λ d, d <| nd_tags := select_where (λ r, negb (String.eqb r.1 note_id)) (nd_tags d) |>);;
  for_each tags (add_tag note_id).
Definition replace_relations (note_id : string) (targets : list string) : M notes_db unit :=
  modify (λ d, d <| nd_relations := select_where (λ r, negb (String.eqb (rel_source r) note_id)) (nd_relations d) |>);;
  for_each targets (add_relation note_id).

(** [updates["tags"]], [updates["related"]]: the last one given *)
Definition given {A} (pick : metadata → option A) (us : list metadata) : option A :=
  fold_left (λ o u, match pick u with Some v => Some v | None => o end) us None.
Definition tags_given : list metadata → option (list string) := given (λ u, match u with UTags v => Some v | _ => None end).
Definition related_given : list metadata → option (list string) :=
  given (λ u, match u with URelated v => Some v | _ => None end).

Definition update_note_metadata (space_id note_id : string) (us : list metadata) : IO notes_db (option NoteMetadata) :=
  transaction (
    for_each us read_times;;
    update_row space_id note_id us;;
    match tags_given us with Some tags => replace_tags note_id tags | None => mret tt end;;
    match related_given us with Some targets => replace_relations note_id targets | None => mret tt end);;
  find_note space_id note_id.

(** ** The queries *)

Record note_query := NoteQuery {
  q_note_type : option string;
  q_tags : list string;
  q_match_all_tags : bool;
  q_created_after : option Z;
  q_enrichment_statuses : list string;
  q_limit : Z;
}.

(** The tags are given once each. *)
Definition has_tags (d : notes_db) (requested : list string) (all : bool) (r : note_row) : bool :=
  let found := List.filter (λ t, bool_decide (t ∈ requested)) (remove_dups (tags_of (nr_id r) d)) in
  if all then (0 <? Z.of_nat (length found)) && Nat.eqb (length found) (length requested) else 0 <? Z.of_nat (length found).
Definition note_matches (space_id : string) (q : note_query) (d : notes_db) (r : note_row) : bool :=
  let requested := remove_dups (q_tags q) in
  in_space space_id r && String.eqb (nr_sensitivity r) "normal"
  && match q_note_type q with Some t => String.eqb t "" || String.eqb (nr_note_type r) t | None => true end
  && match q_created_after q with Some t => t <=? nr_created_at r | None => true end
  && match q_enrichment_statuses q with [] => true | l => py_in (nr_enrichment_status r) l end
  && match requested with [] => true | _ => has_tags d requested (q_match_all_tags q) r end.
Definition newer (a b : note_row) : bool :=
  (nr_created_at b <? nr_created_at a) || ((nr_created_at a =? nr_created_at b) && text_leb (nr_id b) (nr_id a)).

Definition query_notes (space_id : string) (q : note_query) (d : notes_db) : list NoteMetadata :=
  let bounded_limit := Z.max 1 (Z.min (q_limit q) 500) in
  let rows := take (Z.to_nat (bounded_limit * 4)) (sort_by newer (select_where (note_matches space_id q d) (nd_notes d))) in
  take (Z.to_nat bounded_limit)
    (List.filter (λ n, negb (Sensitive.contains_sensitive_data (nm_text n))) (map (as_note d) rows)).

Definition query_notes_by_type (space_id note_type : string) (limit : Z) : notes_db → list NoteMetadata :=
  query_notes space_id (NoteQuery (Some note_type) [] true None [] limit).
Definition query_notes_by_tags (space_id : string) (tags : list string) (note_type : option string) (match_all_tags : bool)
    (limit : Z) : notes_db → list NoteMetadata :=
  query_notes space_id (NoteQuery note_type tags match_all_tags None [] limit).
Definition list_recent_notes (space_id : string) (created_after limit : Z) : notes_db → list NoteMetadata :=
  query_notes space_id (NoteQuery None [] true (Some created_after) [] limit).
Definition list_provisional_notes (space_id : string) (limit : Z) : notes_db → list NoteMetadata :=
  query_notes space_id (NoteQuery None [] true None ["provisional"; "enriching"; "failed"] limit).

(** [get_note_relations]: the notes that a note refers to, and those that refer to it *)
Definition confidential (r : note_row) : bool := Sensitive.contains_sensitive_data (nr_text r).
Definition visible (space_id : string) (r : note_row) : bool := in_space space_id r && String.eqb (nr_sensitivity r) "normal".
Definition dict_fromkeys (l : list string) : list string :=
  fold_left (λ acc x, if bool_decide (x ∈ acc) then acc else (acc ++ [x])%list) l [].
Definition get_note_relations (space_id note_id : string) (limit : Z) (d : notes_db) :
    result (option (NoteMetadata * list NoteMetadata * list NoteMetadata)) :=
  let bounded_limit := Z.to_nat (Z.max 1 (Z.min limit 20)) in
  match scalar_one_or_none (select_where (λ r, visible space_id r && String.eqb (nr_id r) note_id) (nd_notes d)) with
  | Raise e => Raise e
  | Ok None => Ok None
  | Ok (Some source) =>
      if confidential source then Ok None
      else
        let rows := select_where (λ r, String.eqb (rel_source r) note_id || String.eqb (rel_target r) note_id) (nd_relations d) in
        let outbound_ids := take bounded_limit (map rel_target (List.filter (λ r, String.eqb (rel_source r) note_id) rows)) in
        let inbound_ids := take bounded_limit (map rel_source (List.filter (λ r, String.eqb (rel_target r) note_id) rows)) in
        let related_ids := dict_fromkeys (outbound_ids ++ inbound_ids)%list in
        let related_rows := select_where (λ r, visible space_id r && bool_decide (nr_id r ∈ related_ids)) (nd_notes d) in
        let notes := List.filter (λ r, negb (confidential r)) (source :: related_rows) in
        let view r := (as_note d r) <| nm_related := if String.eqb (nr_id r) note_id then outbound_ids else [] |> in
        let pick ids := omap (λ id, view <$> last (List.filter (λ r, String.eqb (nr_id r) id) notes)) ids in
        Ok (Some (view source, pick outbound_ids, pick inbound_ids))
  end.

(** * The contract *)

(** What is kept of a time: the instant. *)
Definition kept_time (value : option string) : option string :=
  match value with
  | Some v => if String.eqb v "" then None else to_iso <$> from_iso v
  | None => None
  end.
Definition kept_metadata (u : metadata) : metadata :=
  match u with
  | UStartedAt v => UStartedAt (kept_time v)
  | UUpdatedAt v => UUpdatedAt (kept_time v)
  | u => u
  end.

Definition home_space (n : NoteMetadata) (d : notes_db) : string :=
  match ensure_tenant_space (nm_space_id n) (str_or (nm_tenant_id n) DEFAULT_TENANT_ID) "feishu" (nd_core d) with
  | Ok (sid, _) => sid
  | Raise _ => nm_space_id n
  end.
(** The members in the order of their first occurrence *)
Definition add_once (acc : list string) (x : string) : list string := if bool_decide (x ∈ acc) then acc else (acc ++ [x])%list.
Definition once (l : list string) : list string := fold_left add_once l [].

Definition stored_note (n : NoteMetadata) (d : notes_db) : NoteMetadata :=
  let created_at := if String.eqb (nm_ts n) "" then nd_now d else default 0 (from_iso (nm_ts n)) in
  Note (nm_id n) (nm_message_id n) (home_space n d) (to_iso created_at) (nm_title n) (once (nm_tags n))
    (str_or (nm_type n) "other") (nm_summary n) (nm_text n) (once (nm_related n)) (str_or (nm_enrichment_status n) "ready")
    (nm_enrichment_attempts n) (nm_enrichment_error n) (kept_time (nm_enrichment_started_at n))
    (kept_time (nm_enrichment_updated_at n)) (str_or (nm_sensitivity n) "normal")
    (str_or (nm_tenant_id n) DEFAULT_TENANT_ID).

#[global] Instance db_store : NoteStore notes_db := {|
  notes_of sid d := map (as_note d) (select_where (in_space sid) (nd_notes d));
  same_space := String.eqb;
  home := home_space;
  kept := kept_metadata;
  stored := stored_note;
  Notes.load_index := load_index;
  Notes.find_note := find_note;
  Notes.note_exists := note_exists;
  Notes.save_note := save_note;
  Notes.update_note_metadata := update_note_metadata;
  Notes.list_pending_enrichments := list_pending_enrichments;
|}.

(** The keys: unique identifiers and messages; tags and relations belong to a note. *)
Record valid (d : notes_db) : Prop := {
  ids_unique : NoDup (map nr_id (nd_notes d));
  messages_unique : NoDup (map (λ r, (nr_space_id r, nr_message_id r)) (nd_notes d));
  tags_owned : ∀ id t, (id, t) ∈ nd_tags d → id ∈ map nr_id (nd_notes d);
  relations_owned : ∀ r, r ∈ nd_relations d → rel_source r ∈ map nr_id (nd_notes d) ∧ rel_kind r = "related";
}.

Lemma keyed_true sid id r : keyed sid id r = true ↔ nr_space_id r = sid ∧ nr_id r = id.
Proof. unfold keyed, in_space. by rewrite andb_true_iff, !String.eqb_eq. Qed.
Lemma of_message_true sid mid r : of_message sid mid r = true ↔ nr_space_id r = sid ∧ nr_message_id r = mid.
Proof. unfold of_message, in_space. by rewrite andb_true_iff, !String.eqb_eq. Qed.

Lemma find_is_head {A} (p : A → bool) l : List.find p l = head (select_where p l).
Proof. unfold select_where. induction l as [|x l IH]; simpl; [done|]. by destruct (p x). Qed.

Lemma keyed_rows d sid id : valid d →
  select_where (keyed sid id) (nd_notes d)
  = match List.find (keyed sid id) (nd_notes d) with Some r => [r] | None => [] end.
Proof.
  intros Hv. destruct (List.find _ _) as [r|] eqn:E.
  - apply find_some in E as [Hin Hk]. apply keyed_true in Hk as [Hs Hi].
    apply (select_key_unique nr_id); [apply Hv|by apply list_elem_of_In|by apply keyed_true|].
    intros y _ [_ ->]%keyed_true. done.
  - apply select_empty. intros x Hx%list_elem_of_In. by apply (find_none _ _ E).
Qed.

Lemma with_id_rows d sid id :
  with_id id (notes_of sid d) = option_map (as_note d) (List.find (keyed sid id) (nd_notes d)).
Proof.
  simpl. unfold with_id, select_where, keyed. induction (nd_notes d) as [|r l IH]; simpl; [done|].
  destruct (in_space sid r); simpl; [|done]. by destruct (String.eqb (nr_id r) id).
Qed.
Lemma has_message_rows d sid mid : has_message mid (notes_of sid d) = existsb (of_message sid mid) (nd_notes d).
Proof.
  simpl. unfold has_message, select_where, of_message. induction (nd_notes d) as [|r l IH]; simpl; [done|].
  destruct (in_space sid r); simpl; by rewrite IH.
Qed.

(** ** Tags and relations *)

Lemma insert_tags id tags d : ∃ d', for_each tags (insert_tag id) d = Ok (tt, d')
  ∧ nd_notes d' = nd_notes d ∧ nd_core d' = nd_core d ∧ nd_relations d' = nd_relations d ∧ nd_now d' = nd_now d
  ∧ tags_of id d' = fold_left add_once tags (tags_of id d) ∧ (∀ i, i ≠ id → tags_of i d' = tags_of i d)
  ∧ (∀ i t, (i, t) ∈ nd_tags d' → i = id ∨ (i, t) ∈ nd_tags d).
Proof.
  revert d. induction tags as [|t tags IH]; intros d; [exists d; by split_and!; auto|]. cbn [for_each].
  unfold mbind, M_bind, insert_tag at 1, modify. cbv beta iota zeta.
  set (d1 := if bool_decide _ then d else _).
  assert (nd_notes d1 = nd_notes d ∧ nd_core d1 = nd_core d ∧ nd_relations d1 = nd_relations d ∧ nd_now d1 = nd_now d)
    as (E1 & E2 & E3 & E4) by (unfold d1; by case_match).
  assert (tags_of id d1 = add_once (tags_of id d) t) as Et.
  { unfold d1, add_once, tags_of. case_bool_decide as Hin.
    - rewrite bool_decide_true; [done|]. apply elem_of_map. exists (id, t). split; [done|].
      apply elem_of_select. split; [done|]. apply String.eqb_refl.
    - rewrite bool_decide_false.
      + simpl. unfold select_where. rewrite List.filter_app, map_app. simpl. by rewrite String.eqb_refl.
      + intros ([i t'] & Heq & [Hx Hid]%elem_of_select)%elem_of_map. simpl in Heq, Hid. apply String.eqb_eq in Hid. by subst. }
  assert (∀ i, i ≠ id → tags_of i d1 = tags_of i d) as Eo.
  { intros i Hi. unfold d1, tags_of. case_bool_decide; [done|]. simpl. unfold select_where.
    rewrite List.filter_app, map_app. simpl. rewrite (proj2 (String.eqb_neq id i)) by congruence. apply app_nil_r. }
  assert (∀ i x, (i, x) ∈ nd_tags d1 → i = id ∨ (i, x) ∈ nd_tags d) as Em.
  { intros i x. unfold d1. case_bool_decide; [by right|]. simpl.
    intros [Hx|Hx]%elem_of_app; [by right|]. apply list_elem_of_singleton in Hx as [= -> ->]. by left. }
  destruct (IH d1) as (d' & -> & F1 & F2 & F3 & F4 & Ft & Fo & Fm). exists d'. split_and!; try congruence.
  - rewrite Ft, Et. done.
  - intros i Hi. by rewrite Fo, Eo.
  - intros i x Hx. destruct (Fm i x Hx) as [|Hx']; [by left|]. by apply Em.
Qed.

Lemma insert_relations id targets d : ∃ d', for_each targets (insert_relation id) d = Ok (tt, d')
  ∧ nd_notes d' = nd_notes d ∧ nd_core d' = nd_core d ∧ nd_tags d' = nd_tags d ∧ nd_now d' = nd_now d
  ∧ ((∀ r, r ∈ nd_relations d → rel_source r = id → rel_kind r = "related") →
     related_of id d' = fold_left add_once targets (related_of id d))
  ∧ (∀ i, i ≠ id → related_of i d' = related_of i d)
  ∧ (∀ r, r ∈ nd_relations d' → (rel_source r = id ∧ rel_kind r = "related") ∨ r ∈ nd_relations d).
Proof.
  revert d. induction targets as [|t targets IH]; intros d; [exists d; by split_and!; auto|]. cbn [for_each].
  unfold mbind, M_bind, insert_relation at 1, modify. cbv beta iota zeta.
  set (d1 := if bool_decide _ then d else _).
  assert (nd_notes d1 = nd_notes d ∧ nd_core d1 = nd_core d ∧ nd_tags d1 = nd_tags d ∧ nd_now d1 = nd_now d)
    as (E1 & E2 & E3 & E4) by (unfold d1; by case_match).
  assert ((∀ r, r ∈ nd_relations d → rel_source r = id → rel_kind r = "related") →
    related_of id d1 = add_once (related_of id d) t ∧ ∀ r, r ∈ nd_relations d1 → rel_source r = id → rel_kind r = "related") as Et.
  { intros Hk. unfold d1, add_once, related_of. case_bool_decide as Hin.
    - rewrite bool_decide_true; [done|]. apply elem_of_map. exists (NoteRelation id t "related"). split; [done|].
      apply elem_of_select. split; [done|]. apply String.eqb_refl.
    - rewrite bool_decide_false.
      + simpl. unfold select_where. rewrite List.filter_app, map_app. simpl. rewrite String.eqb_refl. split; [done|].
        intros r [Hr|Hr]%elem_of_app; [by apply Hk|]. by apply list_elem_of_singleton in Hr as ->.
      + intros (r & Heq & [Hx Hid]%elem_of_select)%elem_of_map. apply String.eqb_eq in Hid. apply Hin.
        pose proof (Hk r Hx Hid). destruct r; simpl in *; by subst. }
  assert (∀ i, i ≠ id → related_of i d1 = related_of i d) as Eo.
  { intros i Hi. unfold d1, related_of. case_bool_decide; [done|]. simpl. unfold select_where.
    rewrite List.filter_app, map_app. simpl. rewrite (proj2 (String.eqb_neq id i)) by congruence. apply app_nil_r. }
  assert (∀ r, r ∈ nd_relations d1 → (rel_source r = id ∧ rel_kind r = "related") ∨ r ∈ nd_relations d) as Em.
  { intros r. unfold d1. case_bool_decide; [by right|]. simpl.
    intros [Hx|Hx]%elem_of_app; [by right|]. apply list_elem_of_singleton in Hx as ->. by left. }
  destruct (IH d1) as (d' & -> & F1 & F2 & F3 & F4 & Ft & Fo & Fm). exists d'. split_and!; try congruence.
  - intros Hk. destruct (Et Hk) as [E5 E6]. by rewrite (Ft E6), E5.
  - intros i Hi. by rewrite Fo, Eo.
  - intros r Hx. destruct (Fm r Hx) as [|Hx']; [by left|]. by apply Em.
Qed.

(** What may change: the tags and the relations of one note. *)
Record parts_changed (id : string) (d d' : notes_db) : Prop := {
  pc_notes : nd_notes d' = nd_notes d;
  pc_others : ∀ i, i ≠ id → tags_of i d' = tags_of i d ∧ related_of i d' = related_of i d;
  pc_tags : ∀ i t, (i, t) ∈ nd_tags d' → (i, t) ∈ nd_tags d ∨ i = id;
  pc_relations : ∀ r, r ∈ nd_relations d' → r ∈ nd_relations d ∨ (rel_source r = id ∧ rel_kind r = "related");
}.
#[export] Instance parts_changed_preorder id : PreOrder (parts_changed id).
Proof.
  split.
  - intros d. split; auto.
  - intros a b c [N1 O1 T1 R1] [N2 O2 T2 R2]. split.
    + by rewrite N2, N1.
    + intros i Hi. destruct (O1 i Hi) as [<- <-]. by apply O2.
    + intros i t Hin. destruct (T2 i t Hin); [by apply T1|by right].
    + intros r Hin. destruct (R2 r Hin); [by apply R1|by right].
Qed.

Lemma add_tags id tags d d' u : for_each tags (add_tag id) d = Ok (u, d') →
  parts_changed id d d' ∧ tags_of id d' = (tags_of id d ++ tags)%list ∧ related_of id d' = related_of id d.
Proof.
  revert d. induction tags as [|t tags IH]; intros d; cbn [for_each].
  { intros [= _ <-]. split_and!; [done|by rewrite app_nil_r|done]. }
  intros (a & d1 & E1 & (P & T & R)%IH)%bind_Ok. revert E1. unfold add_tag, check_note, mbind, M_bind, modify.
  case_bool_decide; [done|]. destruct (existsb _ _); [|done]. intros [= _ <-]. split_and!.
  - etrans; [|exact P]. split; [done| | |].
    + intros i Hi. split; [|done]. unfold tags_of. simpl. unfold select_where. rewrite List.filter_app, map_app. simpl.
      rewrite (proj2 (String.eqb_neq id i)) by congruence. apply app_nil_r.
    + intros i x. simpl. intros [Hx|Hx]%elem_of_app; [by left|]. apply list_elem_of_singleton in Hx as [= -> ->]. by right.
    + by left.
  - rewrite T. unfold tags_of. simpl. unfold select_where. rewrite List.filter_app, map_app. simpl.
    by rewrite String.eqb_refl, <- app_assoc.
  - by rewrite R.
Qed.

Lemma add_relations id targets d d' u : for_each targets (add_relation id) d = Ok (u, d') →
  parts_changed id d d' ∧ tags_of id d' = tags_of id d ∧ related_of id d' = (related_of id d ++ targets)%list.
Proof.
  revert d. induction targets as [|t targets IH]; intros d; cbn [for_each].
  { intros [= _ <-]. split_and!; [done|done|by rewrite app_nil_r]. }
  intros (a & d1 & E1 & (P & T & R)%IH)%bind_Ok. revert E1. unfold add_relation, check_note, mbind, M_bind, modify.
  case_bool_decide; [done|]. destruct (existsb _ _); [|done]. intros [= _ <-]. split_and!.
  - etrans; [|exact P]. split; [done| | |].
    + intros i Hi. split; [done|]. unfold related_of. simpl. unfold select_where. rewrite List.filter_app, map_app. simpl.
      rewrite (proj2 (String.eqb_neq id i)) by congruence. apply app_nil_r.
    + by left.
    + intros r. simpl. intros [Hx|Hx]%elem_of_app; [by left|]. apply list_elem_of_singleton in Hx as ->. by right.
  - by rewrite T.
  - rewrite R. unfold related_of. simpl. unfold select_where. rewrite List.filter_app, map_app. simpl.
    by rewrite String.eqb_refl, <- app_assoc.
Qed.

Lemma replace_tags_Ok id tags d d' u : replace_tags id tags d = Ok (u, d') →
  parts_changed id d d' ∧ tags_of id d' = tags ∧ related_of id d' = related_of id d.
Proof.
  unfold replace_tags. intros (a & d1 & E1 & (P & T & R)%add_tags)%bind_Ok. revert E1. intros [= _ <-]. split_and!; [|rewrite T|by rewrite R].
  - etrans; [|exact P]. split; [done| | |by left].
    + intros i Hi. split; [|done]. unfold tags_of. simpl. rewrite select_select; [done|].
      intros x Hx. apply String.eqb_eq in Hx as ->. apply negb_true_iff, String.eqb_neq. done.
    + intros i t [Hin _]%elem_of_select. by left.
  - unfold tags_of. simpl. rewrite select_empty; [done|]. intros x [_ Hx]%elem_of_select. by apply negb_true_iff in Hx.
Qed.
Lemma replace_relations_Ok id targets d d' u : replace_relations id targets d = Ok (u, d') →
  parts_changed id d d' ∧ tags_of id d' = tags_of id d ∧ related_of id d' = targets.
Proof.
  unfold replace_relations. intros (a & d1 & E1 & (P & T & R)%add_relations)%bind_Ok. revert E1. intros [= _ <-]. split_and!; [|by rewrite T|rewrite R].
  - etrans; [|exact P]. split; [done| |by left|].
    + intros i Hi. split; [done|]. unfold related_of. simpl. rewrite select_select; [done|].
      intros x Hx. apply String.eqb_eq in Hx as ->. apply negb_true_iff, String.eqb_neq. done.
    + intros r [Hin _]%elem_of_select. by left.
  - unfold related_of. simpl. rewrite select_empty; [done|]. intros x [_ Hx]%elem_of_select. by apply negb_true_iff in Hx.
Qed.

(** ** The columns *)

Definition row_note (tags related : list string) (r : note_row) : NoteMetadata :=
  Note (nr_id r) (nr_message_id r) (nr_space_id r) (to_iso (nr_created_at r)) (nr_title r) tags
    (nr_note_type r) (nr_summary r) (nr_text r) related (nr_enrichment_status r)
    (nr_enrichment_attempts r) (nr_enrichment_error r) (to_iso <$> nr_enrichment_started_at r)
    (to_iso <$> nr_enrichment_updated_at r) (nr_sensitivity r) (nr_tenant_id r).

Lemma parse_optional_Ok v d t d' : parse_optional v d = Ok (t, d') → d' = d ∧ to_iso <$> t = kept_time v.
Proof.
  unfold parse_optional, kept_time. destruct v as [v|]; [|by intros [= <- <-]].
  destruct (String.eqb v "") eqn:E; [by intros [= <- <-]|]. unfold mbind, M_bind, parse_datetime. rewrite E.
  destruct (from_iso v); [|done]. by intros [= <- <-].
Qed.

Lemma given_cons {A} (pick : metadata → option A) u us x :
  default x (given pick (u :: us)) = default (default x (pick u)) (given pick us).
Proof.
  unfold given. set (later := λ us o, fold_left (λ o u, match pick u with Some v => Some v | None => o end) us o).
  assert (∀ o, later us o = match later us None with Some v => Some v | None => o end) as E.
  { unfold later. induction us as [|w us IH]; intros o; cbn [fold_left]; [done|]. destruct (pick w) as [v|]; [|by rewrite IH].
    rewrite (IH (Some v)). by destruct (fold_left _ us None). }
  change (default x (later us (match pick u with Some v => Some v | None => None end)) = default (default x (pick u)) (later us None)).
  destruct (pick u) as [v|]; [|done]. rewrite (E (Some v)). by destruct (later us None).
Qed.

Lemma set_columns_Ok us : ∀ r d r' d' tags related, set_columns r us d = Ok (r', d') →
  d' = d ∧ nr_id r' = nr_id r ∧ nr_space_id r' = nr_space_id r ∧ nr_message_id r' = nr_message_id r ∧
  with_metadata (map kept_metadata us) (row_note tags related r)
  = row_note (default tags (tags_given us)) (default related (related_given us)) r'.
Proof.
  induction us as [|u us IH]; intros r d r' d' tags related; cbn [set_columns].
  { intros [= <- <-]. done. }
  intros (r1 & d1 & E1 & E2)%bind_Ok.
  assert (d1 = d ∧ nr_id r1 = nr_id r ∧ nr_space_id r1 = nr_space_id r ∧ nr_message_id r1 = nr_message_id r
    ∧ set_metadata (row_note tags related r) (kept_metadata u)
      = row_note (match u with UTags v => v | _ => tags end) (match u with URelated v => v | _ => related end) r1)
    as (-> & K1 & K2 & K3 & Em).
  { destruct u as [| | | | | | | |v|v]; cbn [set_column] in E1; try (revert E1; intros [= <- <-]; done);
      apply bind_Ok in E1 as (t & d2 & [-> Et]%parse_optional_Ok & [= <- <-]); split_and!; try done;
      cbn [kept_metadata set_metadata]; by rewrite <- Et. }
  destruct (IH r1 d r' d' (match u with UTags v => v | _ => tags end) (match u with URelated v => v | _ => related end) E2)
    as (-> & F1 & F2 & F3 & Fm).
  split_and!; try congruence. unfold with_metadata in *. cbn [map fold_left].
  rewrite Em, Fm. unfold tags_given, related_given. rewrite !given_cons. by destruct u.
Qed.


(** ** The laws *)

Lemma as_note_row d r : as_note d r = row_note (tags_of (nr_id r) d) (related_of (nr_id r) d) r.
Proof. done. Qed.
Lemma as_note_parts d d' r : tags_of (nr_id r) d' = tags_of (nr_id r) d → related_of (nr_id r) d' = related_of (nr_id r) d →
  as_note d' r = as_note d r.
Proof. intros Ht Hr. unfold as_note. by rewrite Ht, Hr. Qed.

(** One row is replaced: the notes of its space are updated, those of the others are as before. *)
Lemma update_notes_of d d' id f r r' sid l :
  NoDup (map nr_id l) → (∀ x, x ∈ l → nr_id x = id → x = r) → nr_id r = id →
  nr_id r' = id → nr_space_id r' = nr_space_id r → as_note d' r' = f (as_note d r) →
  (∀ x, nr_id x ≠ id → as_note d' x = as_note d x) →
  map (as_note d') (select_where (in_space sid) (update_where (keyed (nr_space_id r) id) (λ _, r') l))
  = (if String.eqb sid (nr_space_id r) then update_first id f else λ ns, ns) (map (as_note d) (select_where (in_space sid) l)).
Proof.
  intros Hnd Hr Hid Hid' Hs' Hf Ho. induction l as [|x l IH].
  { by destruct (String.eqb sid _). }
  cbn [map] in Hnd. apply NoDup_cons in Hnd as [Hx Hnd].
  specialize (IH Hnd (λ y Hy, Hr y (list_elem_of_further y x l Hy))).
  assert (String.eqb sid (nr_space_id r) = in_space sid r) as Es by (unfold in_space; apply String.eqb_sym).
  assert (in_space sid r' = in_space sid r) as Er' by (unfold in_space; by rewrite Hs').
  cbn [update_where map select_where List.filter]. fold (update_where (keyed (nr_space_id r) id) (λ _, r') l).
  destruct (decide (nr_id x = id)) as [Hxi|Hxi].
  - assert (x = r) as -> by (apply Hr; [by left|done]).
    rewrite (proj2 (keyed_true _ _ r) (conj eq_refl Hid)), Er', Es in *.
    assert (∀ y, y ∈ l → nr_id y ≠ id) as Hfresh.
    { intros y Hy Hyi. apply Hx. rewrite Hid, <- Hyi. by apply elem_of_map_in. }
    assert (map (as_note d') (select_where (in_space sid) (update_where (keyed (nr_space_id r) id) (λ _, r') l))
      = map (as_note d) (select_where (in_space sid) l)) as E.
    { rewrite update_nothing.
      - apply map_ext_in. intros y Hy%list_elem_of_In. apply elem_of_select in Hy as [Hy _]. by apply Ho, Hfresh.
      - intros y Hy. apply not_true_iff_false. intros [_ Hk]%keyed_true. by apply (Hfresh y). }
    unfold select_where in E |- *. destruct (in_space sid r); [|exact E].
    cbn [map]. rewrite Hf. cbn [update_first]. change (nm_id (as_note d r)) with (nr_id r). rewrite Hid, String.eqb_refl.
    by rewrite E.
  - assert (keyed (nr_space_id r) id x = false) as -> by (apply not_true_iff_false; by intros [_ ?]%keyed_true).
    unfold select_where in IH |- *. destruct (in_space sid x); [|exact IH]. cbn [map]. rewrite IH, Ho by done.
    destruct (String.eqb sid (nr_space_id r)); [|done]. cbn [update_first]. change (nm_id (as_note d x)) with (nr_id x).
    by rewrite (proj2 (String.eqb_neq _ _) Hxi).
Qed.

Lemma update_valid id r' sid d d1 : valid d → nr_id r' = id → nr_space_id r' = sid →
  (∀ r, r ∈ nd_notes d → nr_id r = id → nr_message_id r' = nr_message_id r ∧ nr_space_id r = sid) →
  is_Some (List.find (keyed sid id) (nd_notes d)) →
  nd_notes d1 = update_where (keyed sid id) (λ _, r') (nd_notes d) → nd_tags d1 = nd_tags d → nd_relations d1 = nd_relations d →
  ∀ d', parts_changed id d1 d' → valid d'.
Proof.
  intros [V1 V2 V3 V4] Hid Hsp Hm [r Hr] E1 E2 E3 d' [P1 P2 P3 P4].
  assert (map nr_id (nd_notes d') = map nr_id (nd_notes d)) as Eids.
  { rewrite P1, E1. apply update_column_keyed. intros x [_ ->]%keyed_true. done. }
  assert (id ∈ map nr_id (nd_notes d)) as Hin.
  { apply find_some in Hr as [Hin Hk]. apply keyed_true in Hk as [_ <-]. apply elem_of_map_in. by apply list_elem_of_In. }
  split; rewrite ?Eids; [done| | |].
  - rewrite P1, E1. unfold update_where. rewrite map_map.
    erewrite map_ext_in; [exact V2|]. intros x Hx%list_elem_of_In. destruct (keyed sid id x) eqn:Ek; [|done].
    apply keyed_true in Ek as [<- Hxi]. destruct (Hm x Hx Hxi) as [-> _]. by rewrite Hsp.
  - intros i t Hit. destruct (P3 i t Hit) as [Hit'| ->]; [|done]. rewrite E2 in Hit'. by eapply V3.
  - intros q Hq. destruct (P4 q Hq) as [Hq'|[-> ?]]; [|done]. rewrite E3 in Hq'. by apply V4.
Qed.

Lemma find_note_spec sid id d : valid d → find_note sid id d = (Ok (with_id id (notes_of sid d)), d).
Proof.
  intros Hv. rewrite with_id_rows. unfold find_note, transaction, find_in_session, gets, mbind, M_bind, lift_result.
  rewrite keyed_rows by done. by destruct (List.find _ _).
Qed.

Lemma read_times_same us d u d' : for_each us read_times d = Ok (u, d') → d' = d.
Proof.
  revert d. induction us as [|x us IH]; intros d; cbn [for_each]; [by intros [= _ <-]|].
  intros (a & d1 & E1 & E2)%bind_Ok. rewrite (IH _ E2).
  destruct x; cbn [read_times] in E1; try (revert E1; by intros [= _ <-]);
    apply bind_Ok in E1 as (t & d2 & [-> _]%parse_optional_Ok & [= _ <-]); done.
Qed.

(** The transaction of an update *)
Lemma update_in_session sid id us d u d' r :
  (for_each us read_times;; update_row sid id us;;
   match tags_given us with Some tags => replace_tags id tags | None => mret tt end;;
   match related_given us with Some targets => replace_relations id targets | None => mret tt end) d = Ok (u, d') →
  List.find (keyed sid id) (nd_notes d) = Some r →
  ∃ r', set_columns r us d = Ok (r', d)
    ∧ parts_changed id (d <| nd_notes := update_where (keyed sid id) (λ _, r') (nd_notes d) |>) d'
    ∧ tags_of id d' = default (tags_of id d) (tags_given us) ∧ related_of id d' = default (related_of id d) (related_given us).
Proof.
  intros (? & d0 & E0 & (? & d1 & E1 & (? & d2 & E2 & E3)%bind_Ok)%bind_Ok)%bind_Ok Hr.
  apply read_times_same in E0 as ->. unfold update_row in E1. rewrite Hr in E1.
  destruct (set_columns r us d) as [[r' d3]|] eqn:Ec; [|done].
  assert (d3 = d) as -> by (by destruct (set_columns_Ok us r d r' d3 [] [] Ec) as [-> _]).
  injection E1 as _ <-. exists r'. split; [done|].
  set (d1 := d <| nd_notes := _ |>) in *.
  assert (parts_changed id d1 d2 ∧ tags_of id d2 = default (tags_of id d) (tags_given us) ∧ related_of id d2 = related_of id d)
    as (P2 & T2 & R2).
  { destruct (tags_given us) as [tags|]; [by apply replace_tags_Ok in E2|]. by injection E2 as _ <-. }
  assert (parts_changed id d2 d' ∧ tags_of id d' = tags_of id d2 ∧ related_of id d' = default (related_of id d2) (related_given us))
    as (P3 & T3 & R3).
  { destruct (related_given us) as [targets|]; [by apply replace_relations_Ok in E3|]. by injection E3 as _ <-. }
  split_and!; [by etrans|by rewrite T3|by rewrite R3, R2].
Qed.

Lemma update_spec sid id us d r d' : valid d → is_Some (with_id id (notes_of sid d)) →
  update_note_metadata sid id us d = (r, d') → valid d' ∧
  match r with
  | Raise _ => same_notes d d'
  | Ok o => changes_notes sid (update_first id (with_metadata (map kept us))) d d' ∧ o = with_id id (notes_of sid d')
  end.
Proof.
  intros Hv Hsome. assert (∃ row, List.find (keyed sid id) (nd_notes d) = Some row) as [row Hrow].
  { rewrite with_id_rows in Hsome. destruct Hsome as [n Hn]. destruct (List.find _ _) as [row|]; [by exists row|done]. }
  unfold update_note_metadata, mbind at 1, IO_bind, transaction.
  match goal with |- context [match ?m d with _ => _ end] => destruct (m d) as [[u d2]|e] eqn:E end; [|by intros [= <- <-]].
  destruct (update_in_session sid id us d u d2 row E Hrow) as (r' & Ec & Hp & Ht & Hrel).
  destruct (set_columns_Ok us row d r' d (tags_of id d) (related_of id d) Ec) as (_ & K1 & K2 & K3 & Km).
  pose proof Hrow as [Hin%list_elem_of_In [Hsp Hid]%keyed_true]%find_some.
  assert (valid d2) as Hv2.
  { apply (update_valid id r' sid d (d <| nd_notes := update_where (keyed sid id) (λ _, r') (nd_notes d) |>)); try done; try congruence.
    intros x Hx Hxi. assert (x = row) as -> by (apply (key_unique nr_id (nd_notes d)); [apply Hv|done|done|congruence]). split; [done|congruence]. }
  rewrite find_note_spec by done. intros [= <- <-]. split; [done|]. split; [|done].
  intros sid'. simpl. rewrite (pc_notes _ _ _ Hp). simpl. rewrite <- Hsp.
  assert (∀ i, i ≠ id → tags_of i d2 = tags_of i d ∧ related_of i d2 = related_of i d) as Hothers by (intros i Hi; by apply (pc_others _ _ _ Hp)).
  etrans; [apply (update_notes_of d d2 id (with_metadata (map kept_metadata us)) row r' sid' (nd_notes d)); try done; try congruence|
    by destruct (String.eqb sid' (nr_space_id row))].
  - apply Hv.
  - intros x Hx Hxi. apply (key_unique nr_id (nd_notes d)); [apply Hv|done|done|congruence].
  - rewrite !as_note_row, K1, Hid, Ht, Hrel. symmetry. exact Km.
  - intros x Hx. apply as_note_parts; apply (Hothers _ Hx).
Qed.

Lemma parse_datetime_Ok v d t d' : parse_datetime v d = Ok (t, d') →
  d' = d ∧ t = if String.eqb v "" then nd_now d else default 0 (from_iso v).
Proof.
  unfold parse_datetime. destruct (String.eqb v ""); [by intros [= <- <-]|].
  destruct (from_iso v); [|done]. by intros [= <- <-].
Qed.

Lemma fresh_parts d id : valid d → id ∉ map nr_id (nd_notes d) → tags_of id d = [] ∧ related_of id d = [].
Proof.
  intros Hv Hid. unfold tags_of, related_of. rewrite !select_empty; [done| |].
  - intros r Hr. apply String.eqb_neq. intros <-. apply Hid. by apply (relations_owned _ Hv).
  - intros [i t] Hr. apply String.eqb_neq. simpl. intros <-. apply Hid. by eapply (tags_owned _ Hv).
Qed.

(** The effect of saving a note *)
Lemma save_in_session_Ok n d b d' : valid d → save_in_session n d = Ok (b, d') → valid d' ∧
  if has_message (nm_message_id n) (notes_of (home_space n d) d) then ∀ sid, notes_of sid d' = notes_of sid d
  else ∀ sid, notes_of sid d' = if String.eqb sid (home_space n d) then (notes_of sid d ++ [stored_note n d])%list else notes_of sid d.
Proof.
  intros Hv. unfold save_in_session. intros (sid0 & d1 & E1 & Hrest)%bind_Ok. unfold on_core in E1.
  assert (home_space n d = sid0 ∧ ∃ core, d1 = d <| nd_core := core |>) as [Hhome [core ->]].
  { unfold home_space. destruct (ensure_tenant_space _ _ _ _) as [[x core]|]; [|done]. injection E1 as -> <-. split; [done|by eexists]. }
  rewrite Hhome. clear E1.
  apply bind_Ok in Hrest as (t & ? & [-> Et]%parse_datetime_Ok & Hrest).
  apply bind_Ok in Hrest as (t1 & ? & [-> Et1]%parse_optional_Ok & Hrest).
  apply bind_Ok in Hrest as (t2 & ? & [-> Et2]%parse_optional_Ok & Hrest).
  apply bind_Ok in Hrest as (o & d2 & E2 & Hrest).
  set (row := NoteRow _ _ _ _ _ _ _ _ _ _ _ _ _ _ _) in E2.
  rewrite has_message_rows. unfold insert_note in E2. simpl in E2.
  destruct (existsb (of_message sid0 (nm_message_id n)) (nd_notes d)) eqn:Em.
  { injection E2 as <- <-. injection Hrest as _ <-. split; [|done]. destruct Hv. by split. }
  destruct (existsb (λ x, String.eqb (nr_id x) (nm_id n)) (nd_notes d)) eqn:Ei; [done|]. injection E2 as <- <-.
  apply bind_Ok in Hrest as (? & d3 & E3 & Hrest). apply bind_Ok in Hrest as (? & d4 & E4 & Hrest). injection Hrest as _ <-.
  assert (nm_id n ∉ map nr_id (nd_notes d)) as Hfresh.
  { intros (y & Hy & Hin)%elem_of_map. apply not_true_iff_false in Ei. apply Ei, existsb_exists. exists y.
    split; [by apply list_elem_of_In|by apply String.eqb_eq]. }
  set (d2 := _ <| nd_notes := _ |>) in E3.
  destruct (insert_tags (nm_id n) (nm_tags n) d2) as (d3' & E3' & N3 & C3 & R3 & W3 & T3 & O3 & M3).
  rewrite E3 in E3'. injection E3' as _ <-.
  destruct (insert_relations (nm_id n) (nm_related n) d3) as (d4' & E4' & N4 & C4 & R4 & W4 & T4 & O4 & M4).
  rewrite E4 in E4'. injection E4' as _ <-.
  destruct (fresh_parts d (nm_id n) Hv Hfresh) as [Ft Fr].
  assert (tags_of (nm_id n) d2 = [] ∧ related_of (nm_id n) d3 = []) as [Ft2 Fr3].
  { split; [exact Ft|]. unfold related_of. rewrite R3. exact Fr. }
  assert (∀ r, r ∈ nd_relations d3 → rel_source r = nm_id n → rel_kind r = "related") as Hkind.
  { rewrite R3. intros r Hr _. by apply (relations_owned _ Hv). }
  assert (∀ i, tags_of i d4 = tags_of i d3) as T43 by (intros i; unfold tags_of; by rewrite R4).
  assert (∀ i, related_of i d3 = related_of i d) as R32 by (intros i; unfold related_of; by rewrite R3).
  assert (nd_notes d4 = (nd_notes d ++ [row])%list) as N42 by (by rewrite N4, N3).
  assert (∀ r, r ∈ nd_notes d → as_note d4 r = as_note d r) as Hold.
  { intros r Hr. assert (nr_id r ≠ nm_id n) by (intros E; apply Hfresh; rewrite <- E; by apply elem_of_map_in).
    apply as_note_parts; [by rewrite T43, O3|by rewrite O4, R32]. }
  split.
  - split; rewrite ?N42, ?map_app.
    + apply NoDup_app. split_and!; [apply Hv| |apply NoDup_singleton]. intros y Hy ->%list_elem_of_singleton. done.
    + apply NoDup_app. split_and!; [apply Hv| |apply NoDup_singleton].
      intros y (r & <- & Hr)%elem_of_map Heq%list_elem_of_singleton. injection Heq as Hs Hm.
      apply not_true_iff_false in Em. apply Em, existsb_exists. exists r. split; [by apply list_elem_of_In|by apply of_message_true].
    + intros i y. rewrite R4. intros [->|Hx]%M3; apply elem_of_app; [right; by left|left; by eapply (tags_owned _ Hv)].
    + intros r [[Hr Hk]|Hr]%M4; [|rewrite R3 in Hr; destruct (relations_owned _ Hv r Hr); split; [apply elem_of_app; by left|done]].
      split; [apply elem_of_app; right; rewrite Hr; by left|done].
  - intros sid. simpl. rewrite N42. unfold select_where at 1. rewrite List.filter_app, map_app.
    assert (map (as_note d4) (List.filter (in_space sid) (nd_notes d)) = map (as_note d) (select_where (in_space sid) (nd_notes d))) as ->.
    { apply map_ext_in. intros r Hr%list_elem_of_In. apply elem_of_select in Hr as [Hr _]. by apply Hold. }
    simpl. change (in_space sid row) with (String.eqb sid0 sid). rewrite (String.eqb_sym sid0 sid).
    destruct (String.eqb_spec sid sid0) as [->|]; [|apply app_nil_r]. do 2 f_equal. simpl.
    rewrite as_note_row. change (nr_id row) with (nm_id n). rewrite T43, T3, T4, Ft2, Fr3 by done.
    unfold stored_note, row_note. rewrite Hhome. simpl. by rewrite Et, Et1, Et2.
Qed.

#[global] Instance db_laws : NoteLaws notes_db valid.
Proof.
  split.
  - intros sid. apply String.eqb_refl.
  - intros a b d ->%String.eqb_eq. done.
  - intros sid d Hv. exists d. split_and!; [done|done|]. eexists. split; [reflexivity|]. simpl.
    apply Permutation_map, sort_by_Permutation.
  - intros sid id d Hv. exists d. split_and!; [done|done|]. by apply find_note_spec.
  - intros sid mid d Hv. exists d. split_and!; [done|done|]. rewrite has_message_rows. simpl.
    unfold note_exists, transaction, gets, mbind, M_bind, lift_result. unfold select_where.
    assert (existsb (of_message sid mid) (nd_notes d) = match List.filter (of_message sid mid) (nd_notes d) with [] => false | _ => true end) as ->.
    { induction (nd_notes d) as [|r l IH]; simpl; [done|]. by destruct (of_message sid mid r). }
    by destruct (List.filter _ _).
  - intros n d r d' Hv. simpl. unfold save_note, transaction. destruct (save_in_session n d) as [[b d1]|e] eqn:E; intros [= <- <-]; [|done].
    destruct (save_in_session_Ok n d b d1 Hv E) as [Hv1 Hn]. split; [done|]. by destruct (has_message _ _).
  - intros sid id us d r d'. apply update_spec.
  - intros limit max_attempts d Hv. simpl. unfold list_pending_enrichments, transaction, gets, mbind, M_bind, mret, M_ret.
    eexists _, d. split_and!; [done|done|reflexivity| |].
    + rewrite length_map, length_take. lia.
    + intros sid id (r & [= <- <-] & Hr%in_take)%elem_of_map. rewrite elem_of_sort_by in Hr.
      apply elem_of_select in Hr as [Hr Hp]. exists (as_note d r). split_and!; [|done|].
      * apply elem_of_map_in, elem_of_select. split; [done|]. apply String.eqb_refl.
      * unfold awaits_enrichment. simpl. by apply andb_true_iff in Hp as [Hp _].
  - intros n d. simpl. split_and!; try done; intros Hne; unfold str_or; by rewrite (proj2 (String.eqb_neq _ _) Hne).
  - intros [| | | | | | | |v|v]; simpl; eauto 10.
Qed.

(** * The queries *)

Definition readable (space_id : string) (d : notes_db) (n : NoteMetadata) : Prop :=
  n ∈ notes_of space_id d ∧ nm_sensitivity n = "normal" ∧ Sensitive.contains_sensitive_data (nm_text n) = false.

(** What a query returns is in the space, of normal sensitivity, without sensitive text and of
    the kind that was asked for; the limit is kept. *)
Theorem queries_are_confined space_id q d :
  Z.of_nat (length (query_notes space_id q d)) <= Z.max 1 (Z.min (q_limit q) 500)
  ∧ ∀ n, n ∈ query_notes space_id q d → readable space_id d n
      ∧ (∀ t, q_note_type q = Some t → t ≠ "" → nm_type n = t)
      ∧ (q_enrichment_statuses q ≠ [] → nm_enrichment_status n ∈ q_enrichment_statuses q)
      ∧ (q_match_all_tags q = true → ∀ t, t ∈ q_tags q → t ∈ nm_tags n).
Proof.
  unfold query_notes. split; [rewrite length_take; lia|].
  intros n Hn%in_take. apply list_elem_of_In, filter_In in Hn as [Hn Hs]. apply negb_true_iff in Hs.
  apply list_elem_of_In, elem_of_map in Hn as (r & <- & Hr%in_take). rewrite elem_of_sort_by in Hr.
  apply elem_of_select in Hr as [Hr Hm]. unfold note_matches in Hm. rewrite !andb_true_iff in Hm.
  destruct Hm as [[[[[Hsp Hnorm] Hty] _] Hst] Htags]. apply String.eqb_eq in Hnorm. split; [|split_and!].
  - split_and!; [|done|done]. apply elem_of_map_in. by apply elem_of_select.
  - intros t Et Hne. rewrite Et in Hty. apply orb_true_iff in Hty as [?%String.eqb_eq|?%String.eqb_eq]; done.
  - intros Hne. destruct (q_enrichment_statuses q); [done|]. by apply py_in_true in Hst.
  - intros Hall t Ht. assert (t ∈ remove_dups (q_tags q)) as Htr by (by apply elem_of_remove_dups).
    destruct (remove_dups (q_tags q)) as [|t0 ts] eqn:Er; [by apply elem_of_nil in Htr|]. rewrite <- Er in *.
    unfold has_tags in Htags. rewrite Hall in Htags. apply andb_true_iff in Htags as [_ Hlen%Nat.eqb_eq].
    set (found := List.filter _ _) in Hlen.
    assert (found ⊆+ remove_dups (q_tags q)) as Hsub.
    { apply NoDup_submseteq; [apply NoDup_ListNoDup, List.NoDup_filter, NoDup_ListNoDup, NoDup_remove_dups|].
      intros x Hx. apply list_elem_of_In, filter_In in Hx as [_ Hx]. by apply bool_decide_eq_true in Hx. }
    assert (t ∈ found) as Hf.
    { rewrite (submseteq_length_Permutation _ _ Hsub); [done|]. by rewrite Hlen. }
    apply list_elem_of_In, filter_In in Hf as [Hf _]. apply list_elem_of_In in Hf. by rewrite elem_of_remove_dups in Hf.
Qed.
End postgres.
End PostgresNotes.

(** The row of a note is changed in its own space only; its tags are replaced whatever the space
    that is given, although the note is then not found. *)
#[local] Existing Instance test_platform.
#[local] Existing Instance ascii_tables.
#[local] Instance no_times : NoteTimes := {| from_iso := λ _, None; to_iso := λ _, "" |}.
Definition owned_note : note_row :=
  NoteRow "n1" "m1" "default" "a" 0 "tea" "生活" "tea" "tea" "ready" 1 None None None "normal".
Example tags_of_another_space core :
  let d := NotesDb core [owned_note] [("n1", "日常")] [] [] 0 in
  let '(r, d') := PostgresNotes.update_note_metadata "b" "n1" [UTitle "coffee"; UTags ["饮料"]] d in
  r = Ok None ∧ map nr_title (nd_notes d') = ["tea"] ∧ nd_tags d' = [("n1", "饮料")].
Proof. vm_compute. by split_and!. Qed.
