(* ===== verification/Vectors.v ===== *)
(** The vectors of the notes: the local store ([storage/vector_store.py]) and the one in the
    database ([repositories/postgres/vectors.py]), behind the interface [VectorStore].

    The arithmetic of floats and the distance that the database computes are parameters. *)

From stdpp Require Import base list strings gmap pretty.
From Stdlib Require Import ZArith Lia.
From S2P Require Import Prelude Schema TextChunks Regex Sensitive Memory Wal Notes NotesDb.

Open Scope string_scope.
Open Scope Z_scope.

Class Similarity := {
  f_zero : float;
  f_add : float → float → float;
  f_mul : float → float → float;
  f_div : float → float → float;
  f_sqrt : float → float;
  f_sub : float → float → float;
  f_one : float;
  f_eq : float → float → bool;
  f_lt : float → float → bool;
  cosine_distance : list float → list float → float;     (* of pgvector *)
  EMBEDDING_MODEL : string;
}.

(** [SearchResult] *)
Record search_result := SearchResult { sr_score : float; sr_item : VectorItem }.

(** The keyword arguments of [search_related]. *)
Record search_options := SearchOptions {
  so_top_k : Z;
  so_exclude_note_id : option string;
  so_min_score : option float;
}.

(** * The interface *)

(** [vector_known space_id note_id message_id s]: the note has a vector. *)
Class VectorStore (S : Type) := {
  vector_known : string → string → option string → S → bool;
  vector_item_exists : string → string → option string → IO S bool;
  add_vector_item : string → VectorItem → IO S bool;
  search_related : string → list float → search_options → IO S (list search_result);
}.

Section contract.
Context {S : Type} `{VectorStore S}.
Definition same_vectors (s s' : S) : Prop := ∀ sid id mid, vector_known sid id mid s' = vector_known sid id mid s.
Definition more_vectors (s s' : S) : Prop :=
  ∀ sid id mid, vector_known sid id mid s = true → vector_known sid id mid s' = true.
(** [search_related_note_ids] *)
Definition search_related_note_ids (space_id : string) (query : list float) (o : search_options) : IO S (list string) :=
  results ← search_related space_id query o; mret (map (λ r, v_note_id (sr_item r)) results).
End contract.

Class VectorLaws (S : Type) `{NoteStore S, VectorStore S} (valid : S → Prop) : Prop := {
  vector_exists_law : ∀ sid id mid s, valid s → ∃ s', valid s' ∧ same_notes s s' ∧ same_vectors s s' ∧
    vector_item_exists sid id mid s = (Ok (vector_known sid id mid s), s');
  add_vector_law : ∀ sid v s r s', valid s → add_vector_item sid v s = (r, s') → valid s' ∧ same_notes s s' ∧
    more_vectors s s' ∧ match r with
                        | Ok _ => v_note_id v ≠ "" → vector_known sid (v_note_id v) (Some (v_message_id v)) s' = true
                        | Raise _ => same_vectors s s'
                        end;
  note_vectors_law : ∀ s, valid s →
    (∀ sid, same_vectors s (load_index sid s).2) ∧ (∀ sid id, same_vectors s (find_note sid id s).2)
    ∧ (∀ sid mid, same_vectors s (note_exists sid mid s).2) ∧ (∀ n, more_vectors s (save_note n s).2)
    ∧ ∀ sid id us, more_vectors s (update_note_metadata sid id us s).2;
  search_vector_law : ∀ sid q o s r s', valid s → search_related sid q o s = (r, s') →
    valid s' ∧ same_notes s s' ∧ same_vectors s s';
  vector_space_law : ∀ a b id mid s, same_space a b = true → vector_known a id mid s = vector_known b id mid s;
}.

(** * The local files *)

Module LocalVectors.
Section local.
Context `{Platform, Unicode, NoteClock, Similarity}.

Definition items_of (space_id : string) (s : note_files) : list VectorItem :=
  default [] (nf_vectors s !! safe_space_id space_id).
Definition load_vector_items (space_id : string) : IO note_files (list VectorItem) := λ s,
  (Ok (items_of space_id s), LocalNotes.note_dir space_id s).
Definition save_vector_items (space_id : string) (items : list VectorItem) : IO note_files unit := λ s,
  (Ok tt, LocalNotes.note_dir space_id s <| nf_vectors := <[safe_space_id space_id := items]> (nf_vectors s) |>).

Definition same_item (note_id : string) (message_id : option string) (v : VectorItem) : bool :=
  String.eqb (v_note_id v) note_id
  || match message_id with Some m => String.eqb (v_message_id v) m | None => false end.
Definition vector_item_exists (space_id note_id : string) (message_id : option string) : IO note_files bool :=
  items ← load_vector_items space_id; mret (existsb (same_item note_id message_id) items).

Definition add_vector_item (space_id : string) (v : VectorItem) : IO note_files bool :=
  items ← load_vector_items space_id;
  if existsb (same_item (v_note_id v) (Some (v_message_id v))) items then mret false
  else save_vector_items space_id (items ++ [v])%list;; mret true.
Definition remove_vector_item (space_id note_id : string) : IO note_files bool :=
  items ← load_vector_items space_id;
  let kept := List.filter (λ v, negb (String.eqb (v_note_id v) note_id)) items in
  if Nat.eqb (length kept) (length items) then mret false
  else save_vector_items space_id kept;; mret true.

(** [sum], with a generator of products *)
Definition f_sum (l : list float) : float := fold_left f_add l f_zero.
Definition cosine_similarity (a b : list float) : result float :=
  if negb (Nat.eqb (length a) (length b))
  then Raise (ValueError ("Embedding dimensions differ: " +:+ pretty (length a) +:+ " != " +:+ pretty (length b)))
  else
    let dot := f_sum (zip_with f_mul a b) in
    let norm_a := f_sqrt (f_sum (map (λ x, f_mul x x) a)) in
    let norm_b := f_sqrt (f_sum (map (λ y, f_mul y y) b)) in
    if f_eq norm_a f_zero || f_eq norm_b f_zero then Ok f_zero
    else Ok (f_div dot (f_mul norm_a norm_b)).

(** May the item be shown: its sensitivity and its text *)
Definition shown (v : VectorItem) : bool :=
  py_in (str_casefold (opt_or (v_sensitivity v) "normal")) [""; "normal"; "none"]
  && negb (Sensitive.contains_sensitive_data (v_text v)).
Fixpoint scored (query : list float) (o : search_options) (items : list VectorItem) : result (list search_result) :=
  match items with
  | [] => Ok []
  | v :: items =>
      if bool_decide (so_exclude_note_id o = Some (v_note_id v)) || negb (shown v) then scored query o items
      else match cosine_similarity query (v_embedding v) with
           | Raise e => Raise e
           | Ok score =>
               if match so_min_score o with Some m => f_lt score m | None => false end then scored query o items
               else match scored query o items with
                    | Ok rs => Ok (SearchResult score v :: rs)
                    | Raise e => Raise e
                    end
           end
  end.
(** Falling scores; equal ones stay in order. *)
Definition at_least_as_good (a b : search_result) : bool := negb (f_lt (sr_score a) (sr_score b)).
Definition search_related (space_id : string) (query : list float) (o : search_options) : IO note_files (list search_result) :=
  if so_top_k o <=? 0 then mret []
  else
    items ← load_vector_items space_id;
    results ← io_lift (scored query o items);
    mret (take (Z.to_nat (so_top_k o)) (sort_by at_least_as_good results)).

#[global] Instance local_vectors : VectorStore note_files := {|
  vector_known sid id mid s := existsb (same_item id mid) (items_of sid s);
  Vectors.vector_item_exists := vector_item_exists;
  Vectors.add_vector_item := add_vector_item;
  Vectors.search_related := search_related;
|}.

(** ** The contract *)

Lemma valid_vectors s f : LocalNotes.valid s → LocalNotes.valid (s <| nf_vectors := f |>).
Proof. done. Qed.

#[global] Instance local_vector_laws : VectorLaws note_files LocalNotes.valid.
Proof.
  split.
  - intros sid id mid s Hv. exists (LocalNotes.note_dir sid s). split_and!; try done.
    + by apply LocalNotes.note_dir_valid.
    + apply LocalNotes.note_dir_same.
  - intros sid v s r s' Hv. simpl. unfold add_vector_item, load_vector_items, mbind, IO_bind, mret, IO_ret, save_vector_items.
    destruct (existsb _ (items_of sid s)) eqn:E; intros [= <- <-].
    + split_and!; [by apply LocalNotes.note_dir_valid|apply LocalNotes.note_dir_same|by intros ?|done].
    + set (s1 := _ <| nf_vectors := _ |>). assert (∀ sid' s0 s2, nf_vectors s2 = <[safe_space_id sid := (items_of sid s0 ++ [v])%list]> (nf_vectors s0) →
        items_of sid' s2 = (items_of sid' s0 ++ if String.eqb (safe_space_id sid') (safe_space_id sid) then [v] else [])%list) as Hi.
      { intros sid' s0 s2 Es. unfold items_of. rewrite Es.
        destruct (String.eqb_spec (safe_space_id sid') (safe_space_id sid)) as [->|]; [by rewrite lookup_insert_eq|].
        by rewrite lookup_insert_ne, app_nil_r by congruence. }
      split_and!.
      * apply valid_vectors. by apply LocalNotes.note_dir_valid, LocalNotes.note_dir_valid.
      * intros sid'. etrans; [apply (LocalNotes.note_dir_same sid (LocalNotes.note_dir sid s) sid')|].
        apply LocalNotes.note_dir_same.
      * intros sid' id mid Hk. simpl in Hk |- *. by rewrite (Hi sid' s s1 eq_refl), existsb_app, Hk.
      * intros _. simpl. rewrite (Hi sid s s1 eq_refl), String.eqb_refl, existsb_app. simpl. unfold same_item. rewrite !String.eqb_refl.
        apply orb_true_r.
  - intros s Hv. assert (∀ s', nf_vectors s' = nf_vectors s → same_vectors s s') as Hs
      by (intros s' E sid id mid; simpl; unfold items_of; by rewrite E).
    assert (∀ s', nf_vectors s' = nf_vectors s → more_vectors s s') as Hm
      by (intros s' E sid id mid Hk; by rewrite (Hs s' E)).
    split_and!; [by intros ?; apply Hs|by intros ??; apply Hs|by intros ??; apply Hs| |].
    + intros n. apply Hm. simpl. unfold LocalNotes.save_note, LocalNotes.note_exists, LocalNotes.load_index, LocalNotes.append_markdown_note,
        LocalNotes.append_index, LocalNotes.save_index, LocalNotes.load_index, mbind, IO_bind, mret, IO_ret, io_modify.
      destruct (has_message _ _); [done|]. by destruct (iso_date (nm_ts n)).
    + intros sid id us. apply Hm. simpl. unfold LocalNotes.update_note_metadata, LocalNotes.load_index, LocalNotes.save_index, mbind, IO_bind, mret, IO_ret, io_modify.
      by destruct (with_id _ _).
  - intros sid q o s r s' Hv. simpl. unfold search_related, load_vector_items, mbind, IO_bind, io_lift, mret, IO_ret.
    assert (LocalNotes.valid (LocalNotes.note_dir sid s) ∧ same_notes s (LocalNotes.note_dir sid s)
      ∧ same_vectors s (LocalNotes.note_dir sid s)) as Hd
      by (split_and!; [by apply LocalNotes.note_dir_valid|apply LocalNotes.note_dir_same|done]).
    destruct (so_top_k o <=? 0); [by intros [= _ <-]|]. destruct (scored _ _ _); by intros [= _ <-].
  - intros a b id mid s E%String.eqb_eq. simpl. unfold items_of. by rewrite E.
Qed.

(** What is found has a vector in the space and is not sensitive, is not the note that is left
    out, and reaches the score that is asked for. *)
Definition eligible (o : search_options) (r : search_result) : Prop :=
  shown (sr_item r) = true ∧ so_exclude_note_id o ≠ Some (v_note_id (sr_item r))
  ∧ ∀ m, so_min_score o = Some m → f_lt (sr_score r) m = false.

Lemma scored_eligible query o items rs : scored query o items = Ok rs →
  ∀ r, r ∈ rs → sr_item r ∈ items ∧ eligible o r ∧ cosine_similarity query (v_embedding (sr_item r)) = Ok (sr_score r).
Proof.
  revert rs. induction items as [|v items IH]; intros rs; cbn [scored]; [intros [= <-] r Hr; by apply elem_of_nil in Hr|].
  assert (∀ (k : list search_result) r, (∀ r, r ∈ k → sr_item r ∈ items ∧ eligible o r ∧ cosine_similarity query (v_embedding (sr_item r)) = Ok (sr_score r)) →
    r ∈ k → sr_item r ∈ v :: items ∧ eligible o r ∧ cosine_similarity query (v_embedding (sr_item r)) = Ok (sr_score r)) as Hk.
  { intros k r Hk Hr. destruct (Hk r Hr) as (? & ? & ?). split_and!; [by right|done|done]. }
  destruct (_ || _) eqn:E; [intros Hs r; by apply Hk, IH|]. apply orb_false_iff in E as [Hex%bool_decide_eq_false Hsh%negb_false_iff].
  destruct (cosine_similarity query (v_embedding v)) as [score|] eqn:Ec; [|done].
  destruct (match so_min_score o with Some m => f_lt score m | None => false end) eqn:Em; [intros Hs r; by apply Hk, IH|].
  destruct (scored query o items) as [k|] eqn:Es; [|done]. intros [= <-] r [->|Hr]%elem_of_cons; [|by apply (Hk k r (IH k eq_refl))].
  simpl. split_and!; [by left| |done]. split_and!; [done|done|]. intros m Hm. by rewrite Hm in Em.
Qed.

Theorem search_is_grounded space_id query o s rs s' : search_related space_id query o s = (Ok rs, s') →
  Z.of_nat (length rs) <= Z.max 0 (so_top_k o)
  ∧ ∀ r, r ∈ rs → sr_item r ∈ items_of space_id s ∧ eligible o r ∧ cosine_similarity query (v_embedding (sr_item r)) = Ok (sr_score r).
Proof.
  unfold search_related, load_vector_items, mbind, IO_bind, io_lift, mret, IO_ret. destruct (so_top_k o <=? 0) eqn:Ek.
  { intros [= <- _]. split; [simpl; lia|]. by intros r ?%elem_of_nil. }
  destruct (scored query o (items_of space_id s)) as [k|] eqn:Es; [|done]. intros [= <- _].
  split; [rewrite length_take; lia|]. intros r Hr%in_take. rewrite elem_of_sort_by in Hr. by apply (scored_eligible _ _ _ _ Es).
Qed.
End local.
End LocalVectors.

(** * The database *)

Module PostgresVectors.
Section postgres.
Context `{Platform, Unicode, NoteTimes, Similarity}.

(** The embeddings joined with the notes of a space *)
Definition in_space (space_id : string) (d : notes_db) (e : note_embedding) : bool :=
  existsb (λ r, String.eqb (nr_id r) (v_note_id (em_item e)) && String.eqb (nr_space_id r) space_id) (nd_notes d).
Definition note_of (d : notes_db) (e : note_embedding) : option note_row :=
  List.find (λ r, String.eqb (nr_id r) (v_note_id (em_item e))) (nd_notes d).

Definition load_vector_items (space_id : string) (d : notes_db) : list VectorItem :=
  map em_item (sort_by (λ a b, default 0 (nr_created_at <$> note_of d a) <=? default 0 (nr_created_at <$> note_of d b))
    (select_where (in_space space_id d) (nd_embeddings d))).

Definition joined (space_id note_id : string) (message_id : option string) (d : notes_db) (e : note_embedding) : bool :=
  in_space space_id d e
  && if negb (String.eqb note_id "") then String.eqb (v_note_id (em_item e)) note_id
     else if negb (String.eqb (default "" message_id) "")
     then bool_decide ((nr_message_id <$> note_of d e) = message_id) else true.
Definition vector_item_exists (space_id note_id : string) (message_id : option string) : IO notes_db bool := transaction (
  rows ← gets (λ d, take 1 (select_where (joined space_id note_id message_id d) (nd_embeddings d)));
  row ← lift_result (scalar_one_or_none rows);
  mret (match row with Some _ => true | None => false end)).

Definition same_key (a b : note_embedding) : bool :=
  String.eqb (v_note_id (em_item a)) (v_note_id (em_item b)) && String.eqb (em_model a) (em_model b).
Definition add_vector_item (space_id : string) (v : VectorItem) : IO notes_db bool :=
  if negb (Nat.eqb (length (v_embedding v)) 1024)
  then throw (ValueError ("PostgreSQL note embedding must have 1024 dimensions, got " +:+ pretty (length (v_embedding v))))
  else transaction (
    rows ← gets (λ d, map nr_space_id (select_where (λ r, String.eqb (nr_id r) (v_note_id v)) (nd_notes d)));
    note_space ← lift_result (scalar_one_or_none rows);
    match note_space with
    | None => raise (ValueError ("note does not exist: " +:+ v_note_id v))
    | Some note_space =>
        if negb (String.eqb note_space space_id) then raise (ValueError "note belongs to a different space")
        else
          let e := NoteEmbedding EMBEDDING_MODEL v in
          taken ← gets (λ d, existsb (same_key e) (nd_embeddings d));
          if taken : bool then mret false
          else modify (λ d, d <| nd_embeddings := (nd_embeddings d ++ [e])%list |>);; mret true
    end).
(** [.first()] of what was deleted *)
Definition remove_vector_item (space_id note_id : string) : IO notes_db bool := transaction (
  found ← gets (λ d, existsb (λ e, String.eqb (v_note_id (em_item e)) note_id && in_space space_id d e) (nd_embeddings d));
  modify (λ d, d <| nd_embeddings := List.filter
    (λ e, negb (String.eqb (v_note_id (em_item e)) note_id && in_space space_id d e)) (nd_embeddings d) |>);;
  mret found).
Definition save_vector_items (space_id : string) (items : list VectorItem) : IO notes_db unit :=
  old ← io_gets (load_vector_items space_id);
  let incoming := map v_note_id items in
  let gone := List.filter (λ id, negb (bool_decide (id ∈ incoming))) (remove_dups (map v_note_id old)) in
  io_for gone tt (λ _ id, remove_vector_item space_id id;; mret tt);;
  io_for items tt (λ _ v, add_vector_item space_id v;; mret tt).

Definition score (query : list float) (e : note_embedding) : float := f_sub f_one (cosine_distance query (v_embedding (em_item e))).
Definition found (space_id : string) (query : list float) (o : search_options) (d : notes_db) (e : note_embedding) : bool :=
  existsb (λ r, String.eqb (nr_id r) (v_note_id (em_item e)) && String.eqb (nr_space_id r) space_id
                && String.eqb (nr_sensitivity r) "normal") (nd_notes d)
  && match so_exclude_note_id o with
     | Some id => String.eqb id "" || negb (String.eqb (v_note_id (em_item e)) id)
     | None => true
     end
  && match so_min_score o with Some m => negb (f_lt (score query e) m) | None => true end.
Definition nearer (query : list float) (a b : note_embedding) : bool :=
  negb (f_lt (cosine_distance query (v_embedding (em_item b))) (cosine_distance query (v_embedding (em_item a)))).
Definition search_related (space_id : string) (query : list float) (o : search_options) : IO notes_db (list search_result) :=
  if so_top_k o <=? 0 then mret []
  else if negb (Nat.eqb (length query) 1024)
  then throw (ValueError ("PostgreSQL query embedding must have 1024 dimensions, got " +:+ pretty (length query)))
  else transaction (
    rows ← gets (λ d, take (Z.to_nat (Z.max 1 (so_top_k o)))
      (sort_by (nearer query) (select_where (found space_id query o d) (nd_embeddings d))));
    mret (map (λ e, SearchResult (score query e) (em_item e))
      (List.filter (λ e, negb (Sensitive.contains_sensitive_data (v_text (em_item e)))) rows))).

#[global] Instance db_vectors : VectorStore notes_db := {|
  vector_known sid id mid d := existsb (joined sid id mid d) (nd_embeddings d);
  Vectors.vector_item_exists := vector_item_exists;
  Vectors.add_vector_item := add_vector_item;
  Vectors.search_related := search_related;
|}.

(** ** The contract *)

(** The keys of the notes, which are only added to *)
Definition note_keys (d : notes_db) : list (string * string * string) :=
  map (λ r, (nr_id r, nr_space_id r, nr_message_id r)) (nd_notes d).
Definition grown (d d' : notes_db) : Prop :=
  nd_embeddings d' = nd_embeddings d ∧ note_keys d `prefix_of` note_keys d'.
#[local] Instance grown_preorder : PreOrder grown.
Proof. split; [by intros d|]. intros a b c [E1 P1] [E2 P2]. split; [congruence|by etrans]. Qed.

Lemma grown_joined sid id mid e d d' : grown d d' → joined sid id mid d e = true → joined sid id mid d' e = true.
Proof.
  intros [_ [more Hk]]. unfold note_keys in Hk.
  assert (∀ l, existsb (λ r, String.eqb (nr_id r) (v_note_id (em_item e)) && String.eqb (nr_space_id r) sid) l
    = existsb (λ k, String.eqb k.1.1 (v_note_id (em_item e)) && String.eqb k.1.2 sid) (map (λ r, (nr_id r, nr_space_id r, nr_message_id r)) l)) as Es.
  { induction l as [|r l IH]; simpl; [done|]. by rewrite IH. }
  assert (∀ l, nr_message_id <$> List.find (λ r, String.eqb (nr_id r) (v_note_id (em_item e))) l
    = snd <$> List.find (λ k, String.eqb k.1.1 (v_note_id (em_item e))) (map (λ r, (nr_id r, nr_space_id r, nr_message_id r)) l)) as Em.
  { induction l as [|r l IH]; simpl; [done|]. by destruct (String.eqb _ _). }
  unfold joined, in_space, note_of. rewrite !Es, !Em, Hk. set (keys := map _ (nd_notes d)).
  rewrite !andb_true_iff, existsb_app. intros [Hin Hj]. split; [by rewrite Hin|].
  destruct (negb (String.eqb id "")); [done|]. destruct (negb (String.eqb (default "" mid) "")) eqn:Hm; [|done].
  apply bool_decide_eq_true in Hj. apply bool_decide_eq_true. rewrite <- Hj.
  assert (∀ (p : string * string * string → bool) l, is_Some (List.find p l) → List.find p (l ++ more) = List.find p l) as Hf.
  { intros p l [x Hx]. induction l as [|y l IH]; simpl in *; [done|]. destruct (p y); [done|auto]. }
  f_equal. apply Hf. destruct (List.find _ keys); [by eexists|]. simpl in Hj. by rewrite <- Hj in Hm.
Qed.
Lemma grown_vectors d d' : grown d d' → more_vectors d d'.
Proof.
  intros Hg sid id mid. simpl. rewrite (proj1 Hg), !existsb_exists. intros (e & Hin & He). exists e. split; [done|].
  by eapply grown_joined.
Qed.

Lemma parse_grows v : sat grown (PostgresNotes.parse_datetime v).
Proof. intros d t d' E. by apply PostgresNotes.parse_datetime_Ok in E as [-> _]. Qed.
Lemma parse_optional_grows v : sat grown (PostgresNotes.parse_optional v).
Proof. intros d t d' E. by apply PostgresNotes.parse_optional_Ok in E as [-> _]. Qed.
Lemma on_core_grows {A} (m : Schema.session A) : sat grown (PostgresNotes.on_core m).
Proof. intros d a d'. unfold PostgresNotes.on_core. destruct (m (nd_core d)) as [[x core]|]; [|done]. by intros [= _ <-]. Qed.
Lemma insert_note_grows r : sat grown (PostgresNotes.insert_note r).
Proof.
  intros d a d'. unfold PostgresNotes.insert_note. destruct (existsb _ _); [by intros [= _ <-]|].
  destruct (existsb _ _); [done|]. intros [= _ <-]. split; [done|]. unfold note_keys. simpl. rewrite map_app. by eexists.
Qed.
Lemma insert_tag_grows id t : sat grown (PostgresNotes.insert_tag id t).
Proof. apply sat_modify. intros d. by case_bool_decide. Qed.
Lemma insert_relation_grows id t : sat grown (PostgresNotes.insert_relation id t).
Proof. apply sat_modify. intros d. simpl. by case_bool_decide. Qed.
Lemma replace_tags_grows id l : sat grown (PostgresNotes.replace_tags id l).
Proof.
  unfold PostgresNotes.replace_tags, PostgresNotes.add_tag. sat_auto; try done. intros d y d'.
  case_bool_decide; [done|]. unfold PostgresNotes.check_note, mbind, M_bind, modify. destruct (existsb _ _); [|done]. by intros [= _ <-].
Qed.
Lemma replace_relations_grows id l : sat grown (PostgresNotes.replace_relations id l).
Proof.
  unfold PostgresNotes.replace_relations, PostgresNotes.add_relation. sat_auto; try done. intros d y d'.
  case_bool_decide; [done|]. unfold PostgresNotes.check_note, mbind, M_bind, modify. destruct (existsb _ _); [|done]. by intros [= _ <-].
Qed.
Lemma find_in_session_same sid id d a d' : PostgresNotes.find_in_session sid id d = Ok (a, d') → d' = d.
Proof.
  unfold PostgresNotes.find_in_session, gets, mbind, M_bind, lift_result. destruct (scalar_one_or_none _); [|done]. by intros [= _ <-].
Qed.
Lemma save_grows n : sat grown (PostgresNotes.save_in_session n).
Proof.
  unfold PostgresNotes.save_in_session. sat_auto;
    auto using parse_grows, parse_optional_grows, on_core_grows, insert_note_grows, insert_tag_grows, insert_relation_grows.
Qed.

Lemma update_row_grows sid id us d u d' : PostgresNotes.valid d → PostgresNotes.update_row sid id us d = Ok (u, d') → grown d d'.
Proof.
  intros Hv. unfold PostgresNotes.update_row. destruct (List.find _ _) as [r|] eqn:Er; [|by intros [= _ <-]].
  destruct (PostgresNotes.set_columns r us d) as [[r' d1]|] eqn:Ec; [|done]. intros [= _ <-]. split; [done|].
  destruct (PostgresNotes.set_columns_Ok us r d r' d1 [] [] Ec) as (_ & K1 & K2 & K3 & _).
  apply find_some in Er as [Hin%list_elem_of_In Hk]. unfold note_keys. simpl. unfold update_where. rewrite map_map.
  match goal with |- ?k `prefix_of` ?l => replace l with k; [done|apply map_ext_in] end.
  intros x Hx%list_elem_of_In. destruct (PostgresNotes.keyed sid id x) eqn:Ex; [|done].
  apply PostgresNotes.keyed_true in Ex as [_ Ei], Hk as [_ Ei']. assert (x = r) as ->; [|by rewrite K1, K2, K3].
  apply (key_unique nr_id (nd_notes d)); [apply Hv|done|done|congruence].
Qed.

#[global] Instance db_vector_laws : VectorLaws notes_db PostgresNotes.valid.
Proof.
  split.
  - intros sid id mid d Hv. exists d. split_and!; [done|by intros ?|by intros ?|]. simpl.
    unfold vector_item_exists, transaction, gets, mbind, M_bind, lift_result, select_where.
    assert (existsb (joined sid id mid d) (nd_embeddings d)
      = match List.filter (joined sid id mid d) (nd_embeddings d) with [] => false | _ => true end) as ->.
    { induction (nd_embeddings d) as [|e l IH]; simpl; [done|]. by destruct (joined sid id mid d e). }
    by destruct (List.filter _ _).
  - intros sid v d r d' Hv. simpl. unfold add_vector_item. destruct (negb (Nat.eqb (length (v_embedding v)) 1024)).
    { intros [= <- <-]. split_and!; [done|by intros ?|by intros ?|by intros ?]. }
    unfold transaction, gets, modify, mbind, M_bind, lift_result.
    destruct (scalar_one_or_none _) as [o|e] eqn:Es; [|intros [= <- <-]; split_and!; [done|by intros ?|by intros ?|by intros ?]].
    destruct o as [sp|]; [|intros [= <- <-]; split_and!; [done|by intros ?|by intros ?|by intros ?]].
    destruct (negb (String.eqb sp sid)) eqn:Esp; [intros [= <- <-]; split_and!; [done|by intros ?|by intros ?|by intros ?]|].
    assert (∀ e, v_note_id (em_item e) = v_note_id v → v_note_id v ≠ "" → joined sid (v_note_id v) (Some (v_message_id v)) d e = true) as Hj.
    { intros e He Hne. unfold joined. rewrite (proj2 (String.eqb_neq _ _) Hne). simpl. rewrite He, String.eqb_refl, andb_true_r.
      apply negb_false_iff, String.eqb_eq in Esp as ->. apply scalar_one_or_none_Some in Es.
      destruct (select_where _ (nd_notes d)) as [|x [|y l]] eqn:El; [done| |done]. injection Es as Ex.
      assert (x ∈ [x]) as Hx by (by left). rewrite <- El in Hx. apply elem_of_select in Hx as [Hx Hid].
      unfold in_space. apply existsb_exists. exists x. split; [by apply list_elem_of_In|]. rewrite He, Hid. simpl. by apply String.eqb_eq. }
    destruct (existsb (same_key _) (nd_embeddings d)) eqn:Et; intros [= <- <-].
    + split_and!; [done|by intros ?|by intros ?|]. intros Hne. apply existsb_exists in Et as (e & Hin & He).
      apply existsb_exists. exists e. split; [done|]. apply andb_true_iff in He as [He%String.eqb_eq _]. by apply Hj.
    + split_and!; [by destruct Hv|by intros ?| |].
      * intros sid' id mid Hk. simpl in Hk |- *. rewrite existsb_app. apply orb_true_iff. by left.
      * intros Hne. simpl. rewrite existsb_app. apply orb_true_iff. right. simpl. rewrite orb_false_r. by apply Hj.
  - intros d Hv. split_and!.
    + by intros sid.
    + intros sid id. simpl. unfold PostgresNotes.find_note, transaction.
      destruct (PostgresNotes.find_in_session sid id d) as [[n d1]|] eqn:E; [|by intros ?].
      by apply find_in_session_same in E as ->.
    + intros sid mid. simpl. unfold PostgresNotes.note_exists, transaction, gets, mbind, M_bind, lift_result.
      by destruct (scalar_one_or_none _).
    + intros n. apply grown_vectors. simpl. unfold PostgresNotes.save_note, transaction.
      destruct (PostgresNotes.save_in_session n d) as [[b d1]|e] eqn:E; [|done]. by apply save_grows in E.
    + intros sid id us. apply grown_vectors. simpl. unfold PostgresNotes.update_note_metadata, mbind at 1, IO_bind, transaction.
      match goal with |- context [match ?m d with _ => _ end] => destruct (m d) as [[u d2]|e] eqn:E end; [|done].
      assert (grown d d2) as Hg; [|by unfold PostgresNotes.find_note, transaction; destruct (PostgresNotes.find_in_session sid id d2) as [[found_note d3]|] eqn:Ef;
        [apply find_in_session_same in Ef as ->|]].
      apply bind_Ok in E as (? & d0 & E0 & (? & d1 & E1 & E2)%bind_Ok). apply PostgresNotes.read_times_same in E0 as ->.
      etrans; [by eapply update_row_grows|]. revert E2. match goal with |- ?m d1 = _ → _ => assert (sat grown m) as Hm; [|apply Hm] end.
      sat_auto; auto using replace_tags_grows, replace_relations_grows.
  - intros sid q o d r d' Hv. simpl. unfold search_related.
    destruct (so_top_k o <=? 0); [by intros [= _ <-]|]. destruct (negb _); by intros [= _ <-].
  - by intros a b id mid d ->%String.eqb_eq.
Qed.
End postgres.
End PostgresVectors.
