(* ===== verification/TaskRegistry.v ===== *)
(** The tasks of the local mode ([runtime/task.py]) and the registry that keeps them
    ([runtime/task_registry.py]): counters, the history of finished tasks and its pruning.

    The registry holds the tasks themselves, so that a change of a task is a change of its
    entry.  The measured durations are left out. *)

From stdpp Require Import base list strings.
From Stdlib Require Import ZArith Lia.
From S2P Require Import Prelude Memory.

Open Scope string_scope.
Open Scope Z_scope.

(** [Task]; the payload is left out. *)
Record local_task := LocalTask {
  lt_id : string;
  lt_task_type : string;
  lt_space_id : string;
  lt_message_id : option string;
  lt_status : string;
  lt_created_at : string;
  lt_started_at : option string;
  lt_finished_at : option string;
  lt_error : option string;
}.
#[export] Instance local_task_eta : Eta local_task := λ r,
  LocalTask (lt_id r) (lt_task_type r) (lt_space_id r) (lt_message_id r) (lt_status r) (lt_created_at r)
    (lt_started_at r) (lt_finished_at r) (lt_error r).

Definition TASK_QUEUED : string := "queued".
Definition TASK_RUNNING : string := "running".
Definition TASK_SUCCESS : string := "success".
Definition TASK_FAILED : string := "failed".
Definition TASK_REJECTED : string := "rejected".

(** [TaskRegistry]: the dictionary in its order, and the counters *)
Record registry := Registry {
  rg_tasks : list local_task;
  rg_success : Z;
  rg_failed : Z;
  rg_rejected : Z;
  rg_timeout : option (string * string);
}.
#[export] Instance registry_eta : Eta registry := λ r,
  Registry (rg_tasks r) (rg_success r) (rg_failed r) (rg_rejected r) (rg_timeout r).
Definition no_tasks : registry := Registry [] 0 0 0 None.

(** The clock of the machine in its two forms, and the settings. *)
Class RegistryEnv := {
  parse_iso : string → Z;            (* [_parse_iso] of a text that is not empty *)
  TASK_HISTORY_LIMIT : Z;
  TASK_HISTORY_TTL_HOURS : Z;
}.

Section registry.
Context `{Platform, RegistryEnv}.

(** [self._tasks[task.id] = task] *)
Fixpoint put_task (t : local_task) (ts : list local_task) : list local_task :=
  match ts with
  | [] => [t]
  | u :: rest => if String.eqb (lt_id u) (lt_id t) then t :: rest else u :: put_task t rest
  end.
Definition find_task (id : string) (ts : list local_task) : option local_task :=
  List.find (λ t, String.eqb (lt_id t) id) ts.

(** [_prune_finished_tasks] *)
Definition is_protected (t : local_task) : bool := py_in (lt_status t) [TASK_QUEUED; TASK_RUNNING].
Definition hours (n : Z) : Z := n * 3600 * 1000000.
(** [_parse_iso(task.finished_at)]; a missing time is the smallest one. *)
Definition recently_failed (now : instant) (t : local_task) : bool :=
  String.eqb (lt_status t) TASK_FAILED
  && match lt_finished_at t with
     | Some f => negb (String.eqb f "") && (now_time now - hours TASK_HISTORY_TTL_HOURS <=? parse_iso f)
     | None => false
     end.
Definition finished_key (t : local_task) : string := str_or (default "" (lt_finished_at t)) (lt_created_at t).
Definition keep_recent (ts : list local_task) : list string :=
  map lt_id (take (Z.to_nat TASK_HISTORY_LIMIT)
    (sort_by (λ a b, text_leb (finished_key b) (finished_key a)) (List.filter (λ t, negb (is_protected t)) ts))).
Definition prune_finished_tasks (now : instant) (r : registry) : registry :=
  let ts := rg_tasks r in
  let recent := keep_recent ts in
  r <| rg_tasks := List.filter (λ t, is_protected t || recently_failed now t || py_in (lt_id t) recent) ts |>.

Definition add (t : local_task) (r : registry) : registry := r <| rg_tasks := put_task t (rg_tasks r) |>.

Definition reject (t : local_task) (error : string) (now : instant) (r : registry) : registry :=
  let t := t <| lt_status := TASK_REJECTED |> <| lt_finished_at := Some (now_iso now) |> <| lt_error := Some error |> in
  prune_finished_tasks now (add t r <| rg_rejected := rg_rejected r + 1 |>).

Definition mark_running (id : string) (now : instant) (r : registry) : result registry :=
  match find_task id (rg_tasks r) with
  | None => Raise (KeyError id)
  | Some t => Ok (add (t <| lt_status := TASK_RUNNING |> <| lt_started_at := Some (now_iso now) |>) r)
  end.

Definition mark_success (id : string) (now : instant) (r : registry) : result registry :=
  match find_task id (rg_tasks r) with
  | None => Raise (KeyError id)
  | Some t =>
      Ok (prune_finished_tasks now
            (add (t <| lt_status := TASK_SUCCESS |> <| lt_finished_at := Some (now_iso now) |>) r
               <| rg_success := rg_success r + 1 |>))
  end.

(** [_looks_like_timeout] *)
Definition looks_like_timeout (error : string) : bool :=
  let lowered := str_casefold error in
  existsb (λ m, Consistency.str_contains m lowered) ["timeout"; "timed out"; "超时"].

Definition mark_failed (id error : string) (now : instant) (r : registry) : result registry :=
  match find_task id (rg_tasks r) with
  | None => Raise (KeyError id)
  | Some t =>
      let t := t <| lt_status := TASK_FAILED |> <| lt_finished_at := Some (now_iso now) |> <| lt_error := Some error |> in
      Ok (prune_finished_tasks now
            (add t r <| rg_failed := rg_failed r + 1 |>
               <| rg_timeout := if looks_like_timeout error then Some (now_iso now, error) else rg_timeout r |>))
  end.

(** The numbers of [get_stats] *)
Definition running_count (r : registry) : Z := Z.of_nat (length (List.filter (λ t, String.eqb (lt_status t) TASK_RUNNING) (rg_tasks r))).
Definition queued_count (r : registry) : Z := Z.of_nat (length (List.filter (λ t, String.eqb (lt_status t) TASK_QUEUED) (rg_tasks r))).
Definition retained_count (r : registry) : Z := Z.of_nat (length (rg_tasks r)).
End registry.

(** * What the registry keeps *)

Section facts.
Context `{Platform, RegistryEnv}.

Lemma find_put id t ts : find_task id (put_task t ts) = if String.eqb (lt_id t) id then Some t else find_task id ts.
Proof.
  unfold find_task. induction ts as [|u ts IH]; simpl; [done|].
  destruct (String.eqb (lt_id u) (lt_id t)) eqn:E; simpl.
  - apply String.eqb_eq in E. rewrite E. by destruct (String.eqb (lt_id t) id).
  - rewrite IH. destruct (String.eqb (lt_id u) id) eqn:Eu; [|done].
    apply String.eqb_eq in Eu as <-. apply String.eqb_neq in E. by rewrite (proj2 (String.eqb_neq _ _)).
Qed.

Lemma put_ids t ts id : id ∈ map lt_id (put_task t ts) ↔ id = lt_id t ∨ id ∈ map lt_id ts.
Proof.
  induction ts as [|u ts IH]; simpl; [rewrite list_elem_of_singleton; rewrite elem_of_nil; tauto|].
  destruct (String.eqb (lt_id u) (lt_id t)) eqn:E; simpl; rewrite !elem_of_cons; [|rewrite IH; tauto].
  apply String.eqb_eq in E as ->. tauto.
Qed.
Lemma put_distinct t ts : NoDup (map lt_id ts) → NoDup (map lt_id (put_task t ts)).
Proof.
  induction ts as [|u ts IH]; simpl; [intros _; apply NoDup_singleton|]. intros [Hu Hnd]%NoDup_cons.
  destruct (String.eqb (lt_id u) (lt_id t)) eqn:E; simpl; apply NoDup_cons.
  - apply String.eqb_eq in E as <-. done.
  - apply String.eqb_neq in E. split; [|auto]. rewrite put_ids. intros [?|?]; done.
Qed.
Lemma in_put t u ts : u ∈ put_task t ts → u = t ∨ u ∈ ts ∧ (lt_id u ≠ lt_id t ∨ ¬ NoDup (map lt_id ts)).
Proof.
  induction ts as [|v ts IH]; simpl; [intros ->%list_elem_of_singleton; by left|].
  destruct (String.eqb (lt_id v) (lt_id t)) eqn:E; intros [->|Hu]%elem_of_cons.
  - by left.
  - right. split; [by right|]. apply String.eqb_eq in E. destruct (decide (lt_id u = lt_id t)) as [Eu|]; [|by left].
    right. intros [Hv _]%NoDup_cons. apply Hv. rewrite E, <- Eu. by apply elem_of_map_in.
  - right. split; [by left|]. apply String.eqb_neq in E. by left.
  - destruct (IH Hu) as [->|[Hin [Hne|Hnd]]]; [by left|right; split; [by right|by left]|].
    right. split; [by right|]. right. intros [_ ?]%NoDup_cons. done.
Qed.

Lemma find_some id t ts : find_task id ts = Some t → t ∈ ts ∧ lt_id t = id.
Proof. intros [Ht E]%List.find_some. bools. split; [by apply list_elem_of_In|done]. Qed.

Lemma find_filter id t (p : local_task → bool) ts :
  find_task id ts = Some t → p t = true → find_task id (List.filter p ts) = Some t.
Proof.
  unfold find_task. induction ts as [|u ts IH]; simpl; [done|].
  destruct (String.eqb (lt_id u) id) eqn:E.
  - intros [= ->] Hp. rewrite Hp. simpl. by rewrite E.
  - intros Hf Hp. destruct (p u); simpl; [rewrite E|]; auto.
Qed.

(** Pruning keeps the tasks that wait or run, and nothing but tasks. *)
Lemma find_prune now r id t : find_task id (rg_tasks r) = Some t → is_protected t = true →
  find_task id (rg_tasks (prune_finished_tasks now r)) = Some t.
Proof. intros Hf Hp. apply find_filter; [done|]. by rewrite Hp. Qed.
Lemma in_prune now r t : t ∈ rg_tasks (prune_finished_tasks now r) → t ∈ rg_tasks r.
Proof. simpl. rewrite !list_elem_of_In, filter_In. tauto. Qed.
Lemma prune_distinct now r : NoDup (map lt_id (rg_tasks r)) → NoDup (map lt_id (rg_tasks (prune_finished_tasks now r))).
Proof. apply (NoDup_select lt_id). Qed.

(** The history that is kept besides the recent failures. *)
Definition history (now : instant) (r : registry) : list local_task :=
  List.filter (λ t, negb (is_protected t) && negb (recently_failed now t)) (rg_tasks r).

Lemma prune_bounds now r : NoDup (map lt_id (rg_tasks r)) →
  (length (history now (prune_finished_tasks now r)) ≤ Z.to_nat TASK_HISTORY_LIMIT)%nat.
Proof.
  intros Hnd. rewrite <- (length_map lt_id).
  transitivity (length (keep_recent (rg_tasks r))).
  - apply submseteq_length, NoDup_submseteq; [by apply (NoDup_select lt_id), prune_distinct|].
    intros id (t & <- & Ht)%elem_of_map. apply list_elem_of_In, filter_In in Ht as [Ht Hp].
    apply filter_In in Ht as [_ Hk]. apply andb_true_iff in Hp as [Hp Hf]. apply negb_true_iff in Hp, Hf.
    rewrite Hp, Hf in Hk. by apply py_in_true in Hk.
  - unfold keep_recent. rewrite length_map, length_take. lia.
Qed.
End facts.
