(* ===== verification/LocalExecutor.v ===== *)
(** The executor of the local mode ([runtime/executor.py]): a bounded pool for ingestion, queries
    and summaries, and one for the enrichment of notes.

    The threads interleave at their atomic actions: the acquisition of a semaphore, the bodies
    under a lock, the submission to a pool.  A thread is the place where it is; a pool of the
    library runs at most as many jobs as it has workers, in any order, and refuses jobs once it
    is shut down.  What a job does is an arbitrary outcome, the submission of further jobs
    included. *)

From stdpp Require Import base list strings.
From Stdlib Require Import ZArith Lia.
From S2P Require Import Prelude Memory TaskRegistry.

Open Scope string_scope.
Open Scope Z_scope.

(** A message of a space, or a note of it. *)
Definition key : Type := string * string.

(** Where a thread is.  The first group are the steps of [submit_ingest] and [_submit], the
    second the job of [_run_task], the third [submit_enrichment] and [_run_enrichment]; the key is
    the message that is reserved for the thread. *)
Inductive thread :=
  | Reserve (t : local_task)
  | CheckShutdown (t : local_task) (k : option key)
  | AcquireSlot (t : local_task) (k : option key)
  | Register (t : local_task) (k : option key)
  | Enqueue (t : local_task) (k : option key)
  | Refuse (t : local_task) (k : option key) (error : string)
  | Unreserve (k : key)
  | Queued (t : local_task) (k : option key)
  | Running (t : local_task) (k : option key)
  | Finish (k : option key)
  | ReleaseSlot
  | Lost (t : local_task) (k : option key)          (* the pool refused the job: RuntimeError *)
  | CheckEnrichment (k : key)
  | ReserveEnrichment (k : key)
  | EnqueueEnrichment (k : key)
  | QueuedEnrichment (k : key)
  | RunningEnrichment (k : key)
  | ReleaseEnrichment
  | LostEnrichment (k : key).

(** What the threads share. *)
Record shared := Shared {
  slots : Z;
  enrichment_slots : Z;
  inflight_ingest : list key;
  inflight_enrichment : list key;
  shutting_down : bool;
  pool_closed : bool;
  enrichment_pool_closed : bool;
  tasks : registry;
}.
#[export] Instance shared_eta : Eta shared := λ r,
  Shared (slots r) (enrichment_slots r) (inflight_ingest r) (inflight_enrichment r) (shutting_down r)
    (pool_closed r) (enrichment_pool_closed r) (tasks r).

Definition state : Type := list thread * shared.

Class ExecutorSettings := {
  max_workers : Z;
  queue_size : Z;
  ENRICHMENT_MAX_WORKERS : Z;
  ENRICHMENT_QUEUE_SIZE : Z;
}.

Section executor.
Context `{Platform, RegistryEnv, ExecutorSettings}.

Definition capacity : Z := max_workers + queue_size.
Definition enrichment_capacity : Z := ENRICHMENT_MAX_WORKERS + ENRICHMENT_QUEUE_SIZE.
(** [BoundedTaskExecutor.__init__] *)
Definition new_executor : state := ([], Shared capacity enrichment_capacity [] [] false false false no_tasks).

(** [set.discard] *)
Definition discard (k : key) (ks : list key) : list key := List.filter (λ x, negb (bool_decide (x = k))) ks.
(** [_reserve_inflight_ingest], [_release_inflight_ingest] *)
Definition reserve_inflight_ingest (k : key) (s : shared) : bool * shared :=
  if bool_decide (k ∈ inflight_ingest s) then (false, s)
  else (true, s <| inflight_ingest := k :: inflight_ingest s |>).
Definition release_inflight_ingest (k : key) (s : shared) : shared :=
  s <| inflight_ingest := discard k (inflight_ingest s) |>.

(** The body of [submit_enrichment] under its lock. *)
Definition reserve_enrichment (k : key) (s : shared) : bool * shared :=
  if bool_decide (k ∈ inflight_enrichment s) then (false, s)
  else if enrichment_slots s <=? 0 then (false, s)
  else (true, s <| enrichment_slots := enrichment_slots s - 1 |>
                <| inflight_enrichment := k :: inflight_enrichment s |>).

Definition inflight_key (t : local_task) : key := (lt_space_id t, default "" (lt_message_id t)).
(** [submit_ingest] of a task with and without a message, the other submissions, and
    [submit_enrichment] *)
Definition submit_ingest (t : local_task) : thread :=
  if String.eqb (default "" (lt_message_id t)) "" then CheckShutdown t None else Reserve t.
Definition submit (t : local_task) : thread := CheckShutdown t None.
Definition submit_enrichment (k : key) : list thread :=
  if String.eqb k.1 "" || String.eqb k.2 "" then [] else [CheckEnrichment k].

(** The outcome of a job. *)
Record outcome := Outcome { ended : instant; job_error : option string }.

Definition in_pool (th : thread) : bool :=
  match th with Running _ _ | Finish _ | ReleaseSlot => true | _ => false end.
Definition in_enrichment_pool (th : thread) : bool :=
  match th with RunningEnrichment _ | ReleaseEnrichment => true | _ => false end.
Definition busy (ths : list thread) : Z := Z.of_nat (length (List.filter in_pool ths)).
Definition busy_enrichment (ths : list thread) : Z := Z.of_nat (length (List.filter in_enrichment_pool ths)).

(** The next action of a thread: the threads that take its place, and what is shared.  It is
    [None] when the thread has to wait, or has ended with what it holds. *)
Definition thread_step (o : outcome) (ths : list thread) (th : thread) (s : shared) : option (list thread * shared) :=
  match th with
  | Reserve t =>
      let k := inflight_key t in
      match reserve_inflight_ingest k s with
      | (true, s) => Some ([CheckShutdown t (Some k)], s)
      | (false, s) => Some ([Refuse t None "ingest already in flight"], s)
      end
  | CheckShutdown t k =>
      Some ([if shutting_down s then Refuse t k "executor is shutting down" else AcquireSlot t k], s)
  | AcquireSlot t k =>
      if slots s <=? 0 then Some ([Refuse t k "task queue is full"], s)
      else Some ([Register t k], s <| slots := slots s - 1 |>)
  | Register t k => Some ([Enqueue t k], s <| tasks := add t (tasks s) |>)
  | Enqueue t k => Some ([if pool_closed s then Lost t k else Queued t k], s)
  | Refuse t k error =>
      Some (match k with Some k => [Unreserve k] | None => [] end, s <| tasks := reject t error (ended o) (tasks s) |>)
  | Unreserve k => Some ([], release_inflight_ingest k s)
  | Queued t k =>
      if max_workers <=? busy ths then None
      else match mark_running (lt_id t) (ended o) (tasks s) with
           | Ok r => Some ([Running t k], s <| tasks := r |>)
           | Raise _ => Some ([Lost t k], s)
           end
  | Running t k =>
      let r := match job_error o with
               | None => mark_success (lt_id t) (ended o) (tasks s)
               | Some error => mark_failed (lt_id t) error (ended o) (tasks s)
               end in
      Some ([Finish k], match r with Ok r => s <| tasks := r |> | Raise _ => s end)
  | Finish k => Some ([ReleaseSlot], match k with Some k => release_inflight_ingest k s | None => s end)
  | ReleaseSlot => Some ([], s <| slots := slots s + 1 |>)
  | Lost _ _ => None
  | CheckEnrichment k => Some (if shutting_down s then [] else [ReserveEnrichment k], s)
  | ReserveEnrichment k =>
      match reserve_enrichment k s with
      | (true, s) => Some ([EnqueueEnrichment k], s)
      | (false, s) => Some ([], s)
      end
  | EnqueueEnrichment k => Some ([if enrichment_pool_closed s then LostEnrichment k else QueuedEnrichment k], s)
  | QueuedEnrichment k =>
      if ENRICHMENT_MAX_WORKERS <=? busy_enrichment ths then None else Some ([RunningEnrichment k], s)
  | RunningEnrichment k =>
      Some ([ReleaseEnrichment], s <| inflight_enrichment := discard k (inflight_enrichment s) |>)
  | ReleaseEnrichment => Some ([], s <| enrichment_slots := enrichment_slots s + 1 |>)
  | LostEnrichment _ => None
  end.

(** ** Runs *)

(** The task of a thread that has not ended it. *)
Definition task_of (th : thread) : option local_task :=
  match th with
  | Reserve t | CheckShutdown t _ | AcquireSlot t _ | Register t _ | Enqueue t _ | Refuse t _ _ | Queued t _
  | Running t _ | Lost t _ => Some t
  | _ => None
  end.
Definition task_ids (ths : list thread) : list string := omap (λ th, option_map lt_id (task_of th)) ths.

(** [create_task]: the id is a fresh uuid. *)
Definition created (st : state) (t : local_task) : Prop :=
  lt_status t = TASK_QUEUED ∧ (lt_id t ∉ task_ids st.1) ∧ lt_id t ∉ map lt_id (rg_tasks (tasks st.2)).

(** The jobs of the pool that are not done. *)
Definition pool_done (ths : list thread) : Prop :=
  ∀ th, th ∈ ths → in_pool th = false ∧ ∀ t k, th ≠ Queued t k.

Inductive step : state → state → Prop :=
  | step_ingest st t : created st t → step st (submit_ingest t :: st.1, st.2)
  | step_submit st t : created st t → step st (submit t :: st.1, st.2)
  | step_enrichment st k : step st ((submit_enrichment k ++ st.1)%list, st.2)
  | step_shutdown ths s : step (ths, s) (ths, s <| shutting_down := true |>)
  | step_close_pool ths s : shutting_down s = true → step (ths, s) (ths, s <| pool_closed := true |>)
  | step_close_enrichment ths s : pool_closed s = true → pool_done ths →
      step (ths, s) (ths, s <| enrichment_pool_closed := true |>)
  | step_thread o l th r s ths s' : thread_step o (l ++ th :: r)%list th s = Some (ths, s') →
      step ((l ++ th :: r)%list, s) ((l ++ ths ++ r)%list, s').

Inductive reachable : state → Prop :=
  | reachable_new : reachable new_executor
  | reachable_step st st' : reachable st → step st st' → reachable st'.
End executor.

(** The executor of the local mode keeps its slots, its keys and its registry exact under every
    interleaving of its threads. *)

Section spec.
Context `{Platform, RegistryEnv, ExecutorSettings}.

(** * The invariant *)

Definition holds_slot (th : thread) : bool :=
  match th with
  | Register _ _ | Enqueue _ _ | Queued _ _ | Running _ _ | Finish _ | ReleaseSlot | Lost _ _ => true
  | _ => false
  end.
Definition holds_enrichment (th : thread) : bool :=
  match th with
  | EnqueueEnrichment _ | QueuedEnrichment _ | RunningEnrichment _ | ReleaseEnrichment | LostEnrichment _ => true
  | _ => false
  end.
(** The message that is reserved for a thread, and the note. *)
Definition ingest_key (th : thread) : option key :=
  match th with
  | CheckShutdown _ k | AcquireSlot _ k | Register _ k | Enqueue _ k | Refuse _ k _ | Queued _ k | Running _ k
  | Finish k | Lost _ k => k
  | Unreserve k => Some k
  | _ => None
  end.
Definition enrichment_key (th : thread) : option key :=
  match th with
  | EnqueueEnrichment k | QueuedEnrichment k | RunningEnrichment k | LostEnrichment k => Some k
  | _ => None
  end.
(** The task of a thread that is in the registry as waiting or running. *)
Definition live_task (th : thread) : option string :=
  match th with
  | Enqueue t _ | Queued t _ | Running t _ | Lost t _ => Some (lt_id t)
  | _ => None
  end.

Definition count (p : thread → bool) (ths : list thread) : Z := Z.of_nat (length (List.filter p ths)).

(** The registry knows the task of a thread as far as the thread has brought it. *)
Definition registered (r : registry) (t : local_task) (status : string) : Prop :=
  ∃ u, find_task (lt_id t) (rg_tasks r) = Some u ∧ lt_status u = status.
Definition thread_ok (r : registry) (th : thread) : Prop :=
  match th with
  | Reserve t | CheckShutdown t _ | AcquireSlot t _ | Register t _ | Refuse t _ _ =>
      (lt_id t ∉ map lt_id (rg_tasks r)) ∧ lt_status t = TASK_QUEUED
  | Enqueue t _ | Queued t _ | Lost t _ => registered r t TASK_QUEUED
  | Running t _ => registered r t TASK_RUNNING
  | _ => True
  end.

Record inv (st : state) : Prop := {
  inv_slots : slots st.2 + count holds_slot st.1 = capacity;
  inv_some_slots : 0 ≤ slots st.2;
  inv_enrichment : enrichment_slots st.2 + count holds_enrichment st.1 = enrichment_capacity;
  inv_some_enrichment : 0 ≤ enrichment_slots st.2;
  inv_busy : busy st.1 ≤ Z.max 0 max_workers;
  inv_keys : inflight_ingest st.2 ≡ₚ omap ingest_key st.1;
  inv_keys_distinct : NoDup (inflight_ingest st.2);
  inv_notes : inflight_enrichment st.2 ≡ₚ omap enrichment_key st.1;
  inv_notes_distinct : NoDup (inflight_enrichment st.2);
  inv_ids : NoDup (task_ids st.1);
  inv_registry : NoDup (map lt_id (rg_tasks (tasks st.2)));
  inv_threads : ∀ th, th ∈ st.1 → thread_ok (tasks st.2) th;
  inv_live : ∀ t, t ∈ rg_tasks (tasks st.2) → is_protected t = true → lt_id t ∈ omap live_task st.1;
  inv_lost : ∀ t k, Lost t k ∈ st.1 → pool_closed st.2 = true;
  inv_closed : pool_closed st.2 = true → shutting_down st.2 = true;
}.

#[global] Instance filter_Permutation p : Proper ((≡ₚ) ==> (≡ₚ)) (List.filter (A:=thread) p).
Proof.
  intros l1 l2. induction 1 as [|x l1 l2 _ IH|x y l|l1 l2 l3 _ IH1 _ IH2]; simpl; [done| | |by rewrite IH1].
  - case_match; by rewrite IH.
  - repeat case_match; try done. apply Permutation_swap.
Qed.

#[global] Instance count_Permutation p : Proper ((≡ₚ) ==> (=)) (count p).
Proof. intros l1 l2 E. unfold count. by rewrite E. Qed.
#[global] Instance busy_Permutation : Proper ((≡ₚ) ==> (=)) busy.
Proof. intros l1 l2 E. unfold busy. by rewrite E. Qed.

Lemma inv_perm ths ths' s : ths ≡ₚ ths' → inv (ths, s) → inv (ths', s).
Proof.
  intros E [h1 h2 h3 h4 h5 h6 h7 h8 h9 h10 h11 h12 h13 h14 h15]; split; simpl in *; try done.
  - by rewrite <- E.
  - by rewrite <- E.
  - by rewrite <- E.
  - by rewrite <- E.
  - by rewrite <- E.
  - unfold task_ids in *. by rewrite <- E.
  - intros th Hth. apply h12. by rewrite E.
  - intros t Ht Hp. rewrite <- E. auto.
  - intros t k Hl. apply (h14 t k). by rewrite E.
Qed.

(** * The actions *)

Ltac actions := intros Hact;
  unfold thread_step, reserve_inflight_ingest, reserve_enrichment, release_inflight_ingest in Hact;
  repeat case_match; simplify_eq/=.

Lemma act_slots o ths th s ths' s' : thread_step o ths th s = Some (ths', s') →
  slots s' + count holds_slot ths' = slots s + count holds_slot [th] ∧ (0 ≤ slots s → 0 ≤ slots s').
Proof.
  unfold count. destruct th; actions; bools; try done; try lia.
Qed.

Lemma act_enrichment o ths th s ths' s' : thread_step o ths th s = Some (ths', s') →
  enrichment_slots s' + count holds_enrichment ths' = enrichment_slots s + count holds_enrichment [th]
  ∧ (0 ≤ enrichment_slots s → 0 ≤ enrichment_slots s').
Proof.
  unfold count. destruct th; actions; bools; try done; try lia.
Qed.

Lemma act_busy o ths th s ths' s' : thread_step o ths th s = Some (ths', s') →
  busy ths' ≤ busy [th] ∨ busy ths' = 1 ∧ busy ths < max_workers.
Proof.
  unfold busy at 1 2 3. destruct th; actions; bools; try (left; lia).
  right. split; [done|]. lia.
Qed.

Lemma act_ids o ths th s ths' s' : thread_step o ths th s = Some (ths', s') →
  task_ids ths' = task_ids [th] ∨ task_ids ths' = [].
Proof. destruct th; actions; auto. Qed.

Lemma act_flags o ths th s ths' s' : thread_step o ths th s = Some (ths', s') →
  shutting_down s' = shutting_down s ∧ pool_closed s' = pool_closed s.
Proof.
  destruct th; actions; done.
Qed.

(** ** Keys *)

Lemma discard_distinct k ks : NoDup ks → NoDup (discard k ks).
Proof. unfold discard. intros Hnd. rewrite <- (map_id (List.filter _ ks)). apply (NoDup_select id). by rewrite map_id. Qed.
Lemma discard_absent k ks : k ∉ ks → discard k ks = ks.
Proof.
  unfold discard. induction ks as [|k' ks IH]; simpl; [done|]. intros [Hne Hk]%not_elem_of_cons.
  rewrite bool_decide_eq_false_2 by done. simpl. by rewrite IH.
Qed.
#[global] Instance discard_Permutation k : Proper ((≡ₚ) ==> (≡ₚ)) (discard k).
Proof.
  unfold discard. intros l1 l2. induction 1 as [|x l1 l2 _ IH|x y l|l1 l2 l3 _ IH1 _ IH2]; simpl; [done| | |by rewrite IH1].
  - case_match; by rewrite IH.
  - repeat case_match; try done. apply Permutation_swap.
Qed.
Lemma discard_key k ks rest : NoDup ks → ks ≡ₚ k :: rest → discard k ks ≡ₚ rest.
Proof.
  intros Hnd E. rewrite E in Hnd. apply NoDup_cons in Hnd as [Hk _]. rewrite E. unfold discard at 1. simpl.
  rewrite bool_decide_eq_true_2 by done. simpl. fold (discard k rest). by rewrite discard_absent.
Qed.

Lemma act_keys o ths th s ths' s' rest : thread_step o ths th s = Some (ths', s') →
  inflight_ingest s ≡ₚ omap ingest_key [th] ++ rest → NoDup (inflight_ingest s) →
  inflight_ingest s' ≡ₚ omap ingest_key ths' ++ rest ∧ NoDup (inflight_ingest s').
Proof.
  destruct th; actions; intros E Hnd; simpl in *; repeat case_match; simplify_eq/=; bools;
    try (split; [exact E|exact Hnd]);
    try (split; [by apply discard_key|by apply discard_distinct]).
  split; [by rewrite E|]. apply NoDup_cons. done.
Qed.
Lemma act_notes o ths th s ths' s' rest : thread_step o ths th s = Some (ths', s') →
  inflight_enrichment s ≡ₚ omap enrichment_key [th] ++ rest → NoDup (inflight_enrichment s) →
  inflight_enrichment s' ≡ₚ omap enrichment_key ths' ++ rest ∧ NoDup (inflight_enrichment s').
Proof.
  destruct th; actions; intros E Hnd; simpl in *; repeat case_match; simplify_eq/=; bools;
    try (split; [exact E|exact Hnd]);
    try (split; [by apply discard_key|by apply discard_distinct]).
  split; [by rewrite E|]. apply NoDup_cons. done.
Qed.

(** ** The registry *)

(** The registry after the entry of [id] has become [t]. *)
Record updated (t : local_task) (r r' : registry) : Prop := {
  up_others : ∀ u i, i ≠ lt_id t → find_task i (rg_tasks r) = Some u → is_protected u = true →
    find_task i (rg_tasks r') = Some u;
  up_ids : ∀ i, i ∈ map lt_id (rg_tasks r') → i = lt_id t ∨ i ∈ map lt_id (rg_tasks r);
  up_entries : ∀ u, u ∈ rg_tasks r' → u = t ∨ u ∈ rg_tasks r ∧ lt_id u ≠ lt_id t;
  up_self : is_protected t = true → find_task (lt_id t) (rg_tasks r') = Some t;
  up_distinct : NoDup (map lt_id (rg_tasks r'));
}.

Lemma updated_add t r : NoDup (map lt_id (rg_tasks r)) → updated t r (add t r).
Proof.
  intros Hnd. split; simpl.
  - intros u i Hi Hf _. rewrite find_put. by rewrite (proj2 (String.eqb_neq _ _)).
  - intros i. by rewrite put_ids.
  - intros u [->|[Hu [Hne|Hn]]]%in_put; [by left|by right|done].
  - intros _. by rewrite find_put, String.eqb_refl.
  - by apply put_distinct.
Qed.
Lemma updated_prune now t r r1 : updated t r r1 → updated t r (prune_finished_tasks now r1).
Proof.
  intros [Ho Hi He Hs Hd]. split.
  - intros u i Hne Hf Hp. apply find_prune; auto.
  - intros i (u & <- & Hu%in_prune)%elem_of_map. apply Hi. by apply elem_of_map_in.
  - intros u Hu%in_prune. auto.
  - intros Hp. apply find_prune; auto.
  - by apply prune_distinct.
Qed.
Lemma updated_same t r r1 r2 : rg_tasks r2 = rg_tasks r1 → updated t r r1 → updated t r r2.
Proof. intros E [? ? ? ? ?]. split; rewrite E; done. Qed.

(** The entry that an operation adds. *)
Ltac entry_added := match goal with |- updated _ ?r ?r' =>
  match r' with context [add ?t r] => try apply updated_prune; apply (updated_same t r (add t r)); [done|by apply updated_add] end end.

Lemma updated_reject t error now r : NoDup (map lt_id (rg_tasks r)) → ∃ t', updated t' r (reject t error now r)
  ∧ lt_id t' = lt_id t ∧ lt_status t' = TASK_REJECTED.
Proof. intros Hnd. unfold reject. eexists. split; [entry_added|done]. Qed.
Lemma updated_running id now r u : NoDup (map lt_id (rg_tasks r)) → find_task id (rg_tasks r) = Some u →
  ∃ r' t', mark_running id now r = Ok r' ∧ updated t' r r' ∧ lt_id t' = id ∧ lt_status t' = TASK_RUNNING.
Proof.
  intros Hnd Hf. unfold mark_running. rewrite Hf. apply find_some in Hf as [_ <-]. eexists _, _.
  split; [done|]. split; [entry_added|done].
Qed.
Lemma updated_ended id e now r u : NoDup (map lt_id (rg_tasks r)) → find_task id (rg_tasks r) = Some u →
  ∃ r' t', match e with None => mark_success id now r | Some error => mark_failed id error now r end = Ok r'
    ∧ updated t' r r' ∧ lt_id t' = id ∧ is_protected t' = false.
Proof.
  intros Hnd Hf. unfold mark_success, mark_failed. rewrite Hf. apply find_some in Hf as [_ <-].
  destruct e; eexists _, _; (split; [done|]); (split; [entry_added|done]).
Qed.

(** Threads with other tasks are as good with the registry as before. *)
Lemma updated_ok t r r' th : updated t r r' → (∀ u, task_of th = Some u → lt_id u ≠ lt_id t) →
  thread_ok r th → thread_ok r' th.
Proof.
  intros [Ho Hi He Hs Hd] Hth.
  assert (∀ u st, lt_id u ≠ lt_id t → (st = TASK_QUEUED ∨ st = TASK_RUNNING) → registered r u st → registered r' u st) as Hreg.
  { intros u st Hne Hst (v & Hf & Ev). exists v. split; [|done]. apply Ho; [done|done|].
    unfold is_protected. rewrite Ev. by destruct Hst as [->| ->]. }
  assert (∀ u, lt_id u ≠ lt_id t → lt_id u ∉ map lt_id (rg_tasks r) → lt_id u ∉ map lt_id (rg_tasks r')) as Habs.
  { intros u Hne Hn Hin. destruct (Hi _ Hin); done. }
  destruct th; simpl in *; try done; try (intros [? ?]; split; [|done]); try (apply Habs; [|done]);
    try apply Hreg; auto.
Qed.

(** An action changes the entry of its own task only, and leaves it as the threads after it need it. *)
Definition registry_after (th : thread) (ths' : list thread) (s s' : shared) : Prop :=
  (∀ th', th' ∈ ths' → thread_ok (tasks s') th')
  ∧ (∀ t k, Lost t k ∈ ths' → pool_closed s = true)
  ∧ ((tasks s' = tasks s ∧ omap live_task ths' = omap live_task [th])
     ∨ ∃ t u, task_of th = Some u ∧ lt_id u = lt_id t ∧ updated t (tasks s) (tasks s')
         ∧ (is_protected t = true → lt_id t ∈ omap live_task ths')).

Lemma registry_unchanged th ths' s s' : tasks s' = tasks s → omap live_task ths' = omap live_task [th] →
  (∀ th', th' ∈ ths' → thread_ok (tasks s) th') → (∀ t k, Lost t k ∈ ths' → pool_closed s = true) →
  registry_after th ths' s s'.
Proof. intros Et El Hok Hlost. split_and!; [by rewrite Et|done|by left]. Qed.

Lemma registry_changed th th' s s' t u : task_of th = Some u → lt_id u = lt_id t → updated t (tasks s) (tasks s') →
  (is_protected t = true → live_task th' = Some (lt_id t)) → thread_ok (tasks s') th' → (∀ t k, th' ≠ Lost t k) →
  registry_after th [th'] s s'.
Proof.
  intros Hu Eid Hup Hlive Hok Hlost. split_and!.
  - by intros th'' ->%list_elem_of_singleton.
  - intros t' k E%list_elem_of_singleton. by destruct (Hlost t' k).
  - right. exists t, u. split_and!; try done. intros Hp. simpl. rewrite Hlive by done. by left.
Qed.

(** The actions that leave the registry alone. *)
Ltac unchanged := apply registry_unchanged; [done|done| |];
  [intros th' Hin; rewrite ?list_elem_of_singleton, ?elem_of_nil in Hin; subst; done
  |intros t' k' Hin; rewrite ?list_elem_of_singleton, ?elem_of_nil in Hin; simplify_eq; done].

Lemma act_registry o ths th s ths' s' : thread_step o ths th s = Some (ths', s') →
  NoDup (map lt_id (rg_tasks (tasks s))) → thread_ok (tasks s) th → registry_after th ths' s s'.
Proof.
  intros Hact Hnd Hok.
  destruct th as [t|t k|t k|t k|t k|t k error|k|t k|t k|k| |t k|k|k|k|k|k| |k].
  all: try solve [revert Hact; actions; unchanged].
  - (* the registration *)
    injection Hact as <- <-. apply (registry_changed _ _ _ _ t t); try done; simpl.
    + by apply updated_add.
    + exists t. split; [|apply Hok]. unfold add. simpl. by rewrite find_put, String.eqb_refl.
  - (* the refusal *)
    injection Hact as <- <-. destruct (updated_reject t error (ended o) (tasks s) Hnd) as (t' & Hup & Eid & Est).
    assert (is_protected t' = false) as Hp by (unfold is_protected; by rewrite Est).
    split_and!.
    + destruct k; intros th'; [by intros ->%list_elem_of_singleton|by intros Hin%elem_of_nil].
    + destruct k; intros ? ?; [by intros E%list_elem_of_singleton|by intros Hin%elem_of_nil].
    + right. exists t', t. split_and!; try done. by rewrite Hp.
  - (* the start *)
    revert Hact. simpl in Hok. destruct Hok as (u & Hf & Est). unfold thread_step. case_match; [done|].
    destruct (updated_running (lt_id t) (ended o) (tasks s) u Hnd Hf) as (r' & t' & -> & Hup & Eid & Est').
    intros [= <- <-]. apply (registry_changed _ _ _ _ t' t); try done.
    + intros _. simpl. by rewrite Eid.
    + exists t'. rewrite <- Eid. split; [|done]. apply (up_self _ _ _ Hup). unfold is_protected. by rewrite Est'.
  - (* the end *)
    simpl in Hok. destruct Hok as (u & Hf & Est). unfold thread_step in Hact.
    destruct (updated_ended (lt_id t) (job_error o) (ended o) (tasks s) u Hnd Hf) as (r' & t' & Er & Hup & Eid & Hp).
    rewrite Er in Hact. injection Hact as <- <-.
    apply (registry_changed _ _ _ _ t' t); try done. by rewrite Hp.
Qed.

(** * Every step keeps the invariant *)

Lemma count_app p l1 l2 : count p (l1 ++ l2)%list = count p l1 + count p l2.
Proof. unfold count. rewrite List.filter_app, length_app. lia. Qed.
Lemma busy_count ths : busy ths = count in_pool ths.
Proof. done. Qed.

Lemma live_task_of th id : live_task th = Some id → ∃ u, task_of th = Some u ∧ lt_id u = id.
Proof. destruct th; simpl; intros [= <-]; by eexists. Qed.

Lemma task_ids_app l1 l2 : task_ids (l1 ++ l2)%list = (task_ids l1 ++ task_ids l2)%list.
Proof. apply omap_app. Qed.
Lemma elem_of_task_ids th u ths : th ∈ ths → task_of th = Some u → lt_id u ∈ task_ids ths.
Proof. intros Hth Hu. apply list_elem_of_omap. exists th. by rewrite Hu. Qed.

Lemma thread_keeps_inv o ths th rest s ths' s' : ths ≡ₚ [th] ++ rest → thread_step o ths th s = Some (ths', s') →
  inv (([th] ++ rest)%list, s) → inv ((ths' ++ rest)%list, s').
Proof.
  intros Hperm Hact [h1 h2 h3 h4 h5 h6 h7 h8 h9 h10 h11 h12 h13 h14 h15].
  cbn [fst snd] in *. rewrite busy_count in h5. rewrite ?omap_app, ?count_app, ?task_ids_app in *.
  pose proof (act_slots _ _ _ _ _ _ Hact) as [a1 a2]. pose proof (act_enrichment _ _ _ _ _ _ Hact) as [a3 a4].
  pose proof (act_busy _ _ _ _ _ _ Hact) as a5. pose proof (act_ids _ _ _ _ _ _ Hact) as a6.
  pose proof (act_flags _ _ _ _ _ _ Hact) as [a7 a8].
  pose proof (act_keys _ _ _ _ _ _ _ Hact h6 h7) as [a9 a10].
  pose proof (act_notes _ _ _ _ _ _ _ Hact h8 h9) as [a11 a12].
  assert (thread_ok (tasks s) th) as Hok by (apply h12; by left).
  pose proof (act_registry _ _ _ _ _ _ Hact h11 Hok) as (a13 & a14 & a15).
  apply NoDup_app in h10 as Hids. destruct Hids as (Hids1 & Hids & Hids2).
  assert (∀ th' u u', th' ∈ rest → task_of th' = Some u' → task_of th = Some u → lt_id u' ≠ lt_id u) as Hother.
  { intros th' u u' Hth' Hu' Hu E. apply (Hids (lt_id u)).
    - eapply elem_of_task_ids; [by left|done].
    - rewrite <- E. by eapply elem_of_task_ids. }
  split; cbn [fst snd]; rewrite ?busy_count, ?omap_app, ?count_app, ?task_ids_app; try done; try lia; auto.
  - assert (busy ths = count in_pool [th] + count in_pool rest) as Eb by (rewrite Hperm; apply count_app).
    change busy with (count in_pool) in *. assert (0 ≤ count in_pool [th] ∧ 0 ≤ count in_pool rest) by (unfold count; lia). lia.
  - destruct a6 as [->| ->]; done.
  - by destruct a15 as [[-> _]|(t & u & _ & _ & Hup & _)]; [|apply (up_distinct _ _ _ Hup)].
  - intros th' [Hth'|Hth']%elem_of_app; [auto|].
    assert (thread_ok (tasks s) th') as Hok' by (apply h12, elem_of_app; by right).
    destruct a15 as [[-> _]|(t & u & Hu & Eid & Hup & _)]; [done|].
    eapply updated_ok; [done| |done]. intros u' Hu'. rewrite <- Eid. by eapply Hother.
  - intros t0 Ht0 Hp. apply elem_of_app. destruct a15 as [[E El]|(t & u & Hu & Eid & Hup & Hlive)].
    + rewrite El. rewrite E in Ht0. by apply elem_of_app, h13.
    + destruct (up_entries _ _ _ Hup _ Ht0) as [->|[Hin Hne]]; [left; auto|].
      specialize (h13 _ Hin Hp). apply elem_of_app in h13 as [Hl|Hl]; [|by right].
      apply list_elem_of_omap in Hl as (th' & ->%list_elem_of_singleton & (u' & Hu' & E)%live_task_of).
      rewrite Hu in Hu'. injection Hu' as <-. congruence.
  - intros t k [Hl|Hl]%elem_of_app; rewrite a8; [by eapply a14|]. eapply h14, elem_of_app. by right.
  - rewrite a7, a8. done.
Qed.

Lemma created_keeps_inv st t th : created st t → th = Reserve t ∨ th = CheckShutdown t None → inv st →
  inv (th :: st.1, st.2).
Proof.
  destruct st as [ths s]. intros (Hst & Hids & Hreg) Hth [h1 h2 h3 h4 h5 h6 h7 h8 h9 h10 h11 h12 h13 h14 h15].
  assert (task_of th = Some t) as Ht by by destruct Hth as [->| ->].
  cbn [fst snd] in *. split; cbn [fst snd]; try done.
  - by destruct Hth as [->| ->].
  - by destruct Hth as [->| ->].
  - by destruct Hth as [->| ->].
  - by destruct Hth as [->| ->].
  - by destruct Hth as [->| ->].
  - unfold task_ids. simpl. rewrite Ht. simpl. by apply NoDup_cons.
  - intros th' [->|Hin]%elem_of_cons; [|auto]. by destruct Hth as [->| ->].
  - destruct Hth as [->| ->]; simpl; auto.
  - intros t' k [E|Hin]%elem_of_cons; [|eauto]. by destruct Hth as [->| ->].
Qed.

Lemma step_keeps_inv st st' : step st st' → inv st → inv st'.
Proof.
  intros [st0 t Hc|st0 t Hc|st0 k|ths s|ths s Hs|ths s Hc Hd|o l th r s ths s' Hact] Hi.
  - apply (created_keeps_inv st0 t); [done| |done]. unfold submit_ingest. case_match; auto.
  - apply (created_keeps_inv st0 t); [done| |done]. by right.
  - unfold submit_enrichment. case_match; [by destruct st0|].
    destruct st0, Hi as [h1 h2 h3 h4 h5 h6 h7 h8 h9 h10 h11 h12 h13 h14 h15]. split; simpl; try done.
    + intros th [->|Hth]%elem_of_cons; [done|auto].
    + intros t k' [E|Hin]%elem_of_cons; [done|eauto].
  - destruct Hi; split; try done.
  - destruct Hi; split; try done.
  - destruct Hi; split; try done.
  - assert ((l ++ th :: r)%list ≡ₚ [th] ++ (l ++ r)) as E by exact (Permutation_sym (Permutation_middle l r th)).
    apply (inv_perm (ths ++ (l ++ r))%list).
    + by rewrite !app_assoc, (Permutation_app_comm ths l).
    + eapply thread_keeps_inv; [exact E|exact Hact|]. by eapply inv_perm.
Qed.

Lemma new_executor_inv : 0 ≤ capacity → 0 ≤ enrichment_capacity → inv new_executor.
Proof.
  intros Hc He. split; cbn; try done; try lia; try apply NoDup_nil_2.
  - apply Z.add_0_r.
  - apply Z.add_0_r.
  - change (0 ≤ Z.max 0 max_workers). lia.
  - by intros th Hth%elem_of_nil.
  - by intros t Ht%elem_of_nil.
  - by intros t k Hl%elem_of_nil.
Qed.

Lemma executor_reachable_inv st : 0 ≤ capacity → 0 ≤ enrichment_capacity → reachable st → inv st.
Proof. intros Hc He. induction 1; [by apply new_executor_inv|by eapply step_keeps_inv]. Qed.

(** * The properties *)

Hypothesis capacity_positive : 0 ≤ capacity.
Hypothesis enrichment_capacity_positive : 0 ≤ enrichment_capacity.

Lemma live_holds_slot th id : live_task th = Some id → holds_slot th = true.
Proof. by destruct th. Qed.

Lemma live_count ths : Z.of_nat (length (omap live_task ths)) ≤ count holds_slot ths.
Proof.
  induction ths as [|th ths IH]; [done|]. change (th :: ths) with ([th] ++ ths)%list.
  rewrite omap_app, length_app, count_app. assert (Z.of_nat (length (omap live_task [th])) ≤ count holds_slot [th]).
  { unfold count. simpl. destruct (live_task th) eqn:E; simpl; [rewrite (live_holds_slot _ _ E); simpl|]; lia. }
  lia.
Qed.

Lemma protected_count ts : queued_count (Registry ts 0 0 0 None) + running_count (Registry ts 0 0 0 None)
  = Z.of_nat (length (List.filter is_protected ts)).
Proof.
  unfold queued_count, running_count. simpl. induction ts as [|t ts IH]; simpl; [done|].
  assert (is_protected t = String.eqb (lt_status t) TASK_QUEUED || String.eqb (lt_status t) TASK_RUNNING) as ->.
  { apply eq_true_iff_eq. unfold is_protected. rewrite py_in_true, orb_true_iff, !String.eqb_eq, !elem_of_cons, elem_of_nil. tauto. }
  destruct (String.eqb (lt_status t) TASK_QUEUED) eqn:Eq; simpl.
  - apply String.eqb_eq in Eq. rewrite Eq. simpl. lia.
  - destruct (String.eqb (lt_status t) TASK_RUNNING); simpl; lia.
Qed.

(** However the threads interleave, the executor stays within its bounds: at most capacity tasks wait or run, no more than max_workers jobs are in the pool, every slot is either free or held by exactly one thread, and the release of a slot never exceeds the bound of the semaphore. *)
Theorem executor_is_bounded st : reachable st →
  queued_count (tasks st.2) + running_count (tasks st.2) ≤ capacity
  ∧ busy st.1 ≤ Z.max 0 max_workers
  ∧ slots st.2 + count holds_slot st.1 = capacity
  ∧ 0 ≤ slots st.2
  ∧ (ReleaseSlot ∈ st.1 → slots st.2 < capacity)
  ∧ 0 ≤ enrichment_slots st.2 ≤ enrichment_capacity.
Proof.
  intros [h1 h2 h3 h4 h5 h6 h7 h8 h9 h10 h11 h12 h13 h14 h15]%executor_reachable_inv; [|done|done].
  assert (0 ≤ count holds_enrichment st.1) by (unfold count; lia). split_and!; try done; try lia.
  - change (queued_count (Registry (rg_tasks (tasks st.2)) 0 0 0 None)
      + running_count (Registry (rg_tasks (tasks st.2)) 0 0 0 None) ≤ capacity).
    rewrite protected_count, <- (length_map lt_id).
    assert (map lt_id (List.filter is_protected (rg_tasks (tasks st.2))) ⊆+ omap live_task st.1) as Hsub%submseteq_length.
    { apply NoDup_submseteq; [by apply (NoDup_select lt_id)|]. intros id (t & <- & Ht)%elem_of_map.
      apply list_elem_of_In, filter_In in Ht as [Ht Hp]. apply h13; [by apply list_elem_of_In|done]. }
    pose proof (live_count st.1). lia.
  - intros Hr. assert (1 ≤ count holds_slot st.1); [|lia]. unfold count.
    apply elem_of_Permutation in Hr as [l E]. rewrite E. simpl. lia.
Qed.

(** At most one submission or job exists for a message of a space at any time: two threads never hold the same message, and while the message is not in flight no thread works on it. *)
Theorem one_job_per_message l1 l2 l3 th1 th2 k s :
  reachable ((l1 ++ th1 :: l2 ++ th2 :: l3)%list, s) →
  ¬ (ingest_key th1 = Some k ∧ ingest_key th2 = Some k)
  ∧ (k ∉ inflight_ingest s → ingest_key th1 ≠ Some k)
  ∧ (k ∈ inflight_ingest s → ∃ th, th ∈ (l1 ++ th1 :: l2 ++ th2 :: l3)%list ∧ ingest_key th = Some k).
Proof.
  intros [h1 h2 h3 h4 h5 h6 h7 h8 h9 h10 h11 h12 h13 h14 h15]%executor_reachable_inv; [|done|done]. cbn [fst snd] in *.
  split_and!.
  - intros [E1 E2]. rewrite h6, omap_app in h7. apply NoDup_app in h7 as (_ & _ & h7).
    change (th1 :: l2 ++ th2 :: l3)%list with ([th1] ++ (l2 ++ [th2] ++ l3))%list in h7.
    rewrite omap_app in h7. apply NoDup_app in h7 as (_ & h7 & _). apply (h7 k).
    + simpl. rewrite E1. by left.
    + rewrite !omap_app, !elem_of_app. right. left. simpl. rewrite E2. by left.
  - intros Hk E1. apply Hk. rewrite h6. apply list_elem_of_omap. exists th1. split; [|done].
    apply elem_of_app. right. by left.
  - intros Hk. rewrite h6 in Hk. by apply list_elem_of_omap in Hk.
Qed.

(** The registry follows the threads: a task that waits in the pool is in the registry as queued and one whose job runs as running, so that no mark fails with KeyError; and without a shutdown no job is lost, so that when no thread is left all slots are free and nothing is in flight. *)
Theorem registry_follows_jobs st : reachable st →
  (∀ t k, Queued t k ∈ st.1 → ∀ now, is_Ok (mark_running (lt_id t) now (tasks st.2)))
  ∧ (∀ t k, Running t k ∈ st.1 → ∃ u, find_task (lt_id t) (rg_tasks (tasks st.2)) = Some u ∧ lt_status u = TASK_RUNNING
       ∧ ∀ now error, is_Ok (mark_success (lt_id t) now (tasks st.2)) ∧ is_Ok (mark_failed (lt_id t) error now (tasks st.2)))
  ∧ (∀ t k, Lost t k ∈ st.1 → shutting_down st.2 = true)
  ∧ (st.1 = [] → slots st.2 = capacity ∧ enrichment_slots st.2 = enrichment_capacity
       ∧ inflight_ingest st.2 = [] ∧ inflight_enrichment st.2 = []
       ∧ queued_count (tasks st.2) + running_count (tasks st.2) = 0).
Proof.
  intros [h1 h2 h3 h4 h5 h6 h7 h8 h9 h10 h11 h12 h13 h14 h15]%executor_reachable_inv; [|done|done]. split_and!.
  - intros t k Hth now. apply h12 in Hth as (u & Hf & _). unfold mark_running. by rewrite Hf.
  - intros t k Hth. apply h12 in Hth as (u & Hf & Est). exists u. split_and!; [done|done|].
    intros now error. unfold mark_success, mark_failed. by rewrite Hf.
  - intros t k Hl. apply h15. by eapply h14.
  - intros E. rewrite E in *. unfold count in *. simpl in *. split_and!; [lia|lia| | |].
    + by apply Permutation_nil_r.
    + by apply Permutation_nil_r.
    + change (queued_count (Registry (rg_tasks (tasks st.2)) 0 0 0 None)
        + running_count (Registry (rg_tasks (tasks st.2)) 0 0 0 None) = 0).
      rewrite protected_count. destruct (List.filter is_protected (rg_tasks (tasks st.2))) as [|t ts] eqn:Ef; [done|].
      exfalso. assert (t ∈ List.filter is_protected (rg_tasks (tasks st.2))) as Ht by (rewrite Ef; by left).
      apply list_elem_of_In, filter_In in Ht as [Ht%list_elem_of_In Hp]. specialize (h13 t Ht Hp). by apply elem_of_nil in h13.
Qed.
End spec.

(** * Concrete runs *)

Definition test_registry : RegistryEnv :=
  {| parse_iso := λ _, 0; TASK_HISTORY_LIMIT := 200; TASK_HISTORY_TTL_HOURS := 24 |}.
Definition test_executor : ExecutorSettings :=
  {| max_workers := 1; queue_size := 1; ENRICHMENT_MAX_WORKERS := 1; ENRICHMENT_QUEUE_SIZE := 1 |}.
Definition noon : outcome := Outcome (Instant "12:00" 0) None.
Definition ingest_of (id message : string) : local_task :=
  LocalTask id "ingest" "s1" (Some message) TASK_QUEUED "11:59" None None None.

(** The action of the first thread. *)
Definition first_acts (st : state) : state :=
  match st.1 with
  | th :: rest => match @thread_step test_platform test_registry test_executor noon st.1 th st.2 with
                  | Some (ths, s) => ((ths ++ rest)%list, s)
                  | None => st
                  end
  | [] => st
  end.
Definition created_by (t : local_task) (st : state) : state := (submit_ingest t :: st.1, st.2).
Definition close_pool (st : state) : state := (st.1, st.2 <| pool_closed := true |>).
Definition start_shutdown (st : state) : state := (st.1, st.2 <| shutting_down := true |>).
Definition start : state := @new_executor test_executor.

Definition is_reachable (st : state) : Prop := @reachable test_platform test_registry test_executor st.
Lemma first_acts_reachable st : is_reachable st → is_reachable (first_acts st).
Proof.
  intros Hst. unfold first_acts. destruct st as [[|th rest] s]; [done|]. simpl.
  destruct (@thread_step _ _ _ _ _ _ _) as [[ths s']|] eqn:E; [|done].
  eapply reachable_step; [exact Hst|]. exact (@step_thread _ _ _ noon [] th rest s ths s' E).
Qed.
Lemma created_reachable t st : is_reachable st → @created st t → is_reachable (created_by t st).
Proof. intros Hst Ht. eapply reachable_step; [exact Hst|by apply step_ingest]. Qed.
Lemma shutdown_reachable st : is_reachable st → is_reachable (start_shutdown st).
Proof. intros Hst. destruct st. eapply reachable_step; [exact Hst|apply step_shutdown]. Qed.
Lemma close_reachable st : is_reachable st → shutting_down st.2 = true → is_reachable (close_pool st).
Proof. intros Hst Hs. destruct st. eapply reachable_step; [exact Hst|by apply step_close_pool]. Qed.
Lemma fresh_created st t : lt_status t = TASK_QUEUED →
  py_in (lt_id t) (task_ids st.1) = false → py_in (lt_id t) (map lt_id (rg_tasks (tasks st.2))) = false → created st t.
Proof. intros Hs H1%py_in_false H2%py_in_false. done. Qed.

(** One message is running and another is submitted. *)
Definition two_messages : state :=
  created_by (ingest_of "t2" "m2") (Nat.iter 6 first_acts (created_by (ingest_of "t1" "m1") start)).
Lemma two_messages_reachable : is_reachable two_messages.
Proof.
  apply created_reachable; [|apply fresh_created; vm_compute; reflexivity].
  do 6 apply first_acts_reachable.
  apply created_reachable; [apply reachable_new|apply fresh_created; vm_compute; reflexivity].
Qed.
Definition running_task : local_task := ingest_of "t1" "m1".

Lemma executor_is_bounded_witness :
  running_count (tasks two_messages.2) = 1 ∧ queued_count (tasks two_messages.2) + running_count (tasks two_messages.2) ≤ 2.
Proof.
  split; [vm_compute; reflexivity|].
  apply (@executor_is_bounded test_platform test_registry test_executor ltac:(vm_compute; discriminate)
    ltac:(vm_compute; discriminate) two_messages two_messages_reachable).
Defined.

Lemma one_job_per_message_witness :
  two_messages.1 = ([] ++ Reserve (ingest_of "t2" "m2") :: [] ++ Running running_task (Some ("s1", "m1")) :: [])%list
  ∧ ¬ (ingest_key (Reserve (ingest_of "t2" "m2")) = Some ("s1", "m1")
       ∧ ingest_key (Running running_task (Some ("s1", "m1"))) = Some ("s1", "m1")).
Proof.
  split; [vm_compute; reflexivity|].
  apply (@one_job_per_message test_platform test_registry test_executor ltac:(vm_compute; discriminate)
    ltac:(vm_compute; discriminate) [] [] [] (Reserve (ingest_of "t2" "m2")) (Running running_task (Some ("s1", "m1")))
    ("s1", "m1") two_messages.2 two_messages_reachable).
Defined.

Lemma registry_follows_jobs_witness :
  ∃ u, find_task "t1" (rg_tasks (tasks two_messages.2)) = Some u ∧ lt_status u = TASK_RUNNING
    ∧ ∀ now error, is_Ok (@mark_success test_registry "t1" now (tasks two_messages.2))
        ∧ is_Ok (@mark_failed test_platform test_registry "t1" error now (tasks two_messages.2)).
Proof.
  apply (@registry_follows_jobs test_platform test_registry test_executor ltac:(vm_compute; discriminate)
    ltac:(vm_compute; discriminate) two_messages two_messages_reachable) with (t := running_task) (k := Some ("s1", "m1")).
  apply list_elem_of_In. vm_compute. tauto.
Defined.

(** A submission that passed the check before [shutdown] finds the pool closed: the RuntimeError
    of the pool leaves the slot taken, the message in flight and the task queued for ever. *)
Definition lost_job : state :=
  first_acts (close_pool (start_shutdown (Nat.iter 4 first_acts (created_by (ingest_of "t1" "m1") start)))).
Example shutdown_loses_a_job :
  is_reachable lost_job ∧ lost_job.1 = [Lost (ingest_of "t1" "m1") (Some ("s1", "m1"))]
  ∧ slots lost_job.2 = 1 ∧ inflight_ingest lost_job.2 = [("s1", "m1")] ∧ queued_count (tasks lost_job.2) = 1.
Proof.
  split; [|vm_compute; by split_and!].
  apply first_acts_reachable, close_reachable; [|vm_compute; reflexivity].
  apply shutdown_reachable. do 4 apply first_acts_reachable.
  apply created_reachable; [apply reachable_new|apply fresh_created; vm_compute; reflexivity].
Qed.
