(* ===== verification/Calendar.v ===== *)
(** Dates of the proleptic Gregorian calendar, as the [date] of Python, and the keys of the
    periods of the consolidation ([consolidation_period_key] of [memory/repository.py]). *)

From stdpp Require Import base list strings pretty.
From Stdlib Require Import ZArith Lia.
From S2P Require Import Prelude Consistency.

Open Scope string_scope.
Open Scope Z_scope.

Record date := Date { year : Z; month : Z; day : Z }.
#[export] Instance date_eq_dec : EqDecision date.
Proof. solve_decision. Defined.

Definition is_leap (y : Z) : bool := (y mod 4 =? 0) && (negb (y mod 100 =? 0) || (y mod 400 =? 0)).
Definition month_lengths (y : Z) : list Z :=
  [31; if is_leap y then 29 else 28; 31; 30; 31; 30; 31; 31; 30; 31; 30; 31].
Definition days_in_month (y m : Z) : Z := nth (Z.to_nat (m - 1)) (month_lengths y) 0.
Definition valid_date (d : date) : bool :=
  (1 <=? year d) && (year d <=? 9999) && (1 <=? month d) && (month d <=? 12)
  && (1 <=? day d) && (day d <=? days_in_month (year d) (month d)).

(** [date.toordinal] *)
Definition days_before_year (y : Z) : Z := (y - 1) * 365 + (y - 1) / 4 - (y - 1) / 100 + (y - 1) / 400.
Definition days_before_month (y m : Z) : Z := foldr Z.add 0 (take (Z.to_nat (m - 1)) (month_lengths y)).
Definition ordinal (d : date) : Z := days_before_year (year d) + days_before_month (year d) (month d) + day d.
(** [date.weekday]: Monday is 0. *)
Definition weekday (d : date) : Z := (ordinal d + 6) mod 7.

(** [date.isocalendar], without the day: the first week is the one of the first Thursday. *)
Definition week1_monday (y : Z) : Z :=
  let first := days_before_year y + 1 in
  let first_weekday := (first + 6) mod 7 in
  let monday := first - first_weekday in
  if 3 <? first_weekday then monday + 7 else monday.
Definition isocalendar (d : date) : Z * Z :=
  let y := year d in
  let week := (ordinal d - week1_monday y) / 7 in
  if week <? 0 then (y - 1, (ordinal d - week1_monday (y - 1)) / 7 + 1)
  else if (52 <=? week) && (week1_monday (y + 1) <=? ordinal d) then (y + 1, 1)
  else (y, week + 1).

(** [f"{n:02d}"], [f"{n:04d}"] of a number that is not negative *)
Fixpoint zeros (n : nat) : string := match n with O => "" | S n => "0" +:+ zeros n end.
Definition padded (width : nat) (n : Z) : string :=
  let s := pretty n in zeros (width - String.length s) +:+ s.
(** [date.isoformat] *)
Definition isoformat (d : date) : string :=
  padded 4 (year d) +:+ "-" +:+ padded 2 (month d) +:+ "-" +:+ padded 2 (day d).

Definition consolidation_period_key `{Platform} (cadence : string) (d : date) : result string :=
  let cadence := str_lower (py_strip cadence) in
  if String.eqb cadence "daily" then Ok (isoformat d)
  else if String.eqb cadence "weekly" then
    let '(y, w) := isocalendar d in Ok (pretty y +:+ "-W" +:+ padded 2 w)
  else if String.eqb cadence "monthly" then Ok (padded 4 (year d) +:+ "-" +:+ padded 2 (month d))
  else Raise (ValueError ("unknown memory consolidation cadence: " +:+ cadence)).

Example weeks_at_new_year :
  map isocalendar [Date 2021 1 1; Date 2020 12 31; Date 2024 12 30; Date 2026 2 11] = [(2020, 53); (2020, 53); (2025, 1); (2026, 7)].
Proof. vm_compute. reflexivity. Qed.
