(* ===== verification/MemoryRuns.v ===== *)
(** The runs of the background work on the memories, as [memory/repository.py] records them: the
    state of the extraction of a note, and the run of a consolidation for a space, a cadence and
    a period.  Both tables are in the database of the memories.

    A function that opens a connection is a [transaction]; one that reads its row again is two
    of them.  The clock is read in each function, and may give any time. *)

From stdpp Require Import base list strings pretty relations.
From Stdlib Require Import ZArith Lia.
From S2P Require Import Prelude Consistency MemoryText Memory MemoryOps.

Open Scope string_scope.
Open Scope Z_scope.

(** * The data *)

Definition MEMORY_EXTRACTION_STATUSES : list string :=
  ["pending"; "processing"; "completed"; "empty"; "partial"; "failed"].

(** Table [memory_extraction_states] *)
Record extraction_state := ExtractionState {
  xs_note_id : string;
  xs_space_id : string;
  xs_status : string;
  xs_candidate_count : Z;
  xs_processed_count : Z;
  xs_attempt_count : Z;
  xs_last_error : option string;
  xs_started_at : option string;
  xs_completed_at : option string;
  xs_updated_at : string;
}.
#[export] Instance extraction_state_eta : Eta extraction_state := λ r,
  ExtractionState (xs_note_id r) (xs_space_id r) (xs_status r) (xs_candidate_count r) (xs_processed_count r)
    (xs_attempt_count r) (xs_last_error r) (xs_started_at r) (xs_completed_at r) (xs_updated_at r).

(** Table [memory_consolidation_runs] *)
Record run := Run {
  rn_id : string;
  rn_space_id : string;
  rn_cadence : string;
  rn_period_key : string;
  rn_status : string;
  rn_started_at : string;
  rn_completed_at : option string;
  rn_error : option string;
  rn_result_json : option string;
}.
#[export] Instance run_eta : Eta run := λ r,
  Run (rn_id r) (rn_space_id r) (rn_cadence r) (rn_period_key r) (rn_status r) (rn_started_at r)
    (rn_completed_at r) (rn_error r) (rn_result_json r).

(** The database with these tables, and the number of readings of the clock. *)
Record database := Database {
  memory_store : store;
  extraction_states : list extraction_state;
  consolidation_runs : list run;
  readings : nat;
}.
#[export] Instance database_eta : Eta database := λ r,
  Database (memory_store r) (extraction_states r) (consolidation_runs r) (readings r).
Definition empty_database : database := Database empty_store [] [] 0.

(** The clock, the reading of ISO texts ([None] for a ValueError), and the settings. *)
Class RunEnv := {
  clock : nat → instant;
  fromisoformat : string → option Z;
  MEMORY_DB_WRITE_MAX_ATTEMPTS : Z;
  MEMORY_EXTRACTION_LEASE_SECONDS : Z;
  MEMORY_CONSOLIDATION_RUN_LEASE_SECONDS : Z;
}.

(** A function of the memories in the larger database. *)
Definition in_store {A} (m : IO store A) : IO database A := λ s,
  let '(r, st) := m (memory_store s) in (r, s <| memory_store := st |>).
Definition store_session {A} (m : session A) : M database A := λ s,
  match m (memory_store s) with
  | Ok (a, st) => Ok (a, s <| memory_store := st |>)
  | Raise e => Raise e
  end.

(** * Writing to a database that may be locked *)

(** [_is_locked_error]: the exception is an OperationalError with this text. *)
Definition is_locked_error `{Platform} (e : exn) : bool :=
  match e with
  | OtherError type_name msg => String.eqb type_name "OperationalError" && str_contains "locked" (str_casefold msg)
  | _ => false
  end.

(** [_run_write]: SQLite may fail the n-th attempt, which undoes it; the time slept is counted
    in microseconds. *)
Section run_write.
Context `{Platform, RunEnv} {S A : Type}.
Variable refused : nat → option exn.
Variable operation : M S A.

Definition attempt (n : nat) (s : S) : result A * S :=
  match refused n with
  | Some e => (Raise e, s)
  | None => transaction operation s
  end.
Fixpoint write_attempts (attempt_no remaining : nat) (delay slept : Z) (s : S) : result A * S * Z :=
  match attempt attempt_no s with
  | (Ok a, s) => (Ok a, s, slept)
  | (Raise e, s) =>
      match remaining with
      | Datatypes.S remaining => if is_locked_error e then write_attempts (Datatypes.S attempt_no) remaining (delay * 2) (slept + delay) s
                  else (Raise e, s, slept)
      | O => (Raise e, s, slept)
      end
  end.
Definition write_limit (max_attempts : option Z) : Z :=
  Z.max 1 (match max_attempts with
           | Some n => if n =? 0 then MEMORY_DB_WRITE_MAX_ATTEMPTS else n
           | None => MEMORY_DB_WRITE_MAX_ATTEMPTS
           end).
Definition run_write (max_attempts : option Z) (s : S) : result A * S * Z :=
  write_attempts 1 (Z.to_nat (write_limit max_attempts - 1)) (milliseconds 50) 0 s.
End run_write.

Section runs.
Context `{Platform, TextRules, RunEnv}.

(** [utc_now_iso], and [datetime.now()] *)
Definition read_clock : M database instant := λ s,
  Ok (clock (readings s), s <| readings := Datatypes.S (readings s) |>).
Definition read_now : IO database instant := transaction read_clock.

(** [_parse_iso], [_is_stale] *)
Definition parse_iso (value : option string) : option Z :=
  match value with
  | None => None
  | Some v => if String.eqb v "" then None else fromisoformat v
  end.
Definition is_stale (value : option string) (lease_seconds now : Z) : bool :=
  match parse_iso value with
  | None => true
  | Some parsed => seconds lease_seconds <? now - parsed
  end.

(** * The extraction of a note *)

Definition find_extraction (note_id : string) (xs : list extraction_state) : option extraction_state :=
  List.find (λ x, String.eqb (xs_note_id x) note_id) xs.
Definition get_extraction_state (note_id : string) : IO database (option extraction_state) :=
  io_gets (λ s, find_extraction note_id (extraction_states s)).

(** INSERT ... ON CONFLICT(note_id) DO UPDATE *)
Fixpoint upsert_extraction (x : extraction_state) (delta : Z) (xs : list extraction_state) : list extraction_state :=
  match xs with
  | [] => [x]
  | y :: rest =>
      if String.eqb (xs_note_id y) (xs_note_id x)
      then (x <| xs_attempt_count := xs_attempt_count y + delta |>
              <| xs_started_at := or_column (xs_started_at x) (xs_started_at y) |>) :: rest
      else y :: upsert_extraction x delta rest
  end.

(** The row that is inserted. *)
Definition extraction_row (note_id space_id status : string) (candidate_count processed_count attempt_delta : Z)
    (error : option string) (now : string) : extraction_state :=
  ExtractionState note_id space_id status (Z.max 0 candidate_count) (Z.max 0 processed_count) attempt_delta error
    (if String.eqb status "processing" then Some now else None)
    (if py_in status ["completed"; "empty"; "partial"; "failed"] then Some now else None) now.

Definition mark_extraction_state (note_id space_id status : string) (candidate_count processed_count : Z)
    (error : option string) (increment_attempt : bool) : IO database extraction_state :=
  if negb (py_in status MEMORY_EXTRACTION_STATUSES)
  then throw (ValueError ("invalid memory extraction status: " +:+ status))
  else
    now ← read_now;
    let attempt_delta := if increment_attempt then 1 else 0 in
    let x := extraction_row note_id space_id status candidate_count processed_count attempt_delta error (now_iso now) in
    transaction (modify (λ s, s <| extraction_states := upsert_extraction x attempt_delta (extraction_states s) |>));;
    state ← get_extraction_state note_id;
    match state with
    | None => throw (RuntimeError ("failed to read extraction state: " +:+ note_id))
    | Some state => mret state
    end.

Definition mark_extraction_processing (note_id space_id : string) : IO database extraction_state :=
  mark_extraction_state note_id space_id "processing" 0 0 None true.
Definition mark_extraction_completed (note_id space_id : string) (candidate_count processed_count : Z) :
    IO database extraction_state :=
  mark_extraction_state note_id space_id "completed" candidate_count processed_count None false.
Definition mark_extraction_empty (note_id space_id : string) : IO database extraction_state :=
  mark_extraction_state note_id space_id "empty" 0 0 None false.
Definition mark_extraction_empty_attempt (note_id space_id : string) : IO database extraction_state :=
  mark_extraction_state note_id space_id "empty" 0 0 None true.
Definition mark_extraction_partial (note_id space_id : string) (candidate_count processed_count : Z) (error : string) :
    IO database extraction_state :=
  mark_extraction_state note_id space_id "partial" candidate_count processed_count (Some error) false.
Definition mark_extraction_failed (note_id space_id error : string) : IO database extraction_state :=
  mark_extraction_state note_id space_id "failed" 0 0 (Some error) false.

Definition list_retryable_extraction_states (space_id : string) (limit : Z) : IO database (list extraction_state) :=
  io_gets (λ s, take (Z.to_nat (Z.max 1 (Z.min limit 500)))
    (sort_by (λ a b, text_leb (xs_updated_at a) (xs_updated_at b))
      (List.filter (λ x, String.eqb (xs_space_id x) space_id && py_in (xs_status x) ["pending"; "failed"; "partial"])
        (extraction_states s)))).

(** * The runs of the consolidation *)

Definition same_period (space_id cadence period_key : string) (r : run) : bool :=
  String.eqb (rn_space_id r) space_id && String.eqb (rn_cadence r) cadence && String.eqb (rn_period_key r) period_key.
Definition find_run (space_id cadence period_key : string) (rs : list run) : option run :=
  List.find (same_period space_id cadence period_key) rs.

(** INSERT ... ON CONFLICT(space_id, cadence, period_key) DO UPDATE; the identifier is the
    primary key. *)
Definition upsert_run (r : run) (rs : list run) : M database unit :=
  if existsb (same_period (rn_space_id r) (rn_cadence r) (rn_period_key r)) rs
  then
    if existsb (λ q, String.eqb (rn_id q) (rn_id r)
                     && negb (same_period (rn_space_id r) (rn_cadence r) (rn_period_key r) q)) rs
    then raise (IntegrityError "memory_consolidation_runs.id")
    else modify (λ s, s <| consolidation_runs :=
      update_where (same_period (rn_space_id r) (rn_cadence r) (rn_period_key r)) (λ _, r) rs |>)
  else if existsb (λ q, String.eqb (rn_id q) (rn_id r)) rs
  then raise (IntegrityError "memory_consolidation_runs.id")
  else modify (λ s, s <| consolidation_runs := (rs ++ [r])%list |>).

(** May the period be taken: nobody completed it, and nobody is at it. *)
Definition is_taken (row : option run) (now : Z) : bool :=
  match row with
  | None => false
  | Some r => String.eqb (rn_status r) "completed"
              || String.eqb (rn_status r) "running"
                 && negb (is_stale (Some (rn_started_at r)) MEMORY_CONSOLIDATION_RUN_LEASE_SECONDS now)
  end.
Definition reserve_in_session (space_id cadence period_key : string) : M database (option string) :=
  rs ← gets consolidation_runs;
  now ← read_clock;
  if is_taken (find_run space_id cadence period_key rs) (now_time now) then mret None
  else
    run_id ← store_session (new_id "run");
    upsert_run (Run run_id space_id cadence period_key "running" (now_iso now) None None None) rs;;
    mret (Some run_id).

Definition get_consolidation_run (run_id : string) : IO database (option run) :=
  io_gets (λ s, List.find (λ r, String.eqb (rn_id r) run_id) (consolidation_runs s)).

Definition reserve_consolidation_run (space_id cadence period_key : string) : IO database (option run) :=
  run_id ← transaction (reserve_in_session space_id (str_lower (py_strip cadence)) period_key);
  match run_id with
  | None => mret None
  | Some run_id => get_consolidation_run run_id
  end.

Definition set_run (run_id : string) (f : run → run) : IO database unit :=
  transaction (modify (λ s, s <| consolidation_runs :=
    update_where (λ r, String.eqb (rn_id r) run_id) f (consolidation_runs s) |>)).
Definition mark_consolidation_completed (run_id payload : string) : IO database unit :=
  now ← read_now;
  set_run run_id (λ r, r <| rn_status := "completed" |> <| rn_completed_at := Some (now_iso now) |>
    <| rn_error := None |> <| rn_result_json := Some payload |>).
Definition mark_consolidation_failed (run_id error : string) : IO database unit :=
  now ← read_now;
  set_run run_id (λ r, r <| rn_status := "failed" |> <| rn_completed_at := Some (now_iso now) |>
    <| rn_error := Some error |>).
End runs.

(** The runs of the consolidation as a transition system: processes reserve a period, work, and
    record the end, or die on the way.  A period that was completed stays completed, and a
    process whose run was taken over cannot change anything any more.  A write that is repeated
    while the database is locked happens at most once. *)

(** * Repeated writes *)

Section writes.
Context `{Platform, RunEnv} {S A : Type}.
Variable refused : nat → option exn.
Variable operation : M S A.

Lemma attempt_atomic n s r s' : attempt refused operation n s = (r, s') →
  (r, s') = transaction operation s ∨ (∃ e, r = Raise e) ∧ s' = s.
Proof. unfold attempt. destruct (refused n); [intros [= <- <-]; right; eauto|intros <-; by left]. Qed.

Lemma failed_attempt n s e s' : attempt refused operation n s = (Raise e, s') → s' = s.
Proof.
  unfold attempt, transaction. destruct (refused n); [by intros [= _ <-]|].
  destruct (operation s) as [[]|]; by intros [= _ <-].
Qed.

Lemma write_attempts_atomic remaining : ∀ n delay slept s r s' w,
  0 ≤ delay → write_attempts refused operation n remaining delay slept s = (r, s', w) →
  ((r, s') = transaction operation s ∨ (∃ e, r = Raise e) ∧ s' = s)
  ∧ slept ≤ w ≤ slept + delay * (2 ^ Z.of_nat remaining - 1).
Proof.
  induction remaining as [|k IH]; intros n delay slept s r s' w Hd; cbn [write_attempts];
    destruct (attempt refused operation n s) as [[a|e] s1] eqn:E.
  - intros [= <- <- <-]. split; [by eapply attempt_atomic|]. simpl. lia.
  - intros [= <- <- <-]. split; [by eapply attempt_atomic|]. simpl. lia.
  - intros [= <- <- <-]. split; [by eapply attempt_atomic|]. nia.
  - destruct (is_locked_error e).
    + pose proof (failed_attempt _ _ _ _ E) as ->. intros Hw. apply IH in Hw as [Hr Hb]; [|lia]. split; [done|].
      rewrite Nat2Z.inj_succ, Z.pow_succ_r by lia. nia.
    + intros [= <- <- <-]. split; [by eapply attempt_atomic|]. nia.
Qed.

(** A success waits for a refusal that is not the lock, or for more refusals than attempts. *)
Lemma write_attempts_succeed remaining : ∀ n delay slept s k,
  (k ≤ remaining)%nat → (∀ i, (i < k)%nat → ∃ e, refused (n + i)%nat = Some e ∧ is_locked_error e = true) →
  refused (n + k)%nat = None → (∃ a s', operation s = Ok (a, s')) →
  (write_attempts refused operation n remaining delay slept s).1 = transaction operation s.
Proof.
  induction remaining as [|m IH]; intros n delay slept s k Hk Hlocked Hfree Hop; cbn [write_attempts].
  - assert (k = 0%nat) as -> by lia. rewrite Nat.add_0_r in Hfree. unfold attempt. rewrite Hfree.
    destruct Hop as (a & s' & Hop). unfold transaction. by rewrite Hop.
  - destruct k as [|k].
    + rewrite Nat.add_0_r in Hfree. unfold attempt. rewrite Hfree.
      destruct Hop as (a & s' & Hop). unfold transaction. by rewrite Hop.
    + destruct (Hlocked 0%nat) as (e & He & Hl); [lia|]. rewrite Nat.add_0_r in He.
      unfold attempt at 1. rewrite He, Hl. apply (IH _ _ _ _ k); [lia| |by replace (Datatypes.S n + k)%nat with (n + Datatypes.S k)%nat by lia|done].
      intros i Hi. replace (Datatypes.S n + i)%nat with (n + Datatypes.S i)%nat by lia. apply Hlocked. lia.
Qed.

(** A write to the memory database happens as a whole or not at all, however often the database is locked meanwhile: the result is that of one transaction or an exception that changed nothing, and the waiting is bounded by the doubling delays.  It succeeds when one of its attempts finds the database free and all before were only locked. *)
Theorem repeated_write_is_atomic max_attempts s :
  ((run_write refused operation max_attempts s).1 = transaction operation s
   ∨ (∃ e, (run_write refused operation max_attempts s).1 = (Raise e, s)))
  ∧ 0 ≤ (run_write refused operation max_attempts s).2
      ≤ milliseconds 50 * (2 ^ (write_limit max_attempts - 1) - 1)
  ∧ ∀ k, Z.of_nat k < write_limit max_attempts →
      (∀ i, (i < k)%nat → ∃ e, refused (1 + i)%nat = Some e ∧ is_locked_error e = true) →
      refused (1 + k)%nat = None → (∃ a s', operation s = Ok (a, s')) →
      (run_write refused operation max_attempts s).1 = transaction operation s.
Proof.
  assert (1 ≤ write_limit max_attempts) as Hl by (unfold write_limit; lia).
  destruct (run_write refused operation max_attempts s) as [[r s'] w] eqn:E. split_and!.
  - apply write_attempts_atomic in E as [[->|[(e & ->) ->]] _]; [by left|right; eauto|done].
  - apply write_attempts_atomic in E as [_ Hb]; [|done]. rewrite Z2Nat.id in Hb by lia. simpl in *. lia.
  - apply write_attempts_atomic in E as [_ Hb]; [|done]. rewrite Z2Nat.id in Hb by lia. simpl in *. lia.
  - intros k Hk Hlocked Hfree Hop. rewrite <- E. apply (write_attempts_succeed _ _ _ _ _ k); [lia|done..].
Qed.
End writes.

(** * Processes that consolidate *)

(** The runs that some process holds, all identifiers that were given out, and the database. *)
Record world := World { active : list string; issued : list string; db : database }.

Section system.
Context `{Platform, TextRules, RunEnv}.

Definition leave (id : string) (ids : list string) : list string := List.filter (λ x, negb (String.eqb x id)) ids.

(** The transactions of the processes, and death.  A run is ended by its process, once; its
    identifier is a fresh uuid.  All other work leaves the table alone. *)
Inductive run_step : world → world → Prop :=
  | StepReserve a i s space_id cadence period_key id s' :
      reserve_in_session space_id cadence period_key s = Ok (Some id, s') → id ∉ i →
      run_step (World a i s) (World (id :: a) (id :: i) s')
  | StepTaken a i s space_id cadence period_key s' :
      reserve_in_session space_id cadence period_key s = Ok (None, s') → run_step (World a i s) (World a i s')
  | StepComplete a i s id payload : id ∈ a →
      run_step (World a i s) (World (leave id a) i (mark_consolidation_completed id payload s).2)
  | StepFail a i s id error : id ∈ a →
      run_step (World a i s) (World (leave id a) i (mark_consolidation_failed id error s).2)
  | StepDie a i s id : run_step (World a i s) (World (leave id a) i s)
  | StepOther a i s s' : consolidation_runs s' = consolidation_runs s → run_step (World a i s) (World a i s').

Definition start : world := World [] [] empty_database.

(** ** What the transactions do to the table *)

Definition put_run (r : run) (rs : list run) : list run :=
  if existsb (same_period (rn_space_id r) (rn_cadence r) (rn_period_key r)) rs
  then update_where (same_period (rn_space_id r) (rn_cadence r) (rn_period_key r)) (λ _, r) rs
  else (rs ++ [r])%list.

Lemma reserve_effect space_id cadence period_key s o s' :
  reserve_in_session space_id cadence period_key s = Ok (o, s') →
  let row := find_run space_id cadence period_key (consolidation_runs s) in
  let now := clock (readings s) in
  match o with
  | None => is_taken row (now_time now) = true ∧ consolidation_runs s' = consolidation_runs s
  | Some id => is_taken row (now_time now) = false
      ∧ consolidation_runs s' = put_run (Run id space_id cadence period_key "running" (now_iso now) None None None)
                                  (consolidation_runs s)
  end.
Proof.
  unfold reserve_in_session. intros E. apply bind_Ok in E as (rs & s1 & [= <- <-] & E).
  apply bind_Ok in E as (now & s1 & [= <- <-] & E).
  destruct (is_taken _ _) eqn:Et; [by injection E as <- <-|].
  apply bind_Ok in E as (id & s1 & Eid & E). apply bind_Ok in E as ([] & s2 & E & [= <- <-]). split; [done|].
  assert (consolidation_runs s1 = consolidation_runs s) as Hs1.
  { unfold store_session in Eid. simpl in Eid. by injection Eid as _ <-. }
  unfold upsert_run, put_run in *. simpl in E |- *.
  destruct (existsb (same_period _ _ _) _); destruct (existsb _ _); try done; by injection E as <-.
Qed.

Lemma complete_effect id payload s : ∃ now,
  consolidation_runs (mark_consolidation_completed id payload s).2 =
  update_where (λ r, String.eqb (rn_id r) id) (λ r, r <| rn_status := "completed" |>
    <| rn_completed_at := Some (now_iso now) |> <| rn_error := None |> <| rn_result_json := Some payload |>)
    (consolidation_runs s).
Proof. by eexists. Qed.
Lemma fail_effect id error s : ∃ now,
  consolidation_runs (mark_consolidation_failed id error s).2 =
  update_where (λ r, String.eqb (rn_id r) id) (λ r, r <| rn_status := "failed" |>
    <| rn_completed_at := Some (now_iso now) |> <| rn_error := Some error |>) (consolidation_runs s).
Proof. by eexists. Qed.

(** ** The invariant *)

Definition period_of (r : run) : string * string * string := (rn_space_id r, rn_cadence r, rn_period_key r).

Record run_inv (w : world) : Prop := {
  ri_periods : NoDup (map period_of (consolidation_runs (db w)));
  ri_issued : ∀ r, r ∈ consolidation_runs (db w) → rn_id r ∈ issued w;
  ri_ids : ∀ q r, q ∈ consolidation_runs (db w) → r ∈ consolidation_runs (db w) → rn_id q = rn_id r → period_of q = period_of r;
  ri_active : ∀ id, id ∈ active w → id ∈ issued w;
  ri_settled : ∀ r, r ∈ consolidation_runs (db w) → rn_status r ≠ "running" → rn_id r ∉ active w;
}.

Lemma same_period_true space_id cadence period_key r :
  same_period space_id cadence period_key r = true ↔ period_of r = (space_id, cadence, period_key).
Proof. unfold same_period, period_of. bools. split; [by intros [[-> ->] ->]|by intros [= -> -> ->]]. Qed.

Lemma elem_of_leave x id ids : x ∈ leave id ids ↔ x ∈ ids ∧ x ≠ id.
Proof. unfold leave. rewrite !list_elem_of_In, filter_In. bools. tauto. Qed.

Lemma put_run_periods r rs : NoDup (map period_of rs) → NoDup (map period_of (put_run r rs)).
Proof.
  unfold put_run. intros Hnd. destruct (existsb _ _) eqn:E.
  - rewrite update_column_keyed; [done|]. intros q. intros Hq%same_period_true. by rewrite Hq.
  - rewrite map_app, NoDup_app. split_and!; [done| |apply NoDup_singleton].
    intros k (q & <- & Hq)%elem_of_map Hk%list_elem_of_singleton.
    assert (existsb (same_period (rn_space_id r) (rn_cadence r) (rn_period_key r)) rs = true) as E'; [|congruence].
    apply existsb_exists. exists q. split; [by apply list_elem_of_In|]. by apply same_period_true.
Qed.
Lemma in_put_run r q rs : q ∈ put_run r rs → q = r ∨ q ∈ rs ∧ period_of q ≠ period_of r.
Proof.
  unfold put_run. destruct (existsb _ _) eqn:E.
  - unfold update_where. intros (x & <- & Hx)%elem_of_map. destruct (same_period _ _ _ x) eqn:Es; [by left|].
    right. split; [done|]. intros Ep. apply not_true_iff_false in Es. apply Es. by apply same_period_true.
  - intros [Hq|Hq%list_elem_of_singleton]%elem_of_app; [|by left]. right. split; [done|]. intros Ep.
    apply not_true_iff_false in E. apply E, existsb_exists. exists q.
    split; [by apply list_elem_of_In|]. by apply same_period_true.
Qed.
Lemma put_run_other r q rs : q ∈ rs → period_of q ≠ period_of r → q ∈ put_run r rs.
Proof.
  unfold put_run. intros Hq Hp. destruct (existsb _ _); [|apply elem_of_app; by left].
  apply elem_of_map. exists q. split; [|done]. destruct (same_period _ _ _ q) eqn:Es; [|done].
  by apply same_period_true in Es.
Qed.

(** Ending a run changes only the row with its identifier, and not its period. *)
Lemma mark_inv f a i s id : (∀ r, period_of (f r) = period_of r) → (∀ r, rn_id (f r) = rn_id r) →
  run_inv (World a i s) → ∀ s', consolidation_runs s' = update_where (λ r, String.eqb (rn_id r) id) f (consolidation_runs s) →
  run_inv (World (leave id a) i s').
Proof.
  intros Hperiod Hid [h1 h2 h5 h3 h4] s' Hs'. simpl in *. constructor; simpl; rewrite ?Hs'.
  - by rewrite update_column.
  - unfold update_where. intros r (q & <- & Hq)%elem_of_map. case_match; rewrite ?Hid; auto.
  - unfold update_where. intros q r (q' & <- & Hq)%elem_of_map (r' & <- & Hr)%elem_of_map.
    destruct (String.eqb (rn_id q') id), (String.eqb (rn_id r') id); rewrite ?Hid, ?Hperiod; auto.
  - intros x [Hx _]%elem_of_leave. auto.
  - unfold update_where. intros r (q & <- & Hq)%elem_of_map Hst [Ha Hne]%elem_of_leave.
    destruct (String.eqb (rn_id q) id) eqn:E; [|by eapply h4].
    apply String.eqb_eq in E. rewrite Hid in Hne. done.
Qed.

Lemma run_inv_step w w' : run_step w w' → run_inv w → run_inv w'.
Proof.
  destruct 1 as [a i s space_id cadence period_key id s' E Hfresh|a i s ??? s' E|a i s id payload Hid
    |a i s id error Hid|a i s id|a i s s' E]; intros Hinv; pose proof Hinv as [h1 h2 h5 h3 h4]; cbn [db active issued] in *.
  - apply reserve_effect in E as [_ E]. constructor; simpl; rewrite ?E.
    + by apply put_run_periods.
    + intros r [->|[Hr _]]%in_put_run; [by left|right; auto].
    + intros q r [->|[Hq _]]%in_put_run [->|[Hr _]]%in_put_run; simpl; [done| | |auto].
      * intros ->. by destruct Hfresh; auto.
      * intros <-. by destruct Hfresh; auto.
    + intros x [->|Hx]%elem_of_cons; [by left|right; auto].
    + intros r [->|[Hr _]]%in_put_run Hst; [done|]. intros [Hx|Hx]%elem_of_cons; [|by eapply h4].
      apply Hfresh. rewrite <- Hx. auto.
  - apply reserve_effect in E as [_ E]. by constructor; simpl; rewrite ?E.
  - destruct (complete_effect id payload s) as [now E]. by eapply mark_inv; [| |exact Hinv|exact E].
  - destruct (fail_effect id error s) as [now E]. by eapply mark_inv; [| |exact Hinv|exact E].
  - constructor; simpl; [done|done|done| |].
    + intros x [Hx _]%elem_of_leave. auto.
    + intros r Hr Hst [Hx _]%elem_of_leave. by eapply h4.
  - by constructor; simpl; rewrite ?E.
Qed.

Lemma reachable_run_inv w : rtc run_step start w → run_inv w.
Proof.
  intros Hr. assert (run_inv start) as Hi.
  { constructor; simpl; [apply NoDup_nil_2|set_solver..]. }
  revert Hi. induction Hr; eauto using run_inv_step.
Qed.

(** ** A completed period *)

Lemma completed_taken w r now : run_inv w → r ∈ consolidation_runs (db w) → rn_status r = "completed" →
  is_taken (find_run (rn_space_id r) (rn_cadence r) (rn_period_key r) (consolidation_runs (db w))) now = true.
Proof.
  intros Hinv Hr Hst. unfold find_run. destruct (List.find _ _) as [q|] eqn:E.
  - apply List.find_some in E as [Hq Hp%same_period_true]. apply list_elem_of_In in Hq.
    assert (q = r) as -> by (by apply (key_unique period_of (consolidation_runs (db w))); [apply Hinv|..]).
    unfold is_taken. by rewrite Hst.
  - apply list_elem_of_In in Hr. eapply List.find_none in E; [|done].
    by rewrite (proj2 (same_period_true _ _ _ _) eq_refl) in E.
Qed.

Lemma completed_step w w' r : run_inv w → run_step w w' →
  r ∈ consolidation_runs (db w) → rn_status r = "completed" → r ∈ consolidation_runs (db w').
Proof.
  intros Hinv Hstep Hr Hst.
  assert (∀ id f, id ∈ active w → r ∈ update_where (λ r, String.eqb (rn_id r) id) f (consolidation_runs (db w))) as Hmark.
  { intros id f Hid. apply elem_of_map. exists r. split; [|done].
    destruct (String.eqb (rn_id r) id) eqn:E; [|done]. apply String.eqb_eq in E as <-. exfalso.
    eapply ri_settled; [exact Hinv|exact Hr| |exact Hid]. by rewrite Hst. }
  destruct Hstep as [a i s space_id cadence period_key id s' E Hfresh|a i s ??? s' E|a i s id payload Hid
    |a i s id error Hid|a i s id|a i s s' E]; cbn [db active issued] in *.
  - apply reserve_effect in E as [Ht E]. rewrite E. apply put_run_other; [done|]. intros Ep.
    pose proof (completed_taken _ _ (now_time (clock (readings s))) Hinv Hr Hst) as Htaken. simpl in Htaken.
    unfold period_of in Ep. simpl in Ep. injection Ep as E1 E2 E3. rewrite E1, E2, E3 in Htaken. congruence.
  - apply reserve_effect in E as [_ E]. by rewrite E.
  - destruct (complete_effect id payload s) as [now E]. rewrite E. auto.
  - destruct (fail_effect id error s) as [now E]. rewrite E. auto.
  - done.
  - by rewrite E.
Qed.

(** ** A run that was taken over *)

Definition superseded (id : string) (w : world) : Prop :=
  id ∈ issued w ∧ id ∉ map rn_id (consolidation_runs (db w)).

Lemma superseded_step id w w' : run_step w w' → superseded id w → superseded id w'.
Proof.
  assert (∀ id' f rs, (∀ r, rn_id (f r) = rn_id r) →
    map rn_id (update_where (λ r, String.eqb (rn_id r) id') f rs) = map rn_id rs) as Hids
    by (intros; by apply update_column).
  destruct 1 as [a i s space_id cadence period_key id' s' E Hfresh|a i s ??? s' E|a i s id' payload Hid
    |a i s id' error Hid|a i s id'|a i s s' E]; intros [h1 h2]; unfold superseded; cbn [db active issued] in *.
  - apply reserve_effect in E as [_ E]. split; [by right|]. rewrite E.
    intros (r & <- & [->|[Hr _]]%in_put_run)%elem_of_map; [done|]. apply h2. by apply elem_of_map_in.
  - apply reserve_effect in E as [_ E]. by rewrite E.
  - destruct (complete_effect id' payload s) as [now E]. rewrite E, Hids by done. done.
  - destruct (fail_effect id' error s) as [now E]. rewrite E, Hids by done. done.
  - done.
  - by rewrite E.
Qed.

Lemma superseded_powerless id w payload error : superseded id w →
  consolidation_runs (mark_consolidation_completed id payload (db w)).2 = consolidation_runs (db w)
  ∧ consolidation_runs (mark_consolidation_failed id error (db w)).2 = consolidation_runs (db w).
Proof.
  intros [_ Hid]. destruct (complete_effect id payload (db w)) as [now1 ->], (fail_effect id error (db w)) as [now2 ->].
  rewrite !update_nothing; [done|intros r Hr; apply String.eqb_neq; intros <-; by apply Hid, elem_of_map_in..].
Qed.
End system.

(** * The properties *)

Section properties.
Context `{Platform, TextRules, RunEnv}.

(** A period that was consolidated is consolidated for good: once a run is completed, its row stays as it is in every later state, whatever the processes do, and every further attempt to reserve the period is refused. *)
Theorem completed_period_is_final w w' r :
  rtc run_step start w → rtc run_step w w' → r ∈ consolidation_runs (db w) → rn_status r = "completed" →
  r ∈ consolidation_runs (db w')
  ∧ ∀ o s', reserve_in_session (rn_space_id r) (rn_cadence r) (rn_period_key r) (db w') = Ok (o, s') → o = None.
Proof.
  intros Hw%reachable_run_inv Hrun Hr Hst.
  assert (run_inv w' ∧ r ∈ consolidation_runs (db w')) as [Hw' Hr'].
  { induction Hrun; [done|]. eauto using run_inv_step, completed_step. }
  split; [done|]. intros o s' E. apply reserve_effect in E.
  destruct o as [id|]; [|done]. destruct E as [E _]. by rewrite (completed_taken _ _ _ Hw' Hr' Hst) in E.
Qed.

End properties.

(** * Witnesses *)

Module Example.
(** Ten minutes and more pass between two readings of the clock. *)
Definition test_runs : RunEnv := {|
  clock := λ n, Instant (pretty (N.of_nat n)) (seconds (601 * Z.of_nat n));
  fromisoformat := λ s, option_map (λ n, seconds (601 * n)) (int_value s);
  MEMORY_DB_WRITE_MAX_ATTEMPTS := 3;
  MEMORY_EXTRACTION_LEASE_SECONDS := 600;
  MEMORY_CONSOLIDATION_RUN_LEASE_SECONDS := 600;
|}.
#[local] Existing Instance test_platform.
#[local] Existing Instance test_rules.
#[local] Existing Instance test_runs.

(** The database is locked at the first two attempts. *)
Definition busy_twice (n : nat) : option exn :=
  if (n <=? 2)%nat then Some (OtherError "OperationalError" "database is Locked") else None.
Lemma repeated_write_is_atomic_witness :
  run_write busy_twice (modify (λ n : Z, n + 1)) None 7 = (Ok tt, 8, milliseconds 150)
  ∧ (run_write busy_twice (modify (λ n : Z, n + 1)) None 7).1 = transaction (modify (λ n : Z, n + 1)) 7.
Proof.
  split; [vm_compute; reflexivity|].
  apply (proj2 (proj2 (repeated_write_is_atomic busy_twice (modify (λ n : Z, n + 1)) None 7)) 2%nat);
    [vm_compute; reflexivity| |vm_compute; reflexivity|eexists _, _; vm_compute; reflexivity].
  intros [|[|i]] Hi; [eexists; split; vm_compute; reflexivity..|lia].
Defined.

Definition take_period (s : database) : database := (transaction (reserve_in_session "s1" "daily" "2026-02-11") s).2.
Definition first_run : run := Run "run_0" "s1" "daily" "2026-02-11" "running" "0" None None None.
Definition first_done : run := Run "run_0" "s1" "daily" "2026-02-11" "completed" "0" (Some "1") None (Some "{}").
Definition one_run : world := World ["run_0"] ["run_0"] (take_period empty_database).
Definition done_run : world := World [] ["run_0"] (mark_consolidation_completed "run_0" "{}" (db one_run)).2.

Lemma one_run_reachable : rtc run_step start one_run.
Proof. eapply rtc_l; [|apply rtc_refl]. eapply StepReserve; [vm_compute; reflexivity|apply not_elem_of_nil]. Qed.
Lemma done_run_reachable : rtc run_step start done_run.
Proof.
  eapply rtc_r; [apply one_run_reachable|].
  apply (StepComplete ["run_0"] ["run_0"] (db one_run) "run_0" "{}"). by left.
Qed.

Lemma completed_period_is_final_witness :
  first_done
    ∈ consolidation_runs (db done_run)
  ∧ ∀ o s', reserve_in_session "s1" "daily" "2026-02-11" (db done_run) = Ok (o, s') → o = None.
Proof.
  apply (completed_period_is_final done_run done_run
    first_done
    done_run_reachable (rtc_refl _ _)); [by left|reflexivity].
Defined.

End Example.
