(* ===== verification/CandidateValidation.v ===== *)
(** The validation of extracted candidates ([memory/candidate_validator.py]), the last gate
    before a candidate may change a memory.

    The patterns over the texts - the recognition of sensitive data, the canonical identity of
    [memory/canonicalizer.py] - are arbitrary functions.  A confidence is a rational number; one
    that is not finite cannot occur here.  The branches for cards, whose switches are off by
    default, are left out. *)

From stdpp Require Import base list strings.
From Stdlib Require Import ZArith Lia QArith Qminmax Lqa.
From S2P Require Import Prelude Consistency MemoryText Memory MemoryOps.

Open Scope string_scope.
Open Scope Z_scope.

(** What the code reads of the scope of a candidate besides its text. *)
Record scope_keys := ScopeKeys {
  sc_unresolved_reason : bool;
  sc_preference_error : bool;
  sc_operation : string;
  sc_antecedent : string;            (* the note of a resolved reference *)
}.

(** [MemoryCandidate] with the fields of the extraction; [x_reason] is [effective_reason]. *)
Record extracted := Extracted {
  x_candidate : candidate;
  x_note_id : option string;
  x_should_store : bool;
  x_reason : option string;
  x_clause_index : option Z;
  x_evidence_span : option string;
  x_entities : list string;
  x_scope : scope_keys;
}.
#[export] Instance extracted_eta : Eta extracted := λ r,
  Extracted (x_candidate r) (x_note_id r) (x_should_store r) (x_reason r) (x_clause_index r) (x_evidence_span r)
    (x_entities r) (x_scope r).

(** [CandidateRejection] *)
Record rejection := Rejection { rj_candidate_id : string; rj_reason : string }.

(** What [canonicalize_candidate] replaces. *)
Record identity := Identity {
  id_subject : option string;
  id_predicate : option string;
  id_object_value : option string;
  id_task_status : option string;
  id_polarity : option string;
  id_memory_key : option string;
  id_memory_key_version : string;
  id_scope : string;
  id_operation : string;
}.

Class ValidationRules := {
  contains_sensitive_data : string → bool;
  canonical_identity : extracted → identity;
  MEMORY_CANDIDATE_MIN_CONFIDENCE : Q;
  MEMORY_EXTRACTOR_SCHEMA_V3_ENABLED : bool;
  MEMORY_CANONICAL_KEY_V3_ENABLED : bool;
}.

Section validation.
Context `{Platform, TextRules, ValidationRules}.

Definition LOW_VALUE_TEXTS : list string :=
  ["你好"; "您好"; "hello"; "hi"; "收到"; "好的"; "好"; "ok"; "谢谢"; "哈哈"; "嗯"; "嗯嗯"].

(** [len] *)
Fixpoint char_length (s : string) : nat :=
  match s with
  | EmptyString => 0
  | String c s => (if is_continuation c then 0 else 1) + char_length s
  end.

(** [_safe_score] *)
Definition safe_score (value : Q) : Q := Qmin 1 (Qmax 0 value).

(** [canonicalize_candidate] *)
Definition canonicalize_candidate (x : extracted) : extracted :=
  let i := canonical_identity x in
  x <| x_candidate := x_candidate x <| c_subject := id_subject i |> <| c_predicate := id_predicate i |>
         <| c_object_value := id_object_value i |> <| c_task_status := id_task_status i |>
         <| c_polarity := id_polarity i |> <| c_memory_key := id_memory_key i |>
         <| c_memory_key_version := id_memory_key_version i |> <| c_scope := id_scope i |> |>
    <| x_scope := ScopeKeys (sc_unresolved_reason (x_scope x)) (sc_preference_error (x_scope x)) (id_operation i)
         (sc_antecedent (x_scope x)) |>.

Definition truthy (s : option string) : bool := negb (String.eqb (default "" s) "").
(** [str(s).strip()[:n] if s else None] *)
Definition clipped (n : nat) (s : option string) : option string :=
  if truthy s then Some (str_take n (py_strip (default "" s))) else None.
(** [list(dict.fromkeys(...))] *)
Definition distinct_entities (entities : list string) : list string :=
  take 12 (fold_left (λ kept e, if py_in e kept then kept else (kept ++ [e])%list)
    (List.filter (λ e, negb (String.eqb e "")) (map py_strip entities)) []).

(** [" ".join(content.split()).strip()] *)
Definition plain_content (x : extracted) : string := py_strip (join_words (py_split (c_content (x_candidate x)))).

(** The candidate with its clipped fields and its key. *)
Definition clipped_candidate (x : extracted) (content : string) (evidence_span : string) : extracted :=
  let c := x_candidate x in
  x <| x_candidate := c <| c_content := str_take 1000 content |>
         <| c_confidence := safe_score (c_confidence c) |> <| c_importance := safe_score (c_importance c) |>
         <| c_subject := clipped 160 (c_subject c) |> <| c_predicate := clipped 80 (c_predicate c) |>
         <| c_object_value := clipped 240 (c_object_value c) |>
         <| c_memory_key := Some (memory_key_for (c_memory_type c) (c_subject c) (c_predicate c) (c_object_value c)
                                    (str_take 1000 content)) |> |>
    <| x_entities := distinct_entities (x_entities x) |>
    <| x_evidence_span := let s := str_take 500 evidence_span in if String.eqb s "" then None else Some s |>.

Definition validate_candidate (x : extracted) (note_text : string) : extracted + rejection :=
  let c := x_candidate x in
  let reject reason := inr (Rejection (c_candidate_id c) reason) in
  let content := plain_content x in
  let normalized := normalize_content content in
  if contains_sensitive_data note_text || contains_sensitive_data content then reject "sensitive_data"
  else if negb (x_should_store x) && sc_unresolved_reason (x_scope x) then reject "preference_unresolved"
  else if negb (x_should_store x) then reject (str_or (default "" (x_reason x)) "candidate_should_not_store")
  else if (String.eqb content "" || (char_length normalized <=? 2)%nat
           || py_in normalized (map normalize_content LOW_VALUE_TEXTS))
          && negb (sc_preference_error (x_scope x)) then reject "low_value_content"
  else if negb (Qle_bool MEMORY_CANDIDATE_MIN_CONFIDENCE (safe_score (c_confidence c)))
  then reject "confidence_below_minimum"
  else
    let evidence_span := py_strip (default "" (x_evidence_span x)) in
    let grounded := String.eqb evidence_span "" || str_contains evidence_span note_text in
    if negb grounded && MEMORY_EXTRACTOR_SCHEMA_V3_ENABLED then reject "evidence_span_not_grounded"
    else
      let validated := clipped_candidate x content (if grounded then evidence_span else "") in
      if MEMORY_CANONICAL_KEY_V3_ENABLED then
        let validated := canonicalize_candidate validated in
        let c' := x_candidate validated in
        if String.eqb (c_memory_type c') "task"
           && negb (truthy (c_subject c') && truthy (c_predicate c')
                    && negb (String.eqb (sc_operation (x_scope validated)) "") && truthy (c_task_status c'))
        then reject "task_identity_incomplete"
        else inl validated
      else inl validated.

(** [checked.normalized_content] *)
Definition candidate_key (x : extracted) : string * string :=
  (c_memory_type (x_candidate x), normalize_content (c_content (x_candidate x))).

Definition validate_step (note_text : string) (s : list extracted * list rejection) (x : extracted) :
    list extracted * list rejection :=
  match validate_candidate x note_text with
  | inr r => (s.1, (s.2 ++ [r])%list)
  | inl checked =>
      if bool_decide (candidate_key checked ∈ map candidate_key s.1)
      then (s.1, (s.2 ++ [Rejection (c_candidate_id (x_candidate checked)) "duplicate_candidate"])%list)
      else ((s.1 ++ [checked])%list, s.2)
  end.
Definition validate_candidates (candidates : list extracted) (note_text : string) : list extracted * list rejection :=
  fold_left (validate_step note_text) candidates ([], []).
End validation.

(** * What is valid *)

Section facts.
Context `{Platform, TextRules, ValidationRules}.

Lemma char_length_take n s : (char_length (str_take n s) ≤ n)%nat.
Proof.
  revert n. induction s as [|c s IH]; intros n; [destruct n; simpl; lia|].
  simpl. destruct (is_continuation c) eqn:E; simpl; [rewrite E; apply IH|].
  destruct n as [|n]; simpl; [lia|]. rewrite E. specialize (IH n). simpl. lia.
Qed.

Lemma prefix_take n e t : String.prefix e t = true → String.prefix (str_take n e) t = true.
Proof.
  revert n t. induction e as [|c e IH]; intros n t; [by destruct n|]. destruct t as [|d t]; [done|]. simpl.
  destruct (Ascii.ascii_dec c d) as [->|]; [|done]. intros He.
  destruct (is_continuation d); [|destruct n; [done|]]; simpl; (destruct (Ascii.ascii_dec d d); [by apply IH|done]).
Qed.
Lemma contains_take n e t : str_contains e t = true → str_contains (str_take n e) t = true.
Proof.
  induction t as [|d t IH]; cbn [str_contains]; intros [Hp|Hc]%orb_true_iff; apply orb_true_iff;
    first [by left; apply prefix_take|by right; apply IH|done].
Qed.

Lemma safe_score_bounds q : (0 <= safe_score q)%Q ∧ (safe_score q <= 1)%Q.
Proof.
  unfold safe_score. split; [|apply Q.le_min_l]. apply Q.min_glb; [lra|apply Q.le_max_l].
Qed.

(** What one candidate must satisfy to pass. *)
Record sound_candidate (note_text : string) (x y : extracted) : Prop := {
  so_id : c_candidate_id (x_candidate y) = c_candidate_id (x_candidate x);
  so_type : c_memory_type (x_candidate y) = c_memory_type (x_candidate x);
  so_store : x_should_store x = true;
  so_public : contains_sensitive_data note_text = false;
  so_confidence : (MEMORY_CANDIDATE_MIN_CONFIDENCE <= c_confidence (x_candidate y))%Q ∧ (c_confidence (x_candidate y) <= 1)%Q;
  so_importance : (0 <= c_importance (x_candidate y))%Q ∧ (c_importance (x_candidate y) <= 1)%Q;
  so_content : (char_length (c_content (x_candidate y)) ≤ 1000)%nat;
  so_evidence : ∀ e, x_evidence_span y = Some e → e ≠ "" ∧ str_contains e note_text = true;
  so_task : MEMORY_CANONICAL_KEY_V3_ENABLED = true → c_memory_type (x_candidate y) = "task" →
    truthy (c_subject (x_candidate y)) ∧ truthy (c_predicate (x_candidate y)) ∧ truthy (c_task_status (x_candidate y));
}.

Lemma clipped_sound x note_text span :
  x_should_store x = true → contains_sensitive_data note_text = false →
  Qle_bool MEMORY_CANDIDATE_MIN_CONFIDENCE (safe_score (c_confidence (x_candidate x))) = true →
  span = "" ∨ str_contains span note_text = true →
  (MEMORY_CANONICAL_KEY_V3_ENABLED = false → sound_candidate note_text x (clipped_candidate x (plain_content x) span))
  ∧ let y := canonicalize_candidate (clipped_candidate x (plain_content x) span) in
    ((c_memory_type (x_candidate y) = "task" → truthy (c_subject (x_candidate y)) ∧ truthy (c_predicate (x_candidate y))
        ∧ truthy (c_task_status (x_candidate y))) →
     sound_candidate note_text x y).
Proof.
  intros Hstore Hpublic Hconf Hspan. apply Qle_bool_iff in Hconf.
  assert (∀ e, x_evidence_span (clipped_candidate x (plain_content x) span) = Some e →
    e ≠ "" ∧ str_contains e note_text = true) as He.
  { simpl. intros e. destruct (String.eqb (str_take 500 span) "") eqn:E; [done|]. intros [= <-].
    apply String.eqb_neq in E. split; [done|]. destruct Hspan as [->|Hspan]; [done|]. by apply contains_take. }
  pose proof (safe_score_bounds (c_confidence (x_candidate x))) as [_ ?].
  pose proof (safe_score_bounds (c_importance (x_candidate x))) as [??].
  pose proof (char_length_take 1000 (plain_content x)).
  split; [intros Hk|intros y Hy]; constructor; try done; congruence.
Qed.

Lemma validate_candidate_sound x note_text y :
  validate_candidate x note_text = inl y → sound_candidate note_text x y.
Proof.
  unfold validate_candidate.
  destruct (contains_sensitive_data note_text) eqn:Hs; [done|]. simpl.
  destruct (contains_sensitive_data (plain_content x)); [done|].
  destruct (x_should_store x) eqn:Hst; [|by destruct (sc_unresolved_reason _)]. simpl.
  destruct (_ && negb (sc_preference_error _)); [done|].
  destruct (Qle_bool _ _) eqn:Hc; [|done]. simpl.
  set (e := py_strip _). destruct (negb _ && _); [done|].
  set (span := if _ : bool then e else "").
  assert (span = "" ∨ str_contains span note_text = true) as Hspan.
  { unfold span. destruct (String.eqb e "") eqn:E; [left; by apply String.eqb_eq|].
    simpl. destruct (str_contains e note_text) eqn:Ec; [by right|by left]. }
  destruct (clipped_sound x note_text span Hst Hs Hc Hspan) as [Hplain Hcanon].
  destruct MEMORY_CANONICAL_KEY_V3_ENABLED; [|intros [= <-]; auto].
  destruct (_ && negb _) eqn:Ht; intros [= <-]. apply Hcanon. intros Htask.
  apply andb_false_iff in Ht as [Ht|Ht]; [apply String.eqb_neq in Ht; by destruct Ht|].
  apply negb_false_iff in Ht. rewrite !andb_true_iff in Ht. rewrite !Is_true_true. tauto.
Qed.

Record validation_inv (note_text : string) (xs : list extracted) (s : list extracted * list rejection) : Prop := {
  va_count : (length s.1 + length s.2)%nat = length xs;
  va_keys : NoDup (map candidate_key s.1);
  va_sound : ∀ y, y ∈ s.1 → ∃ x, x ∈ xs ∧ sound_candidate note_text x y;
  va_answered : ∀ x, x ∈ xs → c_candidate_id (x_candidate x) ∈
    (map (λ y, c_candidate_id (x_candidate y)) s.1 ++ map rj_candidate_id s.2)%list;
}.

Lemma validate_candidate_id x note_text r :
  validate_candidate x note_text = inr r → rj_candidate_id r = c_candidate_id (x_candidate x).
Proof. unfold validate_candidate. repeat case_match; by intros [= <-]. Qed.

Lemma accept_inv note_text xs s x y : validation_inv note_text xs s → sound_candidate note_text x y →
  candidate_key y ∉ map candidate_key s.1 → validation_inv note_text (xs ++ [x])%list ((s.1 ++ [y])%list, s.2).
Proof.
  intros [h1 h2 h3 h4] Hy Hk. constructor; simpl; rewrite ?length_app, ?map_app; simpl; [lia| | |].
  - apply NoDup_app. split_and!; [done| |apply NoDup_singleton]. by intros k Hin ->%list_elem_of_singleton.
  - setoid_rewrite elem_of_app. intros z [Hz| ->%list_elem_of_singleton]; [|exists x; split; [right; by left|done]].
    destruct (h3 z Hz) as (x' & ? & ?). eauto.
  - intros z [Hz| ->%list_elem_of_singleton]%elem_of_app; rewrite !elem_of_app.
    + apply h4, elem_of_app in Hz. tauto.
    + left. right. rewrite (so_id _ _ _ Hy). by left.
Qed.
Lemma reject_inv note_text xs s x r : validation_inv note_text xs s → rj_candidate_id r = c_candidate_id (x_candidate x) →
  validation_inv note_text (xs ++ [x])%list (s.1, (s.2 ++ [r])%list).
Proof.
  intros [h1 h2 h3 h4] Hr. constructor; simpl; rewrite ?length_app, ?map_app; simpl; [lia|done| |].
  - setoid_rewrite elem_of_app. intros z Hz. destruct (h3 z Hz) as (x' & ? & ?). eauto.
  - intros z [Hz| ->%list_elem_of_singleton]%elem_of_app; rewrite !elem_of_app.
    + apply h4, elem_of_app in Hz. tauto.
    + right. right. rewrite <- Hr. by left.
Qed.

Lemma validate_step_inv note_text xs s x :
  validation_inv note_text xs s → validation_inv note_text (xs ++ [x])%list (validate_step note_text s x).
Proof.
  intros Hs. unfold validate_step. destruct (validate_candidate x note_text) as [y|r] eqn:E.
  - pose proof (validate_candidate_sound _ _ _ E) as Hy. destruct (bool_decide _) eqn:Ed; bools.
    + apply reject_inv; [done|]. apply (so_id _ _ _ Hy).
    + by apply accept_inv.
  - apply reject_inv; [done|]. by eapply validate_candidate_id.
Qed.

Lemma validate_candidates_inv note_text candidates :
  validation_inv note_text candidates (validate_candidates candidates note_text).
Proof.
  unfold validate_candidates.
  assert (∀ done s, validation_inv note_text done s →
    validation_inv note_text (done ++ candidates)%list (fold_left (validate_step note_text) candidates s)) as Hfold.
  { induction candidates as [|x xs IH]; intros ks s Hs; simpl; [by rewrite app_nil_r|].
    specialize (IH (ks ++ [x])%list _ (validate_step_inv _ _ _ x Hs)). by rewrite <- app_assoc in IH. }
  apply (Hfold []). constructor; simpl; [done|apply NoDup_nil_2|by intros ? ?%not_elem_of_nil..].
Qed.

(** The validation of candidates answers each of them, by a rejection with its id or by a candidate, and what passes is sound: no two candidates have the same type and normalized content, none comes from a text with sensitive data, confidence and importance are scores, the confidence reaches the minimum, the content is bounded, a cited passage is in the note, and a task has its identity. *)
Theorem valid_candidates_are_sound candidates note_text valid rejected :
  validate_candidates candidates note_text = (valid, rejected) →
  (length valid + length rejected)%nat = length candidates
  ∧ NoDup (map candidate_key valid)
  ∧ (∀ x, x ∈ candidates → c_candidate_id (x_candidate x) ∈
       (map (λ y, c_candidate_id (x_candidate y)) valid ++ map rj_candidate_id rejected)%list)
  ∧ ∀ y, y ∈ valid → ∃ x, x ∈ candidates
       ∧ c_candidate_id (x_candidate y) = c_candidate_id (x_candidate x)
       ∧ x_should_store x = true ∧ contains_sensitive_data note_text = false
       ∧ (MEMORY_CANDIDATE_MIN_CONFIDENCE <= c_confidence (x_candidate y))%Q
       ∧ (c_confidence (x_candidate y) <= 1)%Q
       ∧ ((0 <= c_importance (x_candidate y))%Q ∧ (c_importance (x_candidate y) <= 1)%Q)
       ∧ (char_length (c_content (x_candidate y)) ≤ 1000)%nat
       ∧ (∀ e, x_evidence_span y = Some e → e ≠ "" ∧ str_contains e note_text = true)
       ∧ (MEMORY_CANONICAL_KEY_V3_ENABLED = true → c_memory_type (x_candidate y) = "task" →
            truthy (c_subject (x_candidate y)) ∧ truthy (c_predicate (x_candidate y)) ∧ truthy (c_task_status (x_candidate y))).
Proof.
  intros E. pose proof (validate_candidates_inv note_text candidates) as [h1 h2 h3 h4]. rewrite E in *. simpl in *.
  split_and!; [done..|]. intros y Hy. destruct (h3 y Hy) as (x & Hx & [k1 k2 k3 k4 [k5 k5'] [k6 k6'] k7 k8 k9]).
  exists x. split_and!; assumption.
Qed.
End facts.

Module Example.
#[local] Existing Instance test_platform.
#[local] Existing Instance test_rules.
Definition test_validation : ValidationRules := {|
  contains_sensitive_data := str_contains "password";
  canonical_identity := λ x, let c := x_candidate x in
    Identity (Some "user") (c_predicate c) (c_object_value c) (c_task_status c) (c_polarity c) (Some "key") "memory-key-v3"
      "{}" "do";
  MEMORY_CANDIDATE_MIN_CONFIDENCE := 9 # 20;
  MEMORY_EXTRACTOR_SCHEMA_V3_ENABLED := true;
  MEMORY_CANONICAL_KEY_V3_ENABLED := true;
|}.
#[local] Existing Instance test_validation.

Definition found (id content : string) (confidence : Q) (span : string) : extracted :=
  Extracted (Candidate id "preference" content (1 # 2) confidence None None None None None None None "v1" None "{}")
    None true None (Some 0) (Some span) [] (ScopeKeys false false "" "").
Definition some_candidates : list extracted :=
  [found "c1" "likes  green tea" (3 # 2) " green tea "; found "c2" "likes green tea" (1 # 2) "";
   found "c3" "likes coffee" (1 # 10) ""; found "c4" "likes milk" (1 # 2) "milk"; found "c5" "ok" (1 # 2) ""].

Lemma valid_candidates_are_sound_witness :
  map rj_reason (validate_candidates some_candidates "I like green tea").2
    = ["duplicate_candidate"; "confidence_below_minimum"; "evidence_span_not_grounded"; "low_value_content"]
  ∧ (length (validate_candidates some_candidates "I like green tea").1
     + length (validate_candidates some_candidates "I like green tea").2)%nat = 5%nat.
Proof.
  split; [vm_compute; reflexivity|].
  apply (valid_candidates_are_sound some_candidates "I like green tea" _ _ (surjective_pairing _)).
Defined.
End Example.
