(* ===== verification/PreferencePolicy.v ===== *)
(** The rules about preferences, tasks and facts in texts ([memory/policies/preference.py],
    [memory/policies/task.py], [memory/policies/semantic.py]).  The patterns are written out on
    the characters of a text: each of them is anchored or is searched from the left, and its
    repetitions are greedy or take the shortest, so that it denotes one match. *)

From stdpp Require Import base list strings.
From Stdlib Require Import ZArith Lia QArith Qround.
From S2P Require Import Prelude Consistency TextChunks Regex MemoryText Memory.

Open Scope string_scope.
Open Scope nat_scope.

(** * Words at a position *)

(** What follows [w] *)
Fixpoint cut_chars (ws cs : list string) : option (list string) :=
  match ws, cs with
  | [], _ => Some cs
  | w :: ws, c :: cs => if String.eqb w c then cut_chars ws cs else None
  | _ :: _, [] => None
  end.
Definition cut (w : string) (cs : list string) : option (list string) := cut_chars (chars w) cs.
Definition starts (w : string) (cs : list string) : bool := match cut w cs with Some _ => true | None => false end.
(** The first of the words that starts here, and what follows it *)
Fixpoint cut_first (words : list string) (cs : list string) : option (string * list string) :=
  match words with
  | [] => None
  | w :: words => match cut w cs with Some rest => Some (w, rest) | None => cut_first words cs end
  end.

(** The leftmost position where [f] succeeds *)
Fixpoint first_at {A} (f : list string → option A) (i : nat) (cs : list string) : option (nat * A) :=
  match f cs with
  | Some a => Some (i, a)
  | None => match cs with [] => None | _ :: cs => first_at f (S i) cs end
  end.
(** [text.find(w)] *)
Definition find_word (w : string) (cs : list string) : option nat :=
  option_map fst (first_at (cut w) 0 cs).

(** [re.sub("^(?:a|b)+", "", text)] *)
Fixpoint strip_words (fuel : nat) (words : list string) (cs : list string) : list string :=
  match fuel with
  | O => cs
  | S fuel => match cut_first words cs with Some (_, rest) => strip_words fuel words rest | None => cs end
  end.
Definition strip_start (words : list string) (text : string) : string :=
  join (strip_words (length (chars text)) words (chars text)).
(** [re.sub("^(?:a|b)", "", text)] *)
Definition strip_one (words : list string) (text : string) : string :=
  match cut_first words (chars text) with Some (_, rest) => join rest | None => text end.
(** [text.strip(characters)] *)
Definition strip_set (characters : string) (text : string) : string :=
  rstrip_chars (chars characters) (lstrip_chars (chars characters) text).
(** [dict.fromkeys] *)
Definition dedupe (l : list string) : list string :=
  rev (fold_left (λ acc x, if py_in x acc then acc else x :: acc) l []).

Lemma dedupe_spec l : NoDup (dedupe l) ∧ ∀ a, a ∈ dedupe l ↔ a ∈ l.
Proof.
  unfold dedupe. enough (∀ acc, NoDup acc → let r := fold_left (λ acc x, if py_in x acc then acc else x :: acc) l acc in
    NoDup r ∧ ∀ a, a ∈ r ↔ a ∈ l ∨ a ∈ acc) as Hg.
  { destruct (Hg [] (NoDup_nil_2)) as [Hn He]. split; [by apply NoDup_ListNoDup, List.NoDup_rev, NoDup_ListNoDup|].
    intros a. rewrite list_elem_of_In, <- in_rev, <- list_elem_of_In, (He a), elem_of_nil. tauto. }
  induction l as [|b l IH]; intros acc Hacc; simpl.
  - split; [done|]. intros a. rewrite elem_of_nil. tauto.
  - destruct (py_in b acc) eqn:Hb; [apply py_in_true in Hb|apply py_in_false in Hb].
    + destruct (IH acc Hacc) as [Hn He]. split; [done|]. intros a. rewrite (He a), elem_of_cons. split; [tauto|].
      intros [[->|?]|?]; auto.
    + destruct (IH (b :: acc)) as [Hn He]; [by constructor|]. split; [done|]. intros a.
      rewrite (He a), !elem_of_cons. tauto.
Qed.

Fixpoint span (p : string → bool) (cs : list string) : list string * list string :=
  match cs with
  | c :: rest => if p c then let '(a, b) := span p rest in (c :: a, b) else ([], cs)
  | [] => ([], [])
  end.

(** What [json] reads under a key of the scope of a memory: [str(scope.get(key) or "")]. *)
Class ScopeJson := { scope_get : string → string → string }.

Section policies.
Context `{Platform, TextTables, Unicode, ScopeJson}.

(** ** Tokens: [[A-Za-z][A-Za-z0-9+#._-]*|\d+(?:[._-]\d+)*] *)

Definition letter (c : string) : bool := in_range 65 90 c || in_range 97 122 c.
Fixpoint number_token (fuel : nat) (cs : list string) : list string * list string :=
  let '(ds, rest) := span re_digit cs in
  match fuel, rest with
  | S fuel, mark :: after =>
      if in_set "._-" mark && match after with d :: _ => re_digit d | [] => false end
      then let '(more, rest) := number_token fuel after in ((ds ++ mark :: more)%list, rest)
      else (ds, rest)
  | _, _ => (ds, rest)
  end.
Fixpoint tokens (fuel : nat) (inner : string → bool) (numbers : bool) (cs : list string) : list string :=
  match fuel, cs with
  | S fuel, c :: rest =>
      if letter c then let '(t, rest) := span inner rest in join (c :: t) :: tokens fuel inner numbers rest
      else if numbers && re_digit c then let '(t, rest) := number_token fuel cs in join t :: tokens fuel inner numbers rest
      else tokens fuel inner numbers rest
  | _, _ => []
  end.
Definition named_tokens (text : string) : list string :=
  let cs := chars text in tokens (length cs) (λ c, alnum c || in_set "+#._-" c) true cs.

(** ** Tasks *)

Definition is_upper (token : string) : bool :=
  existsb letter (chars token) && negb (existsb (in_range 97 122) (chars token)).
Definition task_identifiers (text : string) : list string :=
  dedupe (map str_casefold (List.filter (λ token,
    existsb re_digit (chars token) || existsb (in_set "#._-") (chars token) || is_upper token) (named_tokens text))).
Definition same_set (a b : list string) : bool := forallb (λ x, py_in x b) a && forallb (λ x, py_in x a) b.
Definition identifiers_compatible (left_content right_content : string) : bool :=
  let l := task_identifiers left_content in
  let r := task_identifiers right_content in
  match l, r with [], _ => true | _, [] => true | _, _ => same_set l r end.
Definition is_terminal (status : option string) : bool :=
  match status with Some s => String.eqb (current_status s) "done" | None => false end.

(** ** Facts *)

Definition semantic_explicitly_replaces (new_content : string) (predicate : option string) : bool :=
  (bool_decide (predicate = Some "location") && any_in ["搬到"; "现在住在"; "已经住在"; "改住"] new_content)
  || any_in ["现在"; "改为"; "搬到"; "转为"; "不再"; "短期"; "只学"; "重点"] new_content.

(** ** Preferences *)

Definition NEGATIVE_MARKERS : list string :=
  ["不再喜欢"; "不再"; "不喜欢"; "不想要"; "不想"; "不打算"; "不愿意"; "不愿"; "不要"; "不爱"; "讨厌"; "厌恶"; "避免"; "避开"; "拒绝";
   "过敏"].
Definition POSITIVE_MARKERS : list string :=
  ["更喜欢"; "最喜欢"; "喜欢"; "偏好"; "习惯"; "想要"; "倾向于"; "偏向"; "更偏向"; "优先选择"; "优先"].
Definition CHANGE_MARKERS : list string := ["现在"; "以后"; "改为"; "改成"; "不再"; "从现在起"; "目前"; "最近"].
Definition COMPARATIVE_MARKERS : list string := ["更喜欢"; "更偏好"; "相比"; "相较"; "宁愿"; "而不是"; "而非"].
Definition LIGHT_VERBS : list string :=
  ["吃"; "喝"; "用"; "使用"; "采用"; "选择"; "选"; "穿"; "看"; "听"; "玩"; "住"; "做"; "学习"; "学"; "买"; "去"].
Definition FIXED_SCOPES : list string :=
  ["早上"; "上午"; "中午"; "下午"; "晚上"; "夜里"; "工作时"; "学习时"; "开会时"; "周末"; "工作日"; "在家"; "在公司"; "在办公室"].

(** [_NEGATIVE_ACTION_RE] at a position: the text of the match *)
Definition before_verb (cs : list string) : bool := match cut_first LIGHT_VERBS cs with Some _ => true | None => false end.
Definition refusal (prefix : string) (cs : list string) : option string :=
  match cut prefix cs with
  | None => None
  | Some rest =>
      match cut "不" rest with
      | None => None
      | Some rest =>
          match cut "再" rest with
          | Some rest' => if before_verb rest' then Some (prefix +:+ "不再")
                          else if before_verb rest then Some (prefix +:+ "不") else None
          | None => if before_verb rest then Some (prefix +:+ "不") else None
          end
      end
  end.
Definition negative_action (cs : list string) : option string :=
  match refusal "暂时" cs, refusal "目前" cs, refusal "现在" cs, refusal "" cs with
  | Some m, _, _, _ => Some m
  | None, Some m, _, _ => Some m
  | None, None, Some m, _ => Some m
  | None, None, None, o => o
  end.

Definition earliest (positions : list nat) : option nat :=
  fold_left (λ best i, Some (match best with Some b => Nat.min b i | None => i end)) positions None.
Definition positions (markers : list string) (cs : list string) : list nat := omap (λ m, find_word m cs) markers.

Definition preference_polarity (text : string) : string :=
  let cs := chars text in
  let negative := (positions NEGATIVE_MARKERS cs ++ match first_at negative_action 0 cs with Some (i, _) => [i] | None => [] end)%list in
  let positive := positions POSITIVE_MARKERS cs in
  match earliest negative, earliest positive with
  | Some n, None => "negative"
  | Some n, Some p => if n <=? p then "negative" else "positive"
  | None, Some _ => "positive"
  | None, None => "unknown"
  end.

Definition ends_with (w : string) (text : string) : bool := match cut_chars (rev (chars w)) (rev (chars text)) with Some _ => true | None => false end.
Definition preference_query_polarity (text : string) : string :=
  let value := join_words (py_split text) in
  let normalized := chars (str_casefold value) in
  let informational := any_in ["偏好"; "习惯"] value
    && any_in ["对应"; "是什么"; "怎么"; "如何"; "记录"; "查"; "找"; "最近"; "关于"] value in
  let interrogative := str_contains "?" value || str_contains "？" value || informational
    || any_in ["是否"; "是不是"; "有没有"] value
    || existsb (λ w, ends_with w (rstrip_chars (chars "。！!") value))
         ["哪种"; "哪个"; "什么偏好"; "偏好是什么"; "习惯是什么"; "吗"; "嘛"; "呢"]
    || existsb (λ w, starts w normalized) ["是否"; "是不是"; "do i "; "did i "; "what "; "which "] in
  if interrogative then "unknown" else preference_polarity value.

(** [(?:在|当)([^，,。；;]{1,16}?)(?:时|的时候)] at a position: the group and what follows the match *)
Fixpoint shortest_clause (n : nat) (taken : list string) (cs : list string) : option (list string * list string) :=
  match n, cs with
  | S n, c :: rest =>
      if in_set "，,。；;" c then None
      else let taken := (taken ++ [c])%list in
           match cut_first ["时"; "的时候"] rest with
           | Some (_, after) => Some (taken, after)
           | None => shortest_clause n taken rest
           end
  | _, _ => None
  end.
Definition generic_scope (cs : list string) : option (list string * list string) :=
  match cut_first ["在"; "当"] cs with Some (_, rest) => shortest_clause 16 [] rest | None => None end.
Fixpoint generic_scopes (fuel : nat) (cs : list string) : list string :=
  match fuel with
  | O => []
  | S fuel =>
      match generic_scope cs with
      | Some (group, after) => join group :: generic_scopes fuel after
      | None => match cs with [] => [] | _ :: cs => generic_scopes fuel cs end
      end
  end.

Definition extract_scopes (text : string) : list string :=
  let fixed := List.filter (λ s, str_contains s text) FIXED_SCOPES in
  let generic := List.filter (λ s, negb (String.eqb s "")) (map normalize_content (generic_scopes (S (length (chars text))) (chars text))) in
  take 6 (dedupe (fixed ++ generic)).

Definition longest_first (l : list string) : list string := sort_by (λ a b, length (chars b) <=? length (chars a)) l.
Definition strip_scope_prefix (text : string) : string :=
  let value := fold_left (λ value scope,
    match cut scope (chars value) with Some rest => lstrip_chars (chars "，,：: ") (join rest) | None => value end)
    (longest_first FIXED_SCOPES) (py_strip text) in
  let value := match generic_scope (chars value) with Some (_, after) => join after | None => value end in
  strip_set "，,：: " value.

(** [(?:对)?([^，,。；;]{1,30})$] at a position *)
Definition within_30 (cs : list string) : bool :=
  (1 <=? length cs) && (length cs <=? 30) && negb (existsb (in_set "，,。；;") cs).
Definition allergy_topic (cs : list string) : option (list string) :=
  match cut "对" cs with
  | Some rest => if within_30 rest then Some rest else if within_30 cs then Some cs else None
  | None => if within_30 cs then Some cs else None
  end.

Definition earlier (a b : nat * string) : nat * string := if b.1 <? a.1 then b else a.
Definition marker_and_remainder (text : string) : option string * string :=
  let cs := chars text in
  let known := omap (λ m, option_map (λ i, (i, m)) (find_word m cs)) (longest_first (NEGATIVE_MARKERS ++ POSITIVE_MARKERS)) in
  let found := (known ++ match first_at negative_action 0 cs with Some m => [m] | None => [] end)%list in
  match found with
  | [] => (None, text)
  | m :: found =>
      let '(i, marker) := fold_left earlier found m in
      if String.eqb marker "过敏" then
        (Some marker, match first_at allergy_topic 0 (take i cs) with
                      | Some (_, topic) => join topic
                      | None => join (take i cs)
                      end)
      else (Some marker, join (drop (i + length (chars marker)) cs))
  end.

(** [_CLAUSE_SPLIT_RE.split] *)
Definition clause_mark (cs : list string) : option (list string) :=
  match cs with
  | c :: rest => if in_set "，,；;。" c || String.eqb c (String (Ascii.ascii_of_N 10) EmptyString) then Some rest
                 else option_map snd (cut_first ["但是"; "不过"; "同时"; "而且"] cs)
  | [] => None
  end.
Fixpoint split_clauses (fuel : nat) (part : list string) (cs : list string) : list string :=
  match fuel, cs with
  | S fuel, c :: rest =>
      match clause_mark cs with
      | Some after => join part :: split_clauses fuel [] after
      | None => split_clauses fuel (part ++ [c])%list rest
      end
  | _, _ => [join part]
  end.

Definition MODIFIERS : list (string * string) :=
  [("无糖", "sugar_free"); ("低糖", "low_sugar"); ("少糖", "low_sugar"); ("太甜的", "sweet"); ("很甜的", "sweet");
   ("浓郁的", "strong"); ("浓的", "strong"); ("浓", "strong"); ("清淡的", "light"); ("淡的", "light"); ("淡", "light")].
Fixpoint strip_modifiers (fuel : nat) (main : string) : string * list string :=
  match fuel with
  | O => (main, [])
  | S fuel =>
      match List.find (λ m, starts m.1 (chars main) && (length (chars m.1) <? length (chars main))) MODIFIERS with
      | None => (main, [])
      | Some (prefix, qualifier) =>
          let '(main, qs) := strip_modifiers fuel (py_strip (join (drop (length (chars prefix)) (chars main)))) in
          (main, qualifier :: qs)
      end
  end.
(** [(?:而不是|...).*$] removed: the text has one line. *)
Definition before_alternative (text : string) : string :=
  match first_at (cut_first ["而不是"; "而非"; "胜过"; "多于"]) 0 (chars text) with
  | Some (i, _) => join (take i (chars text))
  | None => text
  end.
Definition strip_coordination (text : string) : string :=
  match List.find (λ w, match cut w (chars text) with Some (c :: _) => negb (re_space c) | _ => false end)
          ["和"; "及"; "以及"; "与"; "跟"; "还有"] with
  | Some w => match cut w (chars text) with Some rest => join rest | None => text end
  | None => text
  end.
Definition stable_topic (main : string) : string :=
  if String.eqb main "太甜" then "sweetness"
  else if py_in main ["太甜的饮料"; "甜的饮料"] then "甜味饮料" else main.
Definition LEADING_CHANGES : list string := ["现在"; "以后"; "目前"; "最近"; "从现在起"; "已经"; "改为"; "改成"].

Definition extract_topic (text : string) : string * list string :=
  let value := join_words (py_split text) in
  let value := py_strip (strip_start ["用户"; "本人"; "我"] value) in
  let value := py_strip (strip_start LEADING_CHANGES value) in
  let remainder := (marker_and_remainder value).2 in
  let parts := List.filter (λ p, negb (String.eqb p "")) (map py_strip (split_clauses (length (chars remainder)) [] (chars remainder))) in
  let main := match parts with p :: _ => p | [] => remainder end in
  let main := strip_scope_prefix main in
  let main := py_strip (strip_start LEADING_CHANGES main) in
  let main := strip_set " ：:，,。；;" (strip_start LIGHT_VERBS main) in
  let main := py_strip (strip_one ["对"; "对于"] main) in
  let main := py_strip (strip_coordination main) in
  let main := py_strip (before_alternative main) in
  let main := py_strip (rstrip_chars (chars "了啦呢吧呀啊") main) in
  let '(main, modifiers) := strip_modifiers (length (chars main)) main in
  (str_take 160 (stable_topic main), dedupe (take 4 (drop 1 parts) ++ modifiers)).

Record preference_sig := PreferenceSignature {
  ps_topic : string;
  ps_normalized_topic : string;
  ps_polarity : string;
  ps_scopes : list string;
  ps_qualifiers : list string;
  ps_named_anchors : list string;
}.
Definition preference_signature (text : string) (topic_hint : option string) : preference_sig :=
  let '(topic, qualifiers) := extract_topic text in
  let hint := py_strip (opt_or topic_hint "") in
  let topic := if String.eqb topic "" && negb (String.eqb hint "") then (extract_topic hint).1 else topic in
  PreferenceSignature topic (normalize_content topic) (preference_polarity text) (extract_scopes text) qualifiers
    (dedupe (map str_casefold (named_tokens topic))).

(** ** Comparing preferences *)

Fixpoint bigrams (cs : list string) : list string :=
  match cs with
  | a :: rest => match rest with b :: _ => (a +:+ b) :: bigrams rest | [] => [] end
  | [] => []
  end.
Definition bigram_set (value : string) : list string :=
  let cs := chars value in
  if length cs <? 2 then (if String.eqb value "" then [] else [value]) else dedupe (bigrams cs).
Definition ratio (a b : nat) : Q := inject_Z (Z.of_nat a) / inject_Z (Z.of_nat b).
Definition overlap (a b : list string) : Q :=
  ratio (length (List.filter (λ x, py_in x b) a)) (length (dedupe (a ++ b))).
(** [round(x, 4)]: to the nearest multiple, a tie to the even one *)
Definition round_even (x : Q) : Z :=
  let f := Qfloor x in
  match (x - inject_Z f ?= 1 # 2)%Q with
  | Lt => f
  | Gt => f + 1
  | Eq => if Z.even f then f else (f + 1)
  end%Z.
Definition round4 (x : Q) : Q := round_even (x * 10000) # 10000.
Definition topic_compatibility (left_content : string) (left_object : option string) (right_content : string)
    (right_object : option string) : Q :=
  let l := preference_signature left_content left_object in
  let r := preference_signature right_content right_object in
  let lt := ps_normalized_topic l in
  let rt := ps_normalized_topic r in
  if String.eqb lt "" || String.eqb rt "" then 0
  else if String.eqb lt rt then 1
  else if negb (match ps_named_anchors l, ps_named_anchors r with [], [] => true | _, _ => false end)
  then if same_set (ps_named_anchors l) (ps_named_anchors r) then 94 # 100 else 0
  else
    let '(shorter, longer) := if length (chars rt) <? length (chars lt) then (rt, lt) else (lt, rt) in
    if (2 <=? length (chars shorter)) && str_contains shorter longer
       && Qle_bool (55 # 100) (ratio (length (chars shorter)) (length (chars longer))) then 88 # 100
    else
      let a := bigram_set lt in
      let b := bigram_set rt in
      match a, b with
      | [], _ => 0
      | _, [] => 0
      | _, _ => let o := overlap a b in if Qle_bool (58 # 100) o then round4 ((78 # 100) * o) else 0
      end.

Definition same_topic (compatibility : Q) : bool := Qle_bool (75 # 100) compatibility.

Fixpoint common_prefix_length (l r : list string) : nat :=
  match l, r with a :: l, b :: r => if String.eqb a b then S (common_prefix_length l r) else 0 | _, _ => 0 end.
Definition common_suffix_length (l r : string) : nat := common_prefix_length (rev (chars l)) (rev (chars r)).

Definition is_comparative_alternative (new_content old_content : string) : bool :=
  any_in COMPARATIVE_MARKERS new_content
  && String.eqb (preference_polarity new_content) "positive" && String.eqb (preference_polarity old_content) "positive"
  && (let new_topic := ps_normalized_topic (preference_signature new_content None) in
      let old_topic := ps_normalized_topic (preference_signature old_content None) in
      negb (String.eqb new_topic "") && negb (String.eqb old_topic "") && negb (String.eqb new_topic old_topic)
      && (let n := common_suffix_length new_topic old_topic in
          (2 <=? n) && Qle_bool (40 # 100) (ratio n (Nat.min (length (chars new_topic)) (length (chars old_topic)))))).
(** [scopes_compatible], of the contents and the scopes of two records *)
Definition scopes_of (content scope : string) : list string :=
  if negb (String.eqb (scope_get scope "scope_explicit") "") && negb (String.eqb (scope_get scope "scope") "")
  then [scope_get scope "scope"]
  else ps_scopes (preference_signature content None).
Definition scopes_compatible (left_content left_scope right_content right_scope : string) : bool :=
  match scopes_of left_content left_scope, scopes_of right_content right_scope with
  | [], _ => true
  | _, [] => true
  | l, r => existsb (λ s, py_in s r) l
  end.
Definition is_ambiguous_conflict (new_content old_content : string) : bool := is_comparative_alternative new_content old_content.
Definition has_negation (text : string) : bool := String.eqb (preference_polarity text) "negative".
Definition explicitly_replaces (new_content old_content : string) : bool :=
  let n := preference_polarity new_content in
  let o := preference_polarity old_content in
  (negb (String.eqb n "unknown") && negb (String.eqb o "unknown") && negb (String.eqb n o)) || any_in CHANGE_MARKERS new_content.

(** ** Families and qualifiers *)

Definition PREFERENCE_FAMILY_MARKERS : list (string * list string) :=
  [("口味", ["甜"; "咸"; "辣"; "酸"; "苦"; "口味"; "味道"; "甜度"; "清淡"; "sweetness"; "sweet"]);
   ("饮品", ["咖啡"; "茶"; "水"; "饮料"; "拿铁"; "可乐"; "果汁"; "气泡"; "酒"; "啤酒"; "奶"; "大窑"]);
   ("设备", ["电脑"; "手机"; "键盘"; "鼠标"; "macbook"; "iphone"; "耳机"; "设备"]);
   ("工作方式", ["工作"; "会议"; "沟通"; "远程"; "办公"; "日程"; "效率"]);
   ("内容", ["电影"; "音乐"; "书"; "阅读"; "游戏"; "播客"; "视频"]);
   ("饮食", ["苹果"; "米饭"; "面"; "菜"; "食物"; "零食"; "餐"])].
Definition mentions_any (markers : list string) (text : string) : bool :=
  existsb (λ m, str_contains (normalize_content m) text) markers.
Definition preference_family (topic source_text : option string) : string :=
  let normalized := normalize_content (opt_or topic "") in
  let source := normalize_content (opt_or source_text "") in
  if py_in normalized ["饮料"; "饮品"] && mentions_any (match PREFERENCE_FAMILY_MARKERS with f :: _ => f.2 | [] => [] end) source
  then "口味"
  else match List.find (λ f, mentions_any f.2 normalized) PREFERENCE_FAMILY_MARKERS with
       | Some f => f.1
       | None => "其他"
       end.

Definition LLM_QUALIFIER_ALIASES : list (string * string) :=
  [("无糖", "sugar_free"); ("sugarfree", "sugar_free"); ("sugar_free", "sugar_free"); ("低糖", "low_sugar"); ("少糖", "low_sugar");
   ("lowsugar", "low_sugar"); ("low_sugar", "low_sugar"); ("太甜", "sweet"); ("很甜", "sweet"); ("甜", "sweet"); ("sweet", "sweet");
   ("浓", "strong"); ("浓郁", "strong"); ("strong", "strong"); ("淡", "light"); ("清淡", "light"); ("light", "light")].
Definition QUALIFIER_SOURCE_MARKERS : list (string * list string) :=
  [("sugar_free", ["无糖"; "零糖"; "不加糖"]); ("low_sugar", ["低糖"; "少糖"]); ("sweet", ["太甜"; "很甜"; "甜度高"]);
   ("strong", ["浓"; "浓郁"]); ("light", ["淡"; "清淡"])].
Definition remove_prefix (prefix text : string) : string :=
  match cut prefix (chars text) with Some rest => join rest | None => text end.
(** [text.split(mark, 1)[1]] *)
Definition after_mark (mark text : string) : string :=
  match first_at (cut mark) 0 (chars text) with Some (_, rest) => join rest | None => text end.
Definition normalize_llm_qualifier (value : string) : option string :=
  let raw := join (map (λ c, if String.eqb c "-" then "_" else c) (chars (normalize_content value))) in
  if String.eqb raw "" then None
  else
    let raw := remove_prefix "preference:" (remove_prefix "qualifier:" raw) in
    let raw := if str_contains "=" raw then after_mark "=" raw else if str_contains ":" raw then after_mark ":" raw else raw in
    alias LLM_QUALIFIER_ALIASES raw.
Definition preference_qualifiers (source_text : string) (hints : list string) : list string :=
  let evidence := normalize_content source_text in
  dedupe (ps_qualifiers (preference_signature source_text None)
    ++ omap (λ hint,
         match normalize_llm_qualifier hint with
         | None => None
         | Some qualifier =>
             match List.find (λ e, String.eqb e.1 qualifier) QUALIFIER_SOURCE_MARKERS with
             | Some e => if mentions_any e.2 evidence then Some qualifier else None
             | None => None
             end
         end) hints).
End policies.

(** * Concrete runs *)

(** Scopes written as [key=value] with [;] between them *)
Definition test_scopes : ScopeJson := {|
  scope_get := λ scope key,
    match first_at (cut (key +:+ "=")) 0 (chars scope) with
    | Some (_, rest) => join (span (λ c, negb (String.eqb c ";")) rest).1
    | None => ""
    end;
|}.

Module Example.
#[local] Existing Instance test_platform.
#[local] Existing Instance test_tables.
#[local] Existing Instance ascii_tables.
#[local] Existing Instance test_scopes.

Example signature_of_a_change :
  preference_signature "我现在不喝浓咖啡了，晚上" None
  = PreferenceSignature "咖啡" "咖啡" "negative" ["晚上"] ["晚上"; "strong"] [].
Proof. vm_compute. reflexivity. Qed.
(** Versions are different topics, whatever the rest of the sentence says. *)
Example versions_are_apart :
  topic_compatibility "我喜欢 iPhone 15" None "我喜欢 iPhone 16" None = 0%Q
  ∧ topic_compatibility "我喜欢乌龙茶" None "我不喜欢乌龙茶" None = 1%Q.
Proof. vm_compute. done. Qed.
(** The shorter of the two words is tried first, so that the second character of the longer stays in the topic. *)
Example half_of_a_word_is_kept :
  (extract_topic "我更喜欢对于咖啡").1 = "于咖啡" ∧ (extract_topic "我更喜欢对咖啡").1 = "咖啡".
Proof. vm_compute. done. Qed.
End Example.
