(* ===== verification/AccessCounts.v ===== *)
(** The counters of the accesses to memories: [MemoryAccessBuffer] of
    [infrastructure/redis_cache.py], which collects them in two hashes of Redis for each tenant, with
    [mark_accessed] and [flush_access_counts] of [repositories/postgres/memory.py], which
    write them to the buffer and from there to the table of the memories.

    A script and each command of a pipeline is one step; the connection does not fail, the
    transaction on the database may.  Of a row only the columns of the counters are kept. *)

From stdpp Require Import base list strings gmap pretty.
From Stdlib Require Import ZArith Lia.
From S2P Require Import Prelude Schema Dispatch PreferencePolicy RedisKeys.
Import Keys.

Open Scope string_scope.
Open Scope Z_scope.

(** * The commands on hashes *)

(** The number of a field; an absent field counts as zero. *)
Definition field_number (o : option string) : option Z := match o with None => Some 0 | Some v => int_value v end.

Class RedisHashes (R : Type) := {
  hash_at : string → R → gmap string string;
  hincrby : string → string → Z → R → Z * R;
  hset : string → string → string → R → R;
  hdel : string → string → R → R;
  (** the elements of the reply of HSCAN from the cursor 0 *)
  hscan : string → Z → R → list (string * string);
}.
Definition hash_becomes {R} `{RedisHashes R} (k : string) (h : gmap string string) (s s' : R) : Prop :=
  ∀ j, hash_at j s' = if decide (j = k) then h else hash_at j s.
Class RedisHashesLaws (R : Type) `{RedisHashes R} : Prop := {
  hincrby_law : ∀ k f d s n, field_number (hash_at k s !! f) = Some n →
    (hincrby k f d s).1 = n + d ∧ hash_becomes k (<[f := pretty (n + d)]> (hash_at k s)) s (hincrby k f d s).2;
  hset_law : ∀ k f v s, hash_becomes k (<[f := v]> (hash_at k s)) s (hset k f v s);
  hdel_law : ∀ k f s, hash_becomes k (delete f (hash_at k s)) s (hdel k f s);
  hscan_law : ∀ k n s, NoDup (map fst (hscan k n s)) ∧ ∀ f v, (f, v) ∈ hscan k n s → hash_at k s !! f = Some v;
}.

(** * The buffer *)

Section buffer.
Context `{Platform} {R : Type} `{RedisHashes R}.
Variable env : string.

(** [increment] *)
Definition increment (memory_ids : list string) (seen_at tenant_id : string) (s : R) : R :=
  let unique_ids := dedupe (List.filter (λ id, negb (String.eqb id "")) memory_ids) in
  fold_left (λ s memory_id,
    hset (memory_access_last_seen env tenant_id) memory_id seen_at
      (hincrby (memory_access_counts env tenant_id) memory_id 1 s).2) unique_ids s.

(** An entry of [drain]: the memory, its count and when it was seen last *)
Definition drained : Type := string * (Z * string).

(** The loop of the script [_DRAIN_SCRIPT] *)
Fixpoint drain_items (tenant_id : string) (items : list (string * string)) (s : R) : list (string * string * string) * R :=
  match items with
  | [] => ([], s)
  | (memory_id, count) :: items =>
      let last_seen := default "" (hash_at (memory_access_last_seen env tenant_id) s !! memory_id) in
      let s := hdel (memory_access_counts env tenant_id) memory_id s in
      let s := hdel (memory_access_last_seen env tenant_id) memory_id s in
      let '(rest, s) := drain_items tenant_id items s in ((memory_id, count, last_seen) :: rest, s)
  end.
(** [int(raw[index + 1])] of every reply *)
Fixpoint entries_of (raw : list (string * string * string)) : result (list drained) :=
  match raw with
  | [] => Ok []
  | (memory_id, count, last_seen) :: raw =>
      match int_value count with
      | None => Raise (ValueError "invalid literal for int() with base 10")
      | Some n => match entries_of raw with Ok l => Ok ((memory_id, (n, last_seen)) :: l) | Raise e => Raise e end
      end
  end.
Definition drain (limit : Z) (tenant_id : string) (s : R) : result (list drained) * R :=
  let '(raw, s) := drain_items tenant_id (hscan (memory_access_counts env tenant_id) (Z.max 1 limit) s) s in
  (entries_of raw, s).

(** [restore] *)
Definition restore (entries : list drained) (tenant_id : string) (s : R) : R :=
  fold_left (λ s '(memory_id, (count, last_seen)),
    let s := (hincrby (memory_access_counts env tenant_id) memory_id count s).2 in
    if String.eqb last_seen "" then s else hset (memory_access_last_seen env tenant_id) memory_id last_seen s) entries s.

(** * The table of the memories *)

Record access_row := AccessRow {
  ar_tenant_id : string;
  ar_access_count : Z;
  ar_last_accessed_at : option string;
}.
Record world := World { redis : R; memories : gmap string access_row }.

(** [mark_accessed] with the buffer: the rows are grouped by their tenants. *)
Definition mark_accessed (memory_ids : list string) (now : string) (w : world) : world :=
  if bool_decide (memory_ids = []) then w
  else
    let rows := map_to_list (filter (λ row, row.1 ∈ memory_ids) (memories w)) in
    let tenant_of (row : string * access_row) := str_or (ar_tenant_id row.2) DEFAULT_TENANT_ID in
    let tenants := dedupe (map tenant_of rows) in
    World (fold_left (λ s t, increment (map fst (select_where (λ row, String.eqb (tenant_of row) t) rows)) now t s)
             tenants (redis w)) (memories w).
(** [mark_accessed] without the buffer *)
Definition mark_accessed_directly (memory_ids : list string) (now : string) (w : world) : world :=
  if bool_decide (memory_ids = []) then w
  else World (redis w) (map_imap (λ id row, Some (if bool_decide (id ∈ memory_ids)
         then AccessRow (ar_tenant_id row) (ar_access_count row + 1) (Some now) else row)) (memories w)).

(** UPDATE memories ... FROM (VALUES ...) of [flush_access_counts] *)
Definition add_counts (entries : list drained) (tenant_id now : string) (rows : gmap string access_row) : gmap string access_row :=
  map_imap (λ id row,
    match List.find (λ e : drained, String.eqb e.1 id) entries with
    | Some (_, (count, _)) =>
        Some (if String.eqb (ar_tenant_id row) tenant_id
              then AccessRow (ar_tenant_id row) (ar_access_count row + count) (Some now) else row)
    | None => Some row
    end) rows.

(** [flush_access_counts]; [failure] is what the transaction raises. *)
Definition flush_access_counts (limit : Z) (tenant_id now : string) (failure : option exn) (w : world) : result Z * world :=
  let '(entries, s) := drain (Z.max 1 limit) tenant_id (redis w) in
  match entries with
  | Raise e => (Raise e, World s (memories w))
  | Ok [] => (Ok 0, World s (memories w))
  | Ok entries =>
      match failure with
      | None => (Ok (Z.of_nat (length entries)), World s (add_counts entries tenant_id now (memories w)))
      | Some e => (Raise e, World (restore entries tenant_id s) (memories w))
      end
  end.
End buffer.

(** * Every access is counted once *)

Inductive access_op :=
  | Touch (memory_ids : list string) (now : string)
  | TouchDirectly (memory_ids : list string) (now : string)
  | Flush (limit : Z) (tenant_id now : string) (failure : option exn).

Section conservation.
Context `{Platform, !HexDigests} {R : Type} `{RedisHashes R, !RedisHashesLaws R}.
Variable env : string.

Definition run_op (o : access_op) (w : world) : world :=
  match o with
  | Touch ids now => mark_accessed env ids now w
  | TouchDirectly ids now => mark_accessed_directly ids now w
  | Flush limit t now failure => (flush_access_counts env limit t now failure w).2
  end.
Definition run_ops (ops : list access_op) (w : world) : world := fold_left (λ w o, run_op o w) ops w.

(** How often a memory was named *)
Definition touches (id : string) (o : access_op) : Z :=
  match o with Touch ids _ | TouchDirectly ids _ => if bool_decide (id ∈ ids) then 1 else 0 | Flush _ _ _ _ => 0 end.
Definition touched (id : string) (ops : list access_op) : Z := fold_right (λ o n, touches id o + n) 0 ops.

(** What waits in the buffer *)
Definition counts_at (t : string) (s : R) : gmap string string := hash_at (memory_access_counts env t) s.
Definition pending (t id : string) (s : R) : Z := default 0 (field_number (counts_at t s !! id)).
Definition numeric (s : R) : Prop := ∀ t id, is_Some (field_number (counts_at t s !! id)).
Definition named_tenants (rows : gmap string access_row) : Prop := ∀ id row, rows !! id = Some row → ar_tenant_id row ≠ "".
Definition names_tenant (o : access_op) : Prop := match o with Flush _ t _ _ => t ≠ "" | _ => True end.

(** ** The keys *)

Lemma known_name t : t ≠ "" → known t = t.
Proof. unfold known, str_or. by destruct (String.eqb_spec t ""). Qed.
Lemma counts_key_inj t t' : memory_access_counts env t = memory_access_counts env t' → known t = known t'.
Proof. intros E. pose proof (keys_never_collide env (MemoryAccessCounts t) (MemoryAccessCounts t') E) as Hc. simpl in Hc. congruence. Qed.
Lemma counts_key_eq t t' : known t = known t' → memory_access_counts env t = memory_access_counts env t'.
Proof. intros E. unfold memory_access_counts, tenant, part. fold (known t) (known t'). by rewrite E. Qed.
Lemma counts_is_not_last_seen t t' : memory_access_counts env t ≠ memory_access_last_seen env t'.
Proof. intros E. by pose proof (keys_never_collide env (MemoryAccessCounts t) (MemoryAccessLastSeen t') E). Qed.

(** ** Single commands *)

(** [s'] has [f t id] more accesses waiting than [s]. *)
Definition adds (f : string → string → Z) (s s' : R) : Prop :=
  numeric s → numeric s' ∧ ∀ t id, pending t id s' = pending t id s + f t id.

Lemma adds_trans f g s1 s2 s3 : adds f s1 s2 → adds g s2 s3 → adds (λ t id, f t id + g t id) s1 s3.
Proof.
  intros H12 H23 Hn. destruct (H12 Hn) as [Hn2 Hp2], (H23 Hn2) as [Hn3 Hp3]. split; [done|].
  intros t id. rewrite Hp3, Hp2. lia.
Qed.
Lemma adds_ext f g s s' : (∀ t id, f t id = g t id) → adds f s s' → adds g s s'.
Proof. intros Hfg Ha Hn. destruct (Ha Hn) as [Hn' Hp]. split; [done|]. intros t id. by rewrite Hp, Hfg. Qed.

Definition at_tenant (t : string) (n : string → Z) (t' id : string) : Z := if decide (known t' = known t) then n id else 0.

Lemma last_seen_adds t f v s : adds (λ _ _, 0) s (hset (memory_access_last_seen env t) f v s)
  ∧ adds (λ _ _, 0) s (hdel (memory_access_last_seen env t) f s).
Proof.
  split; intros Hn; unfold numeric, pending, counts_at in *.
  - assert (∀ t', hash_at (memory_access_counts env t') (hset (memory_access_last_seen env t) f v s) = hash_at (memory_access_counts env t') s) as E.
    { intros t'. rewrite hset_law. by rewrite decide_False by apply counts_is_not_last_seen. }
    split; intros; rewrite E; [done|lia].
  - assert (∀ t', hash_at (memory_access_counts env t') (hdel (memory_access_last_seen env t) f s) = hash_at (memory_access_counts env t') s) as E.
    { intros t'. rewrite hdel_law. by rewrite decide_False by apply counts_is_not_last_seen. }
    split; intros; rewrite E; [done|lia].
Qed.

Lemma hincrby_adds t f d s :
  adds (at_tenant t (λ id, if decide (id = f) then d else 0)) s (hincrby (memory_access_counts env t) f d s).2.
Proof.
  intros Hn. destruct (Hn t f) as [n Hf]. destruct (hincrby_law _ _ d s n Hf) as [_ Hu].
  assert (∀ t' id, field_number (hash_at (memory_access_counts env t') (hincrby (memory_access_counts env t) f d s).2 !! id)
    = if decide (known t' = known t ∧ id = f) then Some (n + d) else field_number (counts_at t' s !! id)) as E.
  { intros t' id. rewrite Hu. destruct (decide (known t' = known t)) as [Ek|Hne].
    - rewrite (decide_True (P := memory_access_counts env t' = _)) by by apply counts_key_eq.
      destruct (decide (id = f)) as [->|Hid].
      + rewrite lookup_insert_eq, decide_True by done. simpl. apply int_value_pretty.
      + rewrite lookup_insert_ne, decide_False by first [congruence|tauto]. unfold counts_at. by rewrite (counts_key_eq _ _ Ek).
    - rewrite (decide_False (P := memory_access_counts env t' = _)) by by intros ?%counts_key_inj.
      by rewrite decide_False by tauto. }
  split.
  - intros t' id. unfold counts_at at 1. rewrite E. destruct (decide _); [by eexists|apply Hn].
  - intros t' id. unfold pending at 1, counts_at at 1. rewrite E. unfold at_tenant.
    destruct (decide (known t' = known t)) as [Ek|Hne]; [destruct (decide (id = f)) as [->|Hid]|].
    + rewrite decide_True by done. simpl. unfold pending, counts_at in *. rewrite (counts_key_eq _ _ Ek), Hf. done.
    + rewrite decide_False by tauto. unfold pending. lia.
    + rewrite decide_False by tauto. unfold pending. lia.
Qed.

Lemma hdel_adds t f n s : pending t f s = n →
  adds (at_tenant t (λ id, if decide (id = f) then - n else 0)) s (hdel (memory_access_counts env t) f s).
Proof.
  intros Hf Hn.
  assert (∀ t' id, hash_at (memory_access_counts env t') (hdel (memory_access_counts env t) f s) !! id
    = if decide (known t' = known t ∧ id = f) then None else counts_at t' s !! id) as E.
  { intros t' id. rewrite hdel_law. destruct (decide (known t' = known t)) as [Ek|Hne].
    - rewrite (decide_True (P := memory_access_counts env t' = _)) by by apply counts_key_eq.
      destruct (decide (id = f)) as [->|Hid].
      + by rewrite lookup_delete_eq, decide_True.
      + rewrite lookup_delete_ne, decide_False by first [congruence|tauto]. unfold counts_at. by rewrite (counts_key_eq _ _ Ek).
    - rewrite (decide_False (P := memory_access_counts env t' = _)) by by intros ?%counts_key_inj.
      by rewrite decide_False by tauto. }
  split.
  - intros t' id. unfold counts_at at 1. rewrite E. destruct (decide _); [by eexists|apply Hn].
  - intros t' id. unfold pending at 1, counts_at at 1. rewrite E. unfold at_tenant.
    destruct (decide (known t' = known t)) as [Ek|Hne]; [destruct (decide (id = f)) as [->|Hid]|].
    + rewrite decide_True by done. simpl. assert (pending t' f s = n) as ->; [|lia].
      unfold pending, counts_at in *. by rewrite (counts_key_eq _ _ Ek).
    + rewrite decide_False by tauto. unfold pending. lia.
    + rewrite decide_False by tauto. unfold pending. lia.
Qed.

(** ** The operations of the buffer *)

Lemma at_tenant_plus t f g t' id : at_tenant t f t' id + at_tenant t g t' id = at_tenant t (λ id, f id + g id) t' id.
Proof. unfold at_tenant. destruct (decide _); lia. Qed.
Lemma at_tenant_ext t f g t' id : (∀ id, f id = g id) → at_tenant t f t' id = at_tenant t g t' id.
Proof. intros E. unfold at_tenant. by rewrite E. Qed.

Lemma increment_adds ids seen_at t s :
  adds (at_tenant t (λ id, if decide (id ∈ ids ∧ id ≠ "") then 1 else 0)) s (increment env ids seen_at t s).
Proof.
  unfold increment. set (l := dedupe _). assert (NoDup l ∧ ∀ id, id ∈ l ↔ id ∈ ids ∧ id ≠ "") as [Hnd Hl].
  { destruct (dedupe_spec (List.filter (λ id, negb (String.eqb id "")) ids)) as [Hnd Hl]. split; [done|].
    intros id. unfold l. rewrite Hl, list_elem_of_In, filter_In, <- list_elem_of_In, negb_true_iff, String.eqb_neq. done. }
  apply (adds_ext (at_tenant t (λ id, if decide (id ∈ l) then 1 else 0))).
  { intros t' id. apply at_tenant_ext. intros id'. apply decide_ext, Hl. }
  clear Hl. revert s. induction l as [|f l IH]; intros s; simpl.
  - intros Hn. split; [done|]. intros t' id. unfold at_tenant. simpl. destruct (decide (known t' = known t)); lia.
  - apply NoDup_cons in Hnd as [Hnew Hnd]. eapply adds_ext;
      [|eapply adds_trans; [apply (hincrby_adds t f 1)|eapply adds_trans; [exact (proj1 (last_seen_adds t f seen_at _))|apply (IH Hnd)]]].
    intros t' id. simpl. rewrite Z.add_0_l, at_tenant_plus. apply at_tenant_ext. intros id'.
    destruct (decide (id' ∈ f :: l)) as [Hx|Hx]; rewrite elem_of_cons in Hx;
      destruct (decide (id' = f)), (decide (id' ∈ l)); subst; tauto || lia.
Qed.

(** The count of a memory among the drained *)
Definition counted (entries : list drained) (id : string) : Z :=
  match List.find (λ e : drained, String.eqb e.1 id) entries with Some (_, (n, _)) => n | None => 0 end.

Lemma counted_cons f n ls (entries : list drained) id :
  counted ((f, (n, ls)) :: entries) id = if decide (id = f) then n else counted entries id.
Proof.
  unfold counted. simpl. destruct (String.eqb_spec f id) as [->|Hne]; [by rewrite decide_True|].
  by rewrite decide_False by congruence.
Qed.
Lemma counted_absent (entries : list drained) id : id ∉ map fst entries → counted entries id = 0.
Proof.
  induction entries as [|[f [n ls]] entries IH]; intros Hid; [done|]. simpl in Hid.
  rewrite not_elem_of_cons in Hid. rewrite counted_cons, decide_False by tauto. apply IH. tauto.
Qed.

Lemma drain_items_adds t items : ∀ s raw s', NoDup (map fst items) → numeric s →
  (∀ f v, (f, v) ∈ items → counts_at t s !! f = Some v) → drain_items env t items s = (raw, s') →
  ∃ entries, entries_of raw = Ok entries ∧ map fst entries = map fst items
    ∧ adds (at_tenant t (λ id, - counted entries id)) s s'.
Proof.
  induction items as [|[f v] items IH]; intros s raw s' Hnd Hnum Hin; simpl.
  { intros [= <- <-]. exists []. split_and!; [done..|]. intros Hn. split; [done|]. intros t' id. unfold at_tenant, counted.
    simpl. destruct (decide _); lia. }
  apply NoDup_cons in Hnd as [Hnew Hnd]. set (ls := default "" _). set (s1 := hdel _ f s). set (s2 := hdel _ f s1).
  pose proof (Hin f v ltac:(left)) as Hv.
  assert (∃ n, int_value v = Some n ∧ pending t f s = n) as (n & Hparse & Hpend).
  { destruct (Hnum t f) as [n E]. rewrite Hv in E. exists n. split; [done|]. unfold pending. by rewrite Hv, E. }
  assert (adds (at_tenant t (λ id, if decide (id = f) then - n else 0)) s s2) as H2.
  { eapply adds_ext; [|eapply adds_trans; [by apply (hdel_adds t f n)|apply (proj2 (last_seen_adds t f "" s1))]].
    intros t' id. simpl. lia. }
  assert (∀ f' v', (f', v') ∈ items → counts_at t s2 !! f' = Some v') as Hin2.
  { intros f' v' Hf'. unfold counts_at, s2. rewrite hdel_law, decide_False by apply counts_is_not_last_seen.
    unfold s1. rewrite hdel_law, decide_True by done. rewrite lookup_delete_ne; [by apply Hin; right|].
    intros ->. apply Hnew. apply elem_of_map. by exists (f', v'). }
  destruct (drain_items env t items s2) as [rest s3] eqn:E. intros [= <- <-].
  destruct (IH s2 rest s3 Hnd (proj1 (H2 Hnum)) Hin2 E) as (entries & He & Hfst & Hadds).
  exists ((f, (n, ls)) :: entries). simpl. rewrite Hparse, He, Hfst. split_and!; [done..|].
  eapply adds_ext; [|by eapply adds_trans]. intros t' id. simpl. rewrite at_tenant_plus. apply at_tenant_ext. intros id'.
  rewrite counted_cons. destruct (decide (id' = f)) as [->|_]; [|lia]. rewrite counted_absent; [lia|].
  rewrite Hfst. done.
Qed.

Lemma drain_adds limit t s r s' : numeric s → drain env limit t s = (r, s') →
  ∃ entries, r = Ok entries ∧ NoDup (map fst entries) ∧ adds (at_tenant t (λ id, - counted entries id)) s s'.
Proof.
  intros Hnum. unfold drain. destruct (drain_items _ _ _ _) as [raw s1] eqn:E. intros [= <- <-].
  destruct (hscan_law (memory_access_counts env t) (Z.max 1 limit) s) as [Hnd Hin].
  destruct (drain_items_adds t _ s raw s1 Hnd Hnum Hin E) as (entries & He & Hfst & Ha).
  exists entries. by rewrite Hfst.
Qed.

Lemma restore_adds (entries : list drained) t : NoDup (map fst entries) → ∀ s,
  adds (at_tenant t (counted entries)) s (restore env entries t s).
Proof.
  unfold restore. induction entries as [|[f [n ls]] entries IH]; intros Hnd s; simpl.
  { intros Hn. split; [done|]. intros t' id. unfold at_tenant, counted. simpl. destruct (decide _); lia. }
  apply NoDup_cons in Hnd as [Hnew Hnd]. set (s1 := (hincrby _ f n s).2).
  assert (adds (λ _ _, 0) s1 (if String.eqb ls "" then s1 else hset (memory_access_last_seen env t) f ls s1)) as Hls.
  { destruct (String.eqb ls ""); [|exact (proj1 (last_seen_adds t f ls s1))]. intros Hn. split; [done|]. intros; lia. }
  eapply adds_ext; [|eapply adds_trans; [apply (hincrby_adds t f n)|eapply adds_trans; [exact Hls|apply (IH Hnd)]]].
  intros t' id. simpl. rewrite Z.add_0_l, at_tenant_plus. apply at_tenant_ext. intros id'. rewrite counted_cons.
  destruct (decide (id' = f)) as [->|_]; [|lia]. rewrite counted_absent by done. lia.
Qed.

(** ** The operations on the world *)

(** What was counted for a row of the table, there and in the buffer *)
Definition total (id : string) (row : access_row) (w : world) : Z := ar_access_count row + pending (ar_tenant_id row) id (redis w).

(** [w'] has [n id] more accesses than [w]. *)
Definition counts (n : string → Z) (w w' : world) : Prop :=
  numeric (redis w) → named_tenants (memories w) → numeric (redis w') ∧ named_tenants (memories w')
  ∧ ∀ id row, memories w !! id = Some row → id ≠ "" → ∃ row', memories w' !! id = Some row'
      ∧ ar_tenant_id row' = ar_tenant_id row ∧ total id row' w' = total id row w + n id.

Lemma marked_by_tenant now tenants (group : string → list string) : NoDup tenants → Forall (λ t, t ≠ "") tenants → ∀ s,
  adds (λ t id, if decide (known t ∈ tenants ∧ id ∈ group (known t) ∧ id ≠ "") then 1 else 0) s
    (fold_left (λ s t, increment env (group t) now t s) tenants s).
Proof.
  induction tenants as [|t tenants IH]; intros Hnd Hne s; simpl.
  { intros Hn. split; [done|]. intros t' id. lia. }
  apply NoDup_cons in Hnd as [Hnew Hnd]. inversion_clear Hne as [|? ? Ht Hne'].
  eapply adds_ext; [|eapply adds_trans; [apply increment_adds|by apply IH]].
  intros t' id. simpl. unfold at_tenant. rewrite (known_name t Ht).
  destruct (decide (known t' ∈ t :: tenants ∧ id ∈ group (known t') ∧ id ≠ "")) as [Hx|Hx]; rewrite elem_of_cons in Hx;
    destruct (decide (known t' = t)) as [E|];
    destruct (decide (known t' ∈ tenants ∧ id ∈ group (known t') ∧ id ≠ "")) as [Hy|Hy];
    try rewrite <- E; try (subst t); try (destruct (decide (id ∈ group (known t') ∧ id ≠ ""))); tauto || lia.
Qed.

Lemma mark_counts ids now w : counts (λ id, touches id (Touch ids now)) w (mark_accessed env ids now w).
Proof.
  unfold mark_accessed. intros Hn Hrows. case_bool_decide as Hids.
  { split_and!; [done..|]. intros id row Hrow _. exists row. split_and!; [done..|]. subst ids. simpl.
    lia. }
  set (rows := map_to_list _). set (tenant_of := λ row : string * access_row, _).
  set (group := λ t, map fst (select_where (λ row, String.eqb (tenant_of row) t) rows)).
  assert (∀ id row, (id, row) ∈ rows ↔ memories w !! id = Some row ∧ id ∈ ids) as Hin.
  { intros id row. unfold rows. rewrite elem_of_map_to_list, map_lookup_filter_Some. done. }
  assert (∀ id row, memories w !! id = Some row → tenant_of (id, row) = ar_tenant_id row) as Hof.
  { intros id row Hrow. unfold tenant_of, str_or. simpl. destruct (String.eqb_spec (ar_tenant_id row) ""); [|done].
    by destruct (Hrows id row Hrow). }
  destruct (dedupe_spec (map tenant_of rows)) as [Hnd Hmem].
  destruct (marked_by_tenant now (dedupe (map tenant_of rows)) group Hnd) with (s := redis w) as [Hn' Hp]; [|done|].
  { apply Forall_forall. intros t [[id row] [<- Hrow]]%Hmem%elem_of_map. apply Hin in Hrow as [Hrow _]. rewrite (Hof id row Hrow).
    by eapply Hrows. }
  split_and!; [done..|]. intros id row Hrow Hid. exists row. split_and!; [done..|]. unfold total. simpl. rewrite Hp.
  rewrite (known_name _ (Hrows _ _ Hrow)). unfold touches.
  assert ((ar_tenant_id row ∈ dedupe (map tenant_of rows) ∧ id ∈ group (ar_tenant_id row) ∧ id ≠ "") ↔ id ∈ ids) as E.
  { rewrite Hmem. unfold group. split.
    - intros (_ & ([id' row'] & Hfst & Hsel)%elem_of_map & _). simpl in Hfst. subst id'.
      apply elem_of_select in Hsel as [Hx _]. by apply Hin in Hx as [_ ?].
    - intros Hx. assert ((id, row) ∈ rows) as Hr by by apply Hin. split_and!; [| |done].
      + apply elem_of_map. exists (id, row). split; [by apply Hof|done].
      + apply elem_of_map. exists (id, row). split; [done|]. apply elem_of_select. split; [done|].
        by rewrite (Hof _ _ Hrow), String.eqb_refl. }
  destruct (decide _) as [Hx|Hx]; rewrite E in Hx; [rewrite bool_decide_eq_true_2 by done; lia|rewrite bool_decide_eq_false_2 by done; lia].
Qed.

Lemma mark_directly_counts ids now w : counts (λ id, touches id (TouchDirectly ids now)) w (mark_accessed_directly ids now w).
Proof.
  unfold mark_accessed_directly. intros Hn Hrows. case_bool_decide as Hids.
  { split_and!; [done..|]. intros id row Hrow _. exists row. split_and!; [done..|]. subst ids. simpl. lia. }
  split_and!; [done| |].
  - intros id row. simpl. rewrite map_lookup_imap. destruct (memories w !! id) as [old|] eqn:E; [|done]. simpl.
    intros [= <-]. specialize (Hrows id old E). by case_bool_decide.
  - intros id row Hrow _. simpl. rewrite map_lookup_imap, Hrow. simpl. eexists. split; [done|]. unfold total.
    case_bool_decide; simpl; (split; [done|lia]).
Qed.

#[local] Ltac found_in l :=
  match goal with |- context [List.find ?p l] => destruct (List.find p l) as [[? [? ?]]|] end.

Lemma add_counts_at (l : list drained) t now rows id row : rows !! id = Some row → add_counts l t now rows !! id
  = Some (match List.find (λ e : drained, String.eqb e.1 id) l with
          | Some (_, (count, _)) => if String.eqb (ar_tenant_id row) t
              then AccessRow (ar_tenant_id row) (ar_access_count row + count) (Some now) else row
          | None => row end).
Proof. intros Hrow. unfold add_counts. rewrite map_lookup_imap, Hrow. simpl. by found_in l. Qed.

Lemma flush_counts limit t now failure w : t ≠ "" → counts (λ _, 0) w (flush_access_counts env limit t now failure w).2.
Proof.
  intros Ht Hn Hrows. unfold flush_access_counts. destruct (drain _ _ _ _) as [r s] eqn:E.
  destruct (drain_adds _ _ _ _ _ Hn E) as (entries & -> & Hnd & Ha). destruct (Ha Hn) as [Hn' Hp].
  assert (∀ id row, memories w !! id = Some row → counted entries id = 0 ∨ ar_tenant_id row ≠ t →
    total id row (World s (memories w)) = total id row w) as Hsame.
  { intros id row Hrow Hc. unfold total. simpl. rewrite Hp. unfold at_tenant.
    rewrite (known_name _ (Hrows _ _ Hrow)), (known_name _ Ht). destruct (decide _); [|lia]. destruct Hc as [->|]; [lia|done]. }
  destruct entries as [|e entries]; [|destruct failure as [f|]].
  - split_and!; [done..|]. intros id row Hrow _. exists row. split_and!; [done..|]. simpl. rewrite Hsame; [lia|done|by left].
  - simpl. destruct (restore_adds (e :: entries) t Hnd s Hn') as [Hn2 Hp2]. split_and!; [done..|].
    intros id row Hrow _. exists row. split_and!; [done..|]. unfold total. simpl. rewrite Hp2, Hp. unfold at_tenant.
    destruct (decide _); lia.
  - remember (e :: entries) as l eqn:El. clear El. simpl.
    split_and!; [done| |].
    + intros id row Hrow. destruct (memories w !! id) as [old|] eqn:Eo.
      * rewrite (add_counts_at l t now _ id old Eo) in Hrow. injection Hrow as <-. specialize (Hrows id old Eo).
        found_in l; [|done]. by destruct (String.eqb _ t).
      * unfold add_counts in Hrow. by rewrite map_lookup_imap, Eo in Hrow.
    + intros id row Hrow _. rewrite (add_counts_at l t now _ id row Hrow). eexists. split; [done|].
      pose proof (Hsame id row Hrow) as Hs. pose proof (Hp (ar_tenant_id row) id) as Hpid. unfold counted, at_tenant in Hs, Hpid.
      found_in l; [|split; [done|rewrite Z.add_0_r; apply Hs; by left]].
      destruct (String.eqb_spec (ar_tenant_id row) t) as [Et|Hne].
      * split; [done|]. unfold total. simpl. rewrite Hpid, decide_True by by rewrite Et. lia.
      * split; [done|]. rewrite Z.add_0_r. apply Hs. by right.
Qed.


(** The callers flush the default tenant only: what the memories of another tenant are read never
    reaches their rows. *)
Definition default_only (o : access_op) : Prop :=
  match o with Touch _ _ => True | TouchDirectly _ _ => False | Flush _ t _ _ => t = DEFAULT_TENANT_ID end.

Lemma other_tenants_are_never_flushed ops : Forall default_only ops → ∀ w id row,
  memories w !! id = Some row → ar_tenant_id row ≠ DEFAULT_TENANT_ID → memories (run_ops ops w) !! id = Some row.
Proof.
  induction 1 as [|o ops Ho _ IH]; intros w id row Hrow Ht; [done|]. simpl. apply IH; [|done]. destruct o as [ids now| |limit t now failure].
  - simpl. unfold mark_accessed. by case_bool_decide.
  - done.
  - simpl in *. subst t. unfold flush_access_counts. destruct (drain _ _ _ _) as [[[|e entries]|x] s]; [done| |done].
    destruct failure; [done|]. simpl. rewrite (add_counts_at _ _ _ _ _ row) by done. f_equal.
    found_in (e :: entries); [|done]. by destruct (String.eqb_spec (ar_tenant_id row) DEFAULT_TENANT_ID).
Qed.
End conservation.

(** * A concrete run *)

Module Example.
#[local] Existing Instance test_platform.

Abbreviation hashes := (gmap string (gmap string string)).
Definition hash_of (k : string) (s : hashes) : gmap string string := default ∅ (s !! k).
#[local] Instance concrete_hashes : RedisHashes hashes := {|
  hash_at := hash_of;
  hincrby := λ k f d s,
    let n := default 0 (field_number (hash_of k s !! f)) + d in (n, <[k := <[f := pretty n]> (hash_of k s)]> s);
  hset := λ k f v s, <[k := <[f := v]> (hash_of k s)]> s;
  hdel := λ k f s, <[k := delete f (hash_of k s)]> s;
  hscan := λ k n s, take (Z.to_nat n) (map_to_list (hash_of k s));
|}.

Lemma hash_inserted k h (s : hashes) : hash_becomes k h s (<[k := h]> s).
Proof.
  intros j. simpl. unfold hash_of. destruct (decide (j = k)) as [->|Hne]; [by rewrite lookup_insert_eq|].
  by rewrite lookup_insert_ne.
Qed.
#[local] Instance concrete_hashes_laws : RedisHashesLaws hashes.
Proof.
  split; intros; try apply hash_inserted.
  - simpl in *. match goal with E : field_number _ = Some _ |- _ => rewrite E end. split; [done|apply hash_inserted].
  - simpl. split.
    + rewrite <- firstn_map. eapply sublist_NoDup; [|apply sublist_take]. apply NoDup_fst_map_to_list.
    + intros f v Hin. apply elem_of_map_to_list. by eapply elem_of_take in Hin as (i & Hi & _); apply list_elem_of_lookup; exists i.
Qed.

Definition start : world := World (∅ : hashes)
  {["m1" := AccessRow "default" 5 None; "m2" := AccessRow "default" 0 None; "m3" := AccessRow "team" 0 None]}.
(** Three readings, a flush whose transaction fails, one of one memory at a time, and one of the rest *)
Definition ops : list access_op :=
  [Touch ["m1"; "m3"; "m1"] "t1"; Touch ["m1"; "m2"; "gone"] "t2"; Flush 10 "default" "t3" (Some (OtherError "OperationalError" ""));
   Flush 1 "default" "t4" None; Touch ["m1"; "m3"] "t5"; Flush 10 "default" "t6" None].
Example counted_so_far : map (λ id, ar_access_count <$> memories (run_ops "dev" ops start) !! id) ["m1"; "m2"; "m3"]
  = [Some 8; Some 1; Some 0].
Proof. vm_compute. reflexivity. Qed.

End Example.
