(* ===== verification/TaskIdentity.v ===== *)
(** The identity of tasks ([memory/canonicalizer.py]): which tasks belong together, which memory a
    task may change, and the keys of memories.  The patterns are written out on characters as in
    [PreferencePolicy]. *)

From stdpp Require Import base list strings.
From Stdlib Require Import ZArith Lia.
From S2P Require Import Prelude Consistency TextChunks Regex MemoryText Memory PreferencePolicy.

Open Scope string_scope.
Open Scope nat_scope.

Section identity.
Context `{Platform, TextTables, Unicode, ScopeJson}.

(** [MemoryRecord.effective_memory_key] *)
Definition record_key (m : memory) : string :=
  opt_or (mm_memory_key m)
    (memory_key_for (mm_memory_type m) (mm_subject m) (mm_predicate m) (mm_object_value m) (mm_content m)).

(** [str(scope.get(key) or default)] *)
Definition scope_or (scope key default : string) : string := str_or (scope_get scope key) default.

Definition normalize_identity (value fallback : string) : string := str_or (str_take 120 (normalize_content value)) fallback.
Definition normalize_scope (value : string) : string :=
  let normalized := normalize_identity value "global" in
  if py_in normalized ["当前"; "current"; "现在"; "目前"] then "current" else normalized.

Definition TASK_OPERATION_ALIASES : list (string * string) :=
  [("学习", "学习"); ("学完", "学习"); ("学", "学习"); ("换成", "更换"); ("更换", "更换"); ("换", "更换"); ("替换", "更换");
   ("迁移", "迁移"); ("制作", "制作"); ("做完", "制作"); ("做", "制作"); ("开发", "开发"); ("实现", "实现"); ("修复", "修复");
   ("完善", "完善"); ("修改", "修改"); ("处理", "处理"); ("维护", "维护"); ("执行", "执行"); ("部署", "部署"); ("发布", "发布")].
Definition TASK_STATUS_WORDS : list string :=
  ["记得"; "需要"; "待办"; "正在"; "进行中"; "已经"; "完成"; "完成了"; "做完"; "学完"; "已学完"; "取消"; "阻塞"].
Definition GENERIC_TASK_ATTRIBUTES : list string :=
  ["task"; "任务"; "todo"; "fact"; "事项"; "当前任务"; "当前学习主题"; "待办"].
Definition TASK_IDENTITY_NOISE : list string :=
  ["当前学习主题"; "当前任务"; "已经"; "正在"; "进行中"; "需要"; "记得"; "待办";
   "完成了"; "完成"; "已完成"; "做完"; "已做完"; "搞定"; "弄好了"; "弄好"; "取消";
   "不用做"; "不做了"; "任务"; "事项"; "制作"; "执行"; "维护"; "学习"; "更换"; "迁移";
   "开发"; "实现"; "修复"; "完善"; "修改"; "部署"; "发布"; "继续"; "准备"; "计划";
   "的"; "也"; "了"; "一下"; "呢"; "啊"; "呀"; "哦"; "啦"].

(** [_TASK_IDENTITY_PREFIX_RE]: the longer of two words with a common start is tried first. *)
Definition IDENTITY_PREFIXES : list string :=
  ["继续处理"; "继续做"; "继续"; "正在处理"; "正在做"; "正在"; "开始处理"; "开始做"; "开始"; "处理"; "维护"; "执行"; "完成"; "做完";
   "修复"; "完善"; "测试"; "评测"; "部署"; "发布"; "开发"; "实现"; "迁移"; "更换"; "替换"; "修改"; "整理"; "审查"].

(** [(?:现在|目前|当前)?(?:被|因|由于|卡在|阻塞|等待)] at a position *)
Definition detail_word (cs : list string) : option (string * list string) :=
  let here cs := cut_first ["被"; "因"; "由于"; "卡在"; "阻塞"; "等待"] cs in
  match cut_first ["现在"; "目前"; "当前"] cs with
  | Some (_, rest) => match here rest with Some m => Some m | None => here cs end
  | None => here cs
  end.
(** [_TASK_IDENTITY_DETAIL_BOUNDARY_RE.sub("", text)]: the text has one line. *)
Definition before_detail (text : string) : string :=
  match first_at detail_word 0 (chars text) with
  | Some (i, _) => join (take i (chars text))
  | None => text
  end.

Definition numeral (c : string) : bool := in_set "一二三四五六七八九十" c || re_digit c.
(** [[一二三四五六七八九十\d]+(?:轮|阶段|次)] at a position *)
Definition counted (cs : list string) : option (list string * list string) :=
  match span numeral cs with
  | ([], _) => None
  | (ns, rest) => match cut_first ["轮"; "阶段"; "次"] rest with
                  | Some (unit_word, after) => Some ((ns ++ chars unit_word)%list, after)
                  | None => None
                  end
  end.
Definition ordinal (cs : list string) : option (list string * list string) :=
  match cut "第" cs with
  | Some rest => match counted rest with Some (m, after) => Some ("第" :: m, after) | None => None end
  | None => None
  end.
Definition at_the_end (o : option (list string * list string)) : option unit :=
  match o with Some (_, []) => Some tt | _ => None end.
Definition progress_suffix (cs : list string) : option unit :=
  match at_the_end (ordinal cs) with Some u => Some u | None => at_the_end (counted cs) end.
(** [_TASK_IDENTITY_PROGRESS_SUFFIX_RE.sub("", text)] *)
Definition without_progress (text : string) : string :=
  match first_at progress_suffix 0 (chars text) with
  | Some (i, _) => join (take i (chars text))
  | None => text
  end.

(** [text.replace(word, "")] *)
Definition remove_word (text word : string) : string := if String.eqb word "" then text else remove_tokens [word] 0 text.

Definition task_identity_topic (value : string) : string :=
  let normalized := normalize_content value in
  let normalized := strip_start IDENTITY_PREFIXES (before_detail normalized) in
  fold_left (λ text marker, remove_word text (normalize_content marker))
    (List.filter (λ marker, negb (py_in marker (map fst TASK_OPERATION_ALIASES))) (longest_first TASK_IDENTITY_NOISE))
    (without_progress normalized).

(** What [_task_identity_topics] and the tests below read of a candidate or of a memory *)
Record task_view := TaskView {
  tv_type : string;
  tv_content : string;
  tv_subject : option string;
  tv_predicate : option string;
  tv_object_value : option string;
  tv_task_status : option string;
  tv_scope : string;
  tv_key : string;
}.
Definition candidate_task (c : candidate) : task_view :=
  TaskView (c_memory_type c) (c_content c) (c_subject c) (c_predicate c) (c_object_value c) (c_task_status c) (c_scope c)
    (opt_or (c_memory_key c)
      (memory_key_for (c_memory_type c) (c_subject c) (c_predicate c) (c_object_value c) (c_content c))).
Definition memory_task (m : memory) : task_view :=
  TaskView (mm_memory_type m) (mm_content m) (mm_subject m) (mm_predicate m) (mm_object_value m) (mm_task_status m)
    (mm_scope m) (record_key m).

Definition task_identity_topics (t : task_view) : list string :=
  let topics := map task_identity_topic
    [opt_or (tv_predicate t) ""; scope_get (tv_scope t) "canonical_topic"; opt_or (tv_object_value t) ""] in
  dedupe (List.filter (λ topic, negb (String.eqb topic "") && negb (py_in topic GENERIC_TASK_ATTRIBUTES)) topics).

Definition both_tasks (a b : task_view) : bool := String.eqb (tv_type a) "task" && String.eqb (tv_type b) "task".
Definition task_scope (t : task_view) : string := normalize_scope (scope_or (tv_scope t) "scope" "global").
Definition same_scope (a b : task_view) : bool := String.eqb (task_scope a) (task_scope b).

(** One of two topics is the other, or at least three characters of it. *)
Definition related_topics (left right : string) : bool :=
  String.eqb left right
  || (let '(shorter, longer) := if length (chars right) <? length (chars left) then (right, left) else (left, right) in
      (3 <=? length (chars shorter)) && str_contains shorter longer).
Definition family_compatible (a b : task_view) : bool :=
  both_tasks a b && same_scope a b
  && (let family := scope_get (tv_scope a) "task_family_key" in
      (negb (String.eqb family "") && String.eqb family (scope_get (tv_scope b) "task_family_key"))
      || existsb (λ left, existsb (related_topics left) (task_identity_topics b)) (task_identity_topics a)).
Definition task_family_compatible (c : candidate) (m : memory) : bool := family_compatible (candidate_task c) (memory_task m).

(** [re.findall] of the two patterns of [instance_markers] *)
Fixpoint ordinals (fuel : nat) (cs : list string) : list string :=
  match fuel, cs with
  | S fuel, _ :: rest => match ordinal cs with
                         | Some (m, after) => join m :: ordinals fuel after
                         | None => ordinals fuel rest
                         end
  | _, _ => []
  end.
Definition boundary_after (cs : list string) : bool := match cs with c :: _ => negb (re_word c) | [] => true end.
(** [[A-Za-z]+[-_]?\d+(?:\.\d+)?\b] at a position *)
Definition code_name (cs : list string) : option (list string * list string) :=
  match span letter cs with
  | ([], _) => None
  | (ls, rest) =>
      let '(mark, rest) := match rest with c :: after => if in_set "-_" c then ([c], after) else ([], rest) | [] => ([], rest) end in
      match span re_digit rest with
      | ([], _) => None
      | (ds, rest) =>
          let plain := if boundary_after rest then Some ((ls ++ mark ++ ds)%list, rest) else None in
          match rest with
          | dot :: after =>
              if String.eqb dot "." then
                match span re_digit after with
                | ([], _) => plain
                | (ds', rest') => if boundary_after rest' then Some ((ls ++ mark ++ ds ++ dot :: ds')%list, rest') else plain
                end
              else plain
          | [] => plain
          end
      end
  end.
Fixpoint code_names (fuel : nat) (prev : option string) (cs : list string) : list string :=
  match fuel, cs with
  | S fuel, c :: rest =>
      match (if xorb (is_word prev) (re_word c) then code_name cs else None) with
      | Some (m, after) => join m :: code_names fuel (last m) after
      | None => code_names fuel (Some c) rest
      end
  | _, _ => []
  end.
Definition instance_markers (t : task_view) : list string :=
  let raw := join_words [tv_content t; opt_or (tv_predicate t) ""; opt_or (tv_object_value t) ""] in
  let cs := chars raw in
  (ordinals (length cs) cs ++ map str_casefold (code_names (length cs) None cs))%list.

(** A strictly longer title that ends with the earlier one *)
Definition refines (longer shorter : string) : bool :=
  (2 <=? length (chars shorter)) && (length (chars shorter) <? length (chars longer)) && ends_with shorter longer.
Definition instance_authorized (a b : task_view) : bool :=
  both_tasks a b && same_scope a b
  && ((negb (String.eqb (tv_key a) "") && String.eqb (tv_key a) (tv_key b))
      || (same_set (instance_markers a) (instance_markers b)
          && (existsb (λ topic, py_in topic (task_identity_topics b)) (task_identity_topics a)
              || (negb (bool_decide (tv_task_status a = tv_task_status b)) && family_compatible a b)
              || (String.eqb (normalize_content (opt_or (tv_subject a) "")) (normalize_content (opt_or (tv_subject b) ""))
                  && existsb (λ left, existsb (refines left) (task_identity_topics b)) (task_identity_topics a))))).

(** ** Keys *)

Definition entity_key (entity : string) : string :=
  if py_in (py_strip entity) [""; "我"; "本人"; "用户"; "user"; "me"] then "用户" else normalize_identity entity "unspecified".
Definition task_key (entity attribute operation scope : string) : string :=
  String.concat ":" ["task"; entity_key entity; normalize_identity attribute "unspecified";
    normalize_identity operation "unspecified"; normalize_scope scope].
Definition preference_key (entity topic scope : string) (qualifiers : list string) : string :=
  String.concat ":" (["preference"; entity_key entity; normalize_identity topic "unspecified"; normalize_scope scope]
    ++ map (λ q, normalize_identity q "unspecified") qualifiers)%list.
Definition task_family_key (topic : string) : option string :=
  let identity := task_identity_topic topic in
  if String.eqb identity "" then None else Some ("task-family:" +:+ identity).
Definition preference_family_key (entity topic : string) (source_text : option string) : string :=
  "preference-family:" +:+ entity_key entity +:+ ":"
  +:+ normalize_identity (preference_family (Some topic) source_text) "unspecified".
Definition is_task_lifecycle_statement (raw : string) : bool :=
  if str_contains "学习" raw && negb (any_in ["记得"; "需要"; "待办"; "任务"; "计划"; "准备"; "完成"; "做完"] raw) then false
  else any_in TASK_STATUS_WORDS raw && any_in (map fst TASK_OPERATION_ALIASES) raw.
End identity.

(** The rules of this file, for the operations on the store that ask for them. *)
Definition identity_rules `{Platform} (tables : TextTables) `{Unicode, ScopeJson} : TextRules := {|
  text_tables := tables;
  task_instance_authorized := λ c m, instance_authorized (candidate_task c) (memory_task m);
|}.

(** * Concrete runs *)

Module Example.
#[local] Existing Instance test_platform.
#[local] Existing Instance test_tables.
#[local] Existing Instance ascii_tables.
#[local] Existing Instance test_scopes.
Definition titled (title key : string) : task_view := TaskView "task" title (Some "user") (Some title) None (Some "todo") "" key.

Example topics :
  map task_identity_topic ["继续处理数据库迁移"; "修复评测脚本第二轮"; "网站因权限阻塞"] = ["数据库迁移"; "脚本"; "网站"].
Proof. vm_compute. reflexivity. Qed.
(** Rounds are of one family, and never one instance. *)
Example rounds_are_apart :
  family_compatible (titled "评测脚本第一轮" "k1") (titled "评测脚本第二轮" "k2") = true
  ∧ instance_authorized (titled "评测脚本第一轮" "k1") (titled "评测脚本第二轮" "k2") = false.
Proof. vm_compute. done. Qed.
(** A title of two characters is refined by a longer one, which is of another family. *)
Example narrower_than_an_instance :
  instance_authorized (titled "Agent 开发的简历" "k1") (titled "简历" "k2") = true
  ∧ family_compatible (titled "Agent 开发的简历" "k1") (titled "简历" "k2") = false.
Proof. vm_compute. done. Qed.
End Example.
