(* ===== verification/CandidateRetrieval.v ===== *)
(** The memories a candidate is compared with ([memory/candidate_retriever.py], and the two queries
    of [memory/repository.py] behind it): scores between a candidate and a memory, and the bounded
    list of the best ones.  A score is a rational number. *)

From stdpp Require Import base list strings.
From Stdlib Require Import ZArith Lia QArith Qminmax.
From S2P Require Import Prelude Consistency TextChunks Regex MemoryText Memory MemoryOps CandidateValidation PreferencePolicy TaskIdentity.

Open Scope string_scope.
Open Scope nat_scope.

(** [l.sort(key=key, reverse=True)] keeps equal elements in their order. *)
Definition sort_down {A} (lt : A → A → bool) (l : list A) : list A := sort_by (λ a b, negb (lt a b)) l.
Definition Qlt_bool (a b : Q) : bool := negb (Qle_bool b a).
(** The order of the pairs of a score and a time *)
Definition score_lt (a b : Q * string) : bool :=
  Qlt_bool a.1 b.1 || (Qeq_bool a.1 b.1 && String.ltb a.2 b.2).

(** [text LIKE pattern]: [%] is any text, [_] any character, and case is ignored for ASCII. *)
Fixpoint like (p t : list string) : bool :=
  match p with
  | [] => match t with [] => true | _ => false end
  | c :: p =>
      if String.eqb c "%" then
        (fix anywhere (t : list string) := like p t || match t with [] => false | _ :: t => anywhere t end) t
      else match t with
           | [] => false
           | d :: t => (String.eqb c "_" || String.eqb (ascii_lower c) (ascii_lower d)) && like p t
           end
  end.

(** What retrieval is configured with *)
Class RetrievalEnv := {
  MEMORY_RETRIEVAL_MODE : string;
  MEMORY_ADJUDICATION_TOP_K : Z;
}.

Section scores.
Context `{Platform, TextRules, Unicode, ScopeJson}.

Definition MEMORY_KEY_V3_VERSION : string := "memory-key-v3".
(** [relation_guard.is_v3_candidate] *)
Definition is_v3_candidate (c : candidate) : bool :=
  String.eqb (c_memory_key_version c) MEMORY_KEY_V3_VERSION
  || String.eqb (scope_get (c_scope c) "memory_key_version") MEMORY_KEY_V3_VERSION.

Definition char_similarity (left right : string) : Q :=
  let l := dedupe (chars (normalize_content left)) in
  let r := dedupe (chars (normalize_content right)) in
  match l, r with
  | [], _ => 0
  | _, [] => 0
  | _, _ => overlap l r
  end.

(** [a and b and normalize_content(a) == normalize_content(b)] *)
Definition same_text (a b : option string) : bool :=
  truthy a && truthy b && String.eqb (normalize_content (default "" a)) (normalize_content (default "" b)).
Definition both_of (memory_type : string) (c : candidate) (m : memory) : bool :=
  String.eqb (c_memory_type c) memory_type && String.eqb (mm_memory_type m) memory_type.
Definition same_key (c : candidate) (m : memory) : bool := String.eqb (effective_memory_key c) (record_key m).
Definition same_content (c : candidate) (m : memory) : bool :=
  String.eqb (normalize_content (c_content c)) (mm_normalized_content m).
(** Both scopes have a text under [key], the same. *)
Definition same_scope_key (key : string) (c : candidate) (m : memory) : bool :=
  negb (String.eqb (scope_get (c_scope c) key) "") && String.eqb (scope_get (c_scope c) key) (scope_get (mm_scope m) key).
Definition same_scope_text (key default : string) (c : candidate) (m : memory) : bool :=
  String.eqb (normalize_content (scope_or (c_scope c) key default)) (normalize_content (scope_or (mm_scope m) key default)).
Definition task_title (predicate : option string) (scope content : string) : string :=
  str_or (opt_or predicate (scope_get scope "canonical_topic")) content.

Definition task_family_similarity (c : candidate) (m : memory) : Q :=
  if negb (both_of "task" c m) then 0
  else if negb (identifiers_compatible (c_content c) (mm_content m)) then 0
  else if negb (same_scope_text "scope" "global" c m) then 0
  else
    let topic_score := char_similarity (task_title (c_predicate c) (c_scope c) (c_content c))
                         (task_title (mm_predicate m) (mm_scope m) (mm_content m)) in
    let content_score := char_similarity (c_content c) (mm_content m) in
    let entity_bonus := (if same_text (c_subject c) (mm_subject m) then 18 # 100 else 0)%Q in
    let score := ((58 # 100) * topic_score + (24 # 100) * content_score + entity_bonus)%Q in
    if Qle_bool (28 # 100) score then round4 (Qmin score (60 # 100)) else 0.

Definition preference_family_similarity (c : candidate) (m : memory) : Q :=
  if negb (both_of "preference" c m) then 0
  else
    let l := preference_signature (c_content c) (c_object_value c) in
    let r := preference_signature (mm_content m) (mm_object_value m) in
    if negb (bool_decide (ps_named_anchors l = []) && bool_decide (ps_named_anchors r = []))
    then (if same_set (ps_named_anchors l) (ps_named_anchors r) then 82 # 100 else 0)
    else if negb (bool_decide (ps_scopes l = [])) && negb (bool_decide (ps_scopes r = []))
            && negb (existsb (λ s, py_in s (ps_scopes r)) (ps_scopes l)) then 0
    else
      let score := char_similarity (ps_normalized_topic l) (ps_normalized_topic r) in
      if Qle_bool (22 # 100) score then round4 (Qmin (78 # 100) ((45 # 100) + score * (33 # 100))) else 0.

(** [topic_compatibility(candidate, memory) >= 0.75] *)
Definition compatible_topics (c : candidate) (m : memory) : bool :=
  same_topic (topic_compatibility (c_content c) (c_object_value c) (mm_content m) (mm_object_value m)).

(** The structured keys of two preferences, of two tasks *)
Definition structured_score (c : candidate) (m : memory) : option Q :=
  if both_of "preference" c m && same_scope_key "preference_assertion_key" c m then Some (96 # 100)
  else if both_of "preference" c m && same_scope_key "preference_family_key" c m then Some (84 # 100)
  else if both_of "task" c m && instance_authorized (candidate_task c) (memory_task m) then Some (90 # 100)
  else if both_of "task" c m && same_scope_key "task_family_key" c m then Some (75 # 100)
  else None.

Definition suffix_refinement (c : candidate) (m : memory) : bool :=
  let candidate_title := normalize_content (default "" (c_predicate c)) in
  let memory_title := normalize_content (default "" (mm_predicate m)) in
  same_text (c_subject c) (mm_subject m)
  && same_scope_text "operation" "" c m && same_scope_text "scope" "global" c m
  && refines candidate_title memory_title.

(** The branch of [is_v3_candidate]; [None] goes on to the general score. *)
Definition v3_score (c : candidate) (m : memory) : option Q :=
  let t := c_memory_type c in
  if negb (String.eqb t (mm_memory_type m)) then Some 0%Q
  else if String.eqb t "task" then
    Some (if task_family_compatible c m then 68 # 100
          else if suffix_refinement c m then 66 # 100
          else task_family_similarity c m)
  else if String.eqb t "semantic" then
    if py_in (normalize_content (default "" (c_predicate c))) ["fact"; "事实"] then Some 0%Q
    else if negb (same_text (c_subject c) (mm_subject m) && same_text (c_predicate c) (mm_predicate m)) then Some 0%Q
    else None
  else if String.eqb t "preference" then
    if negb (compatible_topics c m) && negb (is_comparative_alternative (c_content c) (mm_content m))
       && negb (is_ambiguous_conflict (c_content c) (mm_content m))
    then Some (preference_family_similarity c m) else None
  else None.

Definition MOVES : list string := ["搬到"; "住在"].
(** [any(entity and entity.casefold() in content.casefold() for entity in entities)] *)
Definition mentions_entity (entities : list string) (content : string) : bool :=
  existsb (λ e, negb (String.eqb e "") && str_contains (str_casefold e) (str_casefold content)) entities.

Definition general_score (x : extracted) (m : memory) : Q :=
  let c := x_candidate x in
  if both_of "preference" c m && negb (compatible_topics c m)
     && negb (is_comparative_alternative (c_content c) (mm_content m)) then 0
  else if both_of "task" c m && negb (identifiers_compatible (c_content c) (mm_content m)) then 0
  else
    let score := (char_similarity (c_content c) (mm_content m) * (55 # 100))%Q in
    let score := if truthy (c_predicate c) && truthy (mm_predicate m) && bool_decide (c_predicate c = mm_predicate m)
                 then (score + (35 # 100))%Q else score in
    let score := if same_text (c_subject c) (mm_subject m) then (score + (30 # 100))%Q else score in
    let score := if truthy (c_object_value c) && truthy (mm_object_value m)
                 then (score + (20 # 100) * char_similarity (default "" (c_object_value c)) (default "" (mm_object_value m)))%Q
                 else score in
    let score := if mentions_entity (x_entities x) (mm_content m) then (score + (25 # 100))%Q else score in
    let score := if any_in MOVES (c_content c) && any_in MOVES (mm_content m) then Qmax score (72 # 100) else score in
    let score := if String.eqb (c_memory_type c) "task" && bool_decide (c_predicate c = Some "task")
                    && bool_decide (mm_predicate m = Some "task") then Qmax score (45 # 100) else score in
    round4 (Qmin score 1).

Definition candidate_similarity (x : extracted) (m : memory) : Q :=
  let c := x_candidate x in
  if same_key c m then 1
  else if same_content c m then 98 # 100
  else match structured_score c m with
       | Some score => score
       | None =>
           match (if is_v3_candidate c then v3_score c m else None) with
           | Some score => score
           | None => general_score x m
           end
       end.

(** [retrieval_signals], what the trace tells of a memory *)
Record signals := Signals {
  sg_memory_id : string;
  sg_exact_key : bool;
  sg_type_match : bool;
  sg_entity_match : bool;
  sg_attribute_match : bool;
  sg_operation_match : bool;
  sg_final_score : Q;
  sg_reasons : list string;
}.
Definition retrieval_signals (x : extracted) (m : memory) : signals :=
  let c := x_candidate x in
  let type_match := String.eqb (c_memory_type c) (mm_memory_type m) in
  let entity_match := same_text (c_subject c) (mm_subject m) in
  let attribute_match := same_text (c_predicate c) (mm_predicate m) in
  let operation_match := negb (String.eqb (scope_get (c_scope c) "operation") "")
    && negb (String.eqb (scope_get (mm_scope m) "operation") "") && same_scope_text "operation" "" c m in
  let score := candidate_similarity x m in
  Signals (mm_id m) (same_key c m) type_match entity_match attribute_match operation_match score
    (omap (λ r : bool * string, if r.1 then Some r.2 else None)
      [(same_key c m, "exact_canonical_key"); (type_match, "memory_type_match"); (entity_match, "entity_match");
       (attribute_match, "attribute_match"); (operation_match, "operation_match"); (negb (Qeq_bool score 0), "retrieval_score")]).
End scores.

(** * The queries *)

Section queries.
Context `{Platform, TextRules, Unicode, ScopeJson, RetrievalEnv}.

Definition recent_first (rows : list memory) : list memory := sort_down (λ a b, String.ltb (mm_updated_at a) (mm_updated_at b)) rows.
(** [limit] rows of a query, which SQLite gives in their order of insertion when their times are equal *)
Definition latest (limit : Z) (p : memory → bool) (rows : list memory) : list memory :=
  take (Z.to_nat limit) (recent_first (select_where p rows)).
Definition not_expired (now : string) (m : memory) : bool :=
  match mm_valid_until m with Some t => String.ltb now t | None => true end.

Definition list_memories (space_id : string) (status memory_type memory_key : option string) (include_expired : bool)
    (limit : Z) (now : string) (rows : list memory) : list memory :=
  map memory_from_row (latest (Z.max 1 (Z.min limit 100)) (λ m,
    String.eqb (mm_space_id m) space_id
    && (negb (truthy status) || String.eqb (mm_status m) (default "" status))
    && (negb (truthy memory_type) || String.eqb (mm_memory_type m) (default "" memory_type))
    && (negb (truthy memory_key) || bool_decide (mm_memory_key m = memory_key))
    && (negb (bool_decide (status = Some "active")) || include_expired || not_expired now m)) rows).

(** Sorted by [(effective_memory_key == memory_key, updated_at)], the greatest first *)
Definition key_first_lt (memory_key : string) (a b : memory) : bool :=
  match String.eqb (record_key a) memory_key, String.eqb (record_key b) memory_key with
  | false, true => true
  | true, false => false
  | _, _ => String.ltb (mm_updated_at a) (mm_updated_at b)
  end.
Definition list_adjudication_candidates (space_id memory_type memory_key : string) (limit : Z) (now : string)
    (rows : list memory) : list memory :=
  sort_down (key_first_lt memory_key)
    (list_memories space_id (Some "active") (Some memory_type) None false (Z.min limit 100) now rows).

(** The three queries of [hybrid_adjudication_candidates] *)
Definition is_open (space_id memory_type now : string) (m : memory) : bool :=
  String.eqb (mm_space_id m) space_id && String.eqb (mm_status m) "active" && String.eqb (mm_memory_type m) memory_type
  && not_expired now m.
Definition lower_is (column : option string) (value : string) : bool :=
  match column with Some v => String.eqb (ascii_lower v) value | None => false end.
(** [column LIKE "%value%"] *)
Definition like_part (column : option string) (value : string) : bool :=
  match column with Some v => like ("%" :: chars (str_take 120 value) ++ ["%"])%list (chars v) | None => false end.
Definition structured_filter (x : extracted) : list (memory → bool) :=
  let c := x_candidate x in
  ((if truthy (c_subject c) then [λ m, lower_is (mm_subject m) (str_casefold (default "" (c_subject c)))] else [])
   ++ (if truthy (c_predicate c) then [λ m, lower_is (mm_predicate m) (str_casefold (default "" (c_predicate c)))] else [])
   ++ (if truthy (c_object_value c) then [λ m, like_part (mm_object_value m) (default "" (c_object_value c))] else [])
   ++ map (λ entity m, like_part (Some (mm_content m)) entity) (take 5 (x_entities x)))%list.
Definition query_limit (limit : Z) : Z := Z.max 30 (Z.min (limit * 3) 200).
Definition hybrid_rows (space_id : string) (x : extracted) (limit : Z) (now : string) (rows : list memory) : list memory :=
  let c := x_candidate x in
  let open := is_open space_id (c_memory_type c) now in
  let exact := latest 20 (λ m, open m && bool_decide (mm_memory_key m = Some (effective_memory_key c))) rows in
  let structured := match structured_filter x with
    | [] => []
    | filters => latest (query_limit limit) (λ m, open m && existsb (λ p, p m) filters) rows
    end in
  let tasks := if String.eqb (c_memory_type c) "task" then latest (query_limit limit) (is_open space_id "task" now) rows else [] in
  (exact ++ structured ++ tasks)%list.
(** The rows by their ids *)
Definition first_by_id (rows : list memory) : list memory :=
  fold_left (λ kept m, if existsb (λ k, String.eqb (mm_id k) (mm_id m)) kept then kept else (kept ++ [m])%list) rows [].
Definition hybrid_match (x : extracted) (m : memory) : bool :=
  let c := x_candidate x in
  same_key c m
  || (String.eqb (c_memory_type c) "task" && task_family_compatible c m)
  || same_text (c_subject c) (mm_subject m) || same_text (c_predicate c) (mm_predicate m)
  || (truthy (c_object_value c) && truthy (mm_object_value m)
      && str_contains (normalize_content (default "" (c_object_value c))) (normalize_content (default "" (mm_object_value m))))
  || mentions_entity (x_entities x) (mm_content m).
Definition hybrid_adjudication_candidates (space_id : string) (x : extracted) (limit : Z) (now : string)
    (rows : list memory) : list memory :=
  let found := map memory_from_row (first_by_id (hybrid_rows space_id x limit now rows)) in
  take (Z.to_nat (Z.max 1 (Z.min limit 50)))
    (match List.filter (hybrid_match x) found with [] => found | filtered => filtered end).

Definition retrieve_candidates (space_id : string) (x : extracted) (limit : option Z) (now : string)
    (rows : list memory) : list memory :=
  let c := x_candidate x in
  let top_k := default MEMORY_ADJUDICATION_TOP_K limit in
  let found :=
    if String.eqb MEMORY_RETRIEVAL_MODE "hybrid"
    then hybrid_adjudication_candidates space_id x (Z.max (top_k * 6) 50) now rows
    else list_adjudication_candidates space_id (c_memory_type c) (effective_memory_key c) 200 now rows in
  if String.eqb (c_memory_type c) "semantic"
  then take 1 (List.filter (λ m, same_key c m || same_content c m) found)
  else
    let scored := map (λ m, (m, candidate_similarity x m)) found in
    let sorted := sort_down (λ a b, score_lt (a.2, mm_updated_at a.1) (b.2, mm_updated_at b.1)) scored in
    map fst (List.filter (λ e, Qle_bool (18 # 100) e.2) (take (Z.to_nat (Z.max 1 (Z.min top_k 20))) sorted)).
End queries.
