(* ===== verification/Adjudication.v ===== *)
(** What to do with a candidate ([memory/relation_guard.py], [memory/adjudicator.py],
    [memory/relation_classifier.py], and the comparison of identities of [memory/advisory.py]).

    A confidence is a rational number.  The reply of the model of language is a parameter.  The
    decision keeps the fields that the store reads; its list of evidence and its hash, which
    are only written beside it, are left out. *)

From stdpp Require Import base list strings.
From Stdlib Require Import ZArith Lia QArith Qminmax.
From S2P Require Import Prelude Consistency TextChunks Regex MemoryText Memory CandidateValidation PreferencePolicy TaskIdentity CandidateRetrieval.

Open Scope string_scope.
Open Scope Z_scope.

(** What the reply of the model of language says, each field as [str(data.get(key) or "")]. *)
Record identity_reply := IdentityReply {
  ir_identity_relation : string;
  ir_target_memory_id : string;
  ir_confidence : Q;
  ir_reason_code : string;
}.

Class AdjudicationEnv := {
  (** [datetime.fromisoformat]: whether the time has an offset, and the time; [None] for a ValueError *)
  read_moment : string → option (bool * Z);
  (** [complete_json] and the reading of its reply; [None] for an exception *)
  identity_model : candidate → list memory → option identity_reply;
  STRONG_ESCALATION_ENABLED : bool;
  MEMORY_RELATION_GUARD_V3_ENABLED : bool;
  MEMORY_AUTO_MUTATION_MIN_CONFIDENCE : Q;
}.

(** * The guard *)

(** [RelationGuardResult] *)
Record guarded := Guarded { g_relation : string; g_action : string; g_reason : string; g_approved : bool }.
Definition review (reason : string) : guarded := Guarded "conflict" "pending_review" reason false.
Definition unrelated (reason : string) : guarded := Guarded "new" "insert" reason false.

Definition EXPLICIT_REOPEN_MARKERS : list string := ["重新"; "再次"; "重做"; "返工"; "恢复"; "再开始"; "又开始"].
Definition IMPLICIT_REOPEN_MARKERS : list string := ["还需要"; "仍需"; "继续"; "尚未"; "未完成"; "待完善"; "没做完"; "接下来要"].
Definition CORRECTION_MARKERS : list string := ["不准确"; "错误记录"; "说错"; "更正"; "实际是"; "正确的是"].
Definition UNCONFIRMED_MARKERS : list string := ["另一条"; "未确认"; "没有说明"; "据说"; "听说"].
Definition DETAIL_MARKERS : list string :=
  ["并补充"; "补充了"; "详细"; "详情"; "会后记录"; "负责人"; "截止"; "长期状态"; "工作时"; "工作日"; "早上"; "下午"; "晚上"].

Section guard.
Context `{Platform, TextRules, Unicode, ScopeJson, AdjudicationEnv}.

(** [f"{candidate.evidence_span or ''} {candidate.content}"] *)
Definition evidence_text (x : extracted) : string :=
  opt_or (x_evidence_span x) "" +:+ " " +:+ c_content (x_candidate x).

Definition value_changed (key : string) (c : candidate) (m : memory) : bool :=
  let value := py_strip (scope_get (c_scope c) key) in
  negb (String.eqb value "") && negb (String.eqb (normalize_content value) (normalize_content (scope_get (mm_scope m) key))).
Definition task_values_changed (c : candidate) (m : memory) : bool :=
  value_changed "old_value" c m || value_changed "new_value" c m.

Definition terminal_reactivation_requires_review (x : extracted) (m : memory) : bool :=
  bool_decide (mm_task_status m = Some "done") && bool_decide (c_task_status (x_candidate x) = Some "todo")
  && negb (any_in (EXPLICIT_REOPEN_MARKERS ++ IMPLICIT_REOPEN_MARKERS) (evidence_text x)).

Definition same_structured_value (c : candidate) (m : memory) : bool :=
  same_text (Some (str_or (py_strip (scope_get (c_scope c) "new_value")) (opt_or (c_object_value c) "")))
    (Some (str_or (py_strip (scope_get (mm_scope m) "new_value")) (opt_or (mm_object_value m) ""))).

Definition has_detail_delta (x : extracted) (m : memory) : bool :=
  negb (same_content (x_candidate x) m) && any_in DETAIL_MARKERS (evidence_text x).

Definition task_metadata_changed (c : candidate) (m : memory) : bool :=
  let candidate_progress := normalize_content (scope_get (c_scope c) "progress_note") in
  (negb (String.eqb candidate_progress "")
   && negb (String.eqb candidate_progress (normalize_content (scope_get (mm_scope m) "progress_note")))
   && negb (str_contains candidate_progress (normalize_content (c_content c))))
  || negb (same_scope_text "blocker" "" c m) || negb (same_scope_text "closure_reason" "" c m).

Definition is_correction (x : extracted) : bool := any_in CORRECTION_MARKERS (evidence_text x).
Definition is_unconfirmed (x : extracted) : bool := any_in UNCONFIRMED_MARKERS (evidence_text x).

(** [text.replace("Z", "+00:00")] *)
Definition with_offset (text : string) : string :=
  join (map (λ c, if String.eqb c "Z" then "+00:00" else c) (chars text)).
Definition is_stale_candidate (c : candidate) (m : memory) : result bool :=
  let observed := py_strip (scope_get (c_scope c) "observed_at") in
  let previous_observed := str_or (py_strip (scope_get (mm_scope m) "observed_at")) (py_strip (mm_updated_at m)) in
  if String.eqb observed "" then Ok false
  else if String.eqb previous_observed "" then Ok false
  else match read_moment (with_offset observed), read_moment (with_offset previous_observed) with
       | Some (aware, t), Some (aware', t') =>
           if Bool.eqb aware aware' then Ok (t <? t')
           else Raise (TypeError "can't compare offset-naive and offset-aware datetimes")
       | _, _ => Ok true
       end.

Definition evaluate_task (x : extracted) (m : memory) : guarded :=
  let c := x_candidate x in
  if negb (instance_authorized (candidate_task c) (memory_task m)) then unrelated "task_requires_exact_canonical_key"
  else if task_values_changed c m then Guarded "update_task" "update_task" "task_explicit_value_update" true
  else if bool_decide (c_task_status c = mm_task_status m) then
    let candidate_closure := scope_get (c_scope c) "closure_reason" in
    let memory_closure := scope_get (mm_scope m) "closure_reason" in
    if bool_decide (c_task_status c = Some "done")
       && (negb (String.eqb candidate_closure "") || negb (String.eqb memory_closure ""))
       && negb (String.eqb candidate_closure memory_closure) then review "task_closure_reason_conflict"
    else if task_metadata_changed c m then Guarded "update_task" "update_task" "task_lifecycle_metadata_update" true
    else if has_detail_delta x m then Guarded "merge" "merge" "task_detail_merge" true
    else Guarded "same" "add_source" "same_task_identity_and_status" true
  else if terminal_reactivation_requires_review x m then review "terminal_task_reactivation_requires_evidence"
  else if can_transition (mm_task_status m) (c_task_status c)
  then Guarded "update_task" "update_task" "valid_task_state_transition" true
  else review "invalid_task_state_transition".

Definition evaluate_preference (x : extracted) (m : memory) : guarded :=
  let c := x_candidate x in
  if negb (same_key c m) || negb (same_text (c_subject c) (mm_subject m)) || negb (same_scope_text "scope" "global" c m)
  then unrelated "preference_identity_mismatch"
  else if is_unconfirmed x || is_ambiguous_conflict (c_content c) (mm_content m) then review "unconfirmed_preference_change"
  else if is_correction x then Guarded "supersede" "update" "explicit_preference_correction" true
  else if truthy (c_polarity c) && truthy (mm_polarity m) && negb (bool_decide (c_polarity c = mm_polarity m))
  then Guarded "update" "update" "preference_polarity_update" true
  else if has_detail_delta x m then Guarded "merge" "update" "preference_scope_or_detail_merge" true
  else Guarded "same" "add_source" "same_preference_identity" true.

Definition evaluate_episodic (x : extracted) (m : memory) : guarded :=
  let c := x_candidate x in
  if negb (same_key c m) && is_correction x && same_text (c_subject c) (mm_subject m)
     && same_text (c_predicate c) (mm_predicate m)
  then Guarded "supersede" "update" "explicit_event_correction_across_topic" true
  else if same_key c m then
    if is_unconfirmed x || (str_contains "没有" (c_content c) && negb (is_correction x))
    then review "unconfirmed_or_negative_event_claim"
    else if is_correction x then Guarded "supersede" "update" "explicit_event_correction" true
    else if same_structured_value c m then
      if any_in ["改为"; "改成"; "时间"] (c_content c) then Guarded "update" "update" "episodic_time_or_fact_update" true
      else if has_detail_delta x m then Guarded "merge" "update" "episodic_detail_merge" true
      else Guarded "same" "add_source" "same_episodic_event" true
    else unrelated "episodic_requires_exact_duplicate"
  else unrelated "episodic_requires_exact_duplicate".

Definition evaluate_relation (x : extracted) (m : memory) : result guarded :=
  let c := x_candidate x in
  if negb (String.eqb (c_memory_type c) (mm_memory_type m)) then Ok (unrelated "memory_type_mismatch")
  else
    stale ← (if same_key c m then is_stale_candidate c m else Ok false);
    if stale : bool then Ok (review "candidate_observed_before_current_memory")
    else if String.eqb (c_memory_type c) "task" then Ok (evaluate_task x m)
    else if String.eqb (c_memory_type c) "semantic" then
      Ok (if same_key c m then Guarded "same" "add_source" "same_semantic_fact" true
          else Guarded "new" "insert" "semantic_append_only" true)
    else if String.eqb (c_memory_type c) "preference" then Ok (evaluate_preference x m)
    else Ok (evaluate_episodic x m).
End guard.

(** * The adjudicator *)

Definition DESTRUCTIVE_ACTIONS : list string := ["merge"; "update"; "update_task"; "supersede"; "conflict"].

(** [max(l, key=...)]: the first of the greatest *)
Definition max_by {A} (lt : A → A → bool) (first : A) (rest : list A) : A :=
  fold_left (λ best y, if lt best y then y else best) rest first.
(** [(memory.updated_at, memory.current_version)] *)
Definition older (a b : memory) : bool :=
  String.ltb (mm_updated_at a) (mm_updated_at b)
  || (String.eqb (mm_updated_at a) (mm_updated_at b) && (mm_current_version a <? mm_current_version b)).

Section adjudicator.
Context `{Platform, TextRules, Unicode, ScopeJson, AdjudicationEnv}.
(** The identifier drawn for the decision *)
Variable decision_id : string.

Definition combined_confidence (x : extracted) (relation_confidence : Q) : Q :=
  ((6 # 10) * c_confidence (x_candidate x) + (4 # 10) * relation_confidence)%Q.

(** [_decision] *)
Definition decide_as (x : extracted) (relation action : string) (confidence : Q) (reason : string) (targets : list memory) : decision :=
  let bounded_confidence := Qmin 1 (Qmax 0 confidence) in
  let below := py_in action DESTRUCTIVE_ACTIONS && Qlt_bool bounded_confidence MEMORY_AUTO_MUTATION_MIN_CONFIDENCE in
  Decision decision_id (c_candidate_id (x_candidate x)) relation (map mm_id targets) bounded_confidence
    (if below then reason +:+ "; below_auto_mutation_threshold" else reason)
    (if below then "pending_review" else action)
    (option_map mm_current_version (head targets)).

Definition at_least (confidence : Q) (x : extracted) : Q := Qmax confidence (c_confidence (x_candidate x)).
Definition insert_new (x : extracted) (reason : string) : decision := decide_as x "new" "insert" (at_least (8 # 10) x) reason [].

(** ** The comparison of identities by the model of language *)

(** [maybe_memory_identity_adjudication]; the relation, the target and the confidence of the result *)
Record identity_result := IdentityResult {
  id_relation : string;
  id_target : option string;
  id_confidence : Q;
  id_reason_code : string;
}.
Definition compared_type (c : candidate) : bool := py_in (c_memory_type c) ["task"; "preference"].
Definition allowed_relations (memory_type : string) : list string :=
  if String.eqb memory_type "task" then ["same_instance"; "same_family"; "different"; "uncertain"]
  else ["same_assertion"; "same_family"; "different"; "uncertain"].
Definition maybe_memory_identity_adjudication (c : candidate) (ms : list memory) : option identity_result :=
  if negb STRONG_ESCALATION_ENABLED || negb (compared_type c) || bool_decide (ms = []) then None
  else
    match identity_model c (take 8 ms) with
    | None => None
    | Some reply =>
        let relation := str_or (ir_identity_relation reply) "uncertain" in
        let target_id := if String.eqb (ir_target_memory_id reply) "" then None else Some (ir_target_memory_id reply) in
        let known := match target_id with Some id => py_in id (map mm_id (take 8 ms)) | None => true end in
        let '(relation, target_id) :=
          if negb (py_in relation (allowed_relations (c_memory_type c))) || negb known then ("uncertain", None)
          else (relation, target_id) in
        Some (IdentityResult relation target_id (Qmin 1 (Qmax 0 (ir_confidence reply))) (str_take 160 (ir_reason_code reply)))
    end.

(** The same instance of a task, the same assertion of a preference *)
Definition same_instance_decision (x : extracted) (target : memory) (confidence : Q) (reason : string) : decision :=
  let c := x_candidate x in
  let decide relation action reason := decide_as x relation action confidence reason [target] in
  if negb (identifiers_compatible (c_content c) (mm_content target))
  then decide "conflict" "pending_review" (reason +:+ "; identifier_conflict")
  else if negb (String.eqb (scope_or (c_scope c) "scope" "global") (scope_or (mm_scope target) "scope" "global"))
  then decide "conflict" "pending_review" (reason +:+ "; scope_conflict")
  else if bool_decide (c_task_status c = mm_task_status target) then
    if negb (same_content c target) || negb (String.eqb (scope_get (c_scope c) "progress_note") "")
    then decide "merge" "update" reason
    else decide "same" "add_source" reason
  else if can_transition (mm_task_status target) (c_task_status c) then decide "update_task" "update_task" reason
  else decide "conflict" "pending_review" (reason +:+ "; invalid_transition").
Definition compatible_scopes (c : candidate) (m : memory) : bool :=
  scopes_compatible (c_content c) (c_scope c) (mm_content m) (mm_scope m).
Definition same_assertion_decision (x : extracted) (target : memory) (confidence : Q) (reason : string) : decision :=
  let c := x_candidate x in
  let decide relation action reason := decide_as x relation action confidence reason [target] in
  let l := preference_signature (c_content c) (c_object_value c) in
  let r := preference_signature (mm_content target) (mm_object_value target) in
  if negb (bool_decide (ps_named_anchors l = ps_named_anchors r)) || negb (compatible_scopes c target)
  then decide "conflict" "pending_review" (reason +:+ "; anchor_or_scope_conflict")
  else if String.eqb (ps_polarity l) (ps_polarity r) then decide "same" "add_source" reason
  else if explicitly_replaces (c_content c) (mm_content target) then decide "supersede" "supersede" reason
  else decide "conflict" "pending_review" (reason +:+ "; polarity_conflict").

Definition identity_adjudicated_decision (x : extracted) (ms : list memory) : option decision :=
  let c := x_candidate x in
  if negb STRONG_ESCALATION_ENABLED || negb (compared_type c) then None
  else
    match maybe_memory_identity_adjudication c ms with
    | None => None
    | Some r =>
        if Qlt_bool (id_confidence r) (90 # 100) then None
        else
          let target := List.find (λ m, bool_decide (Some (mm_id m) = id_target r)) ms in
          let reason := "llm_identity:" +:+ str_or (id_reason_code r) (id_relation r) in
          if py_in (id_relation r) ["different"; "same_family"]
          then Some (decide_as x "new" "insert" (id_confidence r) reason [])
          else
            match target with
            | None => Some (decide_as x "ambiguous_match" "pending_review" (id_confidence r) reason [])
            | Some target =>
                if String.eqb (id_relation r) "uncertain"
                then Some (decide_as x "ambiguous_match" "pending_review" (id_confidence r) reason [target])
                else if String.eqb (c_memory_type c) "task" && String.eqb (id_relation r) "same_instance"
                then Some (same_instance_decision x target (id_confidence r) reason)
                else if String.eqb (c_memory_type c) "preference" && String.eqb (id_relation r) "same_assertion"
                then Some (same_assertion_decision x target (id_confidence r) reason)
                else None
            end
    end.

(** ** Similar texts *)

Definition CONFLICT_MARKERS : list string := ["没有"; "不是"; "并非"; "无问题"; "不存在"].
Definition semantic_conflict (c : candidate) (m : memory) : bool :=
  if bool_decide (c_predicate c = Some "location") && bool_decide (mm_predicate m = Some "location")
  then negb (semantic_explicitly_replaces (c_content c) (Some "location"))
  else negb (Bool.eqb (any_in CONFLICT_MARKERS (c_content c)) (any_in CONFLICT_MARKERS (mm_content m))).

Definition STUDIES : list string := ["学习"; "学"; "研究"].
Definition shares_topic (x : extracted) (m : memory) (similarity : Q) : bool :=
  let c := x_candidate x in
  if same_key c m then true
  else if both_of "preference" c m then
    (compatible_topics c m || is_comparative_alternative (c_content c) (mm_content m)) && compatible_scopes c m
  else if String.eqb (c_memory_type c) "task" then false
  else
    (truthy (c_predicate c) && truthy (mm_predicate m) && bool_decide (c_predicate c = mm_predicate m)
     && py_in (default "" (c_predicate c)) ["location"; "learning_focus"; "current_project"])
    || (truthy (c_subject c) && truthy (mm_subject m)
        && String.eqb (str_casefold (default "" (c_subject c))) (str_casefold (default "" (mm_subject m))))
    || mentions_entity (x_entities x) (mm_content m)
    || (any_in STUDIES (c_content c) && any_in STUDIES (mm_content m))
    || (str_contains "工作" (c_content c) && str_contains "工作" (mm_content m))
    || (any_in MOVES (c_content c) && any_in MOVES (mm_content m))
    || Qle_bool (65 # 100) similarity.

Definition near_same (x : extracted) (m : memory) (similarity : Q) : bool :=
  let c := x_candidate x in
  let l := normalize_content (c_content c) in
  let r := mm_normalized_content m in
  let contained := let '(shorter, longer) := if (length (chars r) <? length (chars l))%nat then (r, l) else (l, r) in
    str_contains shorter longer && Qle_bool (9 # 10) (ratio (length (chars shorter)) (length (chars longer))) in
  if String.eqb l r then true
  else if String.eqb l "" || String.eqb r "" then false
  else if same_key c m && Qle_bool (89 # 100) similarity then
    if String.eqb (c_memory_type c) "preference" then
      let s := preference_signature (c_content c) None in
      let s' := preference_signature (mm_content m) None in
      String.eqb (ps_polarity s) (ps_polarity s') && bool_decide (ps_qualifiers s = ps_qualifiers s')
      && bool_decide (ps_scopes s = ps_scopes s')
    else if String.eqb (c_memory_type c) "task" then bool_decide (c_task_status c = mm_task_status m)
    else if String.eqb (c_memory_type c) "semantic" && semantic_conflict c m then false
    else if String.eqb (c_memory_type c) "semantic" && truthy (c_object_value c) && truthy (mm_object_value m)
    then String.eqb (str_casefold (default "" (c_object_value c))) (str_casefold (default "" (mm_object_value m)))
    else true
  else contained.

(** [re.findall(r"[A-Za-z][A-Za-z0-9+#.-]*", text)] *)
Definition latin_tokens (text : string) : list string :=
  let cs := chars text in map str_casefold (tokens (length cs) (λ c, alnum c || in_set "+#.-" c) false cs).
Definition shares_named_token (c : candidate) (m : memory) : bool :=
  existsb (λ t, py_in t (latin_tokens (mm_content m))) (latin_tokens (c_content c)).
End adjudicator.

(** * The decision *)

Section decisions.
Context `{Platform, TextRules, Unicode, ScopeJson, AdjudicationEnv}.
Variable decision_id : string.
Abbreviation decide_as := (decide_as decision_id).
Abbreviation insert_new := (insert_new decision_id).

Definition exact_matches (c : candidate) (ms : list memory) : list memory := List.filter (same_key c) ms.
(** A fact that is known gets another source, any other is inserted. *)
Definition decide_semantic (x : extracted) (ms : list memory) : decision :=
  match exact_matches (x_candidate x) ms with
  | m :: more => decide_as x "same" "add_source" (at_least (92 # 100) x) "same_semantic_fact" [max_by older m more]
  | [] => insert_new x "semantic_append_only"
  end.

(** The memories that a preference without an exact match contradicts, or repeats *)
Definition preference_conflicts (c : candidate) (ms : list memory) : list memory :=
  List.filter (λ m, compatible_scopes c m
    && (is_ambiguous_conflict (c_content c) (mm_content m) || is_comparative_alternative (c_content c) (mm_content m))) ms.
Definition family_conflict (c : candidate) (m : memory) : bool :=
  truthy (c_polarity c) && truthy (mm_polarity m) && negb (bool_decide (c_polarity c = mm_polarity m))
  && compatible_scopes c m && compatible_topics c m.
Definition structured_preference (x : extracted) (ms : list memory) : option decision :=
  let c := x_candidate x in
  match List.filter (same_scope_key "preference_assertion_key" c) ms with
  | m :: more =>
      let best := max_by older m more in
      Some (if bool_decide (c_polarity c = mm_polarity best)
            then decide_as x "same" "add_source" (at_least (92 # 100) x) "same_preference_assertion_key" [best]
            else decide_as x "conflict" "pending_review" (at_least (82 # 100) x) "preference_assertion_polarity_conflict" [best])
  | [] =>
      match List.filter (same_scope_key "preference_family_key" c) ms with
      | m :: more =>
          if existsb (family_conflict c) (m :: more)
          then Some (decide_as x "conflict" "pending_review" (at_least (82 # 100) x) "preference_family_polarity_conflict"
                       [max_by older m more])
          else None
      | [] => None
      end
  end.

(** The memories that the guard lets the candidate change *)
Fixpoint refinements (x : extracted) (ms : list memory) : result (list memory) :=
  match ms with
  | [] => Ok []
  | m :: ms =>
      g ← evaluate_relation x m;
      rest ← refinements x ms;
      Ok (if g_approved g && py_in (g_action g) ["update_task"; "update"] then m :: rest else rest)
  end.
(** [(candidate_similarity(candidate, memory), memory.updated_at, memory.current_version)] *)
Definition less_similar (x : extracted) (a b : memory) : bool :=
  Qlt_bool (candidate_similarity x a) (candidate_similarity x b)
  || (Qeq_bool (candidate_similarity x a) (candidate_similarity x b) && older a b).

(** As the guard says *)
Definition decide_guarded (x : extracted) (g : guarded) (confidence : Q) (m : memory) : decision :=
  decide_as x (g_relation g) (g_action g) confidence (g_reason g) [m].
Definition decide_refinement (x : extracted) (ms : list memory) : result decision :=
  found ← refinements x ms;
  match found with
  | [] => Ok (insert_new x "v3_no_exact_canonical_identity")
  | m :: more =>
      if String.eqb (c_memory_type (x_candidate x)) "task" && negb (bool_decide (more = []))
      then Ok (decide_as x "ambiguous_match" "pending_review" (at_least (8 # 10) x) "multiple_task_instance_matches" found)
      else
        let best := max_by (less_similar x) m more in
        g ← evaluate_relation x best;
        Ok (decide_guarded x g (combined_confidence x (Qmax (82 # 100) (candidate_similarity x best))) best)
  end.
Definition guarded_confidence (x : extracted) (g : guarded) (m : memory) : Q :=
  let similarity := candidate_similarity x m in
  if String.eqb (g_action g) "update_task" then combined_confidence x (Qmax (82 # 100) similarity)
  else if py_in (g_action g) ["update"; "supersede"; "pending_review"] then combined_confidence x (Qmax (8 # 10) similarity)
  else at_least (if String.eqb (g_action g) "add_source" then 92 # 100 else 8 # 10) x.

Definition adjudicate_v3 (x : extracted) (ms : list memory) : result decision :=
  let c := x_candidate x in
  let exact := exact_matches c ms in
  if String.eqb (c_memory_type c) "semantic" then Ok (decide_semantic x ms)
  else if (1 <? length exact)%nat
  then Ok (decide_as x "ambiguous_match" "pending_review" (at_least (8 # 10) x) "multiple_exact_identity_matches" exact)
  else
    match (if String.eqb (c_memory_type c) "preference" then preference_conflicts c ms else []) with
    | m :: more => Ok (decide_as x "conflict" "pending_review" (combined_confidence x (82 # 100)) "ambiguous_preference_conflict"
                         [max_by older m more])
    | [] =>
        match exact with
        | [] =>
            match (if String.eqb (c_memory_type c) "preference" then structured_preference x ms else None) with
            | Some d => Ok d
            | None => decide_refinement x ms
            end
        | m :: more =>
            let best := max_by older m more in
            g ← evaluate_relation x best;
            Ok (decide_guarded x g (guarded_confidence x g best) best)
        end
    end.

(** The memories that are compared with a candidate without the guard; a reason to insert it otherwise *)
Definition keyed_memories (c : candidate) (ms : list memory) : list memory :=
  let keyed := exact_matches c ms in
  if String.eqb (c_memory_type c) "preference" && bool_decide (keyed = [])
  then List.filter (λ m, is_comparative_alternative (c_content c) (mm_content m)) ms else keyed.
Definition comparable_memories (c : candidate) (ms : list memory) : list memory + string :=
  let t := c_memory_type c in
  let keyed := keyed_memories c ms in
  if py_in t ["preference"; "task"] && bool_decide (keyed = []) then inr "different_memory_key"
  else
    let ms := if bool_decide (keyed = []) then ms else keyed in
    if String.eqb t "preference" then
      match List.filter (λ m, (compatible_topics c m || is_comparative_alternative (c_content c) (mm_content m))
                              && compatible_scopes c m) ms with
      | [] => inr "different_preference_topic_or_scope"
      | compatible => inl compatible
      end
    else if String.eqb t "task" then
      match List.filter (λ m, identifiers_compatible (c_content c) (mm_content m)) ms with
      | [] => inr "different_task_identifier"
      | compatible => inl compatible
      end
    else inl ms.

Definition decide_by_similarity (x : extracted) (best : memory) : decision :=
  let c := x_candidate x in
  let t := c_memory_type c in
  let similarity := candidate_similarity x best in
  let same_topic := shares_topic x best similarity in
  let change := combined_confidence x ((82 # 100) + (12 # 100) * similarity)%Q in
  if near_same x best similarity
  then decide_as x "same" "add_source" (at_least (92 # 100) x) "same_or_near_duplicate" [best]
  else if String.eqb t "task" && same_topic && negb (bool_decide (c_task_status c = mm_task_status best)) then
    if can_transition (mm_task_status best) (c_task_status c)
    then decide_as x "update_task" "update_task" change "valid_task_status_transition" [best]
    else decide_as x "conflict" "pending_review" (7 # 10) "invalid_or_ambiguous_task_status_transition" [best]
  else if String.eqb t "preference" && same_topic && is_ambiguous_conflict (c_content c) (mm_content best)
  then decide_as x "conflict" "pending_review" (combined_confidence x (Qmax (82 # 100) similarity)) "ambiguous_preference_conflict" [best]
  else if String.eqb t "preference" && same_topic && explicitly_replaces (c_content c) (mm_content best)
  then decide_as x "supersede" "supersede" change "explicit_preference_change" [best]
  else if String.eqb t "semantic" && same_topic && semantic_conflict c best
  then decide_as x "conflict" "pending_review" (combined_confidence x (Qmax (82 # 100) similarity))
         "semantic_contradiction_requires_review" [best]
  else if String.eqb t "semantic" && same_topic && semantic_explicitly_replaces (c_content c) (c_predicate c)
  then decide_as x "supersede" "supersede" change "explicit_semantic_change" [best]
  else if same_topic && (Qle_bool (34 # 100) similarity || shares_named_token c best)
  then decide_as x "merge" "merge" (combined_confidence x ((74 # 100) + (16 # 100) * similarity)%Q) "compatible_extension" [best]
  else decide_as x "new" "insert" (at_least (78 # 100) x) "no_actionable_relation" [].

Definition adjudicate_unguarded (x : extracted) (ms : list memory) : result decision :=
  match comparable_memories (x_candidate x) ms with
  | inr reason => Ok (insert_new x reason)
  | inl [] => Raise (ValueError "max() iterable argument is empty")
  | inl (m :: more) =>
      Ok (decide_by_similarity x (max_by (λ a b, Qlt_bool (candidate_similarity x a) (candidate_similarity x b)) m more))
  end.

Definition adjudicate_memory (x : extracted) (ms : list memory) : result decision :=
  let c := x_candidate x in
  if negb (x_should_store x)
  then Ok (decide_as x "new" "discard" (c_confidence c) (opt_or (x_reason x) "candidate_should_not_store") [])
  else if bool_decide (ms = []) then Ok (insert_new x "no_related_active_memory")
  else if String.eqb (c_memory_type c) "semantic" then Ok (decide_semantic x ms)
  else
    match (if existsb (same_key c) ms then None else identity_adjudicated_decision decision_id x ms) with
    | Some d => Ok d
    | None =>
        if MEMORY_RELATION_GUARD_V3_ENABLED && is_v3_candidate c then adjudicate_v3 x ms
        else adjudicate_unguarded x ms
    end.

(** [memory/relation_classifier.py] *)
Definition LEGACY_RELATIONS : list (string * string) :=
  [("new", "new"); ("same", "same"); ("merge", "extend"); ("update_task", "update"); ("supersede", "update");
   ("conflict", "contradict")].
Record relation_decision := RelationDecision {
  rd_relation : string;
  rd_action : string;
  rd_target_memory_id : option string;
  rd_reason : string;
}.
Definition classify_relation (x : extracted) (ms : list memory) : result relation_decision :=
  d ← adjudicate_memory x ms;
  match alias LEGACY_RELATIONS (d_relation d) with
  | Some relation => Ok (RelationDecision relation (d_recommended_action d) (head (d_target_memory_ids d)) (d_reason d))
  | None => Raise (KeyError (d_relation d))
  end.
End decisions.
