(* ===== verification/AdjudicationSpec.v ===== *)
(** What the adjudication may decide: every decision has a shape that the store accepts, a memory is
    changed only with authority and confidence, facts are only added, and the only failure is
    the comparison of two times of different kinds. *)

From stdpp Require Import base list strings.
From Stdlib Require Import ZArith Lia QArith Qminmax Lqa.
From S2P Require Import Prelude Consistency TextChunks Regex MemoryText Memory MemoryOps CandidateValidation PreferencePolicy TaskIdentity CandidateRetrieval Adjudication.

Open Scope string_scope.
Open Scope Z_scope.

#[local] Opaque identifiers_compatible scopes_compatible preference_signature explicitly_replaces normalize_content
  scope_get is_comparative_alternative is_ambiguous_conflict topic_compatibility instance_authorized candidate_similarity.

(** The pairs of a relation and an action that the adjudication gives *)
Definition VERDICTS : list (string * string) :=
  [("new", "discard"); ("new", "insert"); ("same", "add_source"); ("ambiguous_match", "pending_review");
   ("conflict", "pending_review"); ("merge", "update"); ("merge", "merge"); ("update_task", "update_task");
   ("supersede", "supersede"); ("supersede", "update"); ("update", "update")].
Definition CHANGES : list string := ["merge"; "update"; "update_task"; "supersede"].
Definition changes_memory (action : string) : bool := py_in action CHANGES.
(** An action that changes a memory has one target. *)
Definition targets_fit (action : string) (targets : list memory) : Prop :=
  changes_memory action = true → ∃ t, targets = [t].

Section spec.
Context `{Platform, TextRules, Unicode, ScopeJson, AdjudicationEnv}.
Implicit Types (x : extracted) (m t : memory) (ms : list memory) (d : decision).

(** [d] is a verdict over memories of [ms]; [auth action t] is what allows [action] to change [t]. *)
Inductive verdict (id : string) (auth : string → memory → Prop) x ms : decision → Prop :=
  verdict_intro relation action confidence reason targets :
    (relation, action) ∈ VERDICTS →
    (∀ t, t ∈ targets → t ∈ ms) →
    targets_fit action targets →
    (∀ t, changes_memory action = true → targets = [t] → auth action t) →
    verdict id auth x ms (decide_as id x relation action confidence reason targets).

Lemma harmless id auth x ms relation action confidence reason targets :
  (relation, action) ∈ VERDICTS → changes_memory action = false → (∀ t, t ∈ targets → t ∈ ms) →
  verdict id auth x ms (decide_as id x relation action confidence reason targets).
Proof. intros Hp Hc Ht. constructor; [done|done| |]; unfold targets_fit; by rewrite Hc. Qed.
Lemma changing id (auth : string → memory → Prop) x ms relation action confidence reason t :
  (relation, action) ∈ VERDICTS → t ∈ ms → (changes_memory action = true → auth action t) →
  verdict id auth x ms (decide_as id x relation action confidence reason [t]).
Proof.
  intros Hp Ht Ha. constructor; [done| | |].
  - by intros t' ->%list_elem_of_singleton.
  - intros _. by exists t.
  - by intros t' Hc [= ->]; apply Ha.
Qed.

(** ** The best of a list *)

Lemma max_by_in {A} (lt : A → A → bool) a l : max_by lt a l ∈ a :: l.
Proof.
  unfold max_by. revert a. induction l as [|b l IH]; intros a; simpl; [by left|].
  specialize (IH (if lt a b then b else a)). rewrite !elem_of_cons in *. destruct (lt a b), IH as [->|IH]; auto.
Qed.
Lemma max_by_from {A} (lt : A → A → bool) (p : A → bool) l a more : List.filter p l = a :: more →
  max_by lt a more ∈ l ∧ p (max_by lt a more) = true.
Proof.
  intros E. pose proof (max_by_in lt a more) as Hin. rewrite <- E in Hin.
  by apply list_elem_of_In, filter_In in Hin as [Hin%list_elem_of_In Hp].
Qed.

(** ** The guard *)

Lemma guard_verdict x m g : evaluate_relation x m = Ok g →
  (g_relation g, g_action g) ∈ VERDICTS ∧ (changes_memory (g_action g) = true → g_approved g = true).
Proof.
  assert (∀ r a w b, bool_decide ((r, a) ∈ VERDICTS) = true → implb (changes_memory a) b = true →
    (g_relation (Guarded r a w b), g_action (Guarded r a w b)) ∈ VERDICTS
    ∧ (changes_memory (g_action (Guarded r a w b)) = true → g_approved (Guarded r a w b) = true)) as Hok.
  { intros r a w b Hp%bool_decide_eq_true Hb. split; [done|]. cbn. intros Hc. by rewrite Hc in Hb. }
  unfold evaluate_relation, evaluate_task, evaluate_preference, evaluate_episodic, review, unrelated, mbind, result_bind.
  intros Hg. repeat (case_match; try discriminate); injection Hg as <-; by apply Hok.
Qed.

(** ** Authority *)

(** What the model of language said, and what the code requires besides. *)
Definition model_agrees (c : candidate) ms t : Prop := ∃ r,
  maybe_memory_identity_adjudication c ms = Some r ∧ id_target r = Some (mm_id t) ∧ (90 # 100 <= id_confidence r)%Q
  ∧ ((c_memory_type c = "task" ∧ id_relation r = "same_instance"
      ∧ identifiers_compatible (c_content c) (mm_content t) = true
      ∧ can_transition (mm_task_status t) (c_task_status c) = true)
     ∨ (c_memory_type c = "preference" ∧ id_relation r = "same_assertion"
        ∧ ps_named_anchors (preference_signature (c_content c) (c_object_value c))
          = ps_named_anchors (preference_signature (mm_content t) (mm_object_value t))
        ∧ compatible_scopes c t = true)).

(** Who lets [action] change [t]: the guard, the model, or, without the guard, the similarity. *)
Inductive authority x ms (action : string) t : Prop :=
  | by_guard g :
      MEMORY_RELATION_GUARD_V3_ENABLED = true → is_v3_candidate (x_candidate x) = true →
      evaluate_relation x t = Ok g → g_approved g = true → g_action g = action → authority x ms action t
  | by_model :
      STRONG_ESCALATION_ENABLED = true → existsb (same_key (x_candidate x)) ms = false →
      model_agrees (x_candidate x) ms t → authority x ms action t
  | by_similarity l :
      MEMORY_RELATION_GUARD_V3_ENABLED && is_v3_candidate (x_candidate x) = false →
      comparable_memories (x_candidate x) ms = inl l → t ∈ l → authority x ms action t.

Lemma same_transition (a b : option string) : bool_decide (a = b) = true → can_transition b a = true.
Proof.
  intros ->%bool_decide_eq_true. unfold can_transition. destruct b as [s|]; [|done]. simpl. by rewrite String.eqb_refl.
Qed.

Local Ltac pair := (eapply bool_decide_eq_true_1; vm_compute; reflexivity).

Lemma model_verdict id x ms d :
  existsb (same_key (x_candidate x)) ms = false →
  identity_adjudicated_decision id x ms = Some d → verdict id (authority x ms) x ms d.
Proof.
  unfold identity_adjudicated_decision. intros Hexact. destruct STRONG_ESCALATION_ENABLED eqn:Hs; [|done].
  destruct (compared_type _) eqn:Hc; [|done]. cbn [negb orb].
  destruct (maybe_memory_identity_adjudication _ ms) as [r|] eqn:Hr; [|done].
  destruct (Qlt_bool _ _) eqn:Hq; [done|]. apply negb_false_iff, Qle_bool_iff in Hq.
  case_match; [intros [= <-]; apply harmless; [pair|done|by intros t Ht%elem_of_nil]|].
  destruct (List.find _ ms) as [t|] eqn:Ht; [|intros [= <-]; apply harmless; [pair|done|by intros t Ht'%elem_of_nil]].
  apply List.find_some in Ht as [Hin%list_elem_of_In Hid%bool_decide_eq_true].
  assert (∀ t', t' ∈ [t] → t' ∈ ms) as Hone by (by intros t' ->%list_elem_of_singleton).
  destruct (String.eqb (id_relation r) "uncertain"); [intros [= <-]; by apply harmless; [pair| |]|].
  match goal with |- context[if ?b then _ else _] => destruct b eqn:Ht1 end;
    [|match goal with |- context[if ?b then _ else _] => destruct b eqn:Ht2 end; [|discriminate]].
  all: intros <-%Some_inj.
  1: apply andb_true_iff in Ht1 as [Htask%String.eqb_eq Hrel%String.eqb_eq].
  2: apply andb_true_iff in Ht2 as [Hpref%String.eqb_eq Hrel%String.eqb_eq].
  - unfold same_instance_decision. destruct (identifiers_compatible _ _) eqn:Hids; cbn [negb]; [|by apply harmless; [pair| |]].
    case_match; [by apply harmless; [pair| |]|]. case_match eqn:Hst.
    + case_match; [|by apply harmless; [pair| |]]. apply changing; [pair|done|]. intros _. apply by_model; [done..|].
      exists r. repeat split; try done. left. repeat split; try done. by apply same_transition.
    + case_match eqn:Htr; [|by apply harmless; [pair| |]]. apply changing; [pair|done|]. intros _. apply by_model; [done..|].
      exists r. repeat split; try done. by left.
  - unfold same_assertion_decision. case_match eqn:Hanch; [by apply harmless; [pair| |]|].
    case_match; [by apply harmless; [pair| |]|]. case_match; [|by apply harmless; [pair| |]].
    apply changing; [pair|done|]. intros _. apply by_model; [done..|]. exists r. repeat split; try done. right.
    apply orb_false_iff in Hanch as [Ha%negb_false_iff%bool_decide_eq_true Hsc%negb_false_iff]. done.
Qed.

Lemma no_targets (ms : list memory) t : t ∈ @nil memory → t ∈ ms.
Proof. by intros ?%elem_of_nil. Qed.
Lemma one_target t ms t' : t ∈ ms → t' ∈ [t] → t' ∈ ms.
Proof. by intros Ht ->%list_elem_of_singleton. Qed.
Hint Resolve no_targets : core.
Hint Extern 3 (_ ∈ _) => (eapply one_target; eassumption) : core.
Local Ltac harmless := (apply harmless; [pair|reflexivity|eauto 3]).

Lemma semantic_verdict id auth x ms : verdict id auth x ms (decide_semantic id x ms).
Proof.
  unfold decide_semantic, exact_matches. destruct (List.filter _ ms) as [|a more] eqn:E; [unfold insert_new; harmless|].
  destruct (max_by_from older _ _ _ _ E). harmless.
Qed.

Lemma structured_verdict id auth x ms d : structured_preference id x ms = Some d → verdict id auth x ms d.
Proof.
  unfold structured_preference. destruct (List.filter _ ms) as [|a more] eqn:E.
  - clear E. destruct (List.filter _ ms) as [|a more] eqn:E; [done|]. destruct (existsb _ _); [|done].
    intros <-%Some_inj. destruct (max_by_from older _ _ _ _ E). harmless.
  - intros <-%Some_inj. destruct (max_by_from older _ _ _ _ E). destruct (bool_decide _); harmless.
Qed.

(** The guard lets the candidate change the memories of [refinements]. *)
Lemma refinements_spec x ms l : refinements x ms = Ok l →
  ∀ t, t ∈ l → t ∈ ms ∧ ∃ g, evaluate_relation x t = Ok g ∧ g_approved g = true.
Proof.
  revert l. induction ms as [|m ms IH]; intros l; simpl; unfold mbind, result_bind; [by intros [= <-] t ?%elem_of_nil|].
  destruct (evaluate_relation x m) as [g|] eqn:Hg; [|done]. destruct (refinements x ms) as [rest|]; [|done].
  specialize (IH rest eq_refl). intros [= <-] t. setoid_rewrite elem_of_cons.
  destruct (g_approved g && _) eqn:Ha; [|intros Ht; destruct (IH t Ht); auto].
  apply andb_true_iff in Ha as [Ha _]. intros [->|Ht]%elem_of_cons; [eauto|]. destruct (IH t Ht); auto.
Qed.

Lemma guarded_is_verdict id x ms g confidence t :
  MEMORY_RELATION_GUARD_V3_ENABLED = true → is_v3_candidate (x_candidate x) = true → t ∈ ms →
  evaluate_relation x t = Ok g → verdict id (authority x ms) x ms (decide_guarded id x g confidence t).
Proof.
  intros Hon Hv Ht Hg. destruct (guard_verdict x t g Hg) as [Hp Ha]. apply changing; [done..|].
  intros Hc. by apply (by_guard _ _ _ _ g); auto.
Qed.

Lemma v3_verdict id x ms d :
  MEMORY_RELATION_GUARD_V3_ENABLED = true → is_v3_candidate (x_candidate x) = true →
  adjudicate_v3 id x ms = Ok d → verdict id (authority x ms) x ms d.
Proof.
  intros Hon Hv. unfold adjudicate_v3. destruct (String.eqb _ "semantic"); [intros [= <-]; apply semantic_verdict|].
  destruct (1 <? _)%nat eqn:Hmany.
  { intros [= <-]. apply harmless; [pair|done|]. intros t Ht. unfold exact_matches in Ht.
    by apply list_elem_of_In, filter_In in Ht as [Ht%list_elem_of_In _]. }
  destruct (if String.eqb _ "preference" then preference_conflicts _ ms else []) as [|a more] eqn:Ec.
  - destruct (exact_matches _ ms) as [|a more] eqn:E.
    + destruct (if String.eqb _ "preference" then structured_preference id x ms else None) as [d'|] eqn:Es.
      * intros [= <-]. destruct (String.eqb _ "preference"); [|done]. by apply (structured_verdict id).
      * unfold decide_refinement, mbind, result_bind. destruct (refinements x ms) as [l|] eqn:Hl; [|done].
        pose proof (refinements_spec x ms l Hl) as Hin.
        destruct l as [|a more]; [intros [= <-]; unfold insert_new; harmless|].
        destruct (_ && _); [intros [= <-]; apply harmless; [pair|done|intros t Ht; apply (Hin t Ht)]|].
        destruct (evaluate_relation x (max_by _ a more)) as [g|] eqn:Hg; [|done]. intros [= <-].
        apply guarded_is_verdict; [done..| |done]. apply Hin, max_by_in.
    + unfold mbind, result_bind. destruct (evaluate_relation _ _) as [g|] eqn:Hg; [|done]. intros [= <-].
      apply guarded_is_verdict; [done..| |done]. unfold exact_matches in E. by destruct (max_by_from older _ _ _ _ E).
  - intros [= <-]. destruct (String.eqb _ "preference"); [|done]. unfold preference_conflicts in Ec.
    destruct (max_by_from older _ _ _ _ Ec). harmless.
Qed.

Lemma filter_part (p : memory → bool) ms t : t ∈ List.filter p ms → t ∈ ms.
Proof. intros Ht. by apply list_elem_of_In, filter_In in Ht as [Ht%list_elem_of_In _]. Qed.

Lemma comparable_part c ms l t : comparable_memories c ms = inl l → t ∈ l → t ∈ ms.
Proof.
  unfold comparable_memories. assert (∀ t, t ∈ keyed_memories c ms → t ∈ ms) as Hk
    by (intros t'; unfold keyed_memories; case_match; apply filter_part). revert Hk. generalize (keyed_memories c ms). intros keyed Hk.
  case_match; [done|]. set (base := if bool_decide (keyed = []) then ms else keyed).
  assert (∀ t, t ∈ base → t ∈ ms) as Hb by (intros t'; unfold base; case_match; auto). clearbody base.
  destruct (String.eqb _ "preference").
  - destruct (List.filter _ base) eqn:E; [done|]. intros [= <-] Ht. rewrite <- E in Ht. by apply Hb, (filter_part _ _ _ Ht).
  - destruct (String.eqb _ "task"); [|by intros [= <-]; apply Hb].
    destruct (List.filter _ base) eqn:E; [done|]. intros [= <-] Ht. rewrite <- E in Ht. by apply Hb, (filter_part _ _ _ Ht).
Qed.
Lemma comparable_some c ms : ms ≠ [] → comparable_memories c ms ≠ inl [].
Proof.
  intros Hms. unfold comparable_memories. generalize (keyed_memories c ms). intros keyed.
  destruct (py_in _ _ && _); [done|]. set (base := if bool_decide (keyed = []) then ms else keyed).
  assert (base ≠ []) as Hb by (unfold base; case_bool_decide; done). clearbody base.
  destruct (String.eqb _ "preference"); [by destruct (List.filter _ base)|].
  destruct (String.eqb _ "task"); [by destruct (List.filter _ base)|]. congruence.
Qed.

Lemma similarity_verdict id (auth : string → memory → Prop) x ms t : t ∈ ms → (∀ action, auth action t) →
  verdict id auth x ms (decide_by_similarity id x t).
Proof.
  intros Ht Ha. unfold decide_by_similarity. set (s := candidate_similarity x t). clearbody s.
  generalize (near_same x t s), (shares_topic x t s). intros near topic.
  repeat match goal with |- verdict _ _ _ _ (if ?b then _ else _) => destruct b end;
    first [harmless|apply changing; [pair|done|done]].
Qed.

Lemma unguarded_verdict id x ms d :
  MEMORY_RELATION_GUARD_V3_ENABLED && is_v3_candidate (x_candidate x) = false →
  adjudicate_unguarded id x ms = Ok d → verdict id (authority x ms) x ms d.
Proof.
  unfold adjudicate_unguarded. intros Hoff.
  destruct (comparable_memories _ ms) as [[|a more]|reason] eqn:E; [done| |].
  - intros [= <-]. pose proof (max_by_in (λ a b, Qlt_bool (candidate_similarity x a) (candidate_similarity x b)) a more) as Hin.
    apply similarity_verdict; [by eapply comparable_part|]. intros action. by eapply by_similarity.
  - intros [= <-]. unfold insert_new. harmless.
Qed.

(** Every decision is a verdict. *)
Lemma adjudicate_verdict id x ms d : adjudicate_memory id x ms = Ok d → verdict id (authority x ms) x ms d.
Proof.
  unfold adjudicate_memory. destruct (x_should_store x); cbn [negb]; [|intros [= <-]; harmless].
  case_bool_decide; [intros [= <-]; unfold insert_new; harmless|].
  destruct (String.eqb _ "semantic"); [intros [= <-]; apply semantic_verdict|].
  destruct (existsb _ ms) eqn:He.
  - destruct (_ && _) eqn:Hg; [|by apply unguarded_verdict].
    apply andb_true_iff in Hg as [? ?]. by apply v3_verdict.
  - destruct (identity_adjudicated_decision id x ms) as [d'|] eqn:Em; [intros [= <-]; by apply model_verdict|].
    destruct (_ && _) eqn:Hg; [|by apply unguarded_verdict].
    apply andb_true_iff in Hg as [? ?]. by apply v3_verdict.
Qed.

(** ** What the store is given *)

Lemma changes_destructive action : changes_memory action = true → py_in action DESTRUCTIVE_ACTIONS = true.
Proof.
  unfold changes_memory, py_in, CHANGES, DESTRUCTIVE_ACTIONS. rewrite !bool_decide_eq_true. rewrite !elem_of_cons. tauto.
Qed.

(** Every decision of the adjudication is one that the store accepts: its relation and its action are among those of the program, its confidence lies between 0 and 1, its targets are memories that the candidate was compared with, and its snapshot is the version of the first of them. *)
Theorem decisions_are_well_formed id x ms d : adjudicate_memory id x ms = Ok d →
  d_decision_id d = id ∧ d_candidate_id d = c_candidate_id (x_candidate x)
  ∧ py_in (d_relation d) DECISION_RELATIONS = true ∧ py_in (d_recommended_action d) DECISION_ACTIONS = true
  ∧ (0 <= d_confidence d <= 1)%Q
  ∧ ∃ targets, (∀ t, t ∈ targets → t ∈ ms) ∧ d_target_memory_ids d = map mm_id targets
      ∧ d_target_snapshot_version d = option_map mm_current_version (head targets).
Proof.
  intros Hd. destruct (adjudicate_verdict id x ms d Hd) as [relation action confidence reason targets Hp Ht _ _]. simpl.
  assert (py_in relation DECISION_RELATIONS = true ∧ py_in action DECISION_ACTIONS = true) as [Hr Ha].
  { revert Hp. unfold VERDICTS. rewrite !elem_of_cons, elem_of_nil. intros Hp. repeat destruct Hp as [[= -> ->]|Hp]; done. }
  repeat split; try done.
  - by case_match.
  - apply Q.min_glb; [lra|apply Q.le_max_l].
  - apply Q.le_min_l.
  - by exists targets.
Qed.

(** C11: A memory is changed - merged, updated, advanced or superseded - only with the configured confidence, as the single target of the decision, and with authority: the guard approved exactly this action, or the model named this memory and the code found no contradiction, or, where the guard is off, the memory was comparable. *)
Theorem memories_change_with_authority id x ms d : adjudicate_memory id x ms = Ok d →
  changes_memory (d_recommended_action d) = true →
  (MEMORY_AUTO_MUTATION_MIN_CONFIDENCE <= d_confidence d)%Q
  ∧ ∃ t, t ∈ ms ∧ d_target_memory_ids d = [mm_id t] ∧ d_target_snapshot_version d = Some (mm_current_version t)
      ∧ authority x ms (d_recommended_action d) t.
Proof.
  intros Hd. destruct (adjudicate_verdict id x ms d Hd) as [relation action confidence reason targets _ Ht Hf Ha]. simpl.
  destruct (py_in action DESTRUCTIVE_ACTIONS) eqn:E; cbn [andb].
  - destruct (Qlt_bool _ _) eqn:Hq; [done|]. intros Hc. split.
    + by apply negb_false_iff, Qle_bool_iff in Hq.
    + destruct (Hf Hc) as [t ->]. exists t. repeat split; auto. apply Ht. by left.
  - intros Hc%changes_destructive. congruence.
Qed.

(** ** Facts *)

(** A fact is never changed by the adjudication: a candidate for a fact is decided without fail, and it is discarded, inserted beside the known facts, or adds a source to a fact with the same key. *)
Theorem facts_are_append_only id x ms : c_memory_type (x_candidate x) = "semantic" →
  ∃ d, adjudicate_memory id x ms = Ok d
  ∧ ((py_in (d_recommended_action d) ["discard"; "insert"] = true ∧ d_target_memory_ids d = [])
     ∨ (d_recommended_action d = "add_source"
        ∧ ∃ t, t ∈ ms ∧ same_key (x_candidate x) t = true ∧ d_target_memory_ids d = [mm_id t])).
Proof.
  intros Ht. unfold adjudicate_memory. destruct (x_should_store x); cbn [negb]; [|eexists; split; [done|by left]].
  case_bool_decide; [eexists; split; [done|by left]|]. rewrite Ht. cbn [String.eqb Ascii.eqb Bool.eqb].
  eexists. split; [done|]. unfold decide_semantic, exact_matches.
  destruct (List.filter _ ms) as [|a more] eqn:E; [by left|]. right. split; [done|].
  destruct (max_by_from older _ _ _ _ E) as [Hin Hk]. by exists (max_by older a more).
Qed.

(** ** Behind the guard *)

(** What a change that the guard lets through has passed *)
Definition passed_guard x t : Prop :=
  let c := x_candidate x in
  mm_memory_type t = c_memory_type c
  ∧ (same_key c t = true → is_stale_candidate c t = Ok false)
  ∧ (c_memory_type c = "task" → instance_authorized (candidate_task c) (memory_task t) = true
      ∧ (terminal_reactivation_requires_review x t = true → task_values_changed c t = true))
  ∧ (c_memory_type c = "preference" → same_key c t = true ∧ same_text (c_subject c) (mm_subject t) = true
      ∧ same_scope_text "scope" "global" c t = true ∧ is_unconfirmed x = false).

Lemma approved_task x t : g_approved (evaluate_task x t) = true →
  instance_authorized (candidate_task (x_candidate x)) (memory_task t) = true
  ∧ (terminal_reactivation_requires_review x t = true → task_values_changed (x_candidate x) t = true).
Proof.
  unfold evaluate_task. destruct (instance_authorized _ _); cbn [negb]; [|done].
  destruct (task_values_changed _ t); [done|]. intros Ha. split; [done|]. intros Hr.
  destruct (bool_decide (_ = mm_task_status t)) eqn:E; [|by rewrite Hr in Ha].
  exfalso. apply bool_decide_eq_true in E. unfold terminal_reactivation_requires_review in Hr. rewrite E in Hr.
  apply andb_true_iff in Hr as [[Hd1%bool_decide_eq_true Hd2%bool_decide_eq_true]%andb_true_iff _]. congruence.
Qed.
Lemma approved_preference x t : g_approved (evaluate_preference x t) = true →
  same_key (x_candidate x) t = true ∧ same_text (c_subject (x_candidate x)) (mm_subject t) = true
  ∧ same_scope_text "scope" "global" (x_candidate x) t = true ∧ is_unconfirmed x = false.
Proof.
  unfold evaluate_preference. destruct (same_key _ t), (same_text _ _), (same_scope_text _ _ _ t); try done; cbn [negb orb].
  by destruct (is_unconfirmed x).
Qed.

Lemma approved_passed x t g : evaluate_relation x t = Ok g → g_approved g = true → passed_guard x t.
Proof.
  unfold evaluate_relation, mbind, result_bind. destruct (String.eqb _ (mm_memory_type t)) eqn:Ht; cbn [negb];
    [apply String.eqb_eq in Ht|by intros [= <-]].
  destruct (if same_key _ t then is_stale_candidate _ t else Ok false) as [[]|] eqn:Es; [by intros [= <-]| |done].
  intros Hg Ha. split; [done|]. split; [by intros Hk; rewrite Hk in Es|].
  split; intros Hty; rewrite Hty in Hg; cbn [String.eqb Ascii.eqb Bool.eqb] in Hg; injection Hg as <-.
  - by apply approved_task.
  - by apply approved_preference.
Qed.


(** ** Failures *)

Definition mixed_times (c : candidate) t : Prop := ∃ a b u v,
  read_moment a = Some (u, v) ∧ (∃ v', read_moment b = Some (negb u, v'))
  ∧ a = with_offset (py_strip (scope_get (c_scope c) "observed_at"))
  ∧ b = with_offset (str_or (py_strip (scope_get (mm_scope t) "observed_at")) (py_strip (mm_updated_at t))).

Lemma guard_failure x t e : evaluate_relation x t = Raise e →
  e = TypeError "can't compare offset-naive and offset-aware datetimes" ∧ same_key (x_candidate x) t = true
  ∧ mixed_times (x_candidate x) t.
Proof.
  unfold evaluate_relation, mbind, result_bind. destruct (negb _); [done|]. destruct (same_key _ t).
  - unfold is_stale_candidate. destruct (String.eqb _ _); [|destruct (String.eqb _ _)]; try by repeat case_match.
    destruct (read_moment _) as [[a v]|] eqn:Ea; [destruct (read_moment (with_offset (str_or _ _))) as [[b v']|] eqn:Eb|];
      [|by repeat case_match..].
    destruct (Bool.eqb a b) eqn:E; [by repeat case_match|]. intros [= <-]. split; [done|]. split; [done|].
    exists (with_offset (py_strip (scope_get (c_scope (x_candidate x)) "observed_at"))), (with_offset (str_or (py_strip (scope_get (mm_scope t) "observed_at")) (py_strip (mm_updated_at t)))), a, v.
    repeat split; [done|]. exists v'. rewrite Eb. by destruct a, b.
  - by repeat case_match.
Qed.
Lemma refinements_failure x ms e : refinements x ms = Raise e → ∃ t, t ∈ ms ∧ evaluate_relation x t = Raise e.
Proof.
  induction ms as [|m ms IH]; simpl; [done|]. unfold mbind, result_bind.
  destruct (evaluate_relation x m) as [g|e'] eqn:E; [|intros [= <-]; exists m; split; [by left|done]].
  destruct (refinements x ms) as [l|e']; [done|]. intros [= <-]. destruct (IH eq_refl) as (t & Ht & ?).
  exists t. split; [by right|done].
Qed.

(** The adjudication fails only when the candidate and a memory with its key carry times of different kinds, one with an offset and one without: the comparison raises a TypeError, which the handler of malformed times does not catch. *)
Theorem adjudication_fails_only_on_mixed_times id x ms e : adjudicate_memory id x ms = Raise e →
  e = TypeError "can't compare offset-naive and offset-aware datetimes"
  ∧ ∃ t, t ∈ ms ∧ same_key (x_candidate x) t = true ∧ mixed_times (x_candidate x) t.
Proof.
  assert (∀ t, t ∈ ms → evaluate_relation x t = Raise e → e = TypeError "can't compare offset-naive and offset-aware datetimes"
    ∧ ∃ t, t ∈ ms ∧ same_key (x_candidate x) t = true ∧ mixed_times (x_candidate x) t) as Hone.
  { intros t Ht Hg. destruct (guard_failure x t e Hg) as (-> & ? & ?). split; [done|]. by exists t. }
  unfold adjudicate_memory. destruct (negb _); [done|]. case_bool_decide as Hms; [done|]. destruct (String.eqb _ "semantic"); [done|].
  destruct (if existsb _ ms then None else _); [done|]. destruct (_ && _).
  - unfold adjudicate_v3. destruct (String.eqb _ "semantic"); [done|]. destruct (1 <? _)%nat; [done|].
    destruct (if String.eqb _ "preference" then preference_conflicts _ ms else []); [|done].
    destruct (exact_matches _ ms) as [|a more] eqn:E.
    + destruct (if String.eqb _ "preference" then structured_preference id x ms else None); [done|].
      unfold decide_refinement, mbind, result_bind. destruct (refinements x ms) as [l|e'] eqn:Hl.
      * destruct l as [|a more]; [done|]. destruct (_ && _); [done|].
        destruct (refinements_spec x ms _ Hl _ (max_by_in (less_similar x) a more)) as [_ (g & Hg & _)]. by rewrite Hg.
      * intros [= <-]. destruct (refinements_failure x ms _ Hl) as (t & Ht & Hg). eauto.
    + unfold mbind, result_bind. destruct (evaluate_relation _ _) eqn:Hg; [done|]. intros [= <-].
      unfold exact_matches in E. destruct (max_by_from older _ _ _ _ E). eauto.
  - unfold adjudicate_unguarded. destruct (comparable_memories _ ms) as [[|a more]|] eqn:E; [|done..].
    by destruct (comparable_some (x_candidate x) ms Hms).
Qed.

(** [classify_relation] knows no word for two of the relations. *)
Lemma classification_gap id x ms d : adjudicate_memory id x ms = Ok d →
  d_relation d = "ambiguous_match" ∨ d_relation d = "update" → classify_relation id x ms = Raise (KeyError (d_relation d)).
Proof. unfold classify_relation. intros -> Hr. unfold mbind, result_bind. by destruct Hr as [-> | ->]. Qed.
End spec.

(** * Concrete runs *)

Module Example.
#[local] Existing Instance test_platform.
#[local] Existing Instance test_rules.
#[local] Existing Instance ascii_tables.
#[local] Existing Instance test_scopes.

(** Times of two characters; a time that starts with [+] has an offset. *)
Definition test_adjudication : AdjudicationEnv := {|
  read_moment := λ text,
    match chars text with
    | ["+"; d] => option_map (λ n, (true, n)) (int_value d)
    | [d] => option_map (λ n, (false, n)) (int_value d)
    | _ => None
    end;
  identity_model := λ _ _, None;
  STRONG_ESCALATION_ENABLED := false;
  MEMORY_RELATION_GUARD_V3_ENABLED := true;
  MEMORY_AUTO_MUTATION_MIN_CONFIDENCE := 3 # 4;
|}.
#[local] Existing Instance test_adjudication.

Definition said (memory_type content status key scope : string) (confidence : Q) : extracted :=
  Extracted (Candidate "cand" memory_type content (1 # 2) confidence
      (if String.eqb status "" then None else Some status) (Some "user") (Some "report") None None None (Some key)
      "memory-key-v3" None scope)
    (Some "note") true None (Some 0) None [] (ScopeKeys false false "" "").
Definition known (id memory_type content status key scope : string) : memory :=
  Memory id "space" memory_type content (normalize_content content) (1 # 2) (1 # 2) "active"
    (if String.eqb status "" then None else Some status) (Some "user") (Some "report") None (Some key) "memory-key-v3" None scope
    None None None "3" "3" None 0 4.
Definition action_of (r : result decision) : string := match r with Ok d => d_recommended_action d | Raise e => exn_type e end.
Definition decided (x : extracted) (ms : list memory) : decision :=
  match adjudicate_memory "dec" x ms with Ok d => d | Raise _ => Decision "" "" "" [] 0 "" "" None end.

(** A task that is finished, and one of another day *)
Definition tasks : list memory := [known "m1" "task" "write the report" "todo" "k" ""; known "m2" "task" "call home" "todo" "k2" ""].
Definition finishing : extracted := said "task" "the report is written" "done" "k" "" (9 # 10).
Definition reopening (text : string) : extracted := said "task" text "todo" "k" "" (9 # 10).

Example decisions :
  map (λ x, action_of (adjudicate_memory "dec" x tasks))
    [finishing; said "task" "the report is written" "done" "k" "" (1 # 10); said "task" "buy milk" "todo" "k3" "" (9 # 10);
     said "task" "the report" "done" "k" "observed_at=1" (9 # 10); said "semantic" "lives in Rome" "" "k" "" (9 # 10)]
  = ["update_task"; "pending_review"; "insert"; "pending_review"; "add_source"].
Proof. vm_compute. reflexivity. Qed.

(** A finished task is reopened by a text that says so only. *)
Definition finished : list memory := [known "m1" "task" "write the report" "done" "k" ""].
Example reopened :
  map (λ text, action_of (adjudicate_memory "dec" (reopening text) finished)) ["write the report"; "重新 write the report"]
  = ["pending_review"; "update_task"].
Proof. vm_compute. reflexivity. Qed.
(** A time with an offset against one without *)
Definition mixed : extracted := said "task" "the report is written" "done" "k" "observed_at=+1" (9 # 10).
(** Two tasks with the key of the candidate *)
Definition twins : list memory := [known "m1" "task" "write the report" "todo" "k" ""; known "m3" "task" "the report" "todo" "k" ""].
Example unknown_to_the_classifier : classify_relation "dec" finishing twins = Raise (KeyError "ambiguous_match").
Proof. vm_compute. reflexivity. Qed.

Lemma decided_finishing : adjudicate_memory "dec" finishing tasks = Ok (decided finishing tasks).
Proof. vm_compute. reflexivity. Qed.

Lemma decisions_are_well_formed_witness :
  d_target_snapshot_version (decided finishing tasks) = Some 4
  ∧ py_in (d_recommended_action (decided finishing tasks)) DECISION_ACTIONS = true.
Proof.
  split; [vm_compute; reflexivity|].
  apply (decisions_are_well_formed "dec" finishing tasks (decided finishing tasks) decided_finishing).
Defined.
Lemma memories_change_with_authority_witness :
  d_recommended_action (decided finishing tasks) = "update_task"
  ∧ (MEMORY_AUTO_MUTATION_MIN_CONFIDENCE <= d_confidence (decided finishing tasks))%Q.
Proof.
  split; [vm_compute; reflexivity|].
  refine (proj1 (memories_change_with_authority "dec" finishing tasks (decided finishing tasks) decided_finishing _)).
  vm_compute. reflexivity.
Defined.
Lemma facts_are_append_only_witness :
  c_memory_type (x_candidate (said "semantic" "lives in Rome" "" "k" "" (9 # 10))) = "semantic"
  ∧ ∃ d, adjudicate_memory "dec" (said "semantic" "lives in Rome" "" "k" "" (9 # 10)) tasks = Ok d.
Proof.
  split; [reflexivity|].
  destruct (facts_are_append_only "dec" (said "semantic" "lives in Rome" "" "k" "" (9 # 10)) tasks eq_refl) as (d & Hd & _).
  by exists d.
Defined.
Lemma adjudication_fails_only_on_mixed_times_witness :
  action_of (adjudicate_memory "dec" mixed tasks) = "TypeError"
  ∧ ∃ t, t ∈ tasks ∧ same_key (x_candidate mixed) t = true ∧ mixed_times (x_candidate mixed) t.
Proof.
  split; [vm_compute; reflexivity|].
  refine (proj2 (adjudication_fails_only_on_mixed_times "dec" mixed tasks
    (TypeError "can't compare offset-naive and offset-aware datetimes") _)). vm_compute. reflexivity.
Defined.
End Example.
