(* ===== verification/MemoryExtraction.v ===== *)
(** From a note to its memories ([memory/service.py], [memory/consolidator.py],
    [memory/evolution.py]): the state of the extraction, the candidates and their consolidation,
    and the daily pass over the notes.

    What the model of language or the patterns extract from a note, and how a candidate is
    related to the memories (retrieval by scores, adjudication by patterns), are arbitrary
    functions of the arguments and the database.  The optional parts - facts, cards - are off, as
    by default; traces and reports to the log are left out. *)

From stdpp Require Import base list strings pretty.
From Stdlib Require Import ZArith Lia.
From S2P Require Import Prelude Consistency MemoryText Memory MemoryOps MemoryRuns CandidateValidation.

Open Scope string_scope.
Open Scope Z_scope.

(** A note of the index; [no_rest] are the title, the tags and the messages before it. *)
Record note := MkNote {
  no_id : string;
  no_space_id : string;
  no_text : string;
  no_rest : string;
  no_queryable : bool;
}.

(** A candidate as the adjudication leaves it, its decision, and the memories it was compared with. *)
Record related := Related { rl_candidate : extracted; rl_decision : decision; rl_similar : list memory }.

Class ExtractionEnv := {
  extraction_rules :: ValidationRules;
  MEMORY_EXTRACTOR_MODE : string;
  may_contain_memory : note → bool;
  extract_candidates : note → database → result (list extracted);
  relate : string → string → extracted → database → result related;
  coordinated_memory_lock : string → string → database → result unit;
  uuid5_hex : string → string;
}.

(** An element of [results]: the candidate was decided before, or now. *)
Inductive outcome := Earlier (candidate_id status : string) | Decided (r : applied).

(** The dictionary that [process_note_memory] returns. *)
Record report := Report {
  rp_candidates : Z;
  rp_results : list outcome;
  rp_errors : list string;
  rp_status : string;
  rp_idempotent : bool;
}.

Section extraction.
Context `{Platform, TextRules, RunEnv, ExtractionEnv}.

(** ** Identifiers of candidates ([memory/models.py]) *)

Definition US : string := String (Ascii.ascii_of_N 31) EmptyString.
Definition candidate_id_for (note_id memory_type content : string) : string :=
  "cand_" +:+ str_take 16 (uuid5_hex (note_id +:+ US +:+ memory_type +:+ US +:+ normalize_content content)).
Definition candidate_id_for_evidence (note_id memory_type content : string) (memory_key evidence_span : option string)
    (clause_index : option Z) : string :=
  "cand_" +:+ str_take 16 (uuid5_hex
    (note_id +:+ US +:+ match clause_index with Some i => pretty i | None => "" end +:+ US +:+ memory_type +:+ US
     +:+ default "" memory_key +:+ US +:+ normalize_content (opt_or evidence_span content))).

(** The candidates of a note get its ids. *)
Definition enriched (n : note) (x : extracted) : extracted :=
  let c := x_candidate x in
  let id := if bool_decide (x_note_id x = Some (no_id n)) then c_candidate_id c
            else match x_clause_index x with
                 | Some _ => candidate_id_for_evidence (no_id n) (c_memory_type c) (c_content c)
                               (Some (effective_memory_key c)) (x_evidence_span x) (x_clause_index x)
                 | None => candidate_id_for (no_id n) (c_memory_type c) (c_content c)
                 end in
  x <| x_candidate := c <| c_candidate_id := id |> |> <| x_note_id := Some (no_id n) |>.

(** ** Consolidating a candidate *)

(** [save_memory_candidate], [mark_memory_candidate], [get_memory_candidate_status] with their clock *)
Definition save_candidate (space_id status : string) (c : candidate) : IO database unit :=
  now ← read_now; in_store (save_memory_candidate space_id status c None None (now_iso now)).
Definition mark_candidate (candidate_id status : string) (error decision_id : option string) : IO database bool :=
  now ← read_now; in_store (mark_memory_candidate candidate_id status error decision_id (now_iso now)).
Definition candidate_row_of (candidate_id : string) (s : store) : option candidate_row :=
  List.find (λ r, String.eqb (c_candidate_id (cr_candidate r)) candidate_id) (memory_candidates s).
Definition get_memory_candidate_status (candidate_id : string) : IO database (option string) :=
  io_gets (λ s, option_map cr_status (candidate_row_of candidate_id (memory_store s))).

(** [evolve_memory] *)
Definition evolve_memory (space_id note_id : string) (c : candidate) (d : decision) : IO database applied :=
  merged_content ←
    match d_target_memory_ids d with
    | target_id :: _ =>
        if String.eqb (d_recommended_action d) "merge" then
          target ← io_gets (λ s, get_memory target_id (memory_store s));
          match target with
          | None => throw (ValueError ("merge target not found: " +:+ target_id))
          | Some target => mret (Some (merge_content (c_memory_type c) (mm_content target) (c_content c)))
          end
        else mret None
    | [] => mret None
    end;
  now ← read_now;
  in_store (apply_memory_decision space_id note_id c d merged_content (now_iso now)).

(** A change of one memory keeps its key. *)
Definition candidate_for_evolution (r : related) : candidate :=
  let c := x_candidate (rl_candidate r) in
  match d_target_memory_ids (rl_decision r) with
  | [target_id] =>
      if py_in (d_recommended_action (rl_decision r)) ["update_task"; "update"; "merge"] then
        match List.find (λ m, String.eqb (mm_id m) target_id) (rl_similar r) with
        | Some m => c <| c_memory_key := mm_memory_key m |> <| c_memory_key_version := mm_memory_key_version m |>
        | None => c
        end
      else c
  | _ => c
  end.

(** [_consolidate_candidate_standard] *)
Definition consolidate_candidate (space_id note_id : string) (x : extracted) : IO database applied :=
  related ← io_gets (relate space_id note_id x);
  r ← io_lift related;
  result ← evolve_memory space_id note_id (candidate_for_evolution r) (rl_decision r);
  let antecedent := sc_antecedent (x_scope (rl_candidate r)) in
  let memory_id := default "" (ap_memory_id result) in
  if negb (String.eqb antecedent "") && negb (String.eqb memory_id "") then
    now ← read_now;
    in_store (add_source memory_id antecedent "supported_by" (now_iso now));;
    mret result
  else mret result.

(** ** The candidates of a note *)

Definition final_status (r : applied) : string :=
  if String.eqb (ap_action r) "pending_review" then "pending_review"
  else if String.eqb (ap_action r) "discard" then "discarded" else "applied".

(** The body of the [try] of a candidate. *)
Definition decide_candidate (n : note) (x : extracted) : IO database applied :=
  let id := c_candidate_id (x_candidate x) in
  mark_candidate id "validated" None None;;
  mark_candidate id "processing" None None;;
  lock ← io_gets (coordinated_memory_lock (no_space_id n) (effective_memory_key (x_candidate x)));
  io_lift lock;;
  result ← consolidate_candidate (no_space_id n) (no_id n) x;
  mark_candidate id (final_status result) None (Some (ap_decision_id result));;
  mret result.

Definition process_candidate (n : note) (acc : list outcome * list string) (x : extracted) :
    IO database (list outcome * list string) :=
  let id := c_candidate_id (x_candidate x) in
  existing_status ← get_memory_candidate_status id;
  let existing := default "" existing_status in
  if py_in existing ["applied"; "pending_review"; "discarded"] then mret ((acc.1 ++ [Earlier id existing])%list, acc.2)
  else
    try_except (decide_candidate n x)
      (λ e, mark_candidate id "failed" (Some (describe e)) None;; mret (acc.1, (acc.2 ++ [describe e])%list))
      (λ r, mret ((acc.1 ++ [Decided r])%list, acc.2)).

(** The parts of [_process_note_memory_impl] *)
Definition finish_empty (n : note) : IO database report :=
  mark_extraction_empty (no_id n) (no_space_id n);; mret (Report 0 [] [] "empty" false).

Definition finish (n : note) (count : Z) (acc : list outcome * list string) : IO database report :=
  match acc.2, acc.1 with
  | _ :: _, _ :: _ =>
      mark_extraction_partial (no_id n) (no_space_id n) count (Z.of_nat (length acc.1)) (String.concat "; " acc.2);;
      mret (Report count acc.1 acc.2 "partial" false)
  | _ :: _, [] =>
      mark_extraction_failed (no_id n) (no_space_id n) (String.concat "; " acc.2);;
      throw (RuntimeError (String.concat "; " acc.2))
  | [], _ =>
      mark_extraction_completed (no_id n) (no_space_id n) count (Z.of_nat (length acc.1));;
      mret (Report count acc.1 [] "completed" false)
  end.

Definition extract_and_consolidate (n : note) : IO database report :=
  mark_extraction_processing (no_id n) (no_space_id n);;
  reply ← io_gets (extract_candidates n);
  extracted_candidates ← io_lift reply;
  let enriched_candidates := map (enriched n) extracted_candidates in
  io_for enriched_candidates tt (λ _ x, save_candidate (no_space_id n) "extracted" (x_candidate x));;
  let '(candidates, rejections) := validate_candidates enriched_candidates (no_text n) in
  io_for rejections tt (λ _ r, mark_candidate (rj_candidate_id r) "discarded" (Some (rj_reason r)) None;; mret tt);;
  match candidates with
  | [] => finish_empty n
  | _ =>
      acc ← io_for candidates ([], []) (process_candidate n);
      finish n (Z.of_nat (length candidates)) acc
  end.

Definition process_new (n : note) : IO database report :=
  if String.eqb MEMORY_EXTRACTOR_MODE "rules" && negb (may_contain_memory n) then
    mark_extraction_empty_attempt (no_id n) (no_space_id n);; mret (Report 0 [] [] "empty" false)
  else extract_and_consolidate n.

Definition is_settled (x : extraction_state) : bool := py_in (xs_status x) ["completed"; "empty"].

Definition process_note_body (n : note) (force : bool) : IO database report :=
  if contains_sensitive_data (no_text n) then finish_empty n
  else
    existing ← (if String.eqb (no_id n) "" then mret None else get_extraction_state (no_id n));
    match existing with
    | Some x =>
        if is_settled x && negb force
        then mret (Report (xs_candidate_count x) [] [] (xs_status x) true)
        else process_new n
    | None => process_new n
    end.

(** [process_note_memory]: an exception leaves the state as failed. *)
Definition process_note_memory (n : note) (force : bool) : IO database report :=
  try_except (process_note_body n force)
    (λ e,
      current ← get_extraction_state (no_id n);
      let unfinished := match current with Some x => String.eqb (xs_status x) "processing" | None => true end in
      (if unfinished then mark_extraction_failed (no_id n) (no_space_id n) (describe e);; mret tt else mret tt);;
      throw e)
    mret.

(** ** The daily pass ([process_unextracted_notes]) *)

Record pass := Pass { ps_processed : list (string * string); ps_failed : list (string * string); ps_skipped : Z }.

(** Shall the note be processed: a note that is settled or worked on is left alone. *)
Definition claim_note (space_id : string) (n : note) : IO database bool :=
  if negb (no_queryable n) || String.eqb (no_id n) "" then mret false
  else
    state ← get_extraction_state (no_id n);
    match state with
    | None => mret true
    | Some x =>
        if is_settled x then mret false
        else if String.eqb (xs_status x) "processing" then
          now ← read_now;
          if negb (is_stale (Some (xs_updated_at x)) MEMORY_EXTRACTION_LEASE_SECONDS (now_time now)) then mret false
          else mark_extraction_failed (no_id n) space_id "stale processing lease expired";; mret true
        else mret true
    end.

Definition pass_note (space_id : string) (p : pass) (n : note) : IO database pass :=
  claimed ← claim_note space_id n;
  if negb claimed then mret (Pass (ps_processed p) (ps_failed p) (ps_skipped p + 1))
  else
    try_except (process_note_memory n false)
      (λ e, mret (Pass (ps_processed p) (ps_failed p ++ [(no_id n, describe e)])%list (ps_skipped p)))
      (λ r, mret (Pass (ps_processed p ++ [(no_id n, rp_status r)])%list (ps_failed p) (ps_skipped p))).

Definition process_unextracted_notes (space_id : string) (index : list note) (limit : Z) : IO database pass :=
  io_for (take (Z.to_nat (Z.max 1 (Z.min limit 500))) index) (Pass [] [] 0) (pass_note space_id).
Definition pass_status (p : pass) : string := match ps_failed p with [] => "completed" | _ => "partial" end.
End extraction.
