(* ===== verification/Consolidation.v ===== *)
(** From a candidate to its decision ([memory/consolidator.py]): the memories it is compared with,
    the adjudication, and the search for the task that a completion ends.  [relate_candidate]
    is the part of [_consolidate_candidate_standard] before the store is changed, which
    [MemoryExtraction] asks for as [relate]. *)

From stdpp Require Import base list strings.
From Stdlib Require Import ZArith Lia QArith Qminmax Qround Lqa.
From S2P Require Import Prelude Consistency TextChunks Regex MemoryText Memory MemoryOps MemoryRuns CandidateValidation PreferencePolicy TaskIdentity CandidateRetrieval Adjudication AdjudicationSpec MemoryExtraction.

Open Scope string_scope.
Open Scope Z_scope.

(** Changing a scope: the keys of the first list are dropped, those of the second are set. *)
Class ScopeEdit := { scope_edit : string → list string → list (string * string) → string }.

(** [maybe_memory_relation_advisory]: the exception that the call of the model raises, if any.  Its
    reply is only recorded in the trace. *)
Class AdvisoryEnv := { relation_advisory : extracted → list memory → decision → option exn }.

(** [_TaskMatch] *)
Record task_match := TaskMatch { tm_memory : memory; tm_kind : string; tm_score : Q }.

Section matching.
Context `{Platform, TextRules, Unicode, ScopeJson}.

Definition longest (texts : list string) : string :=
  match texts with
  | [] => ""
  | t :: ts => max_by (λ a b, (length (chars a) <? length (chars b))%nat) t ts
  end.
Definition task_topic (t : task_view) : string :=
  longest (map normalize_content (List.filter (λ item, negb (String.eqb (py_strip item) ""))
    [scope_get (tv_scope t) "canonical_topic"; opt_or (tv_predicate t) ""; opt_or (tv_object_value t) ""; tv_content t])).
Definition task_topic_similarity (left right : string) : Q :=
  if String.eqb left "" || String.eqb right "" then 0
  else
    let l := remove_word left "的" in
    let r := remove_word right "的" in
    if String.eqb l r || ends_with r l || ends_with l r then 1
    else
      let ls := dedupe (chars l) in
      let rs := dedupe (chars r) in
      if bool_decide (ls = []) || bool_decide (rs = []) then 0 else overlap ls rs.

(** [(?:a|b)$]: the text after its longest such ending is removed *)
Definition cut_ending (endings : list string) (text : string) : string :=
  match first_at (λ cs, if py_in (join cs) endings then Some tt else None) 0 (chars text) with
  | Some (i, _) => join (take i (chars text))
  | None => text
  end.
Definition MARKS : string := " ，,。.!！?？；;：:".
Definition FINISHED_ENDINGS : list string :=
  (flat_map (λ prefix, map (String.append prefix) ["完成"; "做完"; "搞定"; "处理完"; "修复完"; "提交完"]) ["已经"; "已"; ""]
   ++ ["正在"; "需要"; "要"; "准备"])%list.
Definition task_identity_anchor (value : string) : string :=
  let compact := remove_word (strip_set MARKS (normalize_content value)) "的" in
  let compact := strip_start ["我"; "用户"; "需要"; "要"; "想要"; "准备"; "记得"; "正在"; "已经"; "已"] compact in
  let compact := cut_ending FINISHED_ENDINGS compact in
  let compact := strip_start ["完成"; "做完"; "搞定"; "处理"; "修复"; "提交"; "编写"; "制作"; "完善"; "部署"] compact in
  strip_set MARKS compact.

Definition same_normalized (a b : option string) : bool :=
  String.eqb (normalize_content (opt_or a "")) (normalize_content (opt_or b "")).
Definition task_match_kind (x : extracted) (m : memory) : option (string * Q) :=
  let c := x_candidate x in
  if negb (both_of "task" c m) then None
  else if negb (same_scope_text "scope" "global" c m) then None
  else if same_key c m then Some ("exact_key", 1%Q)
  else if same_normalized (c_subject c) (mm_subject m) && same_normalized (c_predicate c) (mm_predicate m)
          && same_scope_text "operation" "" c m && truthy (c_subject c) && truthy (c_predicate c)
  then Some ("structured_identity", 98 # 100)
  else if task_family_compatible c m then Some ("identity_compatible", 92 # 100)
  else if same_normalized (c_subject c) (mm_subject m) then
    let candidate_anchor := task_identity_anchor (str_or (c_content c) (opt_or (x_evidence_span x) "")) in
    let memory_anchor := task_identity_anchor (mm_content m) in
    if negb (String.eqb candidate_anchor "") && negb (String.eqb memory_anchor "")
       && Qle_bool (82 # 100) (task_topic_similarity candidate_anchor memory_anchor)
    then Some ("identity_compatible", 90 # 100)
    else
      let candidate_attribute := remove_word (normalize_content (opt_or (c_predicate c) "")) "的" in
      let memory_attribute := remove_word (normalize_content (opt_or (mm_predicate m) "")) "的" in
      if ends_with memory_attribute candidate_attribute || ends_with candidate_attribute memory_attribute
      then Some ("identity_compatible", 94 # 100)
      else
        let score := task_topic_similarity (task_topic (candidate_task c)) (task_topic (memory_task m)) in
        if Qle_bool (72 # 100) score then Some ("fuzzy_topic", score) else None
  else None.

Definition kind_rank (kind : string) : nat :=
  if String.eqb kind "exact_key" then 4 else if String.eqb kind "structured_identity" then 3
  else if String.eqb kind "identity_compatible" then 2 else 1.
Definition match_lt (a b : task_match) : bool :=
  (kind_rank (tm_kind a) <? kind_rank (tm_kind b))%nat
  || ((kind_rank (tm_kind a) =? kind_rank (tm_kind b))%nat
      && score_lt (tm_score a, mm_updated_at (tm_memory a)) (tm_score b, mm_updated_at (tm_memory b))).
Definition matched_task_memories (x : extracted) (ms : list memory) : list task_match :=
  sort_down match_lt (omap (λ m, option_map (λ k, TaskMatch m k.1 k.2) (task_match_kind x m))
    (first_by_id (List.filter (λ m, bool_decide (is_Some (task_match_kind x m))) ms))).

(** ** A completion without a task *)

Definition completion_event_topic (x : extracted) : string :=
  let c := x_candidate x in
  let source := py_strip (opt_or (x_evidence_span x) (c_content c)) in
  let compact := py_strip (strip_one ["今天"; "昨天"; "前天"; "刚才"; "上周"; "本周"; "上午"; "下午"; "晚上"; "最近"] source) in
  let compact := py_strip (strip_one ["我"; "我们"; "用户"] compact) in
  let compact := match List.find (λ w, str_contains w compact) ["完成"; "做完"; "搞定"; "提交"; "恢复"; "学完"; "弄好"; "发布"] with
                 | Some w => match find_word w (chars compact) with
                             | Some i => join (drop i (chars compact))
                             | None => compact
                             end
                 | None => compact
                 end in
  str_or (strip_set " ：:，,。！？!?；;" compact) (normalize_content (opt_or (c_object_value c) source)).

Definition DROPPED_KEYS : list string :=
  ["operation"; "task_status"; "old_value"; "new_value"; "closure_reason"; "task_family_key"; "blocker"; "progress_note"].
Context `{ScopeEdit, ValidationRules}.
Definition convert_orphan_done_task_to_episodic (x : extracted) : extracted :=
  let c := x_candidate x in
  let source := py_strip (opt_or (x_evidence_span x) (c_content c)) in
  let topic := py_strip (str_or (completion_event_topic x) (opt_or (c_object_value c) source)) in
  let related_task_family_key := py_strip (scope_get (c_scope c) "task_family_key") in
  let scope := scope_edit (c_scope c) DROPPED_KEYS
    ([("canonical_topic", topic); ("new_value", topic); ("scope", "history"); ("derived_from", "orphan_completion")]
     ++ (if String.eqb related_task_family_key "" then [] else [("related_task_family_key", related_task_family_key)]))%list in
  canonicalize_candidate
    (x <| x_candidate := c <| c_memory_type := "episodic" |> <| c_content := source |> <| c_subject := Some "用户" |>
            <| c_predicate := Some "event" |> <| c_object_value := Some topic |> <| c_task_status := None |>
            <| c_memory_key := None |> <| c_memory_key_version := "memory-key-v3" |> <| c_scope := scope |> |>
       <| x_evidence_span := Some source |>
       <| x_scope := ScopeKeys (sc_unresolved_reason (x_scope x)) (sc_preference_error (x_scope x)) "" (sc_antecedent (x_scope x)) |>).
End matching.

(** * The decision on a candidate *)

Section consolidation.
Context `{Platform, TextRules, Unicode, ScopeJson, ScopeEdit, ValidationRules, AdjudicationEnv, RetrievalEnv, AdvisoryEnv}.
(** The identifiers drawn and the times read *)
Variable decision_ids : nat → string.
Variable times : nat → string.

(** [_done_decision] *)
Definition done_decision (x : extracted) (matches : list task_match) (relation action reason : string) : decision :=
  Decision (decision_ids 1%nat) (c_candidate_id (x_candidate x)) relation (map (λ t, mm_id (tm_memory t)) matches)
    (Qmax (8 # 10) (c_confidence (x_candidate x))) reason action
    (match matches with [t] => Some (mm_current_version (tm_memory t)) | _ => None end).
Definition update_existing_task_to_done (x : extracted) (t : task_match) : decision :=
  done_decision x [t] "update_task" "update_task" "completion_claim".
Definition add_source_or_noop (x : extracted) (t : task_match) : decision :=
  done_decision x [t] "same" "add_source" "duplicate_done_completion".

(** The candidate gets the key of the memory it changes. *)
Definition with_key_of (m : memory) (x : extracted) : extracted :=
  x <| x_candidate := x_candidate x <| c_memory_key := mm_memory_key m |> <| c_memory_key_version := mm_memory_key_version m |> |>.

Definition is_completion (c : candidate) : bool :=
  String.eqb (c_memory_type c) "task" && bool_decide (c_task_status c = Some "done").

(** A completion that would be inserted looks for the task that it ends. *)
Definition relate_completion (space_id : string) (x : extracted) (similar : list memory) (rows : list memory) : result related :=
  match matched_task_memories x (list_memories space_id (Some "active") (Some "task") None false 200 (times 1%nat) rows) with
  | [] =>
      let x := convert_orphan_done_task_to_episodic x in
      let similar := retrieve_candidates space_id x None (times 2%nat) rows in
      d ← adjudicate_memory (decision_ids 1%nat) x similar;
      Ok (Related x (d <| d_reason := "orphan_completion_converted_to_episodic" |>) similar)
  | [t] =>
      if String.eqb (tm_kind t) "fuzzy_topic"
      then Ok (Related x (done_decision x [t] "ambiguous_match" "pending_review" "completion_requires_unambiguous_task_identity") similar)
      else
        let x := with_key_of (tm_memory t) x in
        Ok (Related x (if bool_decide (mm_task_status (tm_memory t) = Some "todo") then update_existing_task_to_done x t
                       else add_source_or_noop x t) similar)
  | matches =>
      Ok (Related x (done_decision x matches "ambiguous_match" "pending_review" "completion_requires_unambiguous_task_identity") similar)
  end.

Definition HIGH_RISK_ACTIONS : list string := ["supersede"; "conflict"; "pending_review"; "merge"].
Definition advised (r : related) : result related :=
  if STRONG_ESCALATION_ENABLED && py_in (d_recommended_action (rl_decision r)) HIGH_RISK_ACTIONS
  then match relation_advisory (rl_candidate r) (rl_similar r) (rl_decision r) with
       | Some e => Raise e
       | None => Ok r
       end
  else Ok r.

Definition relate_candidate (space_id : string) (x : extracted) (rows : list memory) : result related :=
  let similar := retrieve_candidates space_id x None (times 0%nat) rows in
  d ← adjudicate_memory (decision_ids 0%nat) x similar;
  r ← (if is_completion (x_candidate x) && String.eqb (d_recommended_action d) "insert"
       then relate_completion space_id x similar rows
       else Ok (Related x d similar));
  advised r.
End consolidation.

(** What the consolidation promises: the memories a candidate is compared with and may change are
    open memories of its space and type, few of them, and a completion never makes a new task. *)

(** [m] is read from an open row of the space. *)
Definition open_memory `{Platform} (space_id memory_type now : string) (rows : list memory) (m : memory) : Prop := ∃ row,
  row ∈ rows ∧ m = memory_from_row row ∧ mm_space_id row = space_id ∧ mm_status row = "active"
  ∧ mm_memory_type row = memory_type ∧ not_expired now row = true.

Section retrieval.
Context `{Platform, TextRules, Unicode, ScopeJson, RetrievalEnv}.
Implicit Types (x : extracted) (rows ms : list memory) (m : memory).

Lemma elem_of_sort_down {A} (lt : A → A → bool) l a : a ∈ sort_down lt l ↔ a ∈ l.
Proof. apply elem_of_sort_by. Qed.
Lemma elem_of_latest limit p rows m : m ∈ latest limit p rows → m ∈ rows ∧ p m = true.
Proof. unfold latest, recent_first. intros Hm%in_take%elem_of_sort_down. by apply elem_of_select. Qed.
Lemma latest_length limit p rows : (length (latest limit p rows) ≤ Z.to_nat limit)%nat.
Proof. unfold latest. rewrite length_take. lia. Qed.

Lemma first_by_id_in rows m : m ∈ first_by_id rows → m ∈ rows.
Proof.
  unfold first_by_id. enough (∀ kept, m ∈ fold_left (λ kept m, if existsb (λ k, String.eqb (mm_id k) (mm_id m)) kept then kept
    else (kept ++ [m])%list) rows kept → m ∈ kept ∨ m ∈ rows) as Hg by (intros Hm; by destruct (Hg [] Hm) as [?%elem_of_nil|]).
  induction rows as [|a rows IH]; intros kept; simpl; [auto|]. intros Hm%IH. rewrite elem_of_cons.
  destruct (existsb _ _); [tauto|]. rewrite elem_of_app, list_elem_of_singleton in Hm. tauto.
Qed.

Lemma list_memories_open space_id memory_type limit now rows m : memory_type ≠ "" →
  m ∈ list_memories space_id (Some "active") (Some memory_type) None false limit now rows →
  open_memory space_id memory_type now rows m.
Proof.
  intros Hne. unfold list_memories. intros (row & -> & [Hr Hp]%elem_of_latest)%list_elem_of_fmap. exists row.
  unfold truthy in Hp. simpl in Hp. apply String.eqb_neq in Hne. rewrite Hne in Hp. simpl in Hp.
  repeat rewrite andb_true_iff in Hp. rewrite !String.eqb_eq in Hp. tauto.
Qed.
Lemma is_open_memory space_id memory_type now rows row : row ∈ rows → is_open space_id memory_type now row = true →
  open_memory space_id memory_type now rows (memory_from_row row).
Proof.
  intros Hr Hp. unfold is_open in Hp. repeat rewrite andb_true_iff in Hp. rewrite !String.eqb_eq in Hp.
  exists row. tauto.
Qed.

Lemma hybrid_rows_open space_id x limit now rows m : m ∈ hybrid_rows space_id x limit now rows →
  m ∈ rows ∧ is_open space_id (c_memory_type (x_candidate x)) now m = true.
Proof.
  unfold hybrid_rows. rewrite !elem_of_app. intros [Hm|[Hm|Hm]].
  - apply elem_of_latest in Hm as [? [? _]%andb_true_iff]. done.
  - destruct (structured_filter x) as [|p ps]; [by apply elem_of_nil in Hm|].
    apply elem_of_latest in Hm as [? [? _]%andb_true_iff]. done.
  - destruct (String.eqb _ "task") eqn:E; [|by apply elem_of_nil in Hm]. apply String.eqb_eq in E. rewrite E.
    by apply elem_of_latest in Hm.
Qed.

Lemma found_open space_id x limit now rows m : c_memory_type (x_candidate x) ≠ "" →
  m ∈ (if String.eqb MEMORY_RETRIEVAL_MODE "hybrid" then hybrid_adjudication_candidates space_id x limit now rows
       else list_adjudication_candidates space_id (c_memory_type (x_candidate x)) (effective_memory_key (x_candidate x)) 200 now rows) →
  open_memory space_id (c_memory_type (x_candidate x)) now rows m.
Proof.
  intros Hty. destruct (String.eqb _ "hybrid").
  - unfold hybrid_adjudication_candidates. set (found := map memory_from_row _). intros Hm%in_take.
    assert (m ∈ found) as Hin.
    { destruct (List.filter _ found) eqn:E; [done|]. rewrite <- E in Hm. by apply filter_part in Hm. }
    apply list_elem_of_fmap in Hin as (row & -> & [Hr Ho]%first_by_id_in%hybrid_rows_open). by apply is_open_memory.
  - unfold list_adjudication_candidates. intros Hm%elem_of_sort_down. by eapply list_memories_open.
Qed.

(** The bound of [retrieve_candidates] *)
Lemma retrieved_few space_id x limit now rows : (length (retrieve_candidates space_id x limit now rows) ≤ 20)%nat.
Proof.
  unfold retrieve_candidates. destruct (String.eqb _ "semantic"); [rewrite length_take; lia|].
  rewrite length_map. etransitivity; [apply List.filter_length_le|]. rewrite length_take. lia.
Qed.
Lemma retrieved_open space_id x limit now rows m : c_memory_type (x_candidate x) ≠ "" →
  m ∈ retrieve_candidates space_id x limit now rows → open_memory space_id (c_memory_type (x_candidate x)) now rows m.
Proof.
  intros Hty. unfold retrieve_candidates. destruct (String.eqb (c_memory_type _) "semantic").
  - intros Hm%in_take%filter_part. by eapply found_open.
  - intros (e & -> & He)%list_elem_of_fmap. apply list_elem_of_In, filter_In in He as [He%list_elem_of_In _].
    apply in_take, elem_of_sort_down, list_elem_of_fmap in He as (m & -> & Hm). by eapply found_open.
Qed.
End retrieval.

(** * Scores *)

Lemma ratio_bounds a b : (a ≤ b)%nat → (0 <= ratio a b <= 1)%Q.
Proof.
  intros Hab. unfold ratio. destruct b as [|b].
  - replace a with 0%nat by lia. by vm_compute.
  - assert (0 < inject_Z (Z.of_nat (S b)))%Q as Hb by (unfold Qlt; simpl; lia). split.
    + apply Qle_shift_div_l; [done|]. unfold Qle; simpl; lia.
    + apply Qle_shift_div_r; [done|]. unfold Qle; simpl; lia.
Qed.
Lemma overlap_bounds a b : NoDup a → (0 <= overlap a b <= 1)%Q.
Proof.
  intros Ha. apply ratio_bounds, submseteq_length, NoDup_submseteq.
  - apply NoDup_ListNoDup, List.NoDup_filter. by apply NoDup_ListNoDup.
  - intros x Hx. apply list_elem_of_In, filter_In in Hx as [Hx%list_elem_of_In _].
    apply dedupe_spec. rewrite elem_of_app. by left.
Qed.

(** Rounding stays between whole bounds. *)
Lemma round_even_mono x n : ((x <= inject_Z n)%Q → (round_even x <= n)%Z) ∧ ((inject_Z n <= x)%Q → (n <= round_even x)%Z).
Proof.
  pose proof (Qfloor_le x) as Hf. pose proof (Qlt_floor x) as Hl. rewrite inject_Z_plus in Hl. unfold round_even. split; intros Hn.
  - destruct (Qlt_le_dec x (inject_Z n)) as [Hlt|Hge].
    + assert (Qfloor x < n)%Z as Hz by (rewrite Zlt_Qlt; lra). repeat case_match; lia.
    + assert (x == inject_Z n)%Q as E by lra. assert (Qfloor x = n) as -> by (rewrite E; apply Qfloor_Z).
      assert ((x - inject_Z n ?= 1 # 2)%Q = Lt) as -> by (rewrite <- Qlt_alt; lra). lia.
  - assert (n <= Qfloor x)%Z as Hz by (rewrite <- (Qfloor_Z n); by apply Qfloor_resp_le). repeat case_match; lia.
Qed.
Lemma round4_bounds n x : (0 <= x <= n # 10000)%Q → (0 <= round4 x <= n # 10000)%Q.
Proof.
  intros [H0 Hn]. unfold round4.
  assert (0 <= round_even (x * 10000))%Z by (apply (round_even_mono (x * 10000) 0); unfold inject_Z; lra).
  assert (round_even (x * 10000) <= n)%Z.
  { apply (round_even_mono (x * 10000) n). assert (inject_Z n == (n # 10000) * 10000)%Q as ->; [unfold Qeq; simpl; lia|lra]. }
  unfold Qle; simpl; split; lia.
Qed.
Lemma round4_upto n x c : (0 <= x <= c)%Q → (c == n # 10000)%Q → (0 <= round4 x <= c)%Q.
Proof. intros Hx Hc. rewrite Hc in *. by apply round4_bounds. Qed.

Section scores.
Context `{Platform, TextRules, Unicode, ScopeJson}.
Implicit Types (x : extracted) (c : candidate) (m : memory).

Definition score_within (c q : Q) : Prop := (0 <= q <= c)%Q.
Lemma char_similarity_bounds a b : score_within 1 (char_similarity a b).
Proof.
  unfold char_similarity, score_within. pose proof (proj1 (dedupe_spec (chars (normalize_content a)))) as Hn.
  destruct (dedupe (chars (normalize_content a))) as [|u us], (dedupe (chars (normalize_content b))); try lra. by apply overlap_bounds.
Qed.
Lemma task_family_bounds c m : score_within (60 # 100) (task_family_similarity c m).
Proof.
  unfold task_family_similarity, score_within. do 3 (destruct (negb _); [lra|]).
  set (bonus := if same_text _ _ then _ else _). assert (0 <= bonus)%Q by (unfold bonus; case_match; lra). clearbody bonus.
  set (t := char_similarity (task_title _ _ _) _). destruct (char_similarity_bounds (task_title (c_predicate c) (c_scope c) (c_content c))
    (task_title (mm_predicate m) (mm_scope m) (mm_content m))) as [Ht _]. fold t in Ht. clearbody t.
  set (u := char_similarity _ _). destruct (char_similarity_bounds (c_content c) (mm_content m)) as [Hu _]. fold u in Hu. clearbody u.
  destruct (Qle_bool _ _); [|lra]. apply (round4_upto 6000); [|done]. split; [|apply Q.le_min_r]. apply Q.min_glb; lra.
Qed.
Lemma preference_family_bounds c m : score_within (82 # 100) (preference_family_similarity c m).
Proof.
  unfold preference_family_similarity, score_within. destruct (negb _); [lra|]. destruct (negb _); [destruct (same_set _ _); lra|].
  destruct (_ && _); [lra|]. set (u := char_similarity _ _).
  assert (0 <= u)%Q as Hu by apply char_similarity_bounds. clearbody u. destruct (Qle_bool _ _); [|lra].
  destruct (round4_upto 7800 (Qmin (78 # 100) ((45 # 100) + u * (33 # 100))) (78 # 100)) as [? ?]; [|done|lra].
  split; [|apply Q.le_min_l]. apply Q.min_glb; lra.
Qed.
Lemma added_score (b : bool) s q : (0 <= s → 0 <= q → 0 <= if b then s + q else s)%Q.
Proof. destruct b; lra. Qed.
Lemma raised_score (b : bool) s q : (0 <= s → 0 <= if b then Qmax s q else s)%Q.
Proof. pose proof (Q.le_max_l s q). destruct b; lra. Qed.
Lemma general_bounds x m : score_within 1 (general_score x m).
Proof.
  unfold general_score, score_within. destruct (_ && _); [lra|]. destruct (_ && _); [lra|].
  apply (round4_upto 10000); [|done]. split; [|apply Q.le_min_r]. apply Q.min_glb; [|lra].
  destruct (char_similarity_bounds (c_content (x_candidate x)) (mm_content m)) as [Hs _].
  destruct (char_similarity_bounds (default "" (c_object_value (x_candidate x))) (default "" (mm_object_value m))) as [Ho _].
  repeat first [apply raised_score|apply added_score]; nra.
Qed.

(** A similarity is a score between 0 and 1, and it is 1 for a memory with the key of the candidate; the two fallbacks that only compare the words of a topic stay below the scores of structured identities. *)
Theorem similarity_is_a_score x m :
  (0 <= candidate_similarity x m <= 1)%Q
  ∧ (same_key (x_candidate x) m = true → (candidate_similarity x m == 1)%Q)
  ∧ (task_family_similarity (x_candidate x) m <= 60 # 100)%Q
  ∧ (preference_family_similarity (x_candidate x) m <= 82 # 100)%Q.
Proof.
  pose proof (task_family_bounds (x_candidate x) m) as [Ht0 Ht]. pose proof (preference_family_bounds (x_candidate x) m) as [Hp0 Hp].
  pose proof (general_bounds x m) as [Hg0 Hg].
  assert (∀ q, v3_score (x_candidate x) m = Some q → 0 <= q <= 1)%Q as Hv.
  { unfold v3_score. intros q. repeat (case_match; try discriminate); intros [= <-]; try lra. }
  assert (∀ q, structured_score (x_candidate x) m = Some q → 0 <= q <= 1)%Q as Hs.
  { unfold structured_score. intros q. repeat (case_match; try discriminate); intros [= <-]; lra. }
  unfold candidate_similarity. split; [|split; [|by split]].
  - case_match; [lra|]. case_match; [lra|]. destruct (structured_score _ m) as [q|]; [by apply Hs|].
    destruct (is_v3_candidate _); [|done]. destruct (v3_score _ m) as [q|]; [by apply Hv|done].
  - intros ->. reflexivity.
Qed.
End scores.

(** * The decision *)

Section decisions.
Context `{Platform, TextRules, Unicode, ScopeJson, ScopeEdit, ValidationRules, AdjudicationEnv, RetrievalEnv, AdvisoryEnv}.
Variable decision_ids : nat → string.
Variable times : nat → string.
Implicit Types (x : extracted) (rows ms : list memory) (m : memory) (r : related).

Lemma relate_inv space_id x rows r : relate_candidate decision_ids times space_id x rows = Ok r →
  let similar := retrieve_candidates space_id x None (times 0%nat) rows in
  ∃ d, adjudicate_memory (decision_ids 0%nat) x similar = Ok d
  ∧ ((is_completion (x_candidate x) = true ∧ d_recommended_action d = "insert"
      ∧ relate_completion decision_ids times space_id x similar rows = Ok r)
     ∨ ((is_completion (x_candidate x) = false ∨ d_recommended_action d ≠ "insert") ∧ r = Related x d similar)).
Proof.
  unfold relate_candidate, mbind, result_bind. simpl.
  assert (∀ r', advised r' = Ok r → r' = r) as Hadv.
  { unfold advised. intros r' Hr. destruct (_ && _); [destruct (relation_advisory _ _ _)|]; congruence. }
  destruct (adjudicate_memory _ x _) as [d|] eqn:Hd; [|done]. intros Hr. exists d. split; [done|].
  destruct (is_completion _) eqn:Hc; cbn [andb] in Hr; [|right; apply Hadv in Hr; auto].
  destruct (String.eqb _ "insert") eqn:Hi.
  - apply String.eqb_eq in Hi. destruct (relate_completion _ _ _ _ _ _) as [r'|] eqn:E; [|done].
    apply Hadv in Hr as ->. by left.
  - apply String.eqb_neq in Hi. apply Hadv in Hr. right. auto.
Qed.

Lemma adjudicated_targets id x ms d i : adjudicate_memory id x ms = Ok d → i ∈ d_target_memory_ids d →
  ∃ t, t ∈ ms ∧ mm_id t = i.
Proof.
  intros Hd. destruct (adjudicate_verdict id x ms d Hd) as [? ? ? ? targets _ Ht _ _]. simpl.
  intros (t & -> & Hin)%list_elem_of_fmap. eauto.
Qed.

Lemma matched_in x ms t : t ∈ matched_task_memories x ms → tm_memory t ∈ ms.
Proof.
  unfold matched_task_memories. intros Ht%elem_of_sort_down. apply list_elem_of_omap in Ht as (m & Hm & Hk).
  apply first_by_id_in, filter_part in Hm. destruct (task_match_kind x m); [|done]. by injection Hk as <-.
Qed.

(** The three ways a completion goes *)
Lemma completion_inv space_id x similar rows r : relate_completion decision_ids times space_id x similar rows = Ok r →
  (∃ d, let x' := convert_orphan_done_task_to_episodic x in
     let similar' := retrieve_candidates space_id x' None (times 2%nat) rows in
     adjudicate_memory (decision_ids 1%nat) x' similar' = Ok d
     ∧ r = Related x' (d <| d_reason := "orphan_completion_converted_to_episodic" |>) similar')
  ∨ (∃ x' ts relation action reason,
      r = Related x' (done_decision decision_ids x' ts relation action reason) similar
      ∧ c_memory_type (x_candidate x') = c_memory_type (x_candidate x) ∧ action ≠ "insert"
      ∧ ∀ t, t ∈ ts → tm_memory t ∈ list_memories space_id (Some "active") (Some "task") None false 200 (times 1%nat) rows).
Proof.
  unfold relate_completion. set (found := list_memories _ _ _ _ _ _ _ rows).
  destruct (matched_task_memories x found) as [|t ts] eqn:E.
  - unfold mbind, result_bind. destruct (adjudicate_memory _ _ _) as [d|] eqn:Hd; [|done]. intros [= <-]. left. by exists d.
  - assert (∀ t', t' ∈ t :: ts → tm_memory t' ∈ found) as Hin by (rewrite <- E; apply matched_in). intros Hr. right.
    destruct ts as [|t2 ts].
    + destruct (String.eqb _ "fuzzy_topic"); [|destruct (bool_decide _)]; injection Hr as <-;
        do 5 eexists; (split; [reflexivity|done]).
    + injection Hr as <-. do 5 eexists; (split; [reflexivity|done]).
Qed.

(** C13: A completion never makes a new task: when the decision on a candidate that says a task is done is to insert something, the candidate has become an episode. *)
Theorem completions_never_create_tasks space_id x rows r :
  relate_candidate decision_ids times space_id x rows = Ok r →
  is_completion (x_candidate x) = true → d_recommended_action (rl_decision r) = "insert" →
  c_memory_type (x_candidate (rl_candidate r)) = "episodic".
Proof.
  intros (d & _ & [(_ & _ & Hr)|([Hc|Hi] & ->)])%relate_inv Hd Hins; simpl in *; [|congruence..].
  destruct (completion_inv _ _ _ _ _ Hr) as [(d' & _ & ->)|(x' & ts & relation & action & reason & -> & _ & Ha & _)]; [|done].
  reflexivity.
Qed.

(** A decision concerns only open memories of the space: every memory it targets is the row of an active, unexpired memory of this space, of the type of the candidate, and a candidate is compared with at most twenty memories. *)
Theorem decisions_stay_in_the_space space_id x rows r :
  relate_candidate decision_ids times space_id x rows = Ok r → c_memory_type (x_candidate x) ≠ "" →
  (length (rl_similar r) ≤ 20)%nat
  ∧ ∀ i, i ∈ d_target_memory_ids (rl_decision r) →
      ∃ n t, mm_id t = i ∧ open_memory space_id (c_memory_type (x_candidate (rl_candidate r))) (times n) rows t.
Proof.
  intros (d & Hd & [(Hc & _ & Hr)|(_ & ->)])%relate_inv Hty; simpl.
  - destruct (completion_inv _ _ _ _ _ Hr) as [(d' & Hd' & ->)|(x' & ts & relation & action & reason & -> & Hx' & _ & Hin)]; simpl.
    + split; [apply retrieved_few|]. intros i (t & Ht & Hi)%(adjudicated_targets _ _ _ _ _ Hd').
      exists 2%nat, t. split; [done|]. by apply (retrieved_open space_id (convert_orphan_done_task_to_episodic x) None).
    + split; [apply retrieved_few|]. intros i (t & -> & Ht)%list_elem_of_fmap. exists 1%nat, (tm_memory t). split; [done|].
      unfold is_completion in Hc. apply andb_true_iff in Hc as [Htask%String.eqb_eq _]. rewrite Hx', Htask.
      eapply list_memories_open; [done|]. by apply Hin.
  - split; [apply retrieved_few|]. intros i (t & Ht & Hi)%(adjudicated_targets _ _ _ _ _ Hd). exists 0%nat, t.
    split; [done|]. by apply (retrieved_open space_id x None).
Qed.
End decisions.

(** * Concrete runs *)

Module Example.
#[local] Existing Instance test_platform.
#[local] Existing Instance test_rules.
#[local] Existing Instance ascii_tables.
#[local] Existing Instance test_scopes.
#[local] Existing Instance CandidateValidation.Example.test_validation.
#[local] Existing Instance AdjudicationSpec.Example.test_adjudication.
#[local] Instance test_edit : ScopeEdit := {| scope_edit := λ scope _ _, scope |}.
#[local] Instance test_retrieval : RetrievalEnv := {| MEMORY_RETRIEVAL_MODE := "hybrid"; MEMORY_ADJUDICATION_TOP_K := 8 |}.
#[local] Instance test_advisory : AdvisoryEnv := {| relation_advisory := λ _ _ _, None |}.

Definition done (subject predicate content key : string) (confidence : Q) : extracted :=
  let x := AdjudicationSpec.Example.said "task" content "done" key "" confidence in
  x <| x_candidate := x_candidate x <| c_subject := Some subject |> <| c_predicate := Some predicate |> |>.
Definition open_task (id content key : string) (predicate : option string) : memory :=
  AdjudicationSpec.Example.known id "task" content "todo" key "" <| mm_predicate := predicate |>.
Definition related_to (x : extracted) (rows : list memory) : result related :=
  relate_candidate (λ _, "dec") (λ _, "5") "space" x rows.
Definition none : related :=
  Related (AdjudicationSpec.Example.said "" "" "" "" "" 0) (Decision "" "" "" [] 0 "" "" None) [].
Definition outcome_of (x : extracted) (rows : list memory) : string * list string * string :=
  match related_to x rows with
  | Ok r => (d_recommended_action (rl_decision r), d_target_memory_ids (rl_decision r), c_memory_type (x_candidate (rl_candidate r)))
  | Raise e => (exn_type e, [], "")
  end.
(** The task of the memory, another task, and a task without a name for what is to be done *)
Example outcomes :
  [outcome_of (done "user" "site" "published site" "k" (9 # 10)) [open_task "m1" "publish the site" "k" (Some "site")];
   outcome_of (done "user" "site" "published site" "k" (9 # 10)) [open_task "m1" "call the dentist" "k2" (Some "dentist")]]
  = [("update_task", ["m1"], "task"); ("insert", [], "episodic")].
Proof. vm_compute. reflexivity. Qed.

(** A task without a predicate is ended by any completion of its subject: every text ends with the empty text. *)
Lemma nameless_task_is_ended_by_any_completion :
  outcome_of (done "user" "site" "published site" "k" (9 # 10)) [open_task "m1" "call the dentist" "k2" None]
  = ("update_task", ["m1"], "task").
Proof. vm_compute. reflexivity. Qed.

(** The adjudication leaves this change to a reviewer for want of confidence; the search for the task of a completion does not ask. *)
Definition unsure : extracted := done "user" "网站" "published site" "k" (5 # 10).
Lemma completion_ignores_the_threshold :
  outcome_of unsure [open_task "m1" "publish the site" "k" (Some "网站")] = ("pending_review", ["m1"], "task")
  ∧ outcome_of unsure [open_task "m1" "publish the site" "k2" (Some "公司网站")] = ("update_task", ["m1"], "task").
Proof. split; vm_compute; reflexivity. Qed.

Definition orphan : extracted := done "user" "site" "published site" "k" (9 # 10).
Definition dentist : list memory := [open_task "m1" "call the dentist" "k2" (Some "dentist")].
Definition related_orphan : related := match related_to orphan dentist with Ok r => r | Raise _ => none end.
Lemma related_orphan_is : relate_candidate (λ _, "dec") (λ _, "5") "space" orphan dentist = Ok related_orphan.
Proof. vm_compute. reflexivity. Qed.
Lemma completions_never_create_tasks_witness :
  c_content (x_candidate (rl_candidate related_orphan)) = "published site"
  ∧ c_memory_type (x_candidate (rl_candidate related_orphan)) = "episodic".
Proof.
  split; [vm_compute; reflexivity|].
  apply (completions_never_create_tasks (λ _, "dec") (λ _, "5") "space" orphan dentist related_orphan related_orphan_is);
    vm_compute; reflexivity.
Defined.

Definition finished : extracted := done "user" "site" "published site" "k" (9 # 10).
Definition site : list memory := [open_task "m1" "publish the site" "k" (Some "site")].
Definition related_finished : related := match related_to finished site with Ok r => r | Raise _ => none end.
Lemma related_finished_is : relate_candidate (λ _, "dec") (λ _, "5") "space" finished site = Ok related_finished.
Proof. vm_compute. reflexivity. Qed.
Lemma decisions_stay_in_the_space_witness :
  d_target_memory_ids (rl_decision related_finished) = ["m1"] ∧ (length (rl_similar related_finished) ≤ 20)%nat.
Proof.
  split; [vm_compute; reflexivity|].
  refine (proj1 (decisions_stay_in_the_space (λ _, "dec") (λ _, "5") "space" finished site related_finished related_finished_is _)).
  vm_compute. discriminate.
Defined.
End Example.
