(* ===== verification/MemoryExtractionSpec.v ===== *)
(** Processing a note settles its extraction: whatever the extraction, the adjudication and the
    locks do, the state ends as completed, empty, partial or failed, within one further attempt;
    a completed note has decided all its candidates; and the memories change only by steps of
    their store. *)

From stdpp Require Import base list strings relations.
From Stdlib Require Import ZArith Lia QArith.
From S2P Require Import Prelude Consistency MemoryText Memory MemoryOps MemoryHistory.
From S2P Require Import MemorySpec MemoryRuns CandidateValidation MemoryExtraction.

Open Scope string_scope.
Open Scope Z_scope.

(** * The table of the candidates *)

Definition same_candidates (s s' : store) : Prop := memory_candidates s' = memory_candidates s.
#[export] Instance same_candidates_preorder : PreOrder same_candidates.
Proof. unfold same_candidates. split; [by intros ?|]. intros ??? -> ->. done. Qed.

Create HintDb candidates.
Section candidates.
Context `{Platform, TextRules}.

Ltac cands := repeat sat_step; eauto with candidates; try done; try (by case_match).

Lemma new_id_candidates prefix : sat same_candidates (new_id prefix).
Proof. unfold new_id. cands. Qed.
Lemma add_source_candidates id note_id relation now : sat same_candidates (add_source_row id note_id relation now).
Proof. unfold add_source_row. cands. Qed.
Lemma add_version_source_candidates version_id now note_id : sat same_candidates (add_version_source version_id now note_id).
Proof. unfold add_version_source. cands. Qed.
Hint Resolve new_id_candidates add_source_candidates add_version_source_candidates : candidates.
Lemma add_relation_candidates space_id a b relation decision_id now :
  sat same_candidates (add_relation_row space_id a b relation decision_id now).
Proof. unfold add_relation_row. cands. Qed.
Lemma add_version_candidates v : sat same_candidates (add_version v).
Proof. unfold add_version. cands. Qed.
Lemma update_memories_candidates id f : sat same_candidates (update_memories id f).
Proof. unfold update_memories. cands. Qed.
Hint Resolve add_relation_candidates add_version_candidates update_memories_candidates : candidates.
Lemma versioned_update_candidates row ch reason source_note_id now :
  sat same_candidates (versioned_update_row row ch reason source_note_id now).
Proof. unfold versioned_update_row. cands. Qed.
Lemma insert_memory_candidates space_id c note_id relation status memory_id now :
  sat same_candidates (insert_memory_row space_id c note_id relation status memory_id now).
Proof. unfold insert_memory_row. cands. Qed.
Lemma insert_decision_candidates space_id note_id d status ids error now :
  sat same_candidates (insert_decision_row space_id note_id d status ids error now).
Proof. unfold insert_decision_row. cands. Qed.
Hint Resolve versioned_update_candidates insert_memory_candidates insert_decision_candidates : candidates.
Lemma archive_candidates target c decision_id note_id now :
  sat same_candidates (archive_duplicates target c decision_id note_id now).
Proof. unfold archive_duplicates, archive_one. cands. Qed.
Hint Resolve archive_candidates : candidates.
Lemma apply_to_target_candidates space_id note_id c d merged action target now r :
  sat same_candidates (apply_to_target space_id note_id c d merged action target now r).
Proof. unfold apply_to_target, confirm. cands. Qed.
Hint Resolve apply_to_target_candidates : candidates.
Lemma apply_in_session_candidates space_id note_id c d merged now :
  sat same_candidates (apply_in_session space_id note_id c d merged now).
Proof. unfold apply_in_session, carry_out, check_card, select_target, select_memory, apply_action. cands. Qed.

Lemma apply_decision_candidates space_id note_id c d merged now s :
  memory_candidates (apply_memory_decision space_id note_id c d merged now s).2 = memory_candidates s.
Proof.
  assert (∀ A (m : session A) st, sat same_candidates m → memory_candidates (transaction m st).2 = memory_candidates st) as Ht
    by (intros A m st; apply (sat_transaction same_candidates m st)).
  unfold apply_memory_decision. pose proof (Ht _ _ s (apply_in_session_candidates space_id note_id c d merged now)) as E.
  destruct (transaction (apply_in_session _ _ _ _ _ _) s) as [[r|e] s']; [done|]. simpl in E.
  destruct (py_in _ _); [done|]. cbn [snd]. rewrite Ht; [done|]. apply insert_decision_candidates.
Qed.
End candidates.

Section spec.
Context `{Platform, TextRules, RunEnv, ExtractionEnv}.

Definition state_of (id : string) (s : database) : option extraction_state := find_extraction id (extraction_states s).

(** ** What the operations leave alone *)

Lemma in_store_states {A} (m : IO store A) s : extraction_states (in_store m s).2 = extraction_states s.
Proof. unfold in_store. by destruct (m (memory_store s)). Qed.
Lemma in_store_store {A} (m : IO store A) s : memory_store (in_store m s).2 = (m (memory_store s)).2.
Proof. unfold in_store. by destruct (m (memory_store s)). Qed.
Lemma in_store_result {A} (m : IO store A) s : (in_store m s).1 = (m (memory_store s)).1.
Proof. unfold in_store. by destruct (m (memory_store s)). Qed.

(** Programs that do not touch the states of the extraction. *)
Create HintDb frame.
Section frame.
Variable xs : list extraction_state.
Let I (s : database) : Prop := extraction_states s = xs.

Lemma store_frame {A} (m : IO store A) : io_keeps I (in_store m).
Proof. intros s Hs. unfold I. by rewrite in_store_states. Qed.
Lemma clock_frame : io_keeps I read_now.
Proof. by intros s Hs. Qed.
Hint Resolve store_frame clock_frame : frame.

Lemma save_candidate_frame space_id status c : io_keeps I (save_candidate space_id status c).
Proof. unfold save_candidate. repeat keeps_step; auto with frame. Qed.
Lemma mark_candidate_frame id status error decision_id : io_keeps I (mark_candidate id status error decision_id).
Proof. unfold mark_candidate. repeat keeps_step; auto with frame. Qed.
Lemma consolidate_frame space_id note_id x : io_keeps I (consolidate_candidate space_id note_id x).
Proof. unfold consolidate_candidate, evolve_memory. repeat keeps_step; auto with frame. Qed.
Hint Resolve save_candidate_frame mark_candidate_frame consolidate_frame : frame.
Lemma process_candidate_frame n acc x : io_keeps I (process_candidate n acc x).
Proof.
  unfold process_candidate, get_memory_candidate_status, decide_candidate. repeat keeps_step; auto with frame.
Qed.
End frame.

(** ** Marking the state of a note *)

Lemma find_upsert x delta xs id :
  find_extraction id (upsert_extraction x delta xs) =
  if String.eqb (xs_note_id x) id
  then Some (match find_extraction id xs with
             | Some y => x <| xs_attempt_count := xs_attempt_count y + delta |>
                           <| xs_started_at := or_column (xs_started_at x) (xs_started_at y) |>
             | None => x
             end)
  else find_extraction id xs.
Proof.
  unfold find_extraction. induction xs as [|y xs IH]; simpl.
  - by destruct (String.eqb (xs_note_id x) id).
  - destruct (String.eqb (xs_note_id y) (xs_note_id x)) eqn:E.
    + apply String.eqb_eq in E. simpl. rewrite E. by destruct (String.eqb (xs_note_id x) id).
    + simpl. rewrite IH. destruct (String.eqb (xs_note_id y) id) eqn:Ey; [|done].
      apply String.eqb_eq in Ey as <-. by rewrite String.eqb_sym, E.
Qed.

Definition attempts (o : option extraction_state) : Z := match o with Some x => xs_attempt_count x | None => 0 end.

(** A mark with a valid status writes the state of its note, and nothing else. *)
Lemma mark_effect id space_id status cc pc error inc s : py_in status MEMORY_EXTRACTION_STATUSES = true →
  ∃ x s', mark_extraction_state id space_id status cc pc error inc s = (Ok x, s')
    ∧ state_of id s' = Some x ∧ (∀ id', id' ≠ id → state_of id' s' = state_of id' s)
    ∧ xs_status x = status ∧ xs_attempt_count x = attempts (state_of id s) + (if inc then 1 else 0)
    ∧ xs_candidate_count x = Z.max 0 cc ∧ xs_processed_count x = Z.max 0 pc
    ∧ memory_store s' = memory_store s ∧ consolidation_runs s' = consolidation_runs s.
Proof.
  intros Hst. unfold mark_extraction_state. rewrite Hst. cbn [negb].
  unfold mbind, IO_bind, read_now, get_extraction_state, io_gets. cbn -[find_extraction upsert_extraction extraction_row].
  rewrite find_upsert. cbn [xs_note_id extraction_row]. rewrite String.eqb_refl.
  eexists _, _. split; [reflexivity|]. unfold state_of. cbn -[upsert_extraction find_extraction extraction_row].
  split; [by rewrite find_upsert; cbn [xs_note_id extraction_row]; rewrite String.eqb_refl|].
  split.
  { intros id' Hne. rewrite find_upsert. cbn [xs_note_id extraction_row].
    by rewrite (proj2 (String.eqb_neq id id')) by congruence. }
  destruct (find_extraction id (extraction_states s)); by split_and!.
Qed.

(** ** The state after processing *)

Section one_note.
Variable n : note.
Variable before : Z.       (* the attempts before *)

Definition within (s : database) : Prop := before ≤ attempts (state_of (no_id n) s) ≤ before + 1.
Definition stands (allowed : list string) (s : database) : Prop :=
  within s ∧ ∃ x, state_of (no_id n) s = Some x ∧ xs_status x ∈ allowed.
Definition settles (r : result report) (s : database) : Prop :=
  within s ∧ ∃ x, state_of (no_id n) s = Some x ∧
  match r with
  | Ok rep => xs_status x = rp_status rep ∧ rp_status rep ∈ ["completed"; "empty"; "partial"]
  | Raise _ => xs_status x ∈ ["processing"; "failed"]
  end.

(** A program that leaves the states alone. *)
Lemma frame_stands {A} allowed (m : IO database A) :
  (∀ xs, io_keeps (λ s, extraction_states s = xs) m) → io_keeps (stands allowed) m.
Proof. intros Hm s Hs. unfold stands, within, state_of. by rewrite (Hm _ s eq_refl). Qed.

Lemma mark_triple space_id status cc pc error : py_in status MEMORY_EXTRACTION_STATUSES = true →
  io_triple within (mark_extraction_state (no_id n) space_id status cc pc error false)
    (λ r s, is_Ok r ∧ within s ∧ ∃ x, state_of (no_id n) s = Some x ∧ xs_status x = status).
Proof.
  intros Hst s Hs. destruct (mark_effect (no_id n) space_id status cc pc error false s Hst)
    as (x & s' & -> & Hx & _ & Hxs & Ha & _). cbn [fst snd]. split; [by eexists|].
  unfold within in *. rewrite Hx. simpl. split; [lia|eauto].
Qed.
Lemma begin_triple space_id status : py_in status MEMORY_EXTRACTION_STATUSES = true →
  io_triple (λ s, attempts (state_of (no_id n) s) = before)
    (mark_extraction_state (no_id n) space_id status 0 0 None true)
    (λ r s, is_Ok r ∧ within s ∧ ∃ x, state_of (no_id n) s = Some x ∧ xs_status x = status).
Proof.
  intros Hst s Hs. destruct (mark_effect (no_id n) space_id status 0 0 None true s Hst)
    as (x & s' & -> & Hx & _ & Hxs & Ha & _). cbn [fst snd]. split; [by eexists|].
  unfold within. rewrite Hx. simpl. split; [lia|eauto].
Qed.

(** After a mark comes the return of a report, or an exception. *)
Lemma mark_then {A} (m : IO database A) status (k : IO database report) :
  io_triple within m (λ r s, is_Ok r ∧ within s ∧ ∃ x, state_of (no_id n) s = Some x ∧ xs_status x = status) →
  io_triple (λ s, within s ∧ ∃ x, state_of (no_id n) s = Some x ∧ xs_status x = status) k settles →
  io_triple within (m;; k) settles.
Proof.
  intros Hm Hk. eapply io_triple_bind; [|intros ?; exact Hk].
  eapply io_triple_post; [exact Hm|]. intros [a|e] s [Hok Hs]; [exact Hs|by destruct Hok].
Qed.
Lemma return_settles rep status : rp_status rep = status → status ∈ ["completed"; "empty"; "partial"] →
  io_triple (λ s, within s ∧ ∃ x, state_of (no_id n) s = Some x ∧ xs_status x = status) (mret rep) settles.
Proof. intros Hr Hst. apply io_triple_ret. intros s [Hw (x & Hx & Hxs)]. split; [done|]. exists x. by rewrite Hr, Hxs. Qed.

Lemma finish_empty_settles : io_triple within (finish_empty n) settles.
Proof. apply (mark_then _ "empty"); [by apply mark_triple|]. by apply return_settles; [|right; left]. Qed.

Lemma finish_settles count acc : io_triple within (finish n count acc) settles.
Proof.
  unfold finish. destruct acc as [[|o os] [|e es]]; cbn [fst snd].
  - apply (mark_then _ "completed"); [by apply mark_triple|]. by apply return_settles; [|left].
  - apply (mark_then _ "failed"); [by apply mark_triple|]. apply io_triple_throw.
    intros s [Hw (x & Hx & Hxs)]. split; [done|]. exists x. rewrite Hxs. split; [done|]. right. by left.
  - apply (mark_then _ "completed"); [by apply mark_triple|]. by apply return_settles; [|left].
  - apply (mark_then _ "partial"); [by apply mark_triple|]. by apply return_settles; [|right; right; left].
Qed.

(** An exception while the state is being processed. *)
Lemma working_settles {A} (m : IO database A) (k : A → IO database report) :
  (∀ xs, io_keeps (λ s, extraction_states s = xs) m) → (∀ a, io_triple (stands ["processing"]) (k a) settles) →
  io_triple (stands ["processing"]) (m ≫= k) settles.
Proof.
  intros Hm Hk. eapply io_triple_bind; [|exact Hk].
  eapply io_triple_post; [by apply io_triple_keeps, frame_stands|].
  intros [a|e] s Hs; [exact Hs|]. destruct Hs as [Hw (x & Hx & Hst%list_elem_of_singleton)].
  split; [done|]. exists x. rewrite Hst. split; [done|]. by left.
Qed.

Lemma extract_settles :
  io_triple (λ s, attempts (state_of (no_id n) s) = before) (extract_and_consolidate n) settles.
Proof.
  unfold extract_and_consolidate.
  eapply io_triple_bind with (R := λ _, stands ["processing"]).
  { eapply io_triple_post; [by apply begin_triple|]. intros [a|e] s [Hok [Hw (x & Hx & Hxs)]]; [|by destruct Hok].
    split; [done|]. exists x. rewrite Hxs. split; [done|by left]. }
  intros _. apply working_settles; [intros xs; repeat keeps_step|]. intros reply.
  apply working_settles; [intros xs; repeat keeps_step|]. intros found.
  apply working_settles; [intros xs; repeat keeps_step; apply save_candidate_frame|]. intros _.
  destruct (validate_candidates _ _) as [candidates rejections].
  apply working_settles; [intros xs; repeat keeps_step; apply mark_candidate_frame|]. intros _.
  destruct candidates as [|c cs].
  { eapply io_triple_pre; [apply finish_empty_settles|]. by intros s [Hw _]. }
  apply working_settles; [intros xs; apply io_keeps_for; intros ??; apply process_candidate_frame|]. intros acc.
  eapply io_triple_pre; [apply finish_settles|]. by intros s [Hw _].
Qed.

Lemma body_settles force :
  io_triple (λ s, attempts (state_of (no_id n) s) = before) (process_note_body n force) settles.
Proof.
  assert (io_triple (λ s, attempts (state_of (no_id n) s) = before) (process_new n) settles) as Hnew.
  { unfold process_new. destruct (_ && _); [|apply extract_settles].
    eapply io_triple_bind with (R := λ _ s, within s ∧ ∃ x, state_of (no_id n) s = Some x ∧ xs_status x = "empty").
    - eapply io_triple_post; [by apply begin_triple|]. intros [a|e] s [Hok Hs]; [exact Hs|by destruct Hok].
    - intros _. by apply return_settles; [|right; left]. }
  unfold process_note_body. destruct (contains_sensitive_data _).
  { eapply io_triple_pre; [apply finish_empty_settles|]. intros s Hs. unfold within. lia. }
  eapply io_triple_bind with (R := λ o s, attempts (state_of (no_id n) s) = before ∧ (o = None ∨ o = state_of (no_id n) s)).
  { intros s Hs. destruct (String.eqb _ _); cbn; auto. }
  intros [x|]; [|eapply io_triple_pre; [exact Hnew|by intros s [? _]]].
  destruct (is_settled x && negb force) eqn:E; [|eapply io_triple_pre; [exact Hnew|by intros s [? _]]].
  apply io_triple_ret. intros s [Hb [?|Hx]]; [done|]. symmetry in Hx. split; [unfold within; lia|].
  exists x. split; [done|]. split; [done|]. apply andb_true_iff in E as [E%py_in_true _]. simpl. revert E. rewrite !elem_of_cons. tauto.
Qed.

Definition settled_result (r : result report) (s : database) : Prop :=
  within s ∧ ∃ x, state_of (no_id n) s = Some x ∧
  match r with
  | Ok rep => xs_status x = rp_status rep ∧ rp_status rep ∈ ["completed"; "empty"; "partial"]
  | Raise _ => xs_status x = "failed"
  end.

Lemma note_settles force :
  io_triple (λ s, attempts (state_of (no_id n) s) = before) (process_note_memory n force) settled_result.
Proof.
  unfold process_note_memory. eapply io_triple_try; [apply body_settles| |].
  - intros e s [Hw (x & Hx & Hst)]. unfold mbind, IO_bind, get_extraction_state, io_gets.
    change (find_extraction (no_id n) (extraction_states s)) with (state_of (no_id n) s). rewrite Hx.
    destruct (String.eqb (xs_status x) "processing") eqn:E.
    + unfold mark_extraction_failed.
      destruct (mark_triple (no_space_id n) "failed" 0 0 (Some (describe e)) eq_refl s Hw) as (Hok & Hw' & y & Hy & Hys).
      destruct (mark_extraction_state _ _ _ _ _ _ _ s) as [[a|e'] s']; [|by destruct Hok]. cbn in *.
      split; [done|]. eauto.
    + cbn. split; [done|]. exists x. split; [done|]. apply String.eqb_neq in E. revert Hst. rewrite !elem_of_cons, elem_of_nil. tauto.
  - intros rep. apply io_triple_ret. by intros s Hs.
Qed.
End one_note.

(** ** The rows of the candidates *)

Definition DECIDED : list string := ["applied"; "pending_review"; "discarded"].
Definition row_of (id : string) (s : database) : option candidate_row := candidate_row_of id (memory_store s).
Definition decided (id : string) (s : database) : Prop := ∃ r, row_of id s = Some r ∧ cr_status r ∈ DECIDED.

(** Only the row of the candidate [id] may have changed, and no row is lost. *)
Definition touches (id : string) (s s' : database) : Prop :=
  (∀ i, i ≠ id → row_of i s' = row_of i s) ∧ (∀ i, is_Some (row_of i s) → is_Some (row_of i s')).
#[local] Instance touches_preorder id : PreOrder (touches id).
Proof.
  split; [split; auto|]. intros a b c [h1 h2] [h3 h4]. split; [|auto]. intros i Hi. by rewrite h3, h1.
Qed.

Lemma find_row_update id id' f rs : (∀ r, cr_candidate (f r) = cr_candidate r) →
  List.find (λ r, String.eqb (c_candidate_id (cr_candidate r)) id')
    (update_where (λ r, String.eqb (c_candidate_id (cr_candidate r)) id) f rs)
  = if String.eqb id' id then option_map f (List.find (λ r, String.eqb (c_candidate_id (cr_candidate r)) id') rs)
    else List.find (λ r, String.eqb (c_candidate_id (cr_candidate r)) id') rs.
Proof.
  intros Hf. induction rs as [|r rs IH]; simpl; [by destruct (String.eqb id' id)|].
  destruct (String.eqb (c_candidate_id (cr_candidate r)) id) eqn:E; rewrite ?Hf;
    destruct (String.eqb (c_candidate_id (cr_candidate r)) id') eqn:E'; rewrite ?IH; try done.
  - apply String.eqb_eq in E, E'. by rewrite <- E, <- E', String.eqb_refl.
  - apply String.eqb_neq in E. apply String.eqb_eq in E'. rewrite (proj2 (String.eqb_neq id' id)) by congruence. done.
Qed.

Lemma mark_candidate_effect id status error decision_id s : py_in status CANDIDATE_STATUSES = true →
  ∃ b s', mark_candidate id status error decision_id s = (Ok b, s') ∧ touches id s s'
    ∧ ∀ r', row_of id s' = Some r' → cr_status r' = status.
Proof.
  intros Hst. unfold mark_candidate, mbind, IO_bind, in_store, mark_memory_candidate. cbn -[update_where].
  rewrite Hst. cbn -[update_where]. eexists _, _. split; [reflexivity|].
  unfold touches, row_of, candidate_row_of. cbn -[update_where]. split; [split|].
  - intros i Hi. rewrite find_row_update by done. by rewrite (proj2 (String.eqb_neq i id)).
  - intros i [r Hr]. rewrite find_row_update, Hr by done. destruct (String.eqb i id); by eexists.
  - intros r'. rewrite find_row_update, String.eqb_refl by done.
    destruct (List.find _ _); [|done]. by intros [= <-].
Qed.
Lemma mark_candidate_touches id status error decision_id s0 : py_in status CANDIDATE_STATUSES = true →
  io_keeps (touches id s0) (mark_candidate id status error decision_id).
Proof.
  intros Hst s Hs. destruct (mark_candidate_effect id status error decision_id s Hst) as (b & s' & -> & Ht & _).
  by transitivity s.
Qed.

Lemma consolidate_rows space_id note_id x cs :
  io_keeps (λ s, memory_candidates (memory_store s) = cs) (consolidate_candidate space_id note_id x).
Proof.
  assert (∀ A (m : session A), sat same_candidates m →
    io_keeps (λ s, memory_candidates (memory_store s) = cs) (in_store (transaction m))) as Hstore.
  { intros A m Hm s <-. rewrite in_store_store. apply (sat_transaction same_candidates m _ Hm). }
  unfold consolidate_candidate, evolve_memory. repeat keeps_step; try (by intros s <-).
  - intros s <-. rewrite in_store_store. apply apply_decision_candidates.
  - apply Hstore, add_source_candidates.
Qed.
Lemma consolidate_touches id space_id note_id x s0 : io_keeps (touches id s0) (consolidate_candidate space_id note_id x).
Proof.
  intros s Hs. transitivity s; [done|]. pose proof (consolidate_rows space_id note_id x _ s eq_refl) as E.
  unfold touches, row_of, candidate_row_of. by rewrite E.
Qed.

Lemma touches_decided id i s s' : touches id s s' → i ≠ id → decided i s → decided i s'.
Proof. intros [Ht _] Hi (r & Hr & Hst). exists r. by rewrite Ht. Qed.

Lemma io_triple_seq {S A B} (P : S → Prop) (Q : result B → S → Prop) (m : IO S A) f :
  io_keeps P m → (∀ e s, P s → Q (Raise e) s) → (∀ a, io_triple P (f a) Q) → io_triple P (m ≫= f) Q.
Proof.
  intros Hm He Hf. eapply io_triple_bind; [|exact Hf].
  eapply io_triple_post; [by apply io_triple_keeps|]. intros [a|e] s; [done|apply He].
Qed.

(** A candidate that was decided on without an exception is decided. *)
Lemma decide_candidate_decides n x s : let id := c_candidate_id (x_candidate x) in
  io_triple (touches id s) (decide_candidate n x)
    (λ r s', touches id s s' ∧ (is_Ok r → is_Some (row_of id s) → decided id s')).
Proof.
  intros id. unfold decide_candidate. fold id.
  do 5 (apply io_triple_seq; [|by intros e s1 ?|intros ?]; [first
    [by apply mark_candidate_touches|apply consolidate_touches|apply io_keeps_gets|apply io_keeps_lift]|]).
  match goal with r : applied |- _ => rename r into result end. intros s1 Hs1.
  assert (final_status result ∈ DECIDED) as Hfinal.
  { unfold final_status. repeat case_match; [right; left|right; right; left|left]. }
  destruct (mark_candidate_effect id (final_status result) None (Some (ap_decision_id result)) s1)
    as (b & s2 & E & Ht & Hst); [unfold final_status; by repeat case_match|].
  unfold mbind, IO_bind. rewrite E. cbn. assert (touches id s s2) as Hs2 by (by transitivity s1).
  split; [done|]. intros _ Hrow. destruct (proj2 Hs2 id Hrow) as [r Hr]. exists r. by rewrite (Hst r Hr).
Qed.

(** ** The candidates of a note, one after the other *)

Lemma io_for_triple {A B} (I : list A → B → database → Prop) (body : B → A → IO database B) (l : list A) :
  ∀ ks acc, (∀ ks acc x, x ∈ l → io_triple (I ks acc) (body acc x)
     (λ r s, match r with Ok acc => I (ks ++ [x])%list acc s | Raise _ => True end)) →
  io_triple (I ks acc) (io_for l acc body) (λ r s, match r with Ok acc => I (ks ++ l)%list acc s | Raise _ => True end).
Proof.
  induction l as [|x l IH]; intros ks acc Hb; simpl.
  - apply io_triple_ret. intros s. by rewrite app_nil_r.
  - eapply io_triple_bind.
    + eapply io_triple_post; [apply Hb; by left|]. intros [acc'|e] s Hs; [exact Hs|done].
    + intros acc'. specialize (IH (ks ++ [x])%list acc'). rewrite <- app_assoc in IH. apply IH.
      intros ??? Hx. apply Hb. by right.
Qed.

Definition id_of (x : extracted) : string := c_candidate_id (x_candidate x).
Definition saved (all : list extracted) (s : database) : Prop := ∀ x, x ∈ all → is_Some (row_of (id_of x) s).
Lemma mark_candidate_saved all id status error decision_id : py_in status CANDIDATE_STATUSES = true →
  io_keeps (saved all) (mark_candidate id status error decision_id).
Proof.
  intros Hst s Hs x Hx. destruct (mark_candidate_effect id status error decision_id s Hst) as (b & s' & -> & Ht & _).
  by apply Ht, Hs.
Qed.

Record progress (all ks : list extracted) (acc : list outcome * list string) (s : database) : Prop := {
  pr_saved : saved all s;
  pr_decided : acc.2 = [] → ∀ x, x ∈ ks → decided (id_of x) s;
}.

Lemma py_in_default (o : option string) (l : list string) : "" ∉ l → py_in (default "" o) l = true →
  ∃ v, o = Some v ∧ v ∈ l.
Proof. intros Hl Ho%py_in_true. destruct o as [v|]; [by exists v|done]. Qed.

Lemma process_candidate_progress n all ks acc x : x ∈ all →
  io_triple (progress all ks acc) (process_candidate n acc x)
    (λ r s, match r with Ok acc => progress all (ks ++ [x])%list acc s | Raise _ => True end).
Proof.
  intros Hx. unfold process_candidate, get_memory_candidate_status. apply io_triple_gets. intros existing.
  fold (id_of x). destruct (py_in _ _) eqn:E.
  - apply io_triple_ret. intros s [[Hsaved Hdec] Hrow]. constructor; [exact Hsaved|].
    intros Herr y [Hy| ->%list_elem_of_singleton]%elem_of_app; [by apply Hdec|].
    apply py_in_default in E as (v & -> & Hin); [|by apply py_in_false]. symmetry in Hrow.
    apply fmap_Some in Hrow as (r & Hr & ->). by exists r.
  - apply io_triple_try with (R := λ r s, progress all ks acc s ∧ (is_Ok r → decided (id_of x) s)).
    + intros s [[Hsaved Hdec] Hrow].
      destruct (decide_candidate_decides n x s s (reflexivity s)) as [Ht Hok]. fold (id_of x) in Ht, Hok.
      split; [constructor; [intros y Hy; by apply Ht, Hsaved|]|intros Hr; by apply Hok; auto].
      intros Herr y Hy. apply (touches_decided _ _ _ _ Ht); [|by apply Hdec]. intros Eid.
      destruct (Hdec Herr y Hy) as (r & Hr & Hst). rewrite Eid in Hr. apply py_in_false in E. apply E.
      rewrite Hrow. change (candidate_row_of (id_of x) (memory_store s)) with (row_of (id_of x) s). by rewrite Hr.
    + intros e. eapply io_triple_pre with (P := saved all); [|by intros s [[Hsaved _] _]].
      apply io_triple_seq; [by apply mark_candidate_saved|by intros ? ?|]. intros b. apply io_triple_ret.
      intros s Hsaved. constructor; [done|]. cbn. by destruct acc.2.
    + intros r. apply io_triple_ret. intros s [[Hsaved Hdec] Hok]. constructor; [done|].
      intros Herr y [Hy| ->%list_elem_of_singleton]%elem_of_app; [by apply Hdec|by apply Hok].
Qed.

Definition row_id (r : candidate_row) : string := c_candidate_id (cr_candidate r).
Lemma row_of_ids id s : is_Some (row_of id s) ↔ id ∈ map row_id (memory_candidates (memory_store s)).
Proof.
  unfold row_of, candidate_row_of. generalize (memory_candidates (memory_store s)) as rs.
  induction rs as [|r rs IH]; simpl; [rewrite elem_of_nil; split; [by intros []|done]|].
  rewrite elem_of_cons. destruct (String.eqb (c_candidate_id (cr_candidate r)) id) eqn:E.
  - apply String.eqb_eq in E as <-. split; [by left|by eexists].
  - apply String.eqb_neq in E. rewrite IH. unfold row_id at 2. intuition congruence.
Qed.

Lemma save_candidate_ids space_id status c s :
  ∃ s', save_candidate space_id status c s = (Ok tt, s')
    ∧ ∀ id, id ∈ map row_id (memory_candidates (memory_store s')) ↔
        id = c_candidate_id c ∨ id ∈ map row_id (memory_candidates (memory_store s)).
Proof.
  unfold save_candidate, mbind, IO_bind, in_store, save_memory_candidate. cbn -[update_where existsb].
  eexists. split; [reflexivity|]. intros id. destruct (existsb _ _) eqn:E; cbn -[update_where].
  - rewrite update_column by done. split; [by right|]. intros [->|]; [|done].
    apply existsb_exists in E as (r & Hr & Er%String.eqb_eq). rewrite <- Er. apply elem_of_map. exists r.
    split; [done|]. by apply list_elem_of_In.
  - rewrite map_app, elem_of_app. simpl. rewrite list_elem_of_singleton. tauto.
Qed.

Lemma save_candidate_saved ks x space_id status :
  io_triple (saved ks) (save_candidate space_id status (x_candidate x))
    (λ r s, match r with Ok _ => saved (ks ++ [x])%list s | Raise _ => True end).
Proof.
  intros s Hs. destruct (save_candidate_ids space_id status (x_candidate x) s) as (s' & -> & Hids). cbn.
  intros y Hy. apply row_of_ids, Hids. apply elem_of_app in Hy as [Hy| ->%list_elem_of_singleton]; [|by left].
  right. by apply row_of_ids, Hs.
Qed.

(** A completed note has a row for every candidate, and has decided every one that is valid. *)
Definition completes (n : note) (r : result report) (s : database) : Prop :=
  match r with
  | Ok rep => rp_status rep = "completed" → rp_idempotent rep = false → ∃ found s0,
      extract_candidates n s0 = Ok found ∧ saved (map (enriched n) found) s
      ∧ (∀ y, y ∈ (validate_candidates (map (enriched n) found) (no_text n)).1 → decided (id_of y) s)
      ∧ rp_candidates rep = Z.of_nat (length (validate_candidates (map (enriched n) found) (no_text n)).1)
  | Raise _ => True
  end.

Lemma mark_state_store space_id status cc pc error inc id s : py_in status MEMORY_EXTRACTION_STATUSES = true →
  ∃ x s', mark_extraction_state id space_id status cc pc error inc s = (Ok x, s') ∧ memory_store s' = memory_store s.
Proof.
  intros Hst. destruct (mark_effect id space_id status cc pc error inc s Hst)
    as (x & s' & E & _ & _ & _ & _ & _ & _ & Hm & _). eauto.
Qed.

Lemma finish_completes n found s0 count acc :
  let xs := map (enriched n) found in
  let valid := (validate_candidates xs (no_text n)).1 in
  extract_candidates n s0 = Ok found → count = Z.of_nat (length valid) →
  io_triple (progress (xs ++ valid) valid acc) (finish n count acc) (completes n).
Proof.
  intros xs valid Hfound Hcount. unfold finish. destruct acc as [os [|e es]]; cbn [fst snd].
  - assert (io_triple (progress (xs ++ valid) valid (os, []))
      (mark_extraction_completed (no_id n) (no_space_id n) count (Z.of_nat (length os));;
       mret (Report count os [] "completed" false)) (completes n)) as Hok; [|by destruct os].
    intros s [Hsaved Hdec]. unfold mark_extraction_completed, mbind, IO_bind.
    destruct (mark_state_store (no_space_id n) "completed" count (Z.of_nat (length os)) None false (no_id n) s eq_refl)
      as (x & s' & -> & Hs'). cbn. intros _ _. exists found, s0. split; [done|].
    unfold saved, decided, row_of in *. rewrite Hs'. split_and!; [|by apply Hdec|done].
    intros y Hy. apply Hsaved, elem_of_app. by left.
  - destruct os as [|o os]; intros s _; unfold mark_extraction_failed, mark_extraction_partial, mbind, IO_bind;
      match goal with |- context [mark_extraction_state ?a ?b ?c ?d ?e ?f ?g s] =>
        destruct (mark_state_store b c d e f g a s eq_refl) as (x & s' & -> & _) end; by cbn.
Qed.

Lemma finish_empty_completes P n : io_triple P (finish_empty n) (completes n).
Proof.
  intros s _. unfold finish_empty, mark_extraction_empty, mbind, IO_bind.
  destruct (mark_state_store (no_space_id n) "empty" 0 0 None false (no_id n) s eq_refl) as (x & s' & -> & _). by cbn.
Qed.

Lemma valid_saved n found s : let xs := map (enriched n) found in
  saved xs s → saved (xs ++ (validate_candidates xs (no_text n)).1) s.
Proof.
  intros xs Hs y [Hy|Hy]%elem_of_app; [by apply Hs|].
  destruct (va_sound _ _ _ (validate_candidates_inv (no_text n) xs) y Hy) as (x & Hx & Hsound).
  unfold id_of. rewrite (so_id _ _ _ Hsound). by apply Hs.
Qed.

Lemma extract_completes n : io_triple (λ _, True) (extract_and_consolidate n) (completes n).
Proof.
  unfold extract_and_consolidate. apply io_triple_seq; [by intros s _|done|]. intros _.
  apply io_triple_gets. intros reply.
  eapply io_triple_bind with (R := λ found s, ∃ s0, extract_candidates n s0 = Ok found).
  { intros s [_ Hr]. cbn. destruct reply as [found|e]; [by eexists|done]. }
  intros found. set (xs := map (enriched n) found).
  eapply io_triple_bind with (R := λ _ s, (∃ s0, extract_candidates n s0 = Ok found) ∧ saved xs s).
  { intros s Hfound. pose proof (io_for_triple (λ ks _, saved ks)
      (λ _ x, save_candidate (no_space_id n) "extracted" (x_candidate x)) xs [] tt) as Hfor.
    assert (saved [] s) as Hnil by (by intros x ?%not_elem_of_nil).
    specialize (Hfor (λ ks _ x _, save_candidate_saved ks x _ _) s Hnil). by destruct (io_for xs tt _ s) as [[u|e] s']. }
  intros _. unfold xs. destruct (validate_candidates _ (no_text n)) as [valid rejections] eqn:Ev. fold xs in Ev |- *.
  apply io_triple_seq; [|done|].
  { repeat keeps_step; intros s [Hf Hs]; split; try done; by apply mark_candidate_saved. }
  intros _. destruct valid as [|v vs] eqn:Evalid; [eapply io_triple_pre; [apply (finish_empty_completes (λ _, True))|done]|].
  rewrite <- Evalid in *. clear Evalid.
  eapply io_triple_bind with (R := λ acc s, (∃ s0, extract_candidates n s0 = Ok found) ∧ progress (xs ++ valid) valid acc s).
  { intros s [Hf Hs]. assert (progress (xs ++ valid) [] ([], []) s) as Hp.
    { split; [|by intros _ x ?%not_elem_of_nil]. pose proof (valid_saved n found s Hs) as Hv. fold xs in Hv. by rewrite Ev in Hv. }
    pose proof (io_for_triple (progress (xs ++ valid)) (process_candidate n) valid [] ([], [])) as Hfor.
    specialize (Hfor (λ ks acc x Hx, process_candidate_progress n _ ks acc x (proj2 (elem_of_app _ _ _) (or_intror Hx))) s Hp).
    by destruct (io_for valid _ _ s) as [[acc|e] s']. }
  intros acc s [(s0 & Hf) Hp]. apply (finish_completes n found s0); [done|by fold xs; rewrite Ev|].
  fold xs. by rewrite Ev.
Qed.

Lemma note_completes n force : io_triple (λ _, True) (process_note_memory n force) (completes n).
Proof.
  assert (io_triple (λ _, True) (process_new n) (completes n)) as Hnew.
  { unfold process_new. destruct (_ && _); [|apply extract_completes].
    apply io_triple_seq; [by intros s _|done|]. intros _. by apply io_triple_ret. }
  unfold process_note_memory. eapply io_triple_try with (R := completes n).
  - unfold process_note_body. destruct (contains_sensitive_data _); [apply finish_empty_completes|].
    apply io_triple_seq; [by intros s _|done|]. intros [x|]; [|exact Hnew].
    destruct (_ && _); [|exact Hnew]. by apply io_triple_ret.
  - intros e. apply io_triple_seq; [by intros s _|done|]. intros current.
    eapply io_triple_pre with (P := λ _, True); [|done].
    apply io_triple_seq; [by intros s _|done|]. intros _. by apply io_triple_throw.
  - intros rep. by apply io_triple_ret.
Qed.

(** ** Other notes, and the store *)

(** A property of the states and the store that marks and store operations keep, a note keeps. *)
Section note_keeps.
Variable I : database → Prop.
Variable n : note.
Hypothesis mark_keeps : ∀ space_id status cc pc error inc,
  io_keeps I (mark_extraction_state (no_id n) space_id status cc pc error inc).
Hypothesis clock_keeps : io_keeps I read_now.
Hypothesis save_keeps : ∀ space_id status c now, io_keeps I (in_store (save_memory_candidate space_id status c None None now)).
Hypothesis candidate_keeps : ∀ id status error decision_id now,
  io_keeps I (in_store (mark_memory_candidate id status error decision_id now)).
Hypothesis apply_keeps : ∀ space_id note_id c d merged now,
  io_keeps I (in_store (apply_memory_decision space_id note_id c d merged now)).
Hypothesis source_keeps : ∀ memory_id note_id relation now, io_keeps I (in_store (add_source memory_id note_id relation now)).

Create HintDb note.
Hint Resolve mark_keeps clock_keeps save_keeps candidate_keeps apply_keeps source_keeps : note.

Lemma consolidate_keeps space_id note_id x : io_keeps I (consolidate_candidate space_id note_id x).
Proof. unfold consolidate_candidate, evolve_memory. repeat keeps_step; auto with note. Qed.
Lemma mark_candidate_keeps id status error decision_id : io_keeps I (mark_candidate id status error decision_id).
Proof. unfold mark_candidate. repeat keeps_step; auto with note. Qed.
Hint Resolve consolidate_keeps mark_candidate_keeps : note.
Lemma process_candidate_keeps acc x : io_keeps I (process_candidate n acc x).
Proof.
  unfold process_candidate, get_memory_candidate_status, decide_candidate. repeat keeps_step; auto with note.
Qed.
Lemma finish_keeps count acc : io_keeps I (finish n count acc).
Proof.
  unfold finish, mark_extraction_partial, mark_extraction_failed, mark_extraction_completed.
  destruct acc as [[|] [|]]; cbn [fst snd]; repeat keeps_step; auto with note.
Qed.
Lemma finish_empty_keeps : io_keeps I (finish_empty n).
Proof. unfold finish_empty, mark_extraction_empty. repeat keeps_step; auto with note. Qed.
Hint Resolve process_candidate_keeps finish_keeps finish_empty_keeps : note.
Lemma extract_keeps : io_keeps I (extract_and_consolidate n).
Proof.
  unfold extract_and_consolidate, mark_extraction_processing, save_candidate.
  repeat keeps_step; auto with note.
Qed.
Hint Resolve extract_keeps : note.
Lemma process_note_keeps force : io_keeps I (process_note_memory n force).
Proof.
  unfold process_note_memory, process_note_body, process_new, mark_extraction_empty_attempt, get_extraction_state,
    mark_extraction_failed.
  repeat keeps_step; auto with note.
Qed.
End note_keeps.

Lemma process_note_others n force i o : i ≠ no_id n → io_keeps (λ s, state_of i s = o) (process_note_memory n force).
Proof.
  intros Hi. apply process_note_keeps; try (intros; intros s Hs; unfold state_of; by rewrite in_store_states).
  - intros space_id status cc pc error inc s Hs. destruct (py_in status MEMORY_EXTRACTION_STATUSES) eqn:E.
    + destruct (mark_effect (no_id n) space_id status cc pc error inc s E) as (x & s' & -> & _ & Ho & _).
      cbn. by rewrite Ho.
    + unfold mark_extraction_state. by rewrite E.
  - by intros s Hs.
Qed.

(** The memories change by steps of their store only. *)
Lemma process_note_steps n force st0 : io_keeps (λ s, rtc store_step st0 (memory_store s)) (process_note_memory n force).
Proof.
  apply process_note_keeps; try (intros; intros s Hs; rewrite in_store_store; eapply rtc_r; [exact Hs|]; by constructor).
  - intros space_id status cc pc error inc s Hs. destruct (py_in status MEMORY_EXTRACTION_STATUSES) eqn:E.
    + destruct (mark_effect (no_id n) space_id status cc pc error inc s E) as (x & s' & -> & _ & _ & _ & _ & _ & _ & Hm & _).
      cbn. by rewrite Hm.
    + unfold mark_extraction_state. by rewrite E.
  - by intros s Hs.
Qed.

(** ** The daily pass *)

Lemma claim_note_spec space_id n s : ∃ b s', claim_note space_id n s = (Ok b, s') ∧
  if b : bool then no_queryable n = true ∧ no_id n ≠ "" ∧ ∀ i, i ≠ no_id n → state_of i s' = state_of i s
  else (∀ i, state_of i s' = state_of i s) ∧ (no_queryable n = true → no_id n ≠ "" → is_Some (state_of (no_id n) s)).
Proof.
  unfold claim_note. destruct (negb (no_queryable n) || String.eqb (no_id n) "") eqn:E.
  { eexists false, s. split; [done|]. split; [done|]. intros Hq Hid. apply orb_true_iff in E as [E|E].
    - by rewrite Hq in E.
    - by apply String.eqb_eq in E. }
  apply orb_false_iff in E as [Hq%negb_false_iff Hid%String.eqb_neq].
  unfold mbind, IO_bind at 1, get_extraction_state, io_gets.
  change (find_extraction (no_id n) (extraction_states s)) with (state_of (no_id n) s).
  destruct (state_of (no_id n) s) as [x|] eqn:Ex; [|by eexists true, s].
  destruct (is_settled x); [eexists false, s; split; [done|]; by split; [|eexists]|].
  destruct (String.eqb (xs_status x) "processing"); [|by eexists true, s].
  unfold mbind, IO_bind. cbn -[is_stale mark_extraction_failed]. destruct (is_stale _ _ _); cbn -[mark_extraction_failed].
  - unfold mark_extraction_failed.
    destruct (mark_effect (no_id n) space_id "failed" 0 0 (Some "stale processing lease expired") false
      (s <| readings := Datatypes.S (readings s) |>) eq_refl) as (y & s' & -> & _ & Ho & _). cbn.
    eexists true, s'. split; [done|]. split_and!; [done..|]. intros i Hi. by rewrite Ho.
  - eexists false, _. split; [reflexivity|]. split; [done|]. by eexists.
Qed.

Record pass_inv (s0 : database) (ks : list note) (p : pass) (s : database) : Prop := {
  pv_count : Z.of_nat (length (ps_processed p)) + Z.of_nat (length (ps_failed p)) + ps_skipped p = Z.of_nat (length ks);
  pv_states : ∀ i, state_of i s = state_of i s0 ∨ ∃ x, state_of i s = Some x ∧ xs_status x ≠ "processing";
  pv_known : ∀ n, n ∈ ks → no_queryable n = true → no_id n ≠ "" → is_Some (state_of (no_id n) s);
}.

Lemma pass_note_inv space_id s0 ks p n :
  io_triple (pass_inv s0 ks p) (pass_note space_id p n)
    (λ r s, match r with Ok p => pass_inv s0 (ks ++ [n])%list p s | Raise _ => False end).
Proof.
  intros s [h1 h2 h3]. unfold pass_note, mbind, IO_bind.
  destruct (claim_note_spec space_id n s) as (b & s1 & -> & Hb). destruct b; cbn [negb].
  - destruct Hb as (Hq & Hid & Ho). unfold try_except.
    pose proof (note_settles n _ false s1 eq_refl) as (_ & x & Hx & Hst).
    pose proof (λ i Hi, process_note_others n false i (state_of i s) Hi s1 (Ho i Hi)) as Hothers.
    destruct (process_note_memory n false s1) as [r s2]. cbn [fst snd] in *.
    assert (xs_status x ≠ "processing") as Hnp.
    { destruct r as [rep|e]; [|by rewrite Hst]. destruct Hst as [-> Hin]. intros E. rewrite E in Hin.
      revert Hin. by apply py_in_false. }
    assert (∀ i, state_of i s2 = state_of i s0 ∨ ∃ x, state_of i s2 = Some x ∧ xs_status x ≠ "processing") as Hstates.
    { intros i. destruct (decide (i = no_id n)) as [->|Hi]; [right; eauto|]. rewrite Hothers by done. apply h2. }
    assert (∀ n', n' ∈ (ks ++ [n])%list → no_queryable n' = true → no_id n' ≠ "" → is_Some (state_of (no_id n') s2)) as Hknown.
    { intros n' Hn' Hq' Hid'. destruct (decide (no_id n' = no_id n)) as [->|Hi]; [by eexists|].
      rewrite Hothers by done. apply elem_of_app in Hn' as [Hn'| ->%list_elem_of_singleton]; [by apply h3|done]. }
    destruct r as [rep|e]; (constructor; cbn; rewrite ?length_app; cbn; [lia|done|done]).
  - destruct Hb as [Hs Hk]. constructor; cbn; rewrite ?length_app; cbn; [lia| |].
    + intros i. rewrite Hs. apply h2.
    + intros n' Hn'. rewrite Hs. apply elem_of_app in Hn' as [Hn'| ->%list_elem_of_singleton]; [by apply h3|done].
Qed.

Lemma pass_inv_for space_id s0 l : ∀ ks p s, pass_inv s0 ks p s →
  ∃ p' s', io_for l p (pass_note space_id) s = (Ok p', s') ∧ pass_inv s0 (ks ++ l)%list p' s'.
Proof.
  induction l as [|n l IH]; intros ks p s Hs; simpl; [eexists _, _; split; [reflexivity|by rewrite app_nil_r]|].
  unfold mbind, IO_bind. pose proof (pass_note_inv space_id s0 ks p n s Hs) as Hn.
  destruct (pass_note space_id p n s) as [[p1|e] s1]; [|done].
  destruct (IH _ _ _ Hn) as (p' & s' & E & Hp'). rewrite <- app_assoc in Hp'. eauto.
Qed.
End spec.

(** * The properties *)

Section properties.
Context `{Platform, TextRules, RunEnv, ExtractionEnv}.

(** C15: Whatever is extracted, decided or refused, processing a note settles its state: a report says completed, empty or partial and the state says the same, an exception leaves the state failed, never processing; and the attempts grow by at most one. *)
Theorem processing_settles n force s r s' : process_note_memory n force s = (r, s') →
  attempts (state_of (no_id n) s) ≤ attempts (state_of (no_id n) s') ≤ attempts (state_of (no_id n) s) + 1
  ∧ ∃ x, state_of (no_id n) s' = Some x ∧
    match r with
    | Ok rep => xs_status x = rp_status rep ∧ rp_status rep ∈ ["completed"; "empty"; "partial"]
    | Raise _ => xs_status x = "failed"
    end.
Proof. intros E. pose proof (note_settles n _ force s eq_refl) as Hn. rewrite E in Hn. exact Hn. Qed.

(** C31: When a note is completed, nothing of it is lost or left open: every extracted candidate is recorded, and every valid one is applied, put up for review or discarded. *)
Theorem completed_note_is_decided n force s rep s' : process_note_memory n force s = (Ok rep, s') →
  rp_status rep = "completed" → rp_idempotent rep = false →
  ∃ found s0, extract_candidates n s0 = Ok found ∧ saved (map (enriched n) found) s'
    ∧ (∀ y, y ∈ (validate_candidates (map (enriched n) found) (no_text n)).1 → decided (id_of y) s')
    ∧ rp_candidates rep = Z.of_nat (length (validate_candidates (map (enriched n) found) (no_text n)).1).
Proof. intros E. pose proof (note_completes n force s I) as Hn. rewrite E in Hn. exact Hn. Qed.

(** Processing a note changes the memories only by calls of the store, so that all that is proved of the store holds with the extraction at work, and it leaves the states of the other notes alone. *)
Theorem processing_follows_store n force s :
  rtc store_step (memory_store s) (memory_store (process_note_memory n force s).2)
  ∧ ∀ i, i ≠ no_id n → state_of i (process_note_memory n force s).2 = state_of i s.
Proof.
  split; [by apply process_note_steps|]. intros i Hi. by apply process_note_others.
Qed.

(** The daily pass over the notes always ends with a report that accounts for every note it looked at, whatever fails; afterwards every note that can be queried has a state, which is not processing unless it was before and the lease of the other process still runs. *)
Theorem daily_pass_accounts_for_notes space_id index limit s :
  let notes := take (Z.to_nat (Z.max 1 (Z.min limit 500))) index in
  ∃ p s', process_unextracted_notes space_id index limit s = (Ok p, s')
    ∧ Z.of_nat (length (ps_processed p)) + Z.of_nat (length (ps_failed p)) + ps_skipped p = Z.of_nat (length notes)
    ∧ ∀ n, n ∈ notes → no_queryable n = true → no_id n ≠ "" →
        ∃ x, state_of (no_id n) s' = Some x ∧ (xs_status x = "processing" → state_of (no_id n) s = Some x).
Proof.
  intros notes. destruct (pass_inv_for space_id s notes [] (Pass [] [] 0) s) as (p & s' & E & [h1 h2 h3]).
  { constructor; [done|by left|by intros ? ?%not_elem_of_nil]. }
  exists p, s'. split; [exact E|]. split; [exact h1|]. intros n Hn Hq Hid.
  destruct (h3 n Hn Hq Hid) as [x Hx]. exists x. split; [done|]. intros Hst.
  destruct (h2 (no_id n)) as [Es|(y & Hy & Hnp)]; congruence.
Qed.
End properties.

(** * Witnesses *)

Module Example.
#[local] Existing Instance test_platform.
#[local] Existing Instance test_rules.
#[local] Existing Instance MemoryRuns.Example.test_runs.

Definition liked (content : string) (span : string) : extracted :=
  Extracted (Candidate "x" "semantic" content (1 # 2) (3 # 4) None None None None None None None "v1" None "{}")
    None true None None (Some span) [] (ScopeKeys false false "" "").
(** Each candidate becomes a memory of its own; what is about coffee cannot be related. *)
Definition insert_decision (c : extracted) : related :=
  Related c (Decision ("d:" +:+ id_of c) (id_of c) "new" [] (3 # 4) "new" "insert" None) [].
Definition test_extraction (found : list extracted) : ExtractionEnv := {|
  extraction_rules := CandidateValidation.Example.test_validation;
  MEMORY_EXTRACTOR_MODE := "llm";
  may_contain_memory := λ _, true;
  extract_candidates := λ n _, if String.eqb (no_text n) "" then Raise (RuntimeError "no text") else Ok found;
  relate := λ _ _ x _, if str_contains "coffee" (c_content (x_candidate x)) then Raise (TimeoutError "model")
                       else Ok (insert_decision x);
  coordinated_memory_lock := λ _ _ _, Ok tt;
  uuid5_hex := λ s, String.string_of_list_ascii (rev (String.list_ascii_of_string s));
|}.
Definition tea_note : note := MkNote "n1" "s1" "I like green tea and milk" "" true.

#[local] Abbreviation process_with found :=
  (@process_note_memory _ _ _ (test_extraction found) tea_note false empty_database).
Definition statuses (s : database) : list string := map cr_status (memory_candidates (memory_store s)).

Definition drinks : list extracted := [liked "likes green tea" "green tea"; liked "likes milk" "milk"; liked "ok" ""].
Definition drinks_report : report := match process_with drinks with (Ok r, _) => r | _ => Report 0 [] [] "" false end.

(** One candidate fails: the note is partial. *)
Definition mixed : list extracted := [liked "likes green tea" "green tea"; liked "likes coffee" ""].

Lemma processing_settles_witness :
  match (process_with mixed).1 with Ok rep => rp_status rep | Raise _ => "" end = "partial"
  ∧ attempts (state_of (no_id tea_note) (process_with mixed).2)
    ≤ attempts (state_of (no_id tea_note) empty_database) + 1.
Proof.
  split; [vm_compute; reflexivity|].
  apply (@processing_settles _ _ _ (test_extraction mixed) tea_note false empty_database (process_with mixed).1
    (process_with mixed).2 (surjective_pairing (process_with mixed))).
Defined.

#[local] Instance drinks_env : ExtractionEnv := test_extraction drinks.
Lemma completed_note_is_decided_witness :
  statuses (process_with drinks).2 = ["applied"; "applied"; "discarded"]
  ∧ ∃ found s0, extract_candidates tea_note s0 = Ok found
      ∧ saved (map (enriched tea_note) found) (process_note_memory tea_note false empty_database).2
      ∧ (∀ y, y ∈ (validate_candidates (map (enriched tea_note) found) (no_text tea_note)).1 →
           decided (id_of y) (process_note_memory tea_note false empty_database).2)
      ∧ rp_candidates drinks_report
        = Z.of_nat (length (validate_candidates (map (enriched tea_note) found) (no_text tea_note)).1).
Proof.
  split; [vm_compute; reflexivity|].
  apply (completed_note_is_decided tea_note false empty_database drinks_report); vm_compute; reflexivity.
Defined.

(** Two candidates with the same text and different passages have the same identifier: the
    rejection of the second discards the row of the first, which is then skipped as decided, and
    nothing becomes a memory although the note is completed. *)
Example duplicate_discards_both :
  let s := (process_with [liked "likes green tea" "green tea"; liked "likes green tea" "tea"]).2 in
  statuses s = ["discarded"] ∧ memories (memory_store s) = [] ∧
  option_map xs_status (state_of "n1" s) = Some "completed".
Proof. vm_compute. by split_and!. Qed.
End Example.
