(* ===== verification/Ingestion.v ===== *)
(** From a record of the log to a note ([core/worker.py]): sensitive records are blocked, the
    others become a note with a local classification and are processed into memories; later a
    note is enriched with the classification of the model, a vector and related notes.

    The notes, the vectors and the log are given by their interfaces.  What the model and the
    embedding service reply are parameters.  Cards are off, as by default; a card would only
    change which further data the memories see. *)

From stdpp Require Import base list strings gmap.
From Stdlib Require Import ZArith Lia.
From S2P Require Import Prelude Consistency TextChunks Regex Sensitive Classifier Memory MemoryRuns CandidateValidation.
From S2P Require Import MemoryExtraction Wal Notes Vectors.

Open Scope string_scope.
Open Scope Z_scope.

(** The log of received messages. *)
Class MessageLog (L : Type) := {
  log_load_pending : string → L → result (list wal_record);
  log_append_once : wal_record → IO L bool;
  log_mark_processed : string → string → IO L unit;
  log_mark_blocked : string → string → string → bool → IO L unit;
}.

(** [w_invalidated] are the calls of [invalidate_space_cache]. *)
Record world (S L : Type) := World {
  w_notes : S;
  w_log : L;
  w_memory : database;
  w_invalidated : list string;
}.
Arguments World {S L}.
Arguments w_notes {S L}.
Arguments w_log {S L}.
Arguments w_memory {S L}.
Arguments w_invalidated {S L}.
#[export] Instance world_eta S L : Eta (world S L) := λ r, World (w_notes r) (w_log r) (w_memory r) (w_invalidated r).

Class Embeddings := {
  embed_text : string → result (list float);
  RELATED_TOP_K : Z;
  RELATED_MIN_SCORE : float;
  ENRICHMENT_MAX_ATTEMPTS : Z;
}.

Section ingestion.
Context `{Platform, Unicode, TextRules, RunEnv, ExtractionEnv, ClassifierModel, Embeddings}.
Context {S L : Type} `{NoteStore S, VectorStore S, MessageLog L}.
Abbreviation W := (world S L).

(** Operations on a part of the world *)
Definition on_notes {A} (m : IO S A) : IO W A := λ w,
  let '(r, s) := m (w_notes w) in (r, w <| w_notes := s |>).
Definition on_log {A} (m : IO L A) : IO W A := λ w,
  let '(r, l) := m (w_log w) in (r, w <| w_log := l |>).
Definition on_memory {A} (m : IO database A) : IO W A := λ w,
  let '(r, d) := m (w_memory w) in (r, w <| w_memory := d |>).
Definition invalidate_space_cache (space_id : string) : IO W unit :=
  io_modify (λ w, w <| w_invalidated := (w_invalidated w ++ [space_id])%list |>).

(** What the memories see of a note *)
Definition memory_note (n : NoteMetadata) : note :=
  MkNote (nm_id n) (nm_space_id n) (nm_text n)
    (String.concat US (nm_title n :: nm_type n :: nm_summary n :: nm_tags n)) (is_note_queryable n).
(** [_process_memory_with_route] *)
Definition process_memory (n : NoteMetadata) : IO W report := on_memory (process_note_memory (memory_note n) false).
(** An exception is reported to the log only. *)
Definition process_memory_safely (n : NoteMetadata) : IO W unit :=
  try_except (process_memory n) (λ _, mret tt) (λ _, mret tt).

Definition find_note_by_message_id (space_id message_id : string) : IO W (option NoteMetadata) :=
  ns ← on_notes (load_index space_id);
  mret (List.find (λ n, String.eqb (nm_message_id n) message_id) ns).

(** ** A record *)

Definition provisional_note (r : wal_record) (tenant_id : string) (c : classification) : NoteMetadata :=
  Note (w_id r) (w_message_id r) (w_space_id r) (w_ts r) (cl_title c) (cl_tags c) (cl_type c) (cl_summary c) (w_text r) []
    "provisional" 0 None None None "normal" (str_or tenant_id "default").

(** The branch for a message that has a note already *)
Definition recover_memory (n : NoteMetadata) : IO W unit :=
  if is_note_queryable n then
    state ← (if String.eqb (nm_id n) "" then mret None else on_memory (get_extraction_state (nm_id n)));
    match state with
    | None => process_memory_safely n
    | Some x => if py_in (xs_status x) ["pending"; "failed"; "partial"] then process_memory_safely n else mret tt
    end
  else mret tt.

Definition process_record (r : wal_record) (tenant_id : string) (defer_memory defer_wal_completion : bool) :
    IO W (option NoteMetadata) :=
  let sensitive := assess_sensitive_text (w_text r) in
  if sa_blocks_storage sensitive then
    on_log (log_mark_blocked (w_space_id r) (w_id r) (opt_or (sa_category sensitive) "sensitive") defer_wal_completion);;
    mret None
  else
    exists_ ← on_notes (note_exists (w_space_id r) (w_message_id r));
    if exists_ : bool then
      n ← find_note_by_message_id (w_space_id r) (w_message_id r);
      match n with Some n => if defer_memory then mret tt else recover_memory n | None => mret tt end;;
      (if defer_wal_completion then mret tt else on_log (log_mark_processed (w_space_id r) (w_id r)));;
      mret n
    else
      let n := provisional_note r tenant_id (classify_text_local (w_text r)) in
      on_notes (save_note n);;
      invalidate_space_cache (w_space_id r);;
      (if defer_memory then mret tt else process_memory_safely n);;
      (if defer_wal_completion then mret tt else on_log (log_mark_processed (w_space_id r) (w_id r)));;
      mret (Some n).

(** ** The pending records of a space *)

(** [count] and [seen_message_ids] *)
Definition process_pending_record (space_id : string) (acc : Z * list string) (r : wal_record) : IO W (Z * list string) :=
  let '(count, seen) := acc in
  if py_in (w_message_id r) seen then
    if String.eqb (w_id r) "" then mret acc
    else on_log (log_mark_processed space_id (w_id r));; mret (count + 1, seen)
  else
    let seen := if String.eqb (w_message_id r) "" then seen else w_message_id r :: seen in
    try_except (process_record r "" false false) (λ _, mret (count, seen)) (λ _, mret (count + 1, seen)).

Definition process_pending (space_id : string) : IO W Z :=
  pending ← io_gets (λ w, log_load_pending space_id (w_log w));
  records ← io_lift pending;
  acc ← io_for records (0, []) (process_pending_record space_id);
  mret acc.1.

(** ** Enrichment *)

Definition note_vector (note_id : string) (n : NoteMetadata) (c : classification) (embedding : list float) : VectorItem :=
  Vector note_id (nm_message_id n) (nm_text n) embedding (cl_title c) (cl_tags c) (cl_type c) (cl_summary c) (nm_ts n)
    (Some "normal").

Definition wants_enrichment (n : NoteMetadata) (has_vector : bool) : bool :=
  let status := str_or (nm_enrichment_status n) "ready" in
  negb (String.eqb status "ready" && has_vector)
  && negb (py_in status ["failed"; "enriching"] && (ENRICHMENT_MAX_ATTEMPTS <=? nm_enrichment_attempts n)).

(** The body of the [try] *)
Definition enrich (space_id note_id : string) (n : NoteMetadata) : IO W unit :=
  c ← io_lift (classify_text (nm_text n));
  embedding ← io_lift (embed_text (nm_text n));
  related ← on_notes (search_related_note_ids space_id embedding
    (SearchOptions RELATED_TOP_K (Some note_id) (Some RELATED_MIN_SCORE)));
  on_notes (add_vector_item space_id (note_vector note_id n c embedding));;
  finished_at ← on_memory read_now;
  on_notes (update_note_metadata space_id note_id
    [UTitle (cl_title c); UTags (cl_tags c); UType (cl_type c); USummary (cl_summary c); URelated related;
     UStatus "ready"; UError None; UUpdatedAt (Some (now_iso finished_at))]);;
  invalidate_space_cache space_id.

Definition enrich_note (space_id note_id : string) : IO W bool :=
  found ← on_notes (find_note space_id note_id);
  match found with
  | None => mret false
  | Some n =>
      if negb (is_note_queryable n) then mret false
      else
        has_vector ← (if String.eqb (str_or (nm_enrichment_status n) "ready") "ready"
                      then on_notes (vector_item_exists space_id note_id (Some (nm_message_id n))) else mret false);
        if negb (wants_enrichment n has_vector) then mret false
        else
          now ← on_memory read_now;
          on_notes (update_note_metadata space_id note_id
            [UStatus "enriching"; UAttempts (nm_enrichment_attempts n + 1); UError None;
             UStartedAt (Some (now_iso now)); UUpdatedAt (Some (now_iso now))]);;
          try_except (enrich space_id note_id n)
            (λ e,
              failed_at ← on_memory read_now;
              on_notes (update_note_metadata space_id note_id
                [UStatus "failed"; UError (Some "background_enrichment_failed"); UUpdatedAt (Some (now_iso failed_at))]);;
              invalidate_space_cache space_id;;
              throw e)
            (λ _, mret true)
  end.

(** A vector for a note that has none *)
Definition backfill_vector_if_missing (space_id message_id : string) : IO W bool :=
  found ← find_note_by_message_id space_id message_id;
  match found with
  | None => mret false
  | Some n =>
      if negb (is_note_queryable n) || String.eqb (nm_id n) "" then mret false
      else
        known ← on_notes (vector_item_exists space_id (nm_id n) (Some message_id));
        let text := py_strip (nm_text n) in
        if (known : bool) || String.eqb text "" then mret false
        else
          embedding ← io_lift (embed_text text);
          on_notes (add_vector_item space_id
            (Vector (nm_id n) message_id text embedding (nm_title n) (nm_tags n) (nm_type n) (nm_summary n) (nm_ts n) None))
  end.
End ingestion.

(** The log of the local mode *)
#[global] Instance wal_log `{Json} : MessageLog files := {|
  log_load_pending := load_pending_records;
  log_append_once := append_message_once;
  log_mark_processed := mark_processed;
  log_mark_blocked := mark_sensitive_blocked;
|}.
