(* ===== verification/IngestionSpec.v ===== *)
(** What the ingestion promises, for any store of notes and log that keep their contracts and
    whatever fails in between: no sensitive text becomes a note, a message becomes one note, no
    message is lost between the log and the notes, and a note is enriched a bounded number of
    times. *)

From stdpp Require Import base list strings gmap.
From Stdlib Require Import ZArith Lia.
From S2P Require Import Prelude Consistency TextChunks Regex Sensitive Classifier Memory MemoryRuns CandidateValidation.
From S2P Require Import MemoryExtraction Wal Notes Vectors Ingestion.

Open Scope string_scope.
Open Scope Z_scope.

(** * The contract of a log *)

(** [log_view space_id l]: the records of the log of the space. *)
Class LogLaws (L : Type) `{MessageLog L} (same_log : string → string → bool) (log_view : string → L → list wal_record)
    (valid : L → Prop) : Prop := {
  same_log_view : ∀ a b l, same_log a b = true → log_view a l = log_view b l;
  same_log_sym : ∀ a b, same_log a b = same_log b a;
  same_log_trans : ∀ a b c, same_log a b = true → same_log b c = true → same_log a c = true;
  log_ids_unique : ∀ sid l, valid l → NoDup (map w_id (log_view sid l));
  log_ids_given : ∀ sid l r, valid l → r ∈ log_view sid l → w_id r ≠ "";
  log_own : ∀ sid l r, valid l → r ∈ log_view sid l → same_log (w_space_id r) sid = true;
  pending_records_law : ∀ sid l, valid l →
    log_load_pending sid l = Ok (List.filter (λ r, String.eqb (w_status r) "pending") (log_view sid l));
  append_law : ∀ r l, valid l → w_id r ≠ "" → w_id r ∉ map w_id (log_view (w_space_id r) l) → ∃ l',
    let known := existsb (λ x, String.eqb (w_message_id x) (w_message_id r)) (log_view (w_space_id r) l) in
    log_append_once r l = (Ok (negb known), l') ∧ valid l' ∧
    ∀ sid, log_view sid l' = if same_log sid (w_space_id r) && negb known then (log_view sid l ++ [r])%list else log_view sid l;
  mark_processed_law : ∀ sid rid l, valid l → ∃ l', log_mark_processed sid rid l = (Ok tt, l') ∧ valid l' ∧
    ∀ sid', log_view sid' l' = if same_log sid' sid
      then map (λ r, if String.eqb (w_id r) rid then processed r else r) (log_view sid' l) else log_view sid' l;
  mark_blocked_law : ∀ sid rid category preserve l, valid l → ∃ l',
    log_mark_blocked sid rid category preserve l = (Ok tt, l') ∧ valid l' ∧
    ∀ sid', log_view sid' l' = if same_log sid' sid
      then map (λ r, if String.eqb (w_id r) rid then blocked category preserve r else r) (log_view sid' l) else log_view sid' l;
}.

Section spec.
Context `{Platform, Unicode, TextRules, RunEnv, ExtractionEnv, ClassifierModel, Embeddings}.
Context {S L : Type} `{NoteStore S, VectorStore S, MessageLog L}.
Context (valid : S → Prop) `{!NoteLaws S valid, !VectorLaws S valid}.
Abbreviation W := (world S L).

(** * Properties of the texts *)

Definition text_key (n : NoteMetadata) : string * string * string * string :=
  (nm_id n, nm_message_id n, nm_text n, nm_sensitivity n).
Definition same_texts (s s' : S) : Prop :=
  ∀ sid, map text_key (notes_of sid s') = map text_key (notes_of sid s).

(** The world changes at most in what enrichment and the memories write. *)
Record moves (w w' : W) : Prop := {
  mv_log : w_log w' = w_log w;
  mv_texts : same_texts (w_notes w) (w_notes w');
  mv_valid : valid (w_notes w) → valid (w_notes w');
}.
#[local] Instance moves_preorder : PreOrder moves.
Proof.
  split; [by split|]. intros a b c [L1 T1 V1] [L2 T2 V2]. split; [congruence| |auto]. intros sid. by rewrite T2, T1.
Qed.

Lemma has_message_texts m ns : has_message m ns = existsb (λ k, String.eqb k.1.1.2 m) (map text_key ns).
Proof. unfold has_message. induction ns as [|n ns IH]; simpl; [done|]. by rewrite IH. Qed.

Lemma update_first_texts id us ns : map text_key (update_first id (with_metadata us) ns) = map text_key ns.
Proof.
  induction ns as [|n ns IH]; simpl; [done|]. destruct (String.eqb _ _); simpl; [|by rewrite IH].
  destruct (with_metadata_keeps us n) as (E0 & E1 & _ & E2 & E3). unfold text_key at 1. by rewrite E0, E1, E2, E3.
Qed.

(** [quiet m]: the program moves the world, whatever it returns. *)
Definition quiet {A} (P : W → Prop) (m : IO W A) : Prop := ∀ w, valid (w_notes w) → P w → moves w (m w).2.
Definition present (sid id : string) (w : W) : Prop := is_Some (with_id id (notes_of sid (w_notes w))).

Lemma notes_move w s : same_notes (w_notes w) s → valid s → moves w (w <| w_notes := s |>).
Proof. intros Hs Hv. split; [done| |done]. intros sid. simpl. by rewrite Hs. Qed.

Lemma memory_moves {A} (m : IO database A) : quiet (λ _, True) (on_memory m).
Proof. intros w _ _. unfold on_memory. by destruct (m (w_memory w)). Qed.
Lemma invalidate_moves sid : quiet (λ _, True) (invalidate_space_cache (S := S) (L := L) sid).
Proof. by intros w. Qed.
Lemma load_moves sid : quiet (λ _, True) (on_notes (L := L) (load_index sid)).
Proof.
  intros w Hv _. destruct (load_law sid (w_notes w) Hv) as (s' & Hv' & Hs & ns & E & _). unfold on_notes. rewrite E.
  by apply notes_move.
Qed.
Lemma find_moves sid id : quiet (λ _, True) (on_notes (L := L) (find_note sid id)).
Proof. intros w Hv _. destruct (find_law sid id (w_notes w) Hv) as (s' & Hv' & Hs & E). unfold on_notes. rewrite E. by apply notes_move. Qed.
Lemma exists_moves sid mid : quiet (λ _, True) (on_notes (L := L) (note_exists sid mid)).
Proof. intros w Hv _. destruct (exists_law sid mid (w_notes w) Hv) as (s' & Hv' & Hs & E). unfold on_notes. rewrite E. by apply notes_move. Qed.
Lemma vector_exists_moves sid id mid : quiet (λ _, True) (on_notes (L := L) (vector_item_exists sid id mid)).
Proof.
  intros w Hv _. destruct (vector_exists_law sid id mid (w_notes w) Hv) as (s' & Hv' & Hs & _ & E). unfold on_notes. rewrite E.
  by apply notes_move.
Qed.
Lemma add_vector_moves sid v : quiet (λ _, True) (on_notes (L := L) (add_vector_item sid v)).
Proof.
  intros w Hv _. unfold on_notes. destruct (add_vector_item sid v (w_notes w)) as [r s'] eqn:E.
  destruct (add_vector_law sid v _ _ _ Hv E) as (Hv' & Hs & _). by apply notes_move.
Qed.
Lemma search_moves sid q o : quiet (λ _, True) (on_notes (L := L) (search_related_note_ids sid q o)).
Proof.
  intros w Hv _. unfold on_notes, search_related_note_ids, mbind, IO_bind. destruct (search_related sid q o (w_notes w)) as [r s'] eqn:E.
  destruct (search_vector_law sid q o _ _ _ Hv E) as (Hv' & Hs & _). destruct r; by apply notes_move.
Qed.
Lemma update_moves sid id us : quiet (present sid id) (on_notes (L := L) (update_note_metadata sid id us)).
Proof.
  intros w Hv Hp. unfold on_notes. destruct (update_note_metadata sid id us (w_notes w)) as [r s'] eqn:E.
  destruct (update_law sid id us _ _ _ Hv Hp E) as [Hv' Hr]. split; [done| |done]. intros sid'. simpl. destruct r as [o|e].
  - destruct Hr as [Hc _]. rewrite (Hc sid'). destruct (same_space sid' sid); [apply update_first_texts|done].
  - by rewrite Hr.
Qed.

Lemma present_texts sid id w : present sid id w ↔ id ∈ map (λ k, k.1.1.1) (map text_key (notes_of sid (w_notes w))).
Proof.
  unfold present, with_id. rewrite map_map. simpl. induction (notes_of sid (w_notes w)) as [|n ns IH]; simpl.
  - split; [by intros [? ?]|by intros ?%elem_of_nil].
  - destruct (String.eqb_spec (nm_id n) id) as [->|Hne].
    + split; [intros _; by left|by eexists].
    + rewrite IH, elem_of_cons. split; [by right|]. by intros [->|].
Qed.
Lemma moves_present sid id w w' : moves w w' → present sid id w → present sid id w'.
Proof. intros Hm. rewrite !present_texts. by rewrite (mv_texts _ _ Hm). Qed.

(** ** Composition *)

Section quiet.
Variable P : W → Prop.
Hypothesis P_moves : ∀ w w', moves w w' → P w → P w'.

Lemma quiet_pre {A} (m : IO W A) : quiet (λ _, True) m → quiet P m.
Proof. intros Hm w Hv _. by apply Hm. Qed.
Lemma quiet_ret {A} (a : A) : quiet P (mret a).
Proof. by intros w. Qed.
Lemma quiet_lift {A} (r : result A) : quiet P (io_lift r).
Proof. by intros w. Qed.
Lemma quiet_throw {A} e : quiet P (@throw W A e).
Proof. by intros w. Qed.
Lemma quiet_gets {A} (f : W → A) : quiet P (io_gets f).
Proof. by intros w. Qed.
Lemma quiet_bind {A B} (m : IO W A) (f : A → IO W B) : quiet P m → (∀ a, quiet P (f a)) → quiet P (m ≫= f).
Proof.
  intros Hm Hf w Hv HP. unfold mbind, IO_bind. specialize (Hm w Hv HP). destruct (m w) as [[a|e] w1]; [|done].
  etrans; [exact Hm|]. apply Hf; [by apply Hm|by eapply P_moves].
Qed.
Lemma quiet_try {A B} (m : IO W A) (h : exn → IO W B) k : quiet P m → (∀ e, quiet P (h e)) → (∀ a, quiet P (k a)) →
  quiet P (try_except m h k).
Proof.
  intros Hm Hh Hk w Hv HP. unfold try_except. specialize (Hm w Hv HP). destruct (m w) as [[a|e] w1];
    (etrans; [exact Hm|]).
  - apply Hk; [by apply Hm|by eapply P_moves].
  - apply Hh; [by apply Hm|by eapply P_moves].
Qed.
End quiet.

Lemma quiet_keeps {A} P (I : W → Prop) (m : IO W A) : quiet P m → (∀ w, I w → valid (w_notes w) ∧ P w) →
  (∀ w w', moves w w' → I w → I w') → io_keeps I m.
Proof. intros Hm HI Hmv w Hw. destruct (HI w Hw) as [Hv HP]. eapply Hmv; [by apply Hm|done]. Qed.

Ltac quiet_step :=
  lazymatch goal with
  | |- quiet _ (mret _) => apply quiet_ret
  | |- quiet _ (throw _) => apply quiet_throw
  | |- quiet _ (io_gets _) => apply quiet_gets
  | |- quiet _ (io_lift _) => apply quiet_lift
  | |- quiet _ (mbind _ _) => apply quiet_bind; [eauto using moves_present| |intros ?]
  | |- quiet _ (try_except _ _ _) => apply quiet_try; [eauto using moves_present| |intros ?|intros ?]
  | |- quiet _ (match ?x with _ => _ end) => destruct x eqn:?
  end.
Ltac quiet_leaf :=
  first [ apply quiet_pre, memory_moves | apply quiet_pre, invalidate_moves | apply quiet_pre, load_moves
        | apply quiet_pre, find_moves | apply quiet_pre, exists_moves | apply quiet_pre, vector_exists_moves
        | apply quiet_pre, add_vector_moves | apply quiet_pre, search_moves | apply update_moves ].
Ltac quiet_auto := repeat quiet_step; try quiet_leaf; eauto.

Lemma process_memory_quiet n : quiet (λ _, True) (process_memory_safely (S := S) (L := L) n).
Proof. unfold process_memory_safely, process_memory. quiet_auto. Qed.
Lemma recover_memory_quiet n : quiet (λ _, True) (recover_memory (S := S) (L := L) n).
Proof. unfold recover_memory. quiet_auto; apply process_memory_quiet. Qed.
Lemma enrich_quiet sid id n : quiet (present sid id) (enrich (L := L) sid id n).
Proof. unfold enrich. quiet_auto. Qed.
Lemma backfill_quiet sid mid : quiet (λ _, True) (backfill_vector_if_missing (S := S) (L := L) sid mid).
Proof. unfold backfill_vector_if_missing, find_note_by_message_id. quiet_auto. Qed.

(** Enrichment moves the world. *)
Lemma enrich_note_quiet sid id : quiet (λ _, True) (enrich_note (S := S) (L := L) sid id).
Proof.
  intros w Hv _. unfold enrich_note. unfold mbind at 1, IO_bind.
  destruct (find_law sid id (w_notes w) Hv) as (s' & Hv' & Hs & E). unfold on_notes at 1. rewrite E.
  assert (moves w (w <| w_notes := s' |>)) as Hm by (by apply notes_move).
  destruct (with_id id (notes_of sid (w_notes w))) as [n|] eqn:En; [|exact Hm].
  etrans; [exact Hm|]. match goal with |- moves ?w1 (?m _).2 => assert (quiet (present sid id) m) as Hq; [|apply Hq] end.
  - quiet_auto. apply enrich_quiet.
  - done.
  - unfold present. simpl. rewrite Hs, En. by eexists.
Qed.

(** * No sensitive text, and each message once *)

Definition clean (n : NoteMetadata) : Prop :=
  Sensitive.contains_sensitive_data (nm_text n) = false ∧ nm_sensitivity n = "normal".
Definition sound (w : W) : Prop :=
  valid (w_notes w) ∧ ∀ sid, NoDup (map nm_message_id (notes_of sid (w_notes w))) ∧ Forall clean (notes_of sid (w_notes w)).

Lemma moves_sound w w' : moves w w' → sound w → sound w'.
Proof.
  intros Hm [Hv Hs]. split; [by apply Hm|]. intros sid. destruct (Hs sid) as [Hnd Hc]. pose proof (mv_texts _ _ Hm sid) as E. split.
  - assert (∀ ns, map nm_message_id ns = map (λ k, k.1.1.2) (map text_key ns)) as Ek by (intros ns; by rewrite map_map).
    by rewrite Ek, E, <- Ek.
  - assert (∀ ns, Forall clean ns ↔ Forall (λ k, Sensitive.contains_sensitive_data k.1.2 = false ∧ k.2 = "normal") (map text_key ns)) as Ek.
    { intros ns. rewrite Forall_map. done. }
    by rewrite Ek, E, <- Ek.
Qed.
Lemma sound_log w l : sound w → sound (w <| w_log := l |>).
Proof. done. Qed.

Lemma has_message_true m ns : has_message m ns = true ↔ m ∈ map nm_message_id ns.
Proof.
  unfold has_message. rewrite existsb_exists, elem_of_map. split.
  - intros (n & Hin & E%String.eqb_eq). exists n. split; [done|by apply list_elem_of_In].
  - intros (n & E & Hin). exists n. split; [by apply list_elem_of_In|by apply String.eqb_eq].
Qed.

(** Saving the note of a record *)
Lemma save_provisional r tenant_id c w : sa_blocks_storage (assess_sensitive_text (w_text r)) = false → sound w →
  let n := provisional_note r tenant_id c in
  let '(res, w') := on_notes (L := L) (save_note n) w in
  sound w' ∧ w_log w' = w_log w
  ∧ (∀ sid m, m ∈ map nm_message_id (notes_of sid (w_notes w)) → m ∈ map nm_message_id (notes_of sid (w_notes w')))
  ∧ (is_Ok res → w_message_id r ∈ map nm_message_id (notes_of (home n (w_notes w)) (w_notes w'))).
Proof.
  intros Hb [Hv Hs] n. unfold on_notes. destruct (save_note n (w_notes w)) as [res s'] eqn:E.
  destruct (save_law n _ _ _ Hv E) as [Hv' Hr].
  assert (same_notes (w_notes w) s' → sound (w <| w_notes := s' |>)) as Hsame.
  { intros Hsame. eapply moves_sound; [by apply notes_move|done]. }
  destruct res as [b|e].
  2: { split_and!; [by apply Hsame|done|intros sid m; simpl; by rewrite Hr|by intros []]. }
  change (nm_message_id n) with (w_message_id r) in Hr.
  destruct (has_message (w_message_id r) (notes_of (home n (w_notes w)) (w_notes w))) eqn:Em.
  { apply has_message_true in Em. split_and!; [by apply Hsame|done|intros sid m; simpl; by rewrite Hr|intros _; simpl; by rewrite Hr]. }
  assert (∀ sid, notes_of sid s' = (notes_of sid (w_notes w) ++ if same_space sid (home n (w_notes w)) then [stored n (w_notes w)] else [])%list) as Hn.
  { intros sid. rewrite (Hr sid). destruct (same_space _ _); [done|by rewrite app_nil_r]. }
  destruct (stored_keeps n (w_notes w)) as (K1 & K2 & K3 & K4 & _). split_and!; [|done| |].
  - split; [done|]. intros sid. simpl. rewrite Hn. destruct (Hs sid) as [Hnd Hc]. destruct (same_space sid _) eqn:Es; [|by rewrite app_nil_r].
    split.
    + rewrite map_app. apply NoDup_app. split_and!; [done| |apply NoDup_singleton]. intros m Hm Hm'%list_elem_of_singleton.
      apply not_true_iff_false in Em. apply Em, has_message_true. rewrite (same_space_notes _ _ _ Es) in Hm. by rewrite Hm', K2 in Hm.
    + apply Forall_app. split; [done|]. repeat constructor; [rewrite K3; simpl; by rewrite <- sensitive_is_blocked|by apply K4].
  - intros sid m Hm. simpl. rewrite Hn, map_app. apply elem_of_app. by left.
  - intros _. simpl. rewrite Hn, same_space_refl, map_app. apply elem_of_app. right. simpl. rewrite K2. by left.
Qed.

Lemma quiet_sound {A} (m : IO W A) : quiet (λ _, True) m → io_keeps sound m.
Proof. intros Hm. apply (quiet_keeps (λ _, True)); [done|by intros w [? _]|apply moves_sound]. Qed.
Lemma log_sound {A} (m : IO L A) : io_keeps sound (on_log (S := S) m).
Proof. intros w Hw. unfold on_log. destruct (m (w_log w)). exact Hw. Qed.

Ltac sound_leaf :=
  first [ apply log_sound | apply quiet_sound; first [apply process_memory_quiet | apply recover_memory_quiet | quiet_leaf] ].
Lemma find_message_sound sid mid : io_keeps sound (find_note_by_message_id (S := S) (L := L) sid mid).
Proof. unfold find_note_by_message_id. io_auto; sound_leaf. Qed.
Lemma process_record_sound r tenant_id dm dw : io_keeps sound (process_record (S := S) (L := L) r tenant_id dm dw).
Proof.
  unfold process_record. io_auto; try sound_leaf; try apply find_message_sound.
  intros w Hw. pose proof (save_provisional r tenant_id (classify_text_local (w_text r)) w) as Hsave.
  cbv zeta in Hsave. destruct (on_notes _ w). by apply Hsave.
Qed.
Lemma process_pending_sound sid : io_keeps sound (process_pending (S := S) (L := L) sid).
Proof.
  unfold process_pending. io_auto. apply io_keeps_for. intros acc r. unfold process_pending_record.
  destruct acc as [count seen]. io_auto; try sound_leaf. repeat keeps_step. apply process_record_sound.
Qed.

(** ** The system: what may happen to the world *)

Context (same_log : string → string → bool) (log_view : string → L → list wal_record) (log_valid : L → Prop).
Context `{!LogLaws L same_log log_view log_valid}.

(** The log has a record with this identity. *)
Definition known_record (r : wal_record) (w : W) : Prop :=
  ∃ x, x ∈ log_view (w_space_id r) (w_log w) ∧ w_id x = w_id r ∧ w_message_id x = w_message_id r ∧ w_space_id x = w_space_id r.

Inductive ingest_step : W → W → Prop :=
  | step_receive r w b l :
      w_status r = "pending" → w_id r ≠ "" → w_id r ∉ map w_id (log_view (w_space_id r) (w_log w)) →
      log_append_once r (w_log w) = (Ok b, l) → ingest_step w (w <| w_log := l |>)
  | step_record r tenant_id defer_memory w res w' :
      known_record r w → process_record r tenant_id defer_memory false w = (res, w') → ingest_step w w'
  | step_pending sid w res w' : process_pending sid w = (res, w') → ingest_step w w'
  | step_enrich sid id w res w' : enrich_note sid id w = (res, w') → ingest_step w w'
  | step_backfill sid mid w res w' : backfill_vector_if_missing sid mid w = (res, w') → ingest_step w w'
  | step_memory d w : ingest_step w (w <| w_memory := d |>).

Lemma step_sound w w' : ingest_step w w' → sound w → sound w'.
Proof.
  intros Hstep Hw. destruct Hstep as [| |sid w res w' E|sid id w res w' E|sid mid w res w' E|]; [done| | | | |done].
  - match goal with E : process_record _ _ _ _ _ = _ |- _ => pose proof (process_record_sound r tenant_id defer_memory false w Hw) as Hp; by rewrite E in Hp end.
  - pose proof (process_pending_sound sid w Hw) as Hp. by rewrite E in Hp.
  - pose proof (quiet_sound _ (enrich_note_quiet sid id) w Hw) as Hp. by rewrite E in Hp.
  - pose proof (quiet_sound _ (backfill_quiet sid mid) w Hw) as Hp. by rewrite E in Hp.
Qed.

(** * No message is lost *)

Hypothesis homes : ∀ n s, valid s → same_space (home n s) (nm_space_id n) = true.
Hypothesis logs_share : ∀ a b, same_log a b = true → same_space a b = true.

Definition messages (sid : string) (w : W) : list string := map nm_message_id (notes_of sid (w_notes w)).
Definition open_status (r : wal_record) : Prop := w_status r ∈ ["pending"; "blocked_sensitive"].

(** The message has a note, or a record that is pending or blocked. *)
Definition covered (sid m : string) (w : W) : Prop :=
  m ∈ messages sid w ∨ ∃ x, x ∈ log_view sid (w_log w) ∧ w_message_id x = m ∧ open_status x.
Record accounted (w : W) : Prop := {
  ac_valid : valid (w_notes w);
  ac_log : log_valid (w_log w);
  ac_covered : ∀ sid r, r ∈ log_view sid (w_log w) → covered sid (w_message_id r) w;
}.

(** From [w] to [w']: messages of notes stay, and records of the log but those with the identity. *)
Record grows (id : string) (w w' : W) : Prop := {
  gr_messages : ∀ sid m, m ∈ messages sid w → m ∈ messages sid w';
  gr_records : ∀ sid x, w_id x ≠ id → x ∈ log_view sid (w_log w) ↔ x ∈ log_view sid (w_log w');
}.
#[local] Instance grows_preorder id : PreOrder (grows id).
Proof. split; [by split|]. intros a b c [M1 R1] [M2 R2]. split; [auto|]. intros sid x Hx. by rewrite R1, R2. Qed.

Lemma moves_messages w w' : moves w w' → ∀ sid, messages sid w' = messages sid w.
Proof.
  intros Hm sid. unfold messages.
  assert (∀ ns, map nm_message_id ns = map (λ k, k.1.1.2) (map text_key ns)) as Ek by (intros ns; by rewrite map_map).
  by rewrite !Ek, (mv_texts _ _ Hm).
Qed.
Lemma moves_grows id w w' : moves w w' → grows id w w'.
Proof. intros Hm. split; [intros sid m; by rewrite (moves_messages _ _ Hm)|by rewrite (mv_log _ _ Hm)]. Qed.
Lemma moves_accounted w w' : moves w w' → accounted w → accounted w'.
Proof.
  intros Hm [Hv Hl Hc]. split; [by apply Hm|by rewrite (mv_log _ _ Hm)|]. intros sid r. unfold covered.
  rewrite (moves_messages _ _ Hm), (mv_log _ _ Hm). apply Hc.
Qed.
Lemma moves_known r w w' : moves w w' → known_record r w → known_record r w'.
Proof. intros Hm. unfold known_record. by rewrite (mv_log _ _ Hm). Qed.

Lemma same_id (w : W) sid x y : log_valid (w_log w) → x ∈ log_view sid (w_log w) → y ∈ log_view sid (w_log w) → w_id x = w_id y → x = y.
Proof. intros Hl Hx Hy. by apply (key_unique w_id (log_view sid (w_log w))); [apply log_ids_unique|..]. Qed.

(** Marking a record whose message has a note, or another open record *)
Definition may_mark (sid id : string) (w : W) : Prop :=
  ∀ x, x ∈ log_view sid (w_log w) → w_id x = id →
    w_message_id x ∈ messages sid w
    ∨ ∃ y, y ∈ log_view sid (w_log w) ∧ w_id y ≠ id ∧ w_message_id y = w_message_id x ∧ open_status y.

Lemma same_log_messages a b (w : W) : same_log a b = true → messages a w = messages b w.
Proof. intros E. unfold messages. by rewrite (same_space_notes _ _ _ (logs_share _ _ E)). Qed.

(** Changing the records with an identity leaves the others. *)
Lemma marked_others id (f : wal_record → wal_record) (l : list wal_record) x : (∀ r, w_id (f r) = w_id r) → w_id x ≠ id →
  x ∈ map (λ r, if String.eqb (w_id r) id then f r else r) l ↔ x ∈ l.
Proof.
  intros Hf Hx. rewrite elem_of_map. split.
  - intros (y & Ey & Hy). destruct (String.eqb_spec (w_id y) id) as [E|]; [|by subst]. destruct Hx. rewrite <- Ey, Hf. done.
  - intros Hin. exists x. by rewrite (proj2 (String.eqb_neq _ _) Hx).
Qed.
Lemma marked_self id (f : wal_record → wal_record) (l : list wal_record) x : (∀ r, w_id (f r) = w_id r) → w_id x = id →
  x ∈ map (λ r, if String.eqb (w_id r) id then f r else r) l → ∃ y, x = f y.
Proof.
  intros Hf Hx (y & <- & Hy)%elem_of_map. destruct (String.eqb_spec (w_id y) id) as [E|Hne]; [by exists y|done].
Qed.

Definition not_pending (sid id : string) (w : W) : Prop :=
  ∀ y, y ∈ log_view sid (w_log w) → w_id y = id → w_status y ≠ "pending".

Lemma mark_processed_effect sid id w : accounted w → may_mark sid id w → ∃ w',
  on_log (S := S) (log_mark_processed sid id) w = (Ok tt, w') ∧ accounted w' ∧ grows id w w' ∧ w_notes w' = w_notes w
  ∧ not_pending sid id w'.
Proof.
  intros [Hv Hl Hc] Hmay. destruct (mark_processed_law sid id (w_log w) Hl) as (l' & E & Hl' & Hview).
  unfold on_log. rewrite E. eexists. split; [reflexivity|].
  assert (∀ sid' x, (same_log sid' sid = true → w_id x ≠ id) → x ∈ log_view sid' (w_log w) ↔ x ∈ log_view sid' l') as Hkeep.
  { intros sid' x Hne. rewrite Hview. destruct (same_log sid' sid); [|done]. rewrite (marked_others id processed) by auto. done. }
  assert (same_log sid sid = true → not_pending sid id (w <| w_log := l' |>)) as Hdone.
  { intros Es y Hy Hid. simpl in Hy. rewrite Hview, Es in Hy. by apply (marked_self id processed) in Hy as [z ->]. }
  assert (not_pending sid id (w <| w_log := l' |>)) as Hnp.
  { intros y Hy. simpl in Hy. apply Hdone; [|exact Hy]. pose proof (log_own sid l' y Hl' Hy) as Hown.
    apply (same_log_trans _ (w_space_id y)); [by rewrite same_log_sym|done]. }
  split_and!; [|split; [done|intros sid' x Hne; simpl; by apply Hkeep]|done|done]. split; [done|done|]. simpl.
  intros sid' r Hr. rewrite Hview in Hr.
  assert (∃ x, x ∈ log_view sid' (w_log w) ∧ w_message_id x = w_message_id r) as (x & Hx & Hm).
  { destruct (same_log sid' sid); [|by exists r]. apply elem_of_map in Hr as (x & <- & Hx). exists x. split; [done|]. by destruct (String.eqb _ _). }
  rewrite <- Hm. destruct (Hc sid' x Hx) as [Hnote|(y & Hy & Hym & Hyo)]; [by left|].
  destruct (same_log sid' sid) eqn:Es; [|right; exists y; split; [apply Hkeep; [congruence|done]|done]].
  destruct (decide (w_id y = id)) as [Hid|Hne]; [|right; exists y; split; [by apply Hkeep|done]].
  pose proof Hy as Hy'. rewrite (same_log_view _ _ _ Es) in Hy'. destruct (Hmay y Hy' Hid) as [Hn|(z & Hz & Hzid & Hzm & Hzo)].
  - left. unfold covered, messages in *. simpl. rewrite (same_space_notes _ _ _ (logs_share _ _ Es)). congruence.
  - right. exists z. split; [apply Hkeep; [done|by rewrite (same_log_view _ _ _ Es)]|split; [congruence|done]].
Qed.

Lemma mark_blocked_effect sid id category preserve w : accounted w → ∃ w',
  on_log (S := S) (log_mark_blocked sid id category preserve) w = (Ok tt, w') ∧ accounted w' ∧ grows id w w' ∧ w_notes w' = w_notes w
  ∧ (preserve = false → not_pending sid id w')
  ∧ ∀ x, x ∈ log_view sid (w_log w) → w_id x = id → ∃ y, y ∈ log_view sid (w_log w') ∧ w_id y = id ∧ w_message_id y = w_message_id x
      ∧ open_status y.
Proof.
  intros [Hv Hl Hc]. destruct (mark_blocked_law sid id category preserve (w_log w) Hl) as (l' & E & Hl' & Hview).
  unfold on_log. rewrite E. eexists. split; [reflexivity|].
  assert (∀ x, open_status (blocked category preserve x)) as Hopen by (intros x; unfold open_status; destruct preserve; simpl; [by left|right; by left]).
  assert (∀ sid' x, x ∈ log_view sid' (w_log w) → ∃ y, y ∈ log_view sid' l' ∧ w_id y = w_id x ∧ w_message_id y = w_message_id x
    ∧ (open_status x → open_status y) ∧ (w_id x ≠ id → y = x) ∧ (same_log sid' sid = true → w_id x = id → open_status y)) as Hkeep.
  { intros sid' x Hx. rewrite Hview. destruct (same_log sid' sid); [|exists x; by split_and!].
    exists (if String.eqb (w_id x) id then blocked category preserve x else x). split; [by apply elem_of_map_in with (f := λ r, if String.eqb (w_id r) id then blocked category preserve r else r)|].
    destruct (String.eqb_spec (w_id x) id); split_and!; auto; done. }
  split_and!; [| |done| |].
  - split; [done|done|]. simpl. intros sid' r Hr.
    assert (∃ x, x ∈ log_view sid' (w_log w) ∧ w_message_id x = w_message_id r) as (x & Hx & Hm).
    { rewrite Hview in Hr. destruct (same_log sid' sid); [|by exists r]. apply elem_of_map in Hr as (x & <- & Hx). exists x. split; [done|].
      by destruct (String.eqb _ _). }
    rewrite <- Hm. destruct (Hc sid' x Hx) as [Hnote|(y & Hy & Hym & Hyo)]; [by left|]. right.
    destruct (Hkeep sid' y Hy) as (z & Hz & _ & Hzm & Hzo & _). exists z. split_and!; [done|congruence|auto].
  - split; [done|]. simpl. intros sid' x Hne. rewrite Hview. destruct (same_log sid' sid); [|done].
    by rewrite (marked_others id (blocked category preserve)).
  - intros -> y Hy Hid. simpl in Hy. assert (same_log sid sid = true) as Es.
    { pose proof (log_own sid l' y Hl' Hy) as Hown. apply (same_log_trans _ (w_space_id y)); [by rewrite same_log_sym|done]. }
    rewrite Hview, Es in Hy. by apply (marked_self id (blocked category false)) in Hy as [z ->].
  - simpl. intros x Hx Hid. destruct (Hkeep sid x Hx) as (y & Hy & Hyi & Hym & _ & _ & Ho). exists y. split_and!; [done|congruence|done|].
    apply Ho; [|done]. pose proof (log_own sid (w_log w) x Hl Hx) as Hown.
    apply (same_log_trans _ (w_space_id x)); [by rewrite same_log_sym|done].
Qed.

(** ** A record *)

Definition covered_by (r : wal_record) (w : W) : Prop :=
  w_message_id r ∈ messages (w_space_id r) w
  ∨ ∃ y, y ∈ log_view (w_space_id r) (w_log w) ∧ w_id y = w_id r ∧ w_message_id y = w_message_id r ∧ open_status y.

(** After processing [r]: it is covered, unless there was an exception, which leaves the log. *)
Definition settled {A} (r : wal_record) (w : W) (p : result A * W) : Prop :=
  accounted p.2 ∧ grows (w_id r) w p.2 ∧ match p.1 with
                                            | Ok _ => covered_by r p.2 ∧ not_pending (w_space_id r) (w_id r) p.2
                                            | Raise _ => w_log p.2 = w_log w
                                            end.

Lemma settled_moves {A} r w w1 (p : result A * W) : moves w w1 → settled r w1 p → settled r w p.
Proof.
  intros Hm (H1' & H2' & H3'). split_and!; [done| |].
  - etrans; [by apply moves_grows|done].
  - destruct p.1; [done|]. by rewrite H3', (mv_log _ _ Hm).
Qed.
Lemma settled_quiet {A B} r w (m : IO W A) (k : A → IO W B) : quiet (λ _, True) m → accounted w → known_record r w →
  (∀ a w1, moves w w1 → accounted w1 → known_record r w1 → settled r w1 (k a w1)) → settled r w ((m ≫= k) w).
Proof.
  intros Hq Ha Hk Hm. unfold mbind, IO_bind. pose proof (Hq w (ac_valid _ Ha) I) as Hmv. destruct (m w) as [[a|e] w1]; simpl in Hmv.
  - apply (settled_moves r w w1); [done|]. apply Hm; [done|by eapply moves_accounted|by eapply moves_known].
  - split_and!; [by eapply moves_accounted|by apply moves_grows|simpl; by rewrite (mv_log _ _ Hmv)].
Qed.

(** The record may be marked when its message has a note. *)
Lemma mark_settles {A} r w (a : A) : accounted w → known_record r w → w_message_id r ∈ messages (w_space_id r) w →
  settled r w ((on_log (log_mark_processed (w_space_id r) (w_id r));; mret a) w).
Proof.
  intros Ha (x & Hx & Hid & Hm & _) Hnote.
  destruct (mark_processed_effect (w_space_id r) (w_id r) w Ha) as (w' & E & Ha' & Hg & Hn & Hnp).
  { intros y Hy Hyi. left. by rewrite (same_id w (w_space_id r) y x (ac_log _ Ha) Hy Hx), Hm by congruence. }
  unfold mbind, IO_bind. rewrite E. split_and!; [done|done|]. split; [|done]. left. by apply (gr_messages _ _ _ Hg).
Qed.

Lemma process_record_settles r tenant_id dm w : accounted w → known_record r w →
  settled r w (process_record r tenant_id dm false w).
Proof.
  intros Ha Hk. unfold process_record. destruct (sa_blocks_storage _) eqn:Eb.
  { destruct (mark_blocked_effect (w_space_id r) (w_id r) (opt_or (sa_category (assess_sensitive_text (w_text r))) "sensitive") false w Ha)
      as (w' & E & Ha' & Hg & _ & Hnp & Hopen).
    unfold mbind, IO_bind. rewrite E. split_and!; [done|done|]. split; [|by apply Hnp]. right. destruct Hk as (x & Hx & Hid & Hm & _).
    destruct (Hopen x Hx Hid) as (y & ? & ? & ? & ?). exists y. split_and!; [done|done|congruence|done]. }
  pose proof (exists_law (w_space_id r) (w_message_id r) (w_notes w) (ac_valid _ Ha)) as (s' & Hv' & Hs & E).
  unfold mbind at 1, IO_bind, on_notes at 1. rewrite E. set (w1 := w <| w_notes := s' |>).
  assert (moves w w1) as Hm1 by (by apply notes_move). apply (settled_moves r w w1 _ Hm1).
  assert (accounted w1 ∧ known_record r w1) as [Ha1 Hk1] by (split; [by eapply moves_accounted|by eapply moves_known]).
  destruct (has_message (w_message_id r) (notes_of (w_space_id r) (w_notes w))) eqn:Ehas.
  - apply has_message_true in Ehas. assert (w_message_id r ∈ messages (w_space_id r) w1) as Hin by (by rewrite (moves_messages _ _ Hm1)).
    apply settled_quiet; [unfold find_note_by_message_id; quiet_auto|done|done|]. intros n w2 Hm2 Ha2 Hk2.
    apply settled_quiet; [destruct n as [n|]; [destruct dm; [apply quiet_ret|apply recover_memory_quiet]|apply quiet_ret]|done|done|].
    intros _ w3 Hm3 Ha3 Hk3. apply mark_settles; [done|done|]. by rewrite (moves_messages _ _ Hm3), (moves_messages _ _ Hm2).
  - set (n := provisional_note r tenant_id (classify_text_local (w_text r))).
    pose proof (save_law n (w_notes w1)) as Hsave. unfold mbind at 1, IO_bind, on_notes at 1.
    destruct (save_note n (w_notes w1)) as [res s2]. destruct (Hsave res s2 (ac_valid _ Ha1) eq_refl) as [Hv2 Hr].
    destruct res as [b|e].
    2: { assert (moves w1 (w1 <| w_notes := s2 |>)) as Hm by (by apply notes_move).
         split_and!; [by eapply moves_accounted|by apply moves_grows|done]. }
    set (w2 := w1 <| w_notes := s2 |>).
    assert ((∀ sid m, m ∈ messages sid w1 → m ∈ messages sid w2) ∧ w_message_id r ∈ messages (w_space_id r) w2) as [Hmono Hin].
    { pose proof (homes n (w_notes w1) (ac_valid _ Ha1)) as Hh. change (nm_space_id n) with (w_space_id r) in Hh.
      change (nm_message_id n) with (w_message_id r) in Hr.
      destruct (has_message (w_message_id r) (notes_of (home n (w_notes w1)) (w_notes w1))) eqn:Eh.
      - split; [intros sid m; unfold messages; simpl; by rewrite Hr|]. apply has_message_true in Eh. unfold messages. simpl. rewrite Hr.
        by rewrite <- (same_space_notes _ _ _ Hh).
      - split.
        + intros sid m. unfold messages. simpl. rewrite Hr. destruct (same_space sid _); [|done]. rewrite map_app, elem_of_app. by left.
        + unfold messages. simpl. rewrite <- (same_space_notes _ _ _ Hh), Hr, same_space_refl, map_app, elem_of_app. right.
          apply list_elem_of_singleton. symmetry. apply (stored_keeps n (w_notes w1)). }
    assert (accounted w2) as Ha2.
    { split; [done|apply Ha1|]. intros sid x Hx. destruct (ac_covered _ Ha1 sid x Hx) as [Hn|Ho]; [left; by apply Hmono|by right]. }
    assert (known_record r w2) as Hk2 by exact Hk1.
    assert (∀ p : result (option NoteMetadata) * W, settled r w2 p → settled r w1 p) as Hback.
    { intros p (P1 & P2 & P3). split_and!; [done| |by destruct p.1]. etrans; [|exact P2]. by split. }
    apply Hback. apply settled_quiet; [apply invalidate_moves|done|done|]. intros _ w3 Hm3 Ha3 Hk3.
    apply settled_quiet; [destruct dm; [apply quiet_ret|apply process_memory_quiet]|done|done|]. intros _ w4 Hm4 Ha4 Hk4.
    apply mark_settles; [done|done|]. by rewrite (moves_messages _ _ Hm4), (moves_messages _ _ Hm3).
Qed.

(** ** The pending records *)

(** [all] is the batch, [rest] what is left of it; [failed] the records whose processing raised. *)
Record draining (sid : string) (all rest failed : list wal_record) (seen : list string) (w : W) : Prop := {
  dr_accounted : accounted w;
  dr_unique : NoDup (map w_id rest);
  dr_rest : ∀ r, r ∈ rest → r ∈ log_view sid (w_log w) ∧ w_status r = "pending";
  dr_pending : ∀ x, x ∈ log_view sid (w_log w) → w_status x = "pending" → x ∈ rest ∨ x ∈ failed;
  dr_failed : ∀ r, r ∈ failed → r ∈ all ∧ r ∈ log_view sid (w_log w) ∧ w_id r ∉ map w_id rest;
  dr_seen : ∀ m, m ∈ seen → m ∈ messages sid w
    ∨ ∃ y, y ∈ log_view sid (w_log w) ∧ w_message_id y = m ∧ open_status y ∧ w_id y ∉ map w_id rest;
}.

Lemma own_log sid r (w : W) : log_valid (w_log w) → r ∈ log_view sid (w_log w) → same_log (w_space_id r) sid = true.
Proof. intros Hl. by apply log_own. Qed.

(** After one record: the others are as before, and [r] failed or is not pending. *)
Lemma draining_step sid all r rest failed seen w w' failed' seen' :
  draining sid all (r :: rest) failed seen w → r ∈ all → accounted w' → grows (w_id r) w w' →
  (failed' = failed ∧ not_pending sid (w_id r) w' ∨ failed' = (failed ++ [r])%list ∧ w_log w' = w_log w) →
  (∀ m, m ∈ seen' → m ∈ seen ∨ m ∈ messages sid w' ∨ ∃ y, y ∈ log_view sid (w_log w') ∧ w_id y = w_id r ∧ w_message_id y = m ∧ open_status y) →
  draining sid all rest failed' seen' w'.
Proof.
  intros [Ha Hu Hr Hp Hf Hs] Hall Ha' Hg Hcase Hseen. cbn [map] in *. apply NoDup_cons in Hu as [Hfresh Hu].
  assert (∀ x, x ∈ rest → w_id x ≠ w_id r) as Hne by (intros x Hx E; apply Hfresh; rewrite <- E; by apply elem_of_map_in).
  split; [done|done| | | |].
  - intros x Hx. destruct (Hr x) as [Hin Hst]; [by right|]. split; [|done]. apply (gr_records _ _ _ Hg); auto.
  - intros x Hx Hst. destruct Hcase as [[-> Hnp]|[-> El]].
    + assert (w_id x ≠ w_id r) as Hxr by (intros E; by apply (Hnp x Hx E)).
      apply (gr_records _ _ _ Hg) in Hx; [|done]. destruct (Hp x Hx Hst) as [[->|?]%elem_of_cons|?]; [done|by left|by right].
    + rewrite El in Hx. destruct (Hp x Hx Hst) as [[->|?]%elem_of_cons|?]; [right; apply elem_of_app; right; by left|by left|].
      right. apply elem_of_app. by left.
  - intros x Hx. assert (x ∈ failed ∨ x = r ∧ w_log w' = w_log w) as [Hxf|[-> El]].
    { destruct Hcase as [[-> _]|[-> El]]; [by left|]. apply elem_of_app in Hx as [?|Hx]; [by left|]. right. split; [|done].
      by apply list_elem_of_singleton in Hx. }
    + destruct (Hf x Hxf) as (? & Hin & Hid). split_and!; [done| |intros ?; apply Hid; by right].
      apply (gr_records _ _ _ Hg); [|done]. intros E. apply Hid. rewrite E. by left.
    + split_and!; [done|rewrite El; by apply Hr; left|done].
  - intros m Hm. destruct (Hseen m Hm) as [Hm'|[Hn|(y & Hy & Hid & Hym & Hyo)]]; [|by left|].
    + destruct (Hs m Hm') as [Hn|(y & Hy & Hym & Hyo & Hid)]; [left; by apply (gr_messages _ _ _ Hg)|]. right. exists y.
      split_and!; [|done|done|intros ?; apply Hid; by right]. apply (gr_records _ _ _ Hg); [|done]. intros E. apply Hid. rewrite E. by left.
    + right. exists y. split_and!; [done|done|done|by rewrite Hid].
Qed.

Lemma drain_record sid all r rest failed seen count w : draining sid all (r :: rest) failed seen w → r ∈ all →
  ∃ count' seen' failed' w', process_pending_record sid (count, seen) r w = (Ok (count', seen'), w')
    ∧ draining sid all rest failed' seen' w'
    ∧ (failed' = failed ∧ count' = count + 1
       ∨ failed' = (failed ++ [r])%list ∧ count' = count ∧ ¬ is_Ok (process_record r "" false false w).1).
Proof.
  intros Hd Hall. pose proof Hd as [Ha Hu Hr Hp Hf Hs]. destruct (Hr r) as [Hin Hst]; [by left|].
  pose proof (own_log sid r w (ac_log _ Ha) Hin) as Hown. assert (NoDup (w_id r :: map w_id rest)) as Hu' by exact Hu.
  unfold process_pending_record. destruct (py_in (w_message_id r) seen) eqn:Eseen.
  - apply py_in_true in Eseen.
    destruct (mark_processed_effect sid (w_id r) w Ha) as (w' & E & Ha' & Hg & Hn & Hnp).
    { intros x Hx Hid. rewrite (same_id w sid x r (ac_log _ Ha) Hx Hin Hid).
      destruct (Hs _ Eseen) as [?|(y & ? & ? & ? & Hy)]; [by left|right]. exists y. split_and!; try done. intros Ey. apply Hy. rewrite Ey. by left. }
    rewrite (proj2 (String.eqb_neq _ _) (log_ids_given sid (w_log w) r (ac_log _ Ha) Hin)).
    exists (count + 1), seen, failed, w'. unfold mbind, IO_bind. rewrite E. split_and!; [done| |by left].
    eapply draining_step; [done|done|done|done|by left|]. intros m Hm. by left.
  - assert (known_record r w) as Hk.
    { exists r. split_and!; try done. by rewrite (same_log_view _ _ _ Hown). }
    pose proof (process_record_settles r "" false w Ha Hk) as (Ha' & Hg & Hres). unfold try_except.
    set (seen' := if String.eqb (w_message_id r) "" then seen else w_message_id r :: seen).
    assert (∀ w', (w_message_id r ∈ messages sid w' ∨ ∃ y, y ∈ log_view sid (w_log w') ∧ w_id y = w_id r ∧ w_message_id y = w_message_id r ∧ open_status y) →
      ∀ m, m ∈ seen' → m ∈ seen ∨ m ∈ messages sid w' ∨ ∃ y, y ∈ log_view sid (w_log w') ∧ w_id y = w_id r ∧ w_message_id y = m ∧ open_status y) as Hseen.
    { intros w' Hc m. unfold seen'. destruct (String.eqb _ _); [by left|]. intros [->|?]%elem_of_cons; [by right|by left]. }
    destruct (process_record r "" false false w) as [[o|e] w']; simpl in Ha', Hg, Hres.
    + destruct Hres as [Hc Hnp]. exists (count + 1), seen', failed, w'. split_and!; [done| |by left].
      eapply draining_step; [done|done|done|done| |apply Hseen].
      * left. split; [done|]. unfold not_pending. by rewrite <- (same_log_view _ _ _ Hown).
      * rewrite <- (same_log_messages _ _ _ Hown), <- (same_log_view _ _ _ Hown). exact Hc.
    + exists count, seen', (failed ++ [r])%list, w'. split_and!; [done| |right; split_and!; [done|done|by intros []]].
      eapply draining_step; [done|done|done|done|by right|apply Hseen]. right. exists r. rewrite Hres.
      split_and!; [done|done|done|]. unfold open_status. rewrite Hst. by left.
Qed.

Lemma drain_records sid all rest : ∀ failed seen count w, draining sid all rest failed seen w → (∀ r, r ∈ rest → r ∈ all) →
  ∃ count' seen' failed' w', io_for rest (count, seen) (process_pending_record sid) w = (Ok (count', seen'), w')
    ∧ draining sid all [] failed' seen' w' ∧ count' + Z.of_nat (length failed') = count + Z.of_nat (length failed) + Z.of_nat (length rest)
    ∧ ((∀ r w, r ∈ rest → accounted w → known_record r w → is_Ok (process_record (S := S) (L := L) r "" false false w).1) → failed' = failed).
Proof.
  induction rest as [|r rest IH]; intros failed seen count w Hd Hall.
  { exists count, seen, failed, w. split_and!; [done|done|simpl; lia|done]. }
  destruct (drain_record sid all r rest failed seen count w Hd (Hall r (list_elem_of_here _ _))) as (c1 & s1 & f1 & w1 & E1 & Hd1 & Hc).
  destruct (IH f1 s1 c1 w1 Hd1) as (c2 & s2 & f2 & w2 & E2 & Hd2 & Hn & Hall2); [intros x Hx; apply Hall; by right|].
  exists c2, s2, f2, w2. split_and!; [|done| |].
  - cbn [io_for]. unfold mbind, IO_bind. by rewrite E1.
  - cbn [length]. destruct Hc as [[-> ->]|(-> & -> & _)]; [lia|]. rewrite length_app in Hn. simpl in Hn. lia.
  - intros Hok. destruct Hc as [[-> _]|(_ & _ & Hno)]; [apply Hall2; intros; apply Hok; [by right|done|done]|]. destruct Hno.
    apply Hok; [by left|apply Hd|]. destruct (dr_rest _ _ _ _ _ _ Hd r (list_elem_of_here _ _)) as [Hin _].
    exists r. split_and!; try done. rewrite (same_log_view _ _ _ (own_log sid r w (ac_log _ (dr_accounted _ _ _ _ _ _ Hd)) Hin)). done.
Qed.

(** A record is processed without an exception if its note can be saved. *)
Lemma memory_safely_ok n (w : W) : is_Ok (process_memory_safely n w).1.
Proof. unfold process_memory_safely, try_except. by destruct (process_memory n w) as [[]]. Qed.
Lemma recover_ok n (w : W) : is_Ok (recover_memory n w).1.
Proof.
  unfold recover_memory. destruct (is_note_queryable n); [|done]. unfold mbind, IO_bind.
  assert (∀ o w1, is_Ok ((match o with None => process_memory_safely n
    | Some x => if py_in (xs_status x) ["pending"; "failed"; "partial"] then process_memory_safely n else mret tt end) w1 : result unit * W).1) as Ho
    by (intros [x|] w1; [destruct (py_in _ _); [apply memory_safely_ok|done]|apply memory_safely_ok]).
  destruct (String.eqb (nm_id n) ""); [exact (Ho None w)|].
  unfold on_memory. destruct (get_extraction_state (nm_id n) (w_memory w)) as [[o|e] d] eqn:E; [apply Ho|].
  unfold get_extraction_state, io_gets in E. discriminate E.
Qed.
Lemma process_record_ok r w : accounted w → known_record r w →
  (∀ c s, valid s → is_Ok (save_note (provisional_note r "" c) s).1) → is_Ok (process_record (S := S) (L := L) r "" false false w).1.
Proof.
  intros Ha Hk Hsave. unfold process_record. destruct (sa_blocks_storage _).
  { destruct (mark_blocked_law (w_space_id r) (w_id r) (opt_or (sa_category (assess_sensitive_text (w_text r))) "sensitive") false (w_log w) (ac_log _ Ha))
      as (l' & E & _). unfold mbind, IO_bind, on_log. by rewrite E. }
  assert (∀ n w1, log_valid (w_log w1) → is_Ok ((on_log (log_mark_processed (w_space_id r) (w_id r));; mret n) w1 : result (option NoteMetadata) * W).1) as Hmark.
  { intros n w1 Hl. destruct (mark_processed_law (w_space_id r) (w_id r) (w_log w1) Hl) as (l' & E & _).
    unfold mbind, IO_bind, on_log. by rewrite E. }
  assert (∀ (m : IO W unit) n w1, valid (w_notes w1) → log_valid (w_log w1) → quiet (λ _, True) m → is_Ok (m w1).1 →
    is_Ok ((m;; on_log (log_mark_processed (w_space_id r) (w_id r));; mret n) w1 : result (option NoteMetadata) * W).1) as Hthen.
  { intros m n w1 Hv Hl Hq Hok. unfold mbind at 1, IO_bind. pose proof (Hq w1 Hv Logic.I) as Hm. destruct (m w1) as [[u|e] w2]; [|done].
    apply Hmark. simpl in Hm. by rewrite (mv_log _ _ Hm). }
  pose proof (exists_law (w_space_id r) (w_message_id r) (w_notes w) (ac_valid _ Ha)) as (s' & Hv' & Hs & E).
  unfold mbind at 1, IO_bind, on_notes at 1. rewrite E. set (w1 := w <| w_notes := s' |>).
  assert (log_valid (w_log w1)) as Hl1 by apply Ha.
  destruct (has_message _ _).
  - unfold mbind at 1, IO_bind, find_note_by_message_id. unfold mbind at 1, IO_bind, on_notes at 1.
    destruct (load_law (w_space_id r) (w_notes w1) Hv') as (s2 & Hv2 & Hs2 & ns & E2 & _). rewrite E2.
    apply Hthen; [done|done| |].
    + destruct (List.find _ ns); [apply recover_memory_quiet|apply quiet_ret].
    + destruct (List.find _ ns); [apply recover_ok|done].
  - pose proof (Hsave (classify_text_local (w_text r)) s' Hv') as Hok.
    pose proof (save_law (provisional_note r "" (classify_text_local (w_text r))) s') as Hlaw.
    unfold mbind at 1, IO_bind, on_notes at 1. change (w_notes w1) with s'.
    destruct (save_note _ s') as [[b|e] s2]; [|done]. destruct (Hlaw _ _ Hv' eq_refl) as [Hv2 _].
    unfold mbind at 1, IO_bind. apply Hthen; [done|done|apply process_memory_quiet|apply memory_safely_ok].
Qed.

Definition pending_in (sid : string) (w : W) : list wal_record :=
  List.filter (λ r, String.eqb (w_status r) "pending") (log_view sid (w_log w)).

Lemma process_pending_drains sid w : accounted w → ∃ count failed w', process_pending sid w = (Ok count, w') ∧ accounted w'
  ∧ (∀ r, r ∈ failed → r ∈ pending_in sid w) ∧ count + Z.of_nat (length failed) = Z.of_nat (length (pending_in sid w))
  ∧ (∀ x, x ∈ pending_in sid w' → x ∈ failed)
  ∧ ((∀ r c s, r ∈ pending_in sid w → valid s → is_Ok (save_note (provisional_note r "" c) s).1) → failed = []).
Proof.
  intros Ha. unfold process_pending. unfold mbind at 1, IO_bind, io_gets. rewrite (pending_records_law sid (w_log w) (ac_log _ Ha)).
  unfold mbind at 1, IO_bind, io_lift. fold (pending_in sid w).
  assert (∀ w x, x ∈ pending_in sid w ↔ x ∈ log_view sid (w_log w) ∧ w_status x = "pending") as Hin.
  { intros w0 x. unfold pending_in. by rewrite list_elem_of_In, filter_In, <- list_elem_of_In, String.eqb_eq. }
  assert (draining sid (pending_in sid w) (pending_in sid w) [] [] w) as Hd.
  { split; [done| | | | |].
    - apply (NoDup_select w_id). by apply log_ids_unique, Ha.
    - intros r. apply Hin.
    - intros x Hx Hst. left. by apply Hin.
    - intros r ?%elem_of_nil. done.
    - intros m ?%elem_of_nil. done. }
  destruct (drain_records sid (pending_in sid w) (pending_in sid w) [] [] 0 w Hd) as (count & seen & failed & w' & E & Hd' & Hn & Hok); [done|].
  exists count, failed, w'. unfold mbind, IO_bind. rewrite E. split_and!; [done|apply Hd'| | | |].
  - intros r Hr. by apply (dr_failed _ _ _ _ _ _ Hd').
  - simpl in Hn. lia.
  - intros x [Hx Hst]%Hin. destruct (dr_pending _ _ _ _ _ _ Hd' x Hx Hst) as [Hx'|?]; [|done]. by apply elem_of_nil in Hx'.
  - intros Hsave. apply Hok. intros r w1 Hr Ha1 Hk1. apply process_record_ok; [done|done|]. intros c s Hv. by apply Hsave.
Qed.

Lemma ingest_accounted w w' : ingest_step w w' → accounted w → accounted w'.
Proof.
  intros Hstep Ha. destruct Hstep as [r w b l Hst Hne Hfresh E|r tenant_id dm w res w' Hk E|sid w res w' E|sid id w res w' E|sid mid w res w' E|d w].
  - destruct (append_law r (w_log w) (ac_log _ Ha) Hne Hfresh) as (l' & E' & Hl' & Hview). rewrite E in E'. injection E' as _ <-.
    destruct Ha as [Hv Hl Hc]. split; [done|done|]. intros sid x Hx. simpl in Hx. rewrite Hview in Hx.
    assert (∀ y, y ∈ log_view sid (w_log w) → covered sid (w_message_id y) (w <| w_log := l |>)) as Hold.
    { intros y Hy. destruct (Hc sid y Hy) as [?|(z & Hz & ? & ?)]; [by left|]. right. exists z. split; [|done]. simpl. rewrite Hview.
      destruct (_ && _); [apply elem_of_app; by left|done]. }
    destruct (same_log sid (w_space_id r) && _) eqn:Eb; [|by apply Hold].
    apply elem_of_app in Hx as [Hx|Hx]; [by apply Hold|]. apply list_elem_of_singleton in Hx as ->. right. exists r.
    split; [simpl; rewrite Hview, Eb; apply elem_of_app; right; by left|]. split; [done|]. unfold open_status. rewrite Hst. by left.
  - pose proof (process_record_settles r tenant_id dm w Ha Hk) as [Ha' _]. by rewrite E in Ha'.
  - destruct (process_pending_drains sid w Ha) as (count & failed & w1 & E1 & Ha' & _). rewrite E in E1. by injection E1 as _ ->.
  - pose proof (enrich_note_quiet sid id w (ac_valid _ Ha) Logic.I) as Hm. rewrite E in Hm. by eapply moves_accounted.
  - pose proof (backfill_quiet sid mid w (ac_valid _ Ha) Logic.I) as Hm. rewrite E in Hm. by eapply moves_accounted.
  - eapply moves_accounted; [|exact Ha]. by split.
Qed.
(** * Enrichment is bounded *)

(** A note of the space [sid] is as enrichment leaves it. *)
Record within (sid : string) (n : NoteMetadata) (s : S) : Prop := {
  wi_id : nm_id n ≠ "";
  wi_status : nm_enrichment_status n ∈ ["provisional"; "enriching"; "failed"; "ready"];
  wi_fresh : nm_enrichment_status n = "provisional" → nm_enrichment_attempts n = 0;
  wi_attempts : nm_enrichment_attempts n <= Z.max 1 ENRICHMENT_MAX_ATTEMPTS;
  wi_vector : nm_enrichment_status n = "ready" → vector_known sid (nm_id n) (Some (nm_message_id n)) s = true;
}.
Definition bounded (w : W) : Prop :=
  valid (w_notes w) ∧ ∀ sid n, n ∈ notes_of sid (w_notes w) → within sid n (w_notes w).

(** The notes stay as they are and no vector is lost. *)
Record gentle (w w' : W) : Prop := {
  ge_valid : valid (w_notes w) → valid (w_notes w');
  ge_notes : same_notes (w_notes w) (w_notes w');
  ge_vectors : more_vectors (w_notes w) (w_notes w');
}.
#[local] Instance gentle_preorder : PreOrder gentle.
Proof.
  split; [split; [done|by intros ?|by intros ???]|]. intros a b c [V1 N1 M1] [V2 N2 M2]. split; [auto| |intros sid id mid Hk; auto]. intros sid. by rewrite N2, N1.
Qed.
Lemma within_more sid n s s' : more_vectors s s' → within sid n s → within sid n s'.
Proof. intros Hm [? ? ? ? Hv]. split; auto. Qed.
Lemma gentle_bounded w w' : gentle w w' → bounded w → bounded w'.
Proof.
  intros [Hv Hn Hm] [V B]. split; [auto|]. intros sid n Hin. rewrite Hn in Hin. eapply within_more; [done|]. by apply B.
Qed.

Lemma gentle_parts (w w' : W) : w_notes w' = w_notes w → gentle w w'.
Proof. intros E. split; rewrite E; [done|by intros ?|by intros ???]. Qed.

(** [mild m]: the program is gentle, whatever it returns. *)
Definition mild {A} (m : IO W A) : Prop := ∀ w, valid (w_notes w) → gentle w (m w).2.
Lemma mild_ret {A} (a : A) : mild (mret a).
Proof. by intros w. Qed.
Lemma mild_lift {A} (r : result A) : mild (io_lift r).
Proof. by intros w. Qed.
Lemma mild_bind {A B} (m : IO W A) (f : A → IO W B) : mild m → (∀ a, mild (f a)) → mild (m ≫= f).
Proof.
  intros Hm Hf w Hv. unfold mbind, IO_bind. specialize (Hm w Hv). destruct (m w) as [[a|e] w1]; [|done].
  etrans; [exact Hm|]. apply Hf. by apply Hm.
Qed.
Lemma mild_try {A B} (m : IO W A) (h : exn → IO W B) k : mild m → (∀ e, mild (h e)) → (∀ a, mild (k a)) → mild (try_except m h k).
Proof.
  intros Hm Hh Hk w Hv. unfold try_except. specialize (Hm w Hv).
  destruct (m w) as [[a|e] w1]; (etrans; [exact Hm|]); [apply Hk|apply Hh]; by apply Hm.
Qed.
Lemma mild_memory {A} (m : IO database A) : mild (on_memory m).
Proof. intros w _. unfold on_memory. destruct (m (w_memory w)). by apply gentle_parts. Qed.
Lemma mild_log {A} (m : IO L A) : mild (on_log m).
Proof. intros w _. unfold on_log. destruct (m (w_log w)). by apply gentle_parts. Qed.
Lemma mild_invalidate sid : mild (invalidate_space_cache (S := S) (L := L) sid).
Proof. intros w _. by apply gentle_parts. Qed.
Lemma mild_notes {A} (m : IO S A) : (∀ s, valid s → valid (m s).2 ∧ same_notes s (m s).2 ∧ more_vectors s (m s).2) → mild (on_notes m).
Proof. intros Hm w Hv. unfold on_notes. destruct (Hm _ Hv) as (V & N & M). destruct (m (w_notes w)) as [r s]. by split. Qed.
Lemma same_more (s s' : S) : same_vectors s s' → more_vectors s s'.
Proof. intros Hs sid id mid Hk. by rewrite Hs. Qed.
Lemma mild_load sid : mild (on_notes (L := L) (load_index sid)).
Proof.
  apply mild_notes. intros s Hv. destruct (load_law sid s Hv) as (s' & V & N & ns & E & _).
  split_and!; [by rewrite E|by rewrite E|by apply same_more, note_vectors_law].
Qed.
Lemma mild_find sid id : mild (on_notes (L := L) (find_note sid id)).
Proof.
  apply mild_notes. intros s Hv. destruct (find_law sid id s Hv) as (s' & V & N & E).
  split_and!; [by rewrite E|by rewrite E|by apply same_more, note_vectors_law].
Qed.
Lemma mild_exists sid mid : mild (on_notes (L := L) (note_exists sid mid)).
Proof.
  apply mild_notes. intros s Hv. destruct (exists_law sid mid s Hv) as (s' & V & N & E).
  split_and!; [by rewrite E|by rewrite E|by apply same_more, note_vectors_law].
Qed.
Lemma mild_vector sid id mid : mild (on_notes (L := L) (vector_item_exists sid id mid)).
Proof.
  apply mild_notes. intros s Hv. destruct (vector_exists_law sid id mid s Hv) as (s' & V & N & M & E).
  rewrite E. split_and!; [done|done|by apply same_more].
Qed.
Lemma mild_add sid v : mild (on_notes (L := L) (add_vector_item sid v)).
Proof.
  apply mild_notes. intros s Hv. destruct (add_vector_item sid v s) as [r s'] eqn:E.
  destruct (add_vector_law sid v s r s' Hv E) as (V & N & M & _). done.
Qed.
Lemma mild_search sid q o : mild (on_notes (L := L) (search_related_note_ids sid q o)).
Proof.
  apply mild_notes. intros s Hv. unfold search_related_note_ids, mbind, IO_bind. destruct (search_related sid q o s) as [r s'] eqn:E.
  destruct (search_vector_law sid q o s r s' Hv E) as (V & N & M). destruct r; split_and!; try done; by apply same_more.
Qed.

Ltac mild_auto :=
  repeat lazymatch goal with
  | |- mild (mbind _ _) => apply mild_bind; [|intros ?]
  | |- mild (try_except _ _ _) => apply mild_try; [|intros ?|intros ?]
  | |- mild (match ?x with _ => _ end) => destruct x eqn:?
  end;
  try first [ apply mild_ret | apply mild_lift | apply mild_memory | apply mild_log | apply mild_invalidate | apply mild_load
            | apply mild_find | apply mild_exists | apply mild_vector | apply mild_add | apply mild_search ].
Lemma mild_bounded {A} (m : IO W A) : mild m → io_keeps bounded m.
Proof. intros Hm w Hw. eapply gentle_bounded; [apply Hm, Hw|done]. Qed.
Lemma mild_process_memory n : mild (process_memory_safely (S := S) (L := L) n).
Proof. unfold process_memory_safely, process_memory. mild_auto. Qed.
Lemma mild_recover n : mild (recover_memory (S := S) (L := L) n).
Proof. unfold recover_memory. mild_auto; apply mild_process_memory. Qed.
Lemma mild_find_message sid mid : mild (find_note_by_message_id (S := S) (L := L) sid mid).
Proof. unfold find_note_by_message_id. mild_auto. Qed.

(** ** The note of a record *)

Lemma save_bounded n : nm_id n ≠ "" → nm_enrichment_status n = "provisional" → nm_enrichment_attempts n = 0 →
  io_keeps bounded (on_notes (L := L) (save_note n)).
Proof.
  intros Hid Hst Hat w [V B]. unfold on_notes. pose proof (note_vectors_law (w_notes w) V) as (_ & _ & _ & Hm & _).
  specialize (Hm n). destruct (save_note n (w_notes w)) as [r s'] eqn:E. simpl in Hm. destruct (save_law n _ _ _ V E) as [V' Hr].
  assert (same_notes (w_notes w) s' → bounded (w <| w_notes := s' |>)) as Hsame
    by (intros Hs; apply (gentle_bounded w); [by split|done]).
  simpl. destruct r as [b|e]; [|by apply Hsame]. destruct (has_message _ _); [by apply Hsame|].
  split; [done|]. intros sid x Hx. simpl in Hx. rewrite (Hr sid) in Hx.
  assert (x ∈ notes_of sid (w_notes w) ∨ x = stored n (w_notes w)) as [Hold| ->].
  { destruct (same_space _ _); [|by left]. apply elem_of_app in Hx as [?|Hx]; [by left|]. right. by apply list_elem_of_singleton in Hx. }
  - eapply within_more; [exact Hm|by apply B].
  - destruct (stored_keeps n (w_notes w)) as (K1 & _ & _ & _ & K5 & K6). rewrite Hst in K5.
    split; rewrite ?K1, ?K5, ?K6, ?Hat; try done; [by left|lia].
Qed.

Ltac bounded_leaf :=
  first [ apply mild_bounded; first [ apply mild_process_memory | apply mild_recover | apply mild_find_message | solve [mild_auto] ] ].
Lemma process_record_bounded r tenant_id dm dw : w_id r ≠ "" → io_keeps bounded (process_record (S := S) (L := L) r tenant_id dm dw).
Proof. intros Hid. unfold process_record. io_auto; try bounded_leaf. by apply save_bounded. Qed.
Lemma process_pending_bounded sid w : log_valid (w_log w) → bounded w → bounded (process_pending (S := S) (L := L) sid w).2.
Proof.
  intros Hl Hw. unfold process_pending. unfold mbind at 1, IO_bind, io_gets. rewrite (pending_records_law sid (w_log w) Hl).
  unfold mbind at 1, IO_bind, io_lift. set (rs := List.filter _ _).
  assert (∀ r, r ∈ rs → w_id r ≠ "") as Hids.
  { intros r Hr. apply (log_ids_given sid (w_log w) r Hl). unfold rs in Hr. by apply list_elem_of_In, filter_In in Hr as [Hr%list_elem_of_In _]. }
  clearbody rs.
  apply (io_keeps_bind bounded (io_for rs (0, []) (process_pending_record (S := S) (L := L) sid)) (λ acc, mret acc.1));
    [|intros acc; apply io_keeps_ret|exact Hw]. generalize (0, @nil string) as acc.
  induction rs as [|r rs IH]; intros acc; cbn [io_for]; [apply io_keeps_ret|].
  apply io_keeps_bind; [|intros acc'; apply IH; intros x Hx; apply Hids; by right].
  unfold process_pending_record. destruct acc as [count seen].
  io_auto; try bounded_leaf. repeat keeps_step. apply process_record_bounded, Hids. by left.
Qed.

(** ** The enrichment of a note *)

(** Only the first note with the identity changes. *)
Lemma in_update_first id f ns n : n ∈ update_first id f ns → n ∈ ns ∨ ∃ n0, with_id id ns = Some n0 ∧ n = f n0.
Proof.
  unfold with_id. induction ns as [|x ns IH]; simpl; [by intros ?%elem_of_nil|]. destruct (String.eqb (nm_id x) id).
  - intros [->|?]%elem_of_cons; [right; by exists x|left; by right].
  - intros [->|Hin]%elem_of_cons; [left; by left|]. destruct (IH Hin) as [?|?]; [left; by right|by right].
Qed.

Definition updated (us : list metadata) (n : NoteMetadata) : NoteMetadata := with_metadata (map kept us) n.
(** Status and attempts are stored as they are given. *)
Lemma updated_keeps us : ∀ n n', nm_enrichment_status n = nm_enrichment_status n' → nm_enrichment_attempts n = nm_enrichment_attempts n' →
  nm_enrichment_status (updated us n) = nm_enrichment_status (with_metadata us n')
  ∧ nm_enrichment_attempts (updated us n) = nm_enrichment_attempts (with_metadata us n').
Proof.
  unfold updated, with_metadata. induction us as [|u us IH]; intros n n' E1 E2; [done|]. cbn [map fold_left]. apply IH.
  - destruct (kept_times u) as [->|[(v & x & -> & ->)|(v & x & -> & ->)]]; [by destruct u|done|done].
  - destruct (kept_times u) as [->|[(v & x & -> & ->)|(v & x & -> & ->)]]; [by destruct u|done|done].
Qed.

Lemma update_bounded sid id us (w : W) : bounded w →
  (∀ n, with_id id (notes_of sid (w_notes w)) = Some n → within sid n (w_notes w) → within sid (updated us n) (w_notes w)) →
  let p := on_notes (L := L) (update_note_metadata sid id us) w in
  (is_Some (with_id id (notes_of sid (w_notes w))) → bounded p.2)
  ∧ ∀ n, with_id id (notes_of sid (w_notes w)) = Some n →
      with_id id (notes_of sid (w_notes p.2)) = Some (match p.1 with Ok _ => updated us n | Raise _ => n end).
Proof.
  intros [V B] Hus. unfold on_notes. pose proof (note_vectors_law (w_notes w) V) as (_ & _ & _ & _ & Hm). specialize (Hm sid id us).
  destruct (update_note_metadata sid id us (w_notes w)) as [r s'] eqn:E. simpl in Hm |- *.
  split; [|intros n Hn].
  - intros Hp. destruct (update_law sid id us _ _ _ V Hp E) as [V' Hr]. destruct r as [o|e].
    2: { apply (gentle_bounded w); [by split|done]. }
    destruct Hr as [Hc _]. split; [done|]. intros sid' n Hin. simpl in Hin. rewrite (Hc sid') in Hin. eapply within_more; [exact Hm|].
    destruct (same_space sid' sid) eqn:Es; [|by apply B]. apply in_update_first in Hin as [Hin|(n0 & Hn0 & ->)]; [by apply B|].
    assert (∀ x s, within sid x s → within sid' x s) as Hw.
    { intros x s [? ? ? ? Hv]. split; try done. intros Hst. rewrite (vector_space_law sid' sid) by done. by apply Hv. }
    rewrite (same_space_notes _ _ _ Es) in Hn0. apply Hw, Hus; [done|]. apply B.
    apply find_some in Hn0 as [Hin _]. by apply list_elem_of_In.
  - destruct (update_law sid id us _ _ _ V (mk_is_Some _ _ Hn) E) as [V' Hr]. destruct r as [o|e]; [|by rewrite Hr].
    destruct Hr as [Hc _]. rewrite (Hc sid), same_space_refl. assert (nm_id (updated us n) = nm_id n) as Hid by apply with_metadata_keeps.
    clear -Hn Hid. unfold with_id in *.
    induction (notes_of sid (w_notes w)) as [|x ns IH]; simpl in *; [done|]. destruct (String.eqb (nm_id x) id) eqn:Ex; simpl.
    + injection Hn as ->. change (with_metadata (map kept us) n) with (updated us n). by rewrite Hid, Ex.
    + rewrite Ex. by apply IH.
Qed.

(** While the note is worked on *)
Definition working (sid id : string) (n : NoteMetadata) (w : W) : Prop :=
  bounded w ∧ ∃ x, with_id id (notes_of sid (w_notes w)) = Some x ∧ nm_id x = nm_id n ∧ nm_message_id x = nm_message_id n
    ∧ nm_enrichment_attempts x <= Z.max 1 ENRICHMENT_MAX_ATTEMPTS.
Lemma gentle_working sid id n w w' : gentle w w' → working sid id n w → working sid id n w'.
Proof. intros Hg [Hb Hx]. split; [by eapply gentle_bounded|]. by rewrite (ge_notes _ _ Hg). Qed.
Lemma mild_working {A} sid id n (m : IO W A) : mild m → io_keeps (working sid id n) m.
Proof. intros Hm w Hw. eapply gentle_working; [apply Hm, Hw|done]. Qed.

(** An update whose status is [st] *)
Lemma update_working sid id us n st (w : W) : st ∈ ["enriching"; "failed"; "ready"] →
  (∀ x, nm_enrichment_status (with_metadata us x) = st) →
  (∀ x, with_id id (notes_of sid (w_notes w)) = Some x → nm_enrichment_attempts (with_metadata us x) <= Z.max 1 ENRICHMENT_MAX_ATTEMPTS) →
  (st = "ready" → vector_known sid (nm_id n) (Some (nm_message_id n)) (w_notes w) = true) →
  working sid id n w → working sid id n (on_notes (L := L) (update_note_metadata sid id us) w).2.
Proof.
  intros Hst Hs Ha Hv [Hb (x & Hx & Hid & Hm & Hat)].
  destruct (with_metadata_keeps (map kept us) x) as (K1 & K2 & _).
  destruct (updated_keeps us x x eq_refl eq_refl) as [Es Ea].
  destruct (update_bounded sid id us w Hb) as [B Hw].
  { intros y Hy Hwi. rewrite Hx in Hy. injection Hy as <-. destruct Hwi. fold (updated us x) in K1, K2.
    split; rewrite ?K1, ?K2, ?Es, ?Ea, ?Hs; [done|by right| |by apply Ha|intros E; rewrite Hid, Hm; by apply Hv].
    intros ->. by repeat (apply elem_of_cons in Hst as [?|Hst]; [done|]); apply elem_of_nil in Hst. }
  split; [by apply B|]. eexists. split; [by apply Hw|]. destruct (on_notes _ w).1; [|done].
  fold (updated us x) in K1, K2. split_and!; [congruence|congruence|rewrite Ea; by apply Ha].
Qed.

(** And with a vector *)
Definition vectored (sid id : string) (n : NoteMetadata) (w : W) : Prop :=
  working sid id n w ∧ vector_known sid (nm_id n) (Some (nm_message_id n)) (w_notes w) = true.
Lemma mild_vectored {A} sid id n (m : IO W A) : mild m → io_keeps (vectored sid id n) m.
Proof. intros Hm w [Hw Hk]. split; [by apply mild_working|]. apply Hm; [apply Hw|done]. Qed.
Lemma update_more sid id us k m (w : W) : valid (w_notes w) → vector_known sid k m (w_notes w) = true →
  vector_known sid k m (w_notes (on_notes (L := L) (update_note_metadata sid id us) w).2) = true.
Proof.
  intros V Hk. pose proof (note_vectors_law (w_notes w) V) as (_ & _ & _ & _ & Hm). specialize (Hm sid id us _ _ _ Hk).
  unfold on_notes. by destruct (update_note_metadata sid id us (w_notes w)).
Qed.

Abbreviation enriched_fields c related finished_at :=
    [UTitle (cl_title c); UTags (cl_tags c); UType (cl_type c); USummary (cl_summary c); URelated related;
     UStatus "ready"; UError None; UUpdatedAt (Some (now_iso finished_at))].
Lemma enrich_working sid id n : nm_id n = id → io_keeps (working sid id n) (enrich (S := S) (L := L) sid id n).
Proof.
  intros Hid w Hw. unfold enrich. unfold mbind at 1, IO_bind, io_lift. destruct (classify_text (nm_text n)) as [c|e]; [|done].
  unfold mbind at 1, IO_bind. destruct (embed_text (nm_text n)) as [embedding|e]; [|done].
  unfold mbind at 1, IO_bind. pose proof (mild_working sid id n _ (mild_search sid embedding
    (SearchOptions RELATED_TOP_K (Some id) (Some RELATED_MIN_SCORE))) w Hw) as Hw1.
  destruct (on_notes (search_related_note_ids _ _ _) w) as [[related|e] w1]; [|done]. simpl in Hw1.
  unfold mbind at 1, IO_bind. pose proof (mild_working sid id n _ (mild_add sid (note_vector id n c embedding)) w1 Hw1) as Hw2.
  unfold on_notes at 1 in Hw2. unfold on_notes at 1. destruct (add_vector_item sid (note_vector id n c embedding) (w_notes w1)) as [r s2] eqn:E.
  destruct Hw1 as [[V1 _] _]. destruct (add_vector_law sid _ _ _ _ V1 E) as (V2 & _ & _ & Hk). destruct r as [b|e]; [|done].
  set (w2 := w1 <| w_notes := s2 |>) in *. change (working sid id n w2) in Hw2.
  pose proof Hw2 as [[_ B] (x & Hx & Hxid & Hm & Hat)].
  assert (nm_id n ≠ "") as Hne.
  { rewrite <- Hxid. eapply wi_id. apply (B sid). apply find_some in Hx as [Hin _]. by apply list_elem_of_In. }
  assert (vector_known sid (nm_id n) (Some (nm_message_id n)) (w_notes w2) = true) as Hkn.
  { rewrite Hid. apply Hk. simpl. by rewrite <- Hid. }
  assert (io_keeps (vectored sid id n) (finished_at ← on_memory (S := S) (L := L) read_now;
    on_notes (update_note_metadata sid id (enriched_fields c related finished_at));; invalidate_space_cache sid)) as Hk3; [|by apply Hk3].
  repeat keeps_step; [apply mild_vectored, mild_memory| |apply mild_vectored, mild_invalidate].
  intros w' [Hw' Hk']. split.
  - apply (update_working _ _ _ n "ready"); [by right; right; left|done| |done|done]. intros y Hy. cbn.
    destruct Hw' as [_ (z & Hz & _ & _ & Hat')]. rewrite Hz in Hy. by injection Hy as <-.
  - apply update_more; [apply Hw'|done].
Qed.

(** From the moment the note is found *)
Lemma attempt_bounded sid id n (w : W) : bounded w → with_id id (notes_of sid (w_notes w)) = Some n →
  nm_enrichment_attempts n + 1 <= Z.max 1 ENRICHMENT_MAX_ATTEMPTS →
  bounded ((now ← on_memory read_now;
            on_notes (update_note_metadata sid id
              [UStatus "enriching"; UAttempts (nm_enrichment_attempts n + 1); UError None;
               UStartedAt (Some (now_iso now)); UUpdatedAt (Some (now_iso now))]);;
            try_except (enrich (L := L) sid id n)
              (λ e,
                failed_at ← on_memory read_now;
                on_notes (update_note_metadata sid id
                  [UStatus "failed"; UError (Some "background_enrichment_failed"); UUpdatedAt (Some (now_iso failed_at))]);;
                invalidate_space_cache sid;;
                throw e)
              (λ _, mret true)) w).2.
Proof.
  intros Hb Hn Hat. assert (nm_id n = id) as Hid by (by apply find_some in Hn as [_ E%String.eqb_eq]).
  assert (working sid id n w) as Hw by (split; [done|]; exists n; split_and!; [done|done|done|lia]).
  unfold mbind at 1, IO_bind. assert (w_notes (on_memory (S := S) (L := L) read_now w).2 = w_notes w) as En
    by (unfold on_memory; by destruct (read_now _)).
  pose proof (mild_working sid id n _ (mild_memory read_now) w Hw) as Hw1.
  destruct (on_memory read_now w) as [[now|e] w1]; [|by apply Hw1]. simpl in Hw1, En.
  match goal with |- bounded ((on_notes ?u ≫= ?k) w1).2 => assert (working sid id n (on_notes u w1).2) as Hw2;
    [|assert (∀ o, io_keeps (working sid id n) (k o)) as Hk] end.
  - apply (update_working _ _ _ n "enriching"); [by left|done| |done|done]. intros x Hx. cbn. done.
  - intros o. repeat keeps_step; try by apply enrich_working.
    + apply mild_working, mild_memory.
    + intros w' Hw'. apply (update_working _ _ _ n "failed"); [by right; left|done| |done|done]. intros x Hx. cbn.
      destruct Hw' as [_ (z & Hz & _ & _ & Ha)]. rewrite Hz in Hx. by injection Hx as <-.
    + apply mild_working, mild_invalidate.
  - unfold mbind at 1, IO_bind. destruct (on_notes _ w1) as [[o|e] w2]; [|by apply Hw2]. by apply (Hk o).
Qed.

(** Enrichment keeps the bounds. *)
Lemma enrich_note_bounded sid id : io_keeps bounded (enrich_note (S := S) (L := L) sid id).
Proof.
  intros w Hw. unfold enrich_note. unfold mbind at 1, IO_bind.
  destruct (find_law sid id (w_notes w) (proj1 Hw)) as (s' & Hv' & Hs & E). pose proof (mild_bounded _ (mild_find sid id) w Hw) as Hw1.
  unfold on_notes at 1 in Hw1. unfold on_notes at 1. rewrite E in Hw1. rewrite E. simpl in Hw1. set (w1 := w <| w_notes := s' |>) in *.
  destruct (with_id id (notes_of sid (w_notes w))) as [n|] eqn:En; [|exact Hw1]. rewrite <- (Hs sid) in En.
  change s' with (w_notes w1) in En. clearbody w1. clear -NoteLaws0 VectorLaws0 Hw1 En.
  destruct (negb (is_note_queryable n)); [exact Hw1|].
  assert (within sid n (w_notes w1)) as Hn.
  { apply Hw1. apply find_some in En as [Hin _]. by apply list_elem_of_In. }
  assert (nm_id n = id) as Hid by (by apply find_some in En as [_ Ei%String.eqb_eq]).
  assert (str_or (nm_enrichment_status n) "ready" = nm_enrichment_status n) as Est.
  { unfold str_or. destruct (String.eqb_spec (nm_enrichment_status n) "") as [E|]; [|done].
    pose proof (wi_status _ _ _ Hn) as Hin. rewrite E in Hin. by repeat (apply elem_of_cons in Hin as [?|Hin]; [done|]); apply elem_of_nil in Hin. }
  rewrite Est. unfold wants_enrichment. rewrite Est. destruct (String.eqb_spec (nm_enrichment_status n) "ready") as [Er|Er].
  - unfold mbind at 1, IO_bind. destruct (vector_exists_law sid id (Some (nm_message_id n)) (w_notes w1) (proj1 Hw1)) as (s2 & _ & _ & _ & E2).
    pose proof (mild_bounded _ (mild_vector sid id (Some (nm_message_id n))) w1 Hw1) as Hw2. unfold on_notes in Hw2 |- *. rewrite E2 in Hw2 |- *.
    rewrite <- Hid in *. rewrite (wi_vector _ _ _ Hn Er). exact Hw2.
  - unfold mbind at 1, IO_bind, mret, IO_ret. cbn [andb negb]. destruct (negb (negb _)) eqn:Ew; [exact Hw1|].
    apply (attempt_bounded sid id n w1 Hw1 En). rewrite negb_involutive in Ew.
    pose proof (wi_status _ _ _ Hn) as Hin. apply elem_of_cons in Hin as [Hp|Hin].
    { rewrite (wi_fresh _ _ _ Hn Hp). lia. }
    assert (py_in (nm_enrichment_status n) ["failed"; "enriching"] = true) as Hpy.
    { apply py_in_true. apply elem_of_cons in Hin as [->|Hin]; [by right; left|]. apply elem_of_cons in Hin as [->|Hin]; [by left|].
      by apply list_elem_of_singleton in Hin. }
    rewrite Hpy in Ew. simpl in Ew. apply Z.leb_gt in Ew. lia.
Qed.

Lemma step_bounded w w' : ingest_step w w' → accounted w → bounded w → bounded w'.
Proof.
  intros Hstep Ha Hb. destruct Hstep as [r w b l Hst Hne Hfresh E|r tenant_id dm w res w' Hk E|sid w res w' E|sid id w res w' E|sid mid w res w' E|d w].
  - done.
  - destruct Hk as (x & Hx & Hid & _). pose proof (log_ids_given _ (w_log w) x (ac_log _ Ha) Hx) as Hne. rewrite Hid in Hne.
    pose proof (process_record_bounded r tenant_id dm false Hne w Hb) as Hb'. by rewrite E in Hb'.
  - pose proof (process_pending_bounded sid w (ac_log _ Ha) Hb) as Hb'. by rewrite E in Hb'.
  - pose proof (enrich_note_bounded sid id w Hb) as Hb'. by rewrite E in Hb'.
  - assert (mild (backfill_vector_if_missing (S := S) (L := L) sid mid)) as Hm
      by (unfold backfill_vector_if_missing, find_note_by_message_id; mild_auto).
    pose proof (mild_bounded _ Hm w Hb) as Hb'. by rewrite E in Hb'.
  - done.
Qed.
(** * The properties *)

Lemma steps_keep (I : W → Prop) : (∀ w w', ingest_step w w' → I w → I w') → ∀ w w', rtc ingest_step w w' → I w → I w'.
Proof. intros Hs w w' Hr. induction Hr; [done|]. eauto. Qed.

(** C7: whatever is received, processed again, enriched and backfilled, in whatever order and
    whatever fails: no note has a text that the sensitive patterns recognise, every note is
    labelled normal, and no two notes of a space carry the same message. *)
Theorem notes_are_clean_and_unique w w' sid : sound w → rtc ingest_step w w' →
  NoDup (map nm_message_id (notes_of sid (w_notes w')))
  ∧ ∀ n, n ∈ notes_of sid (w_notes w') → Sensitive.contains_sensitive_data (nm_text n) = false ∧ nm_sensitivity n = "normal".
Proof.
  intros Hw Hr. destruct (steps_keep sound step_sound w w' Hr Hw) as [_ Hs]. destruct (Hs sid) as [Hnd Hc]. split; [done|].
  by apply Forall_forall.
Qed.


(** [process_pending] returns for every log: it counts the pending records it settled, those
    still pending afterwards are among the ones whose processing raised, and none is left when
    the notes can be saved. *)
Theorem pending_records_are_drained sid w : accounted w → ∃ count failed w', process_pending sid w = (Ok count, w')
  ∧ (∀ r, r ∈ failed → r ∈ pending_in sid w) ∧ count + Z.of_nat (length failed) = Z.of_nat (length (pending_in sid w))
  ∧ (∀ x, x ∈ pending_in sid w' → x ∈ failed)
  ∧ ((∀ r c s, r ∈ pending_in sid w → valid s → is_Ok (save_note (provisional_note r "" c) s).1) → pending_in sid w' = []).
Proof.
  intros Ha. destruct (process_pending_drains sid w Ha) as (count & failed & w' & E & _ & Hf & Hn & Hp & Hok).
  exists count, failed, w'. split_and!; [done|done|done|done|]. intros Hsave. rewrite (Hok Hsave) in Hp.
  destruct (pending_in sid w') as [|x l]; [done|]. exfalso. apply (not_elem_of_nil x), Hp. by left.
Qed.

(** However often a note is taken up, its enrichment is attempted at most the configured
    number of times (once if that is not positive), and a note is marked ready only when its
    vector is stored. *)
Theorem enrichment_is_bounded w w' sid n : accounted w → bounded w → rtc ingest_step w w' → n ∈ notes_of sid (w_notes w') →
  nm_enrichment_attempts n <= Z.max 1 ENRICHMENT_MAX_ATTEMPTS
  ∧ (nm_enrichment_status n = "ready" → vector_known sid (nm_id n) (Some (nm_message_id n)) (w_notes w') = true).
Proof.
  intros Ha Hb Hr Hn. destruct (steps_keep (λ w, accounted w ∧ bounded w)
    (λ w w' Hs H, conj (ingest_accounted w w' Hs (proj1 H)) (step_bounded w w' Hs (proj1 H) (proj2 H))) w w' Hr (conj Ha Hb)) as [_ [_ B]].
  destruct (B sid n Hn). auto.
Qed.
End spec.
