(* ===== verification/IngestionLocal.v ===== *)
(** The ingestion of the local mode: the write-ahead log keeps the contract of a log, so that the
    properties of [IngestionSpec] hold with the log files, the index files of the notes and the
    vector files. *)

From stdpp Require Import base list strings gmap.
From Stdlib Require Import ZArith Lia.
From S2P Require Import Prelude Consistency TextChunks Regex Sensitive Classifier Memory MemoryRuns CandidateValidation.
From S2P Require Import MemoryRuns MemoryExtraction MemoryExtractionSpec Wal Notes Vectors Ingestion IngestionSpec.

Open Scope string_scope.
Open Scope Z_scope.

(** * The log files *)

Section wal_log.
Context `{Json, !JsonLaws}.

Definition same_wal (a b : string) : bool := String.eqb (safe_space_id a) (safe_space_id b).
Definition wal_view (space_id : string) (fs : files) : list wal_record :=
  match load_records space_id fs with Ok rs => rs | Raise _ => [] end.

(** Every file is printed, with its own records and one record for each identity. *)
Definition filed (path : string) (rs : list wal_record) : Prop :=
  NoDup (map w_id rs) ∧ ∀ r, r ∈ rs → w_id r ≠ "" ∧ wal_path (w_space_id r) = path.
Definition wal_valid (fs : files) : Prop :=
  ∃ l : logs, fs = print_records <$> l ∧ ∀ path rs, l !! path = Some rs → filed path rs.

Lemma view_printed sid (l : logs) : wal_view sid (print_records <$> l) = records_of sid l.
Proof. unfold wal_view. by rewrite load_printed. Qed.
Lemma same_wal_path a b : same_wal a b = true ↔ wal_path a = wal_path b.
Proof.
  unfold same_wal, wal_path. rewrite String.eqb_eq. split; [by intros ->|]. intros E.
  apply (f_equal String.list_ascii_of_string) in E.
  assert (∀ a b, String.list_ascii_of_string (a +:+ b) = (String.list_ascii_of_string a ++ String.list_ascii_of_string b)%list) as Happ.
  { clear. intros a b. induction a as [|c a IH]; [done|]. simpl. by rewrite <- IH. }
  rewrite !Happ in E. apply app_inj_2 in E as [E _]; [|done].
  rewrite <- (String.string_of_list_ascii_of_string (safe_space_id a)), E. apply String.string_of_list_ascii_of_string.
Qed.
Lemma records_filed sid (l : logs) : (∀ path rs, l !! path = Some rs → filed path rs) → filed (wal_path sid) (records_of sid l).
Proof.
  intros Hl. unfold records_of. destruct (l !! wal_path sid) as [rs|] eqn:E; [by apply Hl|]. split; [constructor|by intros r ?%elem_of_nil].
Qed.

(** The records of a space after those of [sid] are replaced *)
Lemma replaced_records sid sid' rs (l : logs) :
  records_of sid' (<[wal_path sid := rs]> l) = if same_wal sid' sid then rs else records_of sid' l.
Proof.
  unfold records_of. destruct (same_wal sid' sid) eqn:E.
  - apply same_wal_path in E as ->. by rewrite lookup_insert_eq.
  - rewrite lookup_insert_ne; [done|]. intros Ep. assert (same_wal sid' sid = true); [by apply same_wal_path|congruence].
Qed.
Lemma replaced_filed sid rs (l : logs) : (∀ path rs, l !! path = Some rs → filed path rs) → filed (wal_path sid) rs →
  ∀ path rs', <[wal_path sid := rs]> l !! path = Some rs' → filed path rs'.
Proof. intros Hl Hrs path rs' [[<- <-]|[_ E]]%lookup_insert_Some; [done|by apply Hl]. Qed.

Lemma rewritten_log sid rid (f : wal_record → wal_record) (fs : files) : (∀ r, w_id (f r) = w_id r ∧ w_space_id (f r) = w_space_id r) →
  wal_valid fs → ∃ fs', rewrite_records sid rid f fs = (Ok tt, fs') ∧ wal_valid fs' ∧
    ∀ sid', wal_view sid' fs' = if same_wal sid' sid
      then map (λ r, if String.eqb (w_id r) rid then f r else r) (wal_view sid' fs) else wal_view sid' fs.
Proof.
  intros Hf (l & -> & Hl). rewrite rewrite_printed. eexists. split; [done|].
  assert (∀ r, w_id (if String.eqb (w_id r) rid then f r else r) = w_id r
    ∧ w_space_id (if String.eqb (w_id r) rid then f r else r) = w_space_id r) as Hg by (intros r; destruct (String.eqb _ _); [apply Hf|done]).
  split.
  - eexists. split; [done|]. unfold changed. apply replaced_filed; [done|]. destruct (records_filed sid l Hl) as [Hnd Hr]. split.
    + rewrite map_map. rewrite (map_ext _ w_id); [done|]. intros r. apply Hg.
    + intros r (x & <- & Hx)%elem_of_map. destruct (Hg x) as [-> ->]. by apply Hr.
  - intros sid'. rewrite !view_printed. unfold changed. rewrite replaced_records. destruct (same_wal sid' sid) eqn:E; [|done].
    apply same_wal_path in E. unfold records_of. by rewrite E.
Qed.

#[global] Instance wal_laws : LogLaws files same_wal wal_view wal_valid.
Proof.
  split.
  - intros a b fs E%same_wal_path. unfold wal_view, load_records. by rewrite E.
  - intros a b. apply String.eqb_sym.
  - intros a b c. rewrite !same_wal_path. congruence.
  - intros sid fs (l & -> & Hl). rewrite view_printed. apply (records_filed sid l Hl).
  - intros sid fs r (l & -> & Hl). rewrite view_printed. intros Hr. by apply (records_filed sid l Hl).
  - intros sid fs r (l & -> & Hl). rewrite view_printed. intros Hr. apply same_wal_path. by apply (records_filed sid l Hl).
  - intros sid fs (l & -> & Hl). rewrite view_printed. simpl. unfold load_pending_records. rewrite load_printed. f_equal.
    induction (records_of sid l) as [|r rs IH]; [done|]. rewrite filter_cons. simpl. destruct (String.eqb_spec (w_status r) "pending").
    + by rewrite decide_True, IH.
    + by rewrite decide_False, IH.
  - intros r fs (l & -> & Hl) Hid Hfresh. simpl. rewrite view_printed in *. fold (known r l). rewrite once_printed.
    eexists. split; [done|]. destruct (known r l); simpl.
    + split; [by eexists|]. intros sid. by rewrite andb_false_r.
    + split.
      * eexists. split; [done|]. apply replaced_filed; [done|]. destruct (records_filed (w_space_id r) l Hl) as [Hnd Hr]. split.
        -- rewrite map_app. apply NoDup_app. split_and!; [done| |apply NoDup_singleton]. by intros x Hx ->%list_elem_of_singleton.
        -- intros x [Hx|Hx%list_elem_of_singleton]%elem_of_app; [by apply Hr|]. by subst.
      * intros sid. rewrite andb_true_r, !view_printed. unfold logged. rewrite replaced_records. destruct (same_wal sid _) eqn:E; [|done].
        apply same_wal_path in E. unfold records_of. by rewrite E.
  - intros sid rid fs. by apply rewritten_log.
  - intros sid rid category preserve fs. by apply rewritten_log.
Qed.
End wal_log.

(** * Witnesses *)

Module Example.
#[local] Existing Instance test_platform.
#[local] Existing Instance ascii_tables.
#[local] Existing Instance test_rules.
#[local] Existing Instance MemoryRuns.Example.test_runs.
#[local] Existing Instance MemoryExtractionSpec.Example.drinks_env.
#[local] Existing Instance Wal.numbers.
#[local] Existing Instance Wal.numbers_laws.
#[local] Instance one_class : ClassifierModel :=
  {| complete_classification := λ text, Ok (ClassificationReply (Some text) (Some ["想法"]) "想法" (Some text)) |}.
#[local] Instance short_embeddings : Embeddings := {|
  embed_text := λ text, if String.eqb text "down" then Raise (RuntimeError "no service") else Ok [1; 2];
  RELATED_TOP_K := 3; RELATED_MIN_SCORE := 1; ENRICHMENT_MAX_ATTEMPTS := 2;
|}.
#[local] Instance short_dates : NoteClock := {| iso_date := λ ts, Some (String.substring 0 10 ts) |}.
#[local] Instance integers : Similarity := {|
  f_zero := 0; f_add := Z.add; f_mul := Z.mul; f_div := Z.div; f_sqrt := Z.sqrt; f_sub := Z.sub; f_one := 1; f_eq := Z.eqb; f_lt := Z.ltb;
  cosine_distance := λ _ _, 0; EMBEDDING_MODEL := "m";
|}.
#[local] Abbreviation local_world := (world note_files files).

Definition tea (id : string) : wal_record :=
  WalRecord id "feishu" None ("m" +:+ id) "s" None "p2p" [] "2026-01-01T00:00:00" "I like green tea and milk" "pending" "normal".
Definition no_files : note_files := NoteFiles ∅ ∅ ∅.
Definition start : local_world := World no_files ∅ empty_database [].

Lemma empty_log : wal_valid ∅.
Proof. exists ∅. split; [by rewrite fmap_empty|]. by intros path rs ?%lookup_empty_Some. Qed.
Lemma start_sound : sound LocalNotes.valid start.
Proof. split; [by intros ???|]. intros sid. split; constructor. Qed.
Lemma start_accounted : accounted LocalNotes.valid wal_view wal_valid start.
Proof. split; [by intros ???|apply empty_log|]. intros sid r Hr. by apply elem_of_nil in Hr. Qed.
Lemma start_bounded : bounded LocalNotes.valid start.
Proof. split; [by intros ???|]. intros sid n Hn. by apply elem_of_nil in Hn. Qed.

(** A record is received and processed, and its note is enriched. *)
Definition received : local_world := start <| w_log := (log_append_once (tea "1") ∅).2 |>.
Definition drained : local_world := (process_pending "s" received).2.
Definition ready : local_world := (enrich_note "s" "1" drained).2.
Abbreviation local_step := (ingest_step (S := note_files) wal_view).

Lemma appended : log_append_once (tea "1") ∅ = (Ok true, print_records <$> {[wal_path "s" := [tea "1"]]}).
Proof. rewrite <- (fmap_empty print_records). exact (once_printed (tea "1") ∅). Qed.
Lemma received_step : local_step start received.
Proof.
  apply (step_receive wal_view (tea "1") start true _); [done|done| |].
  - intros Hin. by apply elem_of_nil in Hin.
  - unfold received. by rewrite appended.
Qed.
Lemma ready_steps : rtc local_step start ready.
Proof.
  eapply rtc_l; [apply received_step|]. eapply rtc_l; [apply (step_pending _ "s" received _ drained (surjective_pairing _))|].
  eapply rtc_l; [apply (step_enrich _ "s" "1" drained _ ready (surjective_pairing _))|]. done.
Qed.

Example ready_note : map (λ n, (nm_id n, nm_text n, nm_enrichment_status n, nm_enrichment_attempts n)) (notes_of "s" (w_notes ready))
    = [("1", "I like green tea and milk", "ready", 1)]
  ∧ map w_status (wal_view "s" (w_log ready)) = ["processed"].
Proof. split; vm_compute; reflexivity. Qed.
Definition tea_ready : NoteMetadata :=
  default (provisional_note (tea "") "" (classify_text_local "")) (head (notes_of "s" (w_notes ready))).
Lemma tea_ready_in : tea_ready ∈ notes_of "s" (w_notes ready).
Proof.
  unfold tea_ready. destruct (notes_of "s" (w_notes ready)) as [|n l] eqn:E; [|by left].
  assert (length (notes_of "s" (w_notes ready)) = 1%nat) as El by (vm_compute; reflexivity). by rewrite E in El.
Qed.
Lemma tea_logged : processed (tea "1") ∈ wal_view "s" (w_log ready).
Proof.
  assert (wal_view "s" (w_log ready) = [processed (tea "1")]) as -> by (vm_compute; reflexivity). by left.
Qed.

Lemma notes_are_clean_and_unique_witness : NoDup (map nm_message_id (notes_of "s" (w_notes ready)))
  ∧ ∀ n, n ∈ notes_of "s" (w_notes ready) → Sensitive.contains_sensitive_data (nm_text n) = false ∧ nm_sensitivity n = "normal".
Proof. exact (notes_are_clean_and_unique LocalNotes.valid wal_view start ready "s" start_sound ready_steps). Defined.

Lemma homes n (s : note_files) : LocalNotes.valid s → same_space (home n s) (nm_space_id n) = true.
Proof. intros _. apply String.eqb_refl. Qed.
Lemma logs_share a b : same_wal a b = true → same_space (S := note_files) a b = true.
Proof. done. Qed.

Lemma received_accounted : accounted LocalNotes.valid wal_view wal_valid received.
Proof. eapply (ingest_accounted LocalNotes.valid same_wal wal_view wal_valid homes logs_share); [apply received_step|apply start_accounted]. Qed.
(** The note of the record can be saved: its date is a date. *)
Lemma tea_can_be_saved r c (s : note_files) : is_Ok (save_note (provisional_note r "" c) s).1.
Proof.
  unfold save_note, LocalNotes.local_store, LocalNotes.save_note, LocalNotes.note_exists, LocalNotes.load_index.
  unfold mbind, IO_bind, mret, IO_ret. cbn. by destruct (has_message _ _).
Qed.
Lemma pending_records_are_drained_witness : length (pending_in wal_view "s" received) = 1%nat ∧
  ∃ count w', process_pending "s" received = (Ok count, w') ∧ pending_in wal_view "s" w' = [].
Proof.
  split; [vm_compute; reflexivity|].
  destruct (pending_records_are_drained LocalNotes.valid same_wal wal_view wal_valid homes logs_share "s" received received_accounted)
    as (count & failed & w' & E & _ & _ & _ & Hok).
  exists count, w'. split; [exact E|]. apply Hok. intros r c s _ _. apply tea_can_be_saved.
Defined.

Lemma enrichment_is_bounded_witness : nm_enrichment_attempts tea_ready <= 2
  ∧ (nm_enrichment_status tea_ready = "ready" → vector_known "s" (nm_id tea_ready) (Some (nm_message_id tea_ready)) (w_notes ready) = true).
Proof.
  exact (enrichment_is_bounded LocalNotes.valid same_wal wal_view wal_valid homes logs_share start ready "s" tea_ready
    start_accounted start_bounded ready_steps tea_ready_in).
Defined.
End Example.
