(* ===== verification/MemoryScheduler.v ===== *)
(** The scheduler of the background work on the memories ([memory/scheduler.py],
    [memory/expiry.py]): what is due on a day, the run of a cadence over the spaces, and the
    tick of the scheduler's loop.

    The weekly and the monthly consolidation, which group memories by scores, are arbitrary
    programs over the memories; the index of the notes of a space is an arbitrary list. *)

From stdpp Require Import base list strings gmap pretty.
From Stdlib Require Import ZArith Lia.
From S2P Require Import Prelude Consistency Wal MemoryText Memory MemoryOps Calendar MemoryRuns CandidateValidation MemoryExtraction MemoryExtractionSpec.

Open Scope string_scope.
Open Scope Z_scope.

(** The dictionary that a consolidation returns: its status and its count of failures where it
    has them, and the rest as a text. *)
Record job_report := JobReport { jr_status : option string; jr_failed_count : Z; jr_rest : string }.

Class SchedulerEnv := {
  scheduler_extraction :: ExtractionEnv;
  load_index : string → database → list note;
  merge_duplicate_episodic : string → IO store job_report;
  run_monthly_semantic_consolidation : string → IO store job_report;
  pass_json : pass → Z → string;
  (* [json.dumps] of the report with its cadence, period, run and status *)
  dumps_report : job_report → string → string → string → string → result string;
  list_memory_space_ids : list string;
  MEMORY_AUTO_CONSOLIDATION_ENABLED : bool;
}.

(** An element of the results of a run, and the report of a run. *)
Record item := Item { it_space_id : string; it_run_id : option string; it_status : string; it_note : string }.
Record cadence_report := CadenceReport { cd_cadence : string; cd_period_key : string; cd_results : list item }.

(** The dictionary [last_run_dates] *)
Abbreviation run_dates := (gmap string string).

Section scheduler.
Context `{Platform, TextRules, RunEnv, SchedulerEnv}.

Definition EVALUATION_SPACE_PREFIXES : list string := ["l1_eval_"; "l2_eval_"; "l3_eval_"; "fmeval_"].
Definition is_evaluation_space (space_id : string) : bool :=
  existsb (λ p, starts_with p space_id) EVALUATION_SPACE_PREFIXES.

(** [run_memory_consolidation], without fact memory *)
Definition run_memory_consolidation (space_id cadence : string) : IO database job_report :=
  let cadence := str_lower (py_strip cadence) in
  if String.eqb cadence "daily" then
    index ← io_gets (load_index space_id);
    p ← process_unextracted_notes space_id index 100;
    now ← read_now;
    expired ← in_store (expire_due_memories (Some space_id) 500 (now_iso now));
    mret (JobReport (Some (pass_status p)) (Z.of_nat (length (ps_failed p))) (pass_json p expired))
  else if String.eqb cadence "weekly" then in_store (merge_duplicate_episodic space_id)
  else if String.eqb cadence "monthly" then in_store (run_monthly_semantic_consolidation space_id)
  else throw (ValueError ("unknown memory consolidation cadence: " +:+ cadence)).

(** The body of the [try] for a space whose period was reserved. *)
Definition consolidate_reserved (space_id cadence period_key run_id : string) : IO database item :=
  result ← run_memory_consolidation space_id cadence;
  if bool_decide (jr_status result = Some "partial") then
    let error := pretty (jr_failed_count result) +:+ " notes failed" in
    mark_consolidation_failed run_id error;;
    mret (Item space_id (Some run_id) "failed" error)
  else
    let status := default "completed" (jr_status result) in
    payload ← io_lift (dumps_report result cadence period_key run_id status);
    mark_consolidation_completed run_id payload;;
    mret (Item space_id (Some run_id) status "").

Definition consolidate_space (cadence period_key : string) (results : list item) (space_id : string) :
    IO database (list item) :=
  let safe_id := safe_space_id space_id in
  if is_evaluation_space safe_id
  then mret (results ++ [Item safe_id None "skipped" "synthetic_evaluation_space"])%list
  else
    run ← reserve_consolidation_run safe_id cadence period_key;
    match run with
    | None => mret (results ++ [Item safe_id None "skipped" "already_reserved_or_completed"])%list
    | Some run =>
        try_except (consolidate_reserved safe_id cadence period_key (rn_id run))
          (λ e, mark_consolidation_failed (rn_id run) (describe e);;
                mret (results ++ [Item safe_id (Some (rn_id run)) "failed" (exn_str e)])%list)
          (λ i, mret (results ++ [i])%list)
    end.

Definition run_memory_consolidation_once (cadence : string) (space_ids : list string) (today : date) :
    IO database cadence_report :=
  period_key ← io_lift (consolidation_period_key cadence today);
  let targets := match space_ids with [] => list_memory_space_ids | _ => space_ids end in
  results ← io_for targets [] (consolidate_space cadence period_key);
  mret (CadenceReport cadence period_key results).

(** [_report_has_failures], [_report_is_complete] *)
Definition report_has_failures (r : cadence_report) : bool := existsb (λ i, String.eqb (it_status i) "failed") (cd_results r).
Definition report_is_complete (r : cadence_report) : bool :=
  match cd_results r with [] => true | _ => negb (report_has_failures r) end.

Definition due_cadences (today : date) (last_run_dates : run_dates) : list string :=
  let pending c := negb (bool_decide (last_run_dates !! c = Some (isoformat today))) in
  ((if pending "daily" then ["daily"] else [])
   ++ (if (weekday today =? 0)%Z && pending "weekly" then ["weekly"] else [])
   ++ (if (day today =? 1)%Z && pending "monthly" then ["monthly"] else []))%list.

(** The local store has no counters to flush. *)
Definition flush_access_counts : IO database Z := mret 0.

(** [run_memory_scheduler_tick]: the reports, and the dictionary as it is afterwards; the
    switches for cards are off. *)
Definition run_cadence (today : date) (s : list cadence_report * run_dates) (cadence : string) :
    IO database (list cadence_report * run_dates) :=
  report ← run_memory_consolidation_once cadence [] today;
  mret ((s.1 ++ [report])%list,
        if report_is_complete report then <[cadence := isoformat today]> s.2 else s.2).
Definition run_memory_scheduler_tick (last_run_dates : run_dates) (today : date) :
    IO database (list cadence_report * run_dates) :=
  if negb MEMORY_AUTO_CONSOLIDATION_ENABLED then flush_access_counts;; mret ([], last_run_dates)
  else
    s ← io_for (due_cadences today last_run_dates) ([], last_run_dates) (run_cadence today);
    flush_access_counts;;
    mret s.
End scheduler.

(** The scheduler leaves no run open and retries what failed: a run over the spaces reports on
    each of them in order and ends every run that it reserved; after a tick exactly the cadences
    that failed are due again. *)

Section spec.
Context `{Platform, TextRules, RunEnv, SchedulerEnv}.

(** ** The work leaves the table of the runs alone *)

Section frame.
Variable rs : list run.
Let I (s : database) : Prop := consolidation_runs s = rs.

Lemma store_runs {A} (m : IO store A) : io_keeps I (in_store m).
Proof. intros s Hs. unfold I, in_store. by destruct (m (memory_store s)). Qed.
Lemma mark_runs id space_id status cc pc error inc : io_keeps I (mark_extraction_state id space_id status cc pc error inc).
Proof.
  intros s Hs. destruct (py_in status MEMORY_EXTRACTION_STATUSES) eqn:E.
  - destruct (mark_effect id space_id status cc pc error inc s E) as (x & s' & -> & _ & _ & _ & _ & _ & _ & _ & Hr).
    unfold I. cbn. by rewrite Hr.
  - unfold mark_extraction_state. by rewrite E.
Qed.
Lemma note_runs n force : io_keeps I (process_note_memory n force).
Proof. apply process_note_keeps; try (intros; apply store_runs); [intros; apply mark_runs|by intros s Hs]. Qed.

Lemma job_runs space_id cadence : io_keeps I (run_memory_consolidation space_id cadence).
Proof.
  unfold run_memory_consolidation, process_unextracted_notes, pass_note, claim_note, get_extraction_state,
    mark_extraction_failed.
  repeat keeps_step; auto using store_runs, mark_runs, note_runs; by intros s Hs.
Qed.
End frame.

(** ** Reserving and ending a run *)

Definition period_row (space_id cadence period_key : string) (s : database) : option run :=
  find_run space_id cadence period_key (consolidation_runs s).
Definition ended (space_id cadence period_key : string) (s : database) : Prop :=
  ∃ r, period_row space_id cadence period_key s = Some r ∧ rn_status r ∈ ["completed"; "failed"].

Lemma find_replaced {A} (p : A → bool) r l : p r = true → existsb p l = true →
  List.find p (update_where p (λ _, r) l) = Some r.
Proof.
  intros Hr. induction l as [|x l IH]; simpl; [done|]. destruct (p x) eqn:E; simpl; [by rewrite Hr|].
  rewrite E. exact IH.
Qed.
Lemma find_elsewhere {A} (p q : A → bool) f l : (∀ x, q x = true → p x = false ∧ p (f x) = false) →
  List.find p (update_where q f l) = List.find p l.
Proof.
  intros Hq. induction l as [|x l IH]; simpl; [done|]. rewrite IH. destruct (q x) eqn:E; [|done].
  by destruct (Hq x E) as [-> ->].
Qed.
Lemma find_snoc {A} (p : A → bool) l x : List.find p (l ++ [x]) =
  match List.find p l with Some y => Some y | None => if p x then Some x else None end.
Proof. induction l as [|y l IH]; simpl; [done|]. by destruct (p y). Qed.
Lemma find_none {A} (p : A → bool) l : existsb p l = false → List.find p l = None.
Proof. induction l as [|x l IH]; simpl; [done|]. intros [Hx Hl]%orb_false_iff. rewrite Hx. auto. Qed.

Lemma other_period space_id cadence period_key r : period_of r ≠ (space_id, cadence, period_key) →
  same_period space_id cadence period_key r = false.
Proof. intros Hne. apply not_true_iff_false. by intros ?%same_period_true. Qed.

Lemma find_put_same r rs : find_run (rn_space_id r) (rn_cadence r) (rn_period_key r) (put_run r rs) = Some r.
Proof.
  assert (same_period (rn_space_id r) (rn_cadence r) (rn_period_key r) r = true) as Hr by by apply same_period_true.
  unfold put_run, find_run. destruct (existsb _ rs) eqn:E; [by apply find_replaced|].
  by rewrite find_snoc, find_none, Hr.
Qed.
Lemma find_put_other r rs space_id cadence period_key : period_of r ≠ (space_id, cadence, period_key) →
  find_run space_id cadence period_key (put_run r rs) = find_run space_id cadence period_key rs.
Proof.
  intros Hne. pose proof (other_period _ _ _ _ Hne) as Hr. unfold put_run, find_run. destruct (existsb _ rs).
  - apply find_elsewhere. intros x Hx%same_period_true. split; [|done]. apply other_period.
    rewrite Hx. exact Hne.
  - rewrite find_snoc, Hr. by destruct (List.find _ _).
Qed.

(** Ending a run by its identifier: a period that has ended stays so, and the period of the
    run, if it is first with its identifier, ends. *)
Lemma find_set id f rs space_id cadence period_key : (∀ r, period_of (f r) = period_of r) →
  find_run space_id cadence period_key (update_where (λ r, String.eqb (rn_id r) id) f rs) =
  option_map (λ r, if String.eqb (rn_id r) id then f r else r) (find_run space_id cadence period_key rs).
Proof.
  intros Hf. unfold find_run. induction rs as [|r rs IH]; simpl; [done|].
  assert (same_period space_id cadence period_key (if String.eqb (rn_id r) id then f r else r)
    = same_period space_id cadence period_key r) as ->.
  { apply eq_true_iff_eq. rewrite !same_period_true. by destruct (String.eqb _ _); rewrite ?Hf. }
  by destruct (same_period _ _ _ r).
Qed.

Definition ending (f : run → run) : Prop :=
  (∀ r, period_of (f r) = period_of r) ∧ ∀ r, rn_status (f r) ∈ ["completed"; "failed"].
Lemma set_ended f id rs s' space_id cadence period_key : ending f →
  consolidation_runs s' = update_where (λ r, String.eqb (rn_id r) id) f rs →
  (∃ r, find_run space_id cadence period_key rs = Some r ∧ (rn_id r = id ∨ rn_status r ∈ ["completed"; "failed"])) →
  ended space_id cadence period_key s'.
Proof.
  intros [Hperiod Hst] E (r & Hr & Hid). unfold ended, period_row. rewrite E, find_set, Hr by done. simpl.
  eexists. split; [reflexivity|]. destruct (String.eqb (rn_id r) id) eqn:Ei; [apply Hst|].
  apply String.eqb_neq in Ei. by destruct Hid.
Qed.

Lemma complete_ended id payload s space_id cadence period_key :
  (∃ r, period_row space_id cadence period_key s = Some r ∧ (rn_id r = id ∨ rn_status r ∈ ["completed"; "failed"])) →
  ended space_id cadence period_key (mark_consolidation_completed id payload s).2.
Proof.
  intros Hr. destruct (complete_effect id payload s) as [now E]. eapply set_ended; [|exact E|exact Hr].
  split; [done|]. intros r. by left.
Qed.
Lemma fail_ended id error s space_id cadence period_key :
  (∃ r, period_row space_id cadence period_key s = Some r ∧ (rn_id r = id ∨ rn_status r ∈ ["completed"; "failed"])) →
  ended space_id cadence period_key (mark_consolidation_failed id error s).2.
Proof.
  intros Hr. destruct (fail_effect id error s) as [now E]. eapply set_ended; [|exact E|exact Hr].
  split; [done|]. intros r. right. by left.
Qed.

Definition id_taken : exn := IntegrityError "memory_consolidation_runs.id".

Lemma upsert_raises r rs s e : upsert_run r rs s = Raise e → e = id_taken.
Proof. unfold upsert_run. do 2 (destruct (existsb _ rs)); by intros [= <-]. Qed.

Lemma reserve_run_effect space_id cadence period_key s : let c := str_lower (py_strip cadence) in
  match reserve_consolidation_run space_id cadence period_key s with
  | (Raise e, s') => e = id_taken
  | (Ok None, s') => consolidation_runs s' = consolidation_runs s
  | (Ok (Some r), s') => (∃ q, period_row space_id c period_key s' = Some q ∧ rn_id q = rn_id r)
      ∧ ∀ space_id', space_id' ≠ space_id → period_row space_id' c period_key s' = period_row space_id' c period_key s
  end.
Proof.
  intros c. unfold reserve_consolidation_run, mbind, IO_bind, transaction. fold c.
  destruct (reserve_in_session space_id c period_key s) as [[o s']|e] eqn:E.
  - pose proof (reserve_effect _ _ _ _ _ _ E) as Heff. destruct o as [id|]; [|by destruct Heff].
    destruct Heff as [_ Hs']. unfold get_consolidation_run, io_gets. rewrite Hs'.
    set (r := Run id _ _ _ _ _ _ _ _) in *.
    destruct (List.find (λ q, String.eqb (rn_id q) id) (put_run r (consolidation_runs s))) as [q|] eqn:Eq.
    + apply List.find_some in Eq as [_ Hq%String.eqb_eq]. split.
      * exists r. split; [|done]. unfold period_row. rewrite Hs'. apply (find_put_same r).
      * intros space_id' Hne. unfold period_row. rewrite Hs'. apply find_put_other. by intros [= ->].
    + exfalso. pose proof (find_put_same r (consolidation_runs s)) as [Hr _]%List.find_some.
      eapply List.find_none in Eq; [|exact Hr]. simpl in Eq. by rewrite String.eqb_refl in Eq.
  - revert E. unfold reserve_in_session, mbind, M_bind, gets, read_clock. destruct (is_taken _ _); [done|].
    destruct (store_session _ _) as [[id s1]|e'] eqn:Ei; [|by unfold store_session in Ei].
    match goal with |- context [upsert_run ?r ?rs ?s1] => destruct (upsert_run r rs s1) as [[[] s2]|e'] eqn:Eu end; [done|].
    intros [= <-]. by apply upsert_raises in Eu.
Qed.

Lemma reserved_ends space_id cadence period_key run_id results s : let c := str_lower (py_strip cadence) in
  (∃ q, period_row space_id c period_key s = Some q ∧ rn_id q = run_id) →
  ∃ i s', try_except (consolidate_reserved space_id cadence period_key run_id)
      (λ e, mark_consolidation_failed run_id (describe e);;
            mret (results ++ [Item space_id (Some run_id) "failed" (exn_str e)])%list)
      (λ i, mret (results ++ [i])%list) s = (Ok (results ++ [i])%list, s')
    ∧ it_space_id i = space_id ∧ ended space_id c period_key s'
    ∧ ∀ space_id', ended space_id' c period_key s → ended space_id' c period_key s'.
Proof.
  intros c Hq.
  assert (∀ s1, consolidation_runs s1 = consolidation_runs s →
    (∃ q, period_row space_id c period_key s1 = Some q ∧ (rn_id q = run_id ∨ rn_status q ∈ ["completed"; "failed"]))
    ∧ ∀ space_id', ended space_id' c period_key s →
        ∃ q, period_row space_id' c period_key s1 = Some q ∧ (rn_id q = run_id ∨ rn_status q ∈ ["completed"; "failed"])) as Hrows.
  { intros s1 E. unfold ended, period_row in *. rewrite E. split; [destruct Hq as (q & ? & ?); eauto|].
    intros space_id' (q & ? & ?). eauto. }
  assert (∀ s1 e, consolidation_runs s1 = consolidation_runs s → ∃ i s',
    (mark_consolidation_failed run_id (describe e);; mret (results ++ [Item space_id (Some run_id) "failed" (exn_str e)])%list) s1
      = (Ok (results ++ [i])%list, s')
    ∧ it_space_id i = space_id ∧ ended space_id c period_key s'
    ∧ ∀ space_id', ended space_id' c period_key s → ended space_id' c period_key s') as Hfail.
  { intros s1 e E. destruct (Hrows s1 E) as [Hown Hothers].
    exists (Item space_id (Some run_id) "failed" (exn_str e)), (mark_consolidation_failed run_id (describe e) s1).2.
    split_and!; [done|done|by apply fail_ended|]. intros space_id' ?. apply fail_ended; auto. }
  unfold try_except, consolidate_reserved, mbind at 1, IO_bind at 1.
  pose proof (job_runs _ space_id cadence s eq_refl) as Hjob.
  destruct (run_memory_consolidation space_id cadence s) as [[result|e] s1]; cbn [snd] in Hjob; [|by apply Hfail].
  destruct (Hrows s1 Hjob) as [Hown Hothers]. destruct (bool_decide _).
  - eexists _, _. split; [reflexivity|]. split_and!; [done|by apply fail_ended|].
    intros space_id' ?. apply fail_ended; auto.
  - destruct (dumps_report _ _ _ _ _) as [payload|e]; [|by apply Hfail].
    eexists _, _. split; [reflexivity|]. split_and!; [done|by apply complete_ended|].
    intros space_id' ?. apply complete_ended; auto.
Qed.

(** ** The spaces, one after the other *)

(** The entry of a space, and what its reservation leaves behind. *)
Definition entry_of (c period_key : string) (s : database) (i : item) (space_id : string) : Prop :=
  it_space_id i = safe_space_id space_id ∧ (is_Some (it_run_id i) → ended (it_space_id i) c period_key s).

Lemma consolidate_space_spec cadence period_key results space_id s : let c := str_lower (py_strip cadence) in
  match consolidate_space cadence period_key results space_id s with
  | (Raise e, s') => e = id_taken
  | (Ok results', s') => ∃ i, results' = (results ++ [i])%list ∧ entry_of c period_key s' i space_id
      ∧ ∀ space_id', ended space_id' c period_key s → ended space_id' c period_key s'
  end.
Proof.
  intros c. unfold consolidate_space. destruct (is_evaluation_space _).
  { eexists. split; [reflexivity|]. split; [|done]. split; [done|]. by intros []. }
  unfold mbind, IO_bind. pose proof (reserve_run_effect (safe_space_id space_id) cadence period_key s) as Hr.
  destruct (reserve_consolidation_run _ cadence period_key s) as [[[r|]|e] s1]; [| |done].
  - destruct Hr as [Hrow Hothers].
    destruct (reserved_ends (safe_space_id space_id) cadence period_key (rn_id r) results s1 Hrow)
      as (i & s' & E & Hi & Hend & Hkeep). unfold mbind, IO_bind in E. rewrite E.
    exists i. split; [done|]. split; [split; [done|]; intros _; by rewrite Hi|].
    intros space_id' Hs. destruct (decide (space_id' = safe_space_id space_id)) as [->|Hne]; [done|].
    apply Hkeep. unfold ended in *. by rewrite Hothers.
  - eexists. split; [reflexivity|]. split; [split; [done|]; by intros []|].
    intros space_id' Hs. unfold ended, period_row in *. by rewrite Hr.
Qed.

Lemma spaces_spec cadence period_key targets : let c := str_lower (py_strip cadence) in ∀ results s,
  match io_for targets results (consolidate_space cadence period_key) s with
  | (Raise e, s') => e = id_taken
  | (Ok results', s') => ∃ items, results' = (results ++ items)%list
      ∧ Forall2 (entry_of c period_key s') items targets
      ∧ ∀ space_id', ended space_id' c period_key s → ended space_id' c period_key s'
  end.
Proof.
  intros c. induction targets as [|space_id targets IH]; intros results s; simpl.
  { exists []. split; [by rewrite app_nil_r|]. by split. }
  unfold mbind, IO_bind. pose proof (consolidate_space_spec cadence period_key results space_id s) as Hs.
  destruct (consolidate_space _ _ _ _ s) as [[results1|e] s1]; [|done].
  destruct Hs as (i & -> & Hi & Hkeep). specialize (IH (results ++ [i])%list s1).
  destruct (io_for _ _ _ s1) as [[results2|e] s2]; [|done].
  destruct IH as (items & -> & Hitems & Hkeep2). exists (i :: items). split; [by rewrite <- app_assoc|].
  split; [|auto]. constructor; [|done]. destruct Hi as [Hsp Hend]. split; [done|]. auto.
Qed.

(** ** The cadences of a tick *)

Definition CADENCES : list string := ["daily"; "weekly"; "monthly"].
(** [str.lower] leaves lower case alone. *)
Hypothesis lower_cadence : ∀ c, c ∈ CADENCES → str_lower c = c.

Lemma period_key_known c today : c ∈ CADENCES → ∃ k, consolidation_period_key c today = Ok k.
Proof.
  intros Hc. unfold consolidation_period_key.
  assert (py_strip c = c) as ->.
  { unfold CADENCES in Hc. repeat (apply elem_of_cons in Hc as [->|Hc]; [reflexivity|]). by apply not_elem_of_nil in Hc. }
  rewrite (lower_cadence c Hc). unfold CADENCES in Hc.
  repeat (apply elem_of_cons in Hc as [->|Hc]; [simpl; destruct (isocalendar today); by eexists|]). by apply not_elem_of_nil in Hc.
Qed.

Lemma once_spec cadence today s : cadence ∈ CADENCES →
  match run_memory_consolidation_once cadence [] today s with
  | (Raise e, _) => e = id_taken
  | (Ok r, _) => cd_cadence r = cadence
  end.
Proof.
  intros Hc. unfold run_memory_consolidation_once, mbind, IO_bind. destruct (period_key_known cadence today Hc) as [k ->].
  cbn. pose proof (spaces_spec cadence k list_memory_space_ids [] s) as Hs.
  destruct (io_for _ _ _ s) as [[results|e] s1]; done.
Qed.

Definition failed_cadence (reports : list cadence_report) (c : string) : bool :=
  existsb (λ r, String.eqb (cd_cadence r) c && report_has_failures r) reports.

Lemma complete_iff r : report_is_complete r = negb (report_has_failures r).
Proof. unfold report_is_complete, report_has_failures. by destruct (cd_results r). Qed.

Lemma cadences_spec today cs : NoDup cs → cs ⊆ CADENCES → ∀ reports d s,
  match io_for cs (reports, d) (run_cadence today) s with
  | (Raise e, _) => e = id_taken
  | (Ok (reports', d'), _) => ∃ rs, reports' = (reports ++ rs)%list ∧ map cd_cadence rs = cs
      ∧ ∀ c, d' !! c = if bool_decide (c ∈ cs) && negb (failed_cadence rs c) then Some (isoformat today) else d !! c
  end.
Proof.
  induction cs as [|c cs IH]; intros Hnd Hsub reports d s; simpl.
  { exists []. split; [by rewrite app_nil_r|]. by split. }
  apply NoDup_cons in Hnd as [Hc Hnd]. unfold mbind at 1, IO_bind at 1, run_cadence at 1.
  pose proof (once_spec c today s (Hsub c ltac:(by left))) as Hone. unfold mbind, IO_bind.
  destruct (run_memory_consolidation_once c [] today s) as [[r|e] s1]; [|done]. cbn.
  specialize (IH Hnd (λ x Hx, Hsub x (list_elem_of_further x c cs Hx))).
  match goal with |- context [io_for cs (?rs1, ?d1) _ s1] => specialize (IH rs1 d1 s1) end.
  destruct (io_for cs _ _ s1) as [[[reports' d']|e] s2]; [|done].
  destruct IH as (rs & -> & Hrs & Hd). exists (r :: rs). split; [by rewrite <- app_assoc|].
  split; [by simpl; rewrite Hone, Hrs|]. intros c'. rewrite Hd, complete_iff. unfold failed_cadence. simpl.
  assert (existsb (λ r, String.eqb (cd_cadence r) c && report_has_failures r) rs = false) as Hnot.
  { apply not_true_iff_false. intros (q & Hq & Eq)%existsb_exists. bools. destruct Eq as [Eq _]. apply Hc.
    rewrite <- Eq, <- Hrs. apply elem_of_map_in. by apply list_elem_of_In. }
  destruct (decide (c' = c)) as [->|Hne].
  - rewrite Hone, String.eqb_refl, Hnot, orb_false_r. rewrite bool_decide_eq_false_2 by done.
    rewrite bool_decide_eq_true_2 by by left. simpl. destruct (report_has_failures r); simpl; [done|].
    by rewrite lookup_insert_eq.
  - rewrite Hone, (proj2 (String.eqb_neq c c')) by done. simpl.
    assert (bool_decide (c' ∈ c :: cs) = bool_decide (c' ∈ cs)) as ->.
    { apply bool_decide_ext. rewrite elem_of_cons. tauto. }
    destruct (bool_decide _ && _); [done|]. destruct (report_has_failures r); simpl; [done|]. by rewrite lookup_insert_ne.
Qed.

Definition on_day (today : date) (c : string) : bool :=
  String.eqb c "daily" || String.eqb c "weekly" && (weekday today =? 0)%Z || String.eqb c "monthly" && (day today =? 1)%Z.
Definition pending (today : date) (d : run_dates) (c : string) : bool := negb (bool_decide (d !! c = Some (isoformat today))).
Lemma due_filter today d : due_cadences today d = List.filter (λ c, on_day today c && pending today d c) CADENCES.
Proof.
  unfold due_cadences, CADENCES, on_day. simpl. fold (pending today d "daily") (pending today d "weekly") (pending today d "monthly").
  rewrite !orb_false_r. by destruct (pending today d "daily"), (weekday today =? 0), (pending today d "weekly"), (day today =? 1), (pending today d "monthly").
Qed.
Lemma due_sub today d : due_cadences today d ⊆ CADENCES.
Proof. rewrite due_filter. intros c Hc. apply list_elem_of_In, filter_In in Hc as [Hc _]. by apply list_elem_of_In. Qed.
Lemma due_NoDup today d : NoDup (due_cadences today d).
Proof.
  rewrite due_filter. apply (NoDup_ListNoDup _), List.NoDup_filter, (NoDup_ListNoDup _).
  by apply (bool_decide_unpack _).
Qed.

Lemma due_after today d d' rs :
  (∀ c, d' !! c = if bool_decide (c ∈ due_cadences today d) && negb (failed_cadence rs c)
                  then Some (isoformat today) else d !! c) →
  due_cadences today d' = List.filter (failed_cadence rs) (due_cadences today d).
Proof.
  intros Hd. pose proof (due_filter today d) as Hdue. rewrite (due_filter today d').
  assert (∀ l, List.filter (failed_cadence rs) (List.filter (λ c, on_day today c && pending today d c) l)
    = List.filter (λ c, on_day today c && pending today d c && failed_cadence rs c) l) as Hff.
  { intros l. induction l as [|x l IH]; simpl; [done|]. destruct (on_day today x && pending today d x); simpl; by rewrite IH. }
  rewrite Hdue, Hff. apply List.filter_ext_in. intros c Hc.
  unfold pending at 1. rewrite Hd.
  destruct (bool_decide (c ∈ due_cadences today d)) eqn:E.
  - apply bool_decide_eq_true in E. rewrite Hdue in E. apply list_elem_of_In, filter_In in E as [_ E].
    rewrite E. simpl. apply andb_true_iff in E as [-> Ep]. destruct (failed_cadence rs c); simpl; [exact Ep|].
    by rewrite bool_decide_eq_true_2.
  - simpl. fold (pending today d c). apply bool_decide_eq_false in E.
    destruct (on_day today c && pending today d c) eqn:Ed; [|done]. exfalso. apply E. rewrite Hdue.
    apply list_elem_of_In, filter_In. done.
Qed.
End spec.

(** * The properties *)

Section properties.
Context `{Platform, TextRules, RunEnv, SchedulerEnv}.

(** C33: A run of a cadence reports on every space, in order, and leaves no run open: whatever the jobs do or raise, the period of each space that was reserved has ended as completed or failed when the report is returned.  The only exception that escapes is a clash of the identifiers of runs. *)
Theorem reserved_periods_end cadence space_ids today s r s' :
  run_memory_consolidation_once cadence space_ids today s = (r, s') →
  match r with
  | Ok report => Forall2 (λ i space_id, it_space_id i = safe_space_id space_id)
        (cd_results report) (match space_ids with [] => list_memory_space_ids | _ => space_ids end)
      ∧ ∀ i, i ∈ cd_results report → is_Some (it_run_id i) →
          ended (it_space_id i) (str_lower (py_strip cadence)) (cd_period_key report) s'
  | Raise e => e = IntegrityError "memory_consolidation_runs.id"
      ∨ consolidation_period_key cadence today = Raise e
  end.
Proof.
  unfold run_memory_consolidation_once, mbind, IO_bind. destruct (consolidation_period_key cadence today) as [k|e]; cbn.
  - pose proof (spaces_spec cadence k (match space_ids with [] => list_memory_space_ids | _ => space_ids end) [] s) as Hs.
    destruct (io_for _ _ _ s) as [[results|e] s1]; cbn; intros [= <- <-]; [|by left].
    destruct Hs as (items & -> & Hitems & _). simpl. split.
    + eapply Forall2_impl; [exact Hitems|]. by intros i sp [? _].
    + intros i Hi. apply list_elem_of_lookup in Hi as [j Hj].
      destruct (Forall2_lookup_l _ _ _ _ _ Hitems Hj) as (sp & _ & _ & Hend). exact Hend.
  - intros [= <- <-]. by right.
Qed.

(** A tick of the scheduler runs each cadence that is due once, and afterwards exactly those whose report has a failure are due again on that day: a success is not repeated and a failure is not forgotten. *)
Theorem tick_retries_failures last_run_dates today s :
  (∀ c, c ∈ CADENCES → str_lower c = c) → MEMORY_AUTO_CONSOLIDATION_ENABLED = true →
  match run_memory_scheduler_tick last_run_dates today s with
  | (Ok (reports, dates), _) => map cd_cadence reports = due_cadences today last_run_dates
      ∧ due_cadences today dates = List.filter (failed_cadence reports) (due_cadences today last_run_dates)
  | (Raise e, _) => e = IntegrityError "memory_consolidation_runs.id"
  end.
Proof.
  intros Hlower Hon. unfold run_memory_scheduler_tick. rewrite Hon. cbn [negb]. unfold mbind, IO_bind.
  pose proof (cadences_spec Hlower today _ (due_NoDup today last_run_dates) (due_sub today last_run_dates) [] last_run_dates s) as Hs.
  destruct (io_for _ _ _ s) as [[[reports d]|e] s1]; [|done]. cbn.
  destruct Hs as (rs & -> & Hrs & Hd). split; [done|]. by apply due_after.
Qed.
End properties.

(** * Witnesses *)

Module Example.
#[local] Existing Instance test_platform.
#[local] Existing Instance test_rules.
#[local] Existing Instance MemoryRuns.Example.test_runs.

(** The monthly consolidation fails. *)
#[local] Instance test_scheduler : SchedulerEnv := {|
  scheduler_extraction := MemoryExtractionSpec.Example.test_extraction [];
  load_index := λ _ _, [MkNote "n1" "s1" "ok" "" true];
  merge_duplicate_episodic := λ _, mret (JobReport None 0 "");
  run_monthly_semantic_consolidation := λ _, throw (RuntimeError "model");
  pass_json := λ _ _, "";
  dumps_report := λ _ _ _ _ status, Ok status;
  list_memory_space_ids := ["s1"; "l1_eval_7"];
  MEMORY_AUTO_CONSOLIDATION_ENABLED := true;
|}.
(** A Monday, and the first of a month *)
Definition first_of_june : date := Date 2026 6 1.

Lemma tick_retries_failures_witness :
  weekday first_of_june = 0
  ∧ match run_memory_scheduler_tick ∅ first_of_june empty_database with
    | (Ok (reports, dates), _) => map cd_cadence reports = due_cadences first_of_june ∅
        ∧ due_cadences first_of_june dates = List.filter (failed_cadence reports) (due_cadences first_of_june ∅)
    | (Raise e, _) => e = IntegrityError "memory_consolidation_runs.id"
    end.
Proof.
  split; [vm_compute; reflexivity|]. apply (tick_retries_failures ∅ first_of_june empty_database); [|reflexivity].
  intros c Hc. apply (proj1 (Forall_forall (λ c, ascii_lower c = c) CADENCES)); [|exact Hc].
  repeat constructor.
Defined.

#[local] Abbreviation monthly_run := (run_memory_consolidation_once "monthly" [] first_of_june empty_database).
Definition failed_item : item := Item "s1" (Some "run_0") "failed" "RuntimeError".
Definition monthly_report : cadence_report :=
  CadenceReport "monthly" "2026-06" [failed_item; Item "l1_eval_7" None "skipped" "synthetic_evaluation_space"].

Lemma reserved_periods_end_witness :
  ended (it_space_id failed_item) (str_lower (py_strip "monthly")) (cd_period_key monthly_report) monthly_run.2.
Proof.
  assert (monthly_run = (Ok monthly_report, monthly_run.2)) as E by (vm_compute; reflexivity).
  apply (proj2 (reserved_periods_end "monthly" [] first_of_june empty_database (Ok monthly_report) _ E) failed_item);
    [by left|by eexists].
Defined.

(** A space that another process holds is skipped, and the cadence counts as complete: it is not
    due again on that day, although the other process may still fail. *)
Example held_space_is_not_retried :
  let s := (reserve_consolidation_run "s1" "weekly" "2026-W23" (empty_database <| readings := 1%nat |>)).2 in
  let dates := <["daily" := "2026-06-01"]> (<["monthly" := "2026-06-01"]> ∅) in
  match run_memory_scheduler_tick dates first_of_june (s <| readings := 1%nat |>) with
  | (Ok (reports, dates), s') => map it_note (concat (map cd_results reports))
        = ["already_reserved_or_completed"; "synthetic_evaluation_space"]
      ∧ due_cadences first_of_june dates = []
      ∧ map rn_status (consolidation_runs s') = ["running"]
  | (Raise _, _) => False
  end.
Proof. vm_compute. by split_and!. Qed.
End Example.
