(* ===== verification/AskPlan.v ===== *)
(** The plan of a question: the units of [agent/ask_models.py], the validation of what the
    planning model returns ([agent/ask_plan_validator.py]), and the planner with its fallbacks
    ([agent/ask_planner.py]).

    Parsing the reply of the model is the work of pydantic: a raw plan is given as the plan it
    parses to, or the exception.  The constructors check the constraints that the models
    declare; a validated plan is changed in place without further checks. *)

From stdpp Require Import base list strings pretty relations.
From Stdlib Require Import ZArith Lia.
From S2P Require Import Prelude Consistency TextChunks.

Open Scope string_scope.
Open Scope Z_scope.

(** * The models *)

Definition ASK_INTENTS : list string :=
  ["task_state"; "task_inventory"; "preference_current"; "semantic_current"; "semantic_history";
   "episodic_history"; "note_lookup"; "memory_history"].
Definition ASK_MEMORY_TYPES : list string := ["task"; "preference"; "semantic"; "episodic"].
Definition ASK_FACETS : list string :=
  ["identity"; "location"; "education"; "career"; "project"; "learning"; "capability"; "device"; "other"].
Definition TIME_MODES : list string := ["current"; "recent"; "history"; "all"].
Definition EVIDENCE_MODES : list string := ["current_state"; "inventory"; "timeline"; "source_quote"; "aggregate"].
Definition ANSWER_MODES : list string := ["direct"; "list"; "timeline"; "compare"; "causal"; "summary"].

(** [QueryUnit] *)
Record query_unit := QueryUnit {
  qu_id : string;
  qu_question : string;
  qu_source_spans : list string;
  qu_intent : string;
  qu_memory_type : option string;
  qu_facet : option string;
  qu_topic : option string;
  qu_time_mode : string;
  qu_evidence_mode : string;
  qu_need_source_evidence : bool;
  qu_depends_on : list string;
  qu_priority : Z;
}.
#[export] Instance query_unit_eta : Eta query_unit := λ r,
  QueryUnit (qu_id r) (qu_question r) (qu_source_spans r) (qu_intent r) (qu_memory_type r) (qu_facet r)
    (qu_topic r) (qu_time_mode r) (qu_evidence_mode r) (qu_need_source_evidence r) (qu_depends_on r)
    (qu_priority r).

(** [AskPlan]; the items of the context are their texts. *)
Record ask_plan := AskPlan {
  original_query : string;
  context : list string;
  units : list query_unit;
  answer_mode : string;
}.

(** [len(s)]: the code points of a text are its bytes that do not continue one. *)
Fixpoint code_points (s : string) : Z :=
  match s with
  | EmptyString => 0
  | String c s => (if is_continuation c then 0 else 1) + code_points s
  end.

(** [list(dict.fromkeys(values))] *)
Fixpoint from_keys_aux (seen values : list string) : list string :=
  match values with
  | [] => []
  | v :: rest => if py_in v seen then from_keys_aux seen rest else v :: from_keys_aux (v :: seen) rest
  end.
Definition from_keys : list string → list string := from_keys_aux [].

(** [" ".join(str(value).split())] *)
Definition clean (s : string) : string := join_words (py_split s).
(** [clean_list] *)
Definition clean_list (values : list string) : list string :=
  from_keys (map clean (List.filter (λ v, negb (String.eqb (py_strip v) "")) values)).

Definition between (low high n : Z) : bool := (low <=? n) && (n <=? high).
Definition optional (p : string → bool) (value : option string) : bool :=
  match value with Some v => p v | None => true end.
Definition length_of {A} (l : list A) : Z := Z.of_nat (length l).

Definition valid_unit (u : query_unit) : bool :=
  between 1 32 (code_points (qu_id u)) && between 1 500 (code_points (qu_question u))
  && (length_of (qu_source_spans u) <=? 8) && py_in (qu_intent u) ASK_INTENTS
  && optional (λ t, py_in t ASK_MEMORY_TYPES) (qu_memory_type u)
  && optional (λ f, py_in f ASK_FACETS) (qu_facet u)
  && optional (λ t, code_points t <=? 160) (qu_topic u)
  && py_in (qu_time_mode u) TIME_MODES && py_in (qu_evidence_mode u) EVIDENCE_MODES
  && (length_of (qu_depends_on u) <=? 6) && between 1 9 (qu_priority u).

Definition ValidationError (model : string) : exn := OtherError "ValidationError" model.

(** [QueryUnit(...)] *)
Definition make_unit (u : query_unit) : result query_unit :=
  let u := u <| qu_id := clean (qu_id u) |> <| qu_question := clean (qu_question u) |>
             <| qu_topic := option_map clean (qu_topic u) |>
             <| qu_source_spans := clean_list (qu_source_spans u) |>
             <| qu_depends_on := clean_list (qu_depends_on u) |> in
  if valid_unit u then Ok u else Raise (ValidationError "QueryUnit").

Definition valid_plan (p : ask_plan) : bool :=
  between 1 2000 (code_points (original_query p)) && (length_of (context p) <=? 8)
  && between 1 16 (length_of (units p)) && py_in (answer_mode p) ANSWER_MODES.

(** [AskPlan(...)], of units that are validated already *)
Definition make_plan (p : ask_plan) : result ask_plan :=
  if valid_plan p then Ok p else Raise (ValidationError "AskPlan").

(** * The validator *)

Section validator.
Context `{Platform}.

Definition INTENT_MEMORY_TYPE : list (string * string) :=
  [("task_state", "task"); ("task_inventory", "task"); ("preference_current", "preference");
   ("semantic_current", "semantic"); ("semantic_history", "semantic"); ("episodic_history", "episodic")].
Definition expected_type (intent : string) : option string :=
  option_map snd (List.find (λ e, String.eqb e.1 intent) INTENT_MEMORY_TYPE).

(** [_compact] *)
Definition compact (value : string) : string := str_casefold (String.concat "" (py_split value)).
Definition any_cue (cues : list string) (text : string) : bool :=
  existsb (λ cue, str_contains (compact cue) text) cues.

Definition safe_fallback_plan (question : string) : result ask_plan :=
  let question := str_or (clean question) "查询相关记录" in
  u ← make_unit (QueryUnit "u1" question [question] "note_lookup" None None None "all" "source_quote" true [] 1);
  make_plan (AskPlan question [] [u] "direct").

Definition TIMELINE_CUES : list string := ["历史"; "变化"; "经历"; "过程"; "时间线"; "从开始"; "从最初"; "之前"; "后来"].
Definition CURRENT_CUES : list string := ["现在"; "当前"; "目前"; "眼下"].
Definition TASK_INVENTORY_CUES : list string := ["有哪些"; "列出"; "清单"].
Definition TASK_INVENTORY_DOMAINS : list string := ["任务"; "项目"; "待办"].
Definition TASK_EVENT_TIME_CUES : list string := ["何时"; "什么时候"; "截止"; "哪天"; "几号"].
Definition TASK_EVENT_ACTION_CUES : list string := ["提交"; "完成"; "参加"; "上线"; "发布"; "交付"; "开始"].
Definition AMBIGUOUS_REFERENCE_CUES : list string := ["那个"; "这个"; "那件"; "这件"; "它"].
Definition TASK_STATE_CUES : list string := ["怎么样"; "进度"; "状态"; "完成"; "做完"; "还要"; "是否"].

Definition as_inventory (u : query_unit) : query_unit :=
  u <| qu_intent := "task_inventory" |> <| qu_memory_type := Some "task" |> <| qu_time_mode := "current" |>
    <| qu_evidence_mode := "inventory" |>.

(** The last two cases of the repair. *)
Definition repair_event_or_inventory (u : query_unit) (compact_question : string) : query_unit :=
  if any_cue TASK_EVENT_TIME_CUES compact_question && any_cue TASK_EVENT_ACTION_CUES compact_question
     && py_in (qu_intent u) ["semantic_current"; "note_lookup"]
  then u <| qu_intent := "task_state" |> <| qu_memory_type := Some "task" |> <| qu_time_mode := "current" |>
         <| qu_evidence_mode := "current_state" |>
  else if (String.eqb (qu_evidence_mode u) "inventory"
           || (any_cue TASK_INVENTORY_CUES compact_question && any_cue TASK_INVENTORY_DOMAINS compact_question))
          && py_in (qu_intent u) ["task_state"; "semantic_current"; "semantic_history"; "note_lookup"]
  then as_inventory u
  else u.

Definition repair_intent_for_query (u : query_unit) (question : string) : query_unit :=
  let compact_question := compact question in
  let asks_current_state := String.eqb (qu_time_mode u) "current" && any_cue CURRENT_CUES (compact (qu_question u)) in
  if any_cue AMBIGUOUS_REFERENCE_CUES compact_question && any_cue TASK_STATE_CUES compact_question
  then as_inventory u
  else if any_cue TIMELINE_CUES compact_question && negb asks_current_state then
    if String.eqb (qu_intent u) "note_lookup" && any_cue ["经历"; "发生"; "最近记录"] compact_question
    then u <| qu_intent := "episodic_history" |> <| qu_memory_type := Some "episodic" |>
           <| qu_time_mode := "recent" |> <| qu_evidence_mode := "timeline" |>
           <| qu_need_source_evidence := true |>
    else if negb (py_in (qu_intent u) ["episodic_history"; "note_lookup"])
    then u <| qu_intent := "memory_history" |> <| qu_memory_type := None |> <| qu_time_mode := "history" |>
           <| qu_evidence_mode := "timeline" |> <| qu_need_source_evidence := true |>
    else repair_event_or_inventory u compact_question
  else repair_event_or_inventory u compact_question.

(** The values of the session context: a text, a mapping with its text values, or anything else. *)
Inductive context_value :=
  | ContextText (s : string)
  | ContextMapping (texts : list string)
  | ContextOther.
Definition session_texts (session : list context_value) : list string :=
  let non_blank s := negb (String.eqb (py_strip s) "") in
  mjoin (map (λ v, match v with
                   | ContextText s => if non_blank s then [s] else []
                   | ContextMapping texts => List.filter non_blank texts
                   | ContextOther => []
                   end) session).

(** The span is a part of the question or of the session. *)
Definition supported_span (question : string) (texts : list string) (span : string) : bool :=
  negb (String.eqb (compact span) "")
  && existsb (λ source, str_contains (compact span) source) (compact question :: map compact texts).
Definition has_supported_span (u : query_unit) (question : string) (texts : list string) : bool :=
  existsb (supported_span question texts) (qu_source_spans u).

Definition ANCHOR_GENERIC_NGRAMS : list string :=
  ["什么"; "喜欢"; "不喜"; "最喜"; "我最"; "现在"; "当前"; "目前"; "哪里"; "怎么"; "哪个"; "这个"; "那个"; "有哪"].

(** [{compact[index:index + 2] for index in range(...)}] *)
Fixpoint pairs (cs : list string) : list string :=
  match cs with
  | a :: ((b :: _) as rest) => (a +:+ b) :: pairs rest
  | _ => []
  end.
Definition anchor_ngrams (value : string) : list string :=
  List.filter (λ g, negb (py_in g ANCHOR_GENERIC_NGRAMS)) (pairs (chars (compact value))).

Definition repair_query_anchor (u : query_unit) (question : string) (texts : list string) : query_unit :=
  match List.find (supported_span question texts) (qu_source_spans u) with
  | None => u
  | Some anchor =>
      if String.eqb anchor "" then u
      else
        let anchor_terms := anchor_ngrams anchor in
        let question_terms := anchor_ngrams (qu_question u) in
        if negb (bool_decide (anchor_terms = [])) && negb (existsb (λ t, py_in t question_terms) anchor_terms)
        then u <| qu_question := anchor |> <| qu_topic := Some anchor |>
        else u
  end.

(** ** Cycles *)

(** [d[key] = value] *)
Fixpoint dict_set {V} (key : string) (value : V) (d : list (string * V)) : list (string * V) :=
  match d with
  | [] => [(key, value)]
  | (k, v) :: rest => if String.eqb k key then (key, value) :: rest else (k, v) :: dict_set key value rest
  end.
(** [{unit.id: set(unit.depends_on) for unit in units}]: a later unit replaces an earlier one
    with the same id. *)
Definition graph_of (us : list query_unit) : list (string * list string) :=
  fold_left (λ d u, dict_set (qu_id u) (from_keys (qu_depends_on u)) d) us [].
Definition graph_get (g : list (string * list string)) (node : string) : list string :=
  match List.find (λ e, String.eqb e.1 node) g with Some (_, ds) => ds | None => [] end.
(** [parent for parent in graph.get(node, set()) if parent in graph] *)
Definition parents (g : list (string * list string)) (node : string) : list string :=
  List.filter (λ p, py_in p (map fst g)) (graph_get g node).

(** The sets [visited] and [active]. *)
Definition marks : Type := list string * list string.

(** [any(visit(node) for node in nodes)]; [None] when the fuel of a visit does not suffice. *)
Fixpoint any_visit (visit : string → marks → option (bool * marks)) (nodes : list string) (s : marks) :
    option (bool * marks) :=
  match nodes with
  | [] => Some (false, s)
  | n :: rest =>
      match visit n s with
      | None => None
      | Some (true, s) => Some (true, s)
      | Some (false, s) => any_visit visit rest s
      end
  end.

Fixpoint visit (fuel : nat) (g : list (string * list string)) (node : string) (s : marks) : option (bool * marks) :=
  match fuel with
  | O => None
  | S fuel =>
      if py_in node s.2 then Some (true, s)
      else if py_in node s.1 then Some (false, s)
      else
        match any_visit (visit fuel g) (parents g node) (node :: s.1, node :: s.2) with
        | None => None
        | Some (r, s) => Some (r, (s.1, List.filter (λ n, negb (String.eqb n node)) s.2))
        end
  end.

(** The depth of the recursion is at most the number of nodes, which all become active once. *)
Definition search_cycle (g : list (string * list string)) : option (bool * marks) :=
  any_visit (visit (S (length g)) g) (map fst g) ([], []).
Definition has_cycle (us : list query_unit) : bool :=
  match search_cycle (graph_of us) with Some (r, _) => r | None => false end.

(** ** The whole validation *)

Inductive raw_plan :=
  | Planned (p : ask_plan)               (* an [AskPlan] *)
  | Parsed (r : result ask_plan).        (* data, and what [model_validate] makes of it *)

Definition identity_of (u : query_unit) : string * string * string * string :=
  (qu_intent u, compact (default "" (qu_topic u)), qu_time_mode u, qu_evidence_mode u).

(** The body of the loop over the units, up to the identity. *)
Definition review_unit (question : string) (texts known_ids : list string) (u : query_unit) : option query_unit :=
  let u := repair_intent_for_query u question in
  let expected := expected_type (qu_intent u) in
  if bool_decide (expected ≠ None) && negb (bool_decide (qu_memory_type u = None))
     && negb (bool_decide (qu_memory_type u = expected))
  then None
  else
    let u := match expected with Some t => u <| qu_memory_type := Some t |> | None => u end in
    if negb (has_supported_span u question texts) then None
    else
      let u := repair_query_anchor u question texts in
      Some (u <| qu_depends_on := List.filter (λ d, py_in d known_ids && negb (String.eqb d (qu_id u))) (qu_depends_on u) |>).

(** The loop, with the identities seen so far. *)
Fixpoint accept_units (question : string) (texts known_ids : list string)
    (seen : list (string * string * string * string)) (us : list query_unit) : list query_unit :=
  match us with
  | [] => []
  | u :: rest =>
      match review_unit question texts known_ids u with
      | None => accept_units question texts known_ids seen rest
      | Some u =>
          if bool_decide (identity_of u ∈ seen) then accept_units question texts known_ids seen rest
          else u :: accept_units question texts known_ids (identity_of u :: seen) rest
      end
  end.

Definition keep_known (ids : list string) (u : query_unit) : query_unit :=
  u <| qu_depends_on := List.filter (λ d, py_in d ids && negb (String.eqb d (qu_id u))) (qu_depends_on u) |>.

Definition caught (e : exn) : bool :=
  match e with
  | ValueError _ | TypeError _ => true
  | _ => String.eqb (exn_type e) "ValidationError"
  end.

Definition unit_limit (max_units : Z) : nat := Z.to_nat (Z.max 1 (Z.min max_units 6)).

Definition checked_plan (p : ask_plan) (question : string) (session : list context_value) (max_units : Z) :
    result ask_plan :=
  let texts := session_texts session in
  let known_ids := map qu_id (units p) in
  let accepted := accept_units question texts known_ids [] (take (unit_limit max_units) (units p)) in
  let accepted := map (keep_known (map qu_id accepted)) accepted in
  if bool_decide (accepted = []) || has_cycle accepted then safe_fallback_plan question
  else make_plan (AskPlan (clean question) (context p) accepted (answer_mode p)).

Definition validate_ask_plan (raw : raw_plan) (question : string) (session : list context_value) (max_units : Z) :
    result ask_plan :=
  match raw with
  | Planned p | Parsed (Ok p) => checked_plan p question session max_units
  | Parsed (Raise e) => if caught e then safe_fallback_plan question else Raise e
  end.

(** * The planner *)

Definition MULTI_GOAL_DOMAINS : list (list string * string * string * option string * string) :=
  [(["偏好"; "饮食"; "口味"; "饮料"; "咖啡"; "食物"; "吃"; "喝"], "preference_current", "preference", None, "饮食偏好");
   (["设备"; "电脑"; "手机"; "键盘"; "显示器"; "耳机"], "semantic_current", "semantic", Some "device", "设备");
   (["语言"; "技术栈"; "编程"; "擅长"; "能力"], "semantic_current", "semantic", Some "capability", "语言能力")].

Fixpoint number_units (question : string) (index : Z)
    (domains : list (list string * string * string * option string * string)) : result (list query_unit) :=
  match domains with
  | [] => Ok []
  | (_, intent, memory_type, facet, label) :: rest =>
      u ← make_unit (QueryUnit ("u" +:+ pretty index) label [question] intent (Some memory_type) facet (Some label)
        "current" "current_state" false [] 1);
      us ← number_units question (index + 1) rest;
      mret (u :: us)
  end.
Definition fallback_multi_goal_units (question : string) : result (list query_unit) :=
  let text := str_casefold (String.concat "" (py_split question)) in
  let matched := List.filter (λ d, existsb (λ marker, str_contains marker text) d.1.1.1.1) MULTI_GOAL_DOMAINS in
  if (length matched <? 2)%nat then Ok [] else number_units question 1 matched.

(** What the deterministic router of [agent/query_agent.py] answers, as far as it is read here. *)
Record route := Route { route_action : string; route_memory_type : string }.

Definition INTENT_OF_ACTION : list (string * (string * option string * string * string)) :=
  [("memory_history", ("memory_history", None, "history", "timeline"));
   ("list_tasks", ("task_inventory", Some "task", "current", "inventory"));
   ("task_status_search", ("task_state", Some "task", "current", "current_state"));
   ("list_recent_episodes", ("episodic_history", Some "episodic", "recent", "timeline"));
   ("semantic_search", ("note_lookup", None, "all", "source_quote"))].
Definition INTENT_OF_SEARCH : list (string * (string * option string * string * string)) :=
  [("task", ("task_state", Some "task", "current", "current_state"));
   ("preference", ("preference_current", Some "preference", "current", "current_state"));
   ("semantic", ("semantic_current", Some "semantic", "current", "current_state"))].
Definition NOTE_LOOKUP : string * option string * string * string := ("note_lookup", None, "all", "source_quote").
Definition look_up (table : list (string * (string * option string * string * string))) (key : string) :
    string * option string * string * string :=
  match List.find (λ e, String.eqb e.1 key) table with Some (_, v) => v | None => NOTE_LOOKUP end.
Definition intent_of_route (r : route) : string * option string * string * string :=
  if String.eqb (route_action r) "memory_search" then look_up INTENT_OF_SEARCH (route_memory_type r)
  else look_up INTENT_OF_ACTION (route_action r).

Definition deterministic_fallback_plan (r : route) (question : string) : result ask_plan :=
  multi_units ← fallback_multi_goal_units question;
  match multi_units with
  | _ :: _ => p ← make_plan (AskPlan question [] multi_units "summary"); validate_ask_plan (Planned p) question [] 4
  | [] =>
      let '(intent, memory_type, time_mode, evidence_mode) := intent_of_route r in
      u ← make_unit (QueryUnit "u1" question [question] intent memory_type None None time_mode evidence_mode
        (py_in intent ["memory_history"; "note_lookup"]) [] 1);
      p ← make_plan (AskPlan question [] [u]
        (if String.eqb intent "memory_history" then "timeline"
         else if String.eqb intent "task_inventory" then "list" else "direct"));
      validate_ask_plan (Planned p) question [] 4
  end.

(** [complete_json] either raises or returns data; [replies] are its outcomes in the attempts. *)
Fixpoint plan_attempts (replies : list (result raw_plan)) (question : string) (session : list context_value)
    (max_units : Z) (fallback : result ask_plan) : result ask_plan :=
  match replies with
  | [] => fallback
  | reply :: rest =>
      match (raw ← reply; validate_ask_plan raw question session max_units) with
      | Ok p => Ok p
      | Raise _ => plan_attempts rest question session max_units fallback
      end
  end.

Definition plan_ask (complete_json : nat → result raw_plan) (router : string → route) (question : string)
    (session : list context_value) (max_units : Z) : result ask_plan :=
  let question := clean question in
  if String.eqb question "" then safe_fallback_plan question
  else plan_attempts [complete_json 0%nat; complete_json 1%nat] question session (Z.max 1 (Z.min max_units 6))
         (deterministic_fallback_plan (router question) question).
End validator.
