(* ===== verification/AskPlanSpec.v ===== *)
(** The validated plans: the search for cycles is correct, a validated plan is well-formed and
    can be executed in the order of its dependencies, and planning always ends with a plan for a
    question of up to 500 characters. *)

From stdpp Require Import base list strings pretty relations.
From Stdlib Require Import ZArith Lia.
From S2P Require Import Prelude Consistency TextChunks AskPlan.

Open Scope string_scope.
Open Scope Z_scope.

(** * The search for cycles *)

Section cycles.
Context (g : list (string * list string)).

Definition edge (a b : string) : Prop := b ∈ parents g a.

(** Each node of the list has its parents after it. *)
Fixpoint ordered (l : list string) : Prop :=
  match l with
  | [] => True
  | n :: l => (n ∉ l) ∧ (∀ p, edge n p → p ∈ l) ∧ ordered l
  end.

Lemma edge_node n p : edge n p → p ∈ map fst g.
Proof. unfold edge, parents. rewrite list_elem_of_In, filter_In. intros [_ Hp]. by apply py_in_true in Hp. Qed.

Lemma edge_source n p : edge n p → n ∈ map fst g.
Proof.
  unfold edge, parents, graph_get. rewrite list_elem_of_In, filter_In. intros [Hp _].
  destruct (List.find _ g) as [[k ds]|] eqn:E; [|done]. apply List.find_some in E as [E Hk].
  apply String.eqb_eq in Hk as <-. apply elem_of_map. exists (k, ds). split; [done|]. by apply list_elem_of_In.
Qed.

Lemma ordered_step l n p : ordered l → n ∈ l → edge n p → p ∈ l.
Proof.
  induction l as [|m l IH]; intros Hl Hn Hp; [by apply not_elem_of_nil in Hn|].
  destruct Hl as (_ & Hm & Hl). apply elem_of_cons in Hn as [->|Hn]; right; auto.
Qed.
Lemma ordered_closed l n p : ordered l → n ∈ l → tc edge n p → p ∈ l.
Proof. intros Hl Hn Hp. revert Hn. induction Hp; eauto using ordered_step. Qed.

Lemma ordered_acyclic l n : ordered l → n ∈ l → ¬ tc edge n n.
Proof.
  induction l as [|m l IH]; intros Hl Hn Hc; [by apply not_elem_of_nil in Hn|].
  pose proof Hl as (Hm & Hp & Hl'). apply elem_of_cons in Hn as [->|Hn]; [|by eapply IH].
  apply Hm. inversion Hc as [x y E|x y z E Hyz]; subst; [by apply Hp|].
  eapply ordered_closed; [exact Hl'|by apply Hp|done].
Qed.

(** What holds between visits: the visited nodes are the active ones and the finished ones [l],
    whose parents are finished. *)
Record search_inv (s : marks) (l : list string) : Prop := {
  si_visited : ∀ x, x ∈ s.1 ↔ x ∈ s.2 ∨ x ∈ l;
  si_disjoint : ∀ x, x ∈ s.2 → x ∉ l;
  si_active : NoDup s.2;
  si_nodes : ∀ x, x ∈ s.2 → x ∈ map fst g;
  si_ordered : ordered l;
}.

(** What a visit of the nodes [ns] promises. *)
Definition visited_well (s : marks) (l ns : list string) (r : option (bool * marks)) : Prop :=
  ∃ b s', r = Some (b, s')
    ∧ (b = true → ∃ n, tc edge n n)
    ∧ (b = false → s'.2 = s.2 ∧ ∃ l', search_inv s' l' ∧ l ⊆ l' ∧ ns ⊆ l').

Lemma any_visit_spec f a ns : ∀ s l,
  (∀ n s l, n ∈ ns → s.2 = a → search_inv s l → visited_well s l [n] (f n s)) →
  s.2 = a → search_inv s l → visited_well s l ns (any_visit f ns s).
Proof.
  induction ns as [|n ns IH]; intros s l Hf Ha Hs; simpl.
  { exists false, s. split_and!; [done|done|]. intros _. split; [done|]. exists l.
    split_and!; [done|done|]. intros x Hx. by apply not_elem_of_nil in Hx. }
  destruct (Hf n s l) as (b & s1 & -> & Htrue & Hfalse); [by left|done|done|].
  destruct b; [by exists true, s1|]. destruct Hfalse as (Hact & l1 & Hs1 & Hl1 & Hn); [done|].
  destruct (IH s1 l1) as (b & s2 & -> & Ht2 & Hf2);
    [intros; apply Hf; [by right|done..]|congruence|done|].
  exists b, s2. split_and!; [done|done|]. intros ->. destruct Hf2 as (Hact2 & l2 & Hs2 & Hl2 & Hns); [done|].
  split; [congruence|]. exists l2. split_and!; [done|by transitivity l1|].
  intros x [->|Hx]%elem_of_cons; [|auto]. apply Hl2, Hn. by left.
Qed.

Lemma filter_absent n (l : list string) : n ∉ l → List.filter (λ x, negb (String.eqb x n)) (n :: l) = l.
Proof.
  intros Hn. simpl. rewrite String.eqb_refl. simpl. apply List.forallb_filter_id.
  apply forallb_forall. intros x Hx. bools. intros ->. apply Hn. by apply list_elem_of_In.
Qed.

(** Opening a node, and finishing it when its parents are finished. *)
Lemma search_open n s l :
  search_inv s l → n ∈ map fst g → n ∉ s.2 → n ∉ s.1 → search_inv (n :: s.1, n :: s.2) l.
Proof.
  intros [H1 H2 H3 H4 H5] Hn Ha Hv. split; simpl.
  - intros x. rewrite !elem_of_cons, H1. tauto.
  - intros x [->|Hx]%elem_of_cons; [|auto]. intros Hl. apply Hv, H1. by right.
  - by constructor.
  - intros x [->|Hx]%elem_of_cons; auto.
  - done.
Qed.
Lemma search_close n v a l :
  search_inv (v, n :: a) l → parents g n ⊆ l → search_inv (v, a) (n :: l).
Proof.
  intros [H1 H2 H3 H4 H5] Hp. simpl in *. apply NoDup_cons in H3 as [Hna H3]. split; simpl.
  - intros x. rewrite H1, !elem_of_cons. tauto.
  - intros x Hx [->|Hl]%elem_of_cons; [done|]. apply (H2 x); [by right|done].
  - done.
  - intros x Hx. apply H4. by right.
  - split_and!; [apply H2; by left|exact Hp|done].
Qed.

Lemma visit_spec fuel : ∀ n s l,
  search_inv s l → n ∈ map fst g → (∀ a, a ∈ s.2 → tc edge a n) →
  (length g < fuel + length s.2)%nat → visited_well s l [n] (visit fuel g n s).
Proof.
  induction fuel as [|fuel IH]; intros n s l Hs Hn Hpath Hfuel.
  { exfalso. pose proof (NoDup_submseteq s.2 (map fst g) (si_active _ _ Hs) (si_nodes _ _ Hs)) as Hsub.
    apply submseteq_length in Hsub. rewrite length_map in Hsub. lia. }
  simpl. destruct (py_in n s.2) eqn:Ea; bools.
  { exists true, s. split_and!; [done| |done]. intros _. exists n. auto. }
  destruct (py_in n s.1) eqn:Ev; bools.
  { exists false, s. split_and!; [done|done|]. intros _. split; [done|]. exists l. split_and!; [done|done|].
    intros x ->%list_elem_of_singleton. by apply (si_visited _ _ Hs) in Ev as [|]. }
  destruct (any_visit_spec (visit fuel g) (n :: s.2) (parents g n) (n :: s.1, n :: s.2) l)
    as (b & [v a] & -> & Htrue & Hfalse); [|done|by apply search_open|].
  - intros p s0 l0 Hp E Hs0. apply IH; [done|by eapply edge_node| |rewrite E; simpl; lia].
    rewrite E. intros x [->|Hx]%elem_of_cons; [by apply tc_once|]. eapply tc_r; [by apply Hpath|done].
  - exists b. eexists. split; [done|]. split; [done|]. intros ->. simpl.
    destruct Hfalse as (Hact & l1 & Hs2 & Hl1 & Hps); [done|]. simpl in Hact. subst a.
    rewrite filter_absent by done. split; [done|]. exists (n :: l1).
    split_and!; [by apply search_close| |].
    + intros x Hx. right. auto.
    + intros x ->%list_elem_of_singleton. by left.
Qed.

(** The search ends, and finds a cycle exactly when there is one. *)
Lemma search_cycle_spec : ∃ b s, search_cycle g = Some (b, s)
  ∧ (b = true → ∃ n, tc edge n n) ∧ (b = false → ∃ l, ordered l ∧ map fst g ⊆ l).
Proof.
  destruct (any_visit_spec (visit (S (length g)) g) [] (map fst g) ([], []) [])
    as (b & s & E & Htrue & Hfalse); [|done| |].
  - intros n s l Hn E Hs. apply visit_spec; [done|done| |rewrite E; simpl; lia].
    rewrite E. intros a Ha. by apply not_elem_of_nil in Ha.
  - split; simpl; [|intros x Hx; by apply not_elem_of_nil in Hx|constructor|intros x Hx; by apply not_elem_of_nil in Hx|done].
    intros x. rewrite elem_of_nil. tauto.
  - exists b, s. split_and!; [done|done|]. intros Hb. destruct (Hfalse Hb) as (_ & l & Hs & _ & Hl).
    exists l. split; [apply Hs|done].
Qed.
End cycles.

(** ** Graphs of units *)

Definition depends (us : list query_unit) : string → string → Prop := edge (graph_of us).

Lemma has_cycle_false us : has_cycle us = false →
  ∃ l, ordered (graph_of us) l ∧ map fst (graph_of us) ⊆ l.
Proof.
  unfold has_cycle. destruct (search_cycle_spec (graph_of us)) as (b & s & -> & _ & Hf). by intros ->; apply Hf.
Qed.

Lemma has_cycle_true us : has_cycle us = true → ∃ n, tc (depends us) n n.
Proof.
  unfold has_cycle. destruct (search_cycle_spec (graph_of us)) as (b & s & -> & Ht & _). by intros ->; apply Ht.
Qed.

Lemma dict_set_keys {V} key (v : V) d : ∀ k, k ∈ map fst (dict_set key v d) ↔ k = key ∨ k ∈ map fst d.
Proof.
  induction d as [|[k0 v0] d IH]; intros k; simpl; [rewrite list_elem_of_singleton, elem_of_nil; tauto|].
  destruct (String.eqb_spec k0 key) as [->|]; simpl; rewrite !elem_of_cons; [tauto|]. rewrite IH. tauto.
Qed.

Lemma graph_keys us : ∀ k, k ∈ map fst (graph_of us) ↔ k ∈ map qu_id us.
Proof.
  unfold graph_of. assert (∀ d k, k ∈ map fst (fold_left (λ d u, dict_set (qu_id u) (from_keys (qu_depends_on u)) d) us d)
    ↔ k ∈ map fst d ∨ k ∈ map qu_id us) as H; [|intros k; rewrite H; simpl; rewrite elem_of_nil; tauto].
  induction us as [|u us IH]; intros d k; simpl; [rewrite elem_of_nil; tauto|].
  rewrite IH, dict_set_keys, elem_of_cons. tauto.
Qed.

Lemma elem_of_from_keys_aux values : ∀ seen v, v ∈ from_keys_aux seen values ↔ v ∈ values ∧ v ∉ seen.
Proof.
  induction values as [|x values IH]; intros seen v; simpl; [rewrite !elem_of_nil; tauto|].
  destruct (py_in x seen) eqn:E; bools; rewrite ?elem_of_cons, IH, ?elem_of_cons.
  - split; [tauto|]. intros [[->|] ?]; [done|tauto].
  - destruct (decide (v = x)) as [->|]; [tauto|]. tauto.
Qed.
Lemma elem_of_from_keys values v : v ∈ from_keys values ↔ v ∈ values.
Proof. unfold from_keys. rewrite elem_of_from_keys_aux, elem_of_nil. tauto. Qed.

(** When the ids are distinct the graph holds the dependencies of every unit. *)
Lemma dict_set_new {V} key (v : V) d : key ∉ map fst d → dict_set key v d = (d ++ [(key, v)])%list.
Proof.
  induction d as [|[k w] d IH]; simpl; [done|]. rewrite elem_of_cons. intros Hk.
  destruct (String.eqb_spec k key) as [->|]; [tauto|]. rewrite IH; tauto.
Qed.

Lemma graph_of_distinct us : NoDup (map qu_id us) →
  graph_of us = map (λ u, (qu_id u, from_keys (qu_depends_on u))) us.
Proof.
  unfold graph_of. assert (∀ d, NoDup (map fst d ++ map qu_id us) →
    fold_left (λ d u, dict_set (qu_id u) (from_keys (qu_depends_on u)) d) us d
    = (d ++ map (λ u, (qu_id u, from_keys (qu_depends_on u))) us)%list) as H; [|intros Hnd; by apply (H [])].
  induction us as [|u us IH]; intros d Hnd; simpl; [by rewrite app_nil_r|].
  simpl in Hnd. pose proof Hnd as (_ & Hu & _)%NoDup_app.
  rewrite dict_set_new by (intros Hk; apply (Hu _ Hk); by left). rewrite IH, <- app_assoc; [done|].
  by rewrite map_app, <- app_assoc.
Qed.

Lemma depends_distinct us a b : NoDup (map qu_id us) →
  depends us a b ↔ ∃ u, u ∈ us ∧ qu_id u = a ∧ b ∈ qu_depends_on u ∧ b ∈ map qu_id us.
Proof.
  intros Hnd. unfold depends, edge, parents, graph_get. rewrite list_elem_of_In, filter_In, <- list_elem_of_In.
  bools. rewrite graph_keys, graph_of_distinct by done.
  destruct (List.find _ _) as [[k ds]|] eqn:E.
  - apply List.find_some in E as [E Hk]. simpl in Hk. apply String.eqb_eq in Hk as <-.
    apply list_elem_of_In, elem_of_map in E as (u & [= <- <-] & Hu). rewrite elem_of_from_keys. split.
    + intros [Hb Hin]. eauto.
    + intros (u' & Hu' & Hid & Hb & Hin).
      by rewrite (key_unique qu_id us u u' Hnd Hu Hu').
  - split; [by intros [Hb%elem_of_nil _]|]. intros (u & Hu & <- & _).
    eapply List.find_none in E; [|apply list_elem_of_In, elem_of_map; by exists u]. simpl in E.
    by rewrite String.eqb_refl in E.
Qed.

(** * Validated plans *)

Section validated.
Context `{Platform}.

Record well_formed (max_units : Z) (p : ask_plan) : Prop := {
  wf_units : (1 ≤ length (units p) ≤ unit_limit max_units)%nat;
  wf_types : ∀ u t, u ∈ units p → expected_type (qu_intent u) = Some t → qu_memory_type u = Some t;
  wf_depends : ∀ u d, u ∈ units p → d ∈ qu_depends_on u → d ≠ qu_id u ∧ d ∈ map qu_id (units p);
  wf_distinct : NoDup (map identity_of (units p));
  wf_acyclic : has_cycle (units p) = false;
}.

Lemma unit_limit_positive max_units : (1 ≤ unit_limit max_units)%nat.
Proof. unfold unit_limit. lia. Qed.

Lemma make_unit_Ok u v : make_unit u = Ok v →
  v = u <| qu_id := clean (qu_id u) |> <| qu_question := clean (qu_question u) |>
        <| qu_topic := option_map clean (qu_topic u) |>
        <| qu_source_spans := clean_list (qu_source_spans u) |>
        <| qu_depends_on := clean_list (qu_depends_on u) |> ∧ valid_unit v = true.
Proof. unfold make_unit. case_match eqn:E; [|done]. by intros [= <-]. Qed.

Lemma long_unit u : between 1 500 (code_points (clean (qu_question u))) = false →
  make_unit u = Raise (ValidationError "QueryUnit").
Proof. intros Hb. unfold make_unit, valid_unit. simpl. by rewrite Hb, andb_false_r. Qed.

Lemma make_plan_Ok p q : make_plan p = Ok q → q = p ∧ valid_plan p = true.
Proof. unfold make_plan. case_match eqn:E; [|done]. by intros [= <-]. Qed.

Lemma fallback_well_formed max_units question p : safe_fallback_plan question = Ok p → well_formed max_units p.
Proof.
  unfold safe_fallback_plan, mbind, result_bind. destruct (make_unit _) as [u|] eqn:E; [|done].
  apply make_unit_Ok in E as [-> _]. intros [-> _]%make_plan_Ok.
  pose proof (unit_limit_positive max_units). split; simpl; [lia| | |apply NoDup_singleton|reflexivity].
  - by intros u t ->%list_elem_of_singleton.
  - by intros u d ->%list_elem_of_singleton Hd%elem_of_nil.
Qed.

(** A unit that the loop keeps. *)
Definition kept_unit (question : string) (texts : list string) (u : query_unit) : Prop :=
  (∀ t, expected_type (qu_intent u) = Some t → qu_memory_type u = Some t)
  ∧ has_supported_span u question texts = true.

Lemma anchor_keeps u question texts :
  let v := repair_query_anchor u question texts in
  qu_intent v = qu_intent u ∧ qu_memory_type v = qu_memory_type u ∧ qu_source_spans v = qu_source_spans u.
Proof. simpl. unfold repair_query_anchor. by repeat case_match. Qed.

Lemma review_unit_kept question texts known_ids u v :
  review_unit question texts known_ids u = Some v → kept_unit question texts v.
Proof.
  unfold review_unit. generalize (repair_intent_for_query u question). clear u. intros u.
  destruct (expected_type (qu_intent u)) as [t|] eqn:Et.
  - destruct (bool_decide _ && _ && _); [done|].
    destruct (has_supported_span (u <| qu_memory_type := Some t |>) question texts) eqn:Es; [|done].
    intros [= <-]. destruct (anchor_keeps (u <| qu_memory_type := Some t |>) question texts) as (Ei & Em & Ep).
    split; simpl.
    + intros t'. rewrite Ei, Em. simpl. congruence.
    + unfold has_supported_span in *. simpl. rewrite Ep. exact Es.
  - destruct (bool_decide _ && _ && _); [done|].
    destruct (has_supported_span u question texts) eqn:Es; [|done].
    intros [= <-]. destruct (anchor_keeps u question texts) as (Ei & Em & Ep). split; simpl.
    + intros t'. rewrite Ei. congruence.
    + unfold has_supported_span in *. simpl. rewrite Ep. exact Es.
Qed.

Lemma accept_units_spec question texts known_ids us : ∀ seen,
  let l := accept_units question texts known_ids seen us in
  (length l ≤ length us)%nat ∧ (∀ v, v ∈ l → kept_unit question texts v)
  ∧ NoDup (map identity_of l) ∧ ∀ v, v ∈ l → identity_of v ∉ seen.
Proof.
  induction us as [|u us IH]; intros seen; simpl.
  { split_and!; [lia| |constructor|]; intros v Hv; by apply not_elem_of_nil in Hv. }
  destruct (review_unit question texts known_ids u) as [v|] eqn:E;
    [|destruct (IH seen) as (Hl & Hk & Hnd & Hs); split_and!; [lia|done..]].
  case_bool_decide as Hseen; [destruct (IH seen) as (Hl & Hk & Hnd & Hs); split_and!; [lia|done..]|].
  destruct (IH (identity_of v :: seen)) as (Hl & Hk & Hnd & Hs).
  split_and!; simpl; [lia| | |].
  - intros w [->|Hw]%elem_of_cons; [by eapply review_unit_kept|auto].
  - apply NoDup_cons. split; [|done]. intros (w & Ew & Hw)%elem_of_map. apply (Hs w Hw). rewrite Ew. by left.
  - intros w [->|Hw]%elem_of_cons; [done|]. intros Hin. apply (Hs w Hw). by right.
Qed.

Lemma keep_known_kept question texts ids u : kept_unit question texts u → kept_unit question texts (keep_known ids u).
Proof. by intros [Ht Hs]. Qed.

Lemma keep_known_ids ids us : map qu_id (map (keep_known ids) us) = map qu_id us.
Proof. rewrite map_map. done. Qed.

Lemma checked_plan_spec p question session max_units q :
  checked_plan p question session max_units = Ok q →
  well_formed max_units q
  ∧ (safe_fallback_plan question = Ok q
     ∨ ∀ u, u ∈ units q → has_supported_span u question (session_texts session) = true).
Proof.
  unfold checked_plan. set (accepted := accept_units _ _ _ _ _).
  pose proof (accept_units_spec question (session_texts session) (map qu_id (units p))
    (take (unit_limit max_units) (units p)) []) as Hspec. simpl in Hspec. fold accepted in Hspec.
  destruct Hspec as (Hlen & Hkept & Hnd & _). rewrite length_take in Hlen.
  case_match eqn:Ec; [intros E; split; [by eapply fallback_well_formed|by left]|].
  intros [-> _]%make_plan_Ok. apply orb_false_iff in Ec as [Hne Hcycle]. apply bool_decide_eq_false in Hne.
  assert (∀ u, u ∈ map (keep_known (map qu_id accepted)) accepted → kept_unit question (session_texts session) u) as Hk.
  { intros u (v & <- & Hv)%elem_of_map. by apply keep_known_kept, Hkept. }
  split; [|right; intros u Hu; by apply Hk].
  split; cbn [units]; [| | | |done].
  - rewrite length_map. split; [|lia]. destruct accepted; [done|simpl; lia].
  - intros u t Hu. by apply Hk.
  - intros u d (v & <- & Hv)%elem_of_map Hd. rewrite keep_known_ids. simpl in *.
    apply list_elem_of_In, filter_In in Hd as [_ Hd]. bools. tauto.
  - rewrite map_map. exact Hnd.
Qed.

(** * The planner *)

Lemma clean_clean s : clean (clean s) = clean s.
Proof. unfold clean. by rewrite py_split_join. Qed.

Lemma from_keys_length values : (length (from_keys values) ≤ length values)%nat.
Proof.
  unfold from_keys. generalize (@nil string). induction values as [|v values IH]; intros seen; simpl; [done|].
  case_match; [specialize (IH seen); lia|]. simpl. specialize (IH (v :: seen)). lia.
Qed.
Lemma clean_list_one s : (length_of (clean_list [s]) <=? 8) = true.
Proof.
  unfold clean_list, length_of. apply Z.leb_le.
  pose proof (from_keys_length (map clean (List.filter (λ v, negb (String.eqb (py_strip v) "")) [s]))) as Hl.
  rewrite length_map in Hl. pose proof (List.filter_length_le (λ v, negb (String.eqb (py_strip v) "")) [s]).
  simpl in *. lia.
Qed.

(** A question the planner works on: without redundant white space, of 1 to 500 characters. *)
Definition proper (question : string) : Prop :=
  clean question = question ∧ question ≠ "" ∧ between 1 500 (code_points question) = true.

Lemma unit_for_question u : clean (qu_question u) = qu_question u → between 1 500 (code_points (qu_question u)) = true →
  qu_source_spans u = [qu_question u] → qu_topic u = None → qu_depends_on u = [] →
  valid_unit (u <| qu_id := clean (qu_id u) |> <| qu_question := "x" |> <| qu_source_spans := [] |>) = true →
  is_Ok (make_unit u).
Proof.
  intros Hq Hlen Hs Ht Hd Hv. unfold make_unit. rewrite Hq, Hs, Ht, Hd.
  assert (valid_unit (u <| qu_id := clean (qu_id u) |> <| qu_question := qu_question u |> <| qu_topic := None |>
    <| qu_source_spans := clean_list [qu_question u] |> <| qu_depends_on := [] |>) = true) as Hvalid.
  { revert Hv. unfold valid_unit. simpl. rewrite Hlen, clean_list_one, Ht, Hd. done. }
  change (option_map clean None) with (@None string). change (clean_list []) with (@nil string).
  by rewrite Hvalid.
Qed.

Lemma safe_fallback_Ok question : proper question → is_Ok (safe_fallback_plan question).
Proof.
  intros (Hc & Hne & Hlen). unfold safe_fallback_plan. rewrite Hc. unfold str_or.
  apply String.eqb_neq in Hne. rewrite Hne. unfold mbind, result_bind.
  destruct (make_unit _) as [u|e] eqn:E.
  - unfold make_plan, valid_plan. cbn [original_query context units answer_mode].
    assert (between 1 2000 (code_points question) = true) as -> by (unfold between in *; bools; lia). done.
  - pose proof (unit_for_question (QueryUnit "u1" question [question] "note_lookup" None None None "all" "source_quote" true [] 1))
      as Hok. rewrite E in Hok. apply Hok; done.
Qed.

Lemma checked_plan_Ok p question session max_units :
  proper question → (length_of (context p) <=? 8) = true → py_in (answer_mode p) ANSWER_MODES = true →
  is_Ok (checked_plan p question session max_units).
Proof.
  intros Hq Hctx Hmode. unfold checked_plan. set (accepted := accept_units _ _ _ _ _).
  pose proof (accept_units_spec question (session_texts session) (map qu_id (units p))
    (take (unit_limit max_units) (units p)) []) as Hspec. simpl in Hspec. fold accepted in Hspec.
  destruct Hspec as (Hlen & _). rewrite length_take in Hlen.
  case_match eqn:Ec; [by apply safe_fallback_Ok|]. apply orb_false_iff in Ec as [Hne _].
  apply bool_decide_eq_false in Hne. destruct Hq as (Hc & _ & Hl). unfold make_plan, valid_plan.
  cbn [original_query context units answer_mode]. rewrite Hc, Hctx, Hmode.
  assert (between 1 2000 (code_points question) = true) as -> by (unfold between in *; bools; lia).
  assert (between 1 16 (length_of (map (keep_known (map qu_id accepted)) accepted)) = true) as ->; [|done].
  unfold between, length_of. rewrite length_map. assert (unit_limit max_units ≤ 6)%nat by (unfold unit_limit; lia).
  destruct accepted; [done|]. bools. simpl in *. lia.
Qed.

Lemma make_unit_one_span u q : qu_source_spans u = [q] →
  is_Ok (make_unit (u <| qu_source_spans := [] |>)) → is_Ok (make_unit u).
Proof.
  intros Hs. unfold make_unit.
  assert (∀ spans, (length_of spans <=? 8) = true → ∀ v, valid_unit (v <| qu_source_spans := spans |>)
    = valid_unit (v <| qu_source_spans := [] |>)) as Hv.
  { intros spans Hsp v. unfold valid_unit. simpl. by rewrite Hsp. }
  set (v := u <| qu_id := clean (qu_id u) |> <| qu_question := clean (qu_question u) |>
    <| qu_topic := option_map clean (qu_topic u) |> <| qu_depends_on := clean_list (qu_depends_on u) |>).
  pose proof (Hv _ (clean_list_one q) v) as E. rewrite Hs. intros Hok.
  change (is_Ok (if valid_unit (v <| qu_source_spans := [] |>)
    then Ok (v <| qu_source_spans := [] |>) else Raise (ValidationError "QueryUnit"))) in Hok.
  change (is_Ok (if valid_unit (v <| qu_source_spans := clean_list [q] |>)
    then Ok (v <| qu_source_spans := clean_list [q] |>) else Raise (ValidationError "QueryUnit"))).
  rewrite E. by destruct (valid_unit (v <| qu_source_spans := [] |>)).
Qed.

Definition domain_unit (question : string) (index : Z)
    (d : list string * string * string * option string * string) : query_unit :=
  QueryUnit ("u" +:+ pretty index) d.2 [question] d.1.1.1.2 (Some d.1.1.2) d.1.2 (Some d.2)
    "current" "current_state" false [] 1.

Lemma domain_unit_Ok question index d : d ∈ MULTI_GOAL_DOMAINS → 1 ≤ index ≤ 3 →
  is_Ok (make_unit (domain_unit question index d)).
Proof.
  intros Hd Hi. apply (make_unit_one_span _ question); [done|].
  assert (index = 1 ∨ index = 2 ∨ index = 3) as Hindex by lia.
  unfold MULTI_GOAL_DOMAINS in Hd. rewrite !elem_of_cons, elem_of_nil in Hd.
  destruct Hd as [->|[->|[->|[]]]]; destruct Hindex as [->|[->| ->]]; vm_compute; exact I.
Qed.

Lemma number_units_Ok question domains : ∀ index,
  (∀ d, d ∈ domains → d ∈ MULTI_GOAL_DOMAINS) → 1 ≤ index → index + length_of domains ≤ 4 →
  ∃ us, number_units question index domains = Ok us ∧ length us = length domains.
Proof.
  unfold length_of. induction domains as [|d domains IH]; intros index Hd Hi Hlen; simpl; [by exists []|].
  simpl in Hlen. destruct d as [[[[markers intent] memory_type] facet] label].
  pose proof (domain_unit_Ok question index (markers, intent, memory_type, facet, label)) as Hu.
  unfold domain_unit in Hu. simpl in Hu. unfold mbind, result_bind.
  destruct (make_unit _) as [u|e]; [|exfalso; apply Hu; [apply Hd; by left|lia]].
  destruct (IH (index + 1)) as (us & -> & Hl); [intros; apply Hd; by right|lia|lia|].
  exists (u :: us). split; [done|simpl; by rewrite Hl].
Qed.

Lemma multi_goal_Ok question : ∃ us, fallback_multi_goal_units question = Ok us ∧ (length us ≤ 3)%nat.
Proof.
  unfold fallback_multi_goal_units. set (matched := List.filter _ _).
  pose proof (List.filter_length_le (λ d, existsb (λ marker, str_contains marker
    (str_casefold (String.concat "" (py_split question)))) d.1.1.1.1) MULTI_GOAL_DOMAINS) as Hlen.
  fold matched in Hlen. simpl in Hlen. case_match; [exists []; split; [done|simpl; lia]|].
  destruct (number_units_Ok question matched 1) as (us & -> & Hl); [|lia|unfold length_of; lia|].
  - intros d Hd. apply list_elem_of_In, filter_In in Hd as [Hd _]. by apply list_elem_of_In.
  - exists us. split; [done|lia].
Qed.

Lemma look_up_in table key : look_up table key ∈ NOTE_LOOKUP :: map snd table.
Proof.
  unfold look_up. destruct (List.find _ table) as [[k v]|] eqn:E; [right|left].
  apply List.find_some in E as [E _]. apply elem_of_map. exists (k, v). split; [done|]. by apply list_elem_of_In.
Qed.

Lemma intent_of_route_in r : intent_of_route r ∈ NOTE_LOOKUP :: map snd INTENT_OF_SEARCH ++ map snd INTENT_OF_ACTION.
Proof.
  unfold intent_of_route. rewrite elem_of_cons, elem_of_app. case_match.
  - pose proof (look_up_in INTENT_OF_SEARCH (route_memory_type r)) as Hin. rewrite elem_of_cons in Hin. tauto.
  - pose proof (look_up_in INTENT_OF_ACTION (route_action r)) as Hin. rewrite elem_of_cons in Hin. tauto.
Qed.

Lemma route_unit_Ok r question : proper question →
  let '(intent, memory_type, time_mode, evidence_mode) := intent_of_route r in
  is_Ok (make_unit (QueryUnit "u1" question [question] intent memory_type None None time_mode evidence_mode
    (py_in intent ["memory_history"; "note_lookup"]) [] 1)).
Proof.
  intros (Hc & Hne & Hlen). pose proof (intent_of_route_in r) as Hin.
  destruct (intent_of_route r) as [[[intent memory_type] time_mode] evidence_mode].
  apply unit_for_question; try done. unfold INTENT_OF_SEARCH, INTENT_OF_ACTION in Hin. cbn [map snd app] in Hin. rewrite !elem_of_cons, elem_of_nil in Hin.
  by repeat destruct Hin as [[= -> -> -> ->]|Hin]; [vm_compute..|].
Qed.

Lemma deterministic_fallback_Ok r question : proper question → is_Ok (deterministic_fallback_plan r question).
Proof.
  intros Hq. pose proof Hq as (Hc & Hne & Hlen). unfold deterministic_fallback_plan.
  assert (between 1 2000 (code_points question) = true) as Hlen' by (unfold between in *; bools; lia).
  destruct (multi_goal_Ok question) as (us & -> & Hus). unfold mbind, result_bind.
  destruct us as [|u us].
  - pose proof (route_unit_Ok r question Hq) as Hu.
    destruct (intent_of_route r) as [[[intent memory_type] time_mode] evidence_mode].
    destruct (make_unit _) as [u|e]; [|done]. unfold make_plan, valid_plan.
    cbn [original_query context units answer_mode]. rewrite Hlen'.
    assert (∀ i : string, py_in (if String.eqb i "memory_history" then "timeline"
      else if String.eqb i "task_inventory" then "list" else "direct") ANSWER_MODES = true) as Hmode
      by (intros i; by destruct (String.eqb i "memory_history"), (String.eqb i "task_inventory")).
    rewrite Hmode. apply checked_plan_Ok; [done|done|apply Hmode].
  - unfold make_plan, valid_plan. cbn [original_query context units answer_mode]. rewrite Hlen'.
    assert (between 1 16 (length_of (u :: us)) = true) as -> by (unfold between, length_of; bools; simpl in *; lia).
    by apply checked_plan_Ok.
Qed.

Lemma plan_attempts_Ok replies question session max_units fallback :
  is_Ok fallback → is_Ok (plan_attempts replies question session max_units fallback).
Proof. intros Hf. induction replies as [|reply replies IH]; simpl; [done|]. by case_match. Qed.

Lemma plan_attempts_from replies question session max_units fallback p :
  plan_attempts replies question session max_units fallback = Ok p →
  fallback = Ok p ∨ ∃ raw, validate_ask_plan raw question session max_units = Ok p.
Proof.
  induction replies as [|reply replies IH]; simpl; [by left|]. case_match eqn:E; [|done].
  intros [= ->]. right. unfold mbind, result_bind in E. destruct reply as [raw|]; [by exists raw|done].
Qed.

Lemma validate_well_formed raw question session max_units p :
  validate_ask_plan raw question session max_units = Ok p → well_formed max_units p.
Proof.
  unfold validate_ask_plan. repeat case_match; try done; intros E; try by apply checked_plan_spec in E as [? _].
  by eapply fallback_well_formed.
Qed.

Lemma deterministic_fallback_well_formed r question p :
  deterministic_fallback_plan r question = Ok p → well_formed 4 p.
Proof.
  unfold deterministic_fallback_plan, mbind, result_bind.
  repeat case_match; try done; apply (validate_well_formed (Planned _)).
Qed.
End validated.

(** * The properties *)

(** C27: The search for cycles in a plan ends, and reports a cycle exactly when the dependencies of the units form one. *)
Theorem has_cycle_correct us :
  (∃ b s, search_cycle (graph_of us) = Some (b, s)) ∧ (has_cycle us = true ↔ ∃ n, tc (depends us) n n).
Proof.
  split; [destruct (search_cycle_spec (graph_of us)) as (b & s & E & _); eauto|].
  split; [apply has_cycle_true|]. intros [n Hn]. destruct (has_cycle us) eqn:E; [done|]. exfalso.
  apply has_cycle_false in E as (l & Hl & Hin). apply (ordered_acyclic (graph_of us) l n Hl); [|exact Hn].
  apply Hin. inversion Hn; subst; by eapply edge_source.
Qed.

(** C28: A plan that the validator returns is well-formed: it has between one unit and the limit, the memory type of each unit is the one of its intent, dependencies are other units of the plan, no two units ask the same, and the dependencies form no cycle; and it is the fallback plan, or each unit quotes the question or the session. *)
Theorem validated_plan_is_well_formed `{Platform} raw question session max_units p :
  validate_ask_plan raw question session max_units = Ok p →
  (1 ≤ length (units p) ≤ unit_limit max_units)%nat
  ∧ (∀ u t, u ∈ units p → expected_type (qu_intent u) = Some t → qu_memory_type u = Some t)
  ∧ (∀ u d, u ∈ units p → d ∈ qu_depends_on u → d ≠ qu_id u ∧ d ∈ map qu_id (units p))
  ∧ NoDup (map identity_of (units p))
  ∧ (¬ ∃ n, tc (depends (units p)) n n)
  ∧ (safe_fallback_plan question = Ok p
     ∨ ∀ u, u ∈ units p → has_supported_span u question (session_texts session) = true).
Proof.
  intros E. pose proof (validate_well_formed _ _ _ _ _ E) as [H1 H2 H3 H4 H5]. split_and!; [lia|lia|done|done|done| |].
  - intros [n Hn]. apply has_cycle_false in H5 as (l & Hl & Hin).
    apply (ordered_acyclic _ l n Hl); [|exact Hn]. apply Hin. inversion Hn; subst; by eapply edge_source.
  - unfold validate_ask_plan in E. repeat case_match; try done; try by apply checked_plan_spec in E as [_ ?].
    by left.
Qed.

(** C29: Whatever the model answers or fails to answer, planning a question of at most 500 characters ends with a well-formed plan. *)
Theorem planning_always_ends `{Platform} complete_json router question session max_units :
  clean question = "" ∨ between 1 500 (code_points (clean question)) = true →
  ∃ p, plan_ask complete_json router question session max_units = Ok p
    ∧ (well_formed (Z.max 1 (Z.min max_units 6)) p ∨ well_formed 4 p).
Proof.
  intros Hq. assert (is_Ok (plan_ask complete_json router question session max_units)) as Hok.
  { unfold plan_ask. case_match eqn:E; bools; [by rewrite E; vm_compute|].
    destruct Hq as [|Hq]; [done|]. apply plan_attempts_Ok, deterministic_fallback_Ok.
    by split_and!; [apply clean_clean| |]. }
  destruct (plan_ask _ _ _ _ _) as [p|] eqn:E; [|done]. exists p. split; [done|].
  unfold plan_ask in E. case_match; [left; by eapply fallback_well_formed|].
  apply plan_attempts_from in E as [E|[raw E]]; [right; by eapply deterministic_fallback_well_formed|left].
  by eapply validate_well_formed.
Qed.

(** A question of more than 500 characters has no fallback plan: when the model does not answer and the question does not name two of the known domains, planning raises ValidationError. *)
Theorem long_question_has_no_fallback `{Platform} complete_json router question session max_units :
  500 < code_points (clean question) → clean question ≠ "" →
  (∀ n, ∃ e, complete_json n = Raise e) → fallback_multi_goal_units (clean question) = Ok [] →
  plan_ask complete_json router question session max_units = Raise (ValidationError "QueryUnit").
Proof.
  intros Hlong Hne Hjson Hmulti. unfold plan_ask. apply String.eqb_neq in Hne. rewrite Hne. simpl.
  destruct (Hjson 0%nat) as [e0 ->], (Hjson 1%nat) as [e1 ->]. simpl.
  unfold deterministic_fallback_plan. rewrite Hmulti. unfold mbind, result_bind.
  destruct (intent_of_route _) as [[[intent memory_type] time_mode] evidence_mode].
  rewrite long_unit; [done|]. simpl. rewrite clean_clean. unfold between. bools. lia.
Qed.

(** * Concrete runs *)

Definition ask_unit (id intent : string) (memory_type : option string) (depends_on : list string) : query_unit :=
  QueryUnit id "project status" ["project"] intent memory_type None (Some id) "all" "aggregate" false depends_on 1.
Definition two_steps : ask_plan :=
  AskPlan "q" [] [ask_unit "u1" "task_state" None []; ask_unit "u2" "semantic_current" None ["u1"; "u9"]] "direct".
Definition validated : result ask_plan :=
  @validate_ask_plan test_platform (Planned two_steps) "how is the project" [] 4.
Definition plan_of (r : result ask_plan) : ask_plan := match r with Ok p => p | Raise _ => AskPlan "" [] [] "" end.

Lemma validated_plan_is_well_formed_witness :
  length (units (plan_of validated)) = 2%nat ∧ ¬ ∃ n, tc (depends (units (plan_of validated))) n n.
Proof.
  split; [vm_compute; reflexivity|].
  apply (@validated_plan_is_well_formed test_platform (Planned two_steps) "how is the project" [] 4
    (plan_of validated)). vm_compute. reflexivity.
Defined.

Definition no_reply (n : nat) : result raw_plan := Raise (TimeoutError "").
Definition search_route (question : string) : route := Route "semantic_search" "".
Lemma planning_always_ends_witness :
  ∃ p, @plan_ask test_platform no_reply search_route "how is  the project" [] 4 = Ok p
    ∧ (@well_formed test_platform (Z.max 1 (Z.min 4 6)) p ∨ @well_formed test_platform 4 p).
Proof.
  apply (@planning_always_ends test_platform no_reply search_route "how is  the project" [] 4).
  right. vm_compute. reflexivity.
Defined.

Fixpoint many (n : nat) : string := match n with O => "" | S n => "x" +:+ many n end.
Lemma long_question_has_no_fallback_witness :
  @plan_ask test_platform no_reply search_route (many 501) [] 4 = Raise (ValidationError "QueryUnit").
Proof.
  apply (@long_question_has_no_fallback test_platform no_reply search_route (many 501) [] 4).
  - apply Z.ltb_lt. vm_compute. reflexivity.
  - vm_compute. discriminate.
  - intros n. exists (TimeoutError ""). reflexivity.
  - vm_compute. reflexivity.
Defined.
