(* ===== verification/AskEvidence.v ===== *)
(** The evidence of a unit ([agent/ask_executor.py]): what is made of the records that the
    domain tools retrieve, its resolution, and the expansion of its source notes. *)

From stdpp Require Import base list strings.
From Stdlib Require Import ZArith Lia.
From S2P Require Import Prelude Consistency TextChunks MemoryText AskPlan.

Open Scope string_scope.
Open Scope Z_scope.

(** A record of a domain tool; a value that is missing or empty is the empty text.
    [rc_sources] are the notes of the sources, [rc_topic] and [rc_facet] are the canonical topic and
    the semantic facet of the scope, and [rc_observed_at] the time of the observation or of the source. *)
Record record := Retrieved {
  rc_id : string;
  rc_memory_id : string;
  rc_note_id : string;
  rc_version_id : string;
  rc_source_kind : string;
  rc_memory_type : string;
  rc_content : string;
  rc_text : string;
  rc_summary : string;
  rc_title : string;
  rc_sources : list string;
  rc_task_status : string;
  rc_observed_at : string;
  rc_topic : string;
  rc_subject : string;
  rc_predicate : string;
  rc_memory_key : string;
  rc_object_value : string;
  rc_facet : string;
  rc_memory_key_version : string;
  rc_match_kind : string;
}.

(** [EvidenceItem], the fields that the workflow reads after the retrieval *)
Record evidence_item := EvidenceItem {
  evidence_id : string;
  source_kind : string;
  memory_type : option string;
  content : string;
  full_text : option string;
  memory_id : option string;
  version_id : option string;
  note_id : option string;
  source_note_ids : list string;
  observed_at : option string;
  task_status : option string;
  retrieval_channels : list string;
  evidence_role : string;
}.
#[export] Instance evidence_item_eta : Eta evidence_item := λ r,
  EvidenceItem (evidence_id r) (source_kind r) (memory_type r) (content r) (full_text r) (memory_id r)
    (version_id r) (note_id r) (source_note_ids r) (observed_at r) (task_status r) (retrieval_channels r)
    (evidence_role r).

(** [UnitResolution] *)
Record unit_resolution := UnitResolution {
  status : string;
  value : option string;
  reason_code : string;
  selected_evidence_ids : list string;
  conflicting_evidence_ids : list string;
}.

(** [UnitEvidenceBundle]; the facts are left out. *)
Record bundle := Bundle {
  bundle_unit_id : string;
  evidence : list evidence_item;
  resolution : unit_resolution;
}.
#[export] Instance bundle_eta : Eta bundle := λ r,
  Bundle (bundle_unit_id r) (evidence r) (resolution r).

#[export] Instance evidence_item_eq_dec : EqDecision evidence_item.
Proof. solve_decision. Defined.
#[export] Instance unit_resolution_eq_dec : EqDecision unit_resolution.
Proof. solve_decision. Defined.
#[export] Instance bundle_eq_dec : EqDecision bundle.
Proof. solve_decision. Defined.

(** [value or None] *)
Definition non_empty (s : string) : option string := if String.eqb s "" then None else Some s.
(** [s[:n]], by characters *)
Definition prefix_chars (n : nat) (s : string) : string := join (take n (chars s)).

(** [_source_ids] *)
Definition source_ids (item : record) : list string :=
  from_keys (List.filter (λ n, negb (String.eqb n "")) (rc_sources item)).

(** [str(value or None) or None]: the text of a missing value is not empty. *)
Definition py_text (s : string) : string := str_or s "None".

(** [_as_evidence]; the constraints of the model hold for what is stored. *)
Definition as_evidence (item : record) (tool role : string) : evidence_item :=
  let item_id := str_or (rc_id item) (str_or (rc_memory_id item) (rc_note_id item)) in
  let is_note := String.eqb (rc_source_kind item) "note" || negb (String.eqb (rc_note_id item) "")
    || (String.eqb (rc_memory_type item) ""
        && negb (String.eqb (str_or (rc_text item) (str_or (rc_summary item) (rc_title item))) "")) in
  let is_version := String.eqb (rc_source_kind item) "memory_version" || negb (String.eqb (rc_version_id item) "") in
  EvidenceItem (str_or item_id ("tool:" +:+ tool))
    (if is_note then "note" else if is_version then "memory_version" else "memory")
    (non_empty (rc_memory_type item))
    (prefix_chars 2400 (str_or (rc_content item) (str_or (rc_text item) (str_or (rc_summary item) (rc_title item)))))
    None
    (if is_note then None
     else if is_version then Some (py_text (rc_memory_id item))
     else non_empty (str_or (rc_memory_id item) item_id))
    (if is_version then Some (str_or (rc_version_id item) item_id) else None)
    (if is_note then Some item_id else None)
    (take 12 (source_ids item)) (non_empty (rc_observed_at item)) (non_empty (rc_task_status item)) [tool] role.

Definition unresolved (unit_id status reason : string) : bundle :=
  Bundle unit_id [] (UnitResolution status None reason [] []).

(** Python's [not text] for an optional text. *)
Definition truthy (x : option string) : bool := match x with Some s => negb (String.eqb s "") | None => false end.
Definition is_text (x : option string) (s : string) : bool := bool_decide (x = Some s).

(** * The resolution *)

(** What the retrieval of memories contributes: the order that the profile projection gives
    the records of a semantic unit, with the memories it is uncertain of, and the selection of the
    notes that answer a question. *)
Class Retrieval := {
  semantic_projection_order : query_unit → list record → list record * list string;
  select_answer_evidence : string → list record → Z → list record;
  ASK_EVIDENCE_PER_UNIT : Z;
}.

Section resolution.
Context `{Platform, TextTables, Retrieval}.

(** [_semantic_record_identity] *)
Definition semantic_record_identity (item : record) : string :=
  let topic := normalize_content (rc_topic item) in
  if negb (String.eqb topic "") then "topic:" +:+ topic
  else
    let subject := normalize_content (rc_subject item) in
    let predicate := normalize_content (rc_predicate item) in
    if negb (String.eqb predicate "") then "slot:" +:+ subject +:+ ":" +:+ predicate
    else "key:" +:+ str_or (rc_memory_key item) (rc_id item).

Definition is_historical (u : query_unit) : bool :=
  String.eqb (qu_evidence_mode u) "timeline"
  || py_in (qu_intent u) ["semantic_history"; "episodic_history"; "memory_history"].

(** The loop over the records, with the identities seen so far. *)
Fixpoint evidence_of (u : query_unit) (tool : string) (uncertain seen : list string) (items : list record) :
    list evidence_item :=
  match items with
  | [] => []
  | item :: rest =>
      let role := if is_historical u || String.eqb (rc_source_kind item) "memory_version" then "historical"
                  else "current_candidate" in
      let identity := semantic_record_identity item in
      let semantic := String.eqb (qu_intent u) "semantic_current" in
      let role := if semantic && py_in identity seen then "historical" else role in
      let seen := if semantic then identity :: seen else seen in
      let role := if py_in (str_or (rc_id item) (rc_memory_id item)) uncertain then "conflicting" else role in
      as_evidence item tool role :: evidence_of u tool uncertain seen rest
  end.

Definition has_role (r : string) (i : evidence_item) : bool := String.eqb (evidence_role i) r.

Definition evidence_limit (u : query_unit) : Z :=
  if py_in (qu_intent u) ["task_inventory"; "memory_history"] then 8 else Z.max 1 ASK_EVIDENCE_PER_UNIT.

(** [_resolve] *)
Definition resolve (u : query_unit) (tool : string) (records : list record) : bundle :=
  let '(records, uncertain) := if py_in (qu_intent u) ["semantic_current"; "semantic_history"]
                               then semantic_projection_order u records else (records, []) in
  if bool_decide (length records = 0%nat) then unresolved (qu_id u) "not_found" "no_direct_evidence"
  else
    let limit := evidence_limit u in
    let records := if String.eqb tool "search_notes" then select_answer_evidence (qu_question u) records limit
                   else records in
    let items := evidence_of u tool uncertain [] (take (Z.to_nat limit) records) in
    let conflicting := map evidence_id (List.filter (has_role "conflicting") items) in
    let conflict := negb (bool_decide (conflicting = [])) && negb (existsb (has_role "current_candidate") items) in
    let items := if String.eqb (qu_intent u) "note_lookup"
                 then map (λ i, i <| evidence_role := "raw_note" |>) items else items in
    Bundle (qu_id u) items
      (UnitResolution (if conflict then "conflict" else "resolved") (option_map content (head items))
         (if conflict then "projection_uncertain" else "direct_domain_evidence")
         (map evidence_id (List.filter (λ i, negb (has_role "conflicting" i)) items)) conflicting).

(** [_partial_bundle] *)
Definition partial_bundle (u : query_unit) (records : list record) (tool reason : string) : bundle :=
  let role := if String.eqb (qu_intent u) "task_state" && String.eqb tool "search_episodes" then "historical"
              else "raw_note" in
  let items := map (λ item, as_evidence item tool role) (take 3 records) in
  Bundle (qu_id u) items
    (UnitResolution "partial" (option_map content (head items)) reason (map evidence_id items) []).
End resolution.

(** * The source notes *)

(** What [get_note_for_evidence] returns, unless it is an error. *)
Record note := Note {
  n_id : string;
  n_title : string;
  n_summary : string;
  n_text : string;
  n_ts : string;
}.

Section hydration.
Context (get_note_for_evidence : string → option note) (ASK_MAX_HYDRATE_IDS : Z).

Definition max_ids : Z := Z.max 1 ASK_MAX_HYDRATE_IDS.
Definition full (ids : list string) : bool := max_ids <=? length_of ids.
Definition add_id (n : string) (ids : list string) : list string := if py_in n ids then ids else (ids ++ [n])%list.

(** [for note_id in item.source_note_ids] *)
Fixpoint scan_sources (sources ids : list string) : list string :=
  match sources with
  | [] => ids
  | n :: rest => let ids := add_id n ids in if full ids then ids else scan_sources rest ids
  end.

(** The note that an item is, when it is one and is not found yet. *)
Definition add_note (i : evidence_item) (ids : list string) : option (list string) :=
  match note_id i with
  | Some n => if String.eqb (source_kind i) "note" && negb (String.eqb n "") && negb (py_in n ids)
              then Some (ids ++ [n])%list else None
  | None => None
  end.
(** [for item in bundle.evidence] *)
Fixpoint scan_items (items : list evidence_item) (ids : list string) : list string :=
  match items with
  | [] => ids
  | i :: rest =>
      match add_note i ids with
      | Some ids => if full ids then ids else scan_items rest (scan_sources (source_note_ids i) ids)
      | None => scan_items rest (scan_sources (source_note_ids i) ids)
      end
  end.

Definition need_sources (p : ask_plan) : list string :=
  map qu_id (List.filter qu_need_source_evidence (units p)).

Definition hydrate_ids (p : ask_plan) (bs : list bundle) : list string :=
  fold_left (λ ids b, scan_items (evidence b) ids)
    (List.filter (λ b, py_in (bundle_unit_id b) (need_sources p)) bs) [].

Definition expand_channel : string := "expand_memory_evidence".
Definition cites (n : string) (i : evidence_item) : bool :=
  is_text (note_id i) n || String.eqb (evidence_id i) n || py_in n (source_note_ids i).
Definition fill_text (n : note) (i : evidence_item) : evidence_item :=
  i <| full_text := Some (str_or (n_text n) (str_or (n_summary n) (n_title n))) |>
    <| observed_at := if truthy (observed_at i) then observed_at i else non_empty (n_ts n) |>
    <| retrieval_channels := if py_in expand_channel (retrieval_channels i) then retrieval_channels i
                             else (retrieval_channels i ++ [expand_channel])%list |>.
Definition note_evidence (id : string) (n : note) : evidence_item :=
  let id := str_or (n_id n) id in
  EvidenceItem id "note" None (prefix_chars 2400 (str_or (n_summary n) (n_title n)))
    (Some (str_or (n_text n) (str_or (n_summary n) (n_title n)))) None None (Some id) [] (non_empty (n_ts n)) None
    [expand_channel] "raw_note".

Definition expand_bundle (p : ask_plan) (id : string) (n : note) (b : bundle) : bundle :=
  if negb (py_in (bundle_unit_id b) (need_sources p)) || negb (existsb (cites id) (evidence b)) then b
  else
    let items := map (λ i, if cites id i then fill_text n i else i) (evidence b) in
    b <| evidence := if existsb (λ i, is_text (note_id i) id) items then items
                     else (items ++ [note_evidence id n])%list |>.

(** [hydrate_selected_evidence]: the previews that it returns, and the bundles. *)
Definition preview (id : string) (n : note) : note :=
  Note (str_or (n_id n) id) (n_title n) (n_summary n) (prefix_chars 1200 (n_text n)) (n_ts n).
Definition hydrate_note (p : ask_plan) (s : list note * list bundle) (id : string) : list note * list bundle :=
  match get_note_for_evidence id with
  | None => s
  | Some n => ((s.1 ++ [preview id n])%list, map (expand_bundle p id n) s.2)
  end.
Definition hydrate_selected_evidence (p : ask_plan) (bs : list bundle) : list note * list bundle :=
  fold_left (hydrate_note p) (hydrate_ids p bs) ([], bs).
End hydration.

(** * What a resolution promises *)

Section resolution_facts.
Context `{Platform, TextTables, Retrieval}.

Lemma evidence_of_length u tool uncertain items : ∀ seen,
  length (evidence_of u tool uncertain seen items) = length items.
Proof. induction items as [|item items IH]; intros seen; [done|]. cbn [evidence_of]. simpl. by rewrite IH. Qed.

(** The records whose evidence is a candidate for the current state. *)
Definition current_records (u : query_unit) (tool : string) (uncertain seen : list string) (items : list record) :
    list record :=
  map fst (List.filter (λ p, has_role "current_candidate" p.2) (zip items (evidence_of u tool uncertain seen items))).

Lemma current_records_distinct u tool uncertain items : qu_intent u = "semantic_current" → ∀ seen,
  NoDup (map semantic_record_identity (current_records u tool uncertain seen items))
  ∧ ∀ r, r ∈ current_records u tool uncertain seen items → semantic_record_identity r ∉ seen.
Proof.
  intros Hu. induction items as [|item items IH]; intros seen.
  { split; [constructor|]. intros r Hr. by apply not_elem_of_nil in Hr. }
  unfold current_records. cbn [evidence_of zip zip_with]. rewrite Hu. cbn [String.eqb Ascii.eqb Bool.eqb andb].
  destruct (IH (semantic_record_identity item :: seen)) as [Hnd Hs]. unfold current_records in Hnd, Hs.
  cbn [List.filter snd has_role as_evidence evidence_role].
  assert (∀ r, r ∈ map fst (List.filter (λ p, has_role "current_candidate" p.2)
      (zip items (evidence_of u tool uncertain (semantic_record_identity item :: seen) items))) →
    semantic_record_identity r ∉ seen) as Hs'.
  { intros r Hr Hin. apply (Hs r Hr). by right. }
  destruct (py_in _ uncertain); [by split|].
  destruct (py_in (semantic_record_identity item) seen) eqn:Es; [by split|]. apply py_in_false in Es.
  destruct (is_historical u || _); [by split|]. simpl. split.
  - apply NoDup_cons. split; [|done]. intros (r & Er & Hr)%elem_of_map. apply (Hs r Hr). rewrite Er. by left.
  - intros r [->|Hr]%elem_of_cons; [done|auto].
Qed.

Definition cited (b : bundle) (id : string) : Prop := ∃ i, i ∈ evidence b ∧ evidence_id i = id.

Lemma cited_filter (p : evidence_item → bool) items id :
  id ∈ map evidence_id (List.filter p items) → ∃ i, i ∈ items ∧ evidence_id i = id ∧ p i = true.
Proof. intros (i & <- & [Hi Hp]%list_elem_of_In%filter_In)%elem_of_map. exists i. by rewrite list_elem_of_In. Qed.

Lemma not_conflicting items i : i ∈ items → evidence_role i ≠ "conflicting" →
  evidence_id i ∈ map evidence_id (List.filter (λ i, negb (has_role "conflicting" i)) items).
Proof.
  intros Hi Hr. apply elem_of_map_in, list_elem_of_In, filter_In. rewrite <- list_elem_of_In.
  split; [done|]. unfold has_role. by bools.
Qed.

(** A resolution is grounded in the evidence of its bundle: the bundle has at most as many items as the unit may have, the selected and the conflicting ids are ids of its items, each item that is not in conflict is selected, the value is the content of the first item, and, for a unit that is not a lookup of notes, a conflict is reported exactly when some memory is uncertain and no item is a candidate for the current state. *)
Theorem resolution_is_grounded u tool records :
  let b := resolve u tool records in
  bundle_unit_id b = qu_id u
  ∧ (length (evidence b) ≤ Z.to_nat (evidence_limit u))%nat
  ∧ (∀ id, id ∈ selected_evidence_ids (resolution b) ∨ id ∈ conflicting_evidence_ids (resolution b) → cited b id)
  ∧ (∀ i, i ∈ evidence b → evidence_role i ≠ "conflicting" → evidence_id i ∈ selected_evidence_ids (resolution b))
  ∧ value (resolution b) = option_map content (head (evidence b))
  ∧ (qu_intent u = "note_lookup"
     ∨ (status (resolution b) = "conflict" ↔ conflicting_evidence_ids (resolution b) ≠ []
          ∧ ∀ i, i ∈ evidence b → evidence_role i ≠ "current_candidate")).
Proof.
  simpl. unfold resolve. case_match. case_bool_decide.
  { simpl. split_and!; try done; [lia| | |].
    - intros id [Hid|Hid]; by apply not_elem_of_nil in Hid.
    - intros i Hi. by apply not_elem_of_nil in Hi.
    - right. split; [done|]. by intros [? _]. }
  set (records' := if String.eqb tool "search_notes" then _ else _).
  set (items := evidence_of u tool _ [] _).
  assert (length items ≤ Z.to_nat (evidence_limit u))%nat as Hlen.
  { unfold items. rewrite evidence_of_length, length_take. lia. }
  clearbody items. clear records'.
  set (conflict := negb (bool_decide _) && _). simpl.
  assert (∀ id, id ∈ map evidence_id (List.filter (has_role "conflicting") items) →
    cited (Bundle (qu_id u) items (UnitResolution "" None "" [] [])) id) as Hc.
  { intros id (i & Hi & <- & _)%cited_filter. by exists i. }
  assert (conflict = true ↔ map evidence_id (List.filter (has_role "conflicting") items) ≠ []
    ∧ ∀ i, i ∈ items → evidence_role i ≠ "current_candidate") as Hconflict.
  { unfold conflict. rewrite andb_true_iff, negb_true_iff, bool_decide_eq_false, negb_true_iff.
    apply and_iff_compat_l. rewrite <- not_true_iff_false, existsb_exists. unfold has_role. split.
    - intros Hn i Hi E. apply Hn. exists i. rewrite <- list_elem_of_In. bools. done.
    - intros Hn (i & Hi%list_elem_of_In & E). bools. by eapply Hn. }
  assert ((if conflict then "conflict" else "resolved") = "conflict" ↔ conflict = true) as Hstatus by by destruct conflict.
  destruct (String.eqb (qu_intent u) "note_lookup") eqn:En; bools.
  - split_and!; [done|by rewrite length_map| |..|by left]; [| |done].
    2: { intros i Hi Hr. by apply not_conflicting. }
    intros id [Hid|Hid]; [|by apply Hc in Hid as (i & Hi & <-); exists (i <| evidence_role := "raw_note" |>); split; [apply elem_of_map_in|]].
    apply cited_filter in Hid as (i & Hi & <- & _). by exists i.
  - split_and!; [done|done| | |done|right; by rewrite Hstatus].
    + intros id [Hid|Hid]; [|by apply Hc]. by apply cited_filter in Hid as (i & Hi & <- & _); exists i.
    + intros i Hi Hr. by apply not_conflicting.
Qed.
End resolution_facts.

(** * What the expansion of the source notes promises *)

Section hydration_facts.
Context (get_note_for_evidence : string → option note) (ASK_MAX_HYDRATE_IDS : Z).
#[local] Abbreviation full := (full ASK_MAX_HYDRATE_IDS).
#[local] Abbreviation max_ids := (max_ids ASK_MAX_HYDRATE_IDS).
#[local] Abbreviation hydrate_ids := (hydrate_ids ASK_MAX_HYDRATE_IDS).

(** The source notes of an item, and the notes it is. *)
Definition source_note (i : evidence_item) (n : string) : Prop :=
  n ∈ source_note_ids i ∨ note_id i = Some n.

(** What the scan of [items] makes of the ids found so far: they are source notes of the items,
    and each item adds at most one when there are enough already. *)
Definition scanned (from : string → Prop) (count : Z) (ids ids' : list string) : Prop :=
  (∀ n, n ∈ ids' → n ∈ ids ∨ from n)
  ∧ (NoDup ids → NoDup ids')
  ∧ length_of ids' ≤ Z.max (length_of ids + count) (max_ids - 1 + count).

Lemma scanned_refl from ids : scanned from 0 ids ids.
Proof. split_and!; [by left|done|lia]. Qed.
Lemma scanned_trans from c1 c2 ids1 ids2 ids3 : 0 ≤ c1 → 0 ≤ c2 →
  scanned from c1 ids1 ids2 → scanned from c2 ids2 ids3 → scanned from (c1 + c2) ids1 ids3.
Proof.
  intros ?? (H1 & H2 & H3) (H4 & H5 & H6). split_and!; [|auto|lia].
  intros n [Hn|]%H4; [|by right]. by apply H1.
Qed.
Lemma scanned_weaken (from from' : string → Prop) c c' ids ids' : (∀ n, from n → from' n) → c ≤ c' →
  scanned from c ids ids' → scanned from' c' ids ids'.
Proof.
  intros Hf Hc (H1 & H2 & H3). split_and!; [|done|lia]. intros n [Hn|Hn]%H1; [by left|right; auto].
Qed.

Lemma scanned_snoc n ids : n ∉ ids → scanned (λ m, m = n) 1 ids (ids ++ [n])%list.
Proof.
  intros Hn. split_and!.
  - intros m [?|Hm%list_elem_of_singleton]%elem_of_app; [by left|by right].
  - intros Hids. apply NoDup_app. split_and!; [done|by intros m Hm ->%list_elem_of_singleton|apply NoDup_singleton].
  - unfold length_of. rewrite length_app. simpl. lia.
Qed.
Lemma scanned_add n ids : scanned (λ m, m = n) 1 ids (add_id n ids).
Proof.
  unfold add_id. destruct (py_in n ids) eqn:E; bools; [|by apply scanned_snoc].
  eapply scanned_weaken; [| |apply (scanned_refl (λ m, m = n))]; [done|lia].
Qed.

(** Sources are added only until there are enough; when there are, at most one more is. *)
Lemma scan_sources_scanned sources : ∀ ids,
  scanned (λ n, n ∈ sources) 1 ids (scan_sources ASK_MAX_HYDRATE_IDS sources ids).
Proof.
  induction sources as [|n sources IH]; intros ids; simpl.
  { eapply scanned_weaken; [| |apply (scanned_refl (λ n, n ∈ []))]; [done|lia]. }
  pose proof (scanned_add n ids) as (H1 & H2 & H3).
  assert (∀ m, m ∈ add_id n ids → m ∈ ids ∨ m ∈ n :: sources) as Hin.
  { intros m [Hm| ->]%H1; [by left|right; by left]. }
  destruct (full (add_id n ids)) eqn:E; [by split_and!|].
  destruct (IH (add_id n ids)) as (H4 & H5 & H6). split_and!; [|auto|].
  - intros m [Hm|Hm]%H4; [by apply Hin|right; by right].
  - unfold AskEvidence.full in E. bools. lia.
Qed.

Lemma add_note_scanned i ids ids' : add_note i ids = Some ids' → scanned (source_note i) 1 ids ids'.
Proof.
  unfold add_note. destruct (note_id i) as [n|] eqn:En; [|done]. case_match eqn:E; [|done]. intros [= <-]. bools.
  eapply scanned_weaken; [| |apply scanned_snoc]; [intros m ->; by right|lia|tauto].
Qed.

(** An item, its sources included, adds at most one note to enough of them. *)
Lemma scan_item_scanned i ids :
  (∀ ids', add_note i ids = Some ids' → full ids' = true → scanned (source_note i) 1 ids ids')
  ∧ (∀ ids', add_note i ids = Some ids' → full ids' = false →
       scanned (source_note i) 1 ids (scan_sources ASK_MAX_HYDRATE_IDS (source_note_ids i) ids'))
  ∧ scanned (source_note i) 1 ids (scan_sources ASK_MAX_HYDRATE_IDS (source_note_ids i) ids).
Proof.
  split_and!.
  - intros ids' E _. by apply add_note_scanned.
  - intros ids' E Hfull. apply add_note_scanned in E as (H1 & H2 & H3).
    destruct (scan_sources_scanned (source_note_ids i) ids') as (H4 & H5 & H6).
    split_and!; [|auto|unfold AskEvidence.full in Hfull; bools; lia].
    intros n [Hn|Hn]%H4; [by apply H1|right; by left].
  - eapply scanned_weaken; [| |apply scan_sources_scanned]; [intros n Hn; by left|lia].
Qed.

Lemma scan_items_scanned items : ∀ ids,
  scanned (λ n, ∃ i, i ∈ items ∧ source_note i n) (length_of items) ids
    (scan_items ASK_MAX_HYDRATE_IDS items ids).
Proof.
  induction items as [|i items IH]; intros ids; cbn [scan_items]; [apply scanned_refl|].
  replace (length_of (i :: items)) with (1 + length_of items) by (unfold length_of; simpl; lia).
  pose proof (scan_item_scanned i ids) as (Hs1 & Hs2 & Hs3).
  assert (∀ ids', scanned (source_note i) 1 ids ids' →
    scanned (λ n, ∃ j, j ∈ i :: items ∧ source_note j n) (1 + length_of items) ids
      (scan_items ASK_MAX_HYDRATE_IDS items ids')) as Hrest.
  { intros ids' Hi. eapply scanned_trans; [lia|unfold length_of; lia| |].
    - eapply scanned_weaken; [| |exact Hi]; [intros n Hn; exists i; split; [by left|done]|lia].
    - eapply scanned_weaken; [| |apply IH]; [intros n (j & Hj & Hn); exists j; split; [by right|done]|lia]. }
  destruct (add_note i ids) as [ids'|]; [|by apply Hrest].
  destruct (full ids') eqn:Ef; [|apply Hrest; by apply Hs2].
  eapply scanned_weaken; [| |by apply Hs1]; [intros n Hn; exists i; split; [by left|done]|unfold length_of; lia].
Qed.

Definition needed (p : ask_plan) (bs : list bundle) : list bundle :=
  List.filter (λ b, py_in (bundle_unit_id b) (need_sources p)) bs.

Lemma hydrate_ids_scanned p bs :
  scanned (λ n, ∃ b i, b ∈ needed p bs ∧ i ∈ evidence b ∧ source_note i n)
    (length_of (mjoin (map evidence (needed p bs)))) [] (hydrate_ids p bs).
Proof.
  unfold AskEvidence.hydrate_ids. fold (needed p bs). generalize (needed p bs). clear bs. intros bs.
  generalize (@nil string). induction bs as [|b bs IH]; intros ids; [apply scanned_refl|]. cbn [map fold_left].
  replace (length_of (mjoin (evidence b :: map evidence bs)))
    with (length_of (evidence b) + length_of (mjoin (map evidence bs)))
    by (unfold length_of; simpl; rewrite length_app, Nat2Z.inj_add; reflexivity).
  eapply scanned_trans; [unfold length_of; lia..| |].
  - eapply scanned_weaken; [| |apply (scan_items_scanned (evidence b))]; [|lia].
    intros n (i & Hi & Hn). exists b, i. split; [by left|done].
  - eapply scanned_weaken; [| |apply IH]; [|lia].
    intros n (b' & i & Hb & Hi & Hn). exists b', i. split; [by right|done].
Qed.

(** What the expansion leaves alone. *)
Definition core (i : evidence_item) : evidence_item :=
  i <| full_text := None |> <| observed_at := None |> <| retrieval_channels := [] |>.

(** [b'] is [b] with more text for its items and with the [added] notes. *)
Definition expanded (p : ask_plan) (b b' : bundle) (added : list (string * note)) : Prop :=
  bundle_unit_id b' = bundle_unit_id b ∧ resolution b' = resolution b
  ∧ (bundle_unit_id b ∉ need_sources p → b' = b)
  ∧ map core (evidence b') = (map core (evidence b) ++ map (λ a, core (note_evidence a.1 a.2)) added)%list.

Lemma expanded_refl p b : expanded p b b [].
Proof. split_and!; try done. by rewrite app_nil_r. Qed.
Lemma expanded_trans p b b1 b2 l l' : expanded p b b1 l → expanded p b1 b2 l' → expanded p b b2 (l ++ l')%list.
Proof.
  intros (H1 & H2 & H3 & H4) (H5 & H6 & H7 & H8). split_and!; [congruence|congruence| |].
  - intros Hb. rewrite H7, H3; [done|done|]. by rewrite H1.
  - by rewrite H8, H4, map_app, app_assoc.
Qed.

Lemma fill_keeps_core id n items :
  map core (map (λ i, if cites id i then fill_text n i else i) items) = map core items.
Proof. rewrite map_map. apply map_ext. intros i. by destruct (cites id i). Qed.

Lemma expand_bundle_expanded p id n b : ∃ l, expanded p b (expand_bundle p id n b) l ∧ ∀ a, a ∈ l → a = (id, n).
Proof.
  unfold expand_bundle. destruct (py_in _ _) eqn:Ep; simpl; [|exists []; split; [apply expanded_refl|by intros a Ha%elem_of_nil]].
  destruct (existsb _ _); simpl; [|exists []; split; [apply expanded_refl|by intros a Ha%elem_of_nil]].
  bools. case_match.
  - exists []. split; [|by intros a Ha%elem_of_nil]. split_and!; [done|done|done|].
    simpl. by rewrite fill_keeps_core, app_nil_r.
  - exists [(id, n)]. split; [|by intros a ->%list_elem_of_singleton]. split_and!; [done|done|done|].
    simpl. by rewrite map_app, fill_keeps_core.
Qed.

(** The bundles after some notes were fetched. *)
Definition grown (p : ask_plan) (ids : list string) (b b' : bundle) : Prop :=
  ∃ l, expanded p b b' l ∧ ∀ a, a ∈ l → a.1 ∈ ids ∧ get_note_for_evidence a.1 = Some a.2.

Lemma hydrate_note_grown p s id : Forall2 (grown p [id]) s.2 (hydrate_note get_note_for_evidence p s id).2
  ∧ (length (hydrate_note get_note_for_evidence p s id).1 ≤ S (length s.1))%nat.
Proof.
  unfold hydrate_note. destruct (get_note_for_evidence id) as [n|] eqn:En; simpl.
  - rewrite length_app. simpl. split; [|lia]. apply Forall2_fmap_r, Forall_Forall2_diag, Forall_true. intros b.
    destruct (expand_bundle_expanded p id n b) as (l & Hl & Ha). exists l. split; [done|].
    intros a ->%Ha. simpl. split; [by left|done].
  - split; [|lia]. apply Forall_Forall2_diag, Forall_true. intros b. exists [].
    split; [apply expanded_refl|by intros a Ha%elem_of_nil].
Qed.

Lemma hydrate_notes_grown p ids : ∀ s,
  let s' := fold_left (hydrate_note get_note_for_evidence p) ids s in
  Forall2 (grown p ids) s.2 s'.2 ∧ (length s'.1 ≤ length s.1 + length ids)%nat.
Proof.
  induction ids as [|id ids IH]; intros s; simpl.
  { split; [|lia]. apply Forall_Forall2_diag, Forall_true. intros b. exists [].
    split; [apply expanded_refl|by intros a Ha%elem_of_nil]. }
  destruct (hydrate_note_grown p s id) as [Hg Hn].
  destruct (IH (hydrate_note get_note_for_evidence p s id)) as [Hg' Hn']. split; [|lia].
  eapply Forall2_trans; [|exact Hg|exact Hg']. intros b b1 b2 (l & Hl & Ha) (l' & Hl' & Ha').
  exists (l ++ l')%list. split; [by eapply expanded_trans|].
  intros a [[Hin Hget]%Ha|[Hin Hget]%Ha']%elem_of_app; (split; [|done]).
  - apply list_elem_of_singleton in Hin as ->. by left.
  - by right.
Qed.

(** The expansion of the source notes only adds grounded evidence: every bundle keeps its unit, its resolution and its items up to their text, and gains only notes that exist and that an item of a unit which needs its sources cites; bundles of other units are untouched, and the number of notes returned exceeds the limit by at most the number of items scanned, less one. *)
Theorem hydration_is_grounded p bs :
  let '(notes, bs') := hydrate_selected_evidence get_note_for_evidence ASK_MAX_HYDRATE_IDS p bs in
  Forall2 (λ b b', ∃ added, expanded p b b' added
    ∧ ∀ a, a ∈ added → get_note_for_evidence a.1 = Some a.2
        ∧ ∃ c i, c ∈ needed p bs ∧ i ∈ evidence c ∧ source_note i a.1) bs bs'
  ∧ length_of notes ≤ max_ids - 1 + Z.max 1 (length_of (mjoin (map evidence (needed p bs)))).
Proof.
  destruct (hydrate_selected_evidence _ _ _ _) as [notes bs'] eqn:E. unfold hydrate_selected_evidence in E.
  destruct (hydrate_notes_grown p (hydrate_ids p bs) ([], bs)) as [Hg Hn]. rewrite E in Hg, Hn. simpl in Hg, Hn.
  destruct (hydrate_ids_scanned p bs) as (Hin & _ & Hlen). split.
  - eapply Forall2_impl; [exact Hg|]. intros b b' (l & Hl & Ha). exists l. split; [done|].
    intros a [Hid Hget]%Ha. split; [done|]. by apply Hin in Hid as [Hid%elem_of_nil|].
  - unfold length_of in *. simpl in *. unfold AskEvidence.max_ids in *. lia.
Qed.
End hydration_facts.

(** The limit does not end the search: with a limit of one note, each item adds one. *)
Definition fact_from (n : string) : evidence_item :=
  EvidenceItem ("m" +:+ n) "memory" (Some "semantic") "" None (Some ("m" +:+ n)) None None [n] None None [] "supporting".
Example limit_is_exceeded :
  let u := QueryUnit "u1" "q" ["q"] "semantic_current" (Some "semantic") None None "all" "source_quote" true [] 1 in
  hydrate_ids 1 (AskPlan "q" [] [u] "direct")
    [Bundle "u1" [fact_from "n1"; fact_from "n2"; fact_from "n3"] (UnitResolution "resolved" None "" [] [])]
  = ["n1"; "n2"; "n3"].
Proof. vm_compute. reflexivity. Qed.
