(* ===== verification/AskExecution.v ===== *)
(** The execution of a plan ([agent/ask_executor.py]): the rounds of independent units and the
    repair of the units that found nothing.

    What the domain tools retrieve for a unit is a parameter: a round is given as the list of its
    units in the order in which they are consumed, each with its outcome. *)

From stdpp Require Import base list strings sorting relations.
From Stdlib Require Import ZArith Lia.
From S2P Require Import Prelude Consistency TextChunks MemoryText AskPlan AskPlanSpec AskEvidence.

Open Scope string_scope.
Open Scope Z_scope.

Section execution.
Context `{Platform, TextTables, Retrieval}.

(** * Rounds *)

(** What [_execute_domain_tool] returns for a unit, the exception that it raises, or nothing in time. *)
Inductive outcome :=
  | Found (tool : string) (records : list record)
  | ToolError (error : string)
  | TimedOut.

(** [AskExecutionResult], without the timing *)
Record execution := Execution {
  bundles : list bundle;
  records_by_unit : list (string * list record);
  executed_tools : list string;
  unit_errors : list (string * string);
  timed_out_units : list string;
}.
#[export] Instance execution_eta : Eta execution := λ r,
  Execution (bundles r) (records_by_unit r) (executed_tools r) (unit_errors r) (timed_out_units r).

Definition ready_units (p : ask_plan) (completed : list string) : list query_unit :=
  List.filter (λ u, negb (py_in (qu_id u) completed) && forallb (λ d, py_in d completed) (qu_depends_on u)) (units p).

Definition add_bundle (b : bundle) (r : execution) : execution := r <| bundles := (bundles r ++ [b])%list |>.
Definition report (u : query_unit) (tool : string) (records : list record) (r : execution) : execution :=
  r <| executed_tools := (executed_tools r ++ [tool])%list |>
    <| records_by_unit := dict_set (qu_id u) records (records_by_unit r) |>.

(** [consume], and the branch for the units that did not finish in time *)
Definition consume (r : execution) (o : query_unit * outcome) : execution :=
  let u := o.1 in
  match o.2 with
  | Found tool records => add_bundle (resolve u tool records) (report u tool records r)
  | ToolError e =>
      add_bundle (resolve u "domain_error" [])
        (report u "domain_error" [] (r <| unit_errors := dict_set (qu_id u) e (unit_errors r) |>))
  | TimedOut =>
      add_bundle (unresolved (qu_id u) "partial" "executor_timeout")
        (report u "executor_timeout" []
           (r <| unit_errors := dict_set (qu_id u) "executor_timeout" (unit_errors r) |>
              <| timed_out_units := (timed_out_units r ++ [qu_id u])%list |>))
  end.

(** [completed.add(id)] *)
Definition set_add (id : string) (completed : list string) : list string :=
  if py_in id completed then completed else (completed ++ [id])%list.
Definition complete_all (us : list query_unit) (completed : list string) : list string :=
  fold_left (λ c u, set_add (qu_id u) c) us completed.

(** No unit is ready: the units that are left get a bundle without evidence. *)
Definition abandon_rest (p : ask_plan) (completed : list string) (r : execution) : execution :=
  (fold_left (λ s u,
      if py_in (qu_id u) s.2 then s
      else (add_bundle (unresolved (qu_id u) "partial" "unresolved_dependency") s.1, set_add (qu_id u) s.2))
    (units p) (r, completed)).1.

(** The outcomes of the [n]-th round for the units that are ready. *)
Definition rounds : Type := nat → list query_unit → list (query_unit * outcome).

Fixpoint execute_rounds (fuel : nat) (env : rounds) (p : ask_plan) (n : nat) (completed : list string)
    (r : execution) : option execution :=
  match fuel with
  | O => None
  | S fuel =>
      if (length completed <? length (units p))%nat then
        match ready_units p completed with
        | [] => Some (abandon_rest p completed r)
        | ready =>
            execute_rounds fuel env p (S n) (complete_all ready completed)
              (fold_left consume (env n ready) r)
        end
      else Some r
  end.

(** [{unit.id: index ...}] and [order.get(id, 999)] *)
Fixpoint index_of (id : string) (index : Z) (us : list query_unit) (found : Z) : Z :=
  match us with
  | [] => found
  | u :: us => index_of id (index + 1) us (if String.eqb (qu_id u) id then index else found)
  end.
Definition order_of (p : ask_plan) (id : string) : Z := index_of id 0 (units p) 999.

(** [execute_ask_plan]; every round completes a unit, or is the last one. *)
Definition execute_ask_plan (env : rounds) (p : ask_plan) : option execution :=
  r ← execute_rounds (S (length (units p))) env p 0 [] (Execution [] [] [] [] []);
  Some (r <| bundles := sort_by (λ a b, order_of p (bundle_unit_id a) <=? order_of p (bundle_unit_id b)) (bundles r) |>).

(** * The repair *)

Definition _GENERIC_QUERY_NGRAMS : list string :=
  ["告诉"; "诉我"; "记录"; "中的"; "什么"; "么是"; "是什"; "哪里"; "在哪"; "现在"; "当前"; "到底"; "喜欢"; "不喜";
   "喜不"; "最喜"; "我最"; "那个"; "这个"; "怎么"; "么样"; "样了"; "用户"; "本人"; "自己"; "我的"; "说话"; "话者"].

(** [_record_identity_text] *)
Definition record_identity_text (item : record) : string :=
  normalize_content (String.concat " " [rc_content item; rc_subject item; rc_predicate item; rc_object_value item;
    rc_memory_key item; rc_topic item; rc_facet item]).

Fixpoint suffixes {A} (l : list A) : list (list A) :=
  match l with [] => [[]] | _ :: rest => l :: suffixes rest end.
(** [re.search(r"(?:喜欢|不喜欢).{0,2}(?:什么|哪些|哪种)", query)] *)
Definition asks_inventory (query : string) : bool :=
  existsb (λ s, starts_with "喜欢" (join s)
    && existsb (λ k, existsb (λ w, starts_with w (join (drop (2 + k) s))) ["什么"; "哪些"; "哪种"]) [0; 1; 2]%nat)
    (suffixes (chars query)).

Definition any_marker (markers : list string) (text : string) : bool :=
  existsb (λ m, str_contains m text) markers.

(** [_record_relevant_to_unit] *)
Definition record_relevant_to_unit (u : query_unit) (item : record) : bool :=
  if String.eqb (rc_memory_key_version item) "preference-card-v1"
     && py_in (rc_match_kind item) ["exact"; "related"; "candidate"] then true
  else
    let topic := default "" (qu_topic u) in
    let query := normalize_content (String.concat " " (List.filter (λ v, negb (String.eqb v "")) [qu_question u; topic])) in
    let identity := record_identity_text item in
    if String.eqb query "" || String.eqb identity "" then false
    else if str_contains query identity || str_contains identity query then true
    else if String.eqb (qu_intent u) "preference_current"
            && py_in (normalize_content topic) [""; "偏好"; "喜好"; "喜欢"; "不喜欢"; "个人偏好"; "爱好"]
            && asks_inventory query then true
    else if existsb (λ t, str_contains t identity)
              (List.filter (λ t, negb (py_in t _GENERIC_QUERY_NGRAMS)) (pairs (chars query))) then true
    else if any_marker ["住"; "居住"; "住址"; "地址"; "所在地"] query
            && any_marker ["住"; "居住"; "住址"; "地址"; "所在地"; "搬到"; "迁居"] identity then true
    else if any_marker ["忙"; "重点"; "focus"; "主要工作"] query
            && any_marker ["忙"; "重点"; "focus"; "主要工作"] identity then true
    else if is_text (qu_facet u) "device" then any_marker ["设备"; "电脑"; "手机"; "键盘"; "显示器"; "耳机"] identity
    else if is_text (qu_facet u) "capability" then any_marker ["语言"; "技术栈"; "编程"; "擅长"; "能力"] identity
    else false.

Definition last_bundle (id : string) (bs : list bundle) : option bundle :=
  last (List.filter (λ b, String.eqb (bundle_unit_id b) id) bs).

(** [bundles[bundles.index(b)] = replacement] *)
Fixpoint replace_first (b replacement : bundle) (bs : list bundle) : list bundle :=
  match bs with
  | [] => []
  | c :: rest => if bool_decide (c = b) then replacement :: rest else c :: replace_first b replacement rest
  end.

Section repair.
(** The searches, which may raise, and the settings. *)
Context (search_episodes note_fallback : string → result (list record))
        (ASK_MAX_RETRIEVAL_ROUNDS ASK_MAX_FALLBACK_UNITS : Z).

(** The records, with the tool and the reason of the search that found them. *)
Definition fallback_records (u : query_unit) : list record * string * string :=
  let found r := match r with Ok records => records | Raise _ => [] end in
  if String.eqb (qu_intent u) "task_state" then
    match search_episodes (qu_question u) with
    | Ok [] => (found (note_fallback (qu_question u)), "search_notes", "task_note_fallback")
    | Ok records => (records, "search_episodes", "task_episode_fallback")
    | Raise _ => ([], "search_notes", "note_fallback")
    end
  else (found (note_fallback (qu_question u)), "search_notes", "note_fallback").

(** The body of the loop, with [by_id] as it was before; the ids of the repaired units. *)
Definition repair_unit (by_id : list bundle) (s : execution * list string) (u : query_unit) : execution * list string :=
  if Z.max 0 ASK_MAX_FALLBACK_UNITS <=? length_of s.2 then s
  else
    match last_bundle (qu_id u) by_id with
    | None => s
    | Some b =>
        if negb (String.eqb (status (resolution b)) "not_found") then s
        else
          let '(records, tool, reason) := fallback_records u in
          let records := List.filter (record_relevant_to_unit u) records in
          if bool_decide (length records = 0%nat) then s
          else
            (report u tool records
               (s.1 <| bundles := replace_first b (partial_bundle u records tool reason) (bundles s.1) |>),
             (s.2 ++ [qu_id u])%list)
    end.

(** [repair_missing_evidence] *)
Definition repair_missing_evidence (p : ask_plan) (r : execution) : execution * list string :=
  if ASK_MAX_RETRIEVAL_ROUNDS <? 2 then (r, [])
  else fold_left (repair_unit (bundles r)) (units p) (r, []).
End repair.

(** * The rounds end *)

Lemma set_add_length id c : (length c ≤ length (set_add id c))%nat.
Proof. unfold set_add. case_match; [done|]. rewrite length_app. lia. Qed.
Lemma complete_all_length us : ∀ c, (length c ≤ length (complete_all us c))%nat.
Proof.
  induction us as [|u us IH]; intros c; [done|]. etrans; [apply (set_add_length (qu_id u))|apply IH].
Qed.

Lemma ready_unit p c u : u ∈ ready_units p c ↔
  u ∈ units p ∧ (qu_id u ∉ c) ∧ ∀ d, d ∈ qu_depends_on u → d ∈ c.
Proof.
  unfold ready_units. rewrite list_elem_of_In, filter_In, <- list_elem_of_In. bools. rewrite forallb_forall.
  setoid_rewrite <- list_elem_of_In. setoid_rewrite py_in_true. done.
Qed.

Lemma ready_progress p c u ready : ready_units p c = u :: ready →
  (length c < length (complete_all (u :: ready) c))%nat.
Proof.
  intros E. assert (u ∈ ready_units p c) as (_ & Hu & _)%ready_unit by (rewrite E; by left).
  apply (Nat.lt_le_trans _ (length (set_add (qu_id u) c))); [|apply (complete_all_length ready)].
  unfold set_add. apply py_in_false in Hu. rewrite Hu, length_app. simpl. lia.
Qed.

(** Two units of fuel are left over: one for the last test, one when nothing is to do. *)
Lemma execute_rounds_end env p fuel : ∀ n c r,
  (length (units p) < fuel + length c)%nat → (0 < fuel)%nat → is_Some (execute_rounds fuel env p n c r).
Proof.
  induction fuel as [|fuel IH]; intros n c r Hfuel Hpos; [lia|]. cbn [execute_rounds].
  destruct (Nat.ltb_spec (length c) (length (units p))); [|by eexists].
  destruct (ready_units p c) as [|u ready] eqn:E; [by eexists|].
  apply ready_progress in E. apply IH; lia.
Qed.

(** * Every unit is answered *)

(** The outcomes of a round are those of the units that were ready. *)
Definition complete_rounds (env : rounds) : Prop := ∀ n ready, map fst (env n ready) ≡ₚ ready.

Definition answered (r : execution) : Prop :=
  ∀ b, b ∈ bundles r → reason_code (resolution b) ≠ "unresolved_dependency".

Lemma resolve_reason u tool records : reason_code (resolution (resolve u tool records)) ≠ "unresolved_dependency".
Proof. unfold resolve. case_match. case_bool_decide; [done|]. simpl. by destruct (_ && _). Qed.

Lemma resolve_unit u tool records : bundle_unit_id (resolve u tool records) = qu_id u.
Proof. unfold resolve. case_match. by case_bool_decide. Qed.

Lemma consume_bundles o r : ∃ b, bundles (consume r o) = (bundles r ++ [b])%list ∧ bundle_unit_id b = qu_id o.1
  ∧ reason_code (resolution b) ≠ "unresolved_dependency".
Proof.
  destruct o as [u [tool records|e|]]; simpl; eexists; split_and!; try done.
  - apply resolve_unit.
  - apply resolve_reason.
  - apply resolve_unit.
  - apply resolve_reason.
Qed.

Lemma consume_all os : ∀ r, answered r →
  let r' := fold_left consume os r in
  answered r' ∧ map bundle_unit_id (bundles r') = (map bundle_unit_id (bundles r) ++ map qu_id (map fst os))%list.
Proof.
  induction os as [|o os IH]; intros r Hr; simpl; [by rewrite app_nil_r|].
  destruct (consume_bundles o r) as (b & E & Hb & Hreason). destruct (IH (consume r o)) as [Ha ->].
  - intros b'. rewrite E, elem_of_app, list_elem_of_singleton. intros [?| ->]; [auto|done].
  - split; [done|]. by rewrite E, map_app, <- app_assoc, <- Hb.
Qed.

Lemma complete_all_new us : ∀ c, NoDup (map qu_id us) → (∀ u, u ∈ us → qu_id u ∉ c) →
  complete_all us c = (c ++ map qu_id us)%list.
Proof.
  unfold complete_all. induction us as [|u us IH]; intros c Hnd Hc; simpl; [by rewrite app_nil_r|].
  simpl in Hnd. apply NoDup_cons in Hnd as [Hu Hnd].
  assert (set_add (qu_id u) c = (c ++ [qu_id u])%list) as ->.
  { unfold set_add. assert (qu_id u ∉ c) as Hn by (apply Hc; by left). apply py_in_false in Hn. by rewrite Hn. }
  rewrite IH, <- app_assoc; [done|done|]. intros v Hv.
  rewrite elem_of_app, list_elem_of_singleton. intros [Hin|E]; [by apply (Hc v); [by right|]|].
  apply Hu. rewrite <- E. by apply elem_of_map_in.
Qed.

(** In an order of the units, the last one that is not completed is ready. *)
Lemma ordered_ready g l (P : string → Prop) `{!∀ x, Decision (P x)} :
  ordered g l → (∃ x, x ∈ l ∧ ¬ P x) → ∃ x, x ∈ l ∧ ¬ P x ∧ ∀ d, edge g x d → P d.
Proof.
  induction l as [|n l IH]; intros Hl (x & Hx & Hn); [by apply not_elem_of_nil in Hx|].
  destruct Hl as (_ & Hp & Hl).
  destruct (decide (Exists (λ y, ¬ P y) l)) as [(y & Hy & Hny)%Exists_exists|Hall].
  - destruct (IH Hl) as (z & Hz & Hnz & Hd); [by exists y|]. exists z. split; [by right|done].
  - assert (∀ y, y ∈ l → P y) as Hdone.
    { intros y Hy. destruct (decide (P y)); [done|]. exfalso. apply Hall, Exists_exists. by exists y. }
    apply elem_of_cons in Hx as [->|Hx]; [|by destruct Hn; auto].
    exists n. split; [by left|]. split; [done|]. intros d Hd. auto.
Qed.

Lemma some_ready p c :
  NoDup (map qu_id (units p)) → has_cycle (units p) = false →
  (∀ u d, u ∈ units p → d ∈ qu_depends_on u → d ≠ qu_id u ∧ d ∈ map qu_id (units p)) →
  (length c < length (units p))%nat → NoDup c → ready_units p c ≠ [].
Proof.
  intros Hnd (l & Hl & Hin)%has_cycle_false Hdeps Hlen Hc.
  assert (∃ x, x ∈ map qu_id (units p) ∧ x ∉ c) as (x & Hx & Hxc).
  { destruct (decide (Exists (λ x, x ∉ c) (map qu_id (units p)))) as [(x & Hx & Hn)%Exists_exists|Hall]; [eauto|].
    exfalso. assert (map qu_id (units p) ⊆+ c) as Hsub.
    { apply NoDup_submseteq; [done|]. intros x Hx. destruct (decide (x ∈ c)); [done|]. exfalso.
      apply Hall, Exists_exists. by exists x. }
    apply submseteq_length in Hsub. rewrite length_map in Hsub. lia. }
  destruct (ordered_ready (graph_of (units p)) l (λ x, x ∉ map qu_id (units p) ∨ x ∈ c)) as (y & Hy & Hny & Hd).
  { done. } { exists x. split; [by apply Hin, graph_keys|tauto]. }
  assert (y ∈ map qu_id (units p) ∧ y ∉ c) as [Hyu Hyc] by (destruct (decide (y ∈ map qu_id (units p))); tauto).
  apply elem_of_map in Hyu as (u & <- & Hu). intros E. apply (not_elem_of_nil u). rewrite <- E.
  apply ready_unit. split_and!; [done|done|]. intros d Hd'.
  destruct (Hdeps u d Hu Hd') as [_ Hdu]. destruct (Hd d) as [|]; [|done|done].
  apply (depends_distinct (units p)); [done|]. eauto.
Qed.

(** What is known between rounds. *)
Record progress (p : ask_plan) (c : list string) (r : execution) : Prop := {
  pr_distinct : NoDup c;
  pr_known : ∀ id, id ∈ c → id ∈ map qu_id (units p);
  pr_bundles : map bundle_unit_id (bundles r) ≡ₚ c;
  pr_answered : answered r;
}.

Lemma round_progress p env n c r : NoDup (map qu_id (units p)) → complete_rounds env → progress p c r →
  let ready := ready_units p c in
  progress p (complete_all ready c) (fold_left consume (env n ready) r).
Proof.
  intros Hnd Henv [Hc Hk Hb Ha]. simpl.
  assert (NoDup (map qu_id (ready_units p c))) as Hr by by apply (NoDup_select qu_id).
  destruct (consume_all (env n (ready_units p c)) r Ha) as [Ha' Hb'].
  rewrite (complete_all_new (ready_units p c) c) by (done || by intros u [_ [Hu _]]%ready_unit).
  split; [| |by rewrite Hb', Hb, (Henv n (ready_units p c))|done].
  - apply NoDup_app. split_and!; [done| |done]. intros id Hid (u & <- & Hu)%elem_of_map.
    apply ready_unit in Hu as (_ & Hu & _). done.
  - intros id [Hid|(u & <- & Hu)%elem_of_map]%elem_of_app; [auto|].
    apply elem_of_map_in. by apply ready_unit in Hu as [].
Qed.

Lemma rounds_answer p env fuel : NoDup (map qu_id (units p)) → complete_rounds env →
  (∀ c, (length c < length (units p))%nat → NoDup c → ready_units p c ≠ []) →
  ∀ n c r r', progress p c r → execute_rounds fuel env p n c r = Some r' →
  map bundle_unit_id (bundles r') ≡ₚ map qu_id (units p) ∧ answered r'.
Proof.
  intros Hnd Henv Hready. induction fuel as [|fuel IH]; intros n c r r' Hp; [done|]. cbn [execute_rounds].
  pose proof Hp as [Hc Hk Hb Ha]. destruct (Nat.ltb_spec (length c) (length (units p))) as [Hlen|Hlen].
  - pose proof (round_progress p env n c r Hnd Henv Hp) as Hp'.
    destruct (ready_units p c) as [|u ready] eqn:E; [by apply Hready in E|]. by apply IH.
  - intros [= <-]. split; [|done]. rewrite Hb. apply submseteq_length_Permutation.
    + apply NoDup_submseteq; [done|exact Hk].
    + rewrite length_map. lia.
Qed.

(** ** The order of the bundles *)

Lemma StronglySorted_impl_in {A} (R S : A → A → Prop) l :
  (∀ a b, a ∈ l → b ∈ l → R a b → S a b) → StronglySorted R l → StronglySorted S l.
Proof.
  intros HRS. induction 1 as [|x l Hl IH Hx]; constructor.
  - apply IH. intros a b Ha Hb. apply HRS; by right.
  - apply Forall_forall. intros y Hy. apply HRS; [by left|by right|]. by eapply Forall_forall in Hx.
Qed.

Lemma insert_by_key_sorted {A} (key : A → Z) x l :
  StronglySorted (λ a b, key a ≤ key b) l →
  StronglySorted (λ a b, key a ≤ key b) (insert_by (λ a b, key a <=? key b) x l).
Proof.
  induction 1 as [|y l Hl IH Hy]; simpl; [by repeat constructor|]. destruct (Z.leb_spec (key x) (key y)) as [Hxy|Hxy].
  - constructor; [by constructor|]. constructor; [done|]. eapply Forall_impl; [exact Hy|]. simpl. lia.
  - constructor; [done|]. apply Forall_forall. intros z. rewrite insert_by_Permutation.
    intros [->|Hz]%elem_of_cons; [lia|]. by eapply Forall_forall in Hy.
Qed.
Lemma sort_by_key_sorted {A} (key : A → Z) l :
  StronglySorted (λ a b, key a ≤ key b) (sort_by (λ a b, key a <=? key b) l).
Proof. induction l as [|x l IH]; simpl; [constructor|by apply insert_by_key_sorted]. Qed.

Lemma index_of_absent id us : ∀ k f, id ∉ map qu_id us → index_of id k us f = f.
Proof.
  induction us as [|u us IH]; intros k f Hid; simpl; [done|]. simpl in Hid. apply not_elem_of_cons in Hid as [Hne Hid].
  rewrite IH by done. by rewrite (proj2 (String.eqb_neq _ _)) by congruence.
Qed.

Lemma index_of_sorted us : NoDup (map qu_id us) → ∀ k f,
  (∀ id, id ∈ map qu_id us → k ≤ index_of id k us f)
  ∧ (∀ a b, a ∈ map qu_id us → b ∈ map qu_id us → index_of a k us f = index_of b k us f → a = b)
  ∧ StronglySorted (λ a b, index_of a k us f ≤ index_of b k us f) (map qu_id us).
Proof.
  induction us as [|u us IH]; intros Hnd k f.
  { split_and!; [by intros id Hid%elem_of_nil|by intros a b Ha%elem_of_nil|constructor]. }
  simpl in Hnd. apply NoDup_cons in Hnd as [Hu Hnd]. simpl.
  assert (index_of (qu_id u) (k + 1) us (if String.eqb (qu_id u) (qu_id u) then k else f) = k) as Hfirst.
  { rewrite String.eqb_refl. by apply index_of_absent. }
  assert (∀ id, id ∈ map qu_id us →
    index_of id (k + 1) us (if String.eqb (qu_id u) id then k else f) = index_of id (k + 1) us f) as Hrest.
  { intros id Hid. rewrite (proj2 (String.eqb_neq _ _)); [done|]. intros <-. done. }
  destruct (IH Hnd (k + 1) f) as (Hle & Hinj & Hs). split_and!.
  - intros id [->|Hid]%elem_of_cons; [by rewrite Hfirst|]. rewrite Hrest by done. specialize (Hle id Hid). lia.
  - intros a b [->|Ha]%elem_of_cons [->|Hb]%elem_of_cons; [done|..]; rewrite ?Hfirst, ?Hrest by done; [| |by apply Hinj];
      intros E; [specialize (Hle b Hb)|specialize (Hle a Ha)]; lia.
  - constructor.
    + eapply StronglySorted_impl_in; [|exact Hs]. intros a b Ha Hb. simpl. by rewrite !Hrest.
    + apply Forall_forall. intros id Hid. rewrite Hfirst, Hrest by done. specialize (Hle id Hid). lia.
Qed.

(** A sort by the order of the units puts the bundles of all units in that order. *)
Lemma sorted_bundles p bs : NoDup (map qu_id (units p)) → map bundle_unit_id bs ≡ₚ map qu_id (units p) →
  map bundle_unit_id (sort_by (λ a b, order_of p (bundle_unit_id a) <=? order_of p (bundle_unit_id b)) bs)
    = map qu_id (units p).
Proof.
  intros Hnd Hb. destruct (index_of_sorted _ Hnd 0 999) as (_ & Hinj & Hs).
  assert (map bundle_unit_id (sort_by (λ a b, order_of p (bundle_unit_id a) <=? order_of p (bundle_unit_id b)) bs)
    ≡ₚ map qu_id (units p)) as Hperm by (rewrite sort_by_Permutation; exact Hb).
  apply (StronglySorted_unique_strong (λ a b, order_of p a ≤ order_of p b)); [| |exact Hs|exact Hperm].
  - intros a b Ha Hb' Hab Hba. rewrite Hperm in Ha. apply Hinj; [done|done|]. unfold order_of in *. lia.
  - pose proof (sort_by_key_sorted (λ b, order_of p (bundle_unit_id b)) bs) as Hsb. revert Hsb. simpl.
    generalize (sort_by (λ a b, order_of p (bundle_unit_id a) <=? order_of p (bundle_unit_id b)) bs).
    induction 1 as [|b l Hl IH Hall]; simpl; constructor; [done|].
    apply Forall_forall. intros id (b' & <- & Hb')%elem_of_map. by eapply Forall_forall in Hall.
Qed.

(** * The repair *)

(** What the repair may do to a bundle. *)
Definition repaired (p : ask_plan) (ids : list string) (b b' : bundle) : Prop :=
  b' = b
  ∨ (status (resolution b) = "not_found" ∧ status (resolution b') = "partial"
     ∧ bundle_unit_id b' = bundle_unit_id b ∧ bundle_unit_id b ∈ ids ∧ evidence b' ≠ []
     ∧ ∀ i, i ∈ evidence b' → ∃ u item tool role, u ∈ units p ∧ qu_id u = bundle_unit_id b
         ∧ record_relevant_to_unit u item = true ∧ i = as_evidence item tool role).

Lemma repaired_more p ids id b b' : repaired p ids b b' → repaired p (ids ++ [id])%list b b'.
Proof.
  intros [->|(? & ? & ? & ? & ? & ?)]; [by left|right]. split_and!; try done. apply elem_of_app. by left.
Qed.

Lemma partial_bundle_repairs p u records tool reason ids b : u ∈ units p → bundle_unit_id b = qu_id u →
  status (resolution b) = "not_found" → length records ≠ 0%nat →
  (∀ item, item ∈ records → record_relevant_to_unit u item = true) →
  repaired p (ids ++ [qu_id u])%list b (partial_bundle u records tool reason).
Proof.
  intros Hu Hb Hs Hr Hrel. right. split_and!; try done.
  - rewrite Hb. apply elem_of_app. right. by left.
  - by destruct records.
  - intros i (item & <- & Hi%in_take)%elem_of_map. by eexists u, item, tool, _; split_and!; auto.
Qed.

Lemma replace_first_repairs p ids id b b' os bs : Forall2 (repaired p ids) os bs →
  status (resolution b) = "not_found" → repaired p (ids ++ [id])%list b b' →
  Forall2 (repaired p (ids ++ [id])%list) os (replace_first b b' bs).
Proof.
  intros Hall Hs Hb. induction Hall as [|o c os bs Hoc Hall IH]; simpl; [constructor|].
  case_bool_decide as E.
  - constructor; [|eapply Forall2_impl; [exact Hall|apply repaired_more]].
    subst c. destruct Hoc as [->|(_ & Hp & _)]; [done|]. congruence.
  - constructor; [by apply repaired_more|done].
Qed.

Section repair_facts.
Context (search_episodes note_fallback : string → result (list record)).
Context (ASK_MAX_RETRIEVAL_ROUNDS ASK_MAX_FALLBACK_UNITS : Z).
#[local] Abbreviation budget := (Z.max 0 ASK_MAX_FALLBACK_UNITS).

Lemma last_bundle_elem id bs b : last_bundle id bs = Some b → b ∈ bs ∧ bundle_unit_id b = id.
Proof.
  unfold last_bundle. intros E%last_Some_elem_of. apply list_elem_of_In, filter_In in E as [E Hb].
  bools. by rewrite list_elem_of_In.
Qed.

Lemma repair_unit_repairs p bs s u : u ∈ units p →
  Forall2 (repaired p s.2) bs (bundles s.1) → length_of s.2 ≤ budget →
  let s' := repair_unit search_episodes note_fallback ASK_MAX_FALLBACK_UNITS bs s u in
  Forall2 (repaired p s'.2) bs (bundles s'.1) ∧ length_of s'.2 ≤ budget.
Proof.
  intros Hu Hs Hlen. simpl. unfold repair_unit. case_match eqn:Eb; [done|].
  destruct (last_bundle (qu_id u) bs) as [b|] eqn:El; [|done]. apply last_bundle_elem in El as [_ Hb].
  case_match eqn:En; [done|]. destruct (fallback_records _ _ u) as [[records tool] reason].
  case_bool_decide as Hr; [done|]. bools. split.
  - apply replace_first_repairs; [done|done|]. apply partial_bundle_repairs; try done.
    intros item. by rewrite list_elem_of_In, filter_In => -[].
  - unfold length_of in *. simpl. rewrite length_app. simpl. lia.
Qed.

Lemma repair_units_repair p bs us : ∀ s, (∀ u, u ∈ us → u ∈ units p) →
  Forall2 (repaired p s.2) bs (bundles s.1) → length_of s.2 ≤ budget →
  let s' := fold_left (repair_unit search_episodes note_fallback ASK_MAX_FALLBACK_UNITS bs) us s in
  Forall2 (repaired p s'.2) bs (bundles s'.1) ∧ length_of s'.2 ≤ budget.
Proof.
  induction us as [|u us IH]; intros s Hus Hs Hlen; [done|]. cbn [fold_left].
  destruct (repair_unit_repairs p bs s u) as [Hs' Hlen']; [apply Hus; by left|done|done|].
  apply IH; [intros v Hv; apply Hus; by right|done|done].
Qed.

(** The repair is bounded and only adds evidence: it repairs at most the budget of units, keeps the bundles in their order, and changes only bundles that found nothing, into partial ones of the same unit whose items are made of fallback records relevant to that unit. *)
Theorem repair_is_bounded p r :
  let '(r', ids) := repair_missing_evidence search_episodes note_fallback ASK_MAX_RETRIEVAL_ROUNDS
                      ASK_MAX_FALLBACK_UNITS p r in
  Forall2 (repaired p ids) (bundles r) (bundles r') ∧ length_of ids ≤ budget.
Proof.
  unfold repair_missing_evidence.
  assert (∀ ids, Forall2 (repaired p ids) (bundles r) (bundles r)) as Hrefl.
  { intros ids. apply Forall_Forall2_diag, Forall_true. by left. }
  destruct (_ <? 2); [split; [apply Hrefl|unfold length_of; simpl; lia]|].
  pose proof (repair_units_repair p (bundles r) (units p) (r, [])) as Hrep. simpl in Hrep.
  destruct (fold_left _ _ _) as [r' ids]. apply Hrep; [done|apply Hrefl|unfold length_of; simpl; lia].
Qed.
End repair_facts.

(** * The properties of the execution *)

(** The execution of any plan ends, whatever the tools return and however late: each round completes a unit, or is the last one. *)
Theorem execution_ends env p : ∃ r, execute_ask_plan env p = Some r.
Proof.
  destruct (execute_rounds_end env p (S (length (units p))) 0 [] (Execution [] [] [] [] [])) as [r E]; [simpl; lia|lia|].
  unfold execute_ask_plan. rewrite E. by eexists.
Qed.

End execution.

(** * Concrete runs *)

Definition test_retrieval : Retrieval :=
  {| semantic_projection_order := λ _ records, (records, []); select_answer_evidence := λ _ records _, records;
     ASK_EVIDENCE_PER_UNIT := 5 |}.

(** Every tool finds nothing, in the order of the units. *)
Definition nothing_found : rounds := λ _ ready, map (λ u, (u, Found "memory_search" [])) ready.


(** The validator does not compare the ids of the units.  Here two units have the id [u1], and
    the second of them depends on [u2]: it is never executed, and has no bundle. *)
Definition twice_u1 : ask_plan :=
  AskPlan "q" [] [ask_unit "u1" "task_state" None []; ask_unit "u2" "semantic_current" None [];
                  (ask_unit "u1" "episodic_history" None ["u2"])] "direct".
Example duplicate_id_is_skipped :
  let p := plan_of (@validate_ask_plan test_platform (Planned twice_u1) "how is the project" [] 4) in
  map qu_id (units p) = ["u1"; "u2"; "u1"]
  ∧ option_map (λ r, (map bundle_unit_id (bundles r), executed_tools r))
      (@execute_ask_plan test_platform test_tables test_retrieval nothing_found p)
    = Some (["u2"; "u1"], ["memory_search"; "memory_search"]).
Proof. vm_compute. by split. Qed.
