(* ===== verification/AskAnswer.v ===== *)
(** The answer of a question ([agent/ask_workflow.py]): the contract that the reply of the
    model has to keep, the claims that are exported with an answer, the attempts and the answers
    without a model. *)

From stdpp Require Import base list strings pretty.
From Stdlib Require Import ZArith Lia.
From S2P Require Import Prelude Consistency TextChunks MemoryText AskPlan AskPlanSpec AskEvidence AskExecution.

Open Scope string_scope.
Open Scope Z_scope.

(** * Replies *)

Definition newline : string := String (Ascii.ascii_of_nat 10) "".

(** A value of JSON.  A number is its text, with whether it is zero. *)
#[warnings="-automation"]
Inductive json :=
  | JNull
  | JBool (b : bool)
  | JNumber (text : string) (zero : bool)
  | JString (s : string)
  | JList (l : list json)
  | JObject (fields : list (string * json)).

Definition json_truthy (v : json) : bool :=
  match v with
  | JNull => false
  | JBool b => b
  | JNumber _ zero => negb zero
  | JString s => negb (String.eqb s "")
  | JList l => negb (bool_decide (length l = 0%nat))
  | JObject fields => negb (bool_decide (length fields = 0%nat))
  end.

(** [item.get(key)] *)
Definition get (key : string) (fields : list (string * json)) : json :=
  match List.find (λ f, String.eqb f.1 key) fields with Some (_, v) => v | None => JNull end.

(** [for value in v or []] *)
Definition iterate (v : json) : result (list json) :=
  if json_truthy v then
    match v with
    | JString s => Ok (map JString (chars s))
    | JList l => Ok l
    | JObject fields => Ok (map (λ f, JString f.1) fields)
    | JNull | JBool _ | JNumber _ _ => Raise (TypeError "not iterable")
    end
  else Ok [].

Record claim := Claim {
  cl_text : string;
  cl_memory_ids : list string;
  cl_version_ids : list string;
  cl_source_ids : list string;
  cl_support_role : string;
}.
#[export] Instance claim_eta : Eta claim := λ r,
  Claim (cl_text r) (cl_memory_ids r) (cl_version_ids r) (cl_source_ids r) (cl_support_role r).

(** What is reported of the contract. *)
Record contract := Contract {
  ct_status : string;
  ct_attempts : Z;
  ct_failure_reason : option string;
  ct_failure_reasons : list (string * Z);
  ct_answered_units : list string;
}.

(** [d[key] = f(d.get(key, initial))] *)
Fixpoint dict_update {K V} `{EqDecision K} (key : K) (initial : V) (f : V → V) (d : list (K * V)) : list (K * V) :=
  match d with
  | [] => [(key, f initial)]
  | (k, v) :: rest => if decide (k = key) then (k, f v) :: rest else (k, v) :: dict_update key initial f rest
  end.
Definition count (reason : string) (n : Z) : list (string * Z) → list (string * Z) :=
  dict_update reason 0 (λ m, m + n).
(** [if x not in xs: xs.append(x)] *)
Definition append_new (x : string) (xs : list string) : list string := if py_in x xs then xs else (xs ++ [x])%list.

Section answer.
(** [repr] is the text of a value that is not a string; [isalnum] is the table of Python. *)
Context `{Platform, TextTables} (repr : json → string) (isalnum : string → bool).

(** [str(v)] and [str(v or "")] *)
Definition str (v : json) : string := match v with JString s => s | v => repr v end.
Definition str_or_empty (v : json) : string := if json_truthy v then str v else "".

(** [list(dict.fromkeys(str(value) for value in item.get("evidence_ids") or [] if str(value)))] *)
Definition evidence_ids_of (fields : list (string * json)) : result (list string) :=
  values ← iterate (get "evidence_ids" fields);
  mret (from_keys (List.filter (λ s, negb (String.eqb s "")) (map str values))).

(** [_claim_identity] *)
Definition claim_identity (text : string) : string :=
  join (List.filter isalnum (chars (str_casefold text))).

(** [evidence_by_unit]: a later bundle or item replaces an earlier one with the same id. *)
Definition find_evidence (b : bundle) (id : string) : option evidence_item :=
  last (List.filter (λ i, String.eqb (evidence_id i) id) (evidence b)).
Definition evidence_of_unit (bs : list bundle) (unit_id id : string) : option evidence_item :=
  b ← last_bundle unit_id bs; find_evidence b id.
Definition allowed_ids (bs : list bundle) (unit_id : string) : option (list string) :=
  option_map (λ b, map evidence_id (evidence b)) (last_bundle unit_id bs).

Definition subset (xs ys : list string) : bool := forallb (λ x, py_in x ys) xs.

(** ** The validation *)

(** The checks of one item of [unit_answers]: the unit it answers, or the reason of its rejection. *)
Definition check_item (bs : list bundle) (seen : list string) (item : json) :
    result (string + string * list (string * json)) :=
  match item with
  | JObject fields =>
      let unit_id := str_or_empty (get "unit_id" fields) in
      evidence_ids ← evidence_ids_of fields;
      match allowed_ids bs unit_id with
      | None => mret (inl "unit_id_not_allowed")
      | Some allowed =>
          mret (if String.eqb unit_id "" then inl "unit_id_not_allowed"
                else if py_in unit_id seen then inl "duplicate_unit_id"
                else if bool_decide (evidence_ids = []) then inl "evidence_ids_empty"
                else if negb (subset evidence_ids allowed) then inl "evidence_id_not_allowed"
                else if String.eqb (py_strip (str_or_empty (get "answer" fields))) "" then inl "answer_empty"
                else inr (unit_id, fields))
      end
  | _ => mret (inl "unit_answer_not_object")
  end.

Fixpoint check_items (bs : list bundle) (seen : list string) (rejected : list (string * Z)) (items : list json) :
    result (list (string * list (string * json)) * list (string * Z)) :=
  match items with
  | [] => mret ([], rejected)
  | item :: rest =>
      checked ← check_item bs seen item;
      match checked with
      | inl reason => check_items bs seen (count reason 1 rejected) rest
      | inr accepted =>
          others ← check_items bs (accepted.1 :: seen) rejected rest;
          mret (accepted :: others.1, others.2)
      end
  end.

(** [_validated_answer_contract_items] *)
Definition validated_answer_contract_items (data : json) (bs : list bundle) :
    result (list (string * list (string * json)) * list (string * Z)) :=
  match data with
  | JObject fields =>
      match get "unit_answers" fields with
      | JList items =>
          r ← check_items bs [] [] items;
          mret (if bool_decide (length r.1 = 0%nat) && bool_decide (r.2 = [])
                then ([], count "no_unit_answers" 1 r.2) else r)
      | _ => mret ([], count "unit_answers_not_list" 1 [])
      end
  | _ => mret ([], count "unit_answers_not_list" 1 [])
  end.

(** ** The claims *)

(** The body of the loop over the evidence of a claim. *)
Definition add_evidence (i : evidence_item) (c : claim) : claim :=
  let add x xs := match x with Some s => if String.eqb s "" then xs else append_new s xs | None => xs end in
  c <| cl_memory_ids := add (memory_id i) (cl_memory_ids c) |>
    <| cl_version_ids := add (version_id i) (cl_version_ids c) |>
    <| cl_source_ids := fold_left (λ xs x, append_new x xs) (source_note_ids i) (cl_source_ids c) |>
    <| cl_support_role := if String.eqb (evidence_role i) "historical" then "history" else cl_support_role c |>.

Definition add_claim (bs : list bundle) (unit_id : string) (merged : list ((string * string) * claim))
    (c : string * list string) : list ((string * string) * claim) :=
  let identity := claim_identity c.1 in
  if String.eqb identity "" then merged
  else
    dict_update (unit_id, identity) (Claim (py_strip c.1) [] [] [] "current")
      (λ record, fold_left (λ record id, match evidence_of_unit bs unit_id id with
                                         | Some i => add_evidence i record
                                         | None => record
                                         end) c.2 record)
      merged.

(** [_claims_from_answer_units] *)
Definition claims_from_answer_units (bs : list bundle) (accepted : list (string * list (string * list string))) :
    list claim :=
  map snd (fold_left (λ merged a, fold_left (add_claim bs a.1) a.2 merged) accepted []).

(** The claims of an item that the answer contains and that cite its evidence. *)
Definition check_claim (allowed : list string) (answer : string) (evidence_ids : list string) (raw : json) :
    result (option (string * list string)) :=
  match raw with
  | JObject fields =>
      let text := py_strip (str_or_empty (get "text" fields)) in
      ids ← evidence_ids_of fields;
      mret (if negb (String.eqb text "") && negb (bool_decide (ids = []))
               && str_contains (claim_identity text) (claim_identity answer)
               && subset ids evidence_ids && subset ids allowed
            then Some (text, ids) else None)
  | _ => mret None
  end.
Fixpoint check_claims (allowed : list string) (answer : string) (evidence_ids : list string) (raws : list json) :
    result (list (string * list string)) :=
  match raws with
  | [] => mret []
  | raw :: rest =>
      c ← check_claim allowed answer evidence_ids raw;
      cs ← check_claims allowed answer evidence_ids rest;
      mret (match c with Some c => c :: cs | None => cs end)
  end.

(** The body of the loop of [_render_validated_answer_contract]; what it appends. *)
Definition render_item (bs : list bundle) (fields : list (string * json)) :
    result (option (string * (string * list (string * list string)))) :=
  let unit_id := str_or_empty (get "unit_id" fields) in
  evidence_ids ← evidence_ids_of fields;
  let answer := py_strip (str_or_empty (get "answer" fields)) in
  if String.eqb unit_id "" || String.eqb answer "" then mret None
  else
    unit_claims ← match get "claims" fields with
                  | JList raws => check_claims (default [] (allowed_ids bs unit_id)) answer evidence_ids raws
                  | _ => mret []
                  end;
    mret (Some (answer, (unit_id, if bool_decide (length unit_claims = 0%nat) then [(answer, evidence_ids)]
                                  else unit_claims))).
Fixpoint render_items (bs : list bundle) (items : list (list (string * json))) :
    result (list (string * (string * list (string * list string)))) :=
  match items with
  | [] => mret []
  | fields :: rest =>
      r ← render_item bs fields;
      rs ← render_items bs rest;
      mret (match r with Some r => r :: rs | None => rs end)
  end.
(** [_render_validated_answer_contract] *)
Definition render_validated_answer_contract (bs : list bundle) (items : list (list (string * json))) :
    result (string * list claim) :=
  rendered ← render_items bs items;
  mret (String.concat newline (map fst rendered), claims_from_answer_units bs (map snd rendered)).

(** * The answers without a model *)

Definition strip_chars (characters : list string) (s : string) : string :=
  rstrip_chars characters (lstrip_chars characters s).
(** [s.split(marker, 1)[0]] *)
Fixpoint before (marker s : string) : string :=
  if starts_with marker s then ""
  else match s with EmptyString => EmptyString | String c s => String c (before marker s) end.

(** [_timeline_topic] *)
Definition timeline_topic (content : string) : string :=
  let text := py_strip content in
  let text := match List.find (λ m, str_contains m text) [":"; "："; "是"; "被阻塞"; "开始"; "完成"; "待处理"; "取消"] with
              | Some m => before m text
              | None => text
              end in
  str_or (strip_chars [" "; "，"; "。"] text) "该事项".

(** [_status_from_evidence] *)
Definition status_from_evidence (i : evidence_item) : option string :=
  let has := existsb (λ m, str_contains m (content i)) in
  if has ["阻塞"; "blocked"] then Some "blocked"
  else if has ["完成"; "做完"; "done"] then Some "done"
  else
    let status := str_casefold (py_strip (default "" (task_status i))) in
    if py_in status ["todo"; "blocked"; "done"] then Some status
    else if has ["开始"; "待处理"; "todo"] then Some "todo"
    else None.

(** The group of claims of a timeline: the summary, and the members in their order. *)
Record member := Member { mb_claim_id : string; mb_claim : claim }.
Record timeline_group := TimelineGroup { tg_summary : claim; tg_members : list member }.

Definition versions_of (b : bundle) : list evidence_item := List.filter (λ i, truthy (version_id i)) (evidence b).

Definition memory_ids_of (items : list evidence_item) : list string :=
  match items with
  | i :: _ => if truthy (memory_id i) then [default "" (memory_id i)] else []
  | [] => []
  end.
Definition member_of (unit_id : string) (memory_ids : list string) (n : nat) (m : evidence_item * string) : member :=
  Member (unit_id +:+ ":" +:+ pretty (Z.of_nat n + 1))
    (Claim m.2 memory_ids [default "" (version_id m.1)] (source_note_ids m.1) "history").

(** The texts of a timeline: of the statuses of a task, or of the contents. *)
Definition timeline_texts (b : bundle) (items : list evidence_item) : string * list string :=
  let topic := timeline_topic (default "" (option_map content (head items))) in
  let statuses := map status_from_evidence items in
  let task := match evidence b with i :: _ => is_text (memory_type i) "task" | [] => false end in
  if task && forallb truthy statuses then
    let names := map (default "") statuses in
    let text :=
      match names with
      | [first; second] => topic +:+ "从" +:+ first +:+ "变为" +:+ second +:+ "。"
      | first :: second :: _ => topic +:+ "先处于" +:+ first +:+ "，随后进入" +:+ second +:+ "，最后转为"
                                  +:+ default "" (last names) +:+ "。"
      | _ => ""
      end in
    (text, map (λ s, topic +:+ "是" +:+ s) names)
  else
    (String.concat "；" (map (λ i, strip_chars ["。"; "；"; " "] (content i)) items) +:+ "。", map content items).

(** [_timeline_claim_group] *)
Definition timeline_claim_group (u : query_unit) (b : bundle) : option timeline_group :=
  let items := versions_of b in
  if (length items <? 2)%nat || negb (forallb (λ i, bool_decide (memory_id i = (head items ≫= memory_id))) items)
  then None
  else
    let '(text, member_texts) := timeline_texts b items in
    let memory_ids := memory_ids_of items in
    Some (TimelineGroup
      (Claim text memory_ids (map (λ i, default "" (version_id i)) items)
         (from_keys (mjoin (map source_note_ids items))) "history")
      (imap (member_of (qu_id u) memory_ids) (zip items member_texts))).

(** [_fallback_answer] *)
Definition fallback_line (bs : list bundle) (u : query_unit) : list string :=
  let about s := "关于“" +:+ qu_question u +:+ "”，" +:+ s in
  match last_bundle (qu_id u) bs with
  | None => [about "没有找到相关记录。"]
  | Some b =>
      if String.eqb (status (resolution b)) "not_found" then [about "没有找到相关记录。"]
      else if String.eqb (status (resolution b)) "conflict" then [about "现有记录存在冲突，暂时无法确认。"]
      else if String.eqb (qu_intent u) "memory_history" then
        [str_or (default "" (option_map (λ g, cl_text (tg_summary g)) (timeline_claim_group u b)))
           (default "" (value (resolution b)))]
      else if truthy (value (resolution b)) then [default "" (value (resolution b))] else []
  end.
Definition fallback_answer (p : ask_plan) (bs : list bundle) : string :=
  str_or (String.concat newline (mjoin (map (fallback_line bs) (units p)))) "没有找到足够的相关记录。".

(** [_answer_contract_failure_answer] *)
Definition answer_contract_failure_answer (p : ask_plan) (bs : list bundle) : string :=
  let questions := map qu_question (List.filter (λ u, existsb (λ b, String.eqb (bundle_unit_id b) (qu_id u)
    && negb (bool_decide (selected_evidence_ids (resolution b) = []))) bs) (units p)) in
  if negb (bool_decide (questions = [])) then
    String.concat newline (map (λ q, "关于“" +:+ q +:+ "”，已找到相关证据，但暂时无法生成可验证回答。") questions)
  else "已找到相关证据，但暂时无法生成可验证回答。".

(** * The whole answer *)

Definition answerable (b : bundle) : bool :=
  py_in (status (resolution b)) ["resolved"; "partial"]
  && negb (bool_decide (selected_evidence_ids (resolution b) = [])).

(** The attempts from number [attempts] on; [replies] are the outcomes of [complete_json]. *)
Fixpoint contract_attempts (bs : list bundle) (attempts : Z) (failures : list (string * Z)) (replies : list (result json)) :
    result (string * list claim * contract + Z * list (string * Z)) :=
  match replies with
  | [] => mret (inr (attempts, failures))
  | Raise e :: rest => contract_attempts bs (attempts + 1) (count ("provider_" +:+ exn_type e) 1 failures) rest
  | Ok data :: rest =>
      checked ← validated_answer_contract_items data bs;
      let failures := fold_left (λ d r, count r.1 r.2 d) checked.2 failures in
      if bool_decide (length checked.1 = 0%nat) then contract_attempts bs (attempts + 1) failures rest
      else
        rendered ← render_validated_answer_contract bs (map snd checked.1);
        mret (inl (rendered, Contract (if attempts =? 0 then "valid" else "repaired") (attempts + 1) None failures
                                (map fst checked.1)))
  end.

(** [_answer_with_claims_from_bundles_detailed] *)
Definition answer_with_claims (complete_json : nat → result json) (p : ask_plan) (bs : list bundle) :
    result (string * list claim * contract) :=
  if String.eqb (answer_mode p) "timeline" || existsb (λ u, String.eqb (qu_intent u) "memory_history") (units p)
  then mret (fallback_answer p bs, [], Contract "not_applicable" 0 None [] [])
  else
    let answerable_bundles := List.filter answerable bs in
    if bool_decide (answerable_bundles = [])
    then mret (fallback_answer p bs, [], Contract "not_applicable" 0 (Some "no_answerable_bundle") [] [])
    else
      r ← contract_attempts answerable_bundles 0 [] [complete_json 0%nat; complete_json 1%nat];
      mret (match r with
            | inl answer => answer
            | inr (attempts, failures) =>
                (answer_contract_failure_answer p bs, [],
                 Contract "failed" attempts (Some (default "no_valid_unit_answer" (option_map fst (head failures))))
                   failures [])
            end).
End answer.

(** The answers are grounded: what is exported with an answer cites the evidence of the unit
    that it answers, each unit is answered at most once, and the model is asked at most twice. *)

Section answers.
Context `{Platform, TextTables} (repr : json → string) (isalnum : string → bool).

Lemma result_Ok {A B} (r : result A) (f : A → result B) b :
  r ≫= f = Ok b ↔ ∃ a, r = Ok a ∧ f a = Ok b.
Proof.
  destruct r as [a|e]; simpl; [|split; [done|by intros (a & [=] & _)]].
  split; [by exists a|by intros (a' & [= <-] & ?)].
Qed.

Lemma subset_true xs ys : subset xs ys = true ↔ ∀ x, x ∈ xs → x ∈ ys.
Proof.
  unfold subset. rewrite forallb_forall. setoid_rewrite <- list_elem_of_In. by setoid_rewrite py_in_true.
Qed.

Lemma str_contains_self s : str_contains s s = true.
Proof.
  assert (String.prefix s s = true) as Hs.
  { induction s as [|c s IH]; simpl; [done|]. by destruct (Ascii.ascii_dec c c). }
  destruct s; [done|]. cbn [str_contains]. by rewrite Hs.
Qed.

(** * The validation *)

(** An item that passed: it answers a unit that may be answered, from evidence of that unit. *)
Definition valid_item (bs : list bundle) (item : string * list (string * json)) : Prop :=
  item.1 = str_or_empty repr (get "unit_id" item.2) ∧ item.1 ≠ ""
  ∧ py_strip (str_or_empty repr (get "answer" item.2)) ≠ ""
  ∧ ∃ b ids, last_bundle item.1 bs = Some b ∧ evidence_ids_of repr item.2 = Ok ids ∧ ids ≠ []
      ∧ ∀ id, id ∈ ids → id ∈ map evidence_id (evidence b).

Lemma check_item_valid bs seen item accepted :
  check_item repr bs seen item = Ok (inr accepted) → valid_item bs accepted ∧ accepted.1 ∉ seen.
Proof.
  unfold check_item. destruct item as [| | | | |fields]; try done.
  set (unit_id := str_or_empty repr (get "unit_id" fields)).
  intros (ids & Eids & E)%result_Ok. unfold allowed_ids in E.
  destruct (last_bundle unit_id bs) as [b|] eqn:Eb; [|done]. simpl in E.
  destruct (String.eqb unit_id "") eqn:E1; [done|]. destruct (py_in unit_id seen) eqn:E2; [done|].
  case_bool_decide; [done|]. destruct (subset ids _) eqn:E3; [|done]. simpl in E.
  destruct (String.eqb (py_strip _) "") eqn:E4; [done|]. injection E as <-. bools. rewrite subset_true in E3.
  split; [|done]. split_and!; [done|done|done|]. by exists b, ids.
Qed.

Lemma check_items_valid bs items : ∀ seen rejected r, check_items repr bs seen rejected items = Ok r →
  (∀ x, x ∈ r.1 → valid_item bs x) ∧ NoDup (map fst r.1) ∧ ∀ id, id ∈ map fst r.1 → id ∉ seen.
Proof.
  induction items as [|item items IH]; intros seen rejected r; simpl.
  { intros [= <-]. split_and!; [by intros x Hx%elem_of_nil|constructor|by intros x Hx%elem_of_nil]. }
  intros (checked & Ec & E)%result_Ok. destruct checked as [reason|accepted]; [by eapply IH|].
  apply result_Ok in E as (others & Eo & [= <-]). apply check_item_valid in Ec as [Hv Hs].
  apply IH in Eo as (Hall & Hnd & Hseen). simpl. split_and!.
  - intros x [->|Hx]%elem_of_cons; auto.
  - apply NoDup_cons. split; [|done]. intros Hin. apply (Hseen _ Hin). by left.
  - intros id [->|Hid]%elem_of_cons; [done|]. intros Hin. apply (Hseen _ Hid). by right.
Qed.

Lemma contract_items_valid data bs r : validated_answer_contract_items repr data bs = Ok r →
  (∀ x, x ∈ r.1 → valid_item bs x) ∧ NoDup (map fst r.1).
Proof.
  assert (∀ d : list (string * Z), (∀ x, x ∈ (@nil (string * list (string * json)), d).1 → valid_item bs x)
    ∧ NoDup (map fst (@nil (string * list (string * json)), d).1)) as Hnil.
  { intros d. split; [by intros x Hx%elem_of_nil|constructor]. }
  unfold validated_answer_contract_items.
  destruct data as [| | | | |fields]; try (by intros [= <-]).
  destruct (get "unit_answers" fields) as [| | | |items|]; try (by intros [= <-]).
  intros (r' & E & E')%result_Ok. apply check_items_valid in E as (Hv & Hnd & _).
  destruct (_ && _) in E'; injection E' as <-; [apply Hnil|by split].
Qed.

(** * The rendering *)

(** What is rendered of an item: its answer, and claims that cite the evidence of the unit and
    that the answer contains. *)
Definition valid_claims (bs : list bundle) (r : string * (string * list (string * list string))) : Prop :=
  ∃ b, last_bundle r.2.1 bs = Some b ∧ r.2.2 ≠ []
    ∧ ∀ c, c ∈ r.2.2 → c.2 ≠ [] ∧ (∀ id, id ∈ c.2 → id ∈ map evidence_id (evidence b))
        ∧ str_contains (claim_identity isalnum c.1) (claim_identity isalnum r.1) = true.

Lemma check_claims_valid allowed answer ids raws : ∀ cs, check_claims repr isalnum allowed answer ids raws = Ok cs →
  ∀ c, c ∈ cs → c.2 ≠ [] ∧ (∀ id, id ∈ c.2 → id ∈ ids)
    ∧ str_contains (claim_identity isalnum c.1) (claim_identity isalnum answer) = true.
Proof.
  induction raws as [|raw raws IH]; intros cs; simpl; [by intros [= <-] c Hc%elem_of_nil|].
  intros (o & Eo & (others & E & [= <-])%result_Ok)%result_Ok c. specialize (IH _ E).
  destruct o as [c'|]; [|by apply IH]. intros [->|Hc]%elem_of_cons; [|by apply IH].
  unfold check_claim in Eo. destruct raw as [| | | | |fields]; try done.
  apply result_Ok in Eo as (claim_ids & _ & Eo). case_match eqn:Ec; [|done]. injection Eo as <-. simpl.
  bools. rewrite !subset_true in Ec. tauto.
Qed.

Lemma render_item_valid bs item : valid_item bs item → ∀ o, render_item repr isalnum bs item.2 = Ok o →
  ∃ answer cs, o = Some (answer, (item.1, cs)) ∧ valid_claims bs (answer, (item.1, cs)).
Proof.
  intros (Hid & Hne & Hans & b & ids & Eb & Eids & Hids & Hin) o. unfold render_item.
  rewrite Eids, <- Hid. apply String.eqb_neq in Hne, Hans. cbn [mbind result_bind]. rewrite Hne, Hans. cbn [orb].
  set (answer := py_strip _). intros (cs & Ecs & [= <-])%result_Ok. eexists _, _. split; [done|].
  exists b. split; [done|]. simpl. case_bool_decide as Hcs.
  - split; [done|]. intros c ->%list_elem_of_singleton. split_and!; [done|done|apply str_contains_self].
  - split; [by destruct cs|]. intros c Hc.
    destruct (get "claims" item.2) as [| | | |raws|]; try (injection Ecs as <-; by apply not_elem_of_nil in Hc).
    destruct (check_claims_valid _ _ _ _ _ Ecs c Hc) as (? & Hsub & ?). split_and!; [done|auto|done].
Qed.

Lemma render_items_valid bs items : (∀ x, x ∈ items → valid_item bs x) →
  ∀ rs, render_items repr isalnum bs (map snd items) = Ok rs →
  (∀ r, r ∈ rs → valid_claims bs r) ∧ map (λ r, r.2.1) rs = map fst items.
Proof.
  intros Hv. induction items as [|item items IH]; intros rs; simpl.
  { intros [= <-]. split; [by intros r Hr%elem_of_nil|done]. }
  intros (o & Eo & (others & E & [= <-])%result_Ok)%result_Ok.
  apply render_item_valid in Eo as (answer & cs & -> & Hc); [|apply Hv; by left].
  destruct (IH (λ x Hx, Hv x (proj2 (elem_of_cons _ _ _) (or_intror Hx))) others E) as [Hall Hids].
  simpl. split; [|by rewrite Hids]. intros r [->|Hr]%elem_of_cons; auto.
Qed.

(** * The claims *)

(** The references of a claim come from the evidence of a bundle. *)
Record refers_to (b : bundle) (c : claim) : Prop := {
  rf_memories : ∀ m, m ∈ cl_memory_ids c → ∃ i, i ∈ evidence b ∧ memory_id i = Some m;
  rf_versions : ∀ v, v ∈ cl_version_ids c → ∃ i, i ∈ evidence b ∧ version_id i = Some v;
  rf_sources : ∀ n, n ∈ cl_source_ids c → ∃ i, i ∈ evidence b ∧ n ∈ source_note_ids i;
}.

Lemma elem_of_append_new x y xs : x ∈ append_new y xs → x = y ∨ x ∈ xs.
Proof.
  unfold append_new. case_match; [by right|]. intros [?|Hx%list_elem_of_singleton]%elem_of_app; [by right|by left].
Qed.
Lemma elem_of_append_all x ys : ∀ xs, x ∈ fold_left (λ xs y, append_new y xs) ys xs → x ∈ ys ∨ x ∈ xs.
Proof.
  induction ys as [|y ys IH]; intros xs; simpl; [by right|].
  intros [Hx|[->|Hx]%elem_of_append_new]%IH; [left; by right|left; by left|by right].
Qed.
Lemma elem_of_append_opt x o xs :
  x ∈ match o with Some s => if String.eqb s "" then xs else append_new s xs | None => xs end →
  o = Some x ∨ x ∈ xs.
Proof.
  destruct o as [s|]; [|by right]. case_match; [by right|].
  intros [->|Hx]%elem_of_append_new; [by left|by right].
Qed.

Lemma add_evidence_refers b i c : i ∈ evidence b → refers_to b c → refers_to b (add_evidence i c).
Proof.
  intros Hi [Hm Hv Hs]. split; simpl.
  - intros m [E|Hin]%elem_of_append_opt; [by exists i|auto].
  - intros v [E|Hin]%elem_of_append_opt; [by exists i|auto].
  - intros n [Hin|Hin]%elem_of_append_all; [by exists i|auto].
Qed.

Lemma dict_update_all {K V} `{EqDecision K} (P : K → V → Prop) key initial f d :
  P key (f initial) → (∀ v, P key v → P key (f v)) → (∀ k v, (k, v) ∈ d → P k v) →
  ∀ k v, (k, v) ∈ dict_update key initial f d → P k v.
Proof.
  intros Hi Hf. induction d as [|[k' v'] d IH]; intros Hd k v; simpl.
  { by intros [= -> ->]%list_elem_of_singleton. }
  case_decide as Hk.
  - intros [[= -> ->]|Hin]%elem_of_cons; [|by apply Hd; right]. subst k'. apply Hf, Hd. by left.
  - intros [[= -> ->]|Hin]%elem_of_cons; [by apply Hd; left|]. apply IH; [|done]. intros; apply Hd. by right.
Qed.

(** An exported claim: a text that was accepted for the unit, with references to its evidence. *)
Definition exported (bs : list bundle) (accepted : list (string * list (string * list string)))
    (unit_id : string) (c : claim) : Prop :=
  ∃ text ids cs, (unit_id, cs) ∈ accepted ∧ (text, ids) ∈ cs ∧ cl_text c = py_strip text
    ∧ ∀ b, last_bundle unit_id bs = Some b → refers_to b c.

Lemma add_references bs unit_id b ids : last_bundle unit_id bs = Some b → ∀ c, refers_to b c →
  refers_to b (fold_left (λ record id, match evidence_of_unit bs unit_id id with
                                       | Some i => add_evidence i record
                                       | None => record
                                       end) ids c).
Proof.
  intros Eb. induction ids as [|id ids IH]; intros c Hc; simpl; [done|]. apply IH.
  unfold evidence_of_unit. rewrite Eb. cbn [mbind option_bind]. unfold find_evidence.
  destruct (last _) as [i|] eqn:E; [|done]. apply add_evidence_refers; [|done].
  apply last_Some_elem_of, list_elem_of_In, filter_In in E as [E _]. by apply list_elem_of_In.
Qed.
Lemma add_references_text bs unit_id ids : ∀ c,
  cl_text (fold_left (λ record id, match evidence_of_unit bs unit_id id with
                                   | Some i => add_evidence i record
                                   | None => record
                                   end) ids c) = cl_text c.
Proof. induction ids as [|id ids IH]; intros c; simpl; [done|]. rewrite IH. by case_match. Qed.

Lemma add_claim_exported bs accepted unit_id cs c merged : (unit_id, cs) ∈ accepted → c ∈ cs →
  (∀ k r, (k, r) ∈ merged → exported bs accepted k.1 r) →
  ∀ k r, (k, r) ∈ add_claim isalnum bs unit_id merged c → exported bs accepted k.1 r.
Proof.
  intros Hacc Hc Hm. unfold add_claim. case_match; [done|].
  apply (dict_update_all (λ k r, exported bs accepted k.1 r)); [| |done].
  - exists c.1, c.2, cs. rewrite add_references_text. destruct c. split_and!; try done.
    intros b Hb. apply add_references; [done|]. by split; intros x Hx%elem_of_nil.
  - intros r (text & ids & cs' & ? & ? & Et & Hr). exists text, ids, cs'. rewrite add_references_text.
    split_and!; try done. intros b Hb. apply add_references; auto.
Qed.

Lemma claims_exported bs accepted c : c ∈ claims_from_answer_units isalnum bs accepted →
  ∃ unit_id, exported bs accepted unit_id c.
Proof.
  unfold claims_from_answer_units.
  assert (∀ todo merged, (∀ a, a ∈ todo → a ∈ accepted) → (∀ k r, (k, r) ∈ merged → exported bs accepted k.1 r) →
    ∀ k r, (k, r) ∈ fold_left (λ merged a, fold_left (add_claim isalnum bs a.1) a.2 merged) todo merged →
    exported bs accepted k.1 r) as Hall.
  { induction todo as [|[unit_id cs] todo IH]; intros merged Hin Hm; [exact Hm|]. simpl.
    apply IH; [intros a Ha; apply Hin; by right|].
    assert ((unit_id, cs) ∈ accepted) as Hacc by (apply Hin; by left).
    assert (∀ some, (∀ x, x ∈ some → x ∈ cs) → ∀ merged, (∀ k r, (k, r) ∈ merged → exported bs accepted k.1 r) →
      ∀ k r, (k, r) ∈ fold_left (add_claim isalnum bs unit_id) some merged → exported bs accepted k.1 r) as Hcs.
    { induction some as [|x some IHs]; intros Hsome merged' Hm'; [exact Hm'|]. simpl.
      apply IHs; [intros y Hy; apply Hsome; by right|]. apply (add_claim_exported bs accepted unit_id cs); [done| |done].
      apply Hsome. by left. }
    by apply Hcs. }
  intros ([k r] & <- & Hin)%elem_of_map. exists k.1. apply (Hall accepted []); [done| |done].
  by intros k' r' Hn%elem_of_nil.
Qed.

(** * The attempts *)

(** A claim that is exported with the answer of a unit. *)
Definition grounded (bs : list bundle) (c : claim) : Prop :=
  ∃ b answer text, b ∈ bs ∧ answerable b = true ∧ refers_to b c ∧ cl_text c = py_strip text
    ∧ str_contains (claim_identity isalnum text) (claim_identity isalnum answer) = true.

Lemma rendered_grounded bs items answer claims : (∀ x, x ∈ items → valid_item bs x) →
  (∀ b, b ∈ bs → answerable b = true) →
  render_validated_answer_contract repr isalnum bs (map snd items) = Ok (answer, claims) →
  ∀ c, c ∈ claims → grounded bs c.
Proof.
  intros Hv Hb (rs & E & [= _ <-])%result_Ok c Hc. apply render_items_valid in E as [Hall _]; [|done].
  apply claims_exported in Hc as (unit_id & text & ids & cs & Hin & Hcs & Et & Hr).
  apply elem_of_map in Hin as ([a [unit_id' cs']] & [= -> ->] & Hin).
  destruct (Hall _ Hin) as (b & Eb & _ & Hcl). simpl in Eb. apply last_bundle_elem in Eb as Hbin.
  destruct (Hcl _ Hcs) as (_ & _ & Hid). exists b, a, text. split_and!; [by apply Hbin|apply Hb, Hbin|auto|done|done].
Qed.

(** What an accepted reply promises. *)
Record accepted_answer (bs : list bundle) (answer : string) (claims : list claim) (answered : list string) : Prop := {
  aa_claims : ∀ c, c ∈ claims → grounded bs c;
  aa_once : NoDup answered;
  aa_units : ∀ id, id ∈ answered → ∃ b, b ∈ bs ∧ bundle_unit_id b = id ∧ answerable b = true;
  aa_text : ∃ answers, answer = String.concat newline answers ∧ length answers = length answered;
}.

Lemma accepted_reply bs data items rejected answer claims : (∀ b, b ∈ bs → answerable b = true) →
  validated_answer_contract_items repr data bs = Ok (items, rejected) →
  render_validated_answer_contract repr isalnum bs (map snd items) = Ok (answer, claims) →
  accepted_answer bs answer claims (map fst items).
Proof.
  intros Hb [Hv Hnd]%contract_items_valid E. simpl in *. split; [by eapply rendered_grounded|done| |].
  - intros id (item & <- & Hin)%elem_of_map. destruct (Hv _ Hin) as (_ & _ & _ & b & _ & Eb & _).
    apply last_bundle_elem in Eb as [? ?]. exists b. auto.
  - apply result_Ok in E as (rs & E & [= <- _]). exists (map fst rs). split; [done|].
    apply render_items_valid in E as [_ Hids]; [|done]. rewrite <- Hids, !length_map. done.
Qed.

Lemma contract_attempts_spec bs replies : (∀ b, b ∈ bs → answerable b = true) → ∀ n failures r,
  contract_attempts repr isalnum bs n failures replies = Ok r →
  match r with
  | inl (answer, claims, ct) =>
      accepted_answer bs answer claims (ct_answered_units ct) ∧ ct_answered_units ct ≠ []
      ∧ n + 1 ≤ ct_attempts ct ≤ n + length_of replies
      ∧ ct_status ct = (if ct_attempts ct =? 1 then "valid" else "repaired")
  | inr (m, _) => m = n + length_of replies
  end.
Proof.
  intros Hb. unfold length_of. induction replies as [|[data|e] replies IH]; intros n failures r; cbn [contract_attempts].
  - intros [= <-]. simpl. lia.
  - intros ([items rejected] & Ec & E)%result_Ok. cbn [fst snd] in E. case_bool_decide as Hi.
    + specialize (IH _ _ _ E). destruct r as [[[answer claims] ct]|[m ?]]; [|simpl in *; lia].
      destruct IH as (? & ? & ? & ?). split_and!; try done; simpl; lia.
    + apply result_Ok in E as ([answer claims] & Er & [= <-]). simpl. split_and!.
      * by eapply accepted_reply.
      * by destruct items.
      * lia.
      * lia.
      * destruct (Z.eqb_spec n 0), (Z.eqb_spec (n + 1) 1); done || lia.
  - intros E. specialize (IH _ _ _ E). destruct r as [[[answer claims] ct]|[m ?]]; [|simpl in *; lia].
    destruct IH as (? & ? & ? & ?). split_and!; try done; simpl; lia.
Qed.

(** ** The only exception *)

Definition only_type_errors {A} (r : result A) : Prop := ∀ e, r = Raise e → e = TypeError "not iterable".

Lemma type_errors_ret {A} (a : A) : only_type_errors (mret a).
Proof. by intros e. Qed.
Lemma type_errors_bind {A B} (r : result A) (f : A → result B) :
  only_type_errors r → (∀ a, only_type_errors (f a)) → only_type_errors (r ≫= f).
Proof. intros Hr Hf e. destruct r as [a|e']; simpl; [by apply Hf|]. intros [= ->]. by apply Hr. Qed.

Lemma type_errors_ids fields : only_type_errors (evidence_ids_of repr fields).
Proof.
  apply type_errors_bind; [|intros; apply type_errors_ret]. unfold iterate.
  case_match; [|by intros e]. case_match; intros e; congruence.
Qed.
Lemma type_errors_validate data bs : only_type_errors (validated_answer_contract_items repr data bs).
Proof.
  assert (∀ items seen rejected, only_type_errors (check_items repr bs seen rejected items)) as Hitems.
  { induction items as [|item items IH]; intros seen rejected; simpl; [apply type_errors_ret|].
    apply type_errors_bind.
    - unfold check_item. destruct item; try apply type_errors_ret.
      apply type_errors_bind; [apply type_errors_ids|]. intros ids. case_match; apply type_errors_ret.
    - intros [|]; [apply IH|]. apply type_errors_bind; [apply IH|intros; apply type_errors_ret]. }
  unfold validated_answer_contract_items. destruct data; try apply type_errors_ret.
  destruct (get _ _); try apply type_errors_ret. apply type_errors_bind; [apply Hitems|intros; apply type_errors_ret].
Qed.
Lemma type_errors_render bs items : only_type_errors (render_validated_answer_contract repr isalnum bs items).
Proof.
  apply type_errors_bind; [|intros; apply type_errors_ret].
  induction items as [|fields items IH]; simpl; [apply type_errors_ret|].
  apply type_errors_bind; [|intros; apply type_errors_bind; [apply IH|intros; apply type_errors_ret]].
  unfold render_item. apply type_errors_bind; [apply type_errors_ids|]. intros ids.
  case_match; [apply type_errors_ret|]. apply type_errors_bind; [|intros; apply type_errors_ret].
  destruct (get "claims" fields) as [| | | |raws|]; try apply type_errors_ret.
  induction raws as [|raw raws IHr]; simpl; [apply type_errors_ret|].
  apply type_errors_bind; [|intros; apply type_errors_bind; [apply IHr|intros; apply type_errors_ret]].
  unfold check_claim. destruct raw; try apply type_errors_ret.
  apply type_errors_bind; [apply type_errors_ids|intros; apply type_errors_ret].
Qed.
Lemma type_errors_attempts bs replies : ∀ n failures,
  only_type_errors (contract_attempts repr isalnum bs n failures replies).
Proof.
  induction replies as [|[data|e] replies IH]; intros n failures; cbn [contract_attempts]; [apply type_errors_ret| |apply IH].
  apply type_errors_bind; [apply type_errors_validate|]. intros [items rejected]. cbn [fst snd].
  case_bool_decide; [apply IH|]. apply type_errors_bind; [apply type_errors_render|intros; apply type_errors_ret].
Qed.

(** * The properties *)

(** C14: Whatever the model replies, an answer is grounded: each claim that is exported with it refers only to memories, versions and notes of the evidence of one answerable unit and its wording is part of a rendered answer, each unit is answered at most once, only answerable units are answered, and the model is asked at most twice. *)
Theorem answers_are_grounded complete_json p bs answer claims ct :
  answer_with_claims repr isalnum complete_json p bs = Ok (answer, claims, ct) →
  (∀ c, c ∈ claims → grounded bs c)
  ∧ NoDup (ct_answered_units ct)
  ∧ (∀ id, id ∈ ct_answered_units ct → ∃ b, b ∈ bs ∧ bundle_unit_id b = id ∧ answerable b = true)
  ∧ 0 ≤ ct_attempts ct ≤ 2
  ∧ (ct_answered_units ct ≠ [] → ct_status ct = if ct_attempts ct =? 1 then "valid" else "repaired")
  ∧ (ct_status ct = "failed" → claims = [] ∧ ct_attempts ct = 2 ∧ answer = answer_contract_failure_answer p bs).
Proof.
  assert (∀ c : claim, c ∈ [] → grounded bs c) as Hc by by intros c Hc%elem_of_nil.
  assert (∀ id : string, id ∈ [] → ∃ b, b ∈ bs ∧ bundle_unit_id b = id ∧ answerable b = true) as Hid
    by by intros id Hid%elem_of_nil.
  unfold answer_with_claims. destruct (_ || _).
  { intros [= <- <- <-]. simpl. split_and!; try done; constructor. }
  case_bool_decide; [intros [= <- <- <-]; simpl; split_and!; try done; constructor|].
  intros (r & E & Er)%result_Ok. apply contract_attempts_spec in E.
  2: { intros b Hb. by apply list_elem_of_In, filter_In in Hb as [_ ?]. }
  destruct r as [[[answer' claims'] ct']|[m failures]].
  - injection Er as <- <- <-. destruct E as ([Hcl Hnd Hun _] & Hne & Hatt & Hst).
    assert (∀ b, b ∈ List.filter answerable bs → b ∈ bs) as Hsub.
    { intros b Hb. apply list_elem_of_In, filter_In in Hb as [? _]. by apply list_elem_of_In. }
    unfold length_of in Hatt. simpl in Hatt. split_and!.
    + intros c Hin. destruct (Hcl c Hin) as (b & ? & ? & Hb & ?). exists b. eauto.
    + done.
    + intros id (b & Hb & ?)%Hun. exists b. auto.
    + lia.
    + lia.
    + done.
    + rewrite Hst. by case_match.
  - injection Er as <- <- <-. unfold length_of in E. simpl in *. split_and!; try done; try lia; try constructor; try done; lia.
Qed.

(** The answer never fails because the provider does: the only exception that leaves the synthesis is the TypeError of a reply whose evidence_ids cannot be iterated. *)
Theorem only_malformed_citations_escape complete_json p bs e :
  answer_with_claims repr isalnum complete_json p bs = Raise e →
  e = TypeError "not iterable" ∧ ∃ n data, complete_json n = Ok data.
Proof.
  unfold answer_with_claims. intros E. destruct (_ || _); [done|]. case_bool_decide; [done|].
  assert (contract_attempts repr isalnum (List.filter answerable bs) 0 [] [complete_json 0%nat; complete_json 1%nat]
    = Raise e) as Ea.
  { destruct (contract_attempts _ _ _ _ _ _) as [r|e'] eqn:Ea; [done|]. simpl in E. congruence. }
  split; [by eapply type_errors_attempts|].
  destruct (complete_json 0%nat) as [data|e0] eqn:E0; [by exists 0%nat, data|].
  destruct (complete_json 1%nat) as [data|e1] eqn:E1; [by exists 1%nat, data|]. done.
Qed.
End answers.

(** * Concrete runs *)

Definition no_repr (v : json) : string := "None".
Definition alnum (c : string) : bool := negb (py_in c [" "; "."; ","]).
Definition reply (evidence_ids : json) : json :=
  JObject [("unit_answers", JList [JObject [("unit_id", JString "u1"); ("answer", JString "In Paris.");
    ("evidence_ids", evidence_ids);
    ("claims", JList [JObject [("text", JString "in paris"); ("evidence_ids", JList [JString "m1"])]])]])].
Definition one_unit : ask_plan := AskPlan "q" [] [ask_unit "u1" "semantic_current" (Some "semantic") []] "direct".
Definition paris : evidence_item :=
  EvidenceItem "m1" "memory" (Some "semantic") "Paris" None (Some "m1") None None ["n1"] None None [] "current_candidate".
Definition one_bundle : list bundle :=
  [Bundle "u1" [paris] (UnitResolution "resolved" (Some "Paris") "direct_domain_evidence" ["m1"] [])].
Definition answer_to (replies : nat → result json) : result (string * list claim * contract) :=
  @answer_with_claims test_platform no_repr alnum replies one_unit one_bundle.

(** The first attempt fails, the second is accepted. *)
Definition second_valid (n : nat) : result json :=
  match n with O => Raise (TimeoutError "") | _ => Ok (reply (JList [JString "m1"])) end.
Definition repaired_answer : string * list claim * contract :=
  ("In Paris.", [Claim "in paris" ["m1"] [] ["n1"] "current"],
   Contract "repaired" 2 None [("provider_TimeoutError", 1)] ["u1"]).

Lemma answers_are_grounded_witness :
  answer_to second_valid = Ok repaired_answer
  ∧ ∀ c, c ∈ [Claim "in paris" ["m1"] [] ["n1"] "current"] → @grounded test_platform alnum one_bundle c.
Proof.
  split; [vm_compute; reflexivity|].
  apply (@answers_are_grounded test_platform no_repr alnum second_valid one_unit one_bundle "In Paris."
    [Claim "in paris" ["m1"] [] ["n1"] "current"] (Contract "repaired" 2 None [("provider_TimeoutError", 1)] ["u1"])).
  vm_compute. reflexivity.
Defined.

(** A number in place of the list of citations is not rejected: the exception leaves the
    synthesis, although the repair of the second attempt was still to come. *)
Definition number_cited (n : nat) : result json :=
  match n with O => Ok (reply (JNumber "1" false)) | _ => Ok (reply (JList [JString "m1"])) end.
Lemma only_malformed_citations_escape_witness :
  answer_to number_cited = Raise (TypeError "not iterable")
  ∧ TypeError "not iterable" = TypeError "not iterable" ∧ ∃ n data, number_cited n = Ok data.
Proof.
  split; [vm_compute; reflexivity|].
  apply (@only_malformed_citations_escape test_platform no_repr alnum number_cited one_unit one_bundle
    (TypeError "not iterable")).
  vm_compute. reflexivity.
Defined.
